(* ===== verification/_CoqProject ===== *)
-Q . S2P
Prelude.v
Text.v
Core.v
Dag.v
Version.v
Digest.v
Machine.v
Blobs.v
Component.v
Run.v
Workflow.v
Task.v
TaskLifecycle.v
Publication.v
Event.v
Memory.v
Ports.v
Exec.v
Scicapsule.v
Hub.v
Submit.v
Execute.v
Attempts.v
Threads.v
Worker.v
Guarantee.v
Schedule.v
System.v
Capacity.v
Distributed.v
Transport.v
Lease.v
WorkerHost.v
Remote.v
RemoteWorker.v
Pool.v
Sql.v
SqliteStore.v
SqliteRefine.v
SqlitePorts.v
SqliteMemory.v
SqliteAnswers.v
SandboxAttempt.v
SqlitePublication.v
SqliteHistory.v
SqliteMigrations.v
Reads.v
Metrics.v
SqliteReads.v
Wire.v
Auth.v
Api.v
ApiSafety.v
ApiFlows.v
ApiExamples.v
Supervise.v
Process.v
Lines.v
GvisorPolicy.v
Gvisor.v
Checkout.v
Materialize.v
Mcp.v
McpHub.v
RemoteOps.v
Daemon.v
WorkerApp.v
Cli.v
