(* ===== verification/Prelude.v ===== *)
(** * SciRust Hub: a verification development

    SciRust Hub is a control plane for computational components: it registers
    immutable component manifests, stores artifacts by content, queues and
    executes runs of a component's capabilities, schedules workflows of runs,
    and tracks agent tasks.  This library models its Rust code: the pure core
    (src/crates/hub-core), the executors and the worker (hub-executor,
    hub-protocol), the durable store (hub-store-sqlite), the HTTP API
    (hub-api), the MCP bridge (hub-mcp) and the applications (src/apps).  File names below are relative to the src/
    directory of the crate named with them.

    ** The program's parts, the files that model them and their interfaces

    Foundations.
    - [Prelude]: results and early returns, actions (state plus result), the
      [steps] and [triple] rules for them, iteration order of [BTreeMap]s,
      fixed-width arithmetic.  [Text]: Rust strings as UTF-8 bytes.  [Lines]:
      what the executors use to read the output of other programs.
    - [Core]: id.rs, error.rs, limits.rs and the state enums of run.rs,
      workflow.rs and task_lifecycle.rs.
    - [Dag]: dag.rs.  [Version]: version.rs.  [Digest]: digest.rs.
    - [Machine]: the file system, clock and UUIDs the crate calls (clock.rs,
      [std::fs]).  [Blobs]: [FileSystemArtifactStore] of memory.rs on it.

    Records and their rules (hub-core).
    - [Component]: capability.rs, component.rs, artifact.rs.  [Run]: run.rs.
      [Workflow]: workflow.rs, on [Dag].  [Task]: task.rs.
      [TaskLifecycle]: task_lifecycle.rs.
    - [Publication]: publication.rs: the fence authority as a class with
      laws, and the in-memory implementation that satisfies them.
    - [Event]: event.rs.  [Memory]: the in-memory repositories of memory.rs.
      [Ports]: the repository traits of store.rs as a class with laws
      ([RepositoriesLaws]); the in-memory store is an instance.
    - [Exec]: exec.rs, the executor port.  [Scicapsule]: scicapsule.rs.
      [RemoteOps]: remoteops_qualification.rs, remoteops_host_snapshot.rs.

    The orchestrator (orchestrator.rs), proved against the interfaces
    [RepositoriesLaws] and [PublicationFenceLaws], not against one store.
    - [Hub]: its state.  [Submit]: registration, discovery, ingestion,
      submission of runs and workflows, [cancel_run], [build_request].
    - [Execute]: [execute_run] from the claim to the terminal record.
    - [Attempts]: the attempt ledger, input resolution, [cancel_workflow],
      both recoveries after a restart, [reproduce_run].
    - [Threads]: threads of atomic actions, executions under interference,
      rely-guarantee rules.  [Worker]: [execute_parallel_step] as such a
      thread.  [Guarantee]: what each worker action leaves alone.
    - [Schedule]: the scheduler loop of [execute_workflow_inner] as steps.
    - [System]: scheduler, workers and other callers together.
    - [Reads]: the accessors that only read, and the ports they use
      ([Listings], [LifecycleEventRepository]).

    Execution (hub-executor, hub-protocol).
    - [Supervise]: execution_guard.rs, on a kernel that is a parameter
      ([ProcessHost]).  [Process]: lib.rs, [ProcessExecutor] on it.
    - [Capacity]: local_capacity.rs, the slots shared by concurrent callers.
    - [Distributed]: distributed.rs.  [Transport]: the files that travel with
      a lease.  [Lease] and [WorkerHost]: worker.rs, the lease book and the
      service on which handlers and leases interleave.  [Remote]: remote.rs
      against any network ([HttpClient]).  [RemoteWorker]: both ends
      together.  [Pool]: pool.rs.
    - [GvisorPolicy]: the requests, the evidence, the descriptor and the
      quotas of gvisor.rs and gvisor_workspace_quota.rs.  [Gvisor]:
      execution and reconciliation of gvisor.rs with gvisor_journal.rs, over
      the guarded commands of [Supervise] and the journal of
      [SandboxAttempt].
    - [Checkout] and [Materialize]: workspace.rs.

    The durable store (hub-store-sqlite).
    - [Sql]: tables, queries and transactions whose statements may fail.
      [SqliteStore]: lib.rs.  [SandboxAttempt]: sandbox_attempt.rs.
      [SqlitePublication]: publication.rs.  [SqliteMigrations]: the schema.
    - [SqlitePorts] and [SqliteReads] discharge the laws of [Ports] and
      [Reads], so that what is proved of the orchestrator and the API against
      those interfaces holds on the database.  [SqliteRefine],
      [SqliteMemory], [SqliteAnswers]: it refines the in-memory store.
      [SqliteHistory]: all its operations in any order.

    Transports.
    - [Wire]: hub-protocol/lib.rs.  [Auth]: hub-api/auth.rs.  [Metrics]:
      hub-api/metrics.rs.  [Api]: hub-api/lib.rs, the routes, the middleware
      and a handler per endpoint.  [ApiSafety] and [ApiFlows]: theorems on
      it.  [ApiExamples]: a concrete server.
    - [Mcp]: hub-mcp/lib.rs and main.rs, over any way to fetch JSON.
      [McpHub]: its HTTP client, answered by the router of [Api].
    - [Daemon]: scirust-hubd/main.rs up to the point where it serves.
      [WorkerApp]: scirust-hub-worker/main.rs, start and shutdown.  [Cli]:
      scirust-hub/main.rs, its requests answered by the router of [Api].

    ** How state and operations correspond

    A record or enum of the source is a record or inductive of the same name,
    with a prefix on its fields.  A [BTreeMap] is a [gmap] iterated in key
    order, a [BTreeSet] a [gset] likewise.  A method that changes [self] is a
    function to the new state and its result; what was written before an error
    stays written.  [?] is the bind of [result].  A fallible loop is
    structural recursion with the same early exits.  A message built with
    [format!] keeps its template text, except where the text is compared
    or sent on (the failure texts of a run, the metrics page, the arguments
    of Docker and git, paths and URLs), which is built.  [u64] arithmetic
    that may overflow is checked or saturating as in the source.

    External code is a parameter: SHA-256 ([Sha256Lib]), serde_json
    ([JsonLib], [ManifestJson], [WorkspaceJson], [SerdeJson], [ValueJson] and
    one class per document), uuid ([UuidLib], [UuidText]), axum
    ([WebFramework]), ureq ([HttpClient], [UrlClient]), git
    ([WorkspaceHost]), Docker ([ControllerHost]) and the executor backend
    ([Executor]).  What the outside decides -- faults of system calls, how
    reads are cut, times, UUIDs, when processes write, fork and exit -- is a
    function of a tick of the machine, or of the history of what was asked,
    so a theorem for all environments covers every pattern of faults.  Laws
    of a parameter are separate classes ([Sha256Laws] and the like) that only
    the theorems that need them assume; each is satisfied by a concrete
    instance in the witnesses.

    ** What the theorems show

    - Graph ([Dag], [Workflow]): reachability is decided and terminates, an
      edge is accepted exactly when it keeps the graph acyclic, the order is
      the least topological one, and validation accepts exactly the
      well-formed workflows.
    - Records ([Run], [TaskLifecycle], [Task]): every sequence of calls keeps
      the record well-formed, a new snapshot is accepted exactly if it
      continues the old one, admission to a sandbox is exact, and the
      workspace evidence binds to its content.
    - Storage ([Digest], [Blobs], [Memory], [Event], [Publication], [Ports]):
      hashing separates domains, blobs survive every fault pattern and verified
      reads return exact content, the registry is immutable, the chronology of
      a run is its history, polling misses no event, cancellation intent is
      never lost, and a superseded attempt never publishes.
    - Requests ([Submit], [Component]): outputs stay inside the working
      directory, submission admits against an exact registered identity, and
      the request built is the declared one with its placeholders resolved.
    - Runs ([Execute], [Attempts]): [execute_run] finishes the record exactly
      as the executor's report says or leaves it where a failure found it,
      reproduction re-submits the exact identity, cancellation and the two
      recoveries stop every run they should and touch nothing else.
    - Workflows ([Worker], [System]): a worker publishes exactly what its
      successful attempt produced; in every interleaving of the scheduler, its
      workers and other callers the order of dependencies, the concurrency
      limit and the data flow are kept; execution never gets stuck and
      terminates without fairness; Succeeded means that every step published
      the outputs of a run on the outputs of its dependencies.  The
      interference assumed is discharged: by [worker_guarantee] for the
      workers, and by [concurrent_calls_external] for the Hub's other calls.
    - Database: committed operations do what the in-memory store does and
      failed ones nothing, over whole histories in which no record changes
      its creation time; publication needs the
      current fence, a live workflow and stored outputs; the journal of
      sandboxes never gives a task or a workspace away twice; migrations run
      once; listings and event pages answer as in memory.
    - Processes: an outcome is only reported when the child is reaped, its
      group is empty and the captures are exact; every execution returns, and
      a failure says truly which call failed or what was still there after
      its second of grace.
    - Workers: an attempt is executed at most once and its result is the
      executor's; a remote execution is the local one on the worker; files
      stay inside the work directory; the client returns once the lease it was
      given has expired or its token is cancelled, if not before.
    - gVisor: admission only on evidence for the very commit and exactly what
      is enforced; at each Docker call the journal names the container, and a
      receipt means that it is gone; reconciliation only looks.
    - Workspaces: the digest identifies the files of a checkout up to
      collisions of SHA-256 and does not depend on the order of the listing;
      a materialized workspace is the requested commits, clean, or nothing.
    - API: which requests may change what, exact access decisions, errors in
      envelopes, bounded binary answers, uploads that come back, complete
      polling.
    - Bridge, documents and daemon: an MCP session sends the hub only GETs of
      its catalogue and changes nothing there, and its replies match its
      requests; an imported qualification is
      not stretched; worker credentials are exact; an open control plane is
      never served to the network, and both recoveries precede serving.
    - Worker application and client: a shutdown ends within its grace period,
      admits nothing new, and is quiet for good when it says so; commands
      that read change nothing, and a run that is waited for is the run that
      was submitted.

    ** Bounds and fuel

    [Dag]'s search has fuel one more than the number of edges plus nodes it
    can push, proved enough ([dag_reachable_decides]).  [attempt_loop] has
    the policy's [max_attempts] as fuel; its last case is never reached, which
    [step_publication_exact] proves.  The loop over a file's reads is bounded
    by the reads delivered.  The scheduler is a relation, not a function with
    fuel: it takes at most [8 * steps + 3] steps.  [drive] runs one execution
    for the concrete examples only.  The loops of [Supervise] and [Process]
    are bounded by [CONFIRM_TURNS] and [execution_turns], enough whatever the
    kernel does ([process_execution_terminates]).  The walk over a directory
    has the depth of the tree ([tree_fuel]), [poll_loop] of [Remote] has fuel
    that is enough for every session that is over at some time
    ([remote_execute_terminates]; for others no fuel is enough,
    [remote_polls_for_ever]), [drain_loop] one look per 25 ms of the
    grace period ([worker_shutdown_orderly]), [http_poll] one more than the number of
    events ([http_poll_complete]), [replace_str] the length of the text.

    ** Modelling decisions and limits

    - A worker's action is one critical section or one call on the Hub;
      [execute_run] is one action, because it holds the claim on its run and
      what others change meanwhile only reaches it through its token and the
      executor, which may answer anything anyway.  A scheduler step is one
      piece of the loop body.  The workflow record is one lock.
    - [cancel_run] of a run that is not executing and [put] of the in-memory
      store are one action, although the source holds no lock, or several one
      after the other, between their reads and writes.  What holds of the
      Hub's calls and of workflows is therefore said of runs that nobody
      claims during a [cancel_run] of them; [cancel_run_read] and
      [cancel_run_store] are its two pieces, and
      [cancellation_overwrites_success] shows what a claim in between does.
    - UUIDs do not collide: the transitions of a workflow execution assume
      that the UUIDs still to be drawn name no stored run ([uuids_fresh]),
      those of the worker service that they name no lease
      ([lease_ids_fresh]).
    - Poisoned locks are left out: no thread panics while holding one.  The
      wait of a retry is a number of polls that the environment decides.
    - An SQL statement is the function on the tables that its text says;
      statements inside transactions may fail, standalone queries do not.
      The fences are a store of their own next to the repositories in the
      orchestrator, also where SQLite serves both.
    - Handlers of the API run one after the other, except that a download
      is two steps, between which its handler may be dropped; an offloaded call that panics is its [JoinError].
      [execute_workflow] is a parameter of the API: one call of it is an
      execution of [System].
    - [ProcessHostLaws]: an empty process group stays empty and a closed pipe
      keeps what was written; nothing else is assumed of processes.
      [ControllerLaws]: other controllers act on the journal by its
      operations, and a successful, empty [container ls] for an identifier
      means that the daemon does not hold that container.
    - Before each request of the command-line client other clients do to the
      daemon what they like ([Cli.others]).
    - The clocks are [u64]s: that of the Hub is cut, those of the worker and
      of its client saturate.  A cancellation token is a function of the tick.

    ** Not modelled

    - The main function of the gVisor command (bin/scirust-hub-gvisor.rs),
      which calls one of the operations of [Gvisor] and prints the answer,
      the texts the client prints for human readers, and the adapter scripts.
    - tracing, argument parsing, TLS handshakes, listeners and signals;
      [Debug] and [Display] texts that nothing reads back.
    - The derivations of serde, except for what a document's parser accepts
      as a parameter: bodies travel as the values they decode to. *)

From stdpp Require Import base gmap strings list sorting fin_maps pretty.
From stdpp Require Import options.

(** ** Rust's [Result] and early returns

    [result E A] is [Result<A, E>].  The [?] operator and the
    [return Err(..)] guards of the source are the monad's bind and
    [ensure]. *)
Inductive result (E A : Type) : Type :=
| Ok (a : A)
| Err (e : E).
Arguments Ok {E A} a.
Arguments Err {E A} e.

#[global] Instance result_ret {E} : MRet (result E) := fun A a => Ok a.
#[global] Instance result_bind {E} : MBind (result E) :=
  fun A B f m => match m with Ok a => f a | Err e => Err e end.
#[global] Instance result_fmap {E} : FMap (result E) :=
  fun A B f m => match m with Ok a => Ok (f a) | Err e => Err e end.

#[global] Instance result_eq_dec {E A} `{EqDecision E, EqDecision A} :
  EqDecision (result E A).
Proof. solve_decision. Defined.

(** [if !b { return Err(e) }]. *)
Definition ensure {E} (b : bool) (e : E) : result E unit :=
  if b then Ok tt else Err e.

(** [opt.ok_or(e)]. *)
Definition ok_or {E A} (o : option A) (e : E) : result E A :=
  match o with Some a => Ok a | None => Err e end.

(** [r.map_err(f)]. *)
Definition map_err {E F A} (f : E -> F) (r : result E A) : result F A :=
  match r with Ok a => Ok a | Err e => Err (f e) end.

Definition is_ok {E A} (r : result E A) : bool :=
  match r with Ok _ => true | Err _ => false end.

(** [for x in xs { s = body(s, x)?; }]. *)
Fixpoint foldM {E S A} (body : S -> A -> result E S) (s : S) (xs : list A)
  : result E S :=
  match xs with
  | [] => Ok s
  | x :: xs => s' ← body s x; foldM body s' xs
  end.

(** [for x in xs { body(x)?; }]. *)
Fixpoint forM_ {E A} (body : A -> result E unit) (xs : list A)
  : result E unit :=
  match xs with
  | [] => Ok tt
  | x :: xs => _ ← body x; forM_ body xs
  end.

(** [xs.iter().map(f).collect::<Result<Vec<_>, _>>()?]. *)
Fixpoint mapR {E A B} (f : A -> result E B) (xs : list A) : result E (list B) :=
  match xs with
  | [] => Ok []
  | x :: xs => y ← f x; ys ← mapR f xs; Ok (y :: ys)
  end.

(** [if !seen.insert(k) { return Err(e) }] on a [BTreeSet]. *)
Definition insert_seen {E K} `{Countable K} (seen : gset K) (k : K) (e : E)
  : result E (gset K) :=
  if decide (k ∈ seen) then Err e else Ok ({[k]} ∪ seen).

Lemma bind_Ok {E A B} (m : result E A) (f : A -> result E B) b :
  m ≫= f = Ok b <-> exists a, m = Ok a /\ f a = Ok b.
Proof. destruct m; cbn; naive_solver. Qed.

Lemma bind_Err {E A B} (m : result E A) (f : A -> result E B) e :
  m ≫= f = Err e <-> m = Err e \/ exists a, m = Ok a /\ f a = Err e.
Proof. destruct m; cbn; naive_solver. Qed.

Lemma ensure_Ok {E} b (e : E) u : ensure b e = Ok u <-> b = true.
Proof. destruct b, u; cbn; naive_solver. Qed.

Lemma ensure_Err {E} b (e e' : E) : ensure b e = Err e' <-> b = false /\ e = e'.
Proof. destruct b; cbn; naive_solver. Qed.

Lemma ok_or_Ok {E A} (o : option A) (e : E) a : ok_or o e = Ok a <-> o = Some a.
Proof. destruct o; cbn; naive_solver. Qed.

Lemma map_err_Ok {E F A} (f : E -> F) (r : result E A) a :
  map_err f r = Ok a <-> r = Ok a.
Proof. destruct r; cbn; naive_solver. Qed.

Lemma bind_ensure {E B} b (e : E) (f : unit -> result E B) :
  b = true -> ensure b e ≫= f = f tt.
Proof. by intros ->. Qed.

Lemma bind_ok_or {E A B} (o : option A) (e : E) (f : A -> result E B) a :
  o = Some a -> ok_or o e ≫= f = f a.
Proof. by intros ->. Qed.

Lemma is_ok_spec {E A} (r : result E A) : is_ok r = true <-> exists a, r = Ok a.
Proof. destruct r; cbn; naive_solver. Qed.

Lemma insert_seen_Ok {E K} `{Countable K} (seen seen' : gset K) k (e : E) :
  insert_seen seen k e = Ok seen' <-> k ∉ seen /\ seen' = {[k]} ∪ seen.
Proof. unfold insert_seen. case_decide; naive_solver. Qed.

(** Inversion of monadic code: [ok_inv] turns every hypothesis
    [c = Ok v] about a sequence of checks into the facts the checks
    establish. *)
Ltac ok_inv_step :=
  match goal with
  | H : _ ≫= _ = Ok _ |- _ =>
      let a := fresh "r" in let H1 := fresh "Hr" in
      apply bind_Ok in H as (a & H1 & H); cbn beta in H
  | H : mret _ = Ok _ |- _ => unfold mret, result_ret in H
  | H : ensure _ _ = Ok _ |- _ => apply ensure_Ok in H
  | H : ok_or _ _ = Ok _ |- _ => apply ok_or_Ok in H
  | H : map_err _ _ = Ok _ |- _ => apply map_err_Ok in H
  | H : insert_seen _ _ _ = Ok _ |- _ => apply insert_seen_Ok in H as [? H]
  | H : Ok _ = Ok _ |- _ => injection H as H
  | H : Err _ = Ok _ |- _ => discriminate H
  | H : Ok _ = Err _ |- _ => discriminate H
  end.
Ltac ok_inv := repeat (ok_inv_step; try subst).

(** Boolean guards of the source as propositions. *)
Ltac bool_inv_step :=
  match goal with
  | H : _ && _ = true |- _ => apply andb_true_iff in H as [? H]
  | H : _ || _ = false |- _ => apply orb_false_iff in H as [? H]
  | H : negb _ = true |- _ => apply negb_true_iff in H
  | H : negb _ = false |- _ => apply negb_false_iff in H
  | H : bool_decide _ = true |- _ => apply bool_decide_eq_true in H
  | H : bool_decide _ = false |- _ => apply bool_decide_eq_false in H
  | H : (_ <=? _)%N = true |- _ => apply N.leb_le in H
  | H : (_ <=? _)%N = false |- _ => apply N.leb_gt in H
  | H : (_ <? _)%N = true |- _ => apply N.ltb_lt in H
  | H : (_ <? _)%N = false |- _ => apply N.ltb_ge in H
  | H : (_ =? _)%N = true |- _ => apply N.eqb_eq in H
  | H : (_ =? _)%N = false |- _ => apply N.eqb_neq in H
  end.
Ltac bool_inv := repeat bool_inv_step.

(** ** Monadic loops *)
Lemma foldM_app {E S A} (f : S -> A -> result E S) s xs ys :
  foldM f s (xs ++ ys) = s' ← foldM f s xs; foldM f s' ys.
Proof.
  revert s; induction xs as [|x xs IH]; intros s; [done|].
  cbn. destruct (f s x); cbn; [apply IH|done].
Qed.

Lemma forM_Ok {E A} (f : A -> result E unit) xs u :
  forM_ f xs = Ok u <-> Forall (fun x => f x = Ok tt) xs.
Proof.
  destruct u. induction xs as [|x xs IH]; cbn.
  - split; [constructor|done].
  - rewrite bind_Ok, Forall_cons, <- IH. split.
    + by intros ([] & ? & ?).
    + intros [? ?]. by exists tt.
Qed.

Lemma mapR_Ok {E A B} (f : A -> result E B) xs ys :
  mapR f xs = Ok ys <-> Forall2 (fun x y => f x = Ok y) xs ys.
Proof.
  revert ys; induction xs as [|x xs IH]; intros ys; cbn.
  - split; [intros [= <-]; constructor | by inversion 1].
  - rewrite bind_Ok. setoid_rewrite bind_Ok. setoid_rewrite IH. split.
    + intros (y & ? & ys' & ? & [= <-]). by constructor.
    + inversion 1; subst. eauto 10.
Qed.

(** An invariant of a monadic loop over the elements already consumed. *)
Lemma foldM_ind {E S A} (P : list A -> S -> Prop) (f : S -> A -> result E S)
    s xs s' :
  P [] s ->
  (forall pre x s1 s2, P pre s1 -> x ∈ xs -> f s1 x = Ok s2 -> P (pre ++ [x]) s2) ->
  foldM f s xs = Ok s' -> P xs s'.
Proof.
  intros H0 Hstep.
  enough (forall suf pre s1, xs = pre ++ suf -> P pre s1 ->
            foldM f s1 suf = Ok s' -> P xs s') as Hgen by (by apply Hgen with (pre := [])).
  induction suf as [|x suf IH]; intros pre s1 -> HP Hrun; cbn in Hrun.
  - injection Hrun as <-. by rewrite app_nil_r.
  - apply bind_Ok in Hrun as (s2 & H1 & H2).
    eapply (IH (pre ++ [x]) s2); [by rewrite <- app_assoc| |done].
    eapply Hstep; [done| |done]. set_solver.
Qed.

Lemma foldM_ext {E S A} (f g : S -> A -> result E S) s xs :
  (forall s x, f s x = g s x) -> foldM f s xs = foldM g s xs.
Proof.
  intros Hfg. revert s. induction xs as [|x xs IH]; intros s; [done|]. cbn. rewrite Hfg.
  destruct (g s x); cbn; [apply IH|done].
Qed.

(** Nested loops are one loop over the flattened list. *)
Lemma foldM_nested {E S A B C} (g : S -> C -> result E S) (h : A -> B -> C) (l : A -> list B)
    s xs :
  foldM (fun s x => foldM (fun s y => g s (h x y)) s (l x)) s xs =
  foldM g s (xs ≫= fun x => h x <$> l x).
Proof.
  revert s; induction xs as [|x xs IH]; intros s; [done|]. cbn.
  rewrite foldM_app.
  replace (foldM (fun s y => g s (h x y)) s (l x)) with (foldM g s (h x <$> l x)).
  - destruct (foldM g s (h x <$> l x)); cbn; [apply IH|done].
  - generalize (l x) as ys. intros ys. revert s. induction ys as [|y ys IHy]; intros s; [done|].
    cbn. destruct (g s (h x y)); cbn; [apply IHy|done].
Qed.

Lemma foldM_map_err {E F S A} (k : E -> F) (g : S -> A -> result E S) s xs :
  foldM (fun s x => map_err k (g s x)) s xs = map_err k (foldM g s xs).
Proof.
  revert s; induction xs as [|x xs IH]; intros s; [done|]. cbn.
  destruct (g s x); cbn; [apply IH|done].
Qed.

(** The ubiquitous loop of the validators: every element is checked, its key
    must be new, and further checks follow. *)
Lemma foldM_unique_checks_Ok {E A K} `{Countable K} (check check' : A -> result E unit)
    (key : A -> K) (dup : A -> E) (seen seen' : gset K) (xs : list A) :
  foldM (fun seen x => _ ← check x; seen ← insert_seen seen (key x) (dup x);
                       _ ← check' x; Ok seen) seen xs
    = Ok seen' <->
  Forall (fun x => check x = Ok tt /\ check' x = Ok tt) xs /\ NoDup (key <$> xs) /\
  (forall x, x ∈ xs -> key x ∉ seen) /\
  seen' = list_to_set (key <$> xs) ∪ seen.
Proof.
  revert seen; induction xs as [|x xs IH]; intros seen; cbn.
  - split.
    + intros [= <-]. split_and!; [constructor|constructor|set_solver|].
      apply leibniz_equiv. set_solver.
    + intros (_ & _ & _ & ->). f_equal. apply leibniz_equiv. set_solver.
  - rewrite bind_Ok. split.
    + intros (s1 & H1 & H2). ok_inv. destruct r, r1.
      apply IH in H2 as (Hall & Hnd & Hns & ->). split_and!.
      * by constructor.
      * apply NoDup_cons_2; [|done]. intros (y & Hy & Hin)%list_elem_of_fmap.
        specialize (Hns y Hin). set_solver.
      * intros y [->|Hy]%elem_of_cons; [done|]. specialize (Hns y Hy). set_solver.
      * apply leibniz_equiv. set_solver.
    + intros ([[Hx Hx'] Hall]%Forall_cons & [Hni Hnd]%NoDup_cons & Hns & ->).
      exists ({[key x]} ∪ seen). split.
      * rewrite Hx; cbn. apply bind_Ok. eexists. split; [|by rewrite Hx'].
        apply insert_seen_Ok. split; [|done]. apply Hns. set_solver.
      * apply IH. split_and!; [done|done| |apply leibniz_equiv; set_solver].
        intros y Hy [Heq%elem_of_singleton|Hin]%elem_of_union.
        -- apply Hni. rewrite <- Heq. by apply list_elem_of_fmap_2.
        -- revert Hin. apply Hns. set_solver.
Qed.

Lemma foldM_unique_Ok {E A K} `{Countable K} (check : A -> result E unit)
    (key : A -> K) (dup : A -> E) (seen seen' : gset K) (xs : list A) :
  foldM (fun seen x => _ ← check x; insert_seen seen (key x) (dup x)) seen xs
    = Ok seen' <->
  Forall (fun x => check x = Ok tt) xs /\ NoDup (key <$> xs) /\
  (forall x, x ∈ xs -> key x ∉ seen) /\
  seen' = list_to_set (key <$> xs) ∪ seen.
Proof.
  rewrite (foldM_ext _ (fun seen x => _ ← check x; seen ← insert_seen seen (key x) (dup x);
                                      _ ← Ok tt; Ok seen) seen xs).
  - rewrite (foldM_unique_checks_Ok check (fun _ => Ok tt)).
    split; (intros [Hall ?]; split; [|done]; eapply Forall_impl; [exact Hall|]; naive_solver).
  - intros s x. destruct (check x); cbn; [|done]. by destruct (insert_seen _ _ _).
Qed.

(** ** Stateful code

    Code that changes a state it shares and may fail: the state after the
    call, and what the call returned.  Nothing is rolled back on an error. *)
Definition action (S E A : Type) : Type := S -> S * result E A.

#[global] Instance action_ret {S E} : MRet (action S E) := fun A a s => (s, Ok a).
#[global] Instance action_bind {S E} : MBind (action S E) :=
  fun A B f m s => match m s with (s', Ok a) => f a s' | (s', Err e) => (s', Err e) end.

(** A pure computation, a read of the state, an error. *)
Definition lift {S E A} (r : result E A) : action S E A := fun s => (s, r).
Definition reads {S E A} (f : S -> result E A) : action S E A := fun s => (s, f s).
Definition throw {S E A} (e : E) : action S E A := fun s => (s, Err e).

(** [m] with its error changed: [m.map_err(f)]. *)
Definition rethrow {S E F A} (f : E -> F) (m : action S E A) : action S F A :=
  fun s => match m s with (s', r) => (s', map_err f r) end.

(** [let _ = m;]: the result is ignored. *)
Definition ignore {S E F A} (m : action S E A) : action S F unit := fun s => ((m s).1, Ok tt).

(** The result as a value: [match m { Ok(a) => .., Err(e) => .. }]. *)
Definition attempt {S E F A} (m : action S E A) : action S F (result E A) :=
  fun s => match m s with (s', r) => (s', Ok r) end.

(** Loops over stateful code: [for x in xs { body(x)?; }] and its variant that
    collects the results. *)
Fixpoint forA_ {S E A} (body : A -> action S E unit) (xs : list A) : action S E unit :=
  match xs with
  | [] => mret tt
  | x :: xs => _ ← body x; forA_ body xs
  end.

Fixpoint mapA {S E A B} (f : A -> action S E B) (xs : list A) : action S E (list B) :=
  match xs with
  | [] => mret []
  | x :: xs => y ← f x; ys ← mapA f xs; mret (y :: ys)
  end.

Lemma action_bind_Ok {S E A B} (m : action S E A) (f : A -> action S E B) s s' b :
  (m ≫= f) s = (s', Ok b) <-> exists s1 a, m s = (s1, Ok a) /\ f a s1 = (s', Ok b).
Proof. unfold mbind, action_bind. destruct (m s) as [s1 [a|e]]; naive_solver. Qed.

Lemma rethrow_Ok {S E F A} (f : E -> F) (m : action S E A) s s' a :
  rethrow f m s = (s', Ok a) <-> m s = (s', Ok a).
Proof. unfold rethrow. destruct (m s) as [s1 [b|e]]; cbn; naive_solver. Qed.

Lemma lift_Ok {S E A} (r : result E A) (s s' : S) a :
  lift r s = (s', Ok a) <-> s' = s /\ r = Ok a.
Proof. unfold lift. naive_solver. Qed.

Lemma reads_Ok {S E A} (f : S -> result E A) (s s' : S) a :
  reads f s = (s', Ok a) <-> s' = s /\ f s = Ok a.
Proof. unfold reads. split; [by intros [= -> ?]|by intros [-> ->]]. Qed.

Lemma mret_Ok {S E A} (a b : A) (s s' : S) :
  (mret a : action S E A) s = (s', Ok b) <-> s' = s /\ a = b.
Proof. unfold mret, action_ret. naive_solver. Qed.

(** [ok_inv] for stateful code. *)
Ltac act_inv_step :=
  match goal with
  | H : (_ ≫= _) _ = (_, Ok _) |- _ =>
      let s := fresh "s" in let a := fresh "r" in let H1 := fresh "Hr" in
      apply action_bind_Ok in H as (s & a & H1 & H); cbn beta in H
  | H : lift _ _ = (_, Ok _) |- _ => apply lift_Ok in H as [-> H]
  | H : reads _ _ = (_, Ok _) |- _ => apply reads_Ok in H as [-> H]
  | H : rethrow _ _ _ = (_, Ok _) |- _ => apply rethrow_Ok in H
  | H : throw _ _ = (_, Ok _) |- _ => discriminate H
  | H : mret _ _ = (_, Ok _) |- _ => apply mret_Ok in H as [? H]
  | u : unit |- _ => destruct u
  end.
Ltac act_inv := repeat (first [act_inv_step|ok_inv_step]; try subst).

(** [steps R m]: whatever happens, [m] takes the state along [R]. *)
Definition steps {S E A} (R : relation S) (m : action S E A) : Prop := forall s, R s (m s).1.

Create HintDb steps.

Section steps.
Context {S : Type} (R : relation S) `{!PreOrder R}.

Lemma steps_bind {E A B} (m : action S E A) (f : A -> action S E B) :
  steps R m -> (forall a, steps R (f a)) -> steps R (m ≫= f).
Proof using Type*.
  intros Hm Hf s. specialize (Hm s). unfold mbind, action_bind.
  destruct (m s) as [s1 [a|e]]; cbn in *; [|done]. etrans; [done|]. apply Hf.
Qed.

(** The continuation may rely on what the first call did. *)
Lemma steps_bind_post {E A B} (m : action S E A) (f : A -> action S E B) :
  steps R m -> (forall s s1 a, m s = (s1, Ok a) -> R s s1 -> R s (f a s1).1) -> steps R (m ≫= f).
Proof using Type*.
  intros Hm Hf s. specialize (Hm s). unfold mbind, action_bind.
  destruct (m s) as [s1 [a|e]] eqn:E1; cbn in *; [|done]. by apply (Hf _ _ a).
Qed.

Lemma steps_ret {E A} (a : A) : steps R (mret a : action S E A).
Proof using Type*. intros s. reflexivity. Qed.

Lemma steps_lift {E A} (r : result E A) : steps R (lift r).
Proof using Type*. intros s. reflexivity. Qed.

Lemma steps_reads {E A} (f : S -> result E A) : steps R (reads f).
Proof using Type*. intros s. reflexivity. Qed.

Lemma steps_throw {E A} (e : E) : steps R (throw e : action S E A).
Proof using Type*. intros s. reflexivity. Qed.

Lemma steps_rethrow {E F A} (f : E -> F) (m : action S E A) : steps R m -> steps R (rethrow f m).
Proof using Type. intros Hm s. specialize (Hm s). unfold rethrow. by destruct (m s). Qed.

Lemma steps_ignore {E F A} (m : action S E A) : steps R m -> steps R (ignore m : action S F unit).
Proof using Type. intros Hm s. apply Hm. Qed.

Lemma steps_attempt {E F A} (m : action S E A) :
  steps R m -> steps R (attempt m : action S F _).
Proof using Type. intros Hm s. specialize (Hm s). unfold attempt. by destruct (m s). Qed.
End steps.

(** One call that takes the state along [R]. *)
Lemma steps_run {S E A} (R : relation S) (m : action S E A) s s' r :
  steps R m -> m s = (s', r) -> R s s'.
Proof. intros Hm Hs. specialize (Hm s). by rewrite Hs in Hm. Qed.

Lemma steps_forA {S E A} (R : relation S) `{!PreOrder R} (body : A -> action S E unit) xs :
  (forall x, x ∈ xs -> steps R (body x)) -> steps R (forA_ body xs).
Proof.
  induction xs as [|x xs IH]; intros Hb; cbn; [by apply steps_ret|].
  apply steps_bind; [done|apply Hb; set_solver|]. intros _. apply IH. set_solver.
Qed.

Lemma steps_mapA {S E A B} (R : relation S) `{!PreOrder R} (f : A -> action S E B) xs :
  (forall x, x ∈ xs -> steps R (f x)) -> steps R (mapA f xs).
Proof.
  induction xs as [|x xs IH]; intros Hb; cbn; [by apply steps_ret|].
  apply steps_bind; [done|apply Hb; set_solver|]. intros y.
  apply steps_bind; [done|apply IH; set_solver|]. intros ys. by apply steps_ret.
Qed.

Lemma mapA_Ok {S E A B} (f : A -> action S E B) xs s s' ys :
  mapA f xs s = (s', Ok ys) -> Forall2 (fun x y => exists t t', f x t = (t', Ok y)) xs ys.
Proof.
  revert s s' ys; induction xs as [|x xs IH]; intros s s' ys; cbn.
  - intros [_ <-]%mret_Ok. constructor.
  - intros (s1 & y & Hy & (s2 & ys' & Hys & [_ <-]%mret_Ok)%action_bind_Ok)%action_bind_Ok.
    constructor; [by eauto|by eapply IH].
Qed.

(** [mapA_Ok], with what the earlier calls may have done to the state. *)
Lemma mapA_Ok_steps {S E A B} (R : relation S) `{!PreOrder R} (f : A -> action S E B) xs s s' ys :
  (forall x, steps R (f x)) -> mapA f xs s = (s', Ok ys) ->
  Forall2 (fun x y => exists t t', R s t /\ f x t = (t', Ok y)) xs ys.
Proof.
  intros Hf. revert s s' ys; induction xs as [|x xs IH]; intros s s' ys; cbn.
  - intros [_ <-]%mret_Ok. constructor.
  - intros (s1 & y & Hy & (s2 & ys' & Hys & [_ <-]%mret_Ok)%action_bind_Ok)%action_bind_Ok.
    constructor; [by exists s, s1|]. eapply Forall2_impl; [by eapply IH|].
    intros x' y' (t & t' & Ht & Hy'). exists t, t'. split; [|done].
    etrans; [by eapply steps_run|done].
Qed.

(** What every iteration establishes and no later one undoes. *)
Lemma mapA_post {S E A B} (R : relation S) `{!PreOrder R} (I : S -> Prop) (P : A -> S -> Prop)
    (f : A -> action S E B) xs s s' ys :
  (forall x, steps R (f x)) -> (forall s s', I s -> R s s' -> I s') ->
  (forall x s s', I s -> R s s' -> P x s -> P x s') ->
  (forall x s s' y, I s -> f x s = (s', Ok y) -> P x s') ->
  I s -> mapA f xs s = (s', Ok ys) -> forall x, x ∈ xs -> P x s'.
Proof.
  intros Hf HI HP Hpost. revert s ys; induction xs as [|x xs IH]; intros s ys Hs; cbn; [set_solver|].
  intros (s1 & y & Hx & (s2 & ys' & Hr & [-> _]%mret_Ok)%action_bind_Ok)%action_bind_Ok z Hz.
  assert (I s1) by (eapply HI; [exact Hs|eapply steps_run; [apply (Hf x)|exact Hx]]).
  apply elem_of_cons in Hz as [->|Hz]; [|by apply (IH s1 ys')].
  apply (HP x s1); [done| |exact (Hpost x s s1 y Hs Hx)]. eapply steps_run; [|exact Hr].
  apply steps_mapA; auto.
Qed.

Lemma forA_mapA {S E A} (body : A -> action S E unit) xs s s' :
  forA_ body xs s = (s', Ok tt) -> exists ys, mapA body xs s = (s', Ok ys).
Proof.
  revert s; induction xs as [|x xs IH]; intros s; cbn.
  - intros [-> _]%mret_Ok. by exists [].
  - intros (s1 & u & Hx & [ys Hr]%IH)%action_bind_Ok. exists (u :: ys).
    apply action_bind_Ok. exists s1, u. split; [done|]. apply action_bind_Ok. by exists s', ys.
Qed.

Lemma forA_post {S E A} (R : relation S) `{!PreOrder R} (I : S -> Prop) (P : A -> S -> Prop)
    (body : A -> action S E unit) xs s s' :
  (forall x, steps R (body x)) -> (forall s s', I s -> R s s' -> I s') ->
  (forall x s s', I s -> R s s' -> P x s -> P x s') ->
  (forall x s s' u, I s -> body x s = (s', Ok u) -> P x s') ->
  I s -> forA_ body xs s = (s', Ok tt) -> forall x, x ∈ xs -> P x s'.
Proof. intros Hb HI HP Hpost Hs [ys Hr]%forA_mapA. by eapply (mapA_post R I P). Qed.

#[export] Hint Resolve steps_bind steps_ret steps_lift steps_reads steps_throw steps_rethrow
  steps_ignore steps_attempt steps_forA steps_mapA : steps.

(** The structure of the code, call by call. *)
Ltac solve_steps :=
  repeat match goal with
  | |- steps _ (mbind _ _) => apply steps_bind; [typeclasses eauto| |intros ?]
  | |- steps _ (match ?x with _ => _ end) => destruct x
  | |- steps _ _ => solve [eauto with steps]
  end.

(** [triple P m Q]: from a state in [P], [m] answers with a result and a
    state in [Q], error or not. *)
Definition triple {S E A} (P : S -> Prop) (m : action S E A) (Q : result E A -> S -> Prop) : Prop :=
  forall s, P s -> Q (m s).2 (m s).1.

Lemma triple_bind {S E A B} (P : S -> Prop) (Q : result E A -> S -> Prop) R
    (m : action S E A) (f : A -> action S E B) :
  triple P m Q -> (forall a, triple (Q (Ok a)) (f a) R) ->
  (forall e s, Q (Err e) s -> R (Err e) s) -> triple P (m ≫= f) R.
Proof.
  intros Hm Hf He s Hs. specialize (Hm s Hs). unfold mbind, action_bind.
  destruct (m s) as [s1 [a|e]]; cbn in *; [by apply Hf|by apply He].
Qed.

Lemma triple_weaken {S E A} (P P' : S -> Prop) (Q Q' : result E A -> S -> Prop) (m : action S E A) :
  triple P' m Q' -> (forall s, P s -> P' s) -> (forall r s, Q' r s -> Q r s) -> triple P m Q.
Proof. intros Hm HP HQ s Hs. apply HQ, Hm, HP, Hs. Qed.

Lemma triple_steps {S E A} (R : relation S) (P : S -> Prop) (Q : result E A -> S -> Prop)
    (m : action S E A) :
  steps R m -> (forall s s' r, P s -> R s s' -> Q r s') -> triple P m Q.
Proof. intros Hm HQ s Hs. by eapply HQ. Qed.

Lemma triple_ret {S E A} (P : S -> Prop) (Q : result E A -> S -> Prop) (a : A) :
  (forall s, P s -> Q (Ok a) s) -> triple P (mret a : action S E A) Q.
Proof. intros HQ s Hs. by apply HQ. Qed.

Lemma triple_lift {S E A} (P : S -> Prop) (Q : result E A -> S -> Prop) (r : result E A) :
  (forall s, P s -> Q r s) -> triple P (lift r) Q.
Proof. intros HQ s Hs. by apply HQ. Qed.

Lemma triple_throw {S E A} (P : S -> Prop) (Q : result E A -> S -> Prop) (e : E) :
  (forall s, P s -> Q (Err e) s) -> triple P (throw e : action S E A) Q.
Proof. intros HQ s Hs. by apply HQ. Qed.

Lemma triple_run {S E A} (P : S -> Prop) (Q : result E A -> S -> Prop) (m : action S E A) s s' r :
  triple P m Q -> P s -> m s = (s', r) -> Q r s'.
Proof. intros Hm Hs Heq. specialize (Hm s Hs). by rewrite Heq in Hm. Qed.

(** ** Machine-width integers

    The unsigned integers of the source are natural numbers within their
    width; the arithmetic the source checks is written out. *)
Definition u32_max : N := 2 ^ 32 - 1.
Definition u64_max : N := 2 ^ 64 - 1.

(** [u64::checked_add]. *)
Definition checked_add_u64 (a b : N) : option N :=
  if (a + b <=? u64_max)%N then Some (a + b)%N else None.

(** [u64::saturating_sub]. *)
Definition saturating_sub_u64 (a b : N) : N := (a - b)%N.

Lemma checked_add_u64_Some a b c :
  checked_add_u64 a b = Some c <-> (c = a + b /\ a + b <= u64_max)%N.
Proof.
  unfold checked_add_u64. destruct (N.leb_spec (a + b) u64_max); naive_solver lia.
Qed.

(** The length of a list or a string as Rust's [len()]. *)
Definition len {A} (l : list A) : N := N.of_nat (length l).
Definition slen (s : string) : N := N.of_nat (String.length s).

(** A call that returned [b], as a pair of new state and result. *)
Lemma pair_snd_eq {A B} (x : A * B) b : x.2 = b -> x = (x.1, b).
Proof. by destruct x as [? ?]; intros <-. Qed.

(** [opt.get_or_insert(v)]. *)
Definition get_or_insert {A} (o : option A) (a : A) : option A :=
  match o with Some x => Some x | None => Some a end.

(** [xs.iter().map(|x| (key(x), val(x))).collect::<BTreeMap<_, _>>()]: a later
    entry replaces an earlier one with the same key. *)
Definition collect_map {A K V} `{Countable K} (key : A -> K) (val : A -> V) (xs : list A)
    : gmap K V :=
  foldl (fun m x => <[key x := val x]> m) ∅ xs.

Lemma collect_map_lookup {A K V} `{Countable K} (key : A -> K) (val : A -> V) xs k v :
  NoDup (key <$> xs) ->
  collect_map key val xs !! k = Some v <-> exists x, x ∈ xs /\ key x = k /\ val x = v.
Proof.
  unfold collect_map. intros Hnd.
  enough (forall m : gmap K V, (forall x, x ∈ xs -> m !! key x = None) ->
    foldl (fun m x => <[key x := val x]> m) m xs !! k = Some v <->
    m !! k = Some v \/ exists x, x ∈ xs /\ key x = k /\ val x = v) as Hgen.
  { rewrite Hgen by (intros; apply lookup_empty). rewrite lookup_empty. naive_solver. }
  induction xs as [|x xs IH]; intros m Hnone; cbn [foldl]; [set_solver|].
  cbn in Hnd. apply NoDup_cons in Hnd as [Hni Hnd]. rewrite IH; [|done|].
  - setoid_rewrite elem_of_cons. rewrite lookup_insert_Some.
    assert (m !! key x = None) by (apply Hnone; set_solver). naive_solver.
  - intros y Hy. rewrite lookup_insert_ne; [apply Hnone; set_solver|].
    intros Heq. apply Hni. rewrite Heq. by apply list_elem_of_fmap_2.
Qed.

Lemma collect_map_last {A K V} `{Countable K} (key : A -> K) (val : A -> V) xs k :
  collect_map key val xs !! k = val <$> last (filter (fun x => key x = k) xs).
Proof.
  unfold collect_map. induction xs as [|x xs IH] using rev_ind; [done|].
  rewrite foldl_app, filter_app, filter_cons, filter_nil. cbn. case_decide as Hk.
  - by rewrite Hk, lookup_insert_eq, last_snoc.
  - by rewrite lookup_insert_ne, app_nil_r.
Qed.

Lemma collect_map_elem {A K V} `{Countable K} (key : A -> K) (val : A -> V) xs k v :
  collect_map key val xs !! k = Some v -> exists x, x ∈ xs /\ key x = k /\ val x = v.
Proof.
  rewrite collect_map_last, fmap_Some. intros (x & Hx%last_Some_elem_of & ->).
  apply list_elem_of_filter in Hx as [? ?]. eauto.
Qed.

Lemma collect_map_is_Some {A K V} `{Countable K} (key : A -> K) (val : A -> V) xs k :
  is_Some (collect_map key val xs !! k) <-> exists x, x ∈ xs /\ key x = k.
Proof.
  split; [intros [v (x & ? & ? & _)%collect_map_elem]; eauto|]. intros (x & Hx & <-).
  rewrite collect_map_last. rewrite fmap_is_Some, last_is_Some.
  intros Hnil. assert (Hin : x ∈ filter (fun y => key y = key x) xs) by (by apply list_elem_of_filter).
  rewrite Hnil in Hin. by apply elem_of_nil in Hin.
Qed.

(** [v.sort_by(cmp)], which is stable: elements that compare equal keep
    their order. *)
Section sort_by.
Context {A : Type} (le : A -> A -> bool).

Fixpoint insert_by (x : A) (l : list A) : list A :=
  match l with
  | [] => [x]
  | y :: l' => if le x y then x :: l else y :: insert_by x l'
  end.

Definition sort_by (l : list A) : list A := foldr insert_by [] l.

Lemma insert_by_perm x l : insert_by x l ≡ₚ x :: l.
Proof.
  induction l as [|y l IH]; [done|]. cbn. destruct (le x y); [done|].
  rewrite IH. apply Permutation_swap.
Qed.

Lemma sort_by_perm l : sort_by l ≡ₚ l.
Proof. induction l as [|x l IH]; [done|]. cbn. rewrite insert_by_perm. by constructor. Qed.

Lemma insert_by_sorted x l :
  (forall a b, le a b = true \/ le b a = true) ->
  (forall a b c, le a b = true -> le b c = true -> le a c = true) ->
  StronglySorted (fun a b => le a b = true) l ->
  StronglySorted (fun a b => le a b = true) (insert_by x l).
Proof.
  intros Htot Htr. induction 1 as [|y l Hs IH Hall]; cbn; [repeat constructor|].
  destruct (le x y) eqn:E.
  - constructor; [by constructor|]. constructor; [done|].
    eapply Forall_impl; [exact Hall|]. intros z Hz. by eapply Htr.
  - constructor; [done|]. rewrite insert_by_perm. constructor; [|done].
    destruct (Htot x y); congruence.
Qed.

Lemma sort_by_sorted l :
  (forall a b, le a b = true \/ le b a = true) ->
  (forall a b c, le a b = true -> le b c = true -> le a c = true) ->
  StronglySorted (fun a b => le a b = true) (sort_by l).
Proof.
  intros Htot Htr. induction l as [|x l IH]; cbn; [constructor|]. by apply insert_by_sorted.
Qed.

Lemma sort_by_id l : StronglySorted (fun a b => le a b = true) l -> sort_by l = l.
Proof.
  induction 1 as [|y l Hs IH Hall]; [done|].
  change (insert_by y (sort_by l) = y :: l). rewrite IH.
  destruct l as [|z l]; [done|]. cbn. apply Forall_cons in Hall as [-> _]. done.
Qed.

(** Sorted lists with distinct keys are determined by their elements. *)
Lemma sorted_by_key_unique {K} (key : A -> K) (l1 l2 : list A) :
  (forall a b, le a b = true -> le b a = true -> key a = key b) ->
  StronglySorted (fun a b => le a b = true) l1 ->
  StronglySorted (fun a b => le a b = true) l2 ->
  NoDup (key <$> l1) -> l1 ≡ₚ l2 -> l1 = l2.
Proof.
  intros Hanti Hs1. revert l2. induction Hs1 as [|x l1 Hs1 IH Hall1]; intros l2 Hs2 Hnd Hp.
  - by apply Permutation_nil_l in Hp.
  - destruct Hs2 as [|y l2 Hs2 Hall2]; [by apply Permutation_nil_r in Hp|].
    assert (x = y) as ->.
    { assert (Hx : x ∈ y :: l2) by (rewrite <- Hp; left).
      assert (Hy : y ∈ x :: l1) by (rewrite Hp; left).
      apply elem_of_cons in Hx as [?|Hx]; [done|]. apply elem_of_cons in Hy as [?|Hy]; [done|].
      rewrite Forall_forall in Hall1, Hall2. cbn in Hnd. apply NoDup_cons in Hnd as [Hni _].
      destruct Hni. rewrite (Hanti x y) by auto. by apply list_elem_of_fmap_2. }
    f_equal. apply IH; [done|by apply NoDup_cons in Hnd as [_ ?]|by apply Permutation_cons_inv in Hp].
Qed.
End sort_by.

(** ** Ordered collections

    A [BTreeMap] is a finite map traversed in key order, a [BTreeSet] a
    finite set traversed in element order. *)
Class Ordered (K : Type) := {
  ord_le : relation K;
  ord_le_dec :: RelDecision ord_le;
  ord_le_po :: PartialOrder ord_le;
  ord_le_total :: Total ord_le;
}.

#[global] Instance string_ordered : Ordered string := {| ord_le := String.le |}.
#[global] Instance N_ordered : Ordered N := {| ord_le := N.le |}.

(** Lexicographic order of pairs, the order of tuple keys. *)
Definition pair_le {A B} `{Ordered A, Ordered B} (x y : A * B) : Prop :=
  (x.1 = y.1 /\ ord_le x.2 y.2) \/ (x.1 <> y.1 /\ ord_le x.1 y.1).

#[global] Program Instance pair_ordered {A B} `{EqDecision A, Ordered A, Ordered B} :
  Ordered (A * B) := {| ord_le := pair_le |}.
Next Obligation. intros A B ? ? ? x y. unfold pair_le. apply _. Defined.
Next Obligation.
  intros A B ? ? ?. unfold pair_le. split; [split|].
  - intros [a b]. left. done.
  - intros [a1 b1] [a2 b2] [a3 b3]; cbn.
    intros [[-> H1]|[N1 H1]] [[-> H2]|[N2 H2]]; try (by right).
    + left. split; [done|]. by etrans.
    + destruct (decide (a1 = a3)) as [->|]; [|right; split; [done|by etrans]].
      exfalso. apply N1. by apply (anti_symm ord_le).
  - intros [a1 b1] [a2 b2]; cbn.
    intros [[-> H1]|[N1 H1]] [[Heq H2]|[N2 H2]]; try congruence.
    + f_equal. by apply (anti_symm ord_le).
    + exfalso. apply N1. by apply (anti_symm ord_le).
Qed.
Next Obligation.
  intros A B ? ? ? [a1 b1] [a2 b2]. unfold pair_le; cbn.
  destruct (decide (a1 = a2)) as [->|].
  - destruct (total ord_le b1 b2); [left|right]; by left.
  - destruct (total ord_le a1 a2); [left|right]; right; done.
Qed.

Section btree.
Context {K : Type} `{Countable K, Ordered K}.

(** [set.iter()]. *)
Definition set_iter (X : gset K) : list K := merge_sort ord_le (elements X).

(** Keys compared, payloads ignored. *)
Definition key_le {V} (x y : K * V) : Prop := ord_le x.1 y.1.

#[global] Instance key_le_dec {V} : RelDecision (@key_le V).
Proof. intros x y. unfold key_le. apply _. Defined.

(** [map.iter()]. *)
Definition map_iter {V} (m : gmap K V) : list (K * V) :=
  merge_sort key_le (map_to_list m).

(** [map.keys()] and [map.values()]. *)
Definition map_keys {V} (m : gmap K V) : list K := (map_iter m).*1.
Definition map_values {V} (m : gmap K V) : list V := (map_iter m).*2.

(** [set.pop_first()]: the least element and the rest. *)
Definition set_first (X : gset K) : option K := head (set_iter X).

Lemma set_iter_perm X : set_iter X ≡ₚ elements X.
Proof. unfold set_iter. apply merge_sort_Permutation. Qed.

Lemma elem_of_set_iter X k : k ∈ set_iter X <-> k ∈ X.
Proof. rewrite set_iter_perm. apply elem_of_elements. Qed.

Lemma NoDup_set_iter X : NoDup (set_iter X).
Proof. rewrite set_iter_perm. apply NoDup_elements. Qed.

Lemma sorted_set_iter X : StronglySorted ord_le (set_iter X).
Proof. unfold set_iter. apply (StronglySorted_merge_sort ord_le). Qed.

Lemma set_iter_empty : set_iter ∅ = [].
Proof. done. Qed.

Lemma set_first_None X : set_first X = None <-> X = ∅.
Proof.
  unfold set_first. split.
  - intros Hh%head_None. apply leibniz_equiv, set_equiv. intros k.
    rewrite <- elem_of_set_iter, Hh. set_solver.
  - intros ->. done.
Qed.

Lemma set_first_Some X k :
  set_first X = Some k -> k ∈ X /\ forall j, j ∈ X -> ord_le k j.
Proof.
  unfold set_first. intros Hh. pose proof (sorted_set_iter X) as Hs.
  destruct (set_iter X) as [|k' l] eqn:E; [done|]. injection Hh as ->.
  assert (Hin : forall j, j ∈ X <-> j ∈ k :: l)
    by (intros j; rewrite <- elem_of_set_iter, E; done).
  split; [apply Hin; set_solver|]. intros j Hj%Hin.
  apply StronglySorted_inv in Hs as [_ Hall].
  apply elem_of_cons in Hj as [->|Hj]; [done|].
  by eapply Forall_forall in Hall.
Qed.

Lemma map_iter_perm {V} (m : gmap K V) : map_iter m ≡ₚ map_to_list m.
Proof. unfold map_iter. apply merge_sort_Permutation. Qed.

Lemma elem_of_map_iter {V} (m : gmap K V) k v : (k, v) ∈ map_iter m <-> m !! k = Some v.
Proof. rewrite map_iter_perm. apply elem_of_map_to_list. Qed.

Lemma NoDup_map_keys {V} (m : gmap K V) : NoDup (map_keys m).
Proof. unfold map_keys. rewrite map_iter_perm. apply NoDup_fst_map_to_list. Qed.

Lemma elem_of_map_keys {V} (m : gmap K V) k : k ∈ map_keys m <-> k ∈ dom m.
Proof.
  unfold map_keys. rewrite list_elem_of_fmap, elem_of_dom. split.
  - intros ([k' v] & -> & Hin%elem_of_map_iter). by exists v.
  - intros [v Hv]. exists (k, v). split; [done|]. by apply elem_of_map_iter.
Qed.

Lemma elem_of_map_values {V} (m : gmap K V) v :
  v ∈ map_values m <-> exists k, m !! k = Some v.
Proof.
  unfold map_values. rewrite list_elem_of_fmap. split.
  - intros ([k v'] & -> & Hin%elem_of_map_iter). by exists k.
  - intros [k Hk]. exists (k, v). split; [done|]. by apply elem_of_map_iter.
Qed.

#[global] Instance key_le_trans {V} : Transitive (@key_le V).
Proof. intros x y z. unfold key_le. by etrans. Qed.

#[global] Instance key_le_total {V} : Total (@key_le V).
Proof. intros x y. unfold key_le. apply (total ord_le). Qed.

Lemma sorted_map_keys {V} (m : gmap K V) : StronglySorted ord_le (map_keys m).
Proof.
  unfold map_keys, map_iter.
  assert (Hs : StronglySorted (@key_le V) (merge_sort key_le (map_to_list m)))
    by apply (StronglySorted_merge_sort key_le).
  induction Hs as [|x l Hs IH Hall]; cbn; [constructor|].
  constructor; [done|]. apply Forall_fmap. eapply Forall_impl; [exact Hall|].
  intros y Hy. exact Hy.
Qed.

Lemma length_map_iter {V} (m : gmap K V) : length (map_iter m) = size m.
Proof. rewrite map_iter_perm. apply length_map_to_list. Qed.

(** A map whose values carry their keys. *)
Lemma map_values_keys {V} (key : V -> K) (m : gmap K V) :
  (forall k v, m !! k = Some v -> key v = k) -> key <$> map_values m = map_keys m.
Proof.
  intros Hk. unfold map_values, map_keys. rewrite <- list_fmap_compose.
  apply list_fmap_ext. intros i [k v] Hi%list_elem_of_lookup_2%elem_of_map_iter. by apply Hk.
Qed.

End btree.

(** Filtering keeps sortedness and distinctness of the keys. *)
Lemma StronglySorted_fmap_filter {A K} (R : relation K) (key : A -> K) (P : A -> Prop)
    `{!forall x, Decision (P x)} l :
  StronglySorted R (key <$> l) -> StronglySorted R (key <$> filter P l).
Proof.
  induction l as [|x l IH]; [done|]. rewrite fmap_cons. intros [Hs Hall]%StronglySorted_inv.
  rewrite filter_cons. case_decide; [|auto]. rewrite fmap_cons. constructor; [auto|].
  rewrite Forall_fmap in *. rewrite Forall_forall in *. intros y [_ Hy]%list_elem_of_filter. auto.
Qed.

Lemma NoDup_fmap_filter {A K} (key : A -> K) (P : A -> Prop) `{!forall x, Decision (P x)} l :
  NoDup (key <$> l) -> NoDup (key <$> filter P l).
Proof.
  induction l as [|x l IH]; [done|]. rewrite fmap_cons. intros [Hx Hn]%NoDup_cons.
  rewrite filter_cons. case_decide; [|auto]. rewrite fmap_cons. constructor; [|auto].
  intros (y & Hy & [_ Hin]%list_elem_of_filter)%list_elem_of_fmap. apply Hx. rewrite Hy.
  by apply list_elem_of_fmap_2.
Qed.

(** [iter.filter(p)] with a boolean test. *)
Lemma list_filter_bool {A} (p : A -> bool) l : List.filter p l = filter (fun x => p x = true) l.
Proof.
  induction l as [|x l IH]; [done|]. rewrite filter_cons, <- IH. cbn. by destruct (p x).
Qed.
