(* ===== verification/Text.v ===== *)
(** * Rust strings

    A [String]/[&str] is its UTF-8 byte sequence ([string], one [ascii] per
    byte).  This file models the standard-library functions the sources
    call on strings: the decoding of [chars()], the character classes,
    [split], [split_once], [strip_prefix], [strip_suffix], [contains],
    [trim], and [std::path::Path]'s [components] and [join] on Unix. *)

From Stdlib Require Import Ascii.
From stdpp Require Import base gmap strings list pretty.
From stdpp Require Import options.
From S2P Require Import Prelude.

(** ** Bytes and characters *)
Definition bytes (s : string) : list N :=
  map N_of_ascii (String.list_ascii_of_string s).

(** Continuation payload of a UTF-8 byte. *)
Definition utf8_cont (b : N) : N := N.land b 63.

(** A multi-byte sequence never denotes an ASCII character: an overlong
    form, which no Rust string holds, decodes to U+FFFD. *)
Definition utf8_scalar (v : N) : N := if (v <? 128)%N then 65533%N else v.

(** [s.chars()] as code points.  A Rust string is valid UTF-8, so the
    truncated cases do not arise; they decode to U+FFFD. *)
Fixpoint utf8_chars (bs : list N) : list N :=
  match bs with
  | [] => []
  | b1 :: r1 =>
      if (b1 <? 128)%N then b1 :: utf8_chars r1
      else match r1 with
      | [] => [65533%N]
      | b2 :: r2 =>
          if (b1 <? 224)%N then
            utf8_scalar (N.lor (N.shiftl (N.land b1 31) 6) (utf8_cont b2)) :: utf8_chars r2
          else match r2 with
          | [] => [65533%N]
          | b3 :: r3 =>
              if (b1 <? 240)%N then
                utf8_scalar (N.lor (N.shiftl (N.land b1 15) 12)
                  (N.lor (N.shiftl (utf8_cont b2) 6) (utf8_cont b3))) :: utf8_chars r3
              else match r3 with
              | [] => [65533%N]
              | b4 :: r4 =>
                  utf8_scalar (N.lor (N.shiftl (N.land b1 7) 18)
                    (N.lor (N.shiftl (utf8_cont b2) 12)
                      (N.lor (N.shiftl (utf8_cont b3) 6) (utf8_cont b4)))) :: utf8_chars r4
              end
          end
      end
  end.

Definition chars (s : string) : list N := utf8_chars (bytes s).

(** ** Character classes *)
Definition in_range (lo hi c : N) : bool := (lo <=? c)%N && (c <=? hi)%N.

Definition is_ascii_lowercase (c : N) : bool := in_range 97 122 c.
Definition is_ascii_uppercase (c : N) : bool := in_range 65 90 c.
Definition is_ascii_digit (c : N) : bool := in_range 48 57 c.
Definition is_ascii_alphanumeric (c : N) : bool :=
  is_ascii_lowercase c || is_ascii_uppercase c || is_ascii_digit c.
Definition is_ascii_hexdigit (c : N) : bool :=
  is_ascii_digit c || in_range 97 102 c || in_range 65 70 c.

(** [char::is_control]: the Unicode category Cc. *)
Definition is_control (c : N) : bool := (c <? 32)%N || in_range 127 159 c.

(** [char::is_whitespace]: the Unicode property White_Space. *)
Definition is_whitespace (c : N) : bool :=
  in_range 9 13 c || (c =? 32)%N || (c =? 133)%N || (c =? 160)%N ||
  (c =? 5760)%N || in_range 8192 8202 c || (c =? 8232)%N || (c =? 8233)%N ||
  (c =? 8239)%N || (c =? 8287)%N || (c =? 12288)%N.

(** [s.starts_with(|c| p(c))]. *)
Definition starts_with_char (p : N -> bool) (s : string) : bool :=
  match chars s with c :: _ => p c | [] => false end.

(** ** Searching and splitting *)
Fixpoint contains_byte (a : ascii) (s : string) : bool :=
  match s with
  | EmptyString => false
  | String b s => bool_decide (a = b) || contains_byte a s
  end.

(** [s.strip_prefix(p)]. *)
Fixpoint strip_prefix (p s : string) : option string :=
  match p, s with
  | EmptyString, s => Some s
  | String a p, String b s => if decide (a = b) then strip_prefix p s else None
  | _, _ => None
  end.

(** [s.starts_with(p)] for a string pattern. *)
Definition starts_with (p s : string) : bool :=
  match strip_prefix p s with Some _ => true | None => false end.

(** [s.contains(p)] for a string pattern. *)
Fixpoint contains_str (p s : string) : bool :=
  starts_with p s ||
  match s with EmptyString => false | String _ s => contains_str p s end.

(** [s.strip_suffix(c)] for one byte. *)
Fixpoint strip_suffix_byte (a : ascii) (s : string) : option string :=
  match s with
  | EmptyString => None
  | String b EmptyString => if decide (a = b) then Some EmptyString else None
  | String b s => String b <$> strip_suffix_byte a s
  end.

(** [s.split(c)]: always at least one piece. *)
Fixpoint split_byte (a : ascii) (s : string) : list string :=
  match s with
  | EmptyString => [EmptyString]
  | String b s =>
      if decide (a = b) then EmptyString :: split_byte a s
      else match split_byte a s with
           | [] => [String b EmptyString]
           | w :: ws => String b w :: ws
           end
  end.

(** [s.split_once(c)]. *)
Fixpoint split_once_byte (a : ascii) (s : string) : option (string * string) :=
  match s with
  | EmptyString => None
  | String b s =>
      if decide (a = b) then Some (EmptyString, s)
      else (fun p => (String b p.1, p.2)) <$> split_once_byte a s
  end.

(** ** Trimming, on code points *)
Fixpoint drop_while (p : N -> bool) (l : list N) : list N :=
  match l with
  | [] => []
  | c :: l' => if p c then drop_while p l' else l
  end.

Definition trim_chars (l : list N) : list N :=
  reverse (drop_while is_whitespace (reverse (drop_while is_whitespace l))).

(** [s.trim() == s]. *)
Definition is_trimmed (s : string) : bool :=
  bool_decide (trim_chars (chars s) = chars s).

(** The grammar [[a-z0-9][a-z0-9_-]{0,63}] the sources write out for input
    names, step keys and output names. *)
Definition slug_char (c : N) : bool :=
  is_ascii_lowercase c || is_ascii_digit c || (c =? 95)%N || (c =? 45)%N.

Definition valid_slug (s : string) : bool :=
  negb (bool_decide (s = ""%string)) && (slen s <=? 64)%N &&
  starts_with_char (fun c => is_ascii_lowercase c || is_ascii_digit c) s &&
  forallb slug_char (chars s).

(** ** Paths *)
Inductive PathComponent :=
| RootDir
| CurDir
| ParentDir
| Normal (name : string).

Definition slash : ascii := "/"%char.

#[global] Instance PathComponent_eq_dec : EqDecision PathComponent.
Proof. solve_decision. Defined.

Definition is_absolute (p : string) : bool := starts_with "/" p.

Definition path_piece (w : string) : option PathComponent :=
  if decide (w = ""%string) then None
  else if decide (w = "."%string) then None
  else if decide (w = ".."%string) then Some ParentDir
  else Some (Normal w).

(** [Path::new(p).components()] on Unix: empty pieces and inner [.] pieces
    vanish, a leading [.] is kept as [CurDir]. *)
Definition path_components (p : string) : list PathComponent :=
  let pieces := split_byte slash p in
  if is_absolute p then RootDir :: omap path_piece pieces
  else match pieces with
       | w :: ws =>
           if decide (w = "."%string) then CurDir :: omap path_piece ws
           else omap path_piece pieces
       | [] => []
       end.

(** [base.join(p)]. *)
Definition ends_with_slash (s : string) : bool :=
  match strip_suffix_byte slash s with Some _ => true | None => false end.

Definition path_join (base p : string) : string :=
  if is_absolute p then p
  else if bool_decide (base = ""%string) then p
  else if ends_with_slash base then String.append base p
  else String.append base (String slash p).

(** ** Facts about the decoder and the searches *)
Lemma utf8_scalar_ge v : (128 <= utf8_scalar v)%N.
Proof. unfold utf8_scalar. destruct (N.ltb_spec v 128); lia. Qed.

Lemma in_range_spec lo hi c : in_range lo hi c = true <-> (lo <= c <= hi)%N.
Proof. unfold in_range. rewrite andb_true_iff, !N.leb_le. done. Qed.

(** A test that only ASCII characters pass holds of all characters exactly
    when it holds of all bytes. *)
Lemma forallb_chars_ascii (p : N -> bool) bs :
  (forall c, p c = true -> (c < 128)%N) ->
  forallb p (utf8_chars bs) = forallb p bs.
Proof.
  intros Hp.
  assert (Hbig : forall c, (128 <= c)%N -> p c = false).
  { intros c Hc. destruct (p c) eqn:E; [|done]. apply Hp in E. lia. }
  assert (Hs : forall v, p (utf8_scalar v) = false)
    by (intros v; apply Hbig, utf8_scalar_ge).
  induction bs as [|a bs IH]; [done|].
  cbn [utf8_chars forallb]. destruct (N.ltb_spec a 128) as [Ha|Ha].
  - cbn [forallb]. by rewrite IH.
  - rewrite (Hbig a) by done. rewrite andb_false_l.
    repeat case_match; cbn [forallb]; rewrite ?Hs, ?(Hbig 65533%N) by lia; done.
Qed.

Lemma slug_char_ascii c : slug_char c = true -> (c < 128)%N.
Proof.
  unfold slug_char, is_ascii_lowercase, is_ascii_digit.
  rewrite !orb_true_iff, !in_range_spec, !N.eqb_eq. lia.
Qed.

Lemma strip_prefix_Some p s r : strip_prefix p s = Some r <-> s = String.append p r.
Proof.
  revert s; induction p as [|a p IH]; intros s; cbn; [naive_solver|].
  destruct s as [|b s]; cbn; [naive_solver|].
  change (String.append (String a p) r) with (String a (String.append p r)).
  case_decide; subst; [|naive_solver]. rewrite IH. naive_solver.
Qed.

Lemma strip_suffix_byte_Some a s r :
  strip_suffix_byte a s = Some r <-> s = String.append r (String a EmptyString).
Proof.
  revert r; induction s as [|b s IH]; intros r.
  - cbn. split; [done|]. destruct r; done.
  - destruct s as [|c s].
    + cbn. case_decide; subst; split; intros Heq; simplify_eq; try done.
      * destruct r as [|d [|? ?]]; cbn in Heq; [done|..]; by inversion Heq.
      * destruct r as [|d [|? ?]]; cbn in Heq; by inversion Heq.
    + cbn [strip_suffix_byte]. rewrite fmap_Some. setoid_rewrite IH. split.
      * intros (r' & -> & ->). done.
      * destruct r as [|d r]; intros Heq.
        -- by inversion Heq.
        -- change (String.append (String d r) (String a ""))
             with (String d (String.append r (String a ""))) in Heq.
           injection Heq as -> Heq. by exists r.
Qed.

(** ** Splitting *)
Lemma append_assoc (a b c : string) :
  String.append (String.append a b) c = String.append a (String.append b c).
Proof.
  induction a as [|x a IH]; [done|].
  change (String x (String.append (String.append a b) c) =
          String x (String.append a (String.append b c))). by rewrite IH.
Qed.

Lemma append_cons x a b : String.append (String x a) b = String x (String.append a b).
Proof. done. Qed.

Lemma contains_byte_append a p q :
  contains_byte a (String.append p q) = contains_byte a p || contains_byte a q.
Proof.
  induction p as [|x p IH]; [done|]. rewrite append_cons. cbn. by rewrite IH, orb_assoc.
Qed.

Lemma split_byte_nonempty a s : exists w ws, split_byte a s = w :: ws.
Proof.
  induction s as [|b s (w & ws & IH)]; cbn; [eauto|].
  case_decide; [eauto|]. rewrite IH. eauto.
Qed.

Lemma split_byte_none a s : contains_byte a s = false <-> split_byte a s = [s].
Proof.
  induction s as [|b s IH]; cbn; [done|].
  rewrite orb_false_iff, bool_decide_eq_false, IH.
  destruct (split_byte_nonempty a s) as (w & ws & E). rewrite E in *.
  case_decide; naive_solver.
Qed.

Lemma split_byte_sep a p q :
  contains_byte a p = false ->
  split_byte a (String.append p (String a q)) = p :: split_byte a q.
Proof.
  induction p as [|b p IH]; cbn [contains_byte]; intros Hp.
  - change (split_byte a (String a q) = "" :: split_byte a q). cbn [split_byte].
    by rewrite decide_True.
  - apply orb_false_iff in Hp as [Hb Hp]. bool_inv. rewrite append_cons. cbn [split_byte].
    rewrite decide_False by done. by rewrite IH.
Qed.

Lemma split_byte_cons a s w ws :
  split_byte a s = w :: ws ->
  contains_byte a w = false /\
  ((ws = [] /\ s = w) \/ exists q, s = String.append w (String a q) /\ ws = split_byte a q).
Proof.
  revert w ws; induction s as [|b s IH]; intros w ws; cbn.
  - intros [= <- <-]. split; [done|]. by left.
  - case_decide as Hb.
    + intros [= <- <-]. subst. split; [done|]. right. by exists s.
    + destruct (split_byte_nonempty a s) as (v & vs & E). rewrite E.
      intros [= <- <-]. destruct (IH _ _ E) as [Hc Hs]. cbn. split.
      { rewrite Hc. by rewrite bool_decide_eq_false_2. }
      destruct Hs as [[-> ->]|(q & -> & ->)]; [by left|].
      right. exists q. by rewrite append_cons.
Qed.

Lemma split_once_byte_Some a s p q :
  split_once_byte a s = Some (p, q) <->
  s = String.append p (String a q) /\ contains_byte a p = false.
Proof.
  revert p; induction s as [|b s IH]; intros p; cbn.
  - split; [done|]. intros [Heq _]. by destruct p.
  - case_decide as Hb.
    + subst. split; [intros [= <- <-]; done|].
      intros [Heq Hc]. destruct p as [|c p]; [by injection Heq as <-|].
      rewrite append_cons in Heq. injection Heq as <- _. cbn in Hc.
      by rewrite bool_decide_eq_true_2 in Hc.
    + rewrite fmap_Some. split.
      * intros ([p' q'] & Hs & [= -> ->]). apply IH in Hs as [-> Hc]. split; [done|].
        cbn. rewrite Hc. by rewrite bool_decide_eq_false_2.
      * intros [Heq Hc]. destruct p as [|c p]; [by injection Heq as -> _|].
        rewrite append_cons in Heq. injection Heq as <- Heq. cbn in Hc.
        apply orb_false_iff in Hc as [_ Hc]. exists (p, q). split; [|done].
        by apply IH.
Qed.

Lemma split_once_byte_None a s :
  split_once_byte a s = None <-> contains_byte a s = false.
Proof.
  induction s as [|b s IH]; cbn; [done|].
  rewrite orb_false_iff, bool_decide_eq_false. case_decide; [naive_solver|].
  rewrite fmap_None, IH. naive_solver.
Qed.

(** A byte test that separates the bytes of [s] from the separator. *)
Lemma forallb_bytes_not_contains (p : N -> bool) a s :
  forallb p (bytes s) = true -> p (N_of_ascii a) = false -> contains_byte a s = false.
Proof.
  intros Hall Ha. induction s as [|b s IH]; [done|]. cbn in *.
  apply andb_true_iff in Hall as [Hb Hall]. rewrite IH by done.
  rewrite orb_false_r. apply bool_decide_eq_false. congruence.
Qed.

Lemma bytes_append a b : bytes (String.append a b) = bytes a ++ bytes b.
Proof.
  induction a as [|x a IH]; [done|]. rewrite append_cons.
  change (bytes (String x (String.append a b)))
    with (N_of_ascii x :: bytes (String.append a b)). by rewrite IH.
Qed.

Lemma slen_append a b : slen (String.append a b) = (slen a + slen b)%N.
Proof.
  unfold slen. induction a as [|x a IH]; [done|]. rewrite append_cons. cbn. lia.
Qed.

(** A path that starts with another byte than the separator is relative. *)
Lemma not_absolute_cons c x : c <> slash -> is_absolute (String c x) = false.
Proof.
  intros Hc. unfold is_absolute, starts_with. cbn [strip_prefix]. by rewrite decide_False.
Qed.

Lemma bytes_inj a b : bytes a = bytes b -> a = b.
Proof.
  unfold bytes. intros Hm. rewrite <- (String.string_of_list_ascii_of_string a).
  rewrite <- (String.string_of_list_ascii_of_string b). f_equal.
  revert Hm. generalize (String.list_ascii_of_string a), (String.list_ascii_of_string b).
  induction l as [|x l IH]; intros [|y l']; try done. cbn. intros [= Hx Hl].
  rewrite <- (ascii_N_embedding x), <- (ascii_N_embedding y), Hx. f_equal. by apply IH.
Qed.

(** ** Numbers *)

(** [raw.parse::<u64>()] and [u32]: an optional plus sign, then digits, with
    checked arithmetic. *)
Definition push_digit (max : N) (acc : option N) (b : N) : option N :=
  v ← acc;
  if is_ascii_digit b then
    let n := (v * 10 + (b - 48))%N in if (n <=? max)%N then Some n else None
  else None.

Definition parse_unsigned (max : N) (raw : string) : option N :=
  let digits := default raw (strip_prefix "+" raw) in
  if bool_decide (digits = "") then None
  else foldl (push_digit max) (Some 0%N) (bytes digits).

Lemma push_digit_none max l : foldl (push_digit max) None l = None.
Proof. by induction l. Qed.

Lemma pretty_digit n : (n < 10)%N ->
  is_ascii_digit (N_of_ascii (pretty_N_char n)) = true /\ (N_of_ascii (pretty_N_char n) - 48 = n)%N.
Proof.
  intros Hn. destruct n as [|p]; [done|]. do 4 (try destruct p as [p|p|]); first [by split|lia].
Qed.

Lemma push_pretty max x s : (x <= max)%N ->
  foldl (push_digit max) (Some 0%N) (bytes (pretty_N_go x s)) =
  foldl (push_digit max) (Some x) (bytes s).
Proof.
  revert s. induction (N.lt_wf_0 x) as [x _ IH]. intros s Hle.
  destruct (decide (0 < x)%N) as [Hx|Hx].
  - pose proof (N.mod_lt x 10 ltac:(lia)) as Hm. pose proof (N.div_mod x 10 ltac:(lia)) as Hd.
    rewrite pretty_N_go_step by done. rewrite IH; [|apply N.div_lt; lia|].
    + destruct (pretty_digit (x mod 10) Hm) as [Hdig Hval].
      change (bytes (String ?c s)) with (N_of_ascii c :: bytes s). cbn [foldl].
      unfold push_digit at 2. cbn [mbind option_bind]. rewrite Hdig, Hval.
      replace (x `div` 10 * 10 + x `mod` 10)%N with x by lia. by rewrite (proj2 (N.leb_le _ _) Hle).
    + pose proof (N.div_le_upper_bound x 10 x). lia.
  - assert (x = 0)%N as -> by lia. done.
Qed.

(** Decimal text reads back. *)
Lemma parse_unsigned_pretty max n : (n <= max)%N -> parse_unsigned max (pretty n) = Some n.
Proof.
  intros Hle. assert (Hv : foldl (push_digit max) (Some 0%N) (bytes (pretty n)) = Some n).
  { unfold pretty, pretty_N. case_decide; [subst; by destruct max|by apply push_pretty]. }
  unfold parse_unsigned. destruct (strip_prefix "+" (pretty n)) as [rest|] eqn:Hs; cbn [default from_option id].
  - apply strip_prefix_Some in Hs. rewrite Hs in Hv.
    change (bytes (String.append "+" rest)) with (43%N :: bytes rest) in Hv. cbn [foldl] in Hv.
    change (push_digit max (Some 0%N) 43%N) with (@None N) in Hv. by rewrite push_digit_none in Hv.
  - rewrite bool_decide_eq_false_2; [done|]. intros He. rewrite He in Hv. cbn in Hv. injection Hv as <-. done.
Qed.
