(* ===== verification/Core.v ===== *)
(** * Identifiers, lifecycle states, errors and limits

    The vocabulary shared by every component: the typed identifiers of
    [hub-core/src/id.rs], the three lifecycle state machines of [run.rs],
    [workflow.rs] and [task_lifecycle.rs], the error type of [error.rs] and
    the bounds of [limits.rs]. *)

From stdpp Require Import base gmap strings list relations.
From stdpp Require Import options.
From S2P Require Import Prelude.

(** ** Identifiers *)

(** The macro [uuid_id!] of the source declares one newtype over [Uuid] per
    kind of entity; the kind is the phantom index here. *)
Inductive IdKind :=
| KComponent
| KRun
| KAttempt
| KArtifact
| KWorkflow
| KTask.

Record uuid_id (k : IdKind) := from_uuid { as_uuid : N }.
Arguments from_uuid {k} _.
Arguments as_uuid {k} _.

Abbreviation ComponentId := (uuid_id KComponent).
Abbreviation RunId := (uuid_id KRun).
Abbreviation AttemptId := (uuid_id KAttempt).
Abbreviation ArtifactId := (uuid_id KArtifact).
Abbreviation WorkflowId := (uuid_id KWorkflow).
Abbreviation TaskId := (uuid_id KTask).

#[global] Instance uuid_id_eq_dec k : EqDecision (uuid_id k).
Proof. solve_decision. Defined.

#[global] Program Instance uuid_id_countable k : Countable (uuid_id k) :=
  inj_countable' as_uuid from_uuid _.
Next Obligation. by intros k [n]. Qed.

(** The derived [Ord] compares the UUIDs. *)
#[global] Program Instance uuid_id_ordered k : Ordered (uuid_id k) :=
  {| ord_le x y := (as_uuid x <= as_uuid y)%N |}.
Next Obligation. intros k x y. cbn. apply _. Defined.
Next Obligation.
  intros k. split; [split|].
  - intros x. lia.
  - intros x y z ? ?. lia.
  - intros [x] [y] ? ?. cbn in *. f_equal. lia.
Qed.
Next Obligation. intros k x y. cbn. lia. Qed.

(** The [uuid] crate: the hyphenated lowercase text of a UUID.  That
    distinct UUIDs have distinct texts is a hypothesis of the theorems that
    need it. *)
Class UuidLib := { uuid_hyphenated : N -> string }.

(** [Display] of an identifier. *)
Definition id_to_string `{UuidLib} {k} (i : uuid_id k) : string :=
  uuid_hyphenated (as_uuid i).

Lemma id_to_string_inj `{UuidLib} {k} :
  Inj (=) (=) uuid_hyphenated -> Inj (=) (=) (@id_to_string _ k).
Proof. intros Hi [x] [y] Heq%Hi. cbn in Heq. by subst. Qed.

(** Milliseconds since the Unix epoch. *)
Abbreviation UnixMillis := N.

(** ** Lifecycle states *)
Inductive RunState :=
| RsCreated
| RsValidated
| RsQueued
| RsRunning
| RsSucceeded
| RsFailed
| RsCancelled.

#[global] Instance RunState_eq_dec : EqDecision RunState.
Proof. solve_decision. Defined.

Definition RunState_can_transition_to (from next : RunState) : bool :=
  match from, next with
  | RsCreated, RsValidated
  | RsCreated, RsFailed
  | RsCreated, RsCancelled
  | RsValidated, RsQueued
  | RsValidated, RsFailed
  | RsValidated, RsCancelled
  | RsQueued, RsRunning
  | RsQueued, RsFailed
  | RsQueued, RsCancelled
  | RsRunning, RsSucceeded
  | RsRunning, RsFailed
  | RsRunning, RsCancelled => true
  | _, _ => false
  end.

Definition RunState_is_terminal (s : RunState) : bool :=
  match s with RsSucceeded | RsFailed | RsCancelled => true | _ => false end.

(** [Display] of a run state. *)
Definition RunState_to_string (s : RunState) : string :=
  match s with
  | RsCreated => "created"
  | RsValidated => "validated"
  | RsQueued => "queued"
  | RsRunning => "running"
  | RsSucceeded => "succeeded"
  | RsFailed => "failed"
  | RsCancelled => "cancelled"
  end.

Inductive WorkflowState :=
| WsCreated
| WsRunning
| WsSucceeded
| WsFailed
| WsCancelled.

#[global] Instance WorkflowState_eq_dec : EqDecision WorkflowState.
Proof. solve_decision. Defined.

Definition WorkflowState_can_transition_to (from next : WorkflowState) : bool :=
  match from, next with
  | WsCreated, WsRunning
  | WsCreated, WsCancelled
  | WsRunning, WsSucceeded
  | WsRunning, WsFailed
  | WsRunning, WsCancelled => true
  | _, _ => false
  end.

Definition WorkflowState_is_terminal (s : WorkflowState) : bool :=
  match s with WsSucceeded | WsFailed | WsCancelled => true | _ => false end.

Inductive TaskState :=
| TsCreated
| TsAdmitted
| TsRunning
| TsSuspended
| TsSucceeded
| TsFailed
| TsCancelled
| TsTerminated.

#[global] Instance TaskState_eq_dec : EqDecision TaskState.
Proof. solve_decision. Defined.

Definition TaskState_can_transition_to (from next : TaskState) : bool :=
  match from, next with
  | TsCreated, TsAdmitted
  | TsCreated, TsFailed
  | TsCreated, TsCancelled
  | TsAdmitted, TsRunning
  | TsAdmitted, TsFailed
  | TsAdmitted, TsCancelled
  | TsRunning, TsSuspended
  | TsRunning, TsSucceeded
  | TsRunning, TsFailed
  | TsRunning, TsCancelled
  | TsRunning, TsTerminated
  | TsSuspended, TsRunning
  | TsSuspended, TsFailed
  | TsSuspended, TsCancelled
  | TsSuspended, TsTerminated => true
  | _, _ => false
  end.

Definition TaskState_is_terminal (s : TaskState) : bool :=
  match s with
  | TsSucceeded | TsFailed | TsCancelled | TsTerminated => true
  | _ => false
  end.

Definition TaskState_as_str (s : TaskState) : string :=
  match s with
  | TsCreated => "created"
  | TsAdmitted => "admitted"
  | TsRunning => "running"
  | TsSuspended => "suspended"
  | TsSucceeded => "succeeded"
  | TsFailed => "failed"
  | TsCancelled => "cancelled"
  | TsTerminated => "terminated"
  end.

(** ** Errors *)

(** Failure reasons of the executor port. *)
Inductive ExecutorFailure :=
| TimedOut (timeout_ms : N)
| ExecCancelled
| Backend (reason : string).

(** The text a variant carries is the message's template, which names the
    branch that raised it; the values interpolated into it are not
    modelled.  [Panic] is not a variant of the source: it stands for a
    [panic!] (an [expect] on [None], an index or an arithmetic operation out
    of range), so that its absence can be stated. *)
Inductive CoreError :=
| ComponentConflict (id : ComponentId) (registered new : string)
| ComponentAlreadyRegistered (id : ComponentId)
| ComponentNotFound (id : ComponentId)
| CapabilityNotDeclared (component : ComponentId) (capability : string)
| MissingInputBinding (capability input_name : string)
| ArtifactNotFound (id : ArtifactId)
| BlobNotFound (hex : string)
| ArtifactTooLarge (artifact : ArtifactId) (size limit : N)
| RunNotFound (id : RunId)
| TaskNotFound (id : TaskId)
| InvalidTransition (from to : RunState)
| InvalidTaskTransition (from to : TaskState)
| InvalidWorkflowTransition (from to : WorkflowState)
| RunNotExecutable (run : RunId) (current : RunState)
| WorkflowNotFound (id : WorkflowId)
| WorkflowNotExecutable (workflow : WorkflowId) (current : WorkflowState)
| InvalidRunSpec (msg : string)
| InvalidManifest (msg : string)
| Validation (msg : string)
| ExecutionFailed (run : RunId) (source : ExecutorFailure)
| Storage (msg : string)
| Panic (msg : string).

#[global] Instance ExecutorFailure_eq_dec : EqDecision ExecutorFailure.
Proof. solve_decision. Defined.
#[global] Instance CoreError_eq_dec : EqDecision CoreError.
Proof. solve_decision. Defined.

Abbreviation Result := (result CoreError).

(** [Display] of an executor failure and of an error, with the same
    convention: templates, not interpolated values. *)
Definition ExecutorFailure_to_string (e : ExecutorFailure) : string :=
  match e with
  | TimedOut _ => "execution timed out after {timeout_ms} ms"
  | ExecCancelled => "execution was cancelled"
  | Backend reason => String.append "backend failure: " reason
  end.

Definition CoreError_to_string (e : CoreError) : string :=
  match e with
  | ComponentConflict _ _ _ =>
      "component {id} is already registered with a different manifest (registered digest {registered}, new digest {new})"
  | ComponentAlreadyRegistered _ => "identical component manifest already registered for {id}"
  | ComponentNotFound _ => "component {0} not found"
  | CapabilityNotDeclared _ _ => "component {component} does not declare capability {capability}"
  | MissingInputBinding _ _ =>
      "input {input_name:?} of capability {capability} has no matching entry in the run spec inputs"
  | ArtifactNotFound _ => "artifact {0} not found"
  | BlobNotFound _ => "blob {hex} not found in artifact store"
  | ArtifactTooLarge _ _ _ =>
      "artifact {artifact} exceeds the configured size limit ({size} > {limit} bytes)"
  | RunNotFound _ => "run {0} not found"
  | TaskNotFound _ => "task {0} not found"
  | InvalidTransition _ _ => "invalid transition from {from} to {to}"
  | InvalidTaskTransition _ _ => "invalid task transition from {from} to {to}"
  | InvalidWorkflowTransition _ _ => "invalid workflow transition from {from:?} to {to:?}"
  | RunNotExecutable _ _ => "run {run} is not in an executable state (current state {current})"
  | WorkflowNotFound _ => "workflow {0} not found"
  | WorkflowNotExecutable _ _ => "workflow {workflow} is not executable (current state {current:?})"
  | InvalidRunSpec m => String.append "run spec validation failed: " m
  | InvalidManifest m => String.append "manifest validation failed: " m
  | Validation m => String.append "validation failed: " m
  | ExecutionFailed _ f =>
      String.append "executor failure during run {run}: " (ExecutorFailure_to_string f)
  | Storage m => String.append "storage failure: " m
  | Panic m => m
  end.

(** ** Limits *)
Record Limits := {
  max_manifest_bytes : N;
  max_args : N;
  max_arg_bytes : N;
  max_params_bytes : N;
  max_inputs : N;
  max_outputs : N;
  max_capture_bytes : N;
  max_artifact_bytes : N;
  max_timeout_ms : N;
}.

Definition Limits_default : Limits := {|
  max_manifest_bytes := 256 * 1024;
  max_args := 64;
  max_arg_bytes := 4096;
  max_params_bytes := 16 * 1024;
  max_inputs := 32;
  max_outputs := 16;
  max_capture_bytes := 1024 * 1024;
  max_artifact_bytes := 64 * 1024 * 1024 * 1024;
  max_timeout_ms := 60 * 60 * 1000;
|}.

(** ** Lifecycle facts shared by the record layers *)

(** Progress measure of the run lifecycle: every legal transition moves it
    forward, so no run changes state more than four times. *)
Definition run_rank (s : RunState) : nat :=
  match s with
  | RsCreated => 0
  | RsValidated => 1
  | RsQueued => 2
  | RsRunning => 3
  | RsSucceeded | RsFailed | RsCancelled => 4
  end.

Lemma run_rank_step s t :
  RunState_can_transition_to s t = true -> run_rank s < run_rank t.
Proof. destruct s, t; cbn; try done; lia. Qed.

Lemma run_terminal_frozen s t :
  RunState_is_terminal s = true -> RunState_can_transition_to s t = false.
Proof. by destruct s, t. Qed.

Lemma workflow_terminal_frozen s t :
  WorkflowState_is_terminal s = true -> WorkflowState_can_transition_to s t = false.
Proof. by destruct s, t. Qed.

Lemma task_terminal_frozen s t :
  TaskState_is_terminal s = true -> TaskState_can_transition_to s t = false.
Proof. by destruct s, t. Qed.

(** A state that is not terminal can always be cancelled. *)
Lemma run_can_cancel s :
  RunState_is_terminal s = false <-> RunState_can_transition_to s RsCancelled = true.
Proof. by destruct s. Qed.

Lemma workflow_can_cancel s :
  WorkflowState_is_terminal s = false <->
  WorkflowState_can_transition_to s WsCancelled = true.
Proof. by destruct s. Qed.
