(* ===== verification/Dag.v ===== *)
(** * The workflow DAG ([hub-core/src/dag.rs])

    Nodes and edges keyed by strings, the checked [add_node]/[add_edge], the
    depth-first reachability test that guards [add_edge], and Kahn's
    algorithm with a [BTreeSet] frontier.  The theorems: the reachability
    test decides the reflexive-transitive closure; the checked operations
    keep the graph closed and acyclic; the topological order succeeds exactly
    on acyclic graphs, never panics, and is the order that picks the least
    ready key at each step. *)

From stdpp Require Import base gmap strings list relations list_numbers.
From stdpp Require Import options.
From S2P Require Import Prelude Core.

Record DagLimits := { max_nodes : N; max_edges : N }.

Definition DagLimits_default : DagLimits := {| max_nodes := 1024; max_edges := 4096 |}.

Record Dag (T : Type) := mkDag {
  dag_nodes : gmap string T;
  dag_edges : gmap string (gset string);
}.
Arguments mkDag {T} _ _.
Arguments dag_nodes {T} _.
Arguments dag_edges {T} _.

Definition Dag_new {T} : Dag T := {| dag_nodes := ∅; dag_edges := ∅ |}.

(** [edges.values().map(BTreeSet::len).sum()]. *)
Definition count_edges (edges : gmap string (gset string)) : nat :=
  sum_list_with size (map_values edges).

Definition Dag_node_count {T} (d : Dag T) : N := N.of_nat (size (dag_nodes d)).
Definition Dag_edge_count {T} (d : Dag T) : N := N.of_nat (count_edges (dag_edges d)).

Definition Dag_add_node {T} (d : Dag T) (key : string) (payload : T)
    (limits : DagLimits) : Result (Dag T) :=
  if bool_decide (dag_nodes d !! key = None) && (max_nodes limits <=? Dag_node_count d)%N
  then Err (Validation "DAG cannot exceed {} nodes")
  else Ok (mkDag (<[key := payload]> (dag_nodes d)) (dag_edges d)).

(** The [while let Some(current) = stack.pop()] loop of [Dag::reachable].
    The stack's head is the vector's last element, so [extend] pushes the
    successors in reverse.  [None] is the fuel running out. *)
Fixpoint reachable_loop (fuel : nat) (edges : gmap string (gset string))
    (target : string) (stack : list string) (seen : gset string) : option bool :=
  match fuel with
  | O => None
  | S fuel =>
      match stack with
      | [] => Some false
      | current :: stack =>
          if decide (current = target) then Some true
          else if decide (current ∈ seen) then reachable_loop fuel edges target stack seen
          else
            let seen := {[current]} ∪ seen in
            match edges !! current with
            | Some nexts =>
                reachable_loop fuel edges target (reverse (set_iter nexts) ++ stack) seen
            | None => reachable_loop fuel edges target stack seen
            end
      end
  end.

(** Every pop either drops a stack entry or charges a node's out-edges once,
    so two more iterations than there are edges are enough
    ([reachable_loop_total]). *)
Definition Dag_reachable (edges : gmap string (gset string)) (start target : string) : bool :=
  default false (reachable_loop (2 + count_edges edges) edges target [start] ∅).

Definition succs (edges : gmap string (gset string)) (u : string) : gset string :=
  default ∅ (edges !! u).

Definition Dag_add_edge {T} (d : Dag T) (from to : string) (limits : DagLimits)
    : Result (Dag T) :=
  _ ← ensure (bool_decide (is_Some (dag_nodes d !! from)) &&
              bool_decide (is_Some (dag_nodes d !! to)))
        (Validation "cannot connect unknown nodes {from:?} -> {to:?}");
  _ ← ensure (negb (bool_decide (from = to)))
        (Validation "self edge {from:?} -> {from:?} would form a cycle");
  let already := bool_decide (to ∈ succs (dag_edges d) from) in
  _ ← ensure (already || negb (max_edges limits <=? Dag_edge_count d)%N)
        (Validation "DAG cannot exceed {} edges");
  _ ← ensure (negb (Dag_reachable (dag_edges d) to from))
        (Validation "edge {from:?} -> {to:?} would create a cycle");
  Ok (mkDag (dag_nodes d)
        (<[from := {[to]} ∪ succs (dag_edges d) from]> (dag_edges d))).

(** ** Kahn's algorithm *)

(** [*indegree.get_mut(t).expect(..) += 1]. *)
Definition indegree_incr (m : gmap string nat) (t : string) : Result (gmap string nat) :=
  match m !! t with
  | None => Err (Panic "edge endpoints validated")
  | Some n => Ok (<[t := S n]> m)
  end.

Definition indegree_init {T} (d : Dag T) : Result (gmap string nat) :=
  foldM (fun m targets => foldM indegree_incr m (set_iter targets))
    ((fun _ => 0) <$> dag_nodes d) (map_values (dag_edges d)).

(** [*deg -= 1; if *deg == 0 { ready.insert(t) }]. *)
Definition indegree_decr (st : gmap string nat * gset string) (t : string)
    : Result (gmap string nat * gset string) :=
  match st.1 !! t with
  | None => Err (Panic "edge endpoints validated")
  | Some O => Err (Panic "attempt to subtract with overflow")
  | Some (S n) =>
      Ok (<[t := n]> st.1, if decide (n = 0) then {[t]} ∪ st.2 else st.2)
  end.

Fixpoint kahn_loop (fuel : nat) (edges : gmap string (gset string))
    (indegree : gmap string nat) (ready : gset string) (order : list string)
    : Result (list string) :=
  match fuel with
  | O => Err (Panic "fuel")
  | S fuel =>
      match set_first ready with
      | None => Ok order
      | Some k =>
          let ready := ready ∖ {[k]} in
          let order := order ++ [k] in
          match edges !! k with
          | None => kahn_loop fuel edges indegree ready order
          | Some targets =>
              st ← foldM indegree_decr (indegree, ready) (set_iter targets);
              kahn_loop fuel edges st.1 st.2 order
          end
      end
  end.

(** A key becomes ready once, so one more iteration than there are nodes is
    enough ([kahn_loop_total]). *)
Definition Dag_topological_order {T} (d : Dag T) : Result (list (string * T)) :=
  indegree ← indegree_init d;
  let ready : gset string := dom (filter (fun kv : string * nat => kv.2 = 0) indegree) in
  order ← kahn_loop (S (size (dag_nodes d))) (dag_edges d) indegree ready [];
  _ ← ensure (bool_decide (length order = size (dag_nodes d)))
        (Validation "cycle detected during topological sort");
  mapR (fun k => match dag_nodes d !! k with
                 | Some p => Ok (k, p)
                 | None => Err (Panic "key originated here")
                 end) order.

(** ** Specification *)

(** The edge [u -> v]. *)
Definition edge (edges : gmap string (gset string)) (u v : string) : Prop :=
  v ∈ succs edges u.

Definition acyclic (edges : gmap string (gset string)) : Prop :=
  forall u, ~ tc (edge edges) u u.

(** Every edge joins declared nodes. *)
Definition closed {T} (d : Dag T) : Prop :=
  forall u v, edge (dag_edges d) u v -> u ∈ dom (dag_nodes d) /\ v ∈ dom (dag_nodes d).

Definition Dag_wf {T} (d : Dag T) : Prop := closed d /\ acyclic (dag_edges d).

(** The nodes that may come next once [pre] has been emitted. *)
Definition ready_after {T} (d : Dag T) (pre : list string) (k : string) : Prop :=
  k ∈ dom (dag_nodes d) /\ k ∉ pre /\ forall u, edge (dag_edges d) u k -> u ∈ pre.

(** The order emits, at every step, the least key that is ready. *)
Definition least_ready_order {T} (d : Dag T) (l : list string) : Prop :=
  forall pre k post, l = pre ++ k :: post ->
    ready_after d pre k /\ forall j, ready_after d pre j -> ord_le k j.

#[global] Instance edge_dec edges u v : Decision (edge edges u v).
Proof. unfold edge. apply _. Defined.

(** ** The reachability test decides reachability *)

(** Out-edges of the nodes not yet seen. *)
Definition weight (edges : gmap string (gset string)) (seen : gset string) : nat :=
  sum_list_with (fun us : string * gset string =>
    if decide (us.1 ∈ seen) then 0 else size us.2) (map_to_list edges).

Lemma sum_list_with_ext {A} (f g : A -> nat) l :
  (forall x, x ∈ l -> f x = g x) -> sum_list_with f l = sum_list_with g l.
Proof.
  induction l as [|x l IH]; intros Hfg; cbn; [done|].
  rewrite (Hfg x) by set_solver. rewrite IH; [done|]. set_solver.
Qed.

Lemma weight_see edges seen u s :
  edges !! u = Some s -> u ∉ seen ->
  weight edges seen = size s + weight edges ({[u]} ∪ seen).
Proof.
  intros Hu Hns. unfold weight.
  rewrite <- (map_to_list_delete edges u s Hu). cbn [sum_list_with].
  rewrite !decide_False by done. rewrite decide_True by set_solver. cbn.
  f_equal. apply sum_list_with_ext. intros [v t] Hin%elem_of_map_to_list. cbn.
  apply lookup_delete_Some in Hin as [Hne _].
  do 2 case_decide; set_solver.
Qed.

Lemma weight_skip edges seen u :
  edges !! u = None -> weight edges ({[u]} ∪ seen) = weight edges seen.
Proof.
  intros Hu. apply sum_list_with_ext. intros [v t] Hin%elem_of_map_to_list. cbn.
  do 2 case_decide; set_solver.
Qed.

Lemma sum_list_with_fmap {A B} (f : B -> nat) (g : A -> B) l :
  sum_list_with f (g <$> l) = sum_list_with (fun x => f (g x)) l.
Proof. induction l as [|x l IH]; cbn; congruence. Qed.

Lemma weight_empty edges : weight edges ∅ = count_edges edges.
Proof.
  unfold count_edges, map_values, weight.
  rewrite sum_list_with_fmap, map_iter_perm. done.
Qed.

Lemma reachable_loop_total edges target fuel stack seen :
  length stack + weight edges seen < fuel ->
  is_Some (reachable_loop fuel edges target stack seen).
Proof.
  revert stack seen; induction fuel as [|fuel IH]; intros stack seen Hlt; [lia|].
  cbn. destruct stack as [|c stack]; [eauto|]. cbn in Hlt.
  case_decide; [eauto|]. case_decide as Hseen; [apply IH; lia|].
  destruct (edges !! c) as [s|] eqn:E; apply IH.
  - rewrite (weight_see _ _ _ _ E Hseen) in Hlt.
    rewrite length_app, length_reverse, set_iter_perm.
    change (length (elements s)) with (size s). lia.
  - rewrite weight_skip by done. lia.
Qed.

Lemma edge_lookup edges u v :
  edge edges u v <-> exists s, edges !! u = Some s /\ v ∈ s.
Proof. unfold edge, succs. destruct (edges !! u); cbn; set_solver. Qed.

Lemma reachable_loop_sound edges target fuel stack seen start :
  (forall u, u ∈ stack -> rtc (edge edges) start u) ->
  reachable_loop fuel edges target stack seen = Some true ->
  rtc (edge edges) start target.
Proof.
  revert stack seen; induction fuel as [|fuel IH]; intros stack seen Hst Hrun; [done|].
  cbn in Hrun. destruct stack as [|c stack]; [done|].
  case_decide as Hc; [subst; apply Hst; set_solver|].
  case_decide; [eapply IH; [|done]; set_solver|].
  destruct (edges !! c) as [s|] eqn:E; (eapply IH; [|done]); [|set_solver].
  intros u [Hu|Hu]%elem_of_app; [|apply Hst; set_solver].
  apply elem_of_reverse, elem_of_set_iter in Hu.
  eapply rtc_r; [apply (Hst c); set_solver|]. apply edge_lookup. eauto.
Qed.

Lemma reachable_loop_complete edges target fuel stack seen start :
  start ∈ seen \/ start ∈ stack ->
  target ∉ seen ->
  (forall u v, u ∈ seen -> edge edges u v -> v ∈ seen \/ v ∈ stack) ->
  reachable_loop fuel edges target stack seen = Some false ->
  ~ rtc (edge edges) start target.
Proof.
  revert stack seen; induction fuel as [|fuel IH]; intros stack seen Hin Ht Hcl Hrun; [done|].
  cbn in Hrun. destruct stack as [|c stack].
  - intros Hrtc. apply Ht. destruct Hin as [Hin|Hin]; [|set_solver].
    clear -Hrtc Hin Hcl. induction Hrtc as [|x y z Hxy _ IH]; [done|].
    apply IH. destruct (Hcl x y Hin Hxy); set_solver.
  - case_decide as Hc; [done|].
    case_decide as Hseen; [eapply IH; [| |..|done]; set_solver|].
    destruct (edges !! c) as [s|] eqn:E; (eapply IH; [| |..|done]).
    + set_solver.
    + set_solver.
    + intros u v [->%elem_of_singleton|Hu]%elem_of_union Huv.
      * apply edge_lookup in Huv as (s' & ? & Hv). simplify_eq.
        right. apply elem_of_app. left. by apply elem_of_reverse, elem_of_set_iter.
      * destruct (Hcl u v Hu Huv); set_solver.
    + set_solver.
    + set_solver.
    + intros u v [->%elem_of_singleton|Hu]%elem_of_union Huv.
      * apply edge_lookup in Huv as (s' & ? & Hv). simplify_eq.
      * destruct (Hcl u v Hu Huv); set_solver.
Qed.

Lemma Dag_reachable_rtc edges start target :
  Dag_reachable edges start target = true <-> rtc (edge edges) start target.
Proof.
  unfold Dag_reachable.
  destruct (reachable_loop_total edges target (2 + count_edges edges) [start] ∅)
    as [b Hb]; [rewrite weight_empty; cbn; lia|].
  rewrite Hb; cbn. destruct b; split; try done.
  - intros _. eapply reachable_loop_sound; [|exact Hb].
    intros u ->%list_elem_of_singleton. constructor.
  - intros Hrtc. exfalso. revert Hrtc.
    eapply reachable_loop_complete; [| | |exact Hb]; set_solver.
Qed.

#[global] Instance rtc_edge_dec edges u v : Decision (rtc (edge edges) u v).
Proof.
  destruct (Dag_reachable edges u v) eqn:E; [left|right].
  - by apply Dag_reachable_rtc.
  - intros H%Dag_reachable_rtc. congruence.
Defined.

(** ** The checked operations keep the graph closed and acyclic *)

Lemma succs_insert edges u s v :
  succs (<[u := s]> edges) v = if decide (u = v) then s else succs edges v.
Proof. unfold succs. rewrite lookup_insert. by case_decide. Qed.

Lemma edge_insert edges from to u v :
  edge (<[from := {[to]} ∪ succs edges from]> edges) u v <->
  edge edges u v \/ (u = from /\ v = to).
Proof. unfold edge. rewrite succs_insert. case_decide; set_solver. Qed.

(** A path of the extended graph either avoids the new edge or crosses it. *)
Lemma tc_insert_edge edges from to x y :
  tc (edge (<[from := {[to]} ∪ succs edges from]> edges)) x y ->
  tc (edge edges) x y \/ (rtc (edge edges) x from /\ rtc (edge edges) to y).
Proof.
  induction 1 as [x y Hxy|x y z Hxy Hyz IH].
  - apply edge_insert in Hxy as [?|[-> ->]]; [left; by apply tc_once|right; by split].
  - apply edge_insert in Hxy as [Hxy|[-> ->]].
    + destruct IH as [IH|[IH1 IH2]]; [left; by eapply tc_l|].
      right. split; [by eapply rtc_l|done].
    + right. split; [done|]. destruct IH as [IH|[_ IH]]; [by apply tc_rtc|done].
Qed.

Lemma acyclic_insert_edge edges from to :
  acyclic edges -> ~ rtc (edge edges) to from ->
  acyclic (<[from := {[to]} ∪ succs edges from]> edges).
Proof.
  intros Hac Hno x Hx. apply tc_insert_edge in Hx as [Hx|[H1 H2]].
  - by apply (Hac x).
  - apply Hno. by etrans.
Qed.

Lemma Dag_new_wf {T} : Dag_wf (@Dag_new T).
Proof.
  split.
  - intros u v H%edge_lookup. cbn in H. set_solver.
  - intros u Hu. assert (exists v, edge ∅ u v) as (v & Hv%edge_lookup)
      by (inversion Hu; eauto). set_solver.
Qed.

Lemma Dag_add_node_Ok {T} (d d' : Dag T) key p lim :
  Dag_add_node d key p lim = Ok d' ->
  d' = mkDag (<[key := p]> (dag_nodes d)) (dag_edges d) /\
  (dag_nodes d !! key = None -> (Dag_node_count d < max_nodes lim)%N).
Proof.
  unfold Dag_add_node. case_match eqn:E; [done|]. intros [= <-]. split; [done|].
  intros Hn. rewrite (bool_decide_eq_true_2 _ Hn) in E. cbn in E. bool_inv. done.
Qed.

Lemma Dag_add_node_room {T} (d : Dag T) key p lim :
  (Dag_node_count d < max_nodes lim)%N ->
  Dag_add_node d key p lim = Ok (mkDag (<[key := p]> (dag_nodes d)) (dag_edges d)).
Proof.
  intros Hlt. unfold Dag_add_node. by rewrite (proj2 (N.leb_gt _ _) Hlt), andb_false_r.
Qed.

Lemma Dag_add_node_wf {T} (d d' : Dag T) key p lim :
  Dag_wf d -> Dag_add_node d key p lim = Ok d' -> Dag_wf d'.
Proof.
  intros [Hc Ha] [-> _]%Dag_add_node_Ok. split; [|done].
  intros u v [Hu Hv]%Hc. cbn in *. rewrite dom_insert_L. set_solver.
Qed.

Lemma Dag_add_edge_Ok {T} (d d' : Dag T) from to lim :
  Dag_add_edge d from to lim = Ok d' ->
  from ∈ dom (dag_nodes d) /\ to ∈ dom (dag_nodes d) /\ from <> to /\
  ~ rtc (edge (dag_edges d)) to from /\
  d' = mkDag (dag_nodes d) (<[from := {[to]} ∪ succs (dag_edges d) from]> (dag_edges d)).
Proof.
  unfold Dag_add_edge. intros Hrun. ok_inv. bool_inv.
  rewrite !elem_of_dom. split_and!; try done.
  intros Hre%Dag_reachable_rtc. congruence.
Qed.

Lemma Dag_add_edge_wf {T} (d d' : Dag T) from to lim :
  Dag_wf d -> Dag_add_edge d from to lim = Ok d' -> Dag_wf d'.
Proof.
  intros [Hc Ha] (Hf & Ht & _ & Hno & ->)%Dag_add_edge_Ok. split; cbn.
  - intros u v [Huv|[-> ->]]%edge_insert; [by apply Hc|done].
  - by apply acyclic_insert_edge.
Qed.

(** ** Kahn's loop *)

(** In-edges from the nodes not yet emitted. *)
Definition indeg (edges : gmap string (gset string)) (done : gset string) (v : string) : nat :=
  size (filter (fun u => v ∈ succs edges u) (dom edges ∖ done)).

Lemma indeg_step edges done k v :
  k ∉ done ->
  indeg edges done v =
    (if decide (edge edges k v) then 1 else 0) + indeg edges ({[k]} ∪ done) v.
Proof.
  intros Hk. unfold indeg, edge. case_decide as Hkv.
  - assert (Hdom : k ∈ dom edges).
    { apply elem_of_dom. unfold succs in Hkv. destruct (edges !! k); [eauto|set_solver]. }
    replace (filter (fun u => v ∈ succs edges u) (dom edges ∖ done))
      with ({[k]} ∪ filter (fun u => v ∈ succs edges u) (dom edges ∖ ({[k]} ∪ done))).
    + rewrite size_union by set_solver. by rewrite size_singleton.
    + apply leibniz_equiv. intros x. rewrite elem_of_union, elem_of_singleton, !elem_of_filter,
        !elem_of_difference, elem_of_union, elem_of_singleton.
      destruct (decide (x = k)) as [->|]; naive_solver.
  - cbn. f_equal. apply leibniz_equiv. intros x.
    rewrite !elem_of_filter, !elem_of_difference, elem_of_union, elem_of_singleton.
    destruct (decide (x = k)) as [->|]; naive_solver.
Qed.

Lemma indeg_zero edges done v :
  indeg edges done v = 0 <-> forall u, edge edges u v -> u ∈ done.
Proof.
  unfold indeg. rewrite size_empty_iff. split.
  - intros He u Hu. destruct (decide (u ∈ done)) as [|Hn]; [done|]. exfalso.
    apply (not_elem_of_empty (C := gset string) u). rewrite <- He.
    apply elem_of_filter. split; [done|]. apply elem_of_difference. split; [|done].
    apply edge_lookup in Hu as (s & Hs & _). apply elem_of_dom. eauto.
  - intros Hall. apply elem_of_equiv_empty. intros x.
    rewrite elem_of_filter, elem_of_difference.
    intros [Hx [_ Hn]]. apply Hn. by apply Hall.
Qed.

Lemma indegree_decr_S (m : gmap string nat) ready t n :
  m !! t = Some (S n) ->
  indegree_decr (m, ready) t =
    Ok (<[t := n]> m, if decide (n = 0) then {[t]} ∪ ready else ready).
Proof. intros Hn. unfold indegree_decr. cbn [fst snd]. by rewrite Hn. Qed.

(** One pass over a node's targets. *)
Lemma indegree_decr_all (m : gmap string nat) ready ts :
  NoDup ts ->
  (forall t, t ∈ ts -> exists n, m !! t = Some (S n)) ->
  exists m' ready', foldM indegree_decr (m, ready) ts = Ok (m', ready') /\
    (forall v, m' !! v = if decide (v ∈ ts) then pred <$> m !! v else m !! v) /\
    (forall v, v ∈ ready' <-> v ∈ ready \/ (v ∈ ts /\ m !! v = Some 1)).
Proof.
  revert m ready; induction ts as [|t ts IH]; intros m ready Hnd Hpos.
  - exists m, ready. cbn. split_and!; [done|done|set_solver].
  - apply NoDup_cons in Hnd as [Hni Hnd].
    destruct (Hpos t) as [n Hn]; [by left|].
    cbn [foldM]. rewrite (indegree_decr_S _ _ _ _ Hn). cbn [mbind result_bind].
    destruct (IH (<[t:=n]> m) (if decide (n = 0) then {[t]} ∪ ready else ready))
      as (m' & r' & Hrun & Hm & Hr).
    + done.
    + intros t' Ht'. rewrite lookup_insert_ne by (intros ->; done). apply Hpos.
      by right.
    + exists m', r'. split_and!; [done| |].
      * intros v. rewrite Hm. destruct (decide (v = t)) as [->|Hne].
        -- rewrite decide_False by done. rewrite lookup_insert_eq, Hn.
           by rewrite decide_True by apply elem_of_cons, or_introl, eq_refl.
        -- rewrite lookup_insert_ne by done. apply decide_ext.
           rewrite elem_of_cons. naive_solver.
      * intros v. rewrite Hr. clear IH Hpos Hm Hr Hrun. destruct (decide (v = t)) as [->|Hne].
        -- rewrite Hn. split.
           ++ intros [Hv|[Hv _]]; [|done]. case_decide; [|by left].
              right. split; [set_solver|]. by subst.
           ++ intros [Hv|[_ Hv]]; [left; case_decide; set_solver|].
              left. rewrite decide_True by congruence. set_solver.
        -- rewrite lookup_insert_ne by done.
           assert (v ∈ (if decide (n = 0) then {[t]} ∪ ready else ready) <-> v ∈ ready)
             as -> by (case_decide; set_solver).
           rewrite elem_of_cons. naive_solver.
Qed.

Lemma kahn_loop_unfold fuel edges m ready order k :
  set_first ready = Some k ->
  kahn_loop (S fuel) edges m ready order =
    st ← foldM indegree_decr (m, ready ∖ {[k]}) (set_iter (succs edges k));
    kahn_loop fuel edges st.1 st.2 (order ++ [k]).
Proof. intros Hk. cbn. rewrite Hk. unfold succs. by destruct (edges !! k). Qed.

Section kahn.
Context {T : Type} (d : Dag T).

Definition kahn_inv (m : gmap string nat) (ready : gset string) (order : list string) : Prop :=
  NoDup order /\ (forall k, k ∈ order -> k ∈ dom (dag_nodes d)) /\
  (forall v, m !! v = if decide (v ∈ dom (dag_nodes d))
                      then Some (indeg (dag_edges d) (list_to_set order) v) else None) /\
  (forall k, k ∈ ready <-> ready_after d order k) /\
  least_ready_order d order.

Lemma ready_after_indeg order k :
  ready_after d order k <->
  k ∈ dom (dag_nodes d) /\ k ∉ order /\ indeg (dag_edges d) (list_to_set order) k = 0.
Proof. unfold ready_after. rewrite indeg_zero. set_solver. Qed.

Lemma least_ready_order_snoc order k :
  least_ready_order d order -> ready_after d order k ->
  (forall j, ready_after d order j -> ord_le k j) ->
  least_ready_order d (order ++ [k]).
Proof.
  intros Hl Hk Hmin pre k' post Heq.
  destruct (decide (post = [])) as [->|Hne].
  - apply app_inj_tail in Heq as [-> ->]. done.
  - destruct (exists_last Hne) as (post' & k2 & ->).
    rewrite app_comm_cons, app_assoc in Heq.
    apply app_inj_tail in Heq as [Heq _]. eauto.
Qed.

Lemma kahn_step m ready order k :
  closed d -> kahn_inv m ready order -> set_first ready = Some k ->
  exists m' ready',
    foldM indegree_decr (m, ready ∖ {[k]}) (set_iter (succs (dag_edges d) k))
      = Ok (m', ready') /\ kahn_inv m' ready' (order ++ [k]).
Proof.
  intros Hcl (Hnd & Hsub & Hm & Hr & Hl) [Hk Hmin]%set_first_Some.
  assert (Hka : ready_after d order k) by (by apply Hr).
  destruct (Hka) as (Hkn & Hko & _).
  assert (Hstep : forall v, indeg (dag_edges d) (list_to_set order) v =
    (if decide (edge (dag_edges d) k v) then 1 else 0) +
    indeg (dag_edges d) (list_to_set (order ++ [k])) v).
  { intros v. rewrite (indeg_step _ _ k v) by (by rewrite elem_of_list_to_set).
    do 2 f_equal. apply leibniz_equiv. rewrite list_to_set_app. cbn.
    rewrite (right_id ∅ (∪)). by rewrite (comm (∪)). }
  destruct (indegree_decr_all m (ready ∖ {[k]}) (set_iter (succs (dag_edges d) k)))
    as (m' & ready' & Hrun & Hm' & Hr').
  { apply NoDup_set_iter. }
  { intros t Ht%elem_of_set_iter. pose proof (Hstep t) as Hst.
    rewrite decide_True in Hst by done.
    eexists. rewrite Hm, decide_True by (by eapply Hcl). by rewrite Hst. }
  exists m', ready'. split; [done|]. split_and!.
  - apply NoDup_app. split_and!; [done| |apply NoDup_singleton].
    intros j Hj ->%list_elem_of_singleton. done.
  - intros j Hj. apply elem_of_app in Hj as [?|Hj]; [auto|].
    apply list_elem_of_singleton in Hj. by subst.
  - intros v. rewrite Hm', Hm, (decide_ext (v ∈ set_iter _) (edge (dag_edges d) k v))
      by apply elem_of_set_iter.
    rewrite (Hstep v). by do 2 case_decide.
  - intros j. rewrite Hr', Hm, elem_of_set_iter, elem_of_difference, not_elem_of_singleton, Hr.
    fold (edge (dag_edges d) k j). rewrite !ready_after_indeg, (Hstep j), not_elem_of_app,
      not_elem_of_cons. clear Hstep Hrun Hm Hr Hm' Hr'.
    assert (edge (dag_edges d) k j -> j ∈ dom (dag_nodes d)) by (intros He; by eapply Hcl).
    assert (edge (dag_edges d) k j -> j ∉ order).
    { intros He Hj. apply list_elem_of_split in Hj as (l1 & l2 & ->).
      destruct (Hl l1 j l2 eq_refl) as [(_ & _ & Hp) _]. specialize (Hp k He). set_solver. }
    assert (edge (dag_edges d) k j -> j <> k).
    { intros He ->. destruct Hka as (_ & _ & Hp). auto. }
    assert (j ∉ ([] : list string)) by apply not_elem_of_nil.
    destruct (decide (edge (dag_edges d) k j)) as [He|He]; [|naive_solver].
    rewrite decide_True by auto. split; [|naive_solver].
    intros [[(_ & _ & ?) _]|[_ Heq]]; [lia|]. naive_solver.
  - apply least_ready_order_snoc; [done|done|]. intros j Hj. apply Hmin. by apply Hr.
Qed.
End kahn.

Lemma indegree_incr_all (m : gmap string nat) ts :
  NoDup ts -> (forall t, t ∈ ts -> is_Some (m !! t)) ->
  exists m', foldM indegree_incr m ts = Ok m' /\
    forall v, m' !! v = if decide (v ∈ ts) then S <$> m !! v else m !! v.
Proof.
  revert m; induction ts as [|t ts IH]; intros m Hnd Hsome; [by exists m|].
  apply NoDup_cons in Hnd as [Hni Hnd].
  destruct (Hsome t) as [n Hn]; [by left|].
  destruct (IH (<[t := S n]> m)) as (m' & Hrun & Hm'); [done| |].
  { intros t' Ht'. rewrite lookup_insert_ne by (intros ->; done). apply Hsome. by right. }
  exists m'. split.
  { cbn [foldM].
    replace (indegree_incr m t) with (Ok (E := CoreError) (<[t := S n]> m)); [done|].
    unfold indegree_incr. by rewrite Hn. }
  intros v. rewrite Hm'. destruct (decide (v = t)) as [->|Hne].
  - rewrite decide_False, decide_True by (done || by left). by rewrite lookup_insert_eq, Hn.
  - rewrite lookup_insert_ne by done. apply decide_ext. rewrite elem_of_cons. naive_solver.
Qed.

(** In-edges counted over a list of adjacency sets. *)
Definition count_in (v : string) (l : list (string * gset string)) : nat :=
  length (filter (fun us : string * gset string => v ∈ us.2) l).

Lemma count_in_indeg edges v : count_in v (map_iter edges) = indeg edges ∅ v.
Proof.
  unfold count_in, indeg. rewrite map_iter_perm.
  rewrite <- (length_fmap fst (filter _ _)).
  assert (Hnd : NoDup (filter (fun us : string * gset string => v ∈ us.2)
                         (map_to_list edges)).*1).
  { eapply sublist_NoDup; [exact (NoDup_fst_map_to_list edges)|].
    apply fmap_sublist, sublist_filter. }
  rewrite <- (size_list_to_set (C := gset string) _ Hnd). f_equal. apply leibniz_equiv.
  intros u. rewrite elem_of_list_to_set, list_elem_of_fmap, elem_of_filter,
    elem_of_difference, elem_of_dom. split.
  - intros ([u' s] & -> & [Hv Hin%elem_of_map_to_list]%list_elem_of_filter). cbn in *.
    unfold succs. rewrite Hin. cbn. set_solver.
  - intros [Hv [[s Hs] _]]. exists (u, s). split; [done|]. apply list_elem_of_filter.
    unfold succs in Hv. rewrite Hs in Hv. split; [done|]. by apply elem_of_map_to_list.
Qed.

Lemma indegree_init_Ok {T} (d : Dag T) :
  closed d ->
  exists m, indegree_init d = Ok m /\
    forall v, m !! v = if decide (v ∈ dom (dag_nodes d))
                       then Some (indeg (dag_edges d) ∅ v) else None.
Proof.
  intros Hcl. unfold indegree_init, map_values.
  assert (Hin : forall us, us ∈ map_iter (dag_edges d) ->
    forall v, v ∈ us.2 -> v ∈ dom (dag_nodes d)).
  { intros [u s] Hus%elem_of_map_iter v Hv. cbn in Hv. eapply Hcl.
    apply edge_lookup. eauto. }
  enough (exists m : gmap string nat,
    foldM (fun m targets => foldM indegree_incr m (set_iter targets))
      ((fun _ => 0) <$> dag_nodes d) (map_iter (dag_edges d)).*2 = Ok m /\
    forall v, m !! v = if decide (v ∈ dom (dag_nodes d))
      then Some (count_in v (map_iter (dag_edges d))) else None) as (m & Hrun & Hm).
  { exists m. split; [done|]. intros v. by rewrite Hm, count_in_indeg. }
  revert Hin.
  induction (map_iter (dag_edges d)) as [|us l IH] using rev_ind; intros Hin.
  - eexists. cbn. split; [done|]. intros v. rewrite lookup_fmap.
    case_decide as Hd; [apply elem_of_dom in Hd as [p ->]; done|].
    apply not_elem_of_dom in Hd as ->. done.
  - destruct IH as (m & Hrun & Hm).
    { intros us' Hus'. apply Hin. apply elem_of_app. by left. }
    destruct (indegree_incr_all m (set_iter us.2)) as (m' & Hrun' & Hm').
    { apply NoDup_set_iter. }
    { intros t Ht%elem_of_set_iter. rewrite Hm, decide_True; [eauto|].
      eapply Hin; [apply elem_of_app; right; by left|done]. }
    exists m'. split.
    { rewrite fmap_app, foldM_app, Hrun. cbn. by rewrite Hrun'. }
    intros v. rewrite Hm', Hm. unfold count_in.
    rewrite filter_app, length_app, filter_cons, filter_nil.
    rewrite (decide_ext (v ∈ set_iter us.2) (v ∈ us.2)) by apply elem_of_set_iter.
    do 2 case_decide; cbn; rewrite ?Nat.add_1_r, ?Nat.add_0_r; done.
Qed.

Section order.
Context {T : Type} (d : Dag T).

Lemma order_length (order : list string) :
  NoDup order -> (forall k, k ∈ order -> k ∈ dom (dag_nodes d)) ->
  length order <= size (dag_nodes d).
Proof.
  intros Hnd Hsub. rewrite <- (size_list_to_set (C := gset string) _ Hnd), <- size_dom.
  apply subseteq_size. intros k Hk%elem_of_list_to_set. auto.
Qed.

Lemma kahn_loop_total fuel m ready order :
  closed d -> kahn_inv d m ready order ->
  size (dag_nodes d) < fuel + length order ->
  exists order', kahn_loop fuel (dag_edges d) m ready order = Ok order' /\
    exists m', kahn_inv d m' ∅ order'.
Proof.
  intros Hcl. revert m ready order; induction fuel as [|fuel IH];
    intros m ready order Hinv Hfuel.
  - pose proof Hinv as (Hnd & Hsub & _).
    pose proof (order_length order Hnd Hsub). cbn in Hfuel. lia.
  - destruct (set_first ready) as [k|] eqn:Hk.
    + rewrite (kahn_loop_unfold _ _ _ _ _ _ Hk).
      destruct (kahn_step d m ready order k Hcl Hinv Hk) as (m' & ready' & -> & Hinv').
      cbn. apply IH; [done|]. rewrite length_app. cbn. lia.
    + cbn. rewrite Hk. exists order. split; [done|]. exists m.
      apply set_first_None in Hk. by subst.
Qed.

(** What [topological_order] computes, without the cycle verdict. *)
Lemma topological_order_run :
  closed d ->
  exists order m, kahn_inv d m ∅ order /\
    Dag_topological_order d =
      (_ ← ensure (bool_decide (length order = size (dag_nodes d)))
             (Validation "cycle detected during topological sort");
       mapR (fun k => match dag_nodes d !! k with
                      | Some p => Ok (k, p)
                      | None => Err (Panic "key originated here")
                      end) order).
Proof.
  intros Hcl. unfold Dag_topological_order.
  destruct (indegree_init_Ok d Hcl) as (m & -> & Hm). cbn [mbind result_bind].
  destruct (kahn_loop_total (S (size (dag_nodes d))) m
    (dom (filter (fun kv : string * nat => kv.2 = 0) m)) []) as (order & -> & m' & Hinv).
  - done.
  - split_and!.
    + constructor.
    + set_solver.
    + exact Hm.
    + intros k. rewrite ready_after_indeg, elem_of_dom. cbn [list_to_set].
      unfold is_Some. setoid_rewrite map_lookup_filter_Some. setoid_rewrite Hm. split.
      * intros (n & Hn & Hz). case_decide; [|done]. cbn in Hz. simplify_eq.
        split_and!; [done|set_solver|congruence].
      * intros (Hk & _ & Hz). exists 0. rewrite decide_True by done. cbn. by rewrite Hz.
    + intros pre k post Heq. by destruct pre.
  - cbn. lia.
  - exists order, m'. done.
Qed.

Lemma lookup_payloads order :
  (forall k, k ∈ order -> k ∈ dom (dag_nodes d)) ->
  exists l, mapR (fun k => match dag_nodes d !! k with
                      | Some p => Ok (k, p)
                      | None => Err (Panic "key originated here")
                      end) order = Ok l /\ l.*1 = order /\
            forall k p, (k, p) ∈ l -> dag_nodes d !! k = Some p.
Proof.
  induction order as [|k order IH]; intros Hsub; cbn.
  - exists []. split_and!; [done|done|set_solver].
  - destruct IH as (l & -> & <- & Hl); [intros; apply Hsub; by right|].
    destruct (dag_nodes d !! k) as [p|] eqn:E; cbn.
    + exists ((k, p) :: l). split_and!; [done|done|].
      intros k' p' [[= -> ->]|]%elem_of_cons; auto.
    + exfalso. apply not_elem_of_dom in E. apply E, Hsub. by left.
Qed.

(** In an order of all nodes that respects the edges, everything that
    reaches a key comes before it. *)
Lemma least_ready_order_tc l pre v post u :
  least_ready_order d l -> l = pre ++ v :: post -> tc (edge (dag_edges d)) u v -> u ∈ pre.
Proof.
  intros Hl Heq Htc. revert pre post Heq.
  induction Htc as [u v Huv|u w v Huw _ IH]; intros pre post Heq.
  - destruct (Hl _ _ _ Heq) as [(_ & _ & Hp) _]. auto.
  - specialize (IH pre post Heq). apply list_elem_of_split in IH as (p1 & p2 & ->).
    rewrite <- app_assoc in Heq. cbn in Heq.
    destruct (Hl _ _ _ Heq) as [(_ & _ & Hp) _]. specialize (Hp u Huw). set_solver.
Qed.
End order.

(** ** Acyclicity and completeness of the order *)

#[global] Instance tc_edge_dec edges u v : Decision (tc (edge edges) u v).
Proof.
  refine (cast_if (decide (set_Exists (fun w => rtc (edge edges) w v) (succs edges u)))).
  - destruct s as (w & Hw & Hr). by eapply tc_rtc_r; [apply tc_once|].
  - intros Htc. apply n. inversion Htc; subst; eexists; split;
      [done|done|done|by apply tc_rtc].
Defined.

Lemma closed_tc {T} (d : Dag T) u v :
  closed d -> tc (edge (dag_edges d)) u v -> u ∈ dom (dag_nodes d).
Proof. intros Hcl [x y Hxy|x y z Hxy _]; by destruct (Hcl _ _ Hxy). Qed.

(** In an acyclic graph a set in which every key has a predecessor is
    empty: follow predecessors, the ancestors shrink. *)
Lemma acyclic_no_source {T} (d : Dag T) (R : gset string) :
  closed d -> acyclic (dag_edges d) ->
  (forall v, v ∈ R -> exists u, u ∈ R /\ edge (dag_edges d) u v) ->
  R = ∅.
Proof.
  intros Hcl Hac HR. apply leibniz_equiv, elem_of_equiv_empty. intros v.
  set (anc v := filter (fun u => tc (edge (dag_edges d)) u v) (dom (dag_nodes d))).
  remember (size (anc v)) as n eqn:Hn.
  revert v Hn; induction n as [n IH] using lt_wf_ind; intros v -> Hv.
  destruct (HR v Hv) as (u & Hu & Huv).
  apply (IH (size (anc u))) with (v := u); [|done|done].
  apply subset_size. split.
  - intros w [Hw Hwn]%elem_of_filter. apply elem_of_filter. split; [|done].
    by eapply tc_r.
  - intros Hsub. assert (Hua : u ∈ anc v).
    { apply elem_of_filter. split; [by apply tc_once|]. by destruct (Hcl _ _ Huv). }
    apply Hsub, elem_of_filter in Hua as [Huu _]. by apply (Hac u).
Qed.

Lemma kahn_inv_complete {T} (d : Dag T) m order :
  closed d -> acyclic (dag_edges d) -> kahn_inv d m ∅ order ->
  forall k, k ∈ dom (dag_nodes d) -> k ∈ order.
Proof.
  intros Hcl Hac (_ & _ & _ & Hr & _).
  assert (HR : dom (dag_nodes d) ∖ list_to_set order = (∅ : gset string)).
  { apply (acyclic_no_source d); [done|done|].
    intros v [Hv Hno]%elem_of_difference. rewrite elem_of_list_to_set in Hno.
    destruct (decide (set_Exists (fun u => edge (dag_edges d) u v)
      (dom (dag_nodes d) ∖ list_to_set order))) as [(u & ? & ?)|Hn]; [by exists u|].
    exfalso. apply (not_elem_of_empty (C := gset string) v), Hr. split_and!; [done|done|].
    intros u Huv. destruct (decide (u ∈ order)) as [|Huo]; [done|]. exfalso.
    apply Hn. exists u. split; [|done]. apply elem_of_difference.
    rewrite elem_of_list_to_set. split; [|done]. by destruct (Hcl _ _ Huv). }
  intros k Hk. destruct (decide (k ∈ order)) as [|Hn]; [done|]. exfalso.
  apply (not_elem_of_empty (C := gset string) k). rewrite <- HR. set_solver.
Qed.

(** [l] emits every node once, each as the least ready one. *)
Definition is_kahn_order {T} (d : Dag T) (l : list string) : Prop :=
  l ≡ₚ elements (dom (dag_nodes d)) /\ least_ready_order d l.

Lemma topological_order_acyclic {T} (d : Dag T) :
  closed d -> acyclic (dag_edges d) ->
  exists l, Dag_topological_order d = Ok l /\ is_kahn_order d l.*1 /\
    forall k p, (k, p) ∈ l -> dag_nodes d !! k = Some p.
Proof.
  intros Hcl Hac. destruct (topological_order_run d Hcl) as (order & m & Hinv & ->).
  pose proof (kahn_inv_complete d m order Hcl Hac Hinv) as Hall.
  destruct Hinv as (Hnd & Hsub & _ & _ & Hl).
  assert (Hperm : order ≡ₚ elements (dom (dag_nodes d))).
  { apply NoDup_Permutation; [done|apply NoDup_elements|].
    intros k. rewrite elem_of_elements. split; auto. }
  rewrite bool_decide_eq_true_2.
  - destruct (lookup_payloads d order Hsub) as (l & Hrun & <- & Hp).
    exists l. split_and!; [exact Hrun|by split|done].
  - rewrite Hperm. change (size (dom (dag_nodes d)) = size (dag_nodes d)). apply size_dom.
Qed.

Lemma topological_order_cyclic {T} (d : Dag T) :
  closed d -> ~ acyclic (dag_edges d) ->
  Dag_topological_order d = Err (Validation "cycle detected during topological sort").
Proof.
  intros Hcl Hcyc. destruct (topological_order_run d Hcl) as (order & m & Hinv & ->).
  case_bool_decide as Hlen; [|done]. exfalso. apply Hcyc. intros u Htc.
  destruct Hinv as (Hnd & Hsub & _ & _ & Hl).
  assert (Hu : u ∈ order).
  { assert (Hd : u ∈ dom (dag_nodes d)) by (by apply closed_tc with u).
    enough (list_to_set order = dom (dag_nodes d)) as Heq
      by (by rewrite <- Heq, elem_of_list_to_set in Hd).
    apply leibniz_equiv, set_subseteq_size_equiv.
    - intros k Hk%elem_of_list_to_set. auto.
    - rewrite size_list_to_set, size_dom by done. lia. }
  apply list_elem_of_split in Hu as (pre & post & ->).
  pose proof (least_ready_order_tc d _ pre u post u Hl eq_refl Htc) as Hin.
  apply NoDup_app in Hnd as (_ & Hdis & _). apply (Hdis u Hin). by left.
Qed.

(** A validator that only has to know whether the order exists. *)
Lemma topological_order_Ok_acyclic {T} (d : Dag T) l :
  closed d -> Dag_topological_order d = Ok l ->
  acyclic (dag_edges d) /\ is_kahn_order d l.*1.
Proof.
  intros Hcl Hrun. destruct (decide (set_Forall
    (fun u => ~ tc (edge (dag_edges d)) u u) (dom (dag_nodes d)))) as [Hac|Hcyc].
  - assert (Ha : acyclic (dag_edges d)).
    { intros u Hu. apply (Hac u); [by apply closed_tc with u|done]. }
    split; [done|]. destruct (topological_order_acyclic d Hcl Ha) as (l' & Hl' & Hk & _).
    congruence.
  - rewrite topological_order_cyclic in Hrun; [done|done|].
    intros Ha. apply Hcyc. intros u _. apply Ha.
Qed.

(** ** Size bounds *)

Lemma count_edges_insert edges u s :
  count_edges (<[u := s]> edges) + size (succs edges u) = count_edges edges + size s.
Proof.
  rewrite <- !weight_empty. unfold weight, succs.
  assert (Hd : map_to_list (<[u := s]> edges) ≡ₚ (u, s) :: map_to_list (delete u edges)).
  { rewrite <- insert_delete_eq. apply map_to_list_insert, lookup_delete_eq. }
  rewrite Hd. destruct (edges !! u) as [t|] eqn:E; cbn [from_option id sum_list_with].
  - rewrite <- (map_to_list_delete edges u t E). cbn [sum_list_with fst snd].
    rewrite !decide_False by set_solver. unfold id; lia.
  - rewrite delete_id by done. cbn [sum_list_with fst snd].
    rewrite size_empty. case_decide; [set_solver|]. lia.
Qed.

Lemma Dag_add_edge_count {T} (d d' : Dag T) from to lim :
  Dag_add_edge d from to lim = Ok d' ->
  (Dag_edge_count d <= max_edges lim -> Dag_edge_count d' <= max_edges lim)%N.
Proof.
  intros Hrun. pose proof Hrun as (_ & _ & _ & _ & ->)%Dag_add_edge_Ok.
  unfold Dag_add_edge in Hrun. ok_inv. unfold Dag_edge_count. cbn.
  pose proof (count_edges_insert (dag_edges d) from ({[to]} ∪ succs (dag_edges d) from)) as Hc.
  intros Hle. destruct (decide (to ∈ succs (dag_edges d) from)) as [Hin|Hni].
  - rewrite (subseteq_union_1_L {[to]} (succs (dag_edges d) from)) in * by set_solver. lia.
  - rewrite size_union, size_singleton in Hc by set_solver.
    rewrite (bool_decide_eq_false_2 _ Hni) in *. cbn in *. bool_inv.
    unfold Dag_edge_count in *. lia.
Qed.

(** The graphs built through the checked API, under one set of limits. *)
Inductive dag_built {T} (lim : DagLimits) : Dag T -> Prop :=
| built_new : dag_built lim Dag_new
| built_node d key p d' :
    dag_built lim d -> Dag_add_node d key p lim = Ok d' -> dag_built lim d'
| built_edge d from to d' :
    dag_built lim d -> Dag_add_edge d from to lim = Ok d' -> dag_built lim d'.

Lemma dag_built_wf {T} lim (d : Dag T) : dag_built lim d -> Dag_wf d.
Proof.
  induction 1; [apply Dag_new_wf|by eapply Dag_add_node_wf|by eapply Dag_add_edge_wf].
Qed.

Lemma dag_built_bounds {T} lim (d : Dag T) :
  dag_built lim d ->
  (Dag_node_count d <= max_nodes lim /\ Dag_edge_count d <= max_edges lim)%N.
Proof.
  induction 1 as [|d key p d' _ [IHn IHe] Hrun|d from to d' _ [IHn IHe] Hrun].
  - unfold Dag_node_count, Dag_edge_count. cbn. split; apply N.le_0_l.
  - apply Dag_add_node_Ok in Hrun as [-> Hlt]. split; [|exact IHe].
    unfold Dag_node_count in *. cbn.
    destruct (dag_nodes d !! key) as [q|] eqn:E.
    + rewrite map_size_insert_Some; [done|eauto].
    + rewrite map_size_insert_None by done. specialize (Hlt eq_refl). lia.
  - split; [|by eapply Dag_add_edge_count].
    apply Dag_add_edge_Ok in Hrun as (_ & _ & _ & _ & ->). exact IHn.
Qed.

(** ** Properties *)

Lemma Dag_add_edge_iff {T} (d : Dag T) from to lim :
  (exists d', Dag_add_edge d from to lim = Ok d' /\
     dag_nodes d' = dag_nodes d /\
     forall u v, edge (dag_edges d') u v <->
       edge (dag_edges d) u v \/ (u = from /\ v = to)) <->
  from ∈ dom (dag_nodes d) /\ to ∈ dom (dag_nodes d) /\ from <> to /\
  (edge (dag_edges d) from to \/ (Dag_edge_count d < max_edges lim)%N) /\
  ~ rtc (edge (dag_edges d)) to from.
Proof.
  split.
  - intros (d' & Hrun & _ & _). pose proof Hrun as (Hf & Ht & Hne & Hno & _)%Dag_add_edge_Ok.
    split_and!; try done. unfold Dag_add_edge in Hrun. ok_inv.
    apply orb_true_iff in Hr1 as [He|Hlt]; bool_inv; [by left|by right].
  - intros (Hf%elem_of_dom & Ht%elem_of_dom & Hne & Hcap & Hno).
    unfold Dag_add_edge. rewrite (bool_decide_eq_true_2 _ Hf), (bool_decide_eq_true_2 _ Ht).
    rewrite (bool_decide_eq_false_2 _ Hne). cbn [andb negb ensure mbind result_bind].
    replace (_ || _) with true; cycle 1.
    { symmetry. apply orb_true_iff. rewrite bool_decide_eq_true, negb_true_iff, N.leb_gt.
      by unfold edge in Hcap. }
    cbn [ensure mbind result_bind]. destruct (Dag_reachable (dag_edges d) to from) eqn:E;
      [by apply Dag_reachable_rtc in E|].
    cbn [negb ensure mbind result_bind]. eexists. split; [reflexivity|].
    split; [done|]. intros u v. apply edge_insert.
Qed.

(** *** Building a graph from a list of edges *)
Definition Dag_add_edges {T} (lim : DagLimits) (d : Dag T) (es : list (string * string))
    : Result (Dag T) :=
  foldM (fun d e => Dag_add_edge d e.1 e.2 lim) d es.

(** The edges of the graph together with a list of further ones. *)
Definition edge_or {T} (d : Dag T) (es : list (string * string)) (u v : string) : Prop :=
  edge (dag_edges d) u v \/ (u, v) ∈ es.

Lemma Dag_add_edge_count_new {T} (d d' : Dag T) from to lim :
  Dag_add_edge d from to lim = Ok d' -> ~ edge (dag_edges d) from to ->
  (Dag_edge_count d' = Dag_edge_count d + 1)%N.
Proof.
  intros (_ & _ & _ & _ & ->)%Dag_add_edge_Ok Hni. unfold Dag_edge_count. cbn.
  pose proof (count_edges_insert (dag_edges d) from ({[to]} ∪ succs (dag_edges d) from)) as Hc.
  rewrite size_union, size_singleton in Hc by (unfold edge in Hni; set_solver). lia.
Qed.

Lemma tc_mono {A} (R S : relation A) x y :
  (forall u v, R u v -> S u v) -> tc R x y -> tc S x y.
Proof. intros HRS. induction 1; [constructor; auto|eapply tc_l; eauto]. Qed.

Lemma edge_or_cons {T} (d d' : Dag T) a b es u v :
  (forall x y, edge (dag_edges d') x y <-> edge (dag_edges d) x y \/ (x = a /\ y = b)) ->
  edge_or d' es u v <-> edge_or d ((a, b) :: es) u v.
Proof. intros He. unfold edge_or. rewrite He, elem_of_cons. naive_solver. Qed.

Lemma Dag_add_edges_Ok {T} lim (d d' : Dag T) es :
  Dag_add_edges lim d es = Ok d' ->
  dag_nodes d' = dag_nodes d /\ (forall u v, edge (dag_edges d') u v <-> edge_or d es u v) /\
  (Dag_wf d -> Dag_wf d').
Proof.
  unfold Dag_add_edges. revert d. induction es as [|[a b] es IH]; intros d; cbn [foldM fst snd].
  - intros [= <-]. split_and!; try done. intros u v. unfold edge_or. set_solver.
  - intros (d1 & H1 & H2)%bind_Ok. apply IH in H2 as (Hn & He & Hwf).
    pose proof H1 as (_ & _ & _ & _ & Hd1)%Dag_add_edge_Ok.
    assert (He1 : forall x y, edge (dag_edges d1) x y <->
      edge (dag_edges d) x y \/ (x = a /\ y = b)) by (subst; intros; apply edge_insert).
    split_and!; [by rewrite Hn, Hd1| |intros ?; by eapply Hwf, Dag_add_edge_wf].
    intros u v. rewrite He. by apply edge_or_cons.
Qed.

(** Acceptance of a whole batch of new edges: the ends are declared, the
    union is acyclic and there is room for all of them. *)
Lemma Dag_add_edges_iff {T} lim (d : Dag T) es :
  Dag_wf d -> NoDup es -> (forall u v, (u, v) ∈ es -> ~ edge (dag_edges d) u v) ->
  (Dag_edge_count d <= max_edges lim)%N ->
  (exists d', Dag_add_edges lim d es = Ok d') <->
  (forall u v, (u, v) ∈ es -> u ∈ dom (dag_nodes d) /\ v ∈ dom (dag_nodes d)) /\
  (forall u, ~ tc (edge_or d es) u u) /\
  (Dag_edge_count d + len es <= max_edges lim)%N.
Proof.
  unfold Dag_add_edges. revert d. induction es as [|[a b] es IH]; intros d Hwf Hnd Hnew Hcap;
    cbn [foldM fst snd].
  - split; [|eauto]. intros _. split_and!; [set_solver| |unfold len; cbn; lia].
    intros u Hu. apply (proj2 Hwf u). eapply tc_mono; [|exact Hu]. unfold edge_or. set_solver.
  - apply NoDup_cons in Hnd as [Hni Hnd].
    assert (Hab : ~ edge (dag_edges d) a b) by (apply Hnew; set_solver).
    assert (Hstep : forall d1, Dag_add_edge d a b lim = Ok d1 ->
      dag_nodes d1 = dag_nodes d /\
      (forall x y, edge (dag_edges d1) x y <-> edge (dag_edges d) x y \/ (x = a /\ y = b)) /\
      ((exists d', foldM (fun d e => Dag_add_edge d e.1 e.2 lim) d1 es = Ok d') <->
       (forall u v, (u, v) ∈ es -> u ∈ dom (dag_nodes d) /\ v ∈ dom (dag_nodes d)) /\
       (forall u, ~ tc (edge_or d ((a, b) :: es)) u u) /\
       (Dag_edge_count d + 1 + len es <= max_edges lim)%N)).
    { intros d1 H1. pose proof H1 as (_ & _ & _ & _ & Hd1)%Dag_add_edge_Ok.
      assert (He1 : forall x y, edge (dag_edges d1) x y <->
        edge (dag_edges d) x y \/ (x = a /\ y = b)) by (subst d1; intros; apply edge_insert).
      split_and!; [by rewrite Hd1|done|]. rewrite IH.
      - rewrite (Dag_add_edge_count_new _ _ _ _ _ H1 Hab).
        replace (dag_nodes d1) with (dag_nodes d) by (by subst d1).
        split; (intros (? & Hac & ?); split_and!; try done; intros u Hu; apply (Hac u);
          eapply tc_mono; [|exact Hu]; intros x y; by apply edge_or_cons).
      - by eapply Dag_add_edge_wf.
      - done.
      - intros u v Huv [He|[-> ->]]%He1; [|done]. eapply Hnew; [|exact He]. set_solver.
      - by eapply Dag_add_edge_count. }
    split.
    + intros (d' & (d1 & H1 & H2)%bind_Ok).
      destruct (Hstep d1 H1) as (_ & _ & Hiff).
      destruct (proj1 Hiff (ex_intro _ d' H2)) as (Hends & Hac & Hc).
      pose proof H1 as (Ha & Hb & _)%Dag_add_edge_Ok. split_and!; [|done|].
      * intros u v [[= -> ->]|Huv]%elem_of_cons; [done|auto].
      * unfold len in *. cbn [length]. lia.
    + intros (Hends & Hac & Hc).
      assert (Hroom : (Dag_edge_count d + 1 + len es <= max_edges lim)%N)
        by (unfold len in *; cbn [length] in Hc; lia).
      destruct (proj2 (Dag_add_edge_iff d a b lim)) as (d1 & H1 & _).
      { destruct (Hends a b) as [Ha Hb]; [set_solver|]. split_and!; [done|done| |right; lia|].
        - intros <-. apply (Hac a). constructor. right. set_solver.
        - intros Hre. apply (Hac a). apply tc_rtc_r with b; [constructor; right; set_solver|].
          eapply (rtc_subrel _ (edge_or d ((a, b) :: es))); [|exact Hre].
          intros ? ? ?. by left. }
      destruct (proj2 (proj2 (proj2 (Hstep d1 H1)))) as [d' Hd'].
      { split_and!; [|done|done]. intros u v ?. apply Hends. set_solver. }
      exists d'. apply bind_Ok. eauto.
Qed.

(** The reachability test that guards [add_edge] decides
    reachability: [Dag::reachable(edges, s, t)] returns [true] exactly when
    [t] can be reached from [s] along zero or more edges.  In particular the
    loop terminates on every graph, cyclic or not. *)
Theorem dag_reachable_decides edges start target :
  Dag_reachable edges start target = true <-> rtc (edge edges) start target.
Proof. apply Dag_reachable_rtc. Qed.

(** [add_edge] inserts the edge exactly when both ends are declared
    and distinct, the edge limit leaves room (or the edge is already there)
    and the target does not already reach the source; the result then differs
    from the old graph by that edge only. *)
Theorem dag_add_edge_accepts_iff {T} (d : Dag T) from to lim :
  (exists d', Dag_add_edge d from to lim = Ok d' /\
     dag_nodes d' = dag_nodes d /\
     forall u v, edge (dag_edges d') u v <->
       edge (dag_edges d) u v \/ (u = from /\ v = to)) <->
  from ∈ dom (dag_nodes d) /\ to ∈ dom (dag_nodes d) /\ from <> to /\
  (edge (dag_edges d) from to \/ (Dag_edge_count d < max_edges lim)%N) /\
  ~ rtc (edge (dag_edges d)) to from.
Proof. apply Dag_add_edge_iff. Qed.

(** Every graph built from the empty one through [add_node] and
    [add_edge] stays closed, acyclic and within the limits, and
    [topological_order] succeeds on it: the cycle error is unreachable
    through the checked API. *)
Lemma dag_built_sound {T} lim (d : Dag T) :
  dag_built lim d ->
  Dag_wf d /\
  (Dag_node_count d <= max_nodes lim /\ Dag_edge_count d <= max_edges lim)%N /\
  exists l, Dag_topological_order d = Ok l /\ is_kahn_order d l.*1.
Proof.
  intros Hb. pose proof (dag_built_wf lim d Hb) as [Hcl Hac].
  split_and!; [by split|apply (dag_built_bounds lim d Hb)..|].
  destruct (topological_order_acyclic d Hcl Hac) as (l & ? & ? & _). eauto.
Qed.

(** On a graph whose edges join declared nodes, [topological_order]
    never panics.  It returns an order exactly when the graph is acyclic, and
    the cycle error otherwise; the order lists every node once, with its
    payload, and emits at every step the least key all of whose predecessors
    have been emitted (which determines it uniquely). *)
Theorem dag_topological_order_spec {T} (d : Dag T) :
  closed d ->
  (acyclic (dag_edges d) /\
   exists l, Dag_topological_order d = Ok l /\ is_kahn_order d l.*1 /\
     forall k p, (k, p) ∈ l -> dag_nodes d !! k = Some p) \/
  (~ acyclic (dag_edges d) /\
   Dag_topological_order d = Err (Validation "cycle detected during topological sort")).
Proof.
  intros Hcl. destruct (decide (set_Forall
    (fun u => ~ tc (edge (dag_edges d)) u u) (dom (dag_nodes d)))) as [Hac|Hcyc].
  - left. assert (Ha : acyclic (dag_edges d)).
    { intros u Hu. apply (Hac u); [by apply closed_tc with u|done]. }
    split; [done|]. by apply topological_order_acyclic.
  - right. assert (Hn : ~ acyclic (dag_edges d)).
    { intros Ha. apply Hcyc. intros u _. apply Ha. }
    split; [done|]. by apply topological_order_cyclic.
Qed.

Lemma dag_topological_order_spec_witness :
  let d := mkDag (T := unit) {["a" := (); "b" := ()]} {["a" := {["b"]}; "b" := {["a"]}]} in
  closed d /\ Dag_topological_order d = Err (Validation "cycle detected during topological sort").
Proof.
  intros d. assert (Hcl : closed d).
  { intros u v (s & Hs & Hv)%edge_lookup. unfold d in *. cbn [dag_nodes dag_edges] in *.
    apply lookup_insert_Some in Hs as [[<- <-]|[_ Hs]];
      [|apply lookup_singleton_Some in Hs as [<- <-]];
      apply elem_of_singleton in Hv as ->; by vm_compute. }
  split; [done|].
  destruct (dag_topological_order_spec d Hcl) as [[_ (l & Hl & _)]|[_ ?]]; [|done].
  by vm_compute in Hl.
Defined.

(** The order is unique. *)
Lemma least_ready_order_unique {T} (d : Dag T) l1 l2 :
  is_kahn_order d l1 -> is_kahn_order d l2 -> l1 = l2.
Proof.
  intros [Hp1 H1] [Hp2 H2].
  enough (forall n, take n l1 = take n l2) as Ht.
  { rewrite <- (firstn_all l1), <- (firstn_all l2), Hp1, <- Hp2 at 1.
    replace (length l1) with (length l2) by (by rewrite Hp1, Hp2). apply Ht. }
  induction n as [|n IH]; [done|].
  assert (Hlen : length l1 = length l2) by (by rewrite Hp1, Hp2).
  destruct (l1 !! n) as [k1|] eqn:E1.
  - destruct (lookup_lt_is_Some_2 l2 n) as [k2 E2].
    { rewrite <- Hlen. by eapply lookup_lt_Some. }
    rewrite (take_S_r _ _ _ E1), (take_S_r _ _ _ E2), IH. do 2 f_equal.
    pose proof (take_drop_middle l1 n k1 E1) as T1.
    pose proof (take_drop_middle l2 n k2 E2) as T2.
    destruct (H1 _ _ _ (eq_sym T1)) as [R1 M1]. destruct (H2 _ _ _ (eq_sym T2)) as [R2 M2].
    rewrite IH in *. apply (anti_symm ord_le); auto.
  - apply lookup_ge_None in E1. rewrite !take_ge by lia.
    rewrite <- (take_ge l1 n), <- (take_ge l2 n) by lia. done.
Qed.
