(* ===== verification/Version.v ===== *)
(** * Versions ([hub-core/src/version.rs])

    Validated [MAJOR.MINOR.PATCH[-prerelease]] labels ordered as strings. *)

From Stdlib Require Import Ascii.
From stdpp Require Import base gmap strings list.
From stdpp Require Import options.
From S2P Require Import Prelude Text Core.

Record Version := mkVersion { version_str : string }.

#[global] Instance Version_eq_dec : EqDecision Version.
Proof. solve_decision. Defined.
#[global] Program Instance Version_countable : Countable Version :=
  inj_countable' version_str mkVersion _.
Next Obligation. by intros []. Qed.

(** [impl Ord for Version]: plain lexicographic comparison of the text. *)
Definition Version_le (a b : Version) : Prop := String.le (version_str a) (version_str b).

#[global] Program Instance Version_ordered : Ordered Version := {| ord_le := Version_le |}.
Next Obligation. intros x y. unfold Version_le. apply _. Defined.
Next Obligation.
  split; [split|]; unfold Version_le.
  - intros x. reflexivity.
  - intros x y z ? ?. by etrans.
  - intros [x] [y] ? ?. cbn in *. f_equal. by apply (anti_symm String.le).
Qed.
Next Obligation. intros x y. unfold Version_le. apply (total String.le). Qed.

Definition Version_MAX_LEN : N := 64.

Definition dot : ascii := "."%char.
Definition dash : ascii := "-"%char.

Definition prerelease_byte (b : N) : bool :=
  is_ascii_alphanumeric b || (b =? 46)%N || (b =? 45)%N.

(** The loop body over the three components. *)
Definition check_version_component (n : string) : Result unit :=
  _ ← ensure (negb (bool_decide (n = "")) && forallb is_ascii_digit (bytes n))
        (Validation "version component {n:?} in {raw:?} must be numeric");
  ensure (negb ((1 <? slen n)%N && starts_with "0" n))
    (Validation "version component {n:?} in {raw:?} must not have leading zeros").

Definition Version_parse (raw : string) : Result Version :=
  _ ← ensure (negb (bool_decide (raw = "") || (Version_MAX_LEN <? slen raw)%N))
        (Validation "version must be 1..={} characters, got {}");
  let '(core, prerelease) :=
    match split_once_byte dash raw with
    | Some (c, p) => (c, Some p)
    | None => (raw, None)
    end in
  let numbers := split_byte dot core in
  _ ← ensure (bool_decide (length numbers = 3))
        (Validation "version {raw:?} must have exactly three numeric components");
  _ ← forM_ check_version_component numbers;
  _ ← match prerelease with
      | Some pre =>
          ensure (negb (bool_decide (pre = "")) && forallb prerelease_byte (bytes pre))
            (Validation "prerelease {pre:?} in {raw:?} contains invalid characters")
      | None => Ok tt
      end;
  Ok (mkVersion raw).

(** ** The grammar *)
Definition numeric_component (n : string) : Prop :=
  n <> "" /\ forallb is_ascii_digit (bytes n) = true /\
  (n = "0" \/ starts_with "0" n = false).

Definition prerelease_text (p : string) : Prop :=
  p <> "" /\ forallb prerelease_byte (bytes p) = true.

Definition join3 (a b c : string) : string :=
  String.append a (String dot (String.append b (String dot c))).

Definition version_text (raw : string) : Prop :=
  (slen raw <= Version_MAX_LEN)%N /\
  exists a b c, numeric_component a /\ numeric_component b /\ numeric_component c /\
    (raw = join3 a b c \/
     exists pre, prerelease_text pre /\ raw = String.append (join3 a b c) (String dash pre)).

Lemma check_version_component_Ok n :
  check_version_component n = Ok tt <-> numeric_component n.
Proof.
  unfold check_version_component, numeric_component. rewrite bind_Ok.
  assert (H01 : forall m, starts_with "0" m = true -> (1 <? slen m)%N = false -> m = "0").
  { intros [|x [|y m]]; cbn; [done| |].
    - intros H _. unfold starts_with in H. cbn in H. case_decide; [by subst|done].
    - intros _ Hl%N.ltb_ge. unfold slen in Hl. cbn in Hl. lia. }
  split.
  - intros (u & H1 & H2). ok_inv. bool_inv. split_and!; [done|done|].
    apply andb_false_iff in H2 as [Hl|Hs]; [|by right].
    destruct (starts_with "0" n) eqn:E; [left; auto|by right].
  - intros (Hne & Hd & Hz). exists tt. split.
    + apply ensure_Ok. rewrite (bool_decide_eq_false_2 _ Hne). done.
    + apply ensure_Ok. destruct Hz as [->| ->]; [done|]. by rewrite andb_false_r.
Qed.

Lemma numeric_no n a : numeric_component n -> is_ascii_digit (N_of_ascii a) = false ->
  contains_byte a n = false.
Proof. intros (_ & Hd & _) Ha. by eapply forallb_bytes_not_contains. Qed.

Lemma split_three core a b c :
  split_byte dot core = [a; b; c] <->
  core = join3 a b c /\ contains_byte dot a = false /\ contains_byte dot b = false /\
  contains_byte dot c = false.
Proof.
  split.
  - intros H. apply split_byte_cons in H as [Ha [[? _]|(q & -> & H)]]; [done|].
    symmetry in H. apply split_byte_cons in H as [Hb [[? _]|(q' & -> & H)]]; [done|].
    symmetry in H. apply split_byte_cons in H as [Hc [[_ ->]|(q'' & -> & H)]].
    + done.
    + destruct (split_byte_nonempty dot q'') as (? & ? & E). by rewrite E in H.
  - intros (-> & Ha & Hb & Hc). unfold join3.
    rewrite (split_byte_sep _ a) by done. rewrite (split_byte_sep _ b) by done. by rewrite (proj1 (split_byte_none _ _) Hc).
Qed.

(** [Version::parse] accepts exactly the texts of at most 64 bytes
    that read [MAJOR.MINOR.PATCH], optionally followed by [-prerelease]:
    three digit strings without leading zeros and a non-empty prerelease of
    ASCII letters, digits, dots and dashes.  An accepted version is the text
    itself. *)
Lemma version_parse_spec raw v :
  Version_parse raw = Ok v <-> version_text raw /\ v = mkVersion raw.
Proof.
  unfold Version_parse. rewrite bind_Ok. split.
  - intros (u & Hlen & Hrun). ok_inv. bool_inv.
    destruct (match split_once_byte dash raw with
              | Some (c, p) => (c, Some p) | None => (raw, None) end) as [core pre] eqn:E.
    ok_inv. bool_inv. split; [|done]. split; [done|].
    destruct (split_byte dot core) as [|a [|b [|c [|]]]] eqn:Es; try done.
    match goal with H : forM_ _ _ = Ok _ |- _ => apply forM_Ok in H; rename H into Hall end.
    rewrite !Forall_cons in Hall. destruct Hall as (Ha & Hb & Hc & _).
    apply check_version_component_Ok in Ha, Hb, Hc.
    apply split_three in Es as (-> & _). exists a, b, c. split_and!; try done.
    destruct (split_once_byte dash raw) as [[c' p]|] eqn:Eo; simplify_eq.
    + right. apply split_once_byte_Some in Eo as [-> _]. exists p. ok_inv. bool_inv.
      split; [|done]. split; done.
    + by left.
  - intros ((Hlen & a & b & c & Ha & Hb & Hc & Hraw) & ->). exists tt.
    assert (Hsplit : split_byte dot (join3 a b c) = [a; b; c]).
    { apply split_three. split_and!; [done|by eapply numeric_no..]. }
    assert (Hdash : contains_byte dash (join3 a b c) = false).
    { unfold join3. rewrite contains_byte_append. cbn.
      rewrite contains_byte_append. cbn. rewrite !(numeric_no _ dash) by done. done. }
    assert (Hall : forM_ check_version_component [a; b; c] = Ok tt).
    { apply forM_Ok. rewrite !Forall_cons, Forall_nil, !check_version_component_Ok. done. }
    assert (Hne : raw <> "").
    { destruct Ha as (Hna & _). unfold join3 in Hraw. destruct a; [done|].
      rewrite !append_cons in Hraw. destruct Hraw as [->|(? & _ & ->)]; done. }
    split.
    { apply ensure_Ok. rewrite (bool_decide_eq_false_2 _ Hne). cbn.
      apply negb_true_iff, N.ltb_ge, Hlen. }
    destruct Hraw as [->|(pre & [Hpne Hp] & ->)].
    + rewrite (proj2 (split_once_byte_None _ _) Hdash). rewrite Hsplit. cbn [length].
      cbn [bool_decide decide ensure mbind result_bind]. rewrite Hall. reflexivity.
    + rewrite (proj2 (split_once_byte_Some _ _ (join3 a b c) pre)) by done.
      rewrite Hsplit. cbn [length]. cbn [bool_decide decide ensure mbind result_bind].
      rewrite Hall. cbn [mbind result_bind].
      by rewrite (bool_decide_eq_false_2 _ Hpne), Hp.
Qed.
