(* ===== verification/Digest.v ===== *)
(** * Content digests ([hub-core/src/digest.rs])

    The domain-separated, length-framed hash, its streaming form and the
    hexadecimal codec.  The SHA-256 implementation (crate [sha2]) is a
    parameter. *)

From Stdlib Require Import Ascii.
From stdpp Require Import base gmap strings list.
From S2P Require Import Prelude Text Core.

(** The [sha2] crate: a hashing state fed with bytes.  The laws are its
    documented behaviour: only the concatenation of the updates matters, and
    a digest has 32 bytes. *)
Class Sha256Lib := {
  Sha256 : Type;
  sha_new : Sha256;
  sha_update : Sha256 -> list N -> Sha256;
  sha_finalize : Sha256 -> list N;
}.

Class Sha256Laws `{Sha256Lib} : Prop := {
  sha_update_app : forall st a b, sha_update (sha_update st a) b = sha_update st (a ++ b);
  sha_update_nil : forall st, sha_update st [] = st;
  sha_finalize_len : forall st, length (sha_finalize st) = 32;
  sha_finalize_byte : forall st, Forall (fun b => b < 256)%N (sha_finalize st);
}.

Definition DIGEST_LEN : nat := 32.

(** [b"scirust-hub-digest:v1\0"]. *)
Definition PREFIX : list N := bytes "scirust-hub-digest:v1" ++ [0%N].

Definition DOMAIN_ARTIFACT_BLOB : list N := bytes "scirust-hub:artifact-blob:v1".
Definition DOMAIN_COMPONENT_MANIFEST : list N := bytes "scirust-hub:component-manifest:v1".
Definition DOMAIN_RUN_PARAMS : list N := bytes "scirust-hub:run-params:v1".
Definition DOMAIN_CAPTURE : list N := bytes "scirust-hub:capture:v1".
Definition DOMAIN_TASK_WORKSPACE_REPOSITORY : list N :=
  bytes "scirust-hub:task-workspace-repository:v1".
Definition DOMAIN_TASK_WORKSPACE : list N := bytes "scirust-hub:task-workspace:v1".

(** A digest is the array [[u8; 32]]; [digest_wf] is what that type says. *)
Record ContentDigest := from_bytes { as_bytes : list N }.

#[global] Instance ContentDigest_eq_dec : EqDecision ContentDigest.
Proof. solve_decision. Defined.
#[global] Program Instance ContentDigest_countable : Countable ContentDigest :=
  inj_countable' as_bytes from_bytes _.
Next Obligation. by intros []. Qed.

Definition digest_wf (d : ContentDigest) : Prop :=
  length (as_bytes d) = DIGEST_LEN /\ Forall (fun b => b < 256)%N (as_bytes d).

(** [RawSha256([u8; 32])]: ordinary SHA-256, deliberately another type. *)
Record RawSha256 := raw_from_bytes { raw_as_bytes : list N }.

#[global] Instance RawSha256_eq_dec : EqDecision RawSha256.
Proof. solve_decision. Defined.

(** ** Hexadecimal *)
Definition HEX : list ascii := String.list_ascii_of_string "0123456789abcdef".

Definition hex_digit (n : N) : ascii := nth (N.to_nat n) HEX "0"%char.

Fixpoint hex_of_bytes (bs : list N) : string :=
  match bs with
  | [] => ""
  | b :: bs => String (hex_digit (N.shiftr b 4)) (String (hex_digit (N.land b 15)) (hex_of_bytes bs))
  end.

Definition ContentDigest_to_hex (d : ContentDigest) : string := hex_of_bytes (as_bytes d).

(** [hex_value]. *)
Definition hex_value (c : N) : option N :=
  if in_range 48 57 c then Some (c - 48)%N
  else if in_range 97 102 c then Some (c - 97 + 10)%N
  else if in_range 65 70 c then Some (c - 65 + 10)%N
  else None.

(** The loop over [bytes[2 i]], [bytes[2 i + 1]]. *)
Fixpoint bytes_of_hex (cs : list N) : option (list N) :=
  match cs with
  | hi :: lo :: cs =>
      h ← hex_value hi; l ← hex_value lo;
      (fun r => N.lor (N.shiftl h 4) l :: r) <$> bytes_of_hex cs
  | _ => Some []
  end.

Definition ContentDigest_from_hex (hex : string) : option ContentDigest :=
  if decide (slen hex = N.of_nat (DIGEST_LEN * 2))
  then from_bytes <$> bytes_of_hex (bytes hex)
  else None.

Definition RawSha256_to_hex (d : RawSha256) : string := hex_of_bytes (raw_as_bytes d).

Definition RawSha256_from_hex (hex : string) : option RawSha256 :=
  if decide (slen hex = N.of_nat (DIGEST_LEN * 2))
  then raw_from_bytes <$> bytes_of_hex (bytes hex)
  else None.

(** ** Hashing *)

(** [u64::to_le_bytes], on [n] bytes. *)
Fixpoint le_bytes (n : nat) (v : N) : list N :=
  match n with
  | O => []
  | S n => (v mod 256)%N :: le_bytes n (v / 256)%N
  end.

Section hashing.
Context `{Sha256Lib}.

Definition DigestState := Sha256.

Definition DigestState_new (domain : list N) : DigestState :=
  let st := sha_update sha_new PREFIX in
  let st := sha_update st (le_bytes 8 (len domain)) in
  sha_update st domain.

Definition DigestState_update (st : DigestState) (bs : list N) : DigestState := sha_update st bs.

Definition DigestState_finalize (st : DigestState) : ContentDigest := from_bytes (sha_finalize st).

Definition hash_bytes (domain data : list N) : ContentDigest :=
  DigestState_finalize (DigestState_update (DigestState_new domain) data).

(** One result of [Read::read] into the 64 KiB buffer. *)
Inductive ReadEvent :=
| ReadChunk (chunk : list N)
| ReadInterrupted
| ReadError.

(** The loop of [hash_reader] over the successive reads: an empty read ends
    the input, an interrupted one is retried, any other error is returned
    ([None]). *)
Fixpoint hash_reader_loop (st : DigestState) (reads : list ReadEvent) : option ContentDigest :=
  match reads with
  | [] => Some (DigestState_finalize st)
  | ReadChunk [] :: _ => Some (DigestState_finalize st)
  | ReadChunk c :: reads => hash_reader_loop (DigestState_update st c) reads
  | ReadInterrupted :: reads => hash_reader_loop st reads
  | ReadError :: _ => None
  end.

Definition hash_reader (domain : list N) (reads : list ReadEvent) : option ContentDigest :=
  hash_reader_loop (DigestState_new domain) reads.

(** Ordinary SHA-256, without the Hub's framing. *)
Definition raw_sha256_bytes (data : list N) : RawSha256 :=
  raw_from_bytes (sha_finalize (sha_update sha_new data)).

Fixpoint raw_sha256_reader_loop (st : Sha256) (reads : list ReadEvent) : option RawSha256 :=
  match reads with
  | [] => Some (raw_from_bytes (sha_finalize st))
  | ReadChunk [] :: _ => Some (raw_from_bytes (sha_finalize st))
  | ReadChunk c :: reads => raw_sha256_reader_loop (sha_update st c) reads
  | ReadInterrupted :: reads => raw_sha256_reader_loop st reads
  | ReadError :: _ => None
  end.

Definition raw_sha256_reader (reads : list ReadEvent) : option RawSha256 :=
  raw_sha256_reader_loop sha_new reads.
End hashing.

(** ** The codec *)
Lemma N_lt_16_cases (P : N -> Prop) :
  Forall P [0; 1; 2; 3; 4; 5; 6; 7; 8; 9; 10; 11; 12; 13; 14; 15]%N ->
  forall n, (n < 16)%N -> P n.
Proof.
  intros HP n Hn. rewrite Forall_forall in HP. apply HP.
  replace n with (N.of_nat (N.to_nat n)) by lia.
  assert (Hlt : N.to_nat n < 16) by lia. revert Hlt.
  generalize (N.to_nat n). intros m Hm.
  do 16 (destruct m as [|m]; [apply list_elem_of_In; cbn; tauto|]). lia.
Qed.

Lemma hex_digit_value n : (n < 16)%N -> hex_value (N_of_ascii (hex_digit n)) = Some n.
Proof. revert n. apply N_lt_16_cases. repeat constructor. Qed.

Lemma nibbles b : (b < 256)%N ->
  (N.shiftr b 4 < 16)%N /\ (N.land b 15 < 16)%N /\
  N.lor (N.shiftl (N.shiftr b 4) 4) (N.land b 15) = b.
Proof.
  intros Hb. split_and!.
  - rewrite N.shiftr_div_pow2. apply N.Div0.div_lt_upper_bound. done.
  - change 15%N with (N.ones 4). rewrite N.land_ones. by apply N.mod_lt.
  - rewrite <- N.ldiff_ones_r. change 15%N with (N.ones 4).
    apply N.lor_ldiff_and.
Qed.

Lemma bytes_of_hex_of_bytes bs :
  Forall (fun b => b < 256)%N bs -> bytes_of_hex (bytes (hex_of_bytes bs)) = Some bs.
Proof.
  induction 1 as [|b bs Hb _ IH]; [done|].
  destruct (nibbles b Hb) as (Hh & Hl & Heq).
  change (bytes (hex_of_bytes (b :: bs)))
    with (N_of_ascii (hex_digit (N.shiftr b 4)) :: N_of_ascii (hex_digit (N.land b 15))
            :: bytes (hex_of_bytes bs)).
  cbn [bytes_of_hex]. rewrite !hex_digit_value by done. cbn. rewrite IH. cbn. by rewrite Heq.
Qed.

Lemma length_hex_of_bytes bs : String.length (hex_of_bytes bs) = 2 * length bs.
Proof. induction bs as [|b bs IH]; cbn; [done|]. rewrite IH. lia. Qed.

(** ** Framing *)

(** The bytes a digest of [data] under [domain] is the SHA-256 of. *)
Definition frame (domain data : list N) : list N :=
  PREFIX ++ le_bytes 8 (len domain) ++ domain ++ data.

Lemma length_le_bytes n v : length (le_bytes n v) = n.
Proof. revert v; induction n as [|n IH]; intros v; cbn; [done|]. by rewrite IH. Qed.

Lemma le_bytes_inj n v w :
  (v < 256 ^ N.of_nat n)%N -> (w < 256 ^ N.of_nat n)%N ->
  le_bytes n v = le_bytes n w -> v = w.
Proof.
  revert v w; induction n as [|n IH]; intros v w Hv Hw Heq.
  - change (256 ^ N.of_nat 0)%N with 1%N in *. lia.
  - cbn in Heq. injection Heq as Hm Hd.
    rewrite Nat2N.inj_succ, N.pow_succ_r' in *.
    assert (v / 256 = w / 256)%N by (apply IH; [..|done]; by apply N.Div0.div_lt_upper_bound).
    rewrite (N.div_mod' v 256), (N.div_mod' w 256). congruence.
Qed.

Lemma frame_inj d1 x1 d2 x2 :
  (len d1 <= u64_max)%N -> (len d2 <= u64_max)%N ->
  frame d1 x1 = frame d2 x2 -> d1 = d2 /\ x1 = x2.
Proof.
  unfold frame. intros H1 H2 Heq. apply app_inv_head in Heq.
  apply app_inj_1 in Heq as [Hlen Heq]; [|by rewrite !length_le_bytes].
  apply le_bytes_inj in Hlen; [|unfold u64_max in *; lia..].
  apply app_inj_1 in Heq; [done|]. unfold len in Hlen. lia.
Qed.

Section laws.
Context `{Sha256Laws}.

Lemma hash_bytes_frame domain data :
  hash_bytes domain data = from_bytes (sha_finalize (sha_update sha_new (frame domain data))).
Proof.
  unfold hash_bytes, DigestState_finalize, DigestState_update, DigestState_new, frame.
  by rewrite !sha_update_app.
Qed.

(** The chunks the reads deliver before the end of the input. *)
Fixpoint delivered (reads : list ReadEvent) : option (list N) :=
  match reads with
  | [] | ReadChunk [] :: _ => Some []
  | ReadChunk c :: reads => app c <$> delivered reads
  | ReadInterrupted :: reads => delivered reads
  | ReadError :: _ => None
  end.

Lemma hash_reader_loop_delivered st reads :
  hash_reader_loop st reads =
    (fun data => DigestState_finalize (DigestState_update st data)) <$> delivered reads.
Proof.
  revert st; induction reads as [|[[|b c]| |] reads IH]; intros st; cbn; try done.
  - by rewrite sha_update_nil.
  - by rewrite sha_update_nil.
  - rewrite IH. destruct (delivered reads); cbn; [|done].
    unfold DigestState_update. by rewrite sha_update_app.
Qed.

Lemma raw_sha256_reader_delivered st reads :
  raw_sha256_reader_loop st reads =
    (fun data => raw_from_bytes (sha_finalize (sha_update st data))) <$> delivered reads.
Proof.
  revert st; induction reads as [|[[|b c]| |] reads IH]; intros st; cbn; try done.
  - by rewrite sha_update_nil.
  - by rewrite sha_update_nil.
  - rewrite IH. destruct (delivered reads); cbn; [|done]. by rewrite sha_update_app.
Qed.

(** Streaming and chunking do not change a digest: [hash_reader]
    fails exactly when a read fails, and otherwise returns [hash_bytes] of
    the delivered bytes, however the input was split into reads and
    wherever reads were interrupted; likewise [raw_sha256_reader] and
    [raw_sha256_bytes]. *)
Lemma hash_reader_spec domain reads :
  hash_reader domain reads = hash_bytes domain <$> delivered reads /\
  raw_sha256_reader reads = raw_sha256_bytes <$> delivered reads.
Proof.
  split; [apply hash_reader_loop_delivered|apply raw_sha256_reader_delivered].
Qed.

(** These two inputs collide.  (That some inputs do is no news: digests have
    32 bytes.) *)
Definition sha_collide (m1 m2 : list N) : Prop :=
  m1 <> m2 /\ sha_finalize (sha_update sha_new m1) = sha_finalize (sha_update sha_new m2).

Lemma hash_bytes_separated d1 x1 d2 x2 :
  (len d1 <= u64_max)%N -> (len d2 <= u64_max)%N ->
  hash_bytes d1 x1 = hash_bytes d2 x2 ->
  (d1 = d2 /\ x1 = x2) \/ sha_collide (frame d1 x1) (frame d2 x2).
Proof.
  intros H1 H2. rewrite !hash_bytes_frame. intros [= Heq].
  destruct (decide (frame d1 x1 = frame d2 x2)) as [Hf|Hf].
  - left. by apply frame_inj.
  - by right.
Qed.

(** Domain separation: the bytes hashed for two pairs of domain and
    data are the same only when both the domain and the data are, so two
    different pairs with equal Hub digests give two framed inputs on which
    SHA-256 itself collides. *)
Theorem hash_bytes_domain_separated d1 x1 d2 x2 :
  (len d1 <= u64_max)%N -> (len d2 <= u64_max)%N ->
  hash_bytes d1 x1 = hash_bytes d2 x2 ->
  (d1 = d2 /\ x1 = x2) \/ sha_collide (frame d1 x1) (frame d2 x2).
Proof. apply hash_bytes_separated. Qed.

Lemma hash_bytes_wf domain data : digest_wf (hash_bytes domain data).
Proof. split; [apply sha_finalize_len|apply sha_finalize_byte]. Qed.
End laws.

(** Hexadecimal round trip: the lowercase text of a digest has 64
    characters and parses back to the digest. *)
Lemma digest_hex_roundtrip d :
  digest_wf d ->
  slen (ContentDigest_to_hex d) = 64%N /\
  ContentDigest_from_hex (ContentDigest_to_hex d) = Some d.
Proof.
  intros [Hlen Hall].
  assert (Hs : slen (ContentDigest_to_hex d) = 64%N).
  { unfold slen, ContentDigest_to_hex. rewrite length_hex_of_bytes, Hlen. done. }
  split; [done|]. unfold ContentDigest_from_hex. rewrite decide_True by done.
  unfold ContentDigest_to_hex. rewrite bytes_of_hex_of_bytes by done. by destruct d.
Qed.

(** A toy hash with the interface of [Sha256Lib], for concrete runs: the
    first 32 bytes of the input, reduced modulo 256 and padded with zeros. *)
Definition toy_sha : Sha256Lib := {|
  Sha256 := list N;
  sha_new := [];
  sha_update st bs := st ++ bs;
  sha_finalize st := take 32 ((fun b => b mod 256)%N <$> st ++ replicate 32 0%N);
|}.

Lemma toy_sha_laws : @Sha256Laws toy_sha.
Proof.
  split; cbn.
  - intros st a b. by rewrite app_assoc.
  - intros st. apply app_nil_r.
  - intros st. rewrite length_take, length_fmap, length_app. cbn [length]. lia.
  - intros st. apply Forall_take, Forall_fmap, Forall_true. intros b. by apply N.mod_lt.
Qed.

Lemma hash_bytes_domain_separated_witness :
  let h := @hash_bytes toy_sha in
  h [7]%N [1]%N = h [7]%N [1]%N /\
  (([7]%N = [7]%N /\ [1]%N = [1]%N) \/
   @sha_collide toy_sha (@frame [7]%N [1]%N) (@frame [7]%N [1]%N)).
Proof.
  split; [done|].
  apply (@hash_bytes_domain_separated toy_sha toy_sha_laws); by vm_compute.
Defined.
