(* ===== verification/Machine.v ===== *)
(** * The machine the Hub runs on

    What the sources use of the standard library outside pure code: the file
    system ([std::fs], [std::path::Path::exists]), the clock
    ([hub-core/src/clock.rs]) and fresh UUIDs.  The files are a finite map
    from paths; everything the outside decides -- whether a system call fails
    and how much of a write it had done, how a file is cut into reads, the
    time, the UUIDs -- is a function of a tick that every observation
    advances, so that a theorem about all environments covers every pattern of
    faults. *)

From Stdlib Require Import Ascii.
From stdpp Require Import base gmap strings list.
From S2P Require Import Prelude Text Core Digest.

Inductive FileNode :=
| FRegular (content : list N)
| FSymlink (target : string)
| FDirectory.

#[global] Instance FileNode_eq_dec : EqDecision FileNode.
Proof. solve_decision. Defined.

Record Machine := mkMachine {
  mc_nodes : gmap string FileNode;
  mc_tick : N;
}.

(** What the outside decides.  [env_fault t = Some k]: the system call at
    [t] fails, after [k] bytes if it writes. *)
Class Environment := {
  env_fault : N -> option nat;
  env_reads : N -> list N -> list ReadEvent;
  env_uuid : N -> N;
  env_now : N -> UnixMillis;
}.

(** [Read]: the reads of a file deliver its bytes in order, or one of them
    fails. *)
Class EnvironmentLaws `{Environment} : Prop := {
  env_reads_law : forall t content,
    delivered (env_reads t content) = Some content \/ delivered (env_reads t content) = None;
}.

(** The [uuid] crate: the hyphenated text is made of hexadecimal digits and
    dashes; the code relies on it being a plain file name. *)
Class UuidLaws `{UuidLib} : Prop := {
  uuid_no_slash : forall n, contains_byte slash (uuid_hyphenated n) = false;
}.

(** UUIDs are written as their hyphenated text, which sorts as the UUIDs do,
    and are read back with [from_str]. *)
Class UuidText `{UuidLib} := { uuid_from_str : string -> option N }.

Class UuidTextLaws `{UuidText} : Prop := {
  uuid_text_order : forall a b, (a <= b)%N <-> String.le (uuid_hyphenated a) (uuid_hyphenated b);
  uuid_text_parse : forall a, uuid_from_str (uuid_hyphenated a) = Some a;
}.

(** [std::io::ErrorKind], as far as the sources look at it. *)
Inductive IoError := IoNotFound | IoOther.

Section machine.
Context `{Environment}.

Abbreviation io := (action Machine IoError).

Definition tick (m : Machine) : Machine := mkMachine (mc_nodes m) (mc_tick m + 1).
Definition set_nodes (m : Machine) (nodes : gmap string FileNode) : Machine :=
  mkMachine nodes (mc_tick m).

(** The clocks give the milliseconds since the epoch as a [u64]: the Hub's
    [SystemClock] cuts them with [as u64], [now_ms()] of the worker and of its
    client saturates. *)
Definition clock_ms (t : N) : UnixMillis := N.min (env_now t) u64_max.
Definition SystemClock_now_ms {E} : action Machine E UnixMillis := fun m =>
  (tick m, Ok (env_now (mc_tick m) mod 2 ^ 64)%N).
Definition now_ms {E} : action Machine E UnixMillis := fun m => (tick m, Ok (clock_ms (mc_tick m))).

(** [Uuid::new_v4()]. *)
Definition new_v4 {E} : action Machine E N := fun m => (tick m, Ok (env_uuid (mc_tick m))).

(** A system call: [faulty k] when the environment makes it fail, [call]
    otherwise. *)
Definition syscall {A} (faulty : nat -> Machine -> Machine) (call : io A) : io A := fun m =>
  match env_fault (mc_tick m) with
  | Some k => (faulty k (tick m), Err IoOther)
  | None => call (tick m)
  end.

(** The path reached from [p] through symbolic links; the kernel gives up
    after 40 of them. *)
Fixpoint follow (fuel : nat) (nodes : gmap string FileNode) (p : string) : option string :=
  match nodes !! p with
  | Some (FSymlink target) =>
      match fuel with O => None | S fuel => follow fuel nodes target end
  | _ => Some p
  end.

Definition followed (nodes : gmap string FileNode) (p : string) : option FileNode :=
  q ← follow 40 nodes p; nodes !! q.

(** [symlink_metadata(p)]: the node itself, links not followed. *)
Definition symlink_metadata (p : string) : io FileNode :=
  syscall (fun _ m => m) (fun m =>
    (m, ok_or (mc_nodes m !! p) IoNotFound)).

(** [path.exists()]: follows links, and answers [false] on any error. *)
Definition path_exists {E} (p : string) : action Machine E bool := fun m =>
  match env_fault (mc_tick m) with
  | Some _ => (tick m, Ok false)
  | None => (tick m, Ok (bool_decide (is_Some (followed (mc_nodes m) p))))
  end.

(** [path.parent()] of a path with a separator, and the directories on the
    way to a path, itself included. *)
Definition path_prefix (n : nat) (p : string) : string :=
  String.concat "/" (take n (split_byte slash p)).

Definition path_parent (p : string) : string :=
  path_prefix (length (split_byte slash p) - 1) p.

Definition path_ancestors (p : string) : list string :=
  List.filter (fun q => negb (bool_decide (q = ""%string)))
    ((fun n => path_prefix (S n) p) <$> seq 0 (length (split_byte slash p))).

Definition is_dir (nodes : gmap string FileNode) (p : string) : bool :=
  bool_decide (followed nodes p = Some FDirectory).

(** [create_dir_all(p)]: every missing directory on the way is made; a file
    in the way is an error, and the directories made before it stay. *)
Fixpoint make_dirs (nodes : gmap string FileNode) (ps : list string)
    : gmap string FileNode * result IoError unit :=
  match ps with
  | [] => (nodes, Ok tt)
  | p :: ps =>
      match nodes !! p with
      | None => make_dirs (<[p := FDirectory]> nodes) ps
      | Some _ => if is_dir nodes p then make_dirs nodes ps else (nodes, Err IoOther)
      end
  end.

Definition create_dir_all (p : string) : io unit :=
  syscall
    (fun k m => set_nodes m (make_dirs (mc_nodes m) (take k (path_ancestors p))).1)
    (fun m => let '(nodes, r) := make_dirs (mc_nodes m) (path_ancestors p) in
              (set_nodes m nodes, r)).

(** Opening [p] for writing: where the bytes go.  The directory must exist
    and the target must not be one. *)
Definition write_target (nodes : gmap string FileNode) (p : string) : result IoError string :=
  q ← ok_or (follow 40 nodes p) IoOther;
  _ ← ensure (is_dir nodes (path_parent q)) IoNotFound;
  _ ← ensure (negb (bool_decide (nodes !! q = Some FDirectory))) IoOther;
  Ok q.

Definition put_content (m : Machine) (p : string) (content : list N) : Machine * result IoError unit :=
  match write_target (mc_nodes m) p with
  | Ok q => (set_nodes m (<[q := FRegular content]> (mc_nodes m)), Ok tt)
  | Err e => (m, Err e)
  end.

(** [std::fs::write(p, bytes)]: create or truncate, then write; a failing call
    may have written a part. *)
Definition fs_write (p : string) (bs : list N) : io unit :=
  syscall (fun k m => if decide (k = 0) then m else (put_content m p (take (k - 1) bs)).1)
    (fun m => put_content m p bs).

(** [std::fs::rename(from, to)] onto a file or nothing: the node moves, links
    are not followed, and a failing call changes nothing. *)
Definition fs_rename (from to : string) : io unit :=
  syscall (fun _ m => m) (fun m =>
    match mc_nodes m !! from with
    | None => (m, Err IoNotFound)
    | Some node =>
        if negb (is_dir (mc_nodes m) (path_parent to)) then (m, Err IoNotFound)
        else if bool_decide (mc_nodes m !! to = Some FDirectory) then (m, Err IoOther)
        else (set_nodes m (<[to := node]> (delete from (mc_nodes m))), Ok tt)
    end).

(** [std::fs::remove_file(p)]. *)
Definition fs_remove_file (p : string) : io unit :=
  syscall (fun _ m => m) (fun m =>
    match mc_nodes m !! p with
    | None => (m, Err IoNotFound)
    | Some FDirectory => (m, Err IoOther)
    | Some _ => (set_nodes m (delete p (mc_nodes m)), Ok tt)
    end).

(** [std::fs::remove_dir_all(p)]: the tree below [p]; a failing call may have
    removed a part of it. *)
Definition in_tree (p q : string) : Prop := q = p \/ starts_with (String.append p "/") q = true.

#[global] Instance in_tree_dec p q : Decision (in_tree p q).
Proof. unfold in_tree. apply _. Defined.

Definition fs_remove_dir_all (p : string) : io unit :=
  syscall
    (fun k m => set_nodes m (foldr delete (mc_nodes m)
                  (take k (filter (in_tree p) (map_to_list (mc_nodes m)).*1))))
    (fun m => match mc_nodes m !! p with
              | None => (m, Err IoNotFound)
              | Some _ => (set_nodes m (filter (fun kv => ~ in_tree p kv.1) (mc_nodes m)), Ok tt)
              end).

(** The bytes of the regular file at [p], links followed. *)
Definition file_content (nodes : gmap string FileNode) (p : string) : result IoError (list N) :=
  match followed nodes p with
  | Some (FRegular content) => Ok content
  | Some _ => Err IoOther
  | None => Err IoNotFound
  end.

(** [std::fs::read(p)]. *)
Definition fs_read (p : string) : io (list N) :=
  syscall (fun _ m => m) (fun m => (m, file_content (mc_nodes m) p)).

(** [std::fs::copy(from, to)]. *)
Definition fs_copy (from to : string) : io unit :=
  syscall
    (fun k m => match file_content (mc_nodes m) from with
                | Ok bs => if decide (k = 0) then m else (put_content m to (take (k - 1) bs)).1
                | Err _ => m
                end)
    (fun m => match file_content (mc_nodes m) from with
              | Ok bs => put_content m to bs
              | Err e => (m, Err e)
              end).

(** [File::open(p)] and the reads of its bytes, as the environment cuts them;
    the kind of the opened node. *)
Definition file_open (p : string) : io FileNode :=
  syscall (fun _ m => m) (fun m => (m, ok_or (followed (mc_nodes m) p) IoNotFound)).

Definition file_reads (node : FileNode) : io (list ReadEvent) := fun m =>
  (tick m, match node with
           | FRegular content => Ok (env_reads (mc_tick m) content)
           | _ => Ok [ReadError]
           end).

(** [file.metadata()] of an opened file. *)
Definition file_metadata (node : FileNode) : io FileNode :=
  syscall (fun _ m => m) (fun m => (m, Ok node)).

(** [file.take(limit).read_to_end(&mut bytes)]: at most [limit] bytes, reads
    that were interrupted retried. *)
Fixpoint read_to_end (limit : N) (acc : list N) (reads : list ReadEvent) : option (list N) :=
  match reads with
  | [] | ReadChunk [] :: _ => Some acc
  | ReadChunk chunk :: reads =>
      let acc := acc ++ take (N.to_nat (limit - len acc)) chunk in
      if (limit <=? len acc)%N then Some acc else read_to_end limit acc reads
  | ReadInterrupted :: reads => read_to_end limit acc reads
  | ReadError :: _ => None
  end.

(** [OpenOptions::new().write(true).create_new(true).open(p)]. *)
Definition open_create_new (p : string) : io unit :=
  syscall (fun _ m => m) (fun m =>
    if bool_decide (is_Some (mc_nodes m !! p)) then (m, Err IoOther)
    else if negb (is_dir (mc_nodes m) (path_parent p)) then (m, Err IoNotFound)
    else (set_nodes m (<[p := FRegular []]> (mc_nodes m)), Ok tt)).

(** [file.write_all(bytes)] at the end of the file created at [p]. *)
Definition append_content (m : Machine) (p : string) (bs : list N) : Machine :=
  match mc_nodes m !! p with
  | Some (FRegular content) => set_nodes m (<[p := FRegular (content ++ bs)]> (mc_nodes m))
  | _ => m
  end.

Definition fs_write_all (p : string) (bs : list N) : io unit :=
  syscall (fun k m => append_content m p (take k bs)) (fun m => (append_content m p bs, Ok tt)).

(** [file.sync_all()]. *)
Definition fs_sync_all : io unit := syscall (fun _ m => m) (fun m => (m, Ok tt)).
End machine.

(** ** Facts about paths *)
Lemma strip_suffix_byte_append a x y :
  y <> ""%string -> strip_suffix_byte a (String.append x y) = String.append x <$> strip_suffix_byte a y.
Proof.
  intros Hy. induction x as [|b x IH].
  - cbn. change (String.append "" y) with y. by destruct (strip_suffix_byte a y).
  - rewrite append_cons. destruct (String.append x y) as [|c z] eqn:E; [by destruct x|].
    cbn [strip_suffix_byte]. cbn [strip_suffix_byte] in IH. rewrite IH.
    by destruct (strip_suffix_byte a y).
Qed.

Lemma concat_split_byte p : String.concat "/" (split_byte slash p) = p.
Proof.
  induction p as [|b p IH]; [done|]. cbn [split_byte].
  destruct (split_byte_nonempty slash p) as (w & ws & E). case_decide as Hb.
  - subst. rewrite E in *.
    change (String.append "" (String slash (String.concat "/" (w :: ws))) = String slash p).
    by rewrite IH.
  - rewrite E in *. destruct ws; cbn [String.concat] in *; [by rewrite IH|].
    by rewrite append_cons, IH.
Qed.

Lemma slen_concat_take n ws :
  (slen (String.concat "/" (take n ws)) <= slen (String.concat "/" ws))%N.
Proof.
  revert n; induction ws as [|w ws IH]; intros [|n]; cbn [take]; [done|done|apply N.le_0_l|].
  specialize (IH n). destruct ws as [|v ws].
  - rewrite take_nil. done.
  - destruct n as [|n]; cbn [take String.concat] in *; rewrite ?slen_append; [lia|].
    change (slen "/") with 1%N in *. lia.
Qed.

Lemma slen_concat_init ws :
  2 <= length ws ->
  (slen (String.concat "/" (take (length ws - 1) ws)) < slen (String.concat "/" ws))%N.
Proof.
  induction ws as [|w [|v ws] IH]; cbn [length]; [lia|lia|]. intros _.
  replace (S (S (length ws)) - 1) with (S (length ws)) by lia. cbn [take String.concat].
  destruct ws as [|u ws].
  - cbn [length take String.concat]. rewrite !slen_append. change (slen "/") with 1%N. lia.
  - cbn [length] in *.
    specialize (IH ltac:(lia)).
    replace (S (S (length ws)) - 1) with (S (length ws)) in IH by lia.
    change (String.concat "/" (v :: u :: ws))
      with (String.append v (String.append "/" (String.concat "/" (u :: ws)))) in IH.
    cbn [take] in *. rewrite !slen_append in *. lia.
Qed.

Lemma slen_path_prefix n p : (slen (path_prefix n p) <= slen p)%N.
Proof.
  unfold path_prefix. rewrite <- (concat_split_byte p) at 2. apply slen_concat_take.
Qed.

Lemma slen_path_parent p q :
  (slen (path_parent (String.append p (String slash q))) < slen (String.append p (String slash q)))%N.
Proof.
  unfold path_parent, path_prefix.
  rewrite <- (concat_split_byte (String.append p (String slash q))) at 3. apply slen_concat_init.
  induction p as [|b p IH].
  - change (String.append "" (String slash q)) with (String slash q). cbn [split_byte].
    rewrite decide_True by done. destruct (split_byte_nonempty slash q) as (w & ws & ->). cbn. lia.
  - rewrite append_cons. cbn [split_byte]. case_decide.
    + destruct (split_byte_nonempty slash (String.append p (String slash q))) as (w & ws & ->). cbn. lia.
    + destruct (split_byte slash (String.append p (String slash q))); cbn in *; lia.
Qed.

Lemma slen_path_ancestors p q : q ∈ path_ancestors p -> (slen q <= slen p)%N.
Proof.
  unfold path_ancestors. rewrite list_elem_of_In, List.filter_In, <- list_elem_of_In.
  intros [(n & -> & _)%list_elem_of_fmap _]. apply slen_path_prefix.
Qed.

(** ** What the calls change *)

(** Only paths in [T] may differ. *)
Definition changes (T : string -> Prop) (m m' : Machine) : Prop :=
  forall p, ~ T p -> mc_nodes m' !! p = mc_nodes m !! p.

#[global] Instance changes_preorder T : PreOrder (changes T).
Proof. split; [by intros m p _|]. intros a b c Hab Hbc p Hp. by rewrite Hbc, Hab. Qed.

Lemma make_dirs_lookup nodes ps p :
  (make_dirs nodes ps).1 !! p = nodes !! p \/
  (p ∈ ps /\ nodes !! p = None /\ (make_dirs nodes ps).1 !! p = Some FDirectory).
Proof.
  revert nodes; induction ps as [|q ps IH]; intros nodes; [by left|]. cbn [make_dirs].
  destruct (nodes !! q) eqn:E.
  - destruct (is_dir nodes q); [|by left]. destruct (IH nodes) as [->|(?&?&?)]; [by left|].
    right. split_and!; [by right|done|done].
  - destruct (IH (<[q := FDirectory]> nodes)) as [->|(Hin & Hn & ->)].
    + destruct (decide (p = q)) as [->|Hne].
      * right. split_and!; [by left|done|]. apply lookup_insert_eq.
      * left. by rewrite lookup_insert_ne.
    + apply lookup_insert_None in Hn as [Hn Hne]. right. split_and!; [by right|done|done].
Qed.

Lemma elem_of_take_sub {A} (l : list A) n x : x ∈ take n l -> x ∈ l.
Proof. intros Hx. rewrite <- (take_drop n l). apply elem_of_app. by left. Qed.

Lemma create_dir_all_lookup `{Environment} p q m :
  mc_nodes (create_dir_all p m).1 !! q = mc_nodes m !! q \/
  (q ∈ path_ancestors p /\ mc_nodes m !! q = None /\
   mc_nodes (create_dir_all p m).1 !! q = Some FDirectory).
Proof.
  unfold create_dir_all, syscall. destruct (env_fault _) as [k|]; cbn.
  - destruct (make_dirs_lookup (mc_nodes m) (take k (path_ancestors p)) q) as [->|(?&?&?)]; [by left|].
    right. split_and!; [by eapply elem_of_take_sub|done|done].
  - pose proof (make_dirs_lookup (mc_nodes m) (path_ancestors p) q) as Hl.
    destruct (make_dirs _ _) as [nodes r]. cbn in *. done.
Qed.

