(* ===== verification/Blobs.v ===== *)
(** * The content-addressed blob store
      ([FileSystemArtifactStore] of [hub-core/src/memory.rs])

    Blobs live at [<root>/blobs/<first two hex digits>/<hex>] and are
    published by writing a temporary file and renaming it.  The operations
    run on the machine of [Machine], where any system call may fail: the
    theorems hold for every pattern of faults. *)

From Stdlib Require Import Ascii.
From stdpp Require Import base gmap strings list.
From S2P Require Import Prelude Text Core Digest Machine.

Section blobs.
Context `{Environment, UuidLib, Sha256Lib}.
(** The directory the store was opened on. *)
Context (root : string).

Abbreviation hub A := (action Machine CoreError A).

(** [.map_err(|e| CoreError::Storage(..))?]. *)
Definition storage {A} (msg : string) (m : action Machine IoError A) : hub A :=
  rethrow (fun _ => Storage msg) m.

Definition FileSystemArtifactStore_open : hub unit :=
  storage "creating blob dir: {e}" (create_dir_all (path_join root "blobs")).

(** [&hex[..2]] of the 64 digits. *)
Definition FileSystemArtifactStore_blob_path (digest : ContentDigest) : string :=
  let hex := ContentDigest_to_hex digest in
  path_join (path_join (path_join root "blobs") (String.substring 0 2 hex)) hex.

(** [path.with_extension(format!("tmp-{}", Uuid::new_v4()))]: a file name of
    hexadecimal digits has no extension to replace. *)
Definition tmp_path (path : string) (fresh : N) : string :=
  String.append path (String.append ".tmp-" (uuid_hyphenated fresh)).

Definition FileSystemArtifactStore_put (bs : list N) (max_bytes : N) (domain : list N)
    : hub ContentDigest :=
  if (max_bytes <? len bs)%N then
    fresh ← new_v4;
    throw (ArtifactTooLarge (from_uuid fresh) (len bs) max_bytes)
  else
    let digest := hash_bytes domain bs in
    let path := FileSystemArtifactStore_blob_path digest in
    present ← path_exists path;
    if present : bool then mret digest
    else
      _ ← storage "creating shard dir: {e}" (create_dir_all (path_parent path));
      fresh ← new_v4;
      let tmp := tmp_path path fresh in
      _ ← storage "writing temp blob: {e}" (fs_write tmp bs);
      _ ← storage "publishing blob: {e}" (fs_rename tmp path);
      mret digest.

(** The copy loop of [put_file] over the reads of the source. *)
Fixpoint put_file_loop (max_bytes : N) (tmp : string) (state : DigestState) (size : N)
    (reads : list ReadEvent) : hub (DigestState * N) :=
  match reads with
  | [] | ReadChunk [] :: _ => mret (state, size)
  | ReadChunk chunk :: reads =>
      match checked_add_u64 size (len chunk) with
      | None => fresh ← new_v4; throw (ArtifactTooLarge (from_uuid fresh) u64_max max_bytes)
      | Some size =>
          if (max_bytes <? size)%N then
            fresh ← new_v4; throw (ArtifactTooLarge (from_uuid fresh) size max_bytes)
          else
            let state := DigestState_update state chunk in
            _ ← storage "writing staged blob: {e}" (fs_write_all tmp chunk);
            put_file_loop max_bytes tmp state size reads
      end
  | ReadInterrupted :: reads => put_file_loop max_bytes tmp state size reads
  | ReadError :: _ => throw (Storage "reading source artifact {source_path:?}: {e}")
  end.

(** The closure of [put_file] that fills the staged file. *)
Definition put_file_stage (source : FileNode) (max_bytes : N) (domain : list N) (tmp : string)
    : hub (ContentDigest * N) :=
  reads ← storage "reading source artifact {source_path:?}: {e}" (file_reads source);
  '(state, size) ← put_file_loop max_bytes tmp (DigestState_new domain) 0 reads;
  _ ← storage "syncing staged blob: {e}" fs_sync_all;
  mret (DigestState_finalize state, size).

(** The end of [put_file]: publication of the staged file. *)
Definition put_file_publish (tmp : string) (digest : ContentDigest) (size : N)
    : hub (ContentDigest * N) :=
  let destination := FileSystemArtifactStore_blob_path digest in
  present ← path_exists destination;
  if present : bool then
    _ ← ignore (fs_remove_file tmp);
    mret (digest, size)
  else
    _ ← storage "creating shard dir: {e}" (create_dir_all (path_parent destination));
    renamed ← attempt (fs_rename tmp destination);
    match renamed with
    | Ok _ => mret (digest, size)
    | Err _ =>
        _ ← ignore (fs_remove_file tmp);
        present ← path_exists destination;
        if present : bool then mret (digest, size)
        else throw (Storage "publishing streamed blob: {e}")
    end.

Definition FileSystemArtifactStore_put_file (source_path : string) (max_bytes : N)
    (domain : list N) : hub (ContentDigest * N) :=
  source_meta ← storage "stating source artifact {source_path:?}: {e}"
                  (symlink_metadata source_path);
  match source_meta with
  | FSymlink _ => throw (Storage "refusing symbolic-link artifact source {source_path:?}")
  | FDirectory => throw (Storage "artifact source {source_path:?} is not a regular file")
  | FRegular _ =>
      source ← storage "opening source artifact {source_path:?}: {e}" (file_open source_path);
      opened ← storage "stating opened artifact: {e}" (file_metadata source);
      match opened with
      | FRegular _ =>
          let incoming := path_join root "incoming" in
          _ ← storage "creating incoming blob dir: {e}" (create_dir_all incoming);
          fresh ← new_v4;
          let tmp := path_join incoming (String.append (uuid_hyphenated fresh) ".tmp") in
          _ ← storage "creating staged blob: {e}" (open_create_new tmp);
          staged ← attempt (put_file_stage source max_bytes domain tmp);
          match staged with
          | Err error => _ ← ignore (fs_remove_file tmp); throw error
          | Ok (digest, size) => put_file_publish tmp digest size
          end
      | _ => throw (Storage "opened artifact source {source_path:?} is not a regular file")
      end
  end.

Definition FileSystemArtifactStore_read (digest : ContentDigest) : hub (list N) :=
  let path := FileSystemArtifactStore_blob_path digest in
  present ← path_exists path;
  if present : bool then storage "reading blob: {e}" (fs_read path)
  else throw (BlobNotFound (ContentDigest_to_hex digest)).

Definition FileSystemArtifactStore_copy_to_path (digest : ContentDigest) (dest : string)
    : hub unit :=
  let src := FileSystemArtifactStore_blob_path digest in
  present ← path_exists src;
  if present : bool then storage "copying artifact to {:?}: {e}" (fs_copy src dest)
  else throw (BlobNotFound (ContentDigest_to_hex digest)).

Definition FileSystemArtifactStore_contains (digest : ContentDigest) : hub bool :=
  path_exists (FileSystemArtifactStore_blob_path digest).

(** The closure [map_read_error]. *)
Definition map_read_error (digest : ContentDigest) (e : IoError) : CoreError :=
  match e with
  | IoNotFound => BlobNotFound (ContentDigest_to_hex digest)
  | IoOther => Storage "reading bounded artifact: {error}"
  end.

Definition FileSystemArtifactStore_read_verified_bounded (content_digest : ContentDigest)
    (expected_size limit : N) : hub (list N) :=
  _ ← lift (ensure (expected_size <=? limit)%N (Storage "artifact exceeds bounded read limit"));
  let path := FileSystemArtifactStore_blob_path content_digest in
  metadata ← rethrow (map_read_error content_digest) (symlink_metadata path);
  match metadata with
  | FRegular _ =>
      file ← rethrow (map_read_error content_digest) (file_open path);
      opened ← storage "{e}" (file_metadata file);
      match opened with
      | FRegular _ =>
          read_limit ← lift (ok_or (checked_add_u64 expected_size 1)
                               (Storage "artifact read bound overflow"));
          reads ← storage "reading bounded artifact: {e}" (file_reads file);
          bs ← lift (ok_or (read_to_end read_limit [] reads)
                       (Storage "reading bounded artifact: {e}"));
          _ ← lift (ensure (len bs =? expected_size)%N (Storage "artifact byte count mismatch"));
          let artifact := hash_bytes DOMAIN_ARTIFACT_BLOB bs in
          let capture := hash_bytes DOMAIN_CAPTURE bs in
          _ ← lift (ensure (negb (negb (bool_decide (content_digest = artifact)) &&
                                  negb (bool_decide (content_digest = capture))))
                      (Storage "artifact content digest mismatch"));
          mret bs
      | _ => throw (Storage "artifact must remain a regular file")
      end
  | _ => throw (Storage "artifact must be a regular non-symlink file")
  end.

(** The three digests and the byte count of the scan in
    [verified_raw_sha256]. *)
Fixpoint verified_scan (raw : Sha256) (artifact capture : DigestState) (size : N)
    (reads : list ReadEvent) : Result (Sha256 * DigestState * DigestState * N) :=
  match reads with
  | [] | ReadChunk [] :: _ => Ok (raw, artifact, capture, size)
  | ReadChunk chunk :: reads =>
      size ← ok_or (checked_add_u64 size (len chunk))
               (Storage "portable digest byte count overflow");
      verified_scan (sha_update raw chunk) (DigestState_update artifact chunk)
        (DigestState_update capture chunk) size reads
  | ReadInterrupted :: reads => verified_scan raw artifact capture size reads
  | ReadError :: _ => Err (Storage "reading blob for portable digest: {e}")
  end.

Definition portable_stat_error (digest : ContentDigest) (e : IoError) : CoreError :=
  match e with
  | IoNotFound => BlobNotFound (ContentDigest_to_hex digest)
  | IoOther => Storage "stating blob for portable digest: {e}"
  end.

(** The mutex [portable_digest_scan] serialises scans; one call is one
    step here. *)
Definition FileSystemArtifactStore_verified_raw_sha256 (content_digest : ContentDigest)
    (expected_size : N) : hub RawSha256 :=
  let path := FileSystemArtifactStore_blob_path content_digest in
  metadata ← rethrow (portable_stat_error content_digest) (symlink_metadata path);
  match metadata with
  | FRegular _ =>
      file ← storage "opening blob for portable digest: {e}" (file_open path);
      reads ← storage "reading blob for portable digest: {e}" (file_reads file);
      '(raw, artifact, capture, size) ← lift (verified_scan sha_new
        (DigestState_new DOMAIN_ARTIFACT_BLOB) (DigestState_new DOMAIN_CAPTURE) 0 reads);
      _ ← lift (ensure (size =? expected_size)%N
                  (Storage "artifact byte count mismatch: metadata={expected_size}, stored={size}"));
      _ ← lift (ensure (negb (negb (bool_decide (content_digest = DigestState_finalize artifact)) &&
                              negb (bool_decide (content_digest = DigestState_finalize capture))))
                  (Storage "artifact content digest mismatch for stored blob {content_digest}"));
      mret (raw_from_bytes (sha_finalize raw))
  | _ => throw (Storage "portable digest source must be a regular non-symlink file")
  end.

(** ** The layout *)
Context `{!Sha256Laws, !EnvironmentLaws, !UuidLaws}.

Definition blobs_dir : string := path_join root "blobs".

Lemma path_join_rel (base p : string) :
  base <> ""%string -> ends_with_slash base = false -> is_absolute p = false ->
  path_join base p = String.append base (String slash p).
Proof.
  intros Hb He Hp. unfold path_join. by rewrite Hp, bool_decide_eq_false_2, He.
Qed.

(** [root.join(dir)] for a literal directory name. *)
Lemma path_join_root dir : is_absolute dir = false ->
  exists r, path_join root dir = String.append r dir /\
    forall dir', is_absolute dir' = false -> path_join root dir' = String.append r dir'.
Proof.
  intros Hd. unfold path_join. rewrite Hd. case_bool_decide as Hr.
  - exists ""%string. split; [done|]. intros dir' ->. done.
  - destruct (ends_with_slash root).
    + exists root. split; [done|]. intros dir' ->. done.
    + exists (String.append root (String slash "")). rewrite append_assoc. split; [done|].
      intros dir' ->. by rewrite append_assoc.
Qed.

Lemma blobs_dir_shape : blobs_dir <> ""%string /\ ends_with_slash blobs_dir = false.
Proof.
  unfold blobs_dir. destruct (path_join_root "blobs" eq_refl) as (r & -> & _). split.
  - by destruct r.
  - unfold ends_with_slash. by rewrite strip_suffix_byte_append.
Qed.

Lemma hex_digit_not_slash n : (n < 16)%N -> hex_digit n <> slash.
Proof. revert n. apply N_lt_16_cases. repeat constructor; by vm_compute. Qed.

Lemma ends_with_slash_cons_append x c y :
  ends_with_slash (String.append x (String c y)) = ends_with_slash (String c y).
Proof.
  unfold ends_with_slash. rewrite strip_suffix_byte_append by done.
  by destruct (strip_suffix_byte slash (String c y)).
Qed.

(** The path of a blob, written out. *)
Lemma blob_path_eq d : digest_wf d ->
  exists c1 c2 rest, ContentDigest_to_hex d = String c1 (String c2 rest) /\
    FileSystemArtifactStore_blob_path d
      = String.append blobs_dir (String slash (String c1 (String c2
          (String slash (ContentDigest_to_hex d))))).
Proof.
  intros [Hl Hb]. unfold FileSystemArtifactStore_blob_path, ContentDigest_to_hex.
  destruct (as_bytes d) as [|b bs]; [done|]. apply Forall_cons in Hb as [Hb _].
  destruct (nibbles b Hb) as (Hc1 & Hc2 & _).
  apply hex_digit_not_slash in Hc1, Hc2. destruct blobs_dir_shape as [Hne Hends].
  cbn [hex_of_bytes]. eexists _, _, _. split; [done|].
  change (String.substring 0 2 (String ?a (String ?b ?r))) with (String a (String b (String.substring 0 0 r))).
  match goal with |- context[String.substring 0 0 ?r] =>
    replace (String.substring 0 0 r) with ""%string by (by destruct r) end.
  fold blobs_dir. rewrite (path_join_rel blobs_dir) by (done || by apply not_absolute_cons).
  rewrite path_join_rel, append_assoc; [done|..|by apply not_absolute_cons].
  - by destruct blobs_dir.
  - rewrite ends_with_slash_cons_append. unfold ends_with_slash.
    cbn [strip_suffix_byte]. rewrite decide_False by congruence. done.
Qed.

Lemma slen_cons c x : slen (String c x) = (1 + slen x)%N.
Proof. unfold slen. cbn. lia. Qed.

Lemma slen_hex d : digest_wf d -> slen (ContentDigest_to_hex d) = 64%N.
Proof.
  intros [Hl _]. unfold slen, ContentDigest_to_hex. rewrite length_hex_of_bytes, Hl. done.
Qed.

Lemma slen_blob_path d : digest_wf d ->
  slen (FileSystemArtifactStore_blob_path d) = (slen blobs_dir + 68)%N.
Proof.
  intros Hd. pose proof (slen_hex d Hd). destruct (blob_path_eq d Hd) as (c1 & c2 & r & _ & ->).
  rewrite slen_append, !slen_cons. lia.
Qed.

Lemma append_inj_l (x y z : string) : String.append x y = String.append x z -> y = z.
Proof. induction x as [|c x IH]; [done|]. rewrite !append_cons. intros [= ?]. auto. Qed.

Lemma blob_path_inj d d' : digest_wf d -> digest_wf d' ->
  FileSystemArtifactStore_blob_path d = FileSystemArtifactStore_blob_path d' -> d = d'.
Proof.
  intros Hd Hd'. destruct (blob_path_eq d Hd) as (c1 & c2 & r & _ & ->).
  destruct (blob_path_eq d' Hd') as (c1' & c2' & r' & _ & ->).
  intros [= _ _ Hhex]%append_inj_l. unfold ContentDigest_to_hex in Hhex.
  pose proof (bytes_of_hex_of_bytes (as_bytes d) (proj2 Hd)) as E1.
  pose proof (bytes_of_hex_of_bytes (as_bytes d') (proj2 Hd')) as E2.
  rewrite Hhex, E2 in E1. destruct d, d'. cbn in *. congruence.
Qed.

(** ** The invariant *)
Definition under_blobs (p : string) : Prop :=
  exists q, p = String.append blobs_dir (String slash q).

(** The domains the Hub stores blobs under. *)
Definition blob_domain (domain : list N) : Prop :=
  domain = DOMAIN_ARTIFACT_BLOB \/ domain = DOMAIN_CAPTURE.

(** What is at the path of a blob is a regular file whose bytes have that
    digest, and there are no symbolic links below [blobs/]. *)
Record store_ok (nodes : gmap string FileNode) : Prop := {
  so_blob : forall d node, digest_wf d ->
    nodes !! FileSystemArtifactStore_blob_path d = Some node ->
    exists domain bs, blob_domain domain /\ node = FRegular bs /\ d = hash_bytes domain bs;
  so_links : forall p t, under_blobs p -> nodes !! p <> Some (FSymlink t);
}.

(** SHA-256 collides on two different blobs, framed for the store. *)
Definition blob_collision (a b : list N) : Prop :=
  exists da db, blob_domain da /\ blob_domain db /\ sha_collide (frame da a) (frame db b).

(** The store stays well-formed and no blob disappears. *)
Definition store_keeps (m m' : Machine) : Prop :=
  store_ok (mc_nodes m) ->
  store_ok (mc_nodes m') /\
  forall d, digest_wf d -> is_Some (mc_nodes m !! FileSystemArtifactStore_blob_path d) ->
    is_Some (mc_nodes m' !! FileSystemArtifactStore_blob_path d).

#[local] Instance store_keeps_preorder : PreOrder store_keeps.
Proof.
  split; [by intros m Hm|]. intros a b c Hab Hbc Ha. destruct (Hab Ha) as [Hb Hk].
  destruct (Hbc Hb) as [Hc Hk']. split; [done|]. auto.
Qed.

Definition not_blob (p : string) : Prop :=
  forall d, digest_wf d -> p <> FileSystemArtifactStore_blob_path d.

Lemma store_keeps_same m m' : mc_nodes m' = mc_nodes m -> store_keeps m m'.
Proof. intros Heq. unfold store_keeps. by rewrite Heq. Qed.

Lemma store_keeps_by_ok m m' :
  (store_ok (mc_nodes m) -> store_keeps m m') -> store_keeps m m'.
Proof. intros Hk Hok. by apply Hk. Qed.

(** A change away from the blobs that makes no link below [blobs/]. *)
Lemma store_keeps_changes T m m' :
  (forall p, T p -> not_blob p) ->
  (forall p t, under_blobs p -> mc_nodes m' !! p = Some (FSymlink t) -> mc_nodes m !! p = Some (FSymlink t)) ->
  changes T m m' -> store_keeps m m'.
Proof.
  intros HT Hl Hc Hok.
  assert (Hsame : forall d, digest_wf d ->
    mc_nodes m' !! FileSystemArtifactStore_blob_path d = mc_nodes m !! FileSystemArtifactStore_blob_path d).
  { intros d Hd. apply Hc. intros HTp. by apply (HT _ HTp d Hd). }
  split; [split|].
  - intros d node Hd. rewrite Hsame by done. by apply (so_blob _ Hok).
  - intros p t Hp Heq. eapply so_links; [exact Hok|exact Hp|]. by apply Hl.
  - intros d Hd. by rewrite Hsame.
Qed.

Lemma store_keeps_insert p node m m' :
  not_blob p -> (forall t, under_blobs p -> node <> FSymlink t) ->
  mc_nodes m' = <[p := node]> (mc_nodes m) -> store_keeps m m'.
Proof.
  intros Hp Hn Heq. apply (store_keeps_changes (fun q => q = p)).
  - by intros ? ->.
  - intros q t Hq. rewrite Heq, lookup_insert_Some. intros [[-> ->]|[_ ?]]; [|done].
    by destruct (Hn t).
  - intros q Hq. rewrite Heq, lookup_insert_ne; [done|congruence].
Qed.

Lemma store_keeps_delete p m m' :
  not_blob p -> mc_nodes m' = delete p (mc_nodes m) -> store_keeps m m'.
Proof.
  intros Hp Heq. apply (store_keeps_changes (fun q => q = p)).
  - by intros ? ->.
  - intros q t Hq. rewrite Heq, lookup_delete_Some. by intros [_ ?].
  - intros q Hq. rewrite Heq, lookup_delete_ne; [done|congruence].
Qed.

(** Publication: the bytes of the digest arrive at its path. *)
Lemma store_keeps_publish tmp domain bs m m' :
  let path := FileSystemArtifactStore_blob_path (hash_bytes domain bs) in
  blob_domain domain -> not_blob tmp ->
  mc_nodes m' = <[path := FRegular bs]> (delete tmp (mc_nodes m)) -> store_keeps m m'.
Proof.
  intros path Hdom Htmp Heq Hok. split; [split|].
  - intros d node Hd. rewrite Heq, lookup_insert_Some. intros [[Hp <-]|[_ Hl]].
    + apply blob_path_inj in Hp; [|apply hash_bytes_wf|done]. subst. by exists domain, bs.
    + apply lookup_delete_Some in Hl as [_ Hl]. by apply (so_blob _ Hok).
  - intros p t Hp. rewrite Heq, lookup_insert_Some. intros [[_ ?]|[_ Hl]]; [done|].
    apply lookup_delete_Some in Hl as [_ Hl]. by eapply so_links.
  - intros d Hd Hs. rewrite Heq. destruct (decide (path = FileSystemArtifactStore_blob_path d)) as [<-|Hne].
    + rewrite lookup_insert_eq. eauto.
    + rewrite lookup_insert_ne by done. rewrite lookup_delete_ne; [done|]. by apply Htmp.
Qed.

Lemma blob_path_under d : digest_wf d -> under_blobs (FileSystemArtifactStore_blob_path d).
Proof. intros (c1 & c2 & r & _ & ->)%blob_path_eq. eexists. done. Qed.

Lemma tmp_path_not_blob d n : digest_wf d -> not_blob (tmp_path (FileSystemArtifactStore_blob_path d) n).
Proof.
  intros Hd d' Hd' Heq%(f_equal slen). unfold tmp_path in Heq.
  rewrite !slen_append, !slen_blob_path in Heq by done. change (slen ".tmp-") with 5%N in Heq. lia.
Qed.

Lemma tmp_path_under d n : digest_wf d -> under_blobs (tmp_path (FileSystemArtifactStore_blob_path d) n).
Proof.
  intros Hd. unfold tmp_path. destruct (blob_path_under d Hd) as [q ->]. eexists.
  by rewrite append_assoc.
Qed.

Lemma incoming_not_blob p :
  is_absolute p = false -> not_blob (path_join (path_join root "incoming") p).
Proof.
  intros Ha d Hd.
  destruct (path_join_root "incoming" eq_refl) as (r & -> & Hr).
  destruct (blob_path_eq d Hd) as (c1 & c2 & rest & _ & ->). unfold blobs_dir.
  rewrite (Hr "blobs") by done.
  rewrite path_join_rel, !append_assoc; [by intros ?%append_inj_l|by destruct r|..|done].
  unfold ends_with_slash. by rewrite strip_suffix_byte_append.
Qed.

Lemma uuid_file_relative n ext : ext <> ""%string -> is_absolute ext = false ->
  is_absolute (String.append (uuid_hyphenated n) ext) = false.
Proof.
  intros _ He. pose proof (uuid_no_slash n) as Hn. destruct (uuid_hyphenated n) as [|c u]; [done|].
  rewrite append_cons. apply not_absolute_cons. cbn in Hn. intros ->.
  by rewrite bool_decide_eq_true_2 in Hn.
Qed.

(** ** The calls *)
Lemma follow_self fuel nodes p :
  (forall t, nodes !! p <> Some (FSymlink t)) -> follow fuel nodes p = Some p.
Proof. intros Hp. destruct fuel; cbn; case_match; try done; case_match; naive_solver. Qed.

Lemma followed_self nodes p :
  (forall t, nodes !! p <> Some (FSymlink t)) -> followed nodes p = nodes !! p.
Proof. intros Hp. unfold followed. by rewrite follow_self. Qed.

Tactic Notation "by_syscall" reference(f) :=
  let x := fresh "m" in intros x; unfold f, syscall; destruct (env_fault (mc_tick x)); cbn.

Lemma keeps_new_v4 {E} : steps store_keeps (new_v4 : action _ E _).
Proof. intros m. by apply store_keeps_same. Qed.

Lemma keeps_path_exists {E} p : steps store_keeps (path_exists p : action _ E _).
Proof. intros m. unfold path_exists. destruct (env_fault _); by apply store_keeps_same. Qed.

Lemma keeps_symlink_metadata p : steps store_keeps (symlink_metadata p).
Proof. by_syscall symlink_metadata; by apply store_keeps_same. Qed.

Lemma keeps_file_open p : steps store_keeps (file_open p).
Proof. by_syscall file_open; by apply store_keeps_same. Qed.

Lemma keeps_file_metadata n : steps store_keeps (file_metadata n).
Proof. by_syscall file_metadata; by apply store_keeps_same. Qed.

Lemma keeps_file_reads n : steps store_keeps (file_reads n).
Proof. intros m. by apply store_keeps_same. Qed.

Lemma keeps_fs_read p : steps store_keeps (fs_read p).
Proof. by_syscall fs_read; by apply store_keeps_same. Qed.

Lemma keeps_fs_sync_all : steps store_keeps fs_sync_all.
Proof. by_syscall fs_sync_all; by apply store_keeps_same. Qed.

Lemma keeps_create_dir_all p :
  (forall q, q ∈ path_ancestors p -> not_blob q) -> steps store_keeps (create_dir_all p).
Proof.
  intros Hp m. apply (store_keeps_changes (fun q => q ∈ path_ancestors p)); [done|..].
  - intros q t _. destruct (create_dir_all_lookup p q m) as [->|(_ & _ & ->)]; done.
  - intros q Hq. by destruct (create_dir_all_lookup p q m) as [->|(? & _)].
Qed.

Lemma keeps_fs_remove_file p : not_blob p -> steps store_keeps (fs_remove_file p).
Proof.
  intros Hp. by_syscall fs_remove_file; [by apply store_keeps_same|].
  destruct (mc_nodes m !! p) as [[]|]; cbn;
    first [by apply store_keeps_same|by eapply (store_keeps_delete p)].
Qed.

Lemma keeps_append_content m p bs : not_blob p -> store_keeps m (append_content m p bs).
Proof.
  intros Hp. unfold append_content. case_match; [case_match|]; try by apply store_keeps_same.
  eapply (store_keeps_insert p); [done| |reflexivity]; done.
Qed.

Lemma keeps_fs_write_all p bs : not_blob p -> steps store_keeps (fs_write_all p bs).
Proof.
  intros Hp. by_syscall fs_write_all;
    (etrans; [by apply (store_keeps_same _ (tick m))|by apply keeps_append_content]).
Qed.

Lemma keeps_open_create_new p : not_blob p -> steps store_keeps (open_create_new p).
Proof.
  intros Hp. by_syscall open_create_new; [by apply store_keeps_same|].
  repeat case_match; cbn; first [by apply store_keeps_same|eapply (store_keeps_insert p); [done| |reflexivity]; done].
Qed.

Lemma put_content_cases m p bs :
  store_ok (mc_nodes m) -> under_blobs p ->
  (exists e, put_content m p bs = (m, Err e)) \/
  put_content m p bs = (set_nodes m (<[p := FRegular bs]> (mc_nodes m)), Ok tt).
Proof.
  intros Hok Hu. unfold put_content, write_target.
  rewrite follow_self by (intros t; by apply (so_links _ Hok)). cbn.
  destruct (is_dir _ _); cbn; [|left; eauto].
  destruct (negb _); cbn; [by right|left; eauto].
Qed.

Lemma keeps_put_content m p bs :
  not_blob p -> under_blobs p -> store_keeps m (put_content m p bs).1.
Proof.
  intros Hp Hu. apply store_keeps_by_ok. intros Hok. destruct (put_content_cases m p bs Hok Hu) as [[e ->]| ->]; [by apply store_keeps_same|].
  eapply (store_keeps_insert p); [done| |reflexivity]; done.
Qed.

Lemma keeps_fs_write p bs : not_blob p -> under_blobs p -> steps store_keeps (fs_write p bs).
Proof.
  intros Hp Hu. by_syscall fs_write.
  - case_decide; [by apply store_keeps_same|].
    etrans; [by apply (store_keeps_same _ (tick m))|by apply keeps_put_content].
  - etrans; [by apply (store_keeps_same _ (tick m))|by apply keeps_put_content].
Qed.

#[local] Hint Resolve keeps_new_v4 keeps_path_exists keeps_symlink_metadata keeps_file_open
  keeps_file_metadata keeps_file_reads keeps_fs_read keeps_fs_sync_all keeps_fs_remove_file
  keeps_fs_write_all keeps_open_create_new keeps_fs_write store_keeps_preorder
  hash_bytes_wf tmp_path_not_blob tmp_path_under : steps.

(** ** Publication *)
Lemma present_content nodes domain bs :
  let path := FileSystemArtifactStore_blob_path (hash_bytes domain bs) in
  store_ok nodes -> blob_domain domain -> is_Some (nodes !! path) ->
  exists bs', nodes !! path = Some (FRegular bs') /\ (bs' = bs \/ blob_collision bs bs').
Proof.
  intros path Hok Hdom [node Hn].
  destruct (so_blob _ Hok _ _ (hash_bytes_wf domain bs) Hn) as (domain' & bs' & Hdom' & -> & Heq).
  exists bs'. split; [done|].
  assert (Hsmall : forall dd, blob_domain dd -> (len dd <= u64_max)%N)
    by (intros dd [->| ->]; by vm_compute).
  destruct (hash_bytes_separated _ _ _ _ (Hsmall _ Hdom) (Hsmall _ Hdom') Heq) as [[_ ->]|Hc];
    [by left|right; by exists domain, domain'].
Qed.

Lemma path_exists_true {E} p m m' :
  path_exists p m = (m', Ok true : result E bool) ->
  mc_nodes m' = mc_nodes m /\ is_Some (followed (mc_nodes m) p).
Proof.
  unfold path_exists. destruct (env_fault _); intros [=]; subst. bool_inv. done.
Qed.

Lemma path_exists_blob {E} d m m' :
  store_ok (mc_nodes m) -> digest_wf d ->
  path_exists (FileSystemArtifactStore_blob_path d) m = (m', Ok true : result E bool) ->
  is_Some (mc_nodes m' !! FileSystemArtifactStore_blob_path d).
Proof.
  intros Hok Hd [-> Hf]%path_exists_true. rewrite followed_self in Hf; [done|].
  intros t. apply (so_links _ Hok). by apply blob_path_under.
Qed.

Lemma fs_write_Ok p bs m m' :
  store_ok (mc_nodes m) -> under_blobs p -> fs_write p bs m = (m', Ok tt) ->
  mc_nodes m' = <[p := FRegular bs]> (mc_nodes m).
Proof.
  intros Hok Hu. unfold fs_write, syscall. destruct (env_fault _); [done|].
  destruct (put_content_cases (tick m) p bs Hok Hu) as [[e ->]| ->]; [done|]. by intros [= <-].
Qed.

Lemma fs_rename_cases from to m :
  (exists m' e, fs_rename from to m = (m', Err e) /\ mc_nodes m' = mc_nodes m) \/
  (exists m' node, fs_rename from to m = (m', Ok tt) /\ mc_nodes m !! from = Some node /\
     mc_nodes m' = <[to := node]> (delete from (mc_nodes m))).
Proof.
  unfold fs_rename, syscall. destruct (env_fault _); [left; eauto|]. cbn.
  destruct (mc_nodes m !! from) as [node|] eqn:E; [|left; eauto].
  destruct (negb _); [left; eauto|]. case_bool_decide; [left; eauto|]. right. eauto.
Qed.

(** Renaming a file that holds the bytes of the digest onto the blob's
    path. *)
Lemma rename_publishes tmp domain bs m :
  let path := FileSystemArtifactStore_blob_path (hash_bytes domain bs) in
  blob_domain domain -> not_blob tmp -> mc_nodes m !! tmp = Some (FRegular bs) ->
  store_keeps m (fs_rename tmp path m).1 /\
  forall m', fs_rename tmp path m = (m', Ok tt) -> is_Some (mc_nodes m' !! path).
Proof.
  intros path Hdom Htmp Hn.
  destruct (fs_rename_cases tmp path m) as [(m' & e & -> & Heq)|(m' & node & -> & Hn' & Heq)].
  - split; [by apply store_keeps_same|done].
  - rewrite Hn in Hn'. injection Hn' as <-. split.
    + cbn. by eapply store_keeps_publish.
    + intros ? [= <-]. rewrite Heq, lookup_insert_eq. eauto.
Qed.

Lemma ancestors_not_blob d : digest_wf d ->
  forall q, q ∈ path_ancestors (path_parent (FileSystemArtifactStore_blob_path d)) -> not_blob q.
Proof.
  intros Hd q Hq%slen_path_ancestors d' Hd' ->. rewrite slen_blob_path in Hq by done.
  destruct (blob_path_under d Hd) as [r Hr].
  pose proof (slen_path_parent blobs_dir r) as Hlt. rewrite <- Hr, slen_blob_path in Hlt by done. lia.
Qed.

Lemma incoming_ancestors_not_blob q : q ∈ path_ancestors (path_join root "incoming") -> not_blob q.
Proof.
  intros Hq%slen_path_ancestors d Hd ->. rewrite slen_blob_path in Hq by done. revert Hq.
  unfold blobs_dir. destruct (path_join_root "incoming" eq_refl) as (r & -> & Hr).
  rewrite (Hr "blobs") by done. rewrite !slen_append.
  change (slen "incoming") with 8%N. change (slen "blobs") with 5%N. lia.
Qed.

Lemma blobs_ancestors_not_blob q : q ∈ path_ancestors (path_join root "blobs") -> not_blob q.
Proof.
  intros Hq%slen_path_ancestors d Hd ->. rewrite slen_blob_path in Hq by done.
  unfold blobs_dir in Hq. lia.
Qed.

Lemma put_keeps bs max_bytes domain :
  blob_domain domain -> steps store_keeps (FileSystemArtifactStore_put bs max_bytes domain).
Proof.
  intros Hdom. unfold FileSystemArtifactStore_put. pose proof (hash_bytes_wf domain bs) as Hwf.
  set (d := hash_bytes domain bs) in *.
  destruct (max_bytes <? len bs)%N; [eauto with steps|].
  apply steps_bind; [eauto with steps..|]. intros [|]; [eauto with steps|].
  apply steps_bind; [apply _|apply steps_rethrow, keeps_create_dir_all; by apply ancestors_not_blob|].
  intros _. apply steps_bind; [eauto with steps..|]. intros n.
  apply steps_bind_post; [apply _|unfold storage; eauto with steps|].
  intros m m1 [] Hw%rethrow_Ok Hk. apply store_keeps_by_ok. intros Hok.
  etrans; [exact Hk|]. apply fs_write_Ok in Hw; [|done|by apply tmp_path_under].
  assert (Hn : mc_nodes m1 !! tmp_path (FileSystemArtifactStore_blob_path d) n = Some (FRegular bs))
    by (rewrite Hw; apply lookup_insert_eq).
  unfold mbind, action_bind, storage, rethrow.
  destruct (rename_publishes _ domain bs m1 Hdom (tmp_path_not_blob d n Hwf) Hn) as [Hr _].
  fold d in Hr. by destruct (fs_rename _ _ m1) as [m2 [[]|e]].
Qed.

Lemma keeps_file_put_ok {E A B} (m : action Machine E A) (f : A -> action Machine E B) s s' b :
  steps store_keeps m -> store_ok (mc_nodes s) -> (m ≫= f) s = (s', Ok b) ->
  exists s1 a, m s = (s1, Ok a) /\ store_ok (mc_nodes s1) /\ f a s1 = (s', Ok b).
Proof.
  intros Hm Hok (s1 & a & Hs & Hf)%action_bind_Ok. exists s1, a. split_and!; [done| |done].
  specialize (Hm s). rewrite Hs in Hm. by destruct (Hm Hok).
Qed.

Lemma put_Ok bs max_bytes domain m m' d :
  store_ok (mc_nodes m) -> blob_domain domain ->
  FileSystemArtifactStore_put bs max_bytes domain m = (m', Ok d) ->
  d = hash_bytes domain bs /\ (len bs <= max_bytes)%N /\
  is_Some (mc_nodes m' !! FileSystemArtifactStore_blob_path d).
Proof.
  intros Hok Hdom. unfold FileSystemArtifactStore_put.
  pose proof (hash_bytes_wf domain bs) as Hwf. set (d0 := hash_bytes domain bs) in *.
  destruct (N.ltb_spec max_bytes (len bs)) as [?|Hle].
  { intros Hr. act_inv. }
  intros (m1 & [|] & He & Hok1 & Hr)%keeps_file_put_ok; [..|eauto with steps|done].
  { act_inv. split_and!; [done|done|]. by apply (path_exists_blob _ m _ Hok Hwf He). }
  apply keeps_file_put_ok in Hr as (m2 & [] & _ & Hok2 & Hr);
    [|apply steps_rethrow, keeps_create_dir_all; by apply ancestors_not_blob|done].
  apply keeps_file_put_ok in Hr as (m3 & n & _ & Hok3 & Hr); [|eauto with steps|done].
  apply keeps_file_put_ok in Hr as (m4 & [] & Hw & Hok4 & Hr); [|unfold storage; eauto with steps|done].
  apply rethrow_Ok, fs_write_Ok in Hw; [|done|by apply tmp_path_under].
  unfold storage in Hr. act_inv. split_and!; [done|done|].
  destruct (rename_publishes (tmp_path (FileSystemArtifactStore_blob_path d0) n) domain bs m4 Hdom)
    as [_ Hp]; [by apply tmp_path_not_blob|rewrite Hw; apply lookup_insert_eq|].
  by eapply Hp.
Qed.

(** ** Streaming *)
Lemma append_content_at m p acc bs :
  mc_nodes m !! p = Some (FRegular acc) ->
  mc_nodes (append_content m p bs) !! p = Some (FRegular (acc ++ bs)).
Proof. intros Hp. unfold append_content. rewrite Hp. cbn. apply lookup_insert_eq. Qed.

Lemma put_file_loop_Ok max_bytes tmp st size reads acc m m' st' size' :
  mc_nodes m !! tmp = Some (FRegular acc) -> (size <= max_bytes)%N ->
  put_file_loop max_bytes tmp st size reads m = (m', Ok (st', size')) ->
  exists data, delivered reads = Some data /\ st' = DigestState_update st data /\
    size' = (size + len data)%N /\ (size' <= max_bytes)%N /\
    mc_nodes m' !! tmp = Some (FRegular (acc ++ data)).
Proof.
  revert st size acc m; induction reads as [|[[|b c]| |] reads IH]; intros st size acc m Hm Hs Hr;
    cbn [put_file_loop delivered] in *.
  - act_inv. simplify_eq. exists []. unfold DigestState_update.
    rewrite sha_update_nil, app_nil_r. split_and!; try done; unfold len; cbn; lia.
  - act_inv. simplify_eq. exists []. unfold DigestState_update.
    rewrite sha_update_nil, app_nil_r. split_and!; try done; unfold len; cbn; lia.
  - destruct (checked_add_u64 _ _) as [size1|] eqn:Ec; [|act_inv].
    apply checked_add_u64_Some in Ec as [-> _].
    destruct (N.ltb_spec max_bytes (size + len (b :: c))) as [?|Hle]; [act_inv|].
    unfold storage in Hr. act_inv.
    assert (Hm1 : mc_nodes s !! tmp = Some (FRegular (acc ++ b :: c))).
    { revert Hr0. unfold fs_write_all, syscall. destruct (env_fault _); [done|]. intros [= <-].
      by apply append_content_at. }
    destruct (IH _ _ _ _ Hm1 Hle Hr) as (data & -> & -> & -> & Hmax & Hn).
    exists ((b :: c) ++ data). unfold DigestState_update. rewrite sha_update_app.
    split_and!; [done|done| |done|].
    + unfold len. rewrite length_app. lia.
    + by rewrite <- app_assoc in Hn.
  - by apply (IH st size acc m).
  - done.
Qed.

Lemma put_file_loop_keeps max_bytes tmp st size reads :
  not_blob tmp -> steps store_keeps (put_file_loop max_bytes tmp st size reads).
Proof.
  intros Htmp. revert st size; induction reads as [|[[|b c]| |] reads IH]; intros st size;
    cbn [put_file_loop]; [eauto with steps..| |eauto with steps|eauto with steps].
  destruct (checked_add_u64 _ _); [|eauto with steps].
  destruct (_ <? _)%N; [eauto with steps|]. unfold storage. eauto with steps.
Qed.

Lemma put_file_stage_keeps source max_bytes domain tmp :
  not_blob tmp -> steps store_keeps (put_file_stage source max_bytes domain tmp).
Proof.
  intros Htmp. unfold put_file_stage, storage. apply steps_bind; [apply _|eauto with steps|].
  intros reads. apply steps_bind; [apply _|by apply put_file_loop_keeps|].
  intros [st size]. eauto with steps.
Qed.

Lemma put_file_stage_Ok content max_bytes domain tmp m m' d size :
  mc_nodes m !! tmp = Some (FRegular []) ->
  put_file_stage (FRegular content) max_bytes domain tmp m = (m', Ok (d, size)) ->
  d = hash_bytes domain content /\ size = len content /\ (size <= max_bytes)%N /\
  mc_nodes m' !! tmp = Some (FRegular content).
Proof.
  intros Hm Hr. unfold put_file_stage, storage in Hr. act_inv.
  destruct r0 as [st sz]. act_inv. unfold file_reads in Hr0. injection Hr0 as <- <-.
  apply put_file_loop_Ok with (acc := []) in Hr1 as (data & Hd & -> & -> & Hmax & Hn); [|done|apply N.le_0_l].
  destruct (env_reads_law (mc_tick m) content) as [Hl|Hl]; rewrite Hl in Hd; [|done].
  injection Hd as <-. simplify_eq.
  assert (Hsame : mc_nodes s1 = mc_nodes s0)
    by (revert Hr2; unfold fs_sync_all, syscall; destruct (env_fault _); [done|by intros [= <-]]).
  rewrite Hsame. split_and!; try done.
Qed.

Lemma create_dir_all_at p q m node :
  mc_nodes m !! q = Some node -> mc_nodes (create_dir_all p m).1 !! q = Some node.
Proof. intros Hq. destruct (create_dir_all_lookup p q m) as [->|(_ & Hn & _)]; congruence. Qed.

Ltac keeps_chain :=
  repeat match goal with
  | |- store_keeps ?m ?m => reflexivity
  | K : store_keeps ?m ?m1 |- store_keeps ?m _ => etrans; [exact K|]; clear K
  end.

(** The end of [put_file], from a staged file that holds the bytes. *)
Lemma put_file_publish_spec tmp domain content size m :
  let d := hash_bytes domain content in
  blob_domain domain -> not_blob tmp -> mc_nodes m !! tmp = Some (FRegular content) ->
  store_keeps m (put_file_publish tmp d size m).1 /\
  (store_ok (mc_nodes m) -> forall m' d' size', put_file_publish tmp d size m = (m', Ok (d', size')) ->
     d' = d /\ size' = size /\ is_Some (mc_nodes m' !! FileSystemArtifactStore_blob_path d)).
Proof.
  intros d Hdom Htmp Hm. pose proof (hash_bytes_wf domain content) as Hwf. fold d in Hwf.
  unfold put_file_publish. set (path := FileSystemArtifactStore_blob_path d).
  unfold mbind, action_bind, storage, rethrow, attempt, ignore.
  destruct (path_exists path m) as [m1 [[|]|e]] eqn:E1;
    pose proof (keeps_path_exists (E:=CoreError) path m) as K1; rewrite E1 in K1; cbn [fst] in K1.
  - pose proof (keeps_fs_remove_file tmp Htmp m1) as K2.
    pose proof (path_exists_true _ _ _ E1) as [Hs _].
    destruct (fs_remove_file tmp m1) as [m2 r] eqn:E2; cbn in *. split; [by etrans|].
    intros Hok m' d' size' [= <- <- <-]. split_and!; [done..|].
    destruct (K1 Hok) as [Hok1 _]. destruct (K2 Hok1) as [_ Hkeep]. apply Hkeep; [done|].
    by apply (path_exists_blob d m _ Hok Hwf E1).
  - assert (Hs : mc_nodes m1 = mc_nodes m)
      by (revert E1; unfold path_exists; destruct (env_fault _); by intros [= <-]).
    pose proof (keeps_create_dir_all (path_parent path) (ancestors_not_blob d Hwf) m1) as K2.
    pose proof (create_dir_all_at (path_parent path) tmp m1 (FRegular content)) as Hat.
    rewrite Hs in Hat. specialize (Hat Hm).
    destruct (create_dir_all (path_parent path) m1) as [m2 [u|e]]; cbn in *; [|split; [by etrans|done]].
    destruct (rename_publishes tmp domain content m2 Hdom Htmp Hat) as [K3 Hp].
    fold d path in K3, Hp.
    destruct (fs_rename tmp path m2) as [m3 [[]|e]] eqn:E3; cbn in *.
    + split; [by keeps_chain|]. intros _ m' d' size' [= <- <- <-].
      split_and!; [done..|]. by apply Hp.
    + pose proof (keeps_fs_remove_file tmp Htmp m3) as K4.
      destruct (fs_remove_file tmp m3) as [m4 r4]; cbn in *.
      pose proof (keeps_path_exists (E:=CoreError) path m4) as K5.
      destruct (path_exists path m4) as [m5 [[|]|e5]] eqn:E5; cbn in *;
        (split; [by keeps_chain|]); try done.
      intros Hok m' d' size' [= <- <- <-]. split_and!; [done..|].
      assert (store_keeps m m4) as K by keeps_chain.
      by apply (path_exists_blob d m4 _ (proj1 (K Hok)) Hwf E5).
  - split; [done|]. intros _ ? ? ? [=].
Qed.

(** Calls that only look. *)
Lemma symlink_metadata_Ok p m m' node :
  symlink_metadata p m = (m', Ok node) ->
  mc_nodes m' = mc_nodes m /\ mc_nodes m !! p = Some node.
Proof.
  unfold symlink_metadata, syscall. destruct (env_fault _); [done|]. intros [= <- Hn%ok_or_Ok]. done.
Qed.

Lemma file_open_Ok p m m' node :
  file_open p m = (m', Ok node) -> mc_nodes m' = mc_nodes m /\ followed (mc_nodes m) p = Some node.
Proof.
  unfold file_open, syscall. destruct (env_fault _); [done|]. intros [= <- Hn%ok_or_Ok]. done.
Qed.

Lemma file_metadata_Ok n m m' node :
  file_metadata n m = (m', Ok node) -> mc_nodes m' = mc_nodes m /\ node = n.
Proof. unfold file_metadata, syscall. destruct (env_fault _); [done|]. by intros [= <- <-]. Qed.

Lemma open_create_new_Ok p m m' :
  open_create_new p m = (m', Ok tt) -> mc_nodes m' !! p = Some (FRegular []).
Proof.
  unfold open_create_new, syscall. destruct (env_fault _); [done|]. cbn.
  repeat case_match; intros [=]; subst. apply lookup_insert_eq.
Qed.

Lemma open_regular p content m m1 m2 node :
  symlink_metadata p m = (m1, Ok (FRegular content)) -> file_open p m1 = (m2, Ok node) ->
  node = FRegular content /\ mc_nodes m !! p = Some (FRegular content).
Proof.
  intros [Hs Hp]%symlink_metadata_Ok [_ Hf]%file_open_Ok. rewrite Hs in Hf.
  rewrite followed_self in Hf by (intros t; by rewrite Hp). rewrite Hp in Hf. by simplify_eq.
Qed.

(** The staged half of [put_file]: filling the file and publishing it. *)
Lemma stage_publish_spec content max_bytes domain tmp m :
  let act := staged ← attempt (put_file_stage (FRegular content) max_bytes domain tmp);
             match staged with
             | Err error => _ ← ignore (fs_remove_file tmp); throw error
             | Ok (digest, size) => put_file_publish tmp digest size
             end in
  blob_domain domain -> not_blob tmp -> mc_nodes m !! tmp = Some (FRegular []) ->
  store_keeps m (act m).1 /\
  (store_ok (mc_nodes m) -> forall m' d size, act m = (m', Ok (d, size)) ->
     d = hash_bytes domain content /\ size = len content /\ (size <= max_bytes)%N /\
     is_Some (mc_nodes m' !! FileSystemArtifactStore_blob_path d)).
Proof.
  intros act Hdom Htmp Hm. subst act. unfold mbind, action_bind, attempt.
  pose proof (put_file_stage_keeps (FRegular content) max_bytes domain tmp Htmp m) as K1.
  destruct (put_file_stage _ _ _ _ m) as [m1 [[d size]|e]] eqn:E1; cbn [fst] in K1.
  - apply put_file_stage_Ok in E1 as (-> & -> & Hmax & Hat); [|done].
    destruct (put_file_publish_spec tmp domain content (len content) m1 Hdom Htmp Hat) as [K2 Hp].
    split; [by etrans|]. intros Hok m' d' size' Heq.
    destruct (Hp (proj1 (K1 Hok)) _ _ _ Heq) as (-> & -> & ?). done.
  - unfold ignore, throw. cbn. split; [|done].
    etrans; [exact K1|]. by apply (keeps_fs_remove_file tmp Htmp m1).
Qed.

(** The store is kept, and a success established [P]. *)
Definition keeps_and {A} (m : Machine) (act : hub A) (P : Machine -> A -> Prop) : Prop :=
  store_keeps m (act m).1 /\
  (store_ok (mc_nodes m) -> forall m' a, act m = (m', Ok a) -> P m' a).

Lemma keeps_then {A B} m (act : hub A) (f : A -> hub B) P :
  steps store_keeps act ->
  (forall m1 a, act m = (m1, Ok a) -> keeps_and m1 (f a) P) -> keeps_and m (act ≫= f) P.
Proof.
  intros Ka Hf. specialize (Ka m). unfold keeps_and, mbind, action_bind.
  destruct (act m) as [m1 [a|e]]; cbn in *; [|done].
  destruct (Hf m1 a eq_refl) as [Kf HP]. split; [by etrans|]. intros Hok. by apply HP, Ka.
Qed.

Lemma keeps_then_throw {A} m (e : CoreError) P : keeps_and m (throw e : hub A) P.
Proof. split; [by apply store_keeps_same|done]. Qed.

(** What [put_file] does with a source path. *)
Lemma put_file_spec source max_bytes domain m :
  blob_domain domain ->
  keeps_and m (FileSystemArtifactStore_put_file source max_bytes domain) (fun m' '(d, size) =>
    exists content, mc_nodes m !! source = Some (FRegular content) /\
      d = hash_bytes domain content /\ size = len content /\ (size <= max_bytes)%N /\
      is_Some (mc_nodes m' !! FileSystemArtifactStore_blob_path d)).
Proof.
  intros Hdom. unfold FileSystemArtifactStore_put_file, storage.
  assert (Htmp : forall n, not_blob (path_join (path_join root "incoming")
                                       (String.append (uuid_hyphenated n) ".tmp")))
    by (intros n; by apply incoming_not_blob, uuid_file_relative).
  apply keeps_then; [apply steps_rethrow, keeps_symlink_metadata|].
  intros m1 [content|t|] Hmeta%rethrow_Ok; [|by apply keeps_then_throw..].
  apply keeps_then; [apply steps_rethrow, keeps_file_open|]. intros m2 node Hopen%rethrow_Ok.
  destruct (open_regular _ _ _ _ _ _ Hmeta Hopen) as [-> Hsrc].
  apply keeps_then; [apply steps_rethrow, keeps_file_metadata|].
  intros m3 node [_ ->]%rethrow_Ok%file_metadata_Ok.
  apply keeps_then; [apply steps_rethrow, keeps_create_dir_all, incoming_ancestors_not_blob|].
  intros m4 [] _. apply keeps_then; [apply keeps_new_v4|]. intros m5 n _.
  apply keeps_then; [by apply steps_rethrow, keeps_open_create_new|].
  intros m6 [] Hcreate%rethrow_Ok%open_create_new_Ok.
  destruct (stage_publish_spec content max_bytes domain _ m6 Hdom (Htmp n) Hcreate) as [K Hp].
  split; [exact K|]. intros Hok m' [d size] Heq. exists content.
  destruct (Hp Hok _ _ _ Heq) as (? & ? & ? & ?). done.
Qed.

(** ** Reading *)

(** Writing somewhere else leaves the store alone. *)
Lemma put_content_foreign m p bs :
  (forall q, follow 40 (mc_nodes m) p = Some q -> ~ under_blobs q) ->
  store_keeps m (put_content m p bs).1.
Proof.
  intros Hp. unfold put_content. destruct (write_target (mc_nodes m) p) as [q|e] eqn:E;
    [|by apply store_keeps_same].
  unfold write_target in E. ok_inv. bool_inv.
  eapply (store_keeps_insert q); [| |reflexivity]; [|done].
  intros d Hd ->. eapply Hp; [done|]. by apply blob_path_under.
Qed.

Lemma copy_to_path_keeps d dest m :
  (forall q, follow 40 (mc_nodes m) dest = Some q -> ~ under_blobs q) ->
  store_keeps m (FileSystemArtifactStore_copy_to_path d dest m).1.
Proof.
  intros Hd. unfold FileSystemArtifactStore_copy_to_path, mbind, action_bind, storage, rethrow, throw.
  set (src := FileSystemArtifactStore_blob_path d).
  assert (Hs : mc_nodes (path_exists (E:=CoreError) src m).1 = mc_nodes m)
    by (unfold path_exists; by destruct (env_fault _)).
  destruct (path_exists src m) as [m1 [[|]|e]]; cbn in Hs |- *; try by apply store_keeps_same.
  assert (K : store_keeps m1 (fs_copy src dest m1).1).
  { unfold fs_copy, syscall.
    assert (Ht : store_keeps m1 (tick m1)) by (by apply store_keeps_same).
    rewrite <- Hs in Hd. change (mc_nodes m1) with (mc_nodes (tick m1)) in Hd.
    destruct (env_fault _); destruct (file_content _ _); cbn; try case_decide;
      first [exact Ht|etrans; [exact Ht|]; by apply put_content_foreign]. }
  destruct (fs_copy src dest m1) as [m2 r]. etrans; [by apply (store_keeps_same _ m1)|exact K].
Qed.

Lemma read_to_end_delivered limit acc reads out :
  read_to_end limit acc reads = Some out -> (len out < limit)%N ->
  exists data, delivered reads = Some data /\ out = acc ++ data.
Proof.
  revert acc; induction reads as [|[[|b c]| |] reads IH]; intros acc Hr Hlt;
    cbn [read_to_end delivered] in *; simplify_eq.
  - exists []. by rewrite app_nil_r.
  - exists []. by rewrite app_nil_r.
  - destruct (N.leb_spec limit (len (acc ++ take (N.to_nat (limit - len acc)) (b :: c)))) as [Hle|Hgt].
    + simplify_eq. lia.
    + assert (length (b :: c) <= N.to_nat (limit - len acc)) as Hc
        by (unfold len in *; rewrite length_app, length_take in Hgt; lia).
      rewrite take_ge in Hr by done.
      destruct (IH _ Hr Hlt) as (data & -> & ->). exists ((b :: c) ++ data).
      by rewrite <- app_assoc.
  - by apply IH.
Qed.

Lemma verified_scan_Ok raw art cap size reads raw' art' cap' size' :
  verified_scan raw art cap size reads = Ok (raw', art', cap', size') ->
  exists data, delivered reads = Some data /\ raw' = sha_update raw data /\
    art' = DigestState_update art data /\ cap' = DigestState_update cap data /\
    size' = (size + len data)%N.
Proof.
  revert raw art cap size; induction reads as [|[[|b c]| |] reads IH];
    intros raw art cap size Hr; cbn [verified_scan delivered] in *; unfold DigestState_update in *.
  - simplify_eq. exists []. rewrite !sha_update_nil. split_and!; try done. unfold len; cbn; lia.
  - simplify_eq. exists []. rewrite !sha_update_nil. split_and!; try done. unfold len; cbn; lia.
  - ok_inv. apply checked_add_u64_Some in Hr0 as [-> _].
    destruct (IH _ _ _ _ Hr) as (data & -> & -> & -> & -> & ->). exists ((b :: c) ++ data).
    rewrite !sha_update_app. split_and!; try done. unfold len. rewrite length_app. lia.
  - by apply IH.
  - done.
Qed.

Lemma file_reads_Ok content m m' reads :
  file_reads (FRegular content) m = (m', Ok reads) ->
  delivered reads = Some content \/ delivered reads = None.
Proof. unfold file_reads. intros [= _ <-]. apply env_reads_law. Qed.

(** The final check of both verified reads. *)
Lemma digest_matches (d a c : ContentDigest) :
  negb (bool_decide (d = a)) && negb (bool_decide (d = c)) = false -> d = a \/ d = c.
Proof. do 2 case_bool_decide; naive_solver. Qed.

Lemma read_verified_Ok d n limit m m' bs :
  FileSystemArtifactStore_read_verified_bounded d n limit m = (m', Ok bs) ->
  (n <= limit)%N /\ len bs = n /\
  mc_nodes m !! FileSystemArtifactStore_blob_path d = Some (FRegular bs) /\
  (d = hash_bytes DOMAIN_ARTIFACT_BLOB bs \/ d = hash_bytes DOMAIN_CAPTURE bs).
Proof.
  unfold FileSystemArtifactStore_read_verified_bounded, storage. intros Hr.
  apply action_bind_Ok in Hr as (? & [] & [-> Hn%ensure_Ok]%lift_Ok & Hr). bool_inv.
  apply action_bind_Ok in Hr as (m1 & node & Hmeta%rethrow_Ok & Hr).
  destruct node as [content|t|]; [|done..].
  apply action_bind_Ok in Hr as (m2 & file & Hopen%rethrow_Ok & Hr).
  destruct (open_regular _ _ _ _ _ _ Hmeta Hopen) as [-> Hsrc].
  apply action_bind_Ok in Hr as (m3 & opened & [_ ->]%rethrow_Ok%file_metadata_Ok & Hr).
  act_inv. bool_inv.
  repeat match goal with
  | Hx : checked_add_u64 _ _ = Some _ |- _ => apply checked_add_u64_Some in Hx as [-> _]
  | Hx : file_reads _ _ = _ |- _ => apply file_reads_Ok in Hx
  | Hx : read_to_end _ _ _ = Some _ |- _ =>
      apply read_to_end_delivered in Hx as (data & Hdata & ->); [|cbn [app]; lia]
  end.
  cbn [app] in *. assert (data = content) as -> by (destruct_or!; congruence).
  split_and!; [done..|]. by apply digest_matches.
Qed.

Lemma verified_raw_Ok d n m m' raw :
  FileSystemArtifactStore_verified_raw_sha256 d n m = (m', Ok raw) ->
  exists bs, len bs = n /\ raw = raw_sha256_bytes bs /\
    mc_nodes m !! FileSystemArtifactStore_blob_path d = Some (FRegular bs) /\
    (d = hash_bytes DOMAIN_ARTIFACT_BLOB bs \/ d = hash_bytes DOMAIN_CAPTURE bs).
Proof.
  unfold FileSystemArtifactStore_verified_raw_sha256, storage. intros Hr.
  apply action_bind_Ok in Hr as (m1 & node & Hmeta%rethrow_Ok & Hr).
  destruct node as [content|t|]; [|done..].
  apply action_bind_Ok in Hr as (m2 & file & Hopen%rethrow_Ok & Hr).
  destruct (open_regular _ _ _ _ _ _ Hmeta Hopen) as [-> Hsrc].
  apply action_bind_Ok in Hr as (m3 & reads & Hreads%rethrow_Ok%file_reads_Ok & Hr).
  apply action_bind_Ok in Hr as (m4 & [[[raw' art] cap] size] & [-> Hscan]%lift_Ok & Hr).
  apply verified_scan_Ok in Hscan as (data & Hdata & -> & -> & -> & ->).
  assert (data = content) as -> by (destruct_or!; congruence).
  act_inv. bool_inv. exists content. split_and!; [lia|done|done|]. by apply digest_matches.
Qed.

(** ** Histories *)

(** One call of the store, whatever its outcome, or anything that happens
    outside [blobs/]. *)
Inductive store_step : relation Machine :=
| SsOpen m : store_step m (FileSystemArtifactStore_open m).1
| SsPut m bs max_bytes domain :
    blob_domain domain -> store_step m (FileSystemArtifactStore_put bs max_bytes domain m).1
| SsPutFile m source max_bytes domain :
    blob_domain domain -> store_step m (FileSystemArtifactStore_put_file source max_bytes domain m).1
| SsRead m d : store_step m (FileSystemArtifactStore_read d m).1
| SsCopy m d dest :
    (forall q, follow 40 (mc_nodes m) dest = Some q -> ~ under_blobs q) ->
    store_step m (FileSystemArtifactStore_copy_to_path d dest m).1
| SsForeign m m' :
    (forall p, under_blobs p -> mc_nodes m' !! p = mc_nodes m !! p) -> store_step m m'.

Lemma store_step_keeps m m' : store_step m m' -> store_keeps m m'.
Proof.
  intros [? | ? ? ? ? Hd | ? ? ? ? Hd | ? d | ? ? ? Hd | ? ? Hf].
  - exact (steps_rethrow store_keeps _ _ (keeps_create_dir_all _ blobs_ancestors_not_blob) _).
  - by apply put_keeps.
  - by apply put_file_spec.
  - unfold FileSystemArtifactStore_read.
    apply (steps_bind store_keeps (path_exists _)); [eauto with steps|].
    intros []; unfold storage; eauto with steps.
  - by apply copy_to_path_keeps.
  - apply (store_keeps_changes (fun p => ~ under_blobs p)).
    + intros p Hp d Hwf ->. by apply Hp, blob_path_under.
    + intros p t Hp. by rewrite Hf.
    + intros p Hp. destruct (decide (starts_with (String.append blobs_dir "/") p = true)) as [Hs|Hs].
      * apply Hf. unfold starts_with in Hs. destruct (strip_prefix _ _) as [q|] eqn:E; [|done].
        apply strip_prefix_Some in E as ->. exists q. by rewrite append_assoc.
      * exfalso. apply Hp. intros [q ->]. apply Hs. unfold starts_with.
        replace (String.append blobs_dir (String slash q))
          with (String.append (String.append blobs_dir "/") q) by by rewrite append_assoc.
        by rewrite (proj2 (strip_prefix_Some _ _ q)).
Qed.

Lemma store_history_keeps m m' : rtc store_step m m' -> store_keeps m m'.
Proof.
  induction 1 as [|m m1 m2 Hs _ IH]; [reflexivity|]. etrans; [by apply store_step_keeps|done].
Qed.

(** [put] or [put_file] accepted [bs] and answered [d]. *)
Definition stored (m : Machine) (bs : list N) (d : ContentDigest) (m' : Machine) : Prop :=
  (exists max_bytes domain, blob_domain domain /\
     FileSystemArtifactStore_put bs max_bytes domain m = (m', Ok d)) \/
  (exists source max_bytes domain size, blob_domain domain /\
     mc_nodes m !! source = Some (FRegular bs) /\
     FileSystemArtifactStore_put_file source max_bytes domain m = (m', Ok (d, size))).

Lemma stored_present m bs d m' :
  store_ok (mc_nodes m) -> stored m bs d m' ->
  store_ok (mc_nodes m') /\ exists domain, blob_domain domain /\ d = hash_bytes domain bs /\
    is_Some (mc_nodes m' !! FileSystemArtifactStore_blob_path d).
Proof.
  intros Hok [(mx & dom & Hdom & Hput)|(src & mx & dom & sz & Hdom & Hsrc & Hput)].
  - pose proof (put_keeps bs mx dom Hdom m) as K. rewrite Hput in K. split; [by apply K|].
    exists dom. by destruct (put_Ok _ _ _ _ _ _ Hok Hdom Hput) as (? & _ & ?).
  - destruct (put_file_spec src mx dom m Hdom) as [K Hp]. rewrite Hput in K.
    split; [by apply K|]. destruct (Hp Hok _ _ Hput) as (c & Hc & ? & _ & _ & ?).
    rewrite Hsrc in Hc. injection Hc as <-. by exists dom.
Qed.

Lemma read_present d bs m :
  mc_nodes m !! FileSystemArtifactStore_blob_path d = Some (FRegular bs) ->
  forall m' r, FileSystemArtifactStore_read d m = (m', r) ->
  r = Ok bs \/ is_Some (env_fault (mc_tick m)) \/ is_Some (env_fault (mc_tick m + 1)).
Proof.
  intros Hn m' r. unfold FileSystemArtifactStore_read, mbind, action_bind, path_exists.
  destruct (env_fault (mc_tick m)); [by eauto|].
  assert (Hf : followed (mc_nodes m) (FileSystemArtifactStore_blob_path d) = Some (FRegular bs))
    by (by rewrite followed_self; [|intros t; rewrite Hn]).
  rewrite Hf. rewrite bool_decide_eq_true_2 by eauto.
  unfold storage, rethrow, fs_read, syscall, file_content. cbn [tick mc_tick mc_nodes].
  destruct (env_fault (mc_tick m + 1)); [by eauto|].
  rewrite Hf. intros [= _ <-]. by left.
Qed.

(** (C33) Stored blobs are durable: once [put] or [put_file] has accepted some
    bytes, then after any further calls of the store, each failing at any
    system call, and any activity outside [blobs/], the path of the digest
    still holds a regular file with these very bytes -- or with others on
    which, framed for the store, SHA-256 collides with them -- and reading the
    digest returns the file unless one of the two system calls of the read
    fails.  Partial writes are never published. *)
Theorem blob_store_durable m bs d m1 m2 m3 r :
  store_ok (mc_nodes m) -> stored m bs d m1 -> rtc store_step m1 m2 ->
  FileSystemArtifactStore_read d m2 = (m3, r) ->
  store_ok (mc_nodes m2) /\
  exists bs', mc_nodes m2 !! FileSystemArtifactStore_blob_path d = Some (FRegular bs') /\
    (bs' = bs \/ blob_collision bs bs') /\
    (r = Ok bs' \/ is_Some (env_fault (mc_tick m2)) \/ is_Some (env_fault (mc_tick m2 + 1))).
Proof.
  intros Hok (Hok1 & domain & Hdom & -> & Hp)%stored_present Hsteps Hread; [|done].
  destruct (store_history_keeps _ _ Hsteps Hok1) as [Hok2 Hkeep]. split; [done|].
  apply Hkeep in Hp; [|apply hash_bytes_wf].
  destruct (present_content _ _ _ Hok2 Hdom Hp) as (bs' & Hbs & Hc).
  exists bs'. split_and!; try done. by eapply read_present.
Qed.

(** Verified reads return the truth whatever is on disk: even when the
    store directory has been tampered with, [read_verified_bounded] succeeds
    only with exactly the bytes of the regular file at the digest's path, of
    the expected size within the limit, that hash to the requested digest;
    and [verified_raw_sha256] answers the plain SHA-256 of such bytes. *)
Theorem blob_verified_read_exact d n limit m m' :
  (forall bs, FileSystemArtifactStore_read_verified_bounded d n limit m = (m', Ok bs) ->
     (n <= limit)%N /\ len bs = n /\
     mc_nodes m !! FileSystemArtifactStore_blob_path d = Some (FRegular bs) /\
     (d = hash_bytes DOMAIN_ARTIFACT_BLOB bs \/ d = hash_bytes DOMAIN_CAPTURE bs)) /\
  (forall raw, FileSystemArtifactStore_verified_raw_sha256 d n m = (m', Ok raw) ->
     exists bs, len bs = n /\ raw = raw_sha256_bytes bs /\
       mc_nodes m !! FileSystemArtifactStore_blob_path d = Some (FRegular bs) /\
       (d = hash_bytes DOMAIN_ARTIFACT_BLOB bs \/ d = hash_bytes DOMAIN_CAPTURE bs)).
Proof. split; [intros bs; apply read_verified_Ok|intros raw; apply verified_raw_Ok]. Qed.
End blobs.

(** ** An environment without faults *)
Fixpoint tally (n : nat) : string := match n with O => "" | S n => String "a" (tally n) end.

Definition plain_uuid : UuidLib := {| uuid_hyphenated n := tally (N.to_nat n) |}.

Definition calm_environment : Environment := {|
  env_fault _ := None;
  env_reads _ content := [ReadChunk content];
  env_uuid t := t;
  env_now t := t |}.

#[local] Instance plain_uuid_laws : @UuidLaws plain_uuid.
Proof. split. intros n. cbn. induction (N.to_nat n); cbn; [done|]. done. Qed.

#[local] Instance calm_environment_laws : @EnvironmentLaws calm_environment.
Proof. split. intros t [|b c]; left; cbn; [done|]. by rewrite app_nil_r. Qed.

Section witnesses.
#[local] Existing Instance calm_environment.
#[local] Existing Instance plain_uuid.
#[local] Existing Instance toy_sha.
#[local] Existing Instance toy_sha_laws.

Definition bare_machine : Machine := mkMachine ∅ 0.

Lemma bare_store_ok root : store_ok root (mc_nodes bare_machine).
Proof. by split. Qed.

Lemma blob_store_durable_witness :
  let put := FileSystemArtifactStore_put "/hub" [1; 2; 3]%N 10 DOMAIN_ARTIFACT_BLOB bare_machine in
  let d := hash_bytes DOMAIN_ARTIFACT_BLOB [1; 2; 3]%N in
  let rd := FileSystemArtifactStore_read "/hub" d put.1 in
  put.2 = Ok d /\ rd.2 = Ok [1; 2; 3]%N /\
  exists bs', mc_nodes put.1 !! FileSystemArtifactStore_blob_path "/hub" d = Some (FRegular bs') /\
    (bs' = [1; 2; 3]%N \/ blob_collision [1; 2; 3]%N bs') /\
    (rd.2 = Ok bs' \/ is_Some (env_fault (mc_tick put.1)) \/
     is_Some (env_fault (mc_tick put.1 + 1))).
Proof.
  intros put d rd.
  assert (Hput : put.2 = Ok d) by (by vm_compute).
  assert (Hrd : rd.2 = Ok [1; 2; 3]%N) by (by vm_compute).
  split; [exact Hput|]. split; [exact Hrd|].
  apply (blob_store_durable "/hub" bare_machine [1; 2; 3]%N d put.1 put.1 rd.1 rd.2).
  - apply bare_store_ok.
  - left. exists 10%N, DOMAIN_ARTIFACT_BLOB. split; [by left|]. by apply pair_snd_eq.
  - apply rtc_refl.
  - by apply pair_snd_eq.
Defined.

Lemma blob_verified_read_exact_witness :
  let put := FileSystemArtifactStore_put "/hub" [1; 2; 3]%N 10 DOMAIN_CAPTURE bare_machine in
  let d := hash_bytes DOMAIN_CAPTURE [1; 2; 3]%N in
  let rd := FileSystemArtifactStore_read_verified_bounded "/hub" d 3 8 put.1 in
  rd.2 = Ok [1; 2; 3]%N /\ (3 <= 8)%N /\
  mc_nodes put.1 !! FileSystemArtifactStore_blob_path "/hub" d = Some (FRegular [1; 2; 3]%N).
Proof.
  intros put d rd.
  assert (Hrd : rd.2 = Ok [1; 2; 3]%N) by (by vm_compute).
  split; [exact Hrd|].
  destruct (proj1 (blob_verified_read_exact "/hub" d 3 8 put.1 rd.1) [1; 2; 3]%N (pair_snd_eq _ _ Hrd))
    as (Hle & _ & Hn & _).
  split; [exact Hle|exact Hn].
Defined.
End witnesses.
