(* ===== verification/Component.v ===== *)
(** * Capabilities and component manifests
      ([hub-core/src/capability.rs], [component.rs], [artifact.rs])

    The registered description of an ecosystem member, its validation, and
    the canonical digest that names its content. *)

From Stdlib Require Import Ascii.
From stdpp Require Import base gmap strings list.
From S2P Require Import Prelude Text Core Version Digest.

(** ** Capabilities *)
Record CapabilityName := mkCapabilityName { capability_name_str : string }.

#[global] Instance CapabilityName_eq_dec : EqDecision CapabilityName.
Proof. solve_decision. Defined.
#[global] Program Instance CapabilityName_countable : Countable CapabilityName :=
  inj_countable' capability_name_str mkCapabilityName _.
Next Obligation. by intros []. Qed.

Definition MAX_NAME_LEN : N := 128.

Definition segment_char (c : N) : bool :=
  is_ascii_lowercase c || is_ascii_digit c || (c =? 95)%N.

Definition validate_segment (segment : string) : Result unit :=
  ensure (negb (bool_decide (segment = "")) && (slen segment <=? 64)%N &&
          starts_with_char is_ascii_lowercase segment &&
          forallb segment_char (chars segment))
    (Validation "capability segment {segment:?} must match [a-z][a-z0-9_]{{0,63}}").

Definition CapabilityName_parse (raw : string) : Result CapabilityName :=
  _ ← ensure (negb (bool_decide (raw = "") || (MAX_NAME_LEN <? slen raw)%N))
        (Validation "capability name must be 1..={MAX_NAME_LEN} characters");
  _ ← forM_ validate_segment (split_byte dot raw);
  Ok (mkCapabilityName raw).

Record Port := { port_name : string; port_description : string }.

Record Capability := {
  cap_name : CapabilityName;
  cap_contract_version : Version;
  cap_inputs : list Port;
  cap_outputs : list Port;
  cap_properties : gmap string string;
}.

#[global] Instance Port_eq_dec : EqDecision Port.
Proof. solve_decision. Defined.
#[global] Instance Capability_eq_dec : EqDecision Capability.
Proof. solve_decision. Defined.

(** One side (inputs or outputs) of [Capability::validate]. *)
Definition validate_ports (side : list Port) : Result unit :=
  _ ← foldM (fun seen port =>
        _ ← ensure (negb (bool_decide (port_name port = "") || (64 <? slen (port_name port))%N))
              (InvalidManifest "port name {:?} must be 1..=64 characters");
        insert_seen seen (port_name port)
          (InvalidManifest "duplicate port name {:?} in capability {}"))
      (∅ : gset string) side;
  Ok tt.

Definition Capability_validate (c : Capability) : Result unit :=
  forM_ validate_ports [cap_inputs c; cap_outputs c].

(** ** Components *)
Record ComponentKind := mkComponentKind { component_kind_str : string }.
Record ComponentName := mkComponentName { component_name_str : string }.

#[global] Instance ComponentKind_eq_dec : EqDecision ComponentKind.
Proof. solve_decision. Defined.
#[global] Instance ComponentName_eq_dec : EqDecision ComponentName.
Proof. solve_decision. Defined.

Definition ComponentKind_MAX_LEN : N := 64.

Definition ComponentKind_parse (raw : string) : Result ComponentKind :=
  if negb (bool_decide (raw = "")) && (slen raw <=? ComponentKind_MAX_LEN)%N &&
     starts_with_char is_ascii_lowercase raw && forallb slug_char (chars raw)
  then Ok (mkComponentKind raw)
  else Err (InvalidManifest "component kind {raw:?} must be 1..={} chars matching [a-z][a-z0-_-]*").

Definition ComponentName_MAX_LEN : N := 128.

Definition ComponentName_parse (raw : string) : Result ComponentName :=
  _ ← ensure (negb (bool_decide (raw = "") || (ComponentName_MAX_LEN <? slen raw)%N ||
                    negb (forallb (fun c => negb (is_control c)) (chars raw))))
        (InvalidManifest "component name must be 1..={} characters without control chars");
  Ok (mkComponentName raw).

Record SourceInfo := {
  source_commit : string;
  source_repository : option string;
  source_dirty : bool;
}.

Record OutputSpec := {
  out_name : string;
  out_path : string;
  out_media_type : option string;
  out_required : bool;
}.

Record ProcessBinding := {
  pb_program : string;
  pb_args : list string;
  pb_working_dir : option string;
  pb_outputs : list OutputSpec;
}.

Inductive ExecutionBinding :=
| Process (p : ProcessBinding).

#[global] Instance SourceInfo_eq_dec : EqDecision SourceInfo.
Proof. solve_decision. Defined.
#[global] Instance OutputSpec_eq_dec : EqDecision OutputSpec.
Proof. solve_decision. Defined.
#[global] Instance ProcessBinding_eq_dec : EqDecision ProcessBinding.
Proof. solve_decision. Defined.
#[global] Instance ExecutionBinding_eq_dec : EqDecision ExecutionBinding.
Proof. solve_decision. Defined.

Definition nul : ascii := "000"%char.
Definition backslash : ascii := "\"%char.

Definition validate_relative_workdir_path (path : string) : Result unit :=
  _ ← ensure (negb (bool_decide (path = "") || (256 <? slen path)%N))
        (InvalidManifest "output path must be 1..=256 characters");
  _ ← ensure (negb (starts_with "/" path || contains_byte backslash path || contains_byte nul path))
        (InvalidManifest "output path {path:?} must be relative with forward slashes");
  forM_ (fun component =>
    match component with
    | Normal _ => Ok tt
    | _ => Err (InvalidManifest "output path {path:?} contains forbidden component {other:?}")
    end) (path_components path).

Definition validate_media_type (media : string) : Result unit :=
  ensure (negb (bool_decide (media = "") || (128 <? slen media)%N ||
                existsb is_control (chars media)))
    (InvalidManifest "output media_type must be 1..=128 printable characters").

(** The loop body of [validate_output_specs] over the names and the paths
    seen so far. *)
Definition validate_output_spec (seen : gset string * gset string) (out : OutputSpec)
    : Result (gset string * gset string) :=
  _ ← ensure (valid_slug (out_name out))
        (InvalidManifest "output name {:?} must match [a-z0-9][a-z0-9_-]{{0,63}}");
  names ← insert_seen seen.1 (out_name out) (InvalidManifest "duplicate output name {:?}");
  _ ← validate_relative_workdir_path (out_path out);
  paths ← insert_seen seen.2 (out_path out) (InvalidManifest "duplicate output path {:?}");
  _ ← match out_media_type out with
      | Some media => validate_media_type media
      | None => Ok tt
      end;
  Ok (names, paths).

Definition validate_output_specs (outputs : list OutputSpec) : Result unit :=
  _ ← ensure (len outputs <=? max_outputs Limits_default)%N
        (InvalidManifest "binding declares {} outputs, more than the allowed {}");
  _ ← foldM validate_output_spec (∅, ∅) outputs;
  Ok tt.

Definition validate_process_binding (p : ProcessBinding) : Result unit :=
  _ ← ensure (negb (bool_decide (pb_program p = "") || (4096 <? slen (pb_program p))%N))
        (InvalidManifest "binding program must be 1..=4096 characters");
  _ ← ensure (negb (contains_byte nul (pb_program p)))
        (InvalidManifest "binding program must not contain NUL bytes");
  _ ← ensure (len (pb_args p) <=? max_args Limits_default)%N
        (InvalidManifest "binding declares {} args, more than the allowed {}");
  _ ← forM_ (fun arg =>
        _ ← ensure (negb (contains_byte nul arg))
              (InvalidManifest "binding args must not contain NUL bytes");
        ensure (slen arg <=? 4096)%N
          (InvalidManifest "each binding arg must be at most 4096 characters")) (pb_args p);
  validate_output_specs (pb_outputs p).

Definition ExecutionBinding_validate (b : ExecutionBinding) : Result unit :=
  match b with Process p => validate_process_binding p end.

Definition MANIFEST_SCHEMA_VERSION : N := 1.

Record ComponentManifest := {
  m_schema_version : N;
  m_id : ComponentId;
  m_name : ComponentName;
  m_version : Version;
  m_kind : ComponentKind;
  m_capabilities : list Capability;
  m_execution : option ExecutionBinding;
  m_source : option SourceInfo;
  m_metadata : gmap string string;
}.

#[global] Instance ComponentManifest_eq_dec : EqDecision ComponentManifest.
Proof. solve_decision. Defined.

Definition ComponentManifest_validate (m : ComponentManifest) : Result unit :=
  _ ← ensure (m_schema_version m =? MANIFEST_SCHEMA_VERSION)%N
        (InvalidManifest "unsupported manifest schema_version {}: this build understands {}");
  _ ← foldM (fun names cap =>
        _ ← Capability_validate cap;
        insert_seen names (cap_name cap) (InvalidManifest "duplicate capability {}"))
      (∅ : gset CapabilityName) (m_capabilities m);
  _ ← match m_execution m with
      | Some binding => ExecutionBinding_validate binding
      | None => Ok tt
      end;
  match m_source m with
  | Some source =>
      ensure (negb (bool_decide (source_commit source = "") ||
                    (128 <? slen (source_commit source))%N))
        (InvalidManifest "source commit must be 1..=128 characters")
  | None => Ok tt
  end.

Definition ComponentManifest_new_v1 (id : ComponentId) (name : ComponentName)
    (version : Version) (kind : ComponentKind) (capabilities : list Capability)
    (execution : option ExecutionBinding) (source : option SourceInfo)
    (metadata : gmap string string) : Result ComponentManifest :=
  let manifest := {|
    m_schema_version := MANIFEST_SCHEMA_VERSION;
    m_id := id; m_name := name; m_version := version; m_kind := kind;
    m_capabilities := capabilities; m_execution := execution; m_source := source;
    m_metadata := metadata |} in
  _ ← ComponentManifest_validate manifest;
  Ok manifest.

(** [manifest.capability(name)]. *)
Definition ComponentManifest_capability (m : ComponentManifest) (name : CapabilityName)
    : option Capability :=
  List.find (fun c => bool_decide (cap_name c = name)) (m_capabilities m).

(** [serde_json::to_vec] on a manifest (crates [serde], [serde_json]). *)
Class ManifestJson := { manifest_to_vec : ComponentManifest -> option (list N) }.

Section digest.
Context `{ManifestJson, Sha256Lib}.

Definition ComponentManifest_canonical_bytes (m : ComponentManifest) : Result (list N) :=
  ok_or (manifest_to_vec m) (Storage "{e}").

Definition ComponentManifest_content_digest (m : ComponentManifest) : Result ContentDigest :=
  bs ← ComponentManifest_canonical_bytes m;
  Ok (hash_bytes DOMAIN_COMPONENT_MANIFEST bs).
End digest.

(** ** Artifact metadata *)
Record ArtifactMeta := {
  art_id : ArtifactId;
  art_name : string;
  art_media_type : string;
  art_digest : ContentDigest;
  art_size : N;
  art_created_at : UnixMillis;
  art_produced_by_run : option RunId;
}.

#[global] Instance ArtifactMeta_eq_dec : EqDecision ArtifactMeta.
Proof. solve_decision. Defined.

Definition ArtifactMeta_validate (a : ArtifactMeta) : Result unit :=
  _ ← ensure (negb (bool_decide (art_name a = "") || (128 <? slen (art_name a))%N))
        (Validation "artifact name must be 1..=128 characters");
  ensure (negb (bool_decide (art_media_type a = "") || (128 <? slen (art_media_type a))%N ||
                existsb is_control (chars (art_media_type a))))
    (Validation "artifact media_type must be at most 128 printable characters").

(** ** Facts *)

(** [iter().find(..)] on a list with unique keys finds the element itself. *)
Lemma find_unique {A K} `{EqDecision K} (key : A -> K) (l : list A) x :
  NoDup (key <$> l) -> x ∈ l ->
  List.find (fun y => bool_decide (key y = key x)) l = Some x.
Proof.
  induction l as [|y l IH]; cbn; [set_solver|].
  intros [Hni Hnd]%NoDup_cons [->|Hin]%elem_of_cons.
  - by rewrite bool_decide_eq_true_2.
  - rewrite bool_decide_eq_false_2; [by apply IH|].
    intros Heq. apply Hni. rewrite Heq. by apply list_elem_of_fmap_2.
Qed.

Lemma find_Some_elem {A} (p : A -> bool) l x :
  List.find p l = Some x -> x ∈ l /\ p x = true.
Proof. intros [? ?]%List.find_some. by rewrite list_elem_of_In. Qed.

Lemma ComponentManifest_validate_Ok m :
  ComponentManifest_validate m = Ok tt ->
  m_schema_version m = MANIFEST_SCHEMA_VERSION /\
  Forall (fun c => Capability_validate c = Ok tt) (m_capabilities m) /\
  NoDup (cap_name <$> m_capabilities m) /\
  (forall b, m_execution m = Some b -> ExecutionBinding_validate b = Ok tt).
Proof.
  unfold ComponentManifest_validate. intros Hrun. ok_inv. bool_inv.
  match goal with H : foldM _ _ _ = _ |- _ =>
    apply foldM_unique_Ok in H as (? & ? & _ & _) end.
  split_and!; try done. intros b Hb.
  match goal with H : match m_execution m with _ => _ end = Ok ?u |- _ =>
    rewrite Hb in H; by destruct u end.
Qed.

Lemma split_byte_app a p q :
  split_byte a (String.append p (String a q)) = split_byte a p ++ split_byte a q.
Proof.
  induction p as [|b p IH].
  - change (split_byte a (String a q) = [""] ++ split_byte a q). cbn [split_byte].
    by rewrite decide_True.
  - rewrite append_cons. cbn [split_byte]. case_decide; [by rewrite IH|].
    rewrite IH. destruct (split_byte_nonempty a p) as (w & ws & ->). done.
Qed.

(** The components of a validated output path. *)
Lemma validate_relative_workdir_path_Ok path :
  validate_relative_workdir_path path = Ok tt ->
  is_absolute path = false /\ path <> "" /\ contains_byte nul path = false /\
  path_components path = omap path_piece (split_byte slash path) /\
  Forall (fun c => exists n, c = Normal n) (path_components path).
Proof.
  unfold validate_relative_workdir_path. intros Hrun. ok_inv. bool_inv.
  apply forM_Ok in Hrun.
  assert (Hn : Forall (fun c => exists n, c = Normal n) (path_components path)).
  { eapply Forall_impl; [exact Hrun|]. intros []; naive_solver. }
  split_and!; try done. unfold path_components in *.
  unfold is_absolute in *. match goal with H : starts_with "/" path = false |- _ => rewrite H in * end.
  destruct (split_byte_nonempty slash path) as (w & ws & E). rewrite E in *.
  case_decide; [|done]. apply Forall_cons in Hn as [[? ?] _]. done.
Qed.

(** Components of a path whose pieces are known. *)
Lemma path_components_app (w q p : string) (tail : list string) :
  w <> "" ->
  split_byte slash q = split_byte slash w ++ tail ->
  is_absolute q = is_absolute w ->
  path_components q = path_components w ++ omap path_piece tail.
Proof.
  intros Hw Hsplit Habs. unfold path_components. rewrite Habs, Hsplit.
  destruct (is_absolute w).
  - by rewrite omap_app.
  - destruct (split_byte_nonempty slash w) as (x & xs & ->). cbn [app].
    case_decide; [by rewrite omap_app|]. change (x :: xs ++ tail) with ((x :: xs) ++ tail).
    by rewrite omap_app.
Qed.

Lemma is_absolute_cons c s : is_absolute (String c s) = bool_decide (slash = c).
Proof.
  unfold is_absolute, starts_with, slash. cbn [strip_prefix].
  case_decide; [by rewrite bool_decide_eq_true_2|by rewrite bool_decide_eq_false_2].
Qed.

Lemma is_absolute_append w q : w <> "" -> is_absolute (String.append w q) = is_absolute w.
Proof. destruct w as [|c w]; [done|]. intros _.
  by rewrite append_cons, !is_absolute_cons. Qed.

Lemma omap_path_piece_snoc l :
  omap path_piece (l ++ [""]) = omap path_piece l.
Proof. rewrite omap_app. change (omap path_piece [""]) with (@nil PathComponent).
  apply app_nil_r. Qed.

(** Joining a relative path below a directory appends its components. *)
Lemma path_join_components w p :
  w <> "" -> is_absolute p = false ->
  path_components p = omap path_piece (split_byte slash p) ->
  path_components (path_join w p) = path_components w ++ path_components p.
Proof.
  intros Hw Hp Hc. rewrite Hc. unfold path_join, ends_with_slash. rewrite Hp.
  rewrite bool_decide_eq_false_2 by done.
  destruct (strip_suffix_byte slash w) as [w'|] eqn:E.
  - apply strip_suffix_byte_Some in E as ->.
    transitivity (path_components (String.append w' (String slash ""))
      ++ omap path_piece (split_byte slash p)); [|done].
    assert (Hsp : split_byte slash (String.append w' (String slash ""))
                  = split_byte slash w' ++ [""]) by apply split_byte_app.
    assert (Hq : String.append (String.append w' (String slash "")) p
                 = String.append w' (String slash p)) by (by rewrite append_assoc).
    assert (Ha : is_absolute (String.append w' (String slash p))
                 = is_absolute (String.append w' (String slash "")))
      by (by rewrite <- Hq, is_absolute_append).
    rewrite Hq. unfold path_components. rewrite Ha, Hsp, split_byte_app.
    destruct (is_absolute (String.append w' (String slash ""))).
    + cbn [app]. f_equal. by rewrite omap_path_piece_snoc, omap_app.
    + destruct (split_byte_nonempty slash w') as (x & xs & ->). cbn [app].
      case_decide; cbn [app].
      * f_equal. by rewrite omap_path_piece_snoc, omap_app.
      * change (x :: xs ++ split_byte slash p) with ((x :: xs) ++ split_byte slash p).
        change (x :: xs ++ [""]) with ((x :: xs) ++ [""]).
        by rewrite omap_path_piece_snoc, omap_app.
  - apply (path_components_app w _ p); [done|apply split_byte_app|].
    by apply is_absolute_append.
Qed.

(** A validated output path has at least one component. *)
Lemma validate_relative_workdir_path_nonempty path :
  validate_relative_workdir_path path = Ok tt -> path_components path <> [].
Proof.
  intros Hv. pose proof Hv as (Ha & Hne & _ & Hc & _)%validate_relative_workdir_path_Ok.
  rewrite Hc. destruct path as [|c path]; [done|].
  rewrite is_absolute_cons in Ha. bool_inv. cbn [split_byte].
  rewrite decide_False by done.
  destruct (split_byte_nonempty slash path) as (x & xs & E). rewrite E.
  intros Hnil. assert (Hdot : String c x = ".").
  { cbn in Hnil. unfold path_piece in Hnil. repeat case_decide; try done. }
  unfold validate_relative_workdir_path in Hv. ok_inv. apply forM_Ok in Hv.
  unfold path_components in Hv. cbn [split_byte] in Hv. rewrite decide_False, E in Hv by done.
  rewrite is_absolute_cons, bool_decide_eq_false_2 in Hv by done.
  rewrite decide_True in Hv by done. by apply Forall_cons in Hv as [? _].
Qed.

Lemma foldM_output_spec_Ok outs seen seen' :
  foldM validate_output_spec seen outs = Ok seen' ->
  NoDup (out_name <$> outs) /\ NoDup (out_path <$> outs) /\
  (forall o, o ∈ outs -> out_name o ∉ seen.1 /\ out_path o ∉ seen.2 /\
     valid_slug (out_name o) = true /\
     validate_relative_workdir_path (out_path o) = Ok tt).
Proof.
  revert seen; induction outs as [|o outs IH]; intros seen; cbn [foldM].
  - intros _. split_and!; [constructor|constructor|set_solver].
  - intros (s1 & H1 & H2)%bind_Ok. apply IH in H2 as (Hn & Hp & Hall).
    unfold validate_output_spec in H1. ok_inv. destruct r1. cbn [fst snd] in *.
    split_and!.
    + apply NoDup_cons_2; [|done]. intros (y & Hy & Hin)%list_elem_of_fmap.
      destruct (Hall y Hin) as [? _]. set_solver.
    + apply NoDup_cons_2; [|done]. intros (y & Hy & Hin)%list_elem_of_fmap.
      destruct (Hall y Hin) as (_ & ? & _). set_solver.
    + intros y [->|Hin]%elem_of_cons; [done|].
      destruct (Hall y Hin) as (? & ? & ? & ?). set_solver.
Qed.

Lemma validate_process_binding_Ok p :
  validate_process_binding p = Ok tt ->
  (len (pb_outputs p) <= max_outputs Limits_default)%N /\
  (len (pb_args p) <= max_args Limits_default)%N /\
  NoDup (out_name <$> pb_outputs p) /\ NoDup (out_path <$> pb_outputs p) /\
  (forall o, o ∈ pb_outputs p -> valid_slug (out_name o) = true /\
     validate_relative_workdir_path (out_path o) = Ok tt).
Proof.
  unfold validate_process_binding, validate_output_specs. intros Hrun. ok_inv. bool_inv.
  match goal with H : foldM _ _ _ = _ |- _ =>
    apply foldM_output_spec_Ok in H as (? & ? & Hall) end.
  split_and!; try done. intros o Ho. by destruct (Hall o Ho) as (_ & _ & ? & ?).
Qed.

(** Outputs stay inside the run directory: in a manifest that
    validates, every declared output, joined below any (non-empty) working
    directory, denotes a path made of that directory's components followed by
    at least one plain component and nothing else -- no root, [.] or [..] --
    and no two outputs have the same name or the same path text. *)
Theorem manifest_outputs_contained m p w :
  ComponentManifest_validate m = Ok tt ->
  m_execution m = Some (Process p) ->
  w <> "" ->
  NoDup (out_name <$> pb_outputs p) /\ NoDup (out_path <$> pb_outputs p) /\
  (len (pb_outputs p) <= max_outputs Limits_default)%N /\
  forall o, o ∈ pb_outputs p ->
    exists rel, path_components (path_join w (out_path o)) = path_components w ++ rel /\
      rel <> [] /\ Forall (fun c => exists n, c = Normal n) rel.
Proof.
  intros Hv Hx Hw. apply ComponentManifest_validate_Ok in Hv as (_ & _ & _ & Hb).
  apply Hb, validate_process_binding_Ok in Hx as (? & _ & ? & ? & Hall).
  split_and!; try done. intros o Ho. destruct (Hall o Ho) as [_ Hp].
  exists (path_components (out_path o)).
  pose proof Hp as (Ha & _ & _ & Hc & Hn)%validate_relative_workdir_path_Ok.
  split_and!; [by apply path_join_components| |done].
  by apply validate_relative_workdir_path_nonempty.
Qed.

Definition sample_binding : ProcessBinding := {|
  pb_program := "/usr/bin/solver"; pb_args := ["--in"; "{input:matrix}"];
  pb_working_dir := None;
  pb_outputs := [ {| out_name := "log"; out_path := "out//log.txt";
                     out_media_type := None; out_required := true |};
                  {| out_name := "model"; out_path := "model.bin";
                     out_media_type := Some "application/octet-stream";
                     out_required := false |} ] |}.

Definition sample_capability : Capability := {|
  cap_name := mkCapabilityName "linalg.solve"; cap_contract_version := mkVersion "1.0.0";
  cap_inputs := [ {| port_name := "matrix"; port_description := "" |} ];
  cap_outputs := []; cap_properties := ∅ |}.

Definition sample_manifest : ComponentManifest := {|
  m_schema_version := 1; m_id := from_uuid 7; m_name := mkComponentName "solver";
  m_version := mkVersion "1.0.0"; m_kind := mkComponentKind "tool";
  m_capabilities := [sample_capability]; m_execution := Some (Process sample_binding);
  m_source := None; m_metadata := ∅ |}.

Lemma manifest_outputs_contained_witness :
  path_components (path_join "/work/r1/" "out//log.txt") =
    [RootDir; Normal "work"; Normal "r1"; Normal "out"; Normal "log.txt"] /\
  NoDup (out_name <$> pb_outputs sample_binding).
Proof.
  split; [by vm_compute|].
  refine (proj1 (manifest_outputs_contained sample_manifest sample_binding "/work/r1/" _ _ _));
    [by vm_compute|done|done].
Defined.

(** Capability lookup of a validated manifest is unambiguous: looking a
    name up succeeds exactly when the manifest declares it, and returns the
    one capability declared under that name. *)
Lemma manifest_capability_lookup m name c :
  ComponentManifest_validate m = Ok tt ->
  ComponentManifest_capability m name = Some c <->
  c ∈ m_capabilities m /\ cap_name c = name.
Proof.
  intros (_ & _ & Hnd & _)%ComponentManifest_validate_Ok.
  unfold ComponentManifest_capability. split.
  - intros [? ?]%find_Some_elem. by bool_inv.
  - intros [Hin <-]. by apply (find_unique cap_name).
Qed.
