(* ===== verification/Run.v ===== *)
(** * Run specifications and provenance-bearing run records
      ([hub-core/src/run.rs])

    The declarative description of one execution, its intrinsic validation,
    and the run record whose lifecycle is driven only through
    [RunRecord_transition].  The state enum itself is in [Core]. *)

From Stdlib Require Import Ascii.
From stdpp Require Import base gmap strings list.
From S2P Require Import Prelude Text Core Version Digest Component.

(** The [serde_json] crate as the run and workflow layers use it: its value
    type and the canonical serialisation of a parameter map. *)
Class JsonLib := {
  Value : Type;
  Value_eq_dec :: EqDecision Value;
  params_to_vec : gmap string Value -> option (list N);
}.

Record InputBinding := { in_name : string; in_artifact : ArtifactId }.

#[global] Instance InputBinding_eq_dec : EqDecision InputBinding.
Proof. solve_decision. Defined.

Record Transition := { tr_from : RunState; tr_to : RunState; tr_at : UnixMillis }.

Record InputProvenance := {
  ip_name : string;
  ip_artifact : ArtifactId;
  ip_digest : ContentDigest;
  ip_size : N;
}.

Record OutputRef := {
  or_name : string;
  or_artifact : ArtifactId;
  or_digest : ContentDigest;
  or_size : N;
}.

Record RunOutcome := {
  ro_exit_code : option Z;
  ro_signal : option Z;
  ro_timed_out : bool;
  ro_cancelled : bool;
  ro_executor_backend : string;
  ro_duration_ms : N;
  ro_inputs : list InputProvenance;
  ro_outputs : list OutputRef;
  ro_env_keys : list string;
  ro_params_digest : ContentDigest;
  ro_failure : option string;
}.

Record ComponentAdmissionPin := {
  pin_component_version : Version;
  pin_manifest_digest : ContentDigest;
  pin_capability_contract_version : Version;
}.

#[global] Instance Transition_eq_dec : EqDecision Transition.
Proof. solve_decision. Defined.
#[global] Instance InputProvenance_eq_dec : EqDecision InputProvenance.
Proof. solve_decision. Defined.
#[global] Instance OutputRef_eq_dec : EqDecision OutputRef.
Proof. solve_decision. Defined.
#[global] Instance RunOutcome_eq_dec : EqDecision RunOutcome.
Proof. solve_decision. Defined.
#[global] Instance ComponentAdmissionPin_eq_dec : EqDecision ComponentAdmissionPin.
Proof. solve_decision. Defined.

Section run.
Context `{JsonLib}.

Record RunSpec := {
  spec_component : ComponentId;
  spec_capability : CapabilityName;
  spec_parameters : gmap string Value;
  spec_inputs : list InputBinding;
  spec_timeout_ms : N;
}.

#[global] Instance RunSpec_eq_dec : EqDecision RunSpec.
Proof. solve_decision. Defined.

Definition RunSpec_validate_input_name (name : string) : Result unit :=
  ensure (valid_slug name)
    (InvalidRunSpec "input name {name:?} must match [a-z0-9][a-z0-9_-]{{0,63}}").

Definition RunSpec_validate (s : RunSpec) (limits : Limits) : Result unit :=
  _ ← ensure (negb ((spec_timeout_ms s =? 0)%N || (max_timeout_ms limits <? spec_timeout_ms s)%N))
        (InvalidRunSpec "timeout_ms must be 1..={}");
  params_bytes ← ok_or (params_to_vec (spec_parameters s))
        (InvalidRunSpec "parameters are not JSON-safe: {e}");
  _ ← ensure (len params_bytes <=? max_params_bytes limits)%N
        (InvalidRunSpec "parameters serialize to {} bytes, over the {} byte limit");
  _ ← ensure (len (spec_inputs s) <=? max_inputs limits)%N
        (InvalidRunSpec "{} inputs exceeds the maximum of {}");
  _ ← foldM (fun seen input =>
        _ ← RunSpec_validate_input_name (in_name input);
        insert_seen seen (in_name input) (InvalidRunSpec "duplicate input binding {:?}"))
      (∅ : gset string) (spec_inputs s);
  Ok tt.

Definition RunSpec_canonical_params_bytes (s : RunSpec) : Result (list N) :=
  ok_or (params_to_vec (spec_parameters s)) (Storage "{e}").

Definition RunSpec_params_digest `{Sha256Lib} (s : RunSpec) : Result ContentDigest :=
  bs ← RunSpec_canonical_params_bytes s;
  Ok (hash_bytes DOMAIN_RUN_PARAMS bs).

Record RunRecord := {
  run_id : RunId;
  run_spec : RunSpec;
  run_state : RunState;
  run_component_name : string;
  run_component_version : Version;
  run_component_manifest_digest : option ContentDigest;
  run_contract_version : Version;
  run_created_at : UnixMillis;
  run_started_at : option UnixMillis;
  run_finished_at : option UnixMillis;
  run_transitions : list Transition;
  run_outcome : option RunOutcome;
  run_reproduced_from : option RunId;
}.

#[global] Instance RunRecord_eq_dec : EqDecision RunRecord.
Proof. solve_decision. Defined.

(** [fresh] is the value of [Uuid::new_v4()]. *)
Definition RunRecord_create (fresh : N) (spec : RunSpec) (component_name : string)
    (component_version contract_version : Version) (now : UnixMillis) (limits : Limits)
    : Result RunRecord :=
  _ ← RunSpec_validate spec limits;
  Ok {| run_id := from_uuid fresh; run_spec := spec; run_state := RsCreated;
        run_component_name := component_name;
        run_component_version := component_version;
        run_component_manifest_digest := None;
        run_contract_version := contract_version;
        run_created_at := now; run_started_at := None; run_finished_at := None;
        run_transitions := []; run_outcome := None; run_reproduced_from := None |}.

(** [RunRecord::transition(&mut self, to, now)]: the record after the call
    and what the call returned. *)
Definition RunRecord_transition (r : RunRecord) (to : RunState) (now : UnixMillis)
    : RunRecord * Result unit :=
  let from := run_state r in
  if negb (RunState_can_transition_to from to) then (r, Err (InvalidTransition from to))
  else
    ({| run_id := run_id r; run_spec := run_spec r; run_state := to;
        run_component_name := run_component_name r;
        run_component_version := run_component_version r;
        run_component_manifest_digest := run_component_manifest_digest r;
        run_contract_version := run_contract_version r;
        run_created_at := run_created_at r;
        run_started_at := if bool_decide (to = RsRunning)
                          then get_or_insert (run_started_at r) now else run_started_at r;
        run_finished_at := if RunState_is_terminal to then Some now else run_finished_at r;
        run_transitions := run_transitions r ++ [ {| tr_from := from; tr_to := to; tr_at := now |} ];
        run_outcome := run_outcome r;
        run_reproduced_from := run_reproduced_from r |}, Ok tt).

(** Assignments to single fields, as the orchestrator performs them. *)
Definition RunRecord_set_outcome (r : RunRecord) (o : option RunOutcome) : RunRecord :=
  {| run_id := run_id r; run_spec := run_spec r; run_state := run_state r;
     run_component_name := run_component_name r;
     run_component_version := run_component_version r;
     run_component_manifest_digest := run_component_manifest_digest r;
     run_contract_version := run_contract_version r;
     run_created_at := run_created_at r; run_started_at := run_started_at r;
     run_finished_at := run_finished_at r; run_transitions := run_transitions r;
     run_outcome := o; run_reproduced_from := run_reproduced_from r |}.

Definition RunRecord_set_admission (r : RunRecord) (d : option ContentDigest)
    (reproduced_from : option RunId) : RunRecord :=
  {| run_id := run_id r; run_spec := run_spec r; run_state := run_state r;
     run_component_name := run_component_name r;
     run_component_version := run_component_version r;
     run_component_manifest_digest := d;
     run_contract_version := run_contract_version r;
     run_created_at := run_created_at r; run_started_at := run_started_at r;
     run_finished_at := run_finished_at r; run_transitions := run_transitions r;
     run_outcome := run_outcome r; run_reproduced_from := reproduced_from |}.

(** ** The history of a record *)

(** A sequence of calls of [transition] on one record, rejected ones
    included. *)
Definition run_calls (r : RunRecord) (calls : list (RunState * UnixMillis)) : RunRecord :=
  foldl (fun r c => (RunRecord_transition r c.1 c.2).1) r calls.

(** Replaying a log of transitions from a state: each entry must start where
    the previous one ended and be legal. *)
Fixpoint run_replay (s : RunState) (log : list Transition) : option RunState :=
  match log with
  | [] => Some s
  | t :: log =>
      if bool_decide (tr_from t = s) && RunState_can_transition_to (tr_from t) (tr_to t)
      then run_replay (tr_to t) log else None
  end.

(** The time of the last entry whose target satisfies [p]. *)
Definition last_at (p : RunState -> bool) (log : list Transition) : option UnixMillis :=
  tr_at <$> last (filter (fun t => p (tr_to t) = true) log).

(** What the log of a record promises about its other fields. *)
Record run_history_ok (r : RunRecord) : Prop := {
  rh_replay : run_replay RsCreated (run_transitions r) = Some (run_state r);
  rh_started : run_started_at r = last_at (fun s => bool_decide (s = RsRunning)) (run_transitions r);
  rh_finished : run_finished_at r = last_at RunState_is_terminal (run_transitions r);
  rh_started_iff : is_Some (run_started_at r) -> (3 <= run_rank (run_state r))%nat;
}.

(** The fields no transition touches. *)
Definition same_provenance (r r' : RunRecord) : Prop :=
  run_id r' = run_id r /\ run_spec r' = run_spec r /\
  run_component_name r' = run_component_name r /\
  run_component_version r' = run_component_version r /\
  run_component_manifest_digest r' = run_component_manifest_digest r /\
  run_contract_version r' = run_contract_version r /\
  run_created_at r' = run_created_at r /\ run_outcome r' = run_outcome r /\
  run_reproduced_from r' = run_reproduced_from r.

Lemma run_replay_app s log log' :
  run_replay s (log ++ log') = run_replay s log ≫= fun t => run_replay t log'.
Proof.
  revert s; induction log as [|t log IH]; intros s; cbn; [done|].
  destruct (_ && _); [apply IH|done].
Qed.

Lemma run_replay_rank s log t :
  run_replay s log = Some t -> (run_rank s + length log <= run_rank t)%nat.
Proof.
  revert s; induction log as [|e log IH]; intros s; cbn [run_replay length].
  - intros [= ->]. lia.
  - destruct (_ && _) eqn:E; [|done]. bool_inv. subst. intros ?%IH.
    match goal with H : RunState_can_transition_to _ _ = _ |- _ => apply run_rank_step in H end.
    lia.
Qed.

Lemma last_at_snoc p log e :
  last_at p (log ++ [e]) = if p (tr_to e) then Some (tr_at e) else last_at p log.
Proof.
  unfold last_at. rewrite filter_app, filter_cons, filter_nil. case_decide as Hp.
  - rewrite Hp, last_snoc. done.
  - apply not_true_is_false in Hp. by rewrite Hp, app_nil_r.
Qed.

Lemma RunRecord_transition_cases r to now :
  (RunState_can_transition_to (run_state r) to = false /\
   RunRecord_transition r to now = (r, Err (InvalidTransition (run_state r) to))) \/
  (RunState_can_transition_to (run_state r) to = true /\
   exists r', RunRecord_transition r to now = (r', Ok tt) /\ run_state r' = to /\
     run_transitions r' = run_transitions r ++
       [ {| tr_from := run_state r; tr_to := to; tr_at := now |} ] /\
     run_started_at r' = (if bool_decide (to = RsRunning)
       then get_or_insert (run_started_at r) now else run_started_at r) /\
     run_finished_at r' = (if RunState_is_terminal to then Some now else run_finished_at r) /\
     same_provenance r r').
Proof.
  unfold RunRecord_transition. destruct (RunState_can_transition_to _ _); [right|by left].
  split; [done|]. eexists. split; [reflexivity|]. cbn. by unfold same_provenance.
Qed.

Lemma run_history_step r to now :
  run_history_ok r -> run_history_ok (RunRecord_transition r to now).1.
Proof.
  intros [Hrep Hst Hfi Hiff].
  destruct (RunRecord_transition_cases r to now)
    as [[_ ->]|(Hok & r' & -> & Hs & Ht & Hst' & Hfi' & _)]; [done|]. cbn [fst].
  pose proof (run_rank_step _ _ Hok) as Hrank.
  split; rewrite ?Hs, ?Ht, ?Hst', ?Hfi'.
  - rewrite run_replay_app, Hrep. cbn. rewrite bool_decide_eq_true_2 by done. by rewrite Hok.
  - rewrite last_at_snoc. cbn [tr_to tr_at]. case_bool_decide as Hr; [|done].
    destruct (run_started_at r) as [t|] eqn:E; [|done].
    assert (3 <= run_rank (run_state r))%nat by (apply Hiff; eauto). rewrite Hr in Hrank. cbn in Hrank. lia.
  - rewrite last_at_snoc. cbn [tr_to tr_at]. by destruct (RunState_is_terminal to).
  - case_bool_decide as Hr; [rewrite Hr; cbn; lia|]. intros ?%Hiff. lia.
Qed.

(** A call of [transition] that succeeded. *)
Lemma transition_Ok r to now r' :
  RunRecord_transition r to now = (r', Ok tt) ->
  run_state r' = to /\ run_transitions r' = run_transitions r ++
    [ {| tr_from := run_state r; tr_to := to; tr_at := now |} ] /\
  same_provenance r r' /\ (run_history_ok r -> run_history_ok r').
Proof.
  intros Ht. pose proof (run_history_step r to now) as Hh. rewrite Ht in Hh. cbn in Hh.
  destruct (RunRecord_transition_cases r to now) as [[_ Hc]|(_ & r1 & Hc & ? & ? & _ & _ & ?)];
    rewrite Ht in Hc; [done|]. injection Hc as <-. done.
Qed.

Lemma run_calls_history r calls : run_history_ok r -> run_history_ok (run_calls r calls).
Proof.
  revert r; induction calls as [|c calls IH]; intros r Hr; [done|].
  apply IH. by apply run_history_step.
Qed.

Lemma same_provenance_trans r1 r2 r3 :
  same_provenance r1 r2 -> same_provenance r2 r3 -> same_provenance r1 r3.
Proof. unfold same_provenance. intuition congruence. Qed.

Lemma run_calls_provenance r calls : same_provenance r (run_calls r calls).
Proof.
  revert r; induction calls as [|c calls IH]; intros r; [by unfold same_provenance|].
  eapply same_provenance_trans; [|apply IH].
  destruct (RunRecord_transition_cases r c.1 c.2) as [[_ ->]|(_ & r' & -> & H')];
    [by unfold same_provenance|]. by destruct H' as (_ & _ & _ & _ & ?).
Qed.

Lemma run_calls_terminal r calls :
  RunState_is_terminal (run_state r) = true -> run_calls r calls = r.
Proof.
  intros Ht. induction calls as [|c calls IH]; [done|]. cbn.
  destruct (RunRecord_transition_cases r c.1 c.2) as [[_ ->]|[Hc _]]; [done|].
  by rewrite run_terminal_frozen in Hc.
Qed.

Lemma RunRecord_create_Ok fresh spec nm cv kv now limits r :
  RunRecord_create fresh spec nm cv kv now limits = Ok r ->
  RunSpec_validate spec limits = Ok tt /\ run_spec r = spec /\ run_state r = RsCreated /\
  run_transitions r = [] /\ run_started_at r = None /\ run_finished_at r = None /\
  run_created_at r = now /\ run_outcome r = None /\ run_id r = from_uuid fresh.
Proof. unfold RunRecord_create. intros Hr. ok_inv. destruct r0. by split_and!. Qed.

Lemma RunRecord_create_history fresh spec nm cv kv now limits r :
  RunRecord_create fresh spec nm cv kv now limits = Ok r -> run_history_ok r.
Proof.
  intros (_ & _ & Hs & Ht & Hst & Hfi & _)%RunRecord_create_Ok.
  split; rewrite ?Hs, ?Ht, ?Hst, ?Hfi; try done.
Qed.

(** What [RunSpec_validate] accepts, exactly. *)
Lemma RunSpec_validate_Ok s limits :
  RunSpec_validate s limits = Ok tt <->
  (1 <= spec_timeout_ms s <= max_timeout_ms limits)%N /\
  (exists bs, params_to_vec (spec_parameters s) = Some bs /\
              (len bs <= max_params_bytes limits)%N) /\
  (len (spec_inputs s) <= max_inputs limits)%N /\
  Forall (fun i => valid_slug (in_name i) = true) (spec_inputs s) /\
  NoDup (in_name <$> spec_inputs s).
Proof.
  unfold RunSpec_validate. split.
  - intros Hrun. ok_inv. bool_inv.
    match goal with H : foldM _ _ _ = _ |- _ => apply foldM_unique_Ok in H as (Hall & ? & _) end.
    split_and!; [lia|lia|eauto|done| |done].
    eapply Forall_impl; [exact Hall|]. intros i Hi. by apply ensure_Ok in Hi.
  - intros (Ht & (bs & Hp & Hb) & Hi & Hall & Hnd).
    rewrite bind_ensure
      by (apply negb_true_iff, orb_false_iff; split; [apply N.eqb_neq|apply N.ltb_ge]; lia).
    rewrite (bind_ok_or _ _ _ bs) by done.
    rewrite !bind_ensure by (by apply N.leb_le).
    apply bind_Ok. eexists. split; [|done].
    apply foldM_unique_Ok. split_and!; [|done|set_solver|reflexivity].
    eapply Forall_impl; [exact Hall|]. intros i Hv. by apply ensure_Ok.
Qed.

(** A slug is a single plain path component. *)
Lemma valid_slug_not_contains a s :
  valid_slug s = true -> slug_char (N_of_ascii a) = false -> contains_byte a s = false.
Proof.
  unfold valid_slug, chars. intros Hv Ha. bool_inv.
  rewrite forallb_chars_ascii in Hv by apply slug_char_ascii.
  by eapply forallb_bytes_not_contains.
Qed.

Lemma valid_slug_nonempty s : valid_slug s = true -> s <> "".
Proof. unfold valid_slug. intros Hv. by bool_inv. Qed.

Lemma valid_slug_components s :
  valid_slug s = true -> is_absolute s = false /\ path_components s = [Normal s] /\
  path_components s = omap path_piece (split_byte slash s).
Proof.
  intros Hv. pose proof (valid_slug_nonempty _ Hv) as Hne.
  assert (Hs : contains_byte slash s = false) by (by apply valid_slug_not_contains).
  assert (Hd : contains_byte "."%char s = false) by (by apply valid_slug_not_contains).
  assert (Ha : is_absolute s = false).
  { destruct s as [|c s]; [done|]. rewrite is_absolute_cons. cbn in Hs.
    apply orb_false_iff in Hs as [? _]. done. }
  assert (Hp : path_piece s = Some (Normal s)).
  { unfold path_piece. repeat case_decide; subst; done. }
  split; [done|]. unfold path_components. rewrite Ha.
  rewrite (proj1 (split_byte_none slash s) Hs).
  case_decide; [by subst|]. cbn. rewrite Hp. done.
Qed.

(** The provenance log of a run is the truth about its lifecycle: after
    any sequence of [transition] calls on a freshly created record, accepted
    or rejected, the log replays from [Created] through legal moves to the
    record's state, [started_at] and [finished_at] are the logged times of
    the move to [Running] and of the terminal move, nothing else of the record
    has changed, at most four moves were made, and a terminal record ignores
    every further call. *)
Theorem run_record_lifecycle fresh spec nm cv kv now limits r0 calls :
  RunRecord_create fresh spec nm cv kv now limits = Ok r0 ->
  let r := run_calls r0 calls in
  run_history_ok r /\ same_provenance r0 r /\
  (length (run_transitions r) <= 4)%nat /\
  (RunState_is_terminal (run_state r) = true -> forall more, run_calls r more = r).
Proof.
  intros Hc r. assert (Hr : run_history_ok r)
    by (by eapply run_calls_history, RunRecord_create_history).
  split_and!; [done|apply run_calls_provenance| |intros; by apply run_calls_terminal].
  pose proof (run_replay_rank _ _ _ (rh_replay _ Hr)) as Hrank. cbn in Hrank.
  destruct (run_state r); cbn in Hrank; lia.
Qed.

(** The inputs of a validated specification are materialised inside
    [inputs/] of the run directory, one file each: the joined path has exactly
    the directory's components, [inputs] and the slot name, and two bindings
    with the same path are the same binding. *)
Lemma run_inputs_contained s limits w :
  RunSpec_validate s limits = Ok tt -> w <> "" ->
  (forall i, i ∈ spec_inputs s ->
     path_components (path_join (path_join w "inputs") (in_name i)) =
       path_components w ++ [Normal "inputs"; Normal (in_name i)]) /\
  (forall i j, i ∈ spec_inputs s -> j ∈ spec_inputs s ->
     path_components (path_join (path_join w "inputs") (in_name i)) =
     path_components (path_join (path_join w "inputs") (in_name j)) -> i = j).
Proof.
  intros (_ & _ & _ & Hall & Hnd)%RunSpec_validate_Ok Hw.
  assert (Hpath : forall i, i ∈ spec_inputs s ->
     path_components (path_join (path_join w "inputs") (in_name i)) =
       path_components w ++ [Normal "inputs"; Normal (in_name i)]).
  { intros i Hi. eapply Forall_forall in Hall; [|exact Hi].
    destruct (valid_slug_components _ Hall) as (Ha & Hc & Hc').
    rewrite path_join_components, Hc, (path_join_components w) by
      (done || (unfold path_join, is_absolute; cbn; repeat case_match; by destruct w)).
    change (path_components "inputs") with [Normal "inputs"]. by rewrite <- app_assoc. }
  split; [done|]. intros i j Hi Hj. rewrite !Hpath by done.
  intros [= Heq]%(inj (app _)).
  apply list_elem_of_lookup in Hi as [n Hn], Hj as [k Hk].
  assert (n = k) as ->; [|congruence].
  eapply NoDup_lookup; [exact Hnd| |]; rewrite list_lookup_fmap; [by rewrite Hn|].
  rewrite Hk. cbn. by rewrite Heq.
Qed.
End run.

(** ** A concrete instance of the external serialiser *)
Definition toy_json : JsonLib := {|
  Value := string;
  params_to_vec m := Some (mjoin ((fun kv => bytes kv.1 ++ [58] ++ bytes kv.2 ++ [44])%N <$> map_iter m));
|}.

Definition sample_spec : @RunSpec toy_json := {|
  spec_component := from_uuid 7; spec_capability := mkCapabilityName "linalg.solve";
  spec_parameters := (∅ : gmap string (@Value toy_json));
  spec_inputs := [ {| in_name := "matrix"; in_artifact := from_uuid 1 |};
                   {| in_name := "rhs"; in_artifact := from_uuid 1 |} ];
  spec_timeout_ms := 5000 |}.

Definition sample_run : @RunRecord toy_json :=
  match @RunRecord_create toy_json 9 sample_spec "solver" (mkVersion "1.0.0") (mkVersion "1.0.0")
          100 Limits_default with
  | Ok r => r
  | Err _ => {| run_id := from_uuid 0; run_spec := sample_spec; run_state := RsFailed;
      run_component_name := ""; run_component_version := mkVersion "";
      run_component_manifest_digest := None; run_contract_version := mkVersion "";
      run_created_at := 0; run_started_at := None; run_finished_at := None;
      run_transitions := []; run_outcome := None; run_reproduced_from := None |}
  end.

Lemma run_record_lifecycle_witness :
  let r := run_calls sample_run
    [(RsValidated, 101%N); (RsRunning, 102%N); (RsQueued, 103%N); (RsRunning, 104%N);
     (RsRunning, 105%N); (RsSucceeded, 110%N); (RsCancelled, 111%N)] in
  run_state r = RsSucceeded /\ run_started_at r = Some 104%N /\
  run_finished_at r = Some 110%N /\ length (run_transitions r) = 4%nat /\ run_history_ok r.
Proof.
  intros r. split_and!; [by vm_compute|by vm_compute|by vm_compute|by vm_compute|].
  exact (proj1 (run_record_lifecycle 9 sample_spec "solver" (mkVersion "1.0.0")
    (mkVersion "1.0.0") 100 Limits_default sample_run _ eq_refl)).
Defined.
