(* ===== verification/Workflow.v ===== *)
(** * Workflow specifications and records ([hub-core/src/workflow.rs])

    Multi-step specifications, their validation against the graph primitive
    of [Dag], the deterministic execution order, admission pins, and the
    workflow record. *)

From Stdlib Require Import Ascii.
From stdpp Require Import base gmap strings list relations.
From S2P Require Import Prelude Text Core Dag Version Digest Component Run.

Definition WORKFLOW_SCHEMA_VERSION : N := 1.
Definition WORKFLOW_MODEL_VERSION : string := "1.2.0".
Definition MAX_WORKFLOW_CONCURRENCY : N := 64.
Definition WORKFLOW_ADMISSION_SCHEMA_VERSION : N := 1.

Inductive InputSource :=
| Artifact (artifact : ArtifactId)
| FromStep (key output : string).

(** ** Retry policies *)
Inductive AttemptFailureCategory :=
| AfTimedOut
| AfStartFailure
| AfNonZeroExit
| AfSignaled
| AfMissingRequiredOutput
| AfCancelled
| AfExecutionError.

#[global] Instance InputSource_eq_dec : EqDecision InputSource.
Proof. solve_decision. Defined.
#[global] Instance AttemptFailureCategory_eq_dec : EqDecision AttemptFailureCategory.
Proof. solve_decision. Defined.

(** The derived order is the declaration order. *)
Definition category_index (c : AttemptFailureCategory) : N :=
  match c with
  | AfTimedOut => 0 | AfStartFailure => 1 | AfNonZeroExit => 2 | AfSignaled => 3
  | AfMissingRequiredOutput => 4 | AfCancelled => 5 | AfExecutionError => 6
  end.

#[global] Program Instance AttemptFailureCategory_countable : Countable AttemptFailureCategory :=
  inj_countable category_index
    (fun n => List.nth_error [AfTimedOut; AfStartFailure; AfNonZeroExit; AfSignaled;
                 AfMissingRequiredOutput; AfCancelled; AfExecutionError] (N.to_nat n)) _.
Next Obligation. by intros []. Qed.

#[global] Program Instance AttemptFailureCategory_ordered : Ordered AttemptFailureCategory :=
  {| ord_le x y := (category_index x <= category_index y)%N |}.
Next Obligation. intros x y. cbn. apply _. Defined.
Next Obligation.
  split; [split|].
  - intros x. lia.
  - intros x y z ? ?. lia.
  - intros x y ? ?. assert (E : category_index x = category_index y) by lia. by destruct x, y.
Qed.
Next Obligation. intros x y. cbn. lia. Qed.

Definition AttemptFailureCategory_may_retry (c : AttemptFailureCategory) : bool :=
  match c with AfCancelled | AfExecutionError => false | _ => true end.

Record RetryPolicy := {
  rp_max_attempts : N;
  rp_backoff_ms : option N;
  rp_retry_on : gset AttemptFailureCategory;
}.

#[global] Instance RetryPolicy_eq_dec : EqDecision RetryPolicy.
Proof. solve_decision. Defined.

Definition MAX_ATTEMPTS : N := 32.
Definition MAX_BACKOFF_MS : N := 3600000.

Definition RetryPolicy_validate (p : RetryPolicy) : Result unit :=
  _ ← ensure (negb ((rp_max_attempts p =? 0)%N || (MAX_ATTEMPTS <? rp_max_attempts p)%N))
        (InvalidRunSpec "step {key:?} retry max_attempts must be 1..={}");
  _ ← ensure (negb (MAX_BACKOFF_MS <? default 0 (rp_backoff_ms p))%N)
        (InvalidRunSpec "step {key:?} retry backoff_ms exceeds {}");
  _ ← ensure (negb ((1 <? rp_max_attempts p)%N && bool_decide (rp_retry_on p = ∅)))
        (InvalidRunSpec "step {key:?} retry_on must be non-empty when max_attempts > 1");
  match List.find (fun c => negb (AttemptFailureCategory_may_retry c)) (set_iter (rp_retry_on p)) with
  | Some _ => Err (InvalidRunSpec "step {key:?} failure category {category:?} is not retryable")
  | None => Ok tt
  end.

Definition RetryPolicy_allows (p : RetryPolicy) (c : AttemptFailureCategory) : bool :=
  AttemptFailureCategory_may_retry c && bool_decide (c ∈ rp_retry_on p).

(** ** Step results *)
Record StepAttempt := {
  sa_id : AttemptId;
  sa_number : N;
  sa_run : RunId;
  sa_state : RunState;
  sa_started_at : option UnixMillis;
  sa_finished_at : option UnixMillis;
  sa_failure_category : option AttemptFailureCategory;
  sa_failure : option string;
}.

Record StepResult := {
  sr_key : string;
  sr_run : RunId;
  sr_state : RunState;
  sr_failure : option string;
  sr_attempts : list StepAttempt;
}.

Record WorkflowAdmissionPins := {
  pins_schema_version : N;
  pins_steps : gmap string ComponentAdmissionPin;
}.

#[global] Instance StepAttempt_eq_dec : EqDecision StepAttempt.
Proof. solve_decision. Defined.
#[global] Instance StepResult_eq_dec : EqDecision StepResult.
Proof. solve_decision. Defined.
#[global] Instance WorkflowAdmissionPins_eq_dec : EqDecision WorkflowAdmissionPins.
Proof. solve_decision. Defined.

Definition validate_key (key : string) : Result unit :=
  ensure (valid_slug key)
    (InvalidRunSpec "step key {key:?} must match [a-z0-9][a-z0-9_-]{{0,63}}").

Definition validate_output_ref_name (output : string) : Result unit :=
  ensure (negb (bool_decide (output = "")) && (slen output <=? 128)%N &&
          forallb (fun c => negb (is_whitespace c) && negb (is_control c)) (chars output))
    (InvalidRunSpec "output reference {output:?} must be 1..=128 characters without whitespace").

Section workflow.
Context `{JsonLib}.

Record Step := {
  step_key : string;
  step_component : ComponentId;
  step_capability : CapabilityName;
  step_parameters : gmap string Value;
  step_inputs : gmap string InputSource;
  step_timeout_ms : N;
  step_after : list string;
  step_retry : option RetryPolicy;
}.

Record WorkflowSpec := {
  ws_schema_version : N;
  ws_name : string;
  ws_max_concurrency : N;
  ws_steps : list Step;
}.

#[global] Instance Step_eq_dec : EqDecision Step.
Proof. solve_decision. Defined.
#[global] Instance WorkflowSpec_eq_dec : EqDecision WorkflowSpec.
Proof. solve_decision. Defined.

Definition WorkflowAdmissionPins_validate (p : WorkflowAdmissionPins) (spec : WorkflowSpec)
    : Result unit :=
  _ ← ensure (pins_schema_version p =? WORKFLOW_ADMISSION_SCHEMA_VERSION)%N
        (InvalidRunSpec "unsupported workflow admission schema_version {}: expected {}");
  let expected : gset string := list_to_set (step_key <$> ws_steps spec) in
  let actual : gset string := dom (pins_steps p) in
  ensure (bool_decide (expected = actual))
    (InvalidRunSpec "workflow admission pins must cover every step exactly; missing={missing:?}, extra={extra:?}").

(** The dependency set of one step: its [after] entries and the steps it
    consumes from. *)
Definition step_deps (s : Step) : gset string :=
  foldl (fun deps source =>
           match source with FromStep key _ => {[key]} ∪ deps | Artifact _ => deps end)
    (list_to_set (step_after s)) (map_values (step_inputs s)).

(** First loop of [WorkflowSpec::validate]: what is checked of a step after
    its key has been found new. *)
Definition validate_step_local (step : Step) : Result unit :=
  _ ← ensure (negb (step_timeout_ms step =? 0)%N)
        (InvalidRunSpec "step {:?} timeout_ms must be at least 1");
  _ ← match step_retry step with
      | Some retry => RetryPolicy_validate retry
      | None => Ok tt
      end;
  forM_ (fun dep => ensure (negb (bool_decide (dep = step_key step)))
                      (InvalidRunSpec "step {:?} depends on itself")) (step_after step).

(** Second loop: references target declared, other keys. *)
Definition validate_step_refs (seen : gset string) (step : Step) : Result unit :=
  _ ← forM_ (fun dep => ensure (bool_decide (dep ∈ seen))
                          (InvalidRunSpec "step {:?} depends on unknown step {dep:?}"))
        (step_after step);
  forM_ (fun source =>
    match source with
    | FromStep key output =>
        _ ← ensure (negb (bool_decide (key = step_key step)))
              (InvalidRunSpec "step {:?} consumes its own output through input {input_name:?}");
        _ ← ensure (bool_decide (key ∈ seen))
              (InvalidRunSpec "input {input_name:?} of step {:?} references unknown step {key:?}");
        validate_output_ref_name output
    | Artifact _ => Ok tt
    end) (map_values (step_inputs step)).

(** The graph of a specification, as [validate] and [topo_keys] build it:
    all nodes, then for every step one edge from each dependency. *)
Definition WorkflowSpec_build_dag (s : WorkflowSpec) : Result (Dag unit) :=
  dag ← foldM (fun dag step => Dag_add_node dag (step_key step) tt DagLimits_default)
          Dag_new (ws_steps s);
  foldM (fun dag step =>
           foldM (fun dag dep =>
                    map_err (fun e => InvalidRunSpec (CoreError_to_string e))
                      (Dag_add_edge dag dep (step_key step) DagLimits_default))
             dag (set_iter (step_deps step)))
    dag (ws_steps s).

Definition WorkflowSpec_validate (s : WorkflowSpec) : Result unit :=
  _ ← ensure (ws_schema_version s =? WORKFLOW_SCHEMA_VERSION)%N
        (InvalidRunSpec "unsupported workflow schema_version {}: expected {}");
  _ ← ensure (negb (bool_decide (ws_name s = "") || (128 <? slen (ws_name s))%N ||
                    contains_byte nul (ws_name s)))
        (InvalidRunSpec "workflow name must be 1..=128 characters");
  _ ← ensure (negb ((ws_max_concurrency s =? 0)%N ||
                    (MAX_WORKFLOW_CONCURRENCY <? ws_max_concurrency s)%N))
        (InvalidRunSpec "workflow max_concurrency must be 1..={MAX_WORKFLOW_CONCURRENCY}");
  let limits := DagLimits_default in
  _ ← ensure (len (ws_steps s) <=? max_nodes limits)%N
        (InvalidRunSpec "{} steps exceeds the maximum of {}");
  _ ← ensure (negb (bool_decide (ws_steps s = [])))
        (InvalidRunSpec "workflow must contain at least one step");
  seen ← foldM (fun seen step =>
           _ ← validate_key (step_key step);
           seen ← insert_seen seen (step_key step) (InvalidRunSpec "duplicate step key {:?}");
           _ ← validate_step_local step;
           Ok seen) (∅ : gset string) (ws_steps s);
  _ ← forM_ (validate_step_refs seen) (ws_steps s);
  dag ← WorkflowSpec_build_dag s;
  match Dag_topological_order dag with
  | Ok _ => Ok tt
  | Err e => Err (InvalidRunSpec (CoreError_to_string e))
  end.

Definition WorkflowSpec_concurrency_limit (s : WorkflowSpec) : N := ws_max_concurrency s.

Definition WorkflowSpec_dependencies (s : WorkflowSpec) : gmap string (gset string) :=
  collect_map step_key step_deps (ws_steps s).

Definition WorkflowSpec_topo_keys (s : WorkflowSpec) : Result (list string) :=
  dag ← WorkflowSpec_build_dag s;
  order ← Dag_topological_order dag;
  Ok order.*1.

Definition WorkflowSpec_step_run_spec (step : Step) (resolved : gmap string ArtifactId) : RunSpec :=
  {| spec_component := step_component step;
     spec_capability := step_capability step;
     spec_parameters := step_parameters step;
     spec_inputs := (fun na => {| in_name := na.1; in_artifact := na.2 |}) <$> map_iter resolved;
     spec_timeout_ms := step_timeout_ms step |}.

(** ** Records *)
Record WorkflowRecord := {
  wr_id : WorkflowId;
  wr_spec : WorkflowSpec;
  wr_admission : option WorkflowAdmissionPins;
  wr_state : WorkflowState;
  wr_model_version : Version;
  wr_created_at : UnixMillis;
  wr_started_at : option UnixMillis;
  wr_finished_at : option UnixMillis;
  wr_cancel_requested_at : option UnixMillis;
  wr_steps : list StepResult;
  wr_failure : option string;
}.

#[global] Instance WorkflowRecord_eq_dec : EqDecision WorkflowRecord.
Proof. solve_decision. Defined.

(** [fresh] is the value of [WorkflowId::generate()]. *)
Definition WorkflowRecord_create_with_admission (fresh : N) (spec : WorkflowSpec)
    (model_version : Version) (now : UnixMillis) (admission : option WorkflowAdmissionPins)
    : Result WorkflowRecord :=
  _ ← WorkflowSpec_validate spec;
  _ ← match admission with
      | Some pins => WorkflowAdmissionPins_validate pins spec
      | None => Ok tt
      end;
  Ok {| wr_id := from_uuid fresh; wr_spec := spec; wr_admission := admission;
        wr_state := WsCreated; wr_model_version := model_version; wr_created_at := now;
        wr_started_at := None; wr_finished_at := None; wr_cancel_requested_at := None;
        wr_steps := []; wr_failure := None |}.

Definition WorkflowRecord_create (fresh : N) (spec : WorkflowSpec) (model_version : Version)
    (now : UnixMillis) : Result WorkflowRecord :=
  WorkflowRecord_create_with_admission fresh spec model_version now None.

Definition WorkflowRecord_transition (w : WorkflowRecord) (to : WorkflowState) (now : UnixMillis)
    : WorkflowRecord * Result unit :=
  let from := wr_state w in
  if negb (WorkflowState_can_transition_to from to)
  then (w, Err (InvalidWorkflowTransition from to))
  else
    ({| wr_id := wr_id w; wr_spec := wr_spec w; wr_admission := wr_admission w;
        wr_state := to; wr_model_version := wr_model_version w;
        wr_created_at := wr_created_at w;
        wr_started_at := if bool_decide (to = WsRunning)
                         then get_or_insert (wr_started_at w) now else wr_started_at w;
        wr_finished_at := if WorkflowState_is_terminal to then Some now else wr_finished_at w;
        wr_cancel_requested_at := wr_cancel_requested_at w;
        wr_steps := wr_steps w; wr_failure := wr_failure w |}, Ok tt).

(** ** What validation accepts *)

(** [u] must run before [v]. *)
Definition depends (s : WorkflowSpec) (u v : string) : Prop :=
  exists step, step ∈ ws_steps s /\ step_key step = v /\ u ∈ step_deps step.

Definition spec_keys (s : WorkflowSpec) : list string := step_key <$> ws_steps s.

(** The dependency edges, in the order the code adds them. *)
Definition spec_edges (s : WorkflowSpec) : list (string * string) :=
  ws_steps s ≫= fun step => (fun dep => (dep, step_key step)) <$> set_iter (step_deps step).

Record retry_wf (p : RetryPolicy) : Prop := {
  rw_attempts : (1 <= rp_max_attempts p <= 32)%N;
  rw_backoff : (default 0 (rp_backoff_ms p) <= 3600000)%N;
  rw_nonempty : (1 < rp_max_attempts p)%N -> rp_retry_on p <> ∅;
  rw_retryable : forall c, c ∈ rp_retry_on p -> c <> AfCancelled /\ c <> AfExecutionError;
}.

Record step_wf (step : Step) : Prop := {
  sw_key : valid_slug (step_key step) = true;
  sw_timeout : (1 <= step_timeout_ms step)%N;
  sw_retry : forall p, step_retry step = Some p -> retry_wf p;
  sw_refs : forall n key output, step_inputs step !! n = Some (FromStep key output) ->
    validate_output_ref_name output = Ok tt;
}.

Record workflow_wf (s : WorkflowSpec) : Prop := {
  ww_schema : ws_schema_version s = 1%N;
  ww_name : ws_name s <> "" /\ (slen (ws_name s) <= 128)%N /\ contains_byte nul (ws_name s) = false;
  ww_concurrency : (1 <= ws_max_concurrency s <= 64)%N;
  ww_steps : (1 <= len (ws_steps s) <= 1024)%N;
  ww_step : forall step, step ∈ ws_steps s -> step_wf step;
  ww_unique : NoDup (spec_keys s);
  ww_declared : forall u v, depends s u v -> u ∈ spec_keys s;
  ww_edges : (len (spec_edges s) <= 4096)%N;
  ww_acyclic : forall u, ~ tc (depends s) u u;
}.

Lemma elem_of_step_deps step u :
  u ∈ step_deps step <->
  u ∈ step_after step \/ exists n output, step_inputs step !! n = Some (FromStep u output).
Proof.
  unfold step_deps.
  assert (Hfold : forall l (X : gset string),
    u ∈ foldl (fun deps source => match source with
                 FromStep key _ => {[key]} ∪ deps | Artifact _ => deps end) X l <->
    u ∈ X \/ exists output, FromStep u output ∈ l).
  { induction l as [|src l IH]; intros X; cbn; [set_solver|]. rewrite IH.
    setoid_rewrite elem_of_cons. destruct src; set_solver. }
  rewrite Hfold, elem_of_list_to_set. setoid_rewrite elem_of_map_values. naive_solver.
Qed.

Lemma elem_of_spec_edges s u v : (u, v) ∈ spec_edges s <-> depends s u v.
Proof.
  unfold spec_edges, depends. rewrite list_elem_of_bind. split.
  - intros (step & (dep & [= -> ->] & Hd)%list_elem_of_fmap & Hs).
    exists step. by rewrite elem_of_set_iter in Hd.
  - intros (step & Hs & <- & Hd). exists step. split; [|done].
    apply list_elem_of_fmap. exists u. by rewrite elem_of_set_iter.
Qed.

Lemma NoDup_spec_edges s : NoDup (spec_keys s) -> NoDup (spec_edges s).
Proof.
  unfold spec_keys, spec_edges. induction (ws_steps s) as [|st l IH]; [constructor|].
  cbn. intros [Hni Hnd]%NoDup_cons. apply NoDup_app. split_and!.
  - apply NoDup_fmap_2; [intros ? ? [=]; done|apply NoDup_set_iter].
  - intros [u v] (d & [= -> ->] & _)%list_elem_of_fmap.
    intros (st' & (d' & [= _ Hk] & _)%list_elem_of_fmap & Hin)%list_elem_of_bind.
    apply Hni. rewrite Hk. by apply list_elem_of_fmap_2.
  - by apply IH.
Qed.

Lemma build_nodes_Ok (d : Dag unit) steps :
  (N.of_nat (size (dag_nodes d)) + len steps <= max_nodes DagLimits_default)%N ->
  exists d', foldM (fun dag step => Dag_add_node dag (step_key step) tt DagLimits_default) d steps
      = Ok d' /\
    dom (dag_nodes d') = list_to_set (step_key <$> steps) ∪ dom (dag_nodes d) /\
    dag_edges d' = dag_edges d.
Proof.
  revert d; induction steps as [|st steps IH]; intros d Hle.
  - exists d. split_and!; [done| |done]. cbn. apply leibniz_equiv. set_solver.
  - cbn [foldM]. rewrite Dag_add_node_room
      by (unfold Dag_node_count, len in *; cbn [length] in Hle; lia).
    cbn [mbind result_bind].
    destruct (IH (mkDag (<[step_key st:=tt]> (dag_nodes d)) (dag_edges d))) as (d' & Hrun & Hd & He).
    { cbn [dag_nodes]. unfold len in *. cbn [length] in Hle.
      destruct (dag_nodes d !! step_key st) eqn:E.
      - rewrite map_size_insert_Some by eauto. lia.
      - rewrite map_size_insert_None by done. lia. }
    exists d'. split_and!; [done| |done]. rewrite Hd. cbn. rewrite dom_insert_L.
    apply leibniz_equiv. set_solver.
Qed.

(** The graph the code builds is the dependency relation. *)
Lemma build_dag_spec s d :
  NoDup (spec_keys s) -> (len (ws_steps s) <= 1024)%N -> WorkflowSpec_build_dag s = Ok d ->
  dom (dag_nodes d) = list_to_set (spec_keys s) /\
  (forall u v, edge (dag_edges d) u v <-> depends s u v) /\ Dag_wf d.
Proof.
  intros Hnd Hlen. unfold WorkflowSpec_build_dag. intros (d0 & H0 & H1)%bind_Ok.
  destruct (build_nodes_Ok Dag_new (ws_steps s)) as (d0' & H0' & Hdom & He);
    [change (N.of_nat (size (dag_nodes Dag_new))) with 0%N; cbn [max_nodes DagLimits_default]; lia|]. rewrite H0 in H0'. injection H0' as <-.
  rewrite (foldM_nested (fun dag e => map_err (fun e => InvalidRunSpec (CoreError_to_string e))
    (Dag_add_edge dag e.1 e.2 DagLimits_default)) (fun step dep => (dep, step_key step))) in H1.
  rewrite foldM_map_err in H1. apply map_err_Ok in H1.
  apply (Dag_add_edges_Ok DagLimits_default) in H1 as (Hn & Hedge & Hwf).
  split_and!.
  - rewrite Hn, Hdom. cbn. rewrite dom_empty_L. apply leibniz_equiv. set_solver.
  - intros u v. rewrite Hedge. unfold edge_or, edge. rewrite He, <- elem_of_spec_edges.
    unfold succs. cbn. rewrite lookup_empty. cbn. set_solver.
  - apply Hwf. split.
    + intros u v. unfold edge, succs. rewrite He. cbn. rewrite lookup_empty. cbn. set_solver.
    + rewrite He. apply Dag_new_wf.
Qed.

Lemma build_dag_iff s :
  NoDup (spec_keys s) -> (len (ws_steps s) <= 1024)%N ->
  (exists d, WorkflowSpec_build_dag s = Ok d) <->
  (forall u v, depends s u v -> u ∈ spec_keys s) /\
  (len (spec_edges s) <= 4096)%N /\ (forall u, ~ tc (depends s) u u).
Proof.
  intros Hnd Hlen. unfold WorkflowSpec_build_dag.
  destruct (build_nodes_Ok Dag_new (ws_steps s)) as (d0 & -> & Hdom & He);
    [change (N.of_nat (size (dag_nodes Dag_new))) with 0%N; cbn [max_nodes DagLimits_default]; lia|]. cbn [mbind result_bind].
  rewrite (foldM_nested (fun dag e => map_err (fun e => InvalidRunSpec (CoreError_to_string e))
    (Dag_add_edge dag e.1 e.2 DagLimits_default)) (fun step dep => (dep, step_key step))).
  rewrite foldM_map_err. setoid_rewrite map_err_Ok.
  assert (Hed : forall u v, ~ edge (dag_edges d0) u v).
  { intros u v. unfold edge, succs. rewrite He. cbn. rewrite lookup_empty. cbn. set_solver. }
  assert (Hor : forall u v, edge_or d0 (spec_edges s) u v <-> depends s u v).
  { intros u v. unfold edge_or. rewrite elem_of_spec_edges. naive_solver. }
  assert (Hc0 : Dag_edge_count d0 = 0%N) by (unfold Dag_edge_count; rewrite He; done).
  assert (Hkeys : forall k, k ∈ dom (dag_nodes d0) <-> k ∈ spec_keys s).
  { intros k. rewrite Hdom. cbn. rewrite dom_empty_L. unfold spec_keys. set_solver. }
  pose proof (Dag_add_edges_iff DagLimits_default d0 (spec_edges s)) as Hiff.
  unfold Dag_add_edges in Hiff. unfold spec_edges in Hiff at 3. rewrite Hiff; clear Hiff.
  - rewrite Hc0. setoid_rewrite elem_of_spec_edges. setoid_rewrite Hkeys.
    assert (Htc : (forall u, ~ tc (edge_or d0 (spec_edges s)) u u) <->
                  (forall u, ~ tc (depends s) u u)).
    { split; intros Hac u Hu; apply (Hac u); (eapply tc_mono; [|exact Hu]); intros; by apply Hor. }
    rewrite Htc. cbn [max_edges DagLimits_default]. split.
    + intros (Hd & Ha & Hl). split_and!; [|lia|done]. intros u v Huv. by apply (Hd u v).
    + intros (Hd & Hl & Ha). split_and!; [|done|lia]. intros u v Huv. split; [by eapply Hd|].
      destruct Huv as (st & Hst & <- & _). by apply list_elem_of_fmap_2.
  - split.
    + intros u v Huv. by apply Hed in Huv.
    + rewrite He. apply Dag_new_wf.
  - by apply NoDup_spec_edges.
  - intros u v _. apply Hed.
  - rewrite Hc0. cbn. lia.
Qed.

Lemma RetryPolicy_validate_Ok p : RetryPolicy_validate p = Ok tt <-> retry_wf p.
Proof.
  unfold RetryPolicy_validate, MAX_ATTEMPTS, MAX_BACKOFF_MS.
  assert (Hfind : (List.find (fun c => negb (AttemptFailureCategory_may_retry c))
                     (set_iter (rp_retry_on p)) = None) <->
    forall c, c ∈ rp_retry_on p -> c <> AfCancelled /\ c <> AfExecutionError).
  { split.
    - intros Hf c Hc. assert (Hb : negb (AttemptFailureCategory_may_retry c) = false).
      { apply (List.find_none _ _ Hf). by rewrite <- list_elem_of_In, elem_of_set_iter. }
      by destruct c.
    - intros Hall. destruct (List.find _ _) as [c|] eqn:E; [|done].
      apply find_Some_elem in E as [Hin%elem_of_set_iter Hb]. apply Hall in Hin.
      destruct c; naive_solver. }
  split.
  - intros Hrun. ok_inv. bool_inv. case_match eqn:E; [done|]. split; try lia.
    + intros Hlt Hemp. match goal with H : _ && _ = false |- _ => revert H end.
      rewrite (proj2 (N.ltb_lt _ _) Hlt), Hemp. done.
    + by apply Hfind.
  - intros [Ha Hb Hn Hr]. rewrite !bind_ensure.
    + by rewrite (proj2 Hfind Hr).
    + destruct (N.ltb_spec 1 (rp_max_attempts p)); [|done].
      by rewrite bool_decide_eq_false_2 by auto.
    + apply negb_true_iff, N.ltb_ge. lia.
    + apply negb_true_iff, orb_false_iff. rewrite N.eqb_neq, N.ltb_ge. lia.
Qed.

Lemma validate_step_local_Ok step :
  validate_step_local step = Ok tt <->
  (1 <= step_timeout_ms step)%N /\
  (forall p, step_retry step = Some p -> retry_wf p) /\
  step_key step ∉ step_after step.
Proof.
  unfold validate_step_local. rewrite bind_Ok. setoid_rewrite bind_Ok.
  setoid_rewrite ensure_Ok. setoid_rewrite forM_Ok. setoid_rewrite ensure_Ok.
  setoid_rewrite Forall_forall. setoid_rewrite negb_true_iff. setoid_rewrite N.eqb_neq.
  setoid_rewrite bool_decide_eq_false.
  assert (Hretry : forall u, match step_retry step with
      | Some retry => RetryPolicy_validate retry | None => Ok tt end = Ok u <->
    forall p, step_retry step = Some p -> retry_wf p).
  { intros []. destruct (step_retry step) as [p|]; [|naive_solver].
    rewrite RetryPolicy_validate_Ok. naive_solver. }
  setoid_rewrite Hretry. split.
  - intros (_ & Ht & _ & Hr & Hself). split_and!; [lia|done|]. intros Hin. by apply (Hself _ Hin).
  - intros (Ht & Hr & Hself). exists tt. split; [lia|]. exists tt. split; [done|]. naive_solver.
Qed.

Lemma validate_step_refs_Ok seen step :
  validate_step_refs seen step = Ok tt /\ step_key step ∉ step_after step <->
  step_key step ∉ step_deps step /\ (forall u, u ∈ step_deps step -> u ∈ seen) /\
  (forall n key output, step_inputs step !! n = Some (FromStep key output) ->
     validate_output_ref_name output = Ok tt).
Proof.
  assert (Hinputs : forall u, forM_ (fun source =>
    match source with
    | FromStep key output =>
        _ ← ensure (negb (bool_decide (key = step_key step)))
              (InvalidRunSpec "step {:?} consumes its own output through input {input_name:?}");
        _ ← ensure (bool_decide (key ∈ seen))
              (InvalidRunSpec "input {input_name:?} of step {:?} references unknown step {key:?}");
        validate_output_ref_name output
    | Artifact _ => Ok tt
    end) (map_values (step_inputs step)) = Ok u <->
    forall n key output, step_inputs step !! n = Some (FromStep key output) ->
      key <> step_key step /\ key ∈ seen /\ validate_output_ref_name output = Ok tt).
  { intros u. rewrite forM_Ok, Forall_forall. split.
    - intros Hall n key output Hn.
      specialize (Hall (FromStep key output) (proj2 (elem_of_map_values _ _) (ex_intro _ n Hn))).
      cbn beta iota in Hall. ok_inv. bool_inv. done.
    - intros Hall src [n Hn]%elem_of_map_values. destruct src as [|key output]; [done|].
      destruct (Hall _ _ _ Hn) as (Hk & Hs & Ho).
      rewrite !bind_ensure; [done|by apply bool_decide_eq_true|].
      by apply negb_true_iff, bool_decide_eq_false. }
  unfold validate_step_refs. rewrite bind_Ok. setoid_rewrite Hinputs. setoid_rewrite forM_Ok.
  setoid_rewrite Forall_forall. setoid_rewrite ensure_Ok. setoid_rewrite bool_decide_eq_true.
  setoid_rewrite elem_of_step_deps. split.
  - intros ((_ & Haft & Hin) & Hself). split_and!; [naive_solver..|]. naive_solver.
  - intros (Hself & Hdep & Hout). split; [|naive_solver]. exists tt. naive_solver.
Qed.

Lemma validate_refs_all_Ok s seen :
  (forall step, step ∈ ws_steps s -> validate_step_local step = Ok tt) ->
  seen = list_to_set (spec_keys s) ->
  forM_ (validate_step_refs seen) (ws_steps s) = Ok tt <->
  forall step, step ∈ ws_steps s ->
    step_key step ∉ step_deps step /\ (forall u, u ∈ step_deps step -> u ∈ spec_keys s) /\
    (forall n key output, step_inputs step !! n = Some (FromStep key output) ->
       validate_output_ref_name output = Ok tt).
Proof.
  intros Hloc ->. rewrite forM_Ok, Forall_forall.
  assert (Heq : forall step, step ∈ ws_steps s ->
    validate_step_refs (list_to_set (spec_keys s)) step = Ok tt <->
    step_key step ∉ step_deps step /\ (forall u, u ∈ step_deps step -> u ∈ spec_keys s) /\
    (forall n key output, step_inputs step !! n = Some (FromStep key output) ->
       validate_output_ref_name output = Ok tt)).
  { intros step Hs. pose proof (validate_step_refs_Ok (list_to_set (spec_keys s)) step) as Hr.
    setoid_rewrite elem_of_list_to_set in Hr. rewrite <- Hr.
    apply Hloc, validate_step_local_Ok in Hs as (_ & _ & ?). naive_solver. }
  split; intros Hall step Hs; by apply Heq, Hall.
Qed.

Lemma workflow_validate_wf s : WorkflowSpec_validate s = Ok tt -> workflow_wf s.
Proof.
  unfold WorkflowSpec_validate, MAX_WORKFLOW_CONCURRENCY. cbv zeta. cbn [max_nodes DagLimits_default].
  intros Hrun. ok_inv. bool_inv.
  repeat match goal with u : unit |- _ => destruct u end.
  match goal with H : foldM _ _ _ = Ok _ |- _ =>
    apply (foldM_unique_checks_Ok (fun st => validate_key (step_key st)) validate_step_local) in H
    as (Hall & Hnd & _ & Hseen) end.
  rewrite Forall_forall in Hall. fold (spec_keys s) in Hseen, Hnd.
  rewrite union_empty_r_L in Hseen.
  match goal with H : forM_ (validate_step_refs ?X) _ = Ok _ |- _ =>
    pose proof (proj1 (validate_refs_all_Ok s X (fun st Hs => proj2 (Hall st Hs)) Hseen) H)
      as Hrefs end.
  match goal with H : WorkflowSpec_build_dag s = Ok ?d |- _ =>
    destruct (proj1 (build_dag_iff s Hnd ltac:(lia)) (ex_intro _ d H)) as (Hdecl & Hedges & Hac) end.
  split; try done.
  - lia.
  - split; [|done]. match goal with H : ws_steps s <> [] |- _ => revert H end.
    unfold len. destruct (ws_steps s); [done|]. cbn [length]. lia.
  - intros step Hs. destruct (Hall step Hs) as [Hk (Ht & Hretry & _)%validate_step_local_Ok].
    apply ensure_Ok in Hk. destruct (Hrefs step Hs) as (_ & _ & ?). by split.
Qed.

Lemma workflow_wf_validate s : workflow_wf s -> WorkflowSpec_validate s = Ok tt.
Proof.
  intros [Hsc (Hn1 & Hn2 & Hn3) Hco Hst Hstep Hnd Hdecl Hedges Hac].
  assert (Hself : forall step, step ∈ ws_steps s -> step_key step ∉ step_deps step).
  { intros step Hs Hin. apply (Hac (step_key step)). constructor. by exists step. }
  assert (Hloc : forall step, step ∈ ws_steps s -> validate_step_local step = Ok tt).
  { intros step Hs. apply validate_step_local_Ok. destruct (Hstep step Hs) as [_ Ht Hr _].
    split_and!; [done|done|]. intros Hin. apply (Hself step Hs), elem_of_step_deps. by left. }
  destruct (proj2 (build_dag_iff s Hnd ltac:(lia))) as [d Hd]; [done|].
  destruct (build_dag_spec s d Hnd ltac:(lia) Hd) as (_ & _ & Hcl & Hacd).
  destruct (topological_order_acyclic d Hcl Hacd) as (order & Htopo & _).
  unfold WorkflowSpec_validate, MAX_WORKFLOW_CONCURRENCY. cbv zeta.
  cbn [max_nodes DagLimits_default].
  rewrite !bind_ensure; cycle 1.
  { apply negb_true_iff, bool_decide_eq_false. intros Hnil. rewrite Hnil in Hst.
    unfold len in Hst. cbn [length] in Hst. lia. }
  { apply N.leb_le. lia. }
  { apply negb_true_iff, orb_false_iff. rewrite N.eqb_neq, N.ltb_ge. lia. }
  { apply negb_true_iff. rewrite !orb_false_iff, bool_decide_eq_false, N.ltb_ge. done. }
  { by apply N.eqb_eq. }
  apply bind_Ok. exists (list_to_set (spec_keys s) ∪ ∅). split.
  { apply (foldM_unique_checks_Ok (fun st => validate_key (step_key st)) validate_step_local).
    split_and!; [|done|set_solver|done]. apply Forall_forall. intros step Hs.
    split; [|by apply Hloc]. apply ensure_Ok. apply (Hstep step Hs). }
  apply bind_Ok. exists tt. split.
  { apply validate_refs_all_Ok; [done|apply leibniz_equiv; set_solver|].
    intros step Hs. split_and!; [by apply Hself| |apply (Hstep step Hs)].
    intros u Hu. apply (Hdecl u (step_key step)). by exists step. }
  apply bind_Ok. exists d. by rewrite Htopo.
Qed.

(** ** The execution order *)

(** [k] may run once exactly the keys in [before] have run. *)
Definition step_ready (s : WorkflowSpec) (before : list string) (k : string) : Prop :=
  k ∈ spec_keys s /\ k ∉ before /\ forall u, depends s u k -> u ∈ before.

Definition deterministic_order (s : WorkflowSpec) (order : list string) : Prop :=
  order ≡ₚ spec_keys s /\
  forall pre k post, order = pre ++ k :: post ->
    step_ready s pre k /\ forall j, step_ready s pre j -> ord_le k j.

Lemma topo_keys_kahn s order :
  workflow_wf s -> WorkflowSpec_topo_keys s = Ok order <->
  exists d, WorkflowSpec_build_dag s = Ok d /\ is_kahn_order d order.
Proof.
  intros Hwf. pose proof (ww_steps s Hwf) as Hlen. pose proof (ww_unique s Hwf) as Hnd.
  unfold WorkflowSpec_topo_keys. split.
  - intros (d & Hd & (l & Hl & [= <-])%bind_Ok)%bind_Ok. exists d. split; [done|].
    destruct (build_dag_spec s d Hnd ltac:(lia) Hd) as (_ & _ & Hcl & _).
    by eapply topological_order_Ok_acyclic.
  - intros (d & Hd & Hk). apply bind_Ok. exists d. split; [done|].
    destruct (build_dag_spec s d Hnd ltac:(lia) Hd) as (_ & _ & Hcl & Hac).
    destruct (topological_order_acyclic d Hcl Hac) as (l & Hl & Hk' & _).
    apply bind_Ok. exists l. split; [done|]. f_equal. by eapply least_ready_order_unique.
Qed.

Lemma kahn_order_steps s d order :
  workflow_wf s -> WorkflowSpec_build_dag s = Ok d ->
  is_kahn_order d order <-> deterministic_order s order.
Proof.
  intros Hwf Hd. pose proof (ww_steps s Hwf) as Hlen. pose proof (ww_unique s Hwf) as Hnd.
  destruct (build_dag_spec s d Hnd ltac:(lia) Hd) as (Hdom & He & _).
  assert (Hready : forall pre k, ready_after d pre k <-> step_ready s pre k).
  { intros pre k. unfold ready_after, step_ready. rewrite Hdom, elem_of_list_to_set.
    by setoid_rewrite He. }
  unfold is_kahn_order, deterministic_order, least_ready_order. setoid_rewrite Hready.
  assert (elements (dom (dag_nodes d)) ≡ₚ spec_keys s) as ->; [|done].
  rewrite Hdom. by apply elements_list_to_set.
Qed.

Lemma topo_keys_deterministic s order :
  workflow_wf s -> WorkflowSpec_topo_keys s = Ok order <-> deterministic_order s order.
Proof.
  intros Hwf. rewrite topo_keys_kahn by done.
  destruct (proj2 (build_dag_iff s (ww_unique s Hwf) (proj2 (ww_steps s Hwf)))) as [d Hd];
    [by destruct Hwf|]. split.
  - intros (d' & Hd' & Hk). by eapply kahn_order_steps.
  - intros Ho. exists d. split; [done|]. by apply (kahn_order_steps s d).
Qed.

Lemma topo_keys_total s : workflow_wf s -> exists order, WorkflowSpec_topo_keys s = Ok order.
Proof.
  intros Hwf. destruct (proj2 (build_dag_iff s (ww_unique s Hwf) (proj2 (ww_steps s Hwf))))
    as [d Hd]; [by destruct Hwf|].
  destruct (build_dag_spec s d (ww_unique s Hwf) (proj2 (ww_steps s Hwf)) Hd) as (_ & _ & Hcl & Hac).
  destruct (topological_order_acyclic d Hcl Hac) as (l & Hl & _).
  exists l.*1. unfold WorkflowSpec_topo_keys. rewrite Hd. cbn. by rewrite Hl.
Qed.

(** The dependency map used by the scheduler. *)
Lemma dependencies_lookup s k deps :
  NoDup (spec_keys s) ->
  WorkflowSpec_dependencies s !! k = Some deps <->
  exists step, step ∈ ws_steps s /\ step_key step = k /\ step_deps step = deps.
Proof.
  apply collect_map_lookup.
Qed.

Lemma first_not_in (X : gset string) (l : list string) :
  (exists k, k ∈ l /\ k ∉ X) ->
  exists pre k post, l = pre ++ k :: post /\ k ∉ X /\ forall j, j ∈ pre -> j ∈ X.
Proof.
  induction l as [|x l IH]; intros (k & Hk & Hn); [set_solver|].
  destruct (decide (x ∈ X)) as [Hx|Hx].
  - destruct IH as (pre & k' & post & -> & Hk' & Hpre); [exists k; set_solver|].
    exists (x :: pre), k', post. split_and!; [done|done|set_solver].
  - exists [], x, l. set_solver.
Qed.

(** ** Records under calls *)
Definition workflow_calls (w : WorkflowRecord) (calls : list (WorkflowState * UnixMillis))
    : WorkflowRecord :=
  foldl (fun w c => (WorkflowRecord_transition w c.1 c.2).1) w calls.

(** The timestamps that go with a state. *)
Definition workflow_times_ok (w : WorkflowRecord) : Prop :=
  match wr_state w with
  | WsCreated => wr_started_at w = None /\ wr_finished_at w = None
  | WsRunning => is_Some (wr_started_at w) /\ wr_finished_at w = None
  | WsSucceeded | WsFailed => is_Some (wr_started_at w) /\ is_Some (wr_finished_at w)
  | WsCancelled => is_Some (wr_finished_at w)
  end.

Definition same_workflow (w w' : WorkflowRecord) : Prop :=
  wr_id w' = wr_id w /\ wr_spec w' = wr_spec w /\ wr_admission w' = wr_admission w /\
  wr_model_version w' = wr_model_version w /\ wr_created_at w' = wr_created_at w /\
  wr_cancel_requested_at w' = wr_cancel_requested_at w /\ wr_steps w' = wr_steps w /\
  wr_failure w' = wr_failure w /\
  (is_Some (wr_started_at w) -> wr_started_at w' = wr_started_at w).

Lemma workflow_step w to now :
  let w' := (WorkflowRecord_transition w to now).1 in
  (workflow_times_ok w -> workflow_times_ok w') /\ same_workflow w w' /\
  (WorkflowState_is_terminal (wr_state w) = true -> w' = w).
Proof.
  unfold WorkflowRecord_transition.
  destruct (WorkflowState_can_transition_to (wr_state w) to) eqn:E; cbn [negb fst].
  - split_and!.
    + unfold workflow_times_ok. cbn.
      destruct (wr_state w), to; try discriminate E; cbn; intros; destruct_and?; try done;
        destruct (wr_started_at w); eauto.
    + unfold same_workflow. cbn. split_and!; try done. intros [t Ht].
      by destruct (bool_decide _); rewrite Ht.
    + intros Ht. by rewrite workflow_terminal_frozen in E.
  - by unfold same_workflow.
Qed.

Lemma same_workflow_trans w1 w2 w3 :
  same_workflow w1 w2 -> same_workflow w2 w3 -> same_workflow w1 w3.
Proof.
  unfold same_workflow. intros (?&?&?&?&?&?&?&?&Ha) (?&?&?&?&?&?&?&?&Hb).
  split_and!; try congruence. intros Hs. rewrite Hb by (by rewrite Ha). by apply Ha.
Qed.

Lemma workflow_calls_inv w calls :
  let w' := workflow_calls w calls in
  (workflow_times_ok w -> workflow_times_ok w') /\ same_workflow w w' /\
  (WorkflowState_is_terminal (wr_state w) = true -> w' = w).
Proof.
  revert w; induction calls as [|[to now] calls IH]; intros w; cbn.
  - by unfold same_workflow.
  - destruct (workflow_step w to now) as (Ht & Hs & Hf).
    destruct (IH (WorkflowRecord_transition w to now).1) as (Ht' & Hs' & Hf').
    split_and!; [auto|by eapply same_workflow_trans|].
    intros Hterm. specialize (Hf Hterm). rewrite Hf in *. auto.
Qed.

(** (C5) Validation decides well-formedness: [validate] accepts exactly the
    specifications with the supported schema, name and concurrency, between 1
    and 1024 steps with distinct well-formed keys, positive timeouts and sound
    retry policies, whose references all name declared steps through
    well-formed output labels, with at most 4096 dependencies and no
    dependency cycle. *)
Theorem workflow_validate_iff s : WorkflowSpec_validate s = Ok tt <-> workflow_wf s.
Proof. split; [apply workflow_validate_wf|apply workflow_wf_validate]. Qed.

(** A validated workflow has an execution order, computed without error:
    it lists every step once, each after everything it depends on, always
    taking the least ready key, and it is the only order with these
    properties. *)
Theorem workflow_topo_keys_spec s :
  WorkflowSpec_validate s = Ok tt ->
  exists order, WorkflowSpec_topo_keys s = Ok order /\ NoDup order /\
    forall order', deterministic_order s order' <-> order' = order.
Proof.
  intros Hwf%workflow_validate_wf. destruct (topo_keys_total s Hwf) as [order Ho].
  exists order. split; [done|]. pose proof Ho as Hd%topo_keys_deterministic; [|done]. split.
  - rewrite (proj1 Hd). apply (ww_unique s Hwf).
  - intros order'. rewrite <- topo_keys_deterministic by done. split; [congruence|by intros ->].
Qed.

(** A ready-set scheduler cannot stall: whatever set of steps has
    completed, while some step of a validated workflow has not, there is a
    step that has not completed and whose whole entry in the dependency map
    has. *)
Lemma workflow_ready_exists s (completed : gset string) k :
  WorkflowSpec_validate s = Ok tt ->
  k ∈ spec_keys s -> k ∉ completed ->
  exists j deps, j ∈ spec_keys s /\ j ∉ completed /\
    WorkflowSpec_dependencies s !! j = Some deps /\ deps ⊆ completed.
Proof.
  intros Hwf%workflow_validate_wf Hk Hn. destruct (topo_keys_total s Hwf) as [order Ho].
  apply topo_keys_deterministic in Ho as [Hperm Hord]; [|done].
  destruct (first_not_in completed order) as (pre & j & post & Heq & Hj & Hpre).
  { exists k. by rewrite Hperm. }
  destruct (Hord _ _ _ Heq) as [(Hjk & _ & Hdep) _].
  apply list_elem_of_fmap in Hjk as (step & -> & Hstep).
  exists (step_key step), (step_deps step). split_and!; [by apply list_elem_of_fmap_2|done| |].
  - apply dependencies_lookup; [apply (ww_unique s Hwf)|]. by exists step.
  - intros u Hu. apply Hpre, Hdep. by exists step.
Qed.

(** Admission is fail-closed: a record is created exactly for
    well-formed specifications whose pins, when given, have the supported
    schema and pin every step key and nothing else; it starts in [Created]
    with no history. *)
Lemma workflow_create_iff fresh spec mv now admission w :
  WorkflowRecord_create_with_admission fresh spec mv now admission = Ok w <->
  workflow_wf spec /\
  (forall pins, admission = Some pins ->
     pins_schema_version pins = 1%N /\ forall k, is_Some (pins_steps pins !! k) <-> k ∈ spec_keys spec) /\
  w = {| wr_id := from_uuid fresh; wr_spec := spec; wr_admission := admission;
         wr_state := WsCreated; wr_model_version := mv; wr_created_at := now;
         wr_started_at := None; wr_finished_at := None; wr_cancel_requested_at := None;
         wr_steps := []; wr_failure := None |}.
Proof.
  assert (Hpins : forall pins, WorkflowAdmissionPins_validate pins spec = Ok tt <->
    pins_schema_version pins = 1%N /\ forall k, is_Some (pins_steps pins !! k) <-> k ∈ spec_keys spec).
  { intros pins. unfold WorkflowAdmissionPins_validate, WORKFLOW_ADMISSION_SCHEMA_VERSION.
    cbv zeta. fold (spec_keys spec).
    assert (Hset : (list_to_set (spec_keys spec) : gset string) = dom (pins_steps pins) <->
      forall k, is_Some (pins_steps pins !! k) <-> k ∈ spec_keys spec).
    { rewrite set_eq. split; intros Heq k; specialize (Heq k);
        rewrite elem_of_list_to_set, elem_of_dom in *; by rewrite Heq. }
    rewrite <- Hset. split.
    - intros Hrun. ok_inv. by bool_inv.
    - intros [-> Hs]. rewrite bind_ensure by done. apply ensure_Ok. by apply bool_decide_eq_true. }
  unfold WorkflowRecord_create_with_admission. rewrite bind_Ok. split.
  - intros ([] & Hv%workflow_validate_wf & Hrest). ok_inv. split_and!; [done| |done].
    intros pins ->. apply Hpins. by destruct r.
  - intros (Hwf%workflow_wf_validate & Hadm & ->). exists tt. split; [done|].
    destruct admission as [pins|]; cbn; [|done]. by rewrite (proj2 (Hpins pins) (Hadm pins eq_refl)).
Qed.

(** Lifecycle of a workflow record: after any sequence of [transition]
    calls on a created record, the timestamps match the state, the start time
    is never rewritten, nothing else has changed, and a terminal record
    ignores every further call. *)
Lemma workflow_record_lifecycle fresh spec mv now admission w0 calls :
  WorkflowRecord_create_with_admission fresh spec mv now admission = Ok w0 ->
  let w := workflow_calls w0 calls in
  workflow_times_ok w /\ same_workflow w0 w /\
  (WorkflowState_is_terminal (wr_state w) = true -> forall more, workflow_calls w more = w).
Proof.
  intros Hc w. unfold WorkflowRecord_create_with_admission in Hc.
  assert (H0 : workflow_times_ok w0) by (ok_inv; done).
  destruct (workflow_calls_inv w0 calls) as (Ht & Hs & _).
  split_and!; [auto|done|]. intros Hterm more. by apply workflow_calls_inv.
Qed.
End workflow.

(** ** Witnesses *)
Definition sample_step (k : string) (after : list string) (inputs : gmap string InputSource)
    : @Step toy_json :=
  {| step_key := k; step_component := from_uuid 7;
     step_capability := mkCapabilityName "linalg.solve";
     step_parameters := (∅ : gmap string (@Value toy_json));
     step_inputs := inputs; step_timeout_ms := 1000; step_after := after;
     step_retry := Some {| rp_max_attempts := 3; rp_backoff_ms := None;
                           rp_retry_on := {[AfTimedOut; AfSignaled]} |} |}.

Definition sample_workflow : @WorkflowSpec toy_json := {|
  ws_schema_version := 1; ws_name := "diamond"; ws_max_concurrency := 2;
  ws_steps := [ sample_step "z" ["m"] {[ "x" := FromStep "b" "stdout" ]};
                sample_step "m" [] {[ "x" := FromStep "a" "stdout" ]};
                sample_step "b" ["a"] ∅;
                sample_step "a" [] ∅ ] |}.

Lemma workflow_topo_keys_spec_witness :
  exists order, WorkflowSpec_topo_keys sample_workflow = Ok order /\
    order = ["a"; "b"; "m"; "z"] /\ NoDup order.
Proof.
  destruct (workflow_topo_keys_spec sample_workflow ltac:(by vm_compute)) as (o & Ho & Hn & _).
  exists o. split_and!; [done| |done].
  assert (E : WorkflowSpec_topo_keys sample_workflow = Ok ["a"; "b"; "m"; "z"])
    by (by vm_compute).
  congruence.
Defined.

Definition sample_workflow_record : @WorkflowRecord toy_json := {|
  wr_id := from_uuid 5; wr_spec := sample_workflow; wr_admission := None;
  wr_state := WsCreated; wr_model_version := mkVersion "1.2.0"; wr_created_at := 10;
  wr_started_at := None; wr_finished_at := None; wr_cancel_requested_at := None;
  wr_steps := []; wr_failure := None |}.
