(* ===== verification/Task.v ===== *)
(** * Agent-task contracts ([hub-core/src/task.rs])

    What an isolated task may request, the evidence that its workspace was
    materialised, and the decision whether a sandbox backend can truthfully
    satisfy it. *)

From Stdlib Require Import Ascii.
From stdpp Require Import base gmap strings list sorting.
From S2P Require Import Prelude Text Core Digest.

Definition TASK_SPEC_SCHEMA_VERSION : N := 1.
Definition WORKSPACE_MATERIALIZATION_SCHEMA_VERSION : N := 1.
Definition MAX_PRINCIPAL_BYTES : N := 256.
Definition MAX_REPOSITORIES : N := 32.
Definition MAX_REPOSITORY_BYTES : N := 512.
Definition MAX_CAPABILITIES : N := 128.
Definition MAX_CAPABILITY_BYTES : N := 256.
Definition MAX_ISOLATION_EVIDENCE_ID_BYTES : N := 256.
Definition MAX_ENDPOINTS : N := 64.
Definition MAX_ENDPOINT_BYTES : N := 512.

(** ** Tokens *)
Definition valid_bounded_token (max_bytes : N) (value : string) : bool :=
  negb (bool_decide (value = "")) && (slen value <=? max_bytes)%N &&
  negb (existsb is_control (chars value)) && is_trimmed value.

Definition validate_bounded_token (value : string) (max_bytes : N) : Result unit :=
  ensure (valid_bounded_token max_bytes value)
    (Validation "{kind} must be non-empty, trimmed, control-free and at most {max_bytes} bytes").

Definition validate_unique_tokens (values : list string) (max_bytes : N) : Result unit :=
  _ ← foldM (fun seen value =>
        _ ← validate_bounded_token value max_bytes;
        insert_seen seen value (Validation "duplicate {kind} {value:?}"))
      (∅ : gset string) values;
  Ok tt.

Definition is_exact_git_object_id (value : string) : bool :=
  ((slen value =? 40)%N || (slen value =? 64)%N) &&
  forallb (fun b => is_ascii_hexdigit b && negb (is_ascii_uppercase b)) (bytes value).

(** ** Identity and workspace *)
Record TaskIdentity := { ti_task_id : TaskId; ti_principal : string }.

Definition TaskIdentity_validate (i : TaskIdentity) : Result unit :=
  validate_bounded_token (ti_principal i) MAX_PRINCIPAL_BYTES.

Record WorkspaceRepository := {
  wrep_repository : string;
  wrep_revision : string;
  wrep_read_only : bool;
}.

Definition WorkspaceRepository_validate (r : WorkspaceRepository) : Result unit :=
  _ ← validate_bounded_token (wrep_repository r) MAX_REPOSITORY_BYTES;
  ensure (is_exact_git_object_id (wrep_revision r))
    (Validation "workspace repository {} revision must be an exact 40- or 64-digit lowercase hexadecimal Git object id").

Record WorkspaceSpec := {
  wspec_repositories : list WorkspaceRepository;
  wspec_mcp_servers : list string;
  wspec_skills : list string;
}.

Definition WorkspaceSpec_validate (w : WorkspaceSpec) : Result unit :=
  _ ← ensure (len (wspec_repositories w) <=? MAX_REPOSITORIES)%N
        (Validation "workspace has {} repositories; maximum is {MAX_REPOSITORIES}");
  _ ← foldM (fun seen repository =>
        _ ← WorkspaceRepository_validate repository;
        insert_seen seen (wrep_repository repository)
          (Validation "duplicate workspace repository {:?}"))
      (∅ : gset string) (wspec_repositories w);
  _ ← validate_unique_tokens (wspec_mcp_servers w) MAX_CAPABILITY_BYTES;
  validate_unique_tokens (wspec_skills w) MAX_CAPABILITY_BYTES.

Record MaterializedRepositoryEvidence := {
  mre_repository : string;
  mre_requested_revision : string;
  mre_observed_revision : string;
  mre_tree_id : string;
  mre_content_digest : ContentDigest;
  mre_read_only_requested : bool;
}.

Record WorkspaceMaterializationEvidence := {
  wme_schema_version : N;
  wme_repositories : list MaterializedRepositoryEvidence;
  wme_workspace_digest : ContentDigest;
}.

#[global] Instance TaskIdentity_eq_dec : EqDecision TaskIdentity.
Proof. solve_decision. Defined.
#[global] Instance WorkspaceRepository_eq_dec : EqDecision WorkspaceRepository.
Proof. solve_decision. Defined.
#[global] Instance WorkspaceSpec_eq_dec : EqDecision WorkspaceSpec.
Proof. solve_decision. Defined.
#[global] Instance MaterializedRepositoryEvidence_eq_dec : EqDecision MaterializedRepositoryEvidence.
Proof. solve_decision. Defined.
#[global] Instance WorkspaceMaterializationEvidence_eq_dec :
  EqDecision WorkspaceMaterializationEvidence.
Proof. solve_decision. Defined.

(** [left.repository.cmp(&right.repository)] is not [Greater]. *)
Definition repository_le (a b : MaterializedRepositoryEvidence) : bool :=
  bool_decide (ord_le (mre_repository a) (mre_repository b)).

(** The checks of one materialised repository against the declared one. *)
Definition validate_materialized (expected : gmap string WorkspaceRepository)
    (e : MaterializedRepositoryEvidence) : Result unit :=
  declared ← ok_or (expected !! mre_repository e)
    (Validation "materialized repository {:?} is not declared by the workspace");
  _ ← ensure (bool_decide (mre_requested_revision e = wrep_revision declared))
        (Validation "materialized repository {} requested revision does not match workspace spec");
  _ ← ensure (bool_decide (mre_observed_revision e = wrep_revision declared))
        (Validation "materialized repository {} observed revision {} does not match requested {}");
  _ ← ensure (negb (negb (is_exact_git_object_id (mre_observed_revision e)) ||
                    negb (is_exact_git_object_id (mre_tree_id e))))
        (Validation "materialized repository {} must retain exact lowercase Git object IDs");
  ensure (bool_decide (mre_read_only_requested e = wrep_read_only declared))
    (Validation "materialized repository {} read-only flag does not match workspace spec").

Definition validate_repository_evidence (spec : WorkspaceSpec)
    (repositories : list MaterializedRepositoryEvidence) : Result unit :=
  _ ← ensure (bool_decide (length repositories = length (wspec_repositories spec)))
        (Validation "workspace evidence contains {} repositories; spec declares {}");
  let expected := collect_map wrep_repository (fun r => r) (wspec_repositories spec) in
  _ ← foldM (fun seen evidence =>
        _ ← validate_bounded_token (mre_repository evidence) MAX_REPOSITORY_BYTES;
        seen ← insert_seen seen (mre_repository evidence)
                 (Validation "duplicate materialized repository {:?}");
        _ ← validate_materialized expected evidence;
        Ok seen)
      (∅ : gset string) repositories;
  Ok tt.

(** [serde_json::to_vec] of the canonical evidence envelope. *)
Class WorkspaceJson := {
  workspace_to_vec : N -> WorkspaceSpec -> list MaterializedRepositoryEvidence -> option (list N)
}.

Section workspace.
Context `{WorkspaceJson, Sha256Lib}.

Definition WorkspaceMaterializationEvidence_compute_digest (spec : WorkspaceSpec)
    (repositories : list MaterializedRepositoryEvidence) : Result ContentDigest :=
  bs ← ok_or (workspace_to_vec WORKSPACE_MATERIALIZATION_SCHEMA_VERSION spec repositories)
         (Storage "serializing canonical workspace materialization evidence: {error}");
  Ok (hash_bytes DOMAIN_TASK_WORKSPACE bs).

Definition WorkspaceMaterializationEvidence_new (spec : WorkspaceSpec)
    (repositories : list MaterializedRepositoryEvidence)
    : Result WorkspaceMaterializationEvidence :=
  _ ← WorkspaceSpec_validate spec;
  let repositories := sort_by repository_le repositories in
  _ ← validate_repository_evidence spec repositories;
  digest ← WorkspaceMaterializationEvidence_compute_digest spec repositories;
  Ok {| wme_schema_version := WORKSPACE_MATERIALIZATION_SCHEMA_VERSION;
        wme_repositories := repositories; wme_workspace_digest := digest |}.

Definition WorkspaceMaterializationEvidence_validate_against
    (e : WorkspaceMaterializationEvidence) (spec : WorkspaceSpec) : Result unit :=
  _ ← ensure (wme_schema_version e =? WORKSPACE_MATERIALIZATION_SCHEMA_VERSION)%N
        (Validation "unsupported workspace materialization schema_version {}; expected {WORKSPACE_MATERIALIZATION_SCHEMA_VERSION}");
  _ ← WorkspaceSpec_validate spec;
  let repositories := sort_by repository_le (wme_repositories e) in
  _ ← ensure (bool_decide (repositories = wme_repositories e))
        (Validation "workspace materialization repositories must be canonically ordered");
  _ ← validate_repository_evidence spec repositories;
  expected ← WorkspaceMaterializationEvidence_compute_digest spec repositories;
  ensure (bool_decide (expected = wme_workspace_digest e))
    (Validation "workspace materialization digest does not match retained evidence").
End workspace.

(** ** Capabilities, budgets and capacity *)
Record CapabilitySet := mkCapabilitySet { capability_grants : list string }.

Definition CapabilitySet_validate (c : CapabilitySet) : Result unit :=
  _ ← ensure (len (capability_grants c) <=? MAX_CAPABILITIES)%N
        (Validation "task has {} capabilities; maximum is {MAX_CAPABILITIES}");
  validate_unique_tokens (capability_grants c) MAX_CAPABILITY_BYTES.

Definition CapabilitySet_contains (c : CapabilitySet) (grant : string) : bool :=
  existsb (fun candidate => bool_decide (candidate = grant)) (capability_grants c).

Record ResourceBudget := {
  rb_cpu_millis : option N;
  rb_memory_bytes : option N;
  rb_wall_clock_ms : option N;
  rb_gpu_devices : option N;
  rb_model_tokens : option N;
}.

Definition ResourceBudget_validate (b : ResourceBudget) : Result unit :=
  forM_ (fun value => ensure (negb (bool_decide (value = Some 0%N)))
           (Validation "resource budget {name} must be greater than zero when specified"))
    [rb_cpu_millis b; rb_memory_bytes b; rb_wall_clock_ms b; rb_model_tokens b].

Record ResourceCapacity := {
  rc_cpu_millis : option N;
  rc_memory_bytes : option N;
  rc_gpu_devices : option N;
  rc_model_tokens : option N;
}.

Definition check_capacity_dimension (requested available : option N) : Result unit :=
  match requested with
  | None => Ok tt
  | Some requested =>
      if (requested =? 0)%N then Ok tt
      else
        match available with
        | None => Err (Validation "backend {backend_id} has unknown capacity for requested resource dimension {dimension}")
        | Some available =>
            if (available <? requested)%N
            then Err (Validation "backend {backend_id} capacity {dimension} {available} is below requested {requested}")
            else Ok tt
        end
  end.

(** [ResourceCapacity::admit]. *)
Definition ResourceCapacity_admission (c : ResourceCapacity) (budget : ResourceBudget) : Result unit :=
  _ ← ensure (negb (bool_decide (rc_cpu_millis c = Some 0%N)))
        (Validation "backend {backend_id} reported zero CPU capacity");
  _ ← ensure (negb (bool_decide (rc_memory_bytes c = Some 0%N)))
        (Validation "backend {backend_id} reported zero memory capacity");
  _ ← check_capacity_dimension (rb_cpu_millis budget) (rc_cpu_millis c);
  _ ← check_capacity_dimension (rb_memory_bytes budget) (rc_memory_bytes c);
  _ ← check_capacity_dimension (rb_gpu_devices budget) (rc_gpu_devices c);
  check_capacity_dimension (rb_model_tokens budget) (rc_model_tokens c).

(** ** Sandbox requirements and task specifications *)
Inductive IsolationLevel :=
| IsoProcess
| IsoContainer
| IsoGvisor
| IsoMicroVm.

(** The derived order of [IsolationLevel]. *)
Definition isolation_rank (l : IsolationLevel) : N :=
  match l with IsoProcess => 0 | IsoContainer => 1 | IsoGvisor => 2 | IsoMicroVm => 3 end.

Record NetworkPolicy := {
  np_default_deny : bool;
  np_allowed_endpoints : list string;
}.

Definition NetworkPolicy_default : NetworkPolicy :=
  {| np_default_deny := true; np_allowed_endpoints := [] |}.

Definition NetworkPolicy_validate (p : NetworkPolicy) : Result unit :=
  _ ← ensure (len (np_allowed_endpoints p) <=? MAX_ENDPOINTS)%N
        (Validation "network policy has {} endpoints; maximum is {MAX_ENDPOINTS}");
  validate_unique_tokens (np_allowed_endpoints p) MAX_ENDPOINT_BYTES.

Record SandboxRequirements := {
  sb_minimum_isolation : IsolationLevel;
  sb_network : NetworkPolicy;
  sb_writable_workspace : bool;
}.

Record TaskSpec := {
  ts_schema_version : N;
  ts_id : TaskId;
  ts_identity : TaskIdentity;
  ts_workspace : WorkspaceSpec;
  ts_capabilities : CapabilitySet;
  ts_budget : ResourceBudget;
  ts_sandbox : SandboxRequirements;
}.

Definition TaskSpec_validate (t : TaskSpec) : Result unit :=
  _ ← ensure (ts_schema_version t =? TASK_SPEC_SCHEMA_VERSION)%N
        (Validation "unsupported task schema_version {}; expected {TASK_SPEC_SCHEMA_VERSION}");
  _ ← ensure (bool_decide (ti_task_id (ts_identity t) = ts_id t))
        (Validation "task identity task_id must match task id");
  _ ← TaskIdentity_validate (ts_identity t);
  _ ← WorkspaceSpec_validate (ts_workspace t);
  _ ← CapabilitySet_validate (ts_capabilities t);
  _ ← ResourceBudget_validate (ts_budget t);
  NetworkPolicy_validate (sb_network (ts_sandbox t)).

(** ** Backends *)
Record ResourceEnforcement := {
  re_wall_clock_ms : bool;
  re_cpu_millis : bool;
  re_memory_bytes : bool;
  re_gpu_devices : bool;
  re_model_tokens : bool;
}.

Definition is_some {A} (o : option A) : bool :=
  match o with Some _ => true | None => false end.

(** [ResourceEnforcement::admit]. *)
Definition ResourceEnforcement_admission (r : ResourceEnforcement) (budget : ResourceBudget)
    : Result unit :=
  forM_ (fun re : bool * bool => ensure (negb (re.1 && negb re.2))
           (Validation "sandbox backend {backend_id} cannot enforce requested resource dimension {dimension}"))
    [(is_some (rb_wall_clock_ms budget), re_wall_clock_ms r);
     (is_some (rb_cpu_millis budget), re_cpu_millis r);
     (is_some (rb_memory_bytes budget), re_memory_bytes r);
     (is_some (rb_gpu_devices budget), re_gpu_devices r);
     (is_some (rb_model_tokens budget), re_model_tokens r)].

Record SandboxBackendDescriptor := {
  sbd_backend_id : string;
  sbd_isolation : IsolationLevel;
  sbd_isolation_qualified : bool;
  sbd_isolation_evidence_id : option string;
  sbd_enforces_network_policy : bool;
  sbd_enforces_default_deny_network : bool;
  sbd_enforces_workspace_write_policy : bool;
  sbd_resources : ResourceEnforcement;
  sbd_capabilities : CapabilitySet;
}.

#[global] Instance CapabilitySet_eq_dec : EqDecision CapabilitySet.
Proof. solve_decision. Defined.
#[global] Instance ResourceBudget_eq_dec : EqDecision ResourceBudget.
Proof. solve_decision. Defined.
#[global] Instance IsolationLevel_eq_dec : EqDecision IsolationLevel.
Proof. solve_decision. Defined.
#[global] Instance NetworkPolicy_eq_dec : EqDecision NetworkPolicy.
Proof. solve_decision. Defined.
#[global] Instance SandboxRequirements_eq_dec : EqDecision SandboxRequirements.
Proof. solve_decision. Defined.
#[global] Instance TaskSpec_eq_dec : EqDecision TaskSpec.
Proof. solve_decision. Defined.

Definition validate_qualification_claims (d : SandboxBackendDescriptor) : Result unit :=
  _ ← ensure (negb ((isolation_rank IsoProcess <? isolation_rank (sbd_isolation d))%N &&
                    negb (sbd_isolation_qualified d)))
        (Validation "sandbox backend isolation lacks qualification evidence");
  _ ← ensure (negb (bool_decide (sbd_isolation d = IsoProcess) && sbd_isolation_qualified d))
        (Validation "process supervision cannot claim qualified isolation");
  if sbd_isolation_qualified d then
    evidence_id ← ok_or (sbd_isolation_evidence_id d)
      (Validation "qualified sandbox isolation requires an evidence reference");
    validate_bounded_token evidence_id MAX_ISOLATION_EVIDENCE_ID_BYTES
  else
    ensure (negb (is_some (sbd_isolation_evidence_id d)))
      (Validation "sandbox isolation evidence requires a qualified isolation claim").

(** [SandboxBackendDescriptor::admit]. *)
Definition SandboxBackendDescriptor_admission (d : SandboxBackendDescriptor) (task : TaskSpec)
    : Result unit :=
  _ ← TaskSpec_validate task;
  _ ← validate_bounded_token (sbd_backend_id d) MAX_CAPABILITY_BYTES;
  _ ← validate_qualification_claims d;
  _ ← ensure (negb (isolation_rank (sbd_isolation d) <?
                    isolation_rank (sb_minimum_isolation (ts_sandbox task)))%N)
        (Validation "sandbox backend {} isolation {:?} does not satisfy required {:?}");
  let network := sb_network (ts_sandbox task) in
  _ ← ensure (negb (negb (bool_decide (np_allowed_endpoints network = [])) &&
                    negb (sbd_enforces_network_policy d)))
        (Validation "sandbox backend {} cannot enforce the task network policy");
  _ ← ensure (negb (np_default_deny network && negb (sbd_enforces_default_deny_network d)))
        (Validation "sandbox backend {} cannot enforce the task default-deny network policy");
  _ ← ensure (negb (negb (sb_writable_workspace (ts_sandbox task)) &&
                    negb (sbd_enforces_workspace_write_policy d)))
        (Validation "sandbox backend {} cannot enforce the task read-only workspace policy");
  _ ← ResourceEnforcement_admission (sbd_resources d) (ts_budget task);
  _ ← CapabilitySet_validate (sbd_capabilities d);
  forM_ (fun capability => ensure (CapabilitySet_contains (sbd_capabilities d) capability)
           (Validation "sandbox backend {} cannot enforce requested capability {capability}"))
    (capability_grants (ts_capabilities task)).

(** [SandboxBackendDescriptor::admit_with_capacity]. *)
Definition SandboxBackendDescriptor_admission_with_capacity (d : SandboxBackendDescriptor)
    (task : TaskSpec) (capacity : ResourceCapacity) : Result unit :=
  _ ← SandboxBackendDescriptor_admission d task;
  ResourceCapacity_admission capacity (ts_budget task).

(** ** What admission decides *)
Record backend_claims_wf (d : SandboxBackendDescriptor) : Prop := {
  bc_id : valid_bounded_token 256 (sbd_backend_id d) = true;
  bc_qualified :
    (sbd_isolation d = IsoProcess /\ sbd_isolation_qualified d = false /\
     sbd_isolation_evidence_id d = None) \/
    (sbd_isolation d <> IsoProcess /\ sbd_isolation_qualified d = true /\
     exists e, sbd_isolation_evidence_id d = Some e /\ valid_bounded_token 256 e = true);
  bc_capabilities : CapabilitySet_validate (sbd_capabilities d) = Ok tt;
}.

Record backend_satisfies (d : SandboxBackendDescriptor) (t : TaskSpec) : Prop := {
  bs_isolation : (isolation_rank (sb_minimum_isolation (ts_sandbox t)) <=
                  isolation_rank (sbd_isolation d))%N;
  bs_endpoints : np_allowed_endpoints (sb_network (ts_sandbox t)) <> [] ->
                 sbd_enforces_network_policy d = true;
  bs_deny : np_default_deny (sb_network (ts_sandbox t)) = true ->
            sbd_enforces_default_deny_network d = true;
  bs_write : sb_writable_workspace (ts_sandbox t) = false ->
             sbd_enforces_workspace_write_policy d = true;
  bs_wall : is_Some (rb_wall_clock_ms (ts_budget t)) -> re_wall_clock_ms (sbd_resources d) = true;
  bs_cpu : is_Some (rb_cpu_millis (ts_budget t)) -> re_cpu_millis (sbd_resources d) = true;
  bs_memory : is_Some (rb_memory_bytes (ts_budget t)) -> re_memory_bytes (sbd_resources d) = true;
  bs_gpu : is_Some (rb_gpu_devices (ts_budget t)) -> re_gpu_devices (sbd_resources d) = true;
  bs_tokens : is_Some (rb_model_tokens (ts_budget t)) -> re_model_tokens (sbd_resources d) = true;
  bs_grants : forall g, g ∈ capability_grants (ts_capabilities t) ->
              g ∈ capability_grants (sbd_capabilities d);
}.

(** A positive request needs a measured capacity that covers it. *)
Definition dimension_fits (requested available : option N) : Prop :=
  forall r, requested = Some r -> (0 < r)%N -> exists a, available = Some a /\ (r <= a)%N.

Record capacity_fits (c : ResourceCapacity) (b : ResourceBudget) : Prop := {
  cf_cpu_known : rc_cpu_millis c <> Some 0%N;
  cf_memory_known : rc_memory_bytes c <> Some 0%N;
  cf_cpu : dimension_fits (rb_cpu_millis b) (rc_cpu_millis c);
  cf_memory : dimension_fits (rb_memory_bytes b) (rc_memory_bytes c);
  cf_gpu : dimension_fits (rb_gpu_devices b) (rc_gpu_devices c);
  cf_tokens : dimension_fits (rb_model_tokens b) (rc_model_tokens c);
}.

Lemma check_capacity_dimension_Ok req avail u :
  check_capacity_dimension req avail = Ok u <-> dimension_fits req avail.
Proof.
  destruct u. unfold check_capacity_dimension, dimension_fits.
  destruct req as [r|]; [|naive_solver].
  destruct (N.eqb_spec r 0); [subst; naive_solver lia|].
  destruct avail as [a|].
  - destruct (N.ltb_spec a r); split; [done| |naive_solver lia|done].
    intros Hf. destruct (Hf r) as (a' & [= <-] & ?); [done|lia|lia].
  - split; [done|]. intros Hf. destruct (Hf r) as (a' & ? & ?); [done|lia|done].
Qed.

Lemma ResourceCapacity_admission_Ok c b :
  ResourceCapacity_admission c b = Ok tt <-> capacity_fits c b.
Proof.
  unfold ResourceCapacity_admission. split.
  - intros Hrun. ok_inv. bool_inv.
    repeat match goal with H : check_capacity_dimension _ _ = Ok _ |- _ =>
      apply check_capacity_dimension_Ok in H end.
    by split.
  - intros [Hc Hm H1 H2 H3 H4].
    rewrite !bind_ensure by (by apply negb_true_iff, bool_decide_eq_false).
    repeat match goal with H : dimension_fits _ _ |- _ =>
      apply (check_capacity_dimension_Ok _ _ tt) in H; rewrite H; clear H end.
    done.
Qed.

Lemma negb_imp (a b : bool) : negb (a && negb b) = true <-> (a = true -> b = true).
Proof. destruct a, b; naive_solver. Qed.

Lemma is_some_true {A} (o : option A) : is_some o = true <-> is_Some o.
Proof. destruct o; cbn; [split; eauto|]. split; [done|by intros [? ?]]. Qed.

Lemma ResourceEnforcement_admission_Ok r b :
  ResourceEnforcement_admission r b = Ok tt <->
  (is_Some (rb_wall_clock_ms b) -> re_wall_clock_ms r = true) /\
  (is_Some (rb_cpu_millis b) -> re_cpu_millis r = true) /\
  (is_Some (rb_memory_bytes b) -> re_memory_bytes r = true) /\
  (is_Some (rb_gpu_devices b) -> re_gpu_devices r = true) /\
  (is_Some (rb_model_tokens b) -> re_model_tokens r = true).
Proof.
  unfold ResourceEnforcement_admission. rewrite forM_Ok.
  rewrite !Forall_cons, Forall_nil, !ensure_Ok, !negb_imp. cbn [fst snd].
  rewrite !is_some_true. tauto.
Qed.

Lemma CapabilitySet_contains_spec c g :
  CapabilitySet_contains c g = true <-> g ∈ capability_grants c.
Proof.
  unfold CapabilitySet_contains. rewrite existsb_exists.
  setoid_rewrite <- list_elem_of_In. split.
  - intros (x & Hx & ?). by bool_inv; subst.
  - intros Hg. exists g. split; [done|]. by apply bool_decide_eq_true.
Qed.

Lemma validate_qualification_claims_Ok d :
  validate_qualification_claims d = Ok tt <->
  (sbd_isolation d = IsoProcess /\ sbd_isolation_qualified d = false /\
   sbd_isolation_evidence_id d = None) \/
  (sbd_isolation d <> IsoProcess /\ sbd_isolation_qualified d = true /\
   exists e, sbd_isolation_evidence_id d = Some e /\ valid_bounded_token 256 e = true).
Proof.
  unfold validate_qualification_claims, validate_bounded_token, MAX_ISOLATION_EVIDENCE_ID_BYTES.
  destruct (sbd_isolation d), (sbd_isolation_qualified d),
    (sbd_isolation_evidence_id d) as [e|];
    rewrite ?(bool_decide_eq_true_2 (IsoProcess = IsoProcess)) by done;
    rewrite ?bool_decide_eq_false_2 by done; cbn;
    try destruct (valid_bounded_token 256 e) eqn:Et; cbn;
    (split; [intros Hx; first [discriminate Hx|by left|right; eauto 10]|];
     intros [(? & ? & ?)|(? & ? & x & Hx & ?)]; [congruence|]; try injection Hx as <-; congruence).
Qed.

Lemma SandboxBackendDescriptor_admission_Ok d t :
  SandboxBackendDescriptor_admission d t = Ok tt <->
  TaskSpec_validate t = Ok tt /\ backend_claims_wf d /\ backend_satisfies d t.
Proof.
  unfold SandboxBackendDescriptor_admission. cbv zeta. split.
  - intros Hrun. ok_inv. repeat match goal with u : unit |- _ => destruct u end.
    repeat match goal with H : negb (_ && negb _) = true |- _ => rewrite negb_imp in H end.
    bool_inv.
    match goal with H : validate_bounded_token _ _ = _ |- _ => apply ensure_Ok in H end.
    match goal with H : validate_qualification_claims _ = _ |- _ =>
      apply validate_qualification_claims_Ok in H end.
    match goal with H : ResourceEnforcement_admission _ _ = _ |- _ =>
      apply ResourceEnforcement_admission_Ok in H as (? & ? & ? & ? & ?) end.
    match goal with H : forM_ _ (capability_grants _) = _ |- _ =>
      rewrite forM_Ok, Forall_forall in H; rename H into Hgrants end.
    split_and!; [done|by split|]. split; try done.
    + intros Hne. apply Hr3. by rewrite bool_decide_eq_false_2.
    + intros Hw%negb_true_iff. auto.
    + intros g Hg. apply CapabilitySet_contains_spec. by apply Hgrants, ensure_Ok in Hg.
  - intros (Hv & [Hid Hq Hcaps] & [Hi He Hdn Hw Hr1 Hr2 Hr3 Hr4 Hr5 Hg]).
    rewrite Hv. cbn [mbind result_bind].
    rewrite (proj2 (ensure_Ok _ _ tt) Hid : validate_bounded_token _ MAX_CAPABILITY_BYTES = _).
    cbn [mbind result_bind]. rewrite (proj2 (validate_qualification_claims_Ok d) Hq).
    cbn [mbind result_bind]. rewrite !bind_ensure.
    + rewrite (proj2 (ResourceEnforcement_admission_Ok _ _)) by done.
      cbn [mbind result_bind]. rewrite Hcaps. cbn [mbind result_bind].
      apply forM_Ok, Forall_forall. intros g Hin. by apply ensure_Ok, CapabilitySet_contains_spec, Hg.
    + apply negb_imp. intros Hn. apply Hw. by apply negb_true_iff.
    + by apply negb_imp.
    + apply negb_imp. intros Hn. apply He. by bool_inv.
    + by apply negb_true_iff, N.ltb_ge.
Qed.

(** Admission of a task by a backend, with its observed capacity, is
    exactly the conjunction of: the task is valid; the backend's own claims
    are coherent (qualified isolation iff stronger than a process, with an
    evidence id); it meets the isolation, network, workspace, resource and
    capability requirements; and every positive demand is covered by a
    measured capacity.  Nothing unknown is treated as unlimited. *)
Theorem sandbox_admission_iff d t c :
  SandboxBackendDescriptor_admission_with_capacity d t c = Ok tt <->
  TaskSpec_validate t = Ok tt /\ backend_claims_wf d /\ backend_satisfies d t /\
  capacity_fits c (ts_budget t).
Proof.
  unfold SandboxBackendDescriptor_admission_with_capacity. split.
  - intros Hrun. ok_inv. repeat match goal with u : unit |- _ => destruct u end.
    apply SandboxBackendDescriptor_admission_Ok in Hr as (Hv & Hc & Hs).
    split_and!; [done..|]. by apply ResourceCapacity_admission_Ok.
  - intros (Hv & Hw & Hs & Hc). apply bind_Ok. exists tt. split; [by apply SandboxBackendDescriptor_admission_Ok|].
    by apply ResourceCapacity_admission_Ok.
Qed.

(** ** Workspace evidence *)
Lemma repository_le_total a b : repository_le a b = true \/ repository_le b a = true.
Proof. unfold repository_le. rewrite !bool_decide_eq_true. apply (total ord_le). Qed.

Lemma repository_le_trans a b c :
  repository_le a b = true -> repository_le b c = true -> repository_le a c = true.
Proof. unfold repository_le. rewrite !bool_decide_eq_true. apply (transitivity (R := ord_le)). Qed.

Lemma repository_le_antisym a b :
  repository_le a b = true -> repository_le b a = true -> mre_repository a = mre_repository b.
Proof. unfold repository_le. rewrite !bool_decide_eq_true. apply (anti_symm ord_le). Qed.

#[local] Hint Resolve repository_le_total repository_le_trans repository_le_antisym : core.

Lemma WorkspaceSpec_validate_Ok w :
  WorkspaceSpec_validate w = Ok tt ->
  (len (wspec_repositories w) <= 32)%N /\
  NoDup (wrep_repository <$> wspec_repositories w) /\
  Forall (fun r => is_exact_git_object_id (wrep_revision r) = true) (wspec_repositories w).
Proof.
  unfold WorkspaceSpec_validate. intros Hrun. ok_inv. bool_inv.
  match goal with H : foldM _ _ _ = _ |- _ => apply foldM_unique_Ok in H as (Hall & ? & _) end.
  split_and!; [done|done|]. eapply Forall_impl; [exact Hall|].
  unfold WorkspaceRepository_validate. intros x Hx. by ok_inv.
Qed.

(** One materialised repository agrees with the declaration of its name. *)
Definition materialized_as (e : MaterializedRepositoryEvidence) (d : WorkspaceRepository) : Prop :=
  mre_repository e = wrep_repository d /\
  mre_requested_revision e = wrep_revision d /\ mre_observed_revision e = wrep_revision d /\
  mre_read_only_requested e = wrep_read_only d /\
  is_exact_git_object_id (mre_tree_id e) = true.

Lemma validate_repository_evidence_Ok spec repos :
  NoDup (wrep_repository <$> wspec_repositories spec) ->
  validate_repository_evidence spec repos = Ok tt ->
  (mre_repository <$> repos) ≡ₚ (wrep_repository <$> wspec_repositories spec) /\
  NoDup (mre_repository <$> repos) /\
  (forall e, e ∈ repos -> exists d, d ∈ wspec_repositories spec /\ materialized_as e d).
Proof.
  intros Hnd. unfold validate_repository_evidence. cbv zeta. intros Hrun. ok_inv. bool_inv.
  match goal with H : foldM _ _ _ = _ |- _ =>
    apply (foldM_unique_checks_Ok
      (fun e => validate_bounded_token (mre_repository e) MAX_REPOSITORY_BYTES)
      (validate_materialized _)) in H as (Hall & Hndr & _) end.
  assert (Hmat : forall e, e ∈ repos ->
    exists d, d ∈ wspec_repositories spec /\ materialized_as e d).
  { intros e He. rewrite Forall_forall in Hall. destruct (Hall e He) as [_ Hm].
    unfold validate_materialized in Hm. ok_inv. bool_inv.
    match goal with H : collect_map _ _ _ !! _ = Some ?x |- _ =>
      apply collect_map_lookup in H as (d & Hd & Hk & Hx); [|done]; subst x end.
    exists d. split; [done|]. unfold materialized_as. split_and!; congruence. }
  split_and!; [|done|done]. apply submseteq_length_Permutation.
  - apply NoDup_submseteq; [done|]. intros n (e & -> & He)%list_elem_of_fmap.
    destruct (Hmat e He) as (d & Hd & -> & _). by apply list_elem_of_fmap_2.
  - rewrite !length_fmap. lia.
Qed.

Lemma validate_repository_evidence_perm spec r1 r2 :
  r1 ≡ₚ r2 -> validate_repository_evidence spec r1 = Ok tt ->
  validate_repository_evidence spec r2 = Ok tt.
Proof.
  intros Hp. unfold validate_repository_evidence. cbv zeta.
  rewrite (Permutation_length Hp).
  intros ([] & Hl & (s & Hf & _)%bind_Ok)%bind_Ok. rewrite Hl. cbn [mbind result_bind].
  apply bind_Ok. eexists. split; [|done].
  apply (foldM_unique_checks_Ok
      (fun e => validate_bounded_token (mre_repository e) MAX_REPOSITORY_BYTES)
      (validate_materialized _)) in Hf as (Hall & Hndr & Hni & _).
  apply (foldM_unique_checks_Ok
      (fun e => validate_bounded_token (mre_repository e) MAX_REPOSITORY_BYTES)
      (validate_materialized _)).
  split_and!; [by rewrite <- Hp|by rewrite <- Hp|set_solver|reflexivity].
Qed.

Section workspace_theorems.
Context `{WorkspaceJson, Sha256Lib}.

Lemma evidence_new_Ok spec repos e :
  WorkspaceMaterializationEvidence_new spec repos = Ok e <->
  WorkspaceSpec_validate spec = Ok tt /\
  validate_repository_evidence spec (sort_by repository_le repos) = Ok tt /\
  wme_schema_version e = 1%N /\ wme_repositories e = sort_by repository_le repos /\
  WorkspaceMaterializationEvidence_compute_digest spec (sort_by repository_le repos)
    = Ok (wme_workspace_digest e).
Proof.
  unfold WorkspaceMaterializationEvidence_new. split.
  - intros Hrun. ok_inv. repeat match goal with u : unit |- _ => destruct u end. done.
  - intros (-> & Hv & Hs & Hr & Hd). cbn [mbind result_bind]. rewrite Hv. cbn [mbind result_bind].
    rewrite Hd. cbn [mbind result_bind]. destruct e. cbn in *. by subst.
Qed.

Lemma evidence_validate_Ok e spec :
  WorkspaceMaterializationEvidence_validate_against e spec = Ok tt <->
  WorkspaceSpec_validate spec = Ok tt /\ wme_schema_version e = 1%N /\
  sort_by repository_le (wme_repositories e) = wme_repositories e /\
  validate_repository_evidence spec (wme_repositories e) = Ok tt /\
  WorkspaceMaterializationEvidence_compute_digest spec (wme_repositories e)
    = Ok (wme_workspace_digest e).
Proof.
  unfold WorkspaceMaterializationEvidence_validate_against. split.
  - intros Hrun. ok_inv. bool_inv. repeat match goal with u : unit |- _ => destruct u end.
    match goal with H : sort_by _ _ = _ |- _ => rewrite H in * end. by subst.
  - intros (Hv & Hs & Hsort & Hrep & Hd). rewrite Hs, Hv, Hsort. cbn [mbind result_bind].
    rewrite bool_decide_eq_true_2 by done. cbn. rewrite Hrep. cbn [mbind result_bind].
    rewrite Hd. cbn [mbind result_bind]. by apply ensure_Ok, bool_decide_eq_true.
Qed.

(** Evidence constructed for a workspace revalidates against it, and
    construction is canonical: the same observations in any order give the
    same evidence. *)
Theorem workspace_evidence_roundtrip spec repos repos' e :
  WorkspaceMaterializationEvidence_new spec repos = Ok e -> repos' ≡ₚ repos ->
  WorkspaceMaterializationEvidence_validate_against e spec = Ok tt /\
  WorkspaceMaterializationEvidence_new spec repos' = Ok e.
Proof.
  intros (Hv & Hrep & Hs & Hr & Hd)%evidence_new_Ok Hp. split.
  - apply evidence_validate_Ok. rewrite Hr. split_and!; try done.
    apply sort_by_id, sort_by_sorted; eauto.
  - apply evidence_new_Ok.
    assert (sort_by repository_le repos' = sort_by repository_le repos) as ->; [|done].
    pose proof Hv as (_ & Hnd & _)%WorkspaceSpec_validate_Ok.
    destruct (validate_repository_evidence_Ok _ _ Hnd Hrep) as (_ & Hndr & _).
    symmetry. apply (sorted_by_key_unique repository_le mre_repository);
      [eauto|apply sort_by_sorted; eauto..|done|by rewrite !sort_by_perm].
Qed.

(** Evidence that validates pins the whole workspace: its repositories
    are exactly the declared ones, each observed at the exact declared object
    id (never a floating revision), and its digest is the domain-separated
    hash of the canonical envelope. *)
Theorem workspace_evidence_exact e spec :
  WorkspaceMaterializationEvidence_validate_against e spec = Ok tt ->
  (mre_repository <$> wme_repositories e) ≡ₚ (wrep_repository <$> wspec_repositories spec) /\
  (forall ev, ev ∈ wme_repositories e -> exists d, d ∈ wspec_repositories spec /\
     materialized_as ev d /\ is_exact_git_object_id (mre_observed_revision ev) = true) /\
  (forall d, d ∈ wspec_repositories spec -> exists ev, ev ∈ wme_repositories e /\
     materialized_as ev d) /\
  exists bs, workspace_to_vec 1 spec (wme_repositories e) = Some bs /\
    wme_workspace_digest e = hash_bytes DOMAIN_TASK_WORKSPACE bs.
Proof.
  intros (Hv & _ & _ & Hrep & Hd)%evidence_validate_Ok.
  pose proof Hv as (_ & Hnd & Hexact)%WorkspaceSpec_validate_Ok.
  destruct (validate_repository_evidence_Ok _ _ Hnd Hrep) as (Hperm & Hndr & Hmat).
  rewrite Forall_forall in Hexact. split_and!; [done| | |].
  - intros ev Hev. destruct (Hmat ev Hev) as (d & Hdin & Hm). exists d. split_and!; [done|done|].
    destruct Hm as (_ & _ & -> & _). auto.
  - intros d Hdin. assert (Hn : wrep_repository d ∈ mre_repository <$> wme_repositories e)
      by (rewrite Hperm; by apply list_elem_of_fmap_2).
    apply list_elem_of_fmap in Hn as (ev & Heq & Hev). exists ev. split; [done|].
    destruct (Hmat ev Hev) as (d' & Hd' & Hm). assert (d = d') as ->; [|done].
    destruct Hm as [Hname _].
    apply list_elem_of_lookup in Hdin as [i Hi], Hd' as [j Hj].
    assert (i = j) as ->; [|congruence].
    eapply NoDup_lookup; [exact Hnd| |]; rewrite list_lookup_fmap; [by rewrite Hi|].
    rewrite Hj. cbn. congruence.
  - unfold WorkspaceMaterializationEvidence_compute_digest in Hd. ok_inv. eauto.
Qed.
End workspace_theorems.

(** ** Witnesses *)
Definition toy_workspace_json : WorkspaceJson := {|
  workspace_to_vec v spec repos :=
    Some (v :: mjoin ((fun r => bytes (wrep_repository r) ++ bytes (wrep_revision r)) <$>
                        wspec_repositories spec)
            ++ mjoin ((fun r => bytes (mre_repository r)) <$> repos))
|}.

Definition sample_oid : string := "0123456789abcdef0123456789abcdef01234567".

Definition sample_workspace : WorkspaceSpec := {|
  wspec_repositories :=
    [ {| wrep_repository := "org/zeta"; wrep_revision := sample_oid; wrep_read_only := true |};
      {| wrep_repository := "org/alpha"; wrep_revision := sample_oid; wrep_read_only := false |} ];
  wspec_mcp_servers := ["search"]; wspec_skills := [] |}.

Definition sample_repo (name : string) (ro : bool) : MaterializedRepositoryEvidence := {|
  mre_repository := name; mre_requested_revision := sample_oid;
  mre_observed_revision := sample_oid; mre_tree_id := sample_oid;
  mre_content_digest := @hash_bytes toy_sha [] [];
  mre_read_only_requested := ro |}.

Definition sample_evidence : WorkspaceMaterializationEvidence := {|
  wme_schema_version := 1;
  wme_repositories := [sample_repo "org/alpha" false; sample_repo "org/zeta" true];
  wme_workspace_digest := @hash_bytes toy_sha DOMAIN_TASK_WORKSPACE
    (default [] (@workspace_to_vec toy_workspace_json 1 sample_workspace
       [sample_repo "org/alpha" false; sample_repo "org/zeta" true])) |}.

Lemma workspace_evidence_roundtrip_witness :
  @WorkspaceMaterializationEvidence_new toy_workspace_json toy_sha sample_workspace
    [sample_repo "org/alpha" false; sample_repo "org/zeta" true] = Ok sample_evidence.
Proof.
  refine (proj2 (@workspace_evidence_roundtrip toy_workspace_json toy_sha sample_workspace
    [sample_repo "org/zeta" true; sample_repo "org/alpha" false] _ sample_evidence _ _)).
  - vm_compute. reflexivity.
  - apply Permutation_swap.
Defined.

Lemma workspace_evidence_exact_witness :
  exists ev, ev ∈ wme_repositories sample_evidence /\
    materialized_as ev {| wrep_repository := "org/zeta"; wrep_revision := sample_oid;
                          wrep_read_only := true |}.
Proof.
  refine (proj1 (proj2 (proj2 (@workspace_evidence_exact toy_workspace_json toy_sha
    sample_evidence sample_workspace _))) _ _); [vm_compute; reflexivity|left].
Defined.
