(* ===== verification/TaskLifecycle.v ===== *)
(** * Task records ([hub-core/src/task_lifecycle.rs])

    The durable lifecycle record of an isolated task: creation, admission
    with workspace evidence, transitions, replay validation, and the check
    that a new snapshot continues an old one.  The state enum is in [Core]. *)

From stdpp Require Import base gmap strings list.
From S2P Require Import Prelude Text Core Digest Task.

Definition TASK_RECORD_SCHEMA_VERSION : N := 2.
Definition MIN_TASK_RECORD_SCHEMA_VERSION : N := 1.

Record TaskTransition := { tt_from : TaskState; tt_to : TaskState; tt_at : UnixMillis }.

Record TaskRecord := {
  tk_schema_version : N;
  tk_spec : TaskSpec;
  tk_state : TaskState;
  tk_created_at : UnixMillis;
  tk_workspace_evidence : option WorkspaceMaterializationEvidence;
  tk_admitted_at : option UnixMillis;
  tk_started_at : option UnixMillis;
  tk_finished_at : option UnixMillis;
  tk_transitions : list TaskTransition;
}.

#[global] Instance TaskTransition_eq_dec : EqDecision TaskTransition.
Proof. solve_decision. Defined.
#[global] Instance TaskRecord_eq_dec : EqDecision TaskRecord.
Proof. solve_decision. Defined.

Definition TaskRecord_create (spec : TaskSpec) (now : UnixMillis) : Result TaskRecord :=
  _ ← TaskSpec_validate spec;
  Ok {| tk_schema_version := TASK_RECORD_SCHEMA_VERSION; tk_spec := spec;
        tk_state := TsCreated; tk_created_at := now; tk_workspace_evidence := None;
        tk_admitted_at := None; tk_started_at := None; tk_finished_at := None;
        tk_transitions := [] |}.

(** [self.transitions.last().map_or(self.created_at, |t| t.at)]. *)
Definition tk_previous_at (r : TaskRecord) : UnixMillis :=
  match last (tk_transitions r) with Some t => tt_at t | None => tk_created_at r end.

(** The [&mut self] methods return the record after the call and what the
    call returned. *)
Definition TaskRecord_apply_transition (r : TaskRecord) (to : TaskState) (now : UnixMillis)
    : TaskRecord * Result unit :=
  let from := tk_state r in
  if negb (TaskState_can_transition_to from to)
  then (r, Err (InvalidTaskTransition from to))
  else if (now <? tk_previous_at r)%N
  then (r, Err (Validation "task transition timestamp {now} precedes previous lifecycle timestamp {previous_at}"))
  else
    ({| tk_schema_version := tk_schema_version r; tk_spec := tk_spec r; tk_state := to;
        tk_created_at := tk_created_at r; tk_workspace_evidence := tk_workspace_evidence r;
        tk_admitted_at := if bool_decide (to = TsAdmitted)
                          then get_or_insert (tk_admitted_at r) now else tk_admitted_at r;
        tk_started_at := if bool_decide (to = TsRunning)
                         then get_or_insert (tk_started_at r) now else tk_started_at r;
        tk_finished_at := if TaskState_is_terminal to then Some now else tk_finished_at r;
        tk_transitions := tk_transitions r ++
          [ {| tt_from := from; tt_to := to; tt_at := now |} ] |}, Ok tt).

Definition TaskRecord_transition (r : TaskRecord) (to : TaskState) (now : UnixMillis)
    : TaskRecord * Result unit :=
  if bool_decide (tk_state r = TsCreated) && bool_decide (to = TsAdmitted)
  then (r, Err (Validation "task admission requires verified workspace materialization evidence"))
  else TaskRecord_apply_transition r to now.

Definition TaskRecord_set_evidence (r : TaskRecord) (e : WorkspaceMaterializationEvidence)
    : TaskRecord :=
  {| tk_schema_version := tk_schema_version r; tk_spec := tk_spec r; tk_state := tk_state r;
     tk_created_at := tk_created_at r; tk_workspace_evidence := Some e;
     tk_admitted_at := tk_admitted_at r; tk_started_at := tk_started_at r;
     tk_finished_at := tk_finished_at r; tk_transitions := tk_transitions r |}.

(** The loop variables of [TaskRecord::validate]. *)
Record Replay := {
  rp_state : TaskState;
  rp_previous_at : UnixMillis;
  rp_admitted_at : option UnixMillis;
  rp_started_at : option UnixMillis;
  rp_finished_at : option UnixMillis;
}.

Definition replay_init (created_at : UnixMillis) : Replay :=
  {| rp_state := TsCreated; rp_previous_at := created_at; rp_admitted_at := None;
     rp_started_at := None; rp_finished_at := None |}.

Definition replay_step (p : Replay) (t : TaskTransition) : Result Replay :=
  _ ← ensure (negb (negb (bool_decide (tt_from t = rp_state p)) ||
                    negb (TaskState_can_transition_to (rp_state p) (tt_to t))))
        (Validation "invalid retained task transition {:?} -> {:?} while replay state is {:?}");
  _ ← ensure (negb (tt_at t <? rp_previous_at p)%N)
        (Validation "task transition timestamps are not monotonic");
  Ok {| rp_state := tt_to t; rp_previous_at := tt_at t;
        rp_admitted_at := if bool_decide (tt_to t = TsAdmitted)
                          then get_or_insert (rp_admitted_at p) (tt_at t) else rp_admitted_at p;
        rp_started_at := if bool_decide (tt_to t = TsRunning)
                         then get_or_insert (rp_started_at p) (tt_at t) else rp_started_at p;
        rp_finished_at := if TaskState_is_terminal (tt_to t)
                          then Some (tt_at t) else rp_finished_at p |}.

Section lifecycle.
Context `{WorkspaceJson, Sha256Lib}.

(** [TaskRecord::admit]. *)
Definition TaskRecord_admission (r : TaskRecord) (e : WorkspaceMaterializationEvidence)
    (now : UnixMillis) : TaskRecord * Result unit :=
  if negb (bool_decide (tk_state r = TsCreated))
  then (r, Err (InvalidTaskTransition (tk_state r) TsAdmitted))
  else
    match WorkspaceMaterializationEvidence_validate_against e (ts_workspace (tk_spec r)) with
    | Err err => (r, Err err)
    | Ok _ =>
        if is_some (tk_workspace_evidence r)
        then (r, Err (Validation "task workspace evidence is already recorded"))
        else TaskRecord_apply_transition (TaskRecord_set_evidence r e) TsAdmitted now
    end.

Definition TaskRecord_validate (r : TaskRecord) : Result unit :=
  _ ← ensure ((MIN_TASK_RECORD_SCHEMA_VERSION <=? tk_schema_version r)%N &&
              (tk_schema_version r <=? TASK_RECORD_SCHEMA_VERSION)%N)
        (Validation "unsupported task record schema_version {}; supported range is {MIN_TASK_RECORD_SCHEMA_VERSION}..={TASK_RECORD_SCHEMA_VERSION}");
  _ ← TaskSpec_validate (tk_spec r);
  p ← foldM replay_step (replay_init (tk_created_at r)) (tk_transitions r);
  _ ← ensure (bool_decide (rp_state p = tk_state r))
        (Validation "task state {:?} does not match replayed state {:?}");
  _ ← ensure (negb (negb (bool_decide (tk_admitted_at r = rp_admitted_at p)) ||
                    negb (bool_decide (tk_started_at r = rp_started_at p)) ||
                    negb (bool_decide (tk_finished_at r = rp_finished_at p))))
        (Validation "task lifecycle timestamps do not match retained transitions");
  if (2 <=? tk_schema_version r)%N then
    match tk_admitted_at r, tk_workspace_evidence r with
    | Some _, Some evidence =>
        WorkspaceMaterializationEvidence_validate_against evidence (ts_workspace (tk_spec r))
    | Some _, None =>
        Err (Validation "admitted task is missing verified workspace evidence")
    | None, Some _ =>
        Err (Validation "workspace evidence cannot be retained before task admission")
    | None, None => Ok tt
    end
  else
    ensure (negb (is_some (tk_workspace_evidence r)))
      (Validation "legacy task record schema cannot carry workspace evidence").

(** The slice [current.transitions.get(n..).unwrap_or_default()] is
    [drop n]. *)
Definition validate_task_snapshot_update (previous current : TaskRecord) : Result unit :=
  _ ← TaskRecord_validate previous;
  _ ← TaskRecord_validate current;
  _ ← ensure (negb (negb (tk_schema_version previous =? tk_schema_version current)%N ||
                    negb (bool_decide (tk_spec previous = tk_spec current)) ||
                    negb (tk_created_at previous =? tk_created_at current)%N))
        (Validation "task immutable schema/identity/spec/creation time cannot change");
  _ ← match tk_workspace_evidence previous, tk_workspace_evidence current with
      | Some before, Some after =>
          ensure (bool_decide (before = after))
            (Validation "task workspace evidence cannot change after admission")
      | Some _, None => Err (Validation "task workspace evidence cannot be removed")
      | None, Some _ =>
          ensure (existsb (fun t => bool_decide (tt_to t = TsAdmitted))
                    (drop (length (tk_transitions previous)) (tk_transitions current)))
            (Validation "workspace evidence may be added only with an admission transition")
      | None, None => Ok tt
      end;
  _ ← ensure (negb ((length (tk_transitions current) <? length (tk_transitions previous))%nat ||
                    negb (bool_decide (take (length (tk_transitions previous)) (tk_transitions current)
                                       = tk_transitions previous))))
        (Validation "task update must preserve the complete previous transition prefix");
  ensure (negb ((length (tk_transitions current) =? length (tk_transitions previous))%nat &&
                negb (bool_decide (current = previous))))
    (Validation "task update without a new transition must be identical").

(** ** Calls on one record *)
Inductive task_call :=
| CallTransition (to : TaskState) (now : UnixMillis)
| CallAdmission (e : WorkspaceMaterializationEvidence) (now : UnixMillis).

Definition task_do (r : TaskRecord) (c : task_call) : TaskRecord :=
  match c with
  | CallTransition to now => (TaskRecord_transition r to now).1
  | CallAdmission e now => (TaskRecord_admission r e now).1
  end.

Definition task_calls (r : TaskRecord) (cs : list task_call) : TaskRecord := foldl task_do r cs.

(** The clock did not run backwards between creation and an admission. *)
Definition admission_clock_ok (created_at : UnixMillis) (c : task_call) : Prop :=
  match c with CallTransition _ _ => True | CallAdmission _ now => (created_at <= now)%N end.

(** ** What validation accepts *)
Definition snapshot_matches (r : TaskRecord) (p : Replay) : Prop :=
  rp_state p = tk_state r /\ rp_admitted_at p = tk_admitted_at r /\
  rp_started_at p = tk_started_at r /\ rp_finished_at p = tk_finished_at r.

Definition evidence_matches (r : TaskRecord) : Prop :=
  if (2 <=? tk_schema_version r)%N then
    match tk_workspace_evidence r with
    | Some e => is_Some (tk_admitted_at r) /\
        WorkspaceMaterializationEvidence_validate_against e (ts_workspace (tk_spec r)) = Ok tt
    | None => tk_admitted_at r = None
    end
  else tk_workspace_evidence r = None.

Definition task_record_wf (r : TaskRecord) : Prop :=
  (1 <= tk_schema_version r <= 2)%N /\ TaskSpec_validate (tk_spec r) = Ok tt /\
  (exists p, foldM replay_step (replay_init (tk_created_at r)) (tk_transitions r) = Ok p /\
             snapshot_matches r p) /\
  evidence_matches r.

Lemma TaskRecord_validate_wf r : TaskRecord_validate r = Ok tt <-> task_record_wf r.
Proof.
  unfold TaskRecord_validate, task_record_wf, evidence_matches, snapshot_matches,
    MIN_TASK_RECORD_SCHEMA_VERSION, TASK_RECORD_SCHEMA_VERSION.
  split.
  - intros Hrun. ok_inv. bool_inv. repeat match goal with u : unit |- _ => destruct u end.
    split_and!; [done|done|done| |].
    + eexists. split; [eassumption|]. done.
    + destruct (2 <=? tk_schema_version r)%N.
      * destruct (tk_admitted_at r), (tk_workspace_evidence r); done.
      * ok_inv. bool_inv. by destruct (tk_workspace_evidence r).
  - intros (Hs & Hv & (p & Hp & Hst & Ha & Hb & Hc) & He).
    rewrite bind_ensure by (by rewrite andb_true_iff, !N.leb_le).
    rewrite Hv. cbn [mbind result_bind]. rewrite Hp. cbn [mbind result_bind].
    rewrite !bind_ensure; [| |by apply bool_decide_eq_true].
    + destruct (2 <=? tk_schema_version r)%N.
      * destruct (tk_workspace_evidence r); [destruct He as [[t ->] He]; exact He|].
        by rewrite He.
      * by rewrite He.
    + rewrite Ha, Hb, Hc. by rewrite !bool_decide_eq_true_2.
Qed.

Lemma foldM_snoc {E S A} (f : S -> A -> result E S) s xs x :
  foldM f s (xs ++ [x]) = s' ← foldM f s xs; f s' x.
Proof. rewrite foldM_app. destruct (foldM f s xs); cbn; [|done]. by destruct (f _ x). Qed.

(** The replay knows the time of the last entry. *)
Lemma replay_previous_at r p :
  foldM replay_step (replay_init (tk_created_at r)) (tk_transitions r) = Ok p ->
  rp_previous_at p = tk_previous_at r.
Proof.
  unfold tk_previous_at. destruct (tk_transitions r) as [|t l _] using rev_ind.
  - cbn. by intros [= <-].
  - rewrite last_snoc, foldM_snoc. intros (q & _ & Hs)%bind_Ok.
    unfold replay_step in Hs. by ok_inv.
Qed.

Lemma TaskRecord_apply_transition_cases r to now :
  (exists e, TaskRecord_apply_transition r to now = (r, Err e)) \/
  (TaskState_can_transition_to (tk_state r) to = true /\ (tk_previous_at r <= now)%N /\
   (TaskRecord_apply_transition r to now).2 = Ok tt).
Proof.
  unfold TaskRecord_apply_transition. destruct (TaskState_can_transition_to _ _); [|left; eauto].
  cbn [negb]. destruct (N.ltb_spec now (tk_previous_at r)); [left; eauto|by right].
Qed.

(** An accepted transition extends the replay by one step. *)
Lemma apply_transition_replay r to now p :
  foldM replay_step (replay_init (tk_created_at r)) (tk_transitions r) = Ok p ->
  snapshot_matches r p ->
  TaskState_can_transition_to (tk_state r) to = true -> (tk_previous_at r <= now)%N ->
  let r' := (TaskRecord_apply_transition r to now).1 in
  (exists p', foldM replay_step (replay_init (tk_created_at r')) (tk_transitions r') = Ok p' /\
     snapshot_matches r' p') /\
  tk_schema_version r' = tk_schema_version r /\ tk_spec r' = tk_spec r /\
  tk_created_at r' = tk_created_at r /\ tk_workspace_evidence r' = tk_workspace_evidence r /\
  tk_state r' = to /\
  tk_admitted_at r' = (if bool_decide (to = TsAdmitted)
                       then get_or_insert (tk_admitted_at r) now else tk_admitted_at r) /\
  tk_transitions r' = tk_transitions r ++ [ {| tt_from := tk_state r; tt_to := to; tt_at := now |} ].
Proof.
  intros Hp (Hst & Ha & Hb & Hc) Hcan Hnow.
  pose proof (replay_previous_at r p Hp) as Hprev.
  unfold TaskRecord_apply_transition. rewrite Hcan. cbn [negb].
  rewrite (proj2 (N.ltb_ge _ _) Hnow). cbn. split_and!; [|done..].
  rewrite foldM_snoc, Hp. cbn [mbind result_bind]. unfold replay_step. cbn [tt_from tt_to tt_at].
  rewrite Hst, Hprev, (bool_decide_eq_true_2 (tk_state r = tk_state r)), Hcan, (proj2 (N.ltb_ge _ _) Hnow) by done.
  eexists. split; [reflexivity|]. unfold snapshot_matches. cbn. by rewrite Ha, Hb, Hc.
Qed.

(** ** Reachable records *)

(** What holds of every record driven through its methods. *)
Definition task_inv (r : TaskRecord) : Prop :=
  task_record_wf r /\ tk_schema_version r = 2%N /\
  (tk_state r = TsCreated -> tk_transitions r = [] /\ tk_admitted_at r = None).

Lemma created_target t : TaskState_can_transition_to t TsCreated = false.
Proof. by destruct t. Qed.

Lemma admitted_source t : TaskState_can_transition_to t TsAdmitted = true -> t = TsCreated.
Proof. by destruct t. Qed.

Lemma task_transition_inv r to now : task_inv r -> task_inv (TaskRecord_transition r to now).1.
Proof.
  intros Hinv. pose proof Hinv as ((Hs & Hv & (p & Hp & Hm) & He) & H2 & Hcr).
  unfold TaskRecord_transition.
  case_match eqn:Hguard; [exact Hinv|].
  destruct (TaskRecord_apply_transition_cases r to now) as [[e ->]|(Hcan & Hnow & _)];
    [exact Hinv|].
  destruct (apply_transition_replay r to now p Hp Hm Hcan Hnow)
    as (Hrep & Hsc & Hsp & Hca & Hev & Hst & Had & _).
  assert (Hna : to <> TsAdmitted).
  { intros ->. apply admitted_source in Hcan. rewrite Hcan in Hguard.
    by rewrite !bool_decide_eq_true_2 in Hguard. }
  rewrite bool_decide_eq_false_2 in Had by done.
  split_and!; [split_and!|by rewrite Hsc|].
  - rewrite Hsc. lia.
  - rewrite Hsc. lia.
  - by rewrite Hsp.
  - done.
  - unfold evidence_matches in *. by rewrite Hsc, Hev, Had, Hsp.
  - rewrite Hst. intros ->. by rewrite created_target in Hcan.
Qed.

Lemma task_admission_inv r e now :
  task_inv r -> (tk_created_at r <= now)%N -> task_inv (TaskRecord_admission r e now).1.
Proof.
  intros Hinv Hclock. pose proof Hinv as ((Hs & Hv & (p & Hp & Hm) & He) & H2 & Hcr).
  unfold TaskRecord_admission.
  case_bool_decide as Hst; cbn [negb]; [|exact Hinv].
  destruct (Hcr Hst) as [Htr Hna].
  destruct (WorkspaceMaterializationEvidence_validate_against _ _) as [[]|err] eqn:Hval;
    [|exact Hinv].
  destruct (is_some (tk_workspace_evidence r)); [exact Hinv|].
  set (r1 := TaskRecord_set_evidence r e).
  assert (Hprev : tk_previous_at r1 = tk_created_at r)
    by (unfold tk_previous_at, r1; cbn; by rewrite Htr).
  destruct (apply_transition_replay r1 TsAdmitted now p Hp Hm)
    as (Hrep & Hsc & Hsp & Hca & Hev & Hst' & Had & _);
    [cbn; by rewrite Hst|by rewrite Hprev|].
  change (tk_schema_version r1) with (tk_schema_version r) in Hsc.
  change (tk_spec r1) with (tk_spec r) in Hsp.
  change (tk_workspace_evidence r1) with (Some e) in Hev.
  change (tk_admitted_at r1) with (tk_admitted_at r) in Had.
  split_and!; [split_and!|by rewrite Hsc|].
  - rewrite Hsc. lia.
  - rewrite Hsc. lia.
  - by rewrite Hsp.
  - done.
  - unfold evidence_matches. rewrite Hsc, Hev, Hsp, H2. cbn. split; [|done].
    rewrite Had, Hna. cbn. eauto.
  - by rewrite Hst'.
Qed.

Lemma task_do_created_at r c : tk_created_at (task_do r c) = tk_created_at r.
Proof.
  destruct c; cbn; unfold TaskRecord_admission, TaskRecord_transition,
    TaskRecord_apply_transition; repeat case_match; done.
Qed.

Lemma task_calls_inv r cs :
  task_inv r -> Forall (admission_clock_ok (tk_created_at r)) cs -> task_inv (task_calls r cs).
Proof.
  revert r; induction cs as [|c cs IH]; intros r Hr Hall; [done|].
  apply Forall_cons in Hall as [Hc Hall]. apply IH; [|by rewrite task_do_created_at].
  destruct c; [by apply task_transition_inv|by apply task_admission_inv].
Qed.

Lemma TaskRecord_create_inv spec now r : TaskRecord_create spec now = Ok r -> task_inv r.
Proof.
  unfold TaskRecord_create. intros Hc. ok_inv. destruct r0.
  split_and!; [split_and!|..]; cbn; try done.
  eexists. by split; [reflexivity|].
Qed.

(** Every call only appends to the log. *)
Lemma task_do_prefix r c : tk_transitions r `prefix_of` tk_transitions (task_do r c).
Proof.
  destruct c; cbn; unfold TaskRecord_admission, TaskRecord_transition,
    TaskRecord_apply_transition; repeat case_match; cbn; try done; by eexists.
Qed.

Lemma task_calls_prefix r cs : tk_transitions r `prefix_of` tk_transitions (task_calls r cs).
Proof.
  revert r; induction cs as [|c cs IH]; intros r; [done|].
  etrans; [apply task_do_prefix|apply IH].
Qed.

(** States a task can only be in once it was admitted. *)
Definition past_admission (s : TaskState) : bool :=
  match s with
  | TsAdmitted | TsRunning | TsSuspended | TsSucceeded | TsTerminated => true
  | TsCreated | TsFailed | TsCancelled => false
  end.

Lemma replay_past_admission created ts p :
  foldM replay_step (replay_init created) ts = Ok p ->
  past_admission (rp_state p) = true -> is_Some (rp_admitted_at p).
Proof.
  intros Hrun. revert Hrun.
  apply (foldM_ind (fun _ p => past_admission (rp_state p) = true -> is_Some (rp_admitted_at p)));
    [done|].
  intros pre t p1 p2 IH _ Hs. unfold replay_step in Hs. ok_inv. cbn.
  rewrite negb_true_iff, orb_false_iff, !negb_false_iff in *.
  match goal with H : _ /\ TaskState_can_transition_to _ _ = true |- _ => destruct H as [_ Hcan] end.
  intros Hpa. destruct (bool_decide (tt_to t = TsAdmitted)) eqn:Ha.
  - destruct (rp_admitted_at p1); cbn; eauto.
  - apply IH. bool_inv. destruct (rp_state p1), (tt_to t); done.
Qed.

Lemma wf_past_admission r :
  task_record_wf r -> tk_schema_version r = 2%N -> past_admission (tk_state r) = true ->
  exists e, tk_workspace_evidence r = Some e /\
    WorkspaceMaterializationEvidence_validate_against e (ts_workspace (tk_spec r)) = Ok tt.
Proof.
  intros (_ & _ & (p & Hp & Hst & Ha & _) & He) H2 Hpa.
  rewrite <- Hst in Hpa. apply (replay_past_admission _ _ _ Hp) in Hpa.
  unfold evidence_matches in He. rewrite H2 in He. cbn in He. rewrite Ha in Hpa.
  destruct (tk_workspace_evidence r) as [e|].
  - exists e. by destruct He.
  - rewrite He in Hpa. by destruct Hpa.
Qed.

Lemma task_do_terminal r c : TaskState_is_terminal (tk_state r) = true -> task_do r c = r.
Proof.
  intros Ht. destruct c as [to now|e now]; cbn.
  - unfold TaskRecord_transition, TaskRecord_apply_transition.
    case_match; [done|]. by rewrite task_terminal_frozen.
  - unfold TaskRecord_admission. rewrite bool_decide_eq_false_2; [done|].
    intros Hc. by rewrite Hc in Ht.
Qed.

Lemma task_do_immutable r c :
  tk_schema_version (task_do r c) = tk_schema_version r /\ tk_spec (task_do r c) = tk_spec r /\
  (forall e, tk_workspace_evidence r = Some e -> tk_workspace_evidence (task_do r c) = Some e).
Proof.
  destruct c as [to now|e0 now]; cbn; unfold TaskRecord_admission, TaskRecord_transition,
    TaskRecord_apply_transition; repeat case_match; cbn; split_and!; try done.
  all: intros e He; match goal with H : is_some _ = false |- _ => by rewrite He in H end.
Qed.

(** Under a sane clock a call either changes nothing or logs one move. *)
Lemma task_do_step r c :
  task_inv r -> admission_clock_ok (tk_created_at r) c ->
  task_do r c = r \/ exists t, tk_transitions (task_do r c) = tk_transitions r ++ [t].
Proof.
  intros (_ & _ & Hcr) Hc. destruct c as [to now|e now]; cbn.
  - unfold TaskRecord_transition, TaskRecord_apply_transition. repeat case_match; cbn; eauto.
  - unfold TaskRecord_admission. case_bool_decide as Hst; cbn [negb]; [|by left].
    destruct (WorkspaceMaterializationEvidence_validate_against _ _); [|by left].
    destruct (is_some _); [by left|]. right. destruct (Hcr Hst) as [Htr _]. cbn in Hc.
    unfold TaskRecord_apply_transition, tk_previous_at. cbn. rewrite Hst, Htr. cbn.
    rewrite (proj2 (N.ltb_ge _ _) Hc). cbn. eauto.
Qed.

(** Two snapshots of one well-behaved task. *)
Lemma task_calls_steps r cs :
  task_inv r -> Forall (admission_clock_ok (tk_created_at r)) cs ->
  let r' := task_calls r cs in
  tk_schema_version r' = tk_schema_version r /\ tk_spec r' = tk_spec r /\
  tk_created_at r' = tk_created_at r /\
  (forall e, tk_workspace_evidence r = Some e -> tk_workspace_evidence r' = Some e) /\
  (tk_transitions r' = tk_transitions r -> r' = r).
Proof.
  revert r; induction cs as [|c cs IH]; intros r Hinv Hall; [done|]. cbn zeta.
  apply Forall_cons in Hall as [Hc Hall].
  assert (Hinv' : task_inv (task_do r c)).
  { by apply (task_calls_inv r [c]); [|repeat constructor]. }
  destruct (task_do_immutable r c) as (E1 & E2 & E3).
  destruct (IH (task_do r c) Hinv') as (I1 & I2 & I3 & I4 & I5); [by rewrite task_do_created_at|].
  cbn [task_calls foldl]. fold (task_calls (task_do r c) cs). split_and!.
  - by rewrite I1.
  - by rewrite I2.
  - by rewrite I3, task_do_created_at.
  - auto.
  - intros Heq. pose proof (task_do_prefix r c) as P1.
    pose proof (task_calls_prefix (task_do r c) cs) as P2. rewrite Heq in P2.
    assert (E : tk_transitions (task_do r c) = tk_transitions r).
    { apply prefix_length_eq; [done|]. by apply prefix_length. }
    assert (Hd : task_do r c = r).
    { destruct (task_do_step r c Hinv Hc) as [?|[t Ht]]; [done|].
      rewrite E in Ht. apply (f_equal length) in Ht. rewrite length_app in Ht. cbn in Ht. lia. }
    rewrite Hd in *. by apply I5.
Qed.

(** ** Snapshot updates *)

(** [current] continues the history of [previous]. *)
Definition continues (previous current : TaskRecord) : Prop :=
  tk_schema_version current = tk_schema_version previous /\
  tk_spec current = tk_spec previous /\ tk_created_at current = tk_created_at previous /\
  (forall e, tk_workspace_evidence previous = Some e -> tk_workspace_evidence current = Some e) /\
  exists suffix, tk_transitions current = tk_transitions previous ++ suffix /\
    (suffix = [] -> current = previous).

Lemma snapshot_update_continues previous current :
  validate_task_snapshot_update previous current = Ok tt ->
  task_record_wf previous /\ task_record_wf current /\ continues previous current.
Proof.
  unfold validate_task_snapshot_update. intros Hrun. ok_inv.
  repeat match goal with u : unit |- _ => destruct u end.
  repeat match goal with H : TaskRecord_validate _ = Ok _ |- _ => apply TaskRecord_validate_wf in H end.
  bool_inv.
  split_and!; [done..|]. unfold continues. split_and!; [congruence..| |].
  - intros e He. match goal with H : match tk_workspace_evidence previous with _ => _ end = _ |- _ =>
      rewrite He in H; destruct (tk_workspace_evidence current); [|done]; ok_inv; bool_inv end.
    by subst.
  - exists (drop (length (tk_transitions previous)) (tk_transitions current)). split.
    + match goal with H : take _ _ = tk_transitions previous |- _ =>
        rewrite <- H at 1 end. by rewrite take_drop.
    + intros Hnil. apply (f_equal length) in Hnil. rewrite length_drop in Hnil. cbn in Hnil.
      match goal with H : (_ <? _)%nat = false |- _ => apply Nat.ltb_ge in H end.
      assert (E : (length (tk_transitions current) =? length (tk_transitions previous))%nat = true)
        by (apply Nat.eqb_eq; lia).
      match goal with H : (_ =? _)%nat && _ = false |- _ => rewrite E in H; cbn in H end.
      by bool_inv.
Qed.

Lemma admitted_in_suffix (created : UnixMillis) ts p :
  foldM replay_step (replay_init created) ts = Ok p -> is_Some (rp_admitted_at p) ->
  existsb (fun t => bool_decide (tt_to t = TsAdmitted)) ts = true.
Proof.
  apply (foldM_ind (fun pre p => is_Some (rp_admitted_at p) ->
    existsb (fun t => bool_decide (tt_to t = TsAdmitted)) pre = true)).
  - by intros [? ?].
  - intros pre t p1 p2 IH _ Hs. unfold replay_step in Hs. ok_inv. cbn.
    rewrite existsb_app, orb_true_iff. cbn. rewrite orb_false_r.
    destruct (bool_decide (tt_to t = TsAdmitted)) eqn:E; [by right|]. intros ?%IH. by left.
Qed.

Lemma not_admitted_in_prefix (created : UnixMillis) ts p :
  foldM replay_step (replay_init created) ts = Ok p -> rp_admitted_at p = None ->
  existsb (fun t => bool_decide (tt_to t = TsAdmitted)) ts = false.
Proof.
  apply (foldM_ind (fun pre p => rp_admitted_at p = None ->
    existsb (fun t => bool_decide (tt_to t = TsAdmitted)) pre = false)); [done|].
  intros pre t p1 p2 IH _ Hs. unfold replay_step in Hs. ok_inv. cbn.
  rewrite existsb_app, orb_false_iff. cbn. rewrite orb_false_r.
  destruct (bool_decide (tt_to t = TsAdmitted)) eqn:E.
  - by destruct (rp_admitted_at p1).
  - intros ?%IH. done.
Qed.

Lemma continues_snapshot_update previous current :
  task_record_wf previous -> task_record_wf current -> continues previous current ->
  validate_task_snapshot_update previous current = Ok tt.
Proof.
  intros Hp Hc (Hsv & Hsp & Hca & Hev & suffix & Hts & Hnil).
  unfold validate_task_snapshot_update.
  rewrite (proj2 (TaskRecord_validate_wf _) Hp), (proj2 (TaskRecord_validate_wf _) Hc).
  cbn [mbind result_bind]. rewrite bind_ensure; cycle 1.
  { rewrite Hsv, Hsp, Hca, !N.eqb_refl. by rewrite bool_decide_eq_true_2. }
  assert (Hmatch : match tk_workspace_evidence previous, tk_workspace_evidence current with
    | Some before, Some after =>
        ensure (bool_decide (before = after))
          (Validation "task workspace evidence cannot change after admission")
    | Some _, None => Err (Validation "task workspace evidence cannot be removed")
    | None, Some _ =>
        ensure (existsb (fun t => bool_decide (tt_to t = TsAdmitted))
                  (drop (length (tk_transitions previous)) (tk_transitions current)))
          (Validation "workspace evidence may be added only with an admission transition")
    | None, None => Ok tt
    end = Ok tt).
  { destruct (tk_workspace_evidence previous) as [e|] eqn:Ep.
    - rewrite (Hev e) by done. by apply ensure_Ok, bool_decide_eq_true.
    - destruct (tk_workspace_evidence current) as [e|] eqn:Ec; [|done].
      apply ensure_Ok. rewrite Hts, drop_app_length.
      destruct Hp as (_ & _ & (p & Hrp & _ & Ha & _) & Hevp).
      destruct Hc as (_ & _ & (q & Hrq & _ & Hb & _) & Hevc).
      unfold evidence_matches in Hevp, Hevc. rewrite Ep in Hevp. rewrite Ec, Hsv in Hevc.
      destruct (2 <=? tk_schema_version previous)%N; [|done].
      apply not_admitted_in_prefix in Hrp; [|congruence].
      apply admitted_in_suffix in Hrq; [|rewrite Hb; by destruct Hevc].
      rewrite Hts, existsb_app, Hrp in Hrq. done. }
  rewrite Hmatch. cbn [mbind result_bind]. rewrite bind_ensure; cycle 1.
  { rewrite Hts, take_app_length, length_app, bool_decide_eq_true_2 by done.
    rewrite (proj2 (Nat.ltb_ge _ _)) by lia. done. }
  apply ensure_Ok, negb_true_iff, andb_false_iff.
  destruct (Nat.eqb_spec (length (tk_transitions current)) (length (tk_transitions previous)))
    as [Hl|]; [|by left]. right.
  rewrite Hts, length_app in Hl. destruct suffix; [|cbn in Hl; lia].
  by rewrite bool_decide_eq_true_2 by auto.
Qed.

Lemma replay_terminal_frozen p t :
  TaskState_is_terminal (rp_state p) = true -> forall q, replay_step p t <> Ok q.
Proof.
  intros Ht q Hs. unfold replay_step in Hs. ok_inv.
  rewrite (task_terminal_frozen _ (tt_to t) Ht), orb_true_r in *. done.
Qed.

Lemma snapshot_update_facts previous current :
  validate_task_snapshot_update previous current = Ok tt ->
  task_record_wf previous /\ task_record_wf current /\ continues previous current /\
  (TaskState_is_terminal (tk_state previous) = true -> current = previous).
Proof.
  intros (Hp & Hc & Hcont)%snapshot_update_continues. split_and!; [done..|].
  intros Ht. destruct Hcont as (_ & _ & Hca & _ & suffix & Hts & Hnil).
  destruct suffix as [|t suffix]; [by apply Hnil|]. exfalso.
  destruct Hp as (_ & _ & (p & Hrp & Hst & _) & _).
  destruct Hc as (_ & _ & (q & Hrq & _) & _).
  rewrite Hts, foldM_app, Hca, Hrp in Hrq. cbn in Hrq.
  apply bind_Ok in Hrq as (p' & Hs & _). rewrite <- Hst in Ht.
  by eapply replay_terminal_frozen.
Qed.

(** A task driven only through its methods is always a valid durable
    record: after any sequence of [admit] and [transition] calls on a created
    record, accepted or rejected (the clock not running backwards between
    creation and an admission), replay validation succeeds, and a task that
    has got past admission carries workspace evidence that validates against
    its specification. *)
Theorem task_calls_validate spec now r0 cs :
  TaskRecord_create spec now = Ok r0 ->
  Forall (admission_clock_ok now) cs ->
  let r := task_calls r0 cs in
  TaskRecord_validate r = Ok tt /\ tk_spec r = spec /\ tk_created_at r = now /\
  (past_admission (tk_state r) = true ->
   exists e, tk_workspace_evidence r = Some e /\
     WorkspaceMaterializationEvidence_validate_against e (ts_workspace spec) = Ok tt) /\
  (TaskState_is_terminal (tk_state r) = true -> forall more, task_calls r more = r).
Proof.
  intros Hc Hcs r. pose proof (TaskRecord_create_inv _ _ _ Hc) as Hi0.
  assert (E : tk_spec r0 = spec /\ tk_created_at r0 = now)
    by (unfold TaskRecord_create in Hc; by ok_inv).
  destruct E as [E1 E2]. rewrite <- E2 in Hcs.
  pose proof (task_calls_inv r0 cs Hi0 Hcs) as [Hwf [H2 _]].
  destruct (task_calls_steps r0 cs Hi0 Hcs) as (_ & Hsp & Hca & _).
  split_and!; [by apply TaskRecord_validate_wf|by unfold r; rewrite Hsp|by unfold r; rewrite Hca| |].
  - intros Hpa. destruct (wf_past_admission r Hwf H2 Hpa) as (e & He & Hv).
    exists e. split; [done|]. unfold r in Hv. by rewrite Hsp, E1 in Hv.
  - intros Ht more. induction more as [|c more IH]; [done|].
    cbn. by rewrite task_do_terminal.
Qed.

(** An accepted snapshot update is an append-only continuation: both
    snapshots are valid, schema, specification and creation time are
    unchanged, recorded evidence is kept, the old log is a prefix of the new
    one, and a terminal snapshot can only be replaced by itself. *)
Theorem task_update_sound previous current :
  validate_task_snapshot_update previous current = Ok tt ->
  task_record_wf previous /\ task_record_wf current /\ continues previous current /\
  (TaskState_is_terminal (tk_state previous) = true -> current = previous).
Proof. apply snapshot_update_facts. Qed.

(** Snapshot updates never reject honest progress: any later snapshot of
    a task driven through its methods is accepted as an update of any earlier
    one. *)
Theorem task_update_complete spec now r0 cs more :
  TaskRecord_create spec now = Ok r0 ->
  Forall (admission_clock_ok now) (cs ++ more) ->
  validate_task_snapshot_update (task_calls r0 cs) (task_calls r0 (cs ++ more)) = Ok tt.
Proof.
  intros Hc Hcs. pose proof (TaskRecord_create_inv _ _ _ Hc) as Hi0.
  assert (E : tk_created_at r0 = now) by (unfold TaskRecord_create in Hc; by ok_inv).
  rewrite <- E in Hcs. apply Forall_app in Hcs as [Hcs Hmore].
  pose proof (task_calls_inv r0 cs Hi0 Hcs) as H1.
  destruct (task_calls_steps r0 cs Hi0 Hcs) as (_ & _ & Hca & _).
  rewrite <- Hca in Hmore.
  pose proof (task_calls_inv _ more H1 Hmore) as H2.
  destruct (task_calls_steps _ more H1 Hmore) as (S1 & S2 & S3 & S4 & S5).
  assert (Eq : task_calls r0 (cs ++ more) = task_calls (task_calls r0 cs) more)
    by apply foldl_app. rewrite Eq.
  apply continues_snapshot_update; [apply H1|apply H2|]. split_and!; [done..|].
  destruct (task_calls_prefix (task_calls r0 cs) more) as [suffix Hs].
  exists suffix. split; [done|]. intros ->. rewrite app_nil_r in Hs. auto.
Qed.

(** The one call that breaks a record: [admit] stores the evidence before
    it checks the clock, so an admission stamped before the creation time is
    rejected but leaves a record that no longer validates and that every later
    admission rejects as already carrying evidence. *)
Theorem task_failed_admission_poisons spec created r0 e now :
  TaskRecord_create spec created = Ok r0 ->
  WorkspaceMaterializationEvidence_validate_against e (ts_workspace spec) = Ok tt ->
  (now < created)%N ->
  let r := (TaskRecord_admission r0 e now).1 in
  is_ok (TaskRecord_admission r0 e now).2 = false /\
  is_ok (TaskRecord_validate r) = false /\
  forall e' now', (TaskRecord_admission r e' now').1 = r /\
    is_ok (TaskRecord_admission r e' now').2 = false.
Proof.
  intros Hc He Hlt r. unfold TaskRecord_create in Hc. ok_inv.
  assert (Er : r = TaskRecord_set_evidence
    {| tk_schema_version := TASK_RECORD_SCHEMA_VERSION; tk_spec := spec; tk_state := TsCreated;
       tk_created_at := created; tk_workspace_evidence := None; tk_admitted_at := None;
       tk_started_at := None; tk_finished_at := None; tk_transitions := [] |} e /\
    is_ok (TaskRecord_admission
    {| tk_schema_version := TASK_RECORD_SCHEMA_VERSION; tk_spec := spec; tk_state := TsCreated;
       tk_created_at := created; tk_workspace_evidence := None; tk_admitted_at := None;
       tk_started_at := None; tk_finished_at := None; tk_transitions := [] |} e now).2 = false).
  { unfold r, TaskRecord_admission. cbn [tk_state tk_spec]. rewrite bool_decide_eq_true_2 by done.
    cbn [negb]. rewrite He. cbn [is_some tk_workspace_evidence].
    unfold TaskRecord_apply_transition, tk_previous_at. cbn.
    by rewrite (proj2 (N.ltb_lt _ _) Hlt). }
  destruct Er as [-> Herr]. split_and!; [done| |].
  - match goal with |- is_ok ?x = false => destruct x as [[]|] eqn:Hv; [|done] end.
    apply TaskRecord_validate_wf in Hv as (_ & _ & _ & Hev). cbn in Hev. by destruct Hev as [[? ?] _].
  - intros e' now'. unfold TaskRecord_admission. cbn [tk_state TaskRecord_set_evidence].
    rewrite bool_decide_eq_true_2 by done. cbn [negb].
    destruct (WorkspaceMaterializationEvidence_validate_against e' _); done.
Qed.
End lifecycle.

(** ** Witnesses *)
Definition sample_task : TaskSpec := {|
  ts_schema_version := 1; ts_id := from_uuid 3;
  ts_identity := {| ti_task_id := from_uuid 3; ti_principal := "agent/alice" |};
  ts_workspace := sample_workspace; ts_capabilities := mkCapabilitySet ["git.read"];
  ts_budget := {| rb_cpu_millis := Some 1000%N; rb_memory_bytes := None;
                  rb_wall_clock_ms := Some 60000%N; rb_gpu_devices := Some 0%N;
                  rb_model_tokens := None |};
  ts_sandbox := {| sb_minimum_isolation := IsoContainer; sb_network := NetworkPolicy_default;
                   sb_writable_workspace := true |} |}.

Definition sample_task_record : TaskRecord := {|
  tk_schema_version := 2; tk_spec := sample_task; tk_state := TsCreated; tk_created_at := 50;
  tk_workspace_evidence := None; tk_admitted_at := None; tk_started_at := None;
  tk_finished_at := None; tk_transitions := [] |}.

Definition sample_task_calls : list task_call :=
  [CallTransition TsAdmitted 51; CallAdmission sample_evidence 60; CallTransition TsRunning 55;
   CallTransition TsRunning 61; CallTransition TsSuspended 62; CallTransition TsRunning 63].

Lemma task_calls_validate_witness :
  let r := @task_calls toy_workspace_json toy_sha sample_task_record sample_task_calls in
  tk_state r = TsRunning /\ tk_started_at r = Some 61%N /\
  @TaskRecord_validate toy_workspace_json toy_sha r = Ok tt.
Proof.
  intros r. split; [vm_compute; reflexivity|]. split; [vm_compute; reflexivity|].
  refine (proj1 (@task_calls_validate toy_workspace_json toy_sha sample_task 50 sample_task_record
    sample_task_calls _ _)); [vm_compute; reflexivity|repeat constructor; vm_compute; discriminate].
Defined.

Lemma task_update_complete_witness :
  @validate_task_snapshot_update toy_workspace_json toy_sha
    (@task_calls toy_workspace_json toy_sha sample_task_record [])
    (@task_calls toy_workspace_json toy_sha sample_task_record ([] ++ sample_task_calls)) = Ok tt.
Proof.
  apply (@task_update_complete toy_workspace_json toy_sha sample_task 50 sample_task_record);
    [vm_compute; reflexivity|repeat constructor; vm_compute; discriminate].
Defined.

Lemma task_update_sound_witness :
  continues sample_task_record
    (@task_calls toy_workspace_json toy_sha sample_task_record sample_task_calls).
Proof.
  refine (proj1 (proj2 (proj2 (@task_update_sound toy_workspace_json toy_sha _ _ _)))).
  vm_compute. reflexivity.
Defined.

Lemma task_failed_admission_poisons_witness :
  is_ok (@TaskRecord_validate toy_workspace_json toy_sha
    (@TaskRecord_admission toy_workspace_json toy_sha sample_task_record sample_evidence 49).1)
    = false.
Proof.
  refine (proj1 (proj2 (@task_failed_admission_poisons toy_workspace_json toy_sha sample_task 50
    sample_task_record sample_evidence 49 _ _ _))); [vm_compute; reflexivity..].
Defined.
