(* ===== verification/Publication.v ===== *)
(** * Workflow-step publication fencing ([hub-core/src/publication.rs])

    The authority that keeps a superseded step attempt from publishing.  The
    repository trait is the class [PublicationFenceRepository] with its laws
    [PublicationFenceLaws]; the safety theorems are proved from the laws, and
    the in-memory implementation is shown to satisfy them. *)

From stdpp Require Import base gmap strings list.
From S2P Require Import Prelude Text Core.

Definition PUBLICATION_FENCE_SCHEMA_VERSION : N := 1.
Definition MAX_PUBLICATION_OUTPUTS : N := 256.

Record PublicationFence := {
  pf_schema_version : N;
  pf_workflow : WorkflowId;
  pf_step_key : string;
  pf_attempt : AttemptId;
  pf_generation : N;
}.

Record AuthoritativeStepPublication := {
  asp_fence : PublicationFence;
  asp_outputs : gmap string ArtifactId;
}.

Inductive PublicationCommit :=
| Published
| Idempotent.

#[global] Instance PublicationFence_eq_dec : EqDecision PublicationFence.
Proof. solve_decision. Defined.
#[global] Instance AuthoritativeStepPublication_eq_dec : EqDecision AuthoritativeStepPublication.
Proof. solve_decision. Defined.

Definition validate_step_key (key : string) : Result unit :=
  ensure (valid_slug key)
    (Validation "publication step key {key:?} must match [a-z0-9][a-z0-9_-]{{0,63}}").

Definition validate_output_name (name : string) : Result unit :=
  ensure (negb (bool_decide (name = "")) && (slen name <=? 128)%N &&
          forallb (fun c => negb (is_whitespace c) && negb (is_control c)) (chars name))
    (Validation "publication output name {name:?} must be 1..=128 characters without whitespace/control characters").

Definition PublicationFence_validate (f : PublicationFence) : Result unit :=
  _ ← ensure (pf_schema_version f =? PUBLICATION_FENCE_SCHEMA_VERSION)%N
        (Validation "unsupported publication fence schema_version {}: expected {}");
  _ ← validate_step_key (pf_step_key f);
  ensure (negb (pf_generation f =? 0)%N)
    (Validation "publication fence generation must be at least 1").

Definition AuthoritativeStepPublication_validate (p : AuthoritativeStepPublication) : Result unit :=
  _ ← PublicationFence_validate (asp_fence p);
  _ ← ensure (N.of_nat (size (asp_outputs p)) <=? MAX_PUBLICATION_OUTPUTS)%N
        (Validation "authoritative publication has {} outputs; maximum is {}");
  forM_ validate_output_name (map_keys (asp_outputs p)).

(** ** The repository trait *)
Class PublicationFenceRepository (S : Type) := {
  advance_publication_fence :
    S -> WorkflowId -> string -> AttemptId -> S * Result PublicationFence;
  publish_authoritative_outputs :
    S -> AuthoritativeStepPublication -> S * Result PublicationCommit;
  current_publication_fence : S -> WorkflowId -> string -> Result (option PublicationFence);
  authoritative_publication :
    S -> WorkflowId -> string -> Result (option AuthoritativeStepPublication);
}.

Section trait.
Context {S : Type} `{PublicationFenceRepository S}.

(** The generation in force for a step, 0 before the first attempt. *)
Definition generation_of (s : S) (w : WorkflowId) (k : string) : N :=
  match current_publication_fence s w k with
  | Ok (Some f) => pf_generation f
  | _ => 0
  end.

(** The two observations of one step agree in two states. *)
Definition same_step (s s' : S) (w : WorkflowId) (k : string) : Prop :=
  current_publication_fence s' w k = current_publication_fence s w k /\
  authoritative_publication s' w k = authoritative_publication s w k.

(** No observation of any step tells the two states apart. *)
Definition same_steps (s s' : S) : Prop := forall w k, same_step s s' w k.
End trait.

(** What the trait's documentation requires of an implementation. *)
Class PublicationFenceLaws (S : Type) `{PublicationFenceRepository S} : Prop := {
  advance_Ok s s' w k a f :
    advance_publication_fence s w k a = (s', Ok f) ->
    pf_workflow f = w /\ pf_step_key f = k /\ pf_attempt f = a /\
    pf_generation f = (generation_of s w k + 1)%N /\ (pf_generation f <= u64_max)%N /\
    current_publication_fence s' w k = Ok (Some f) /\
    authoritative_publication s' w k = Ok None /\
    forall w' k', (w', k') <> (w, k) -> same_step s s' w' k';
  advance_Err s s' w k a e :
    advance_publication_fence s w k a = (s', Err e) -> same_steps s s';
  publish_Ok s s' p c :
    publish_authoritative_outputs s p = (s', Ok c) ->
    let w := pf_workflow (asp_fence p) in
    let k := pf_step_key (asp_fence p) in
    current_publication_fence s w k = Ok (Some (asp_fence p)) /\
    current_publication_fence s' w k = Ok (Some (asp_fence p)) /\
    authoritative_publication s' w k = Ok (Some p) /\
    (forall w' k', (w', k') <> (w, k) -> same_step s s' w' k') /\
    match c with
    | Published => authoritative_publication s w k = Ok None
    | Idempotent => authoritative_publication s w k = Ok (Some p)
    end;
  publish_Err s s' p e :
    publish_authoritative_outputs s p = (s', Err e) -> same_steps s s';
}.

(** ** The in-memory implementation *)
Record FenceEntry := {
  fe_fence : PublicationFence;
  fe_publication : option AuthoritativeStepPublication;
}.

Abbreviation InMemoryPublicationFences := (gmap (WorkflowId * string) FenceEntry).

Definition InMemoryPublicationFences_advance (entries : InMemoryPublicationFences)
    (workflow : WorkflowId) (step_key : string) (attempt : AttemptId)
    : InMemoryPublicationFences * Result PublicationFence :=
  match validate_step_key step_key with
  | Err e => (entries, Err e)
  | Ok _ =>
      let key := (workflow, step_key) in
      match
        match entries !! key with
        | Some entry => ok_or (checked_add_u64 (pf_generation (fe_fence entry)) 1)
                          (Storage "publication fence generation overflow")
        | None => Ok 1%N
        end
      with
      | Err e => (entries, Err e)
      | Ok generation =>
          let fence := {| pf_schema_version := PUBLICATION_FENCE_SCHEMA_VERSION;
                          pf_workflow := workflow; pf_step_key := step_key;
                          pf_attempt := attempt; pf_generation := generation |} in
          (<[key := {| fe_fence := fence; fe_publication := None |}]> entries, Ok fence)
      end
  end.

Definition InMemoryPublicationFences_publish (entries : InMemoryPublicationFences)
    (publication : AuthoritativeStepPublication)
    : InMemoryPublicationFences * Result PublicationCommit :=
  match AuthoritativeStepPublication_validate publication with
  | Err e => (entries, Err e)
  | Ok _ =>
      let key := (pf_workflow (asp_fence publication), pf_step_key (asp_fence publication)) in
      match entries !! key with
      | None => (entries, Err (Validation "publication has no issued fence"))
      | Some entry =>
          if negb (bool_decide (fe_fence entry = asp_fence publication))
          then (entries, Err (Validation "publication fence is stale or does not match the current attempt"))
          else
            match fe_publication entry with
            | None =>
                (<[key := {| fe_fence := fe_fence entry; fe_publication := Some publication |}]>
                   entries, Ok Published)
            | Some existing =>
                if bool_decide (existing = publication) then (entries, Ok Idempotent)
                else (entries, Err (Validation "current publication fence already committed different outputs"))
            end
      end
  end.

Definition InMemoryPublicationFences_current (entries : InMemoryPublicationFences)
    (workflow : WorkflowId) (step_key : string) : Result (option PublicationFence) :=
  _ ← validate_step_key step_key;
  Ok (fe_fence <$> entries !! (workflow, step_key)).

Definition InMemoryPublicationFences_authoritative (entries : InMemoryPublicationFences)
    (workflow : WorkflowId) (step_key : string) : Result (option AuthoritativeStepPublication) :=
  _ ← validate_step_key step_key;
  Ok (entries !! (workflow, step_key) ≫= fe_publication).

#[global] Instance InMemoryPublicationFences_repository :
  PublicationFenceRepository InMemoryPublicationFences := {|
  advance_publication_fence := InMemoryPublicationFences_advance;
  publish_authoritative_outputs := InMemoryPublicationFences_publish;
  current_publication_fence := InMemoryPublicationFences_current;
  authoritative_publication := InMemoryPublicationFences_authoritative;
|}.

(** ** Histories *)
Inductive fence_op :=
| OpAdvance (w : WorkflowId) (k : string) (a : AttemptId)
| OpPublish (p : AuthoritativeStepPublication).

Section safety.
Context {S : Type} `{PublicationFenceLaws S}.

Definition fence_do (s : S) (op : fence_op) : S :=
  match op with
  | OpAdvance w k a => (advance_publication_fence s w k a).1
  | OpPublish p => (publish_authoritative_outputs s p).1
  end.

Definition fence_run (s : S) (ops : list fence_op) : S := foldl fence_do s ops.

(** Once attempt [f] holds the step, it stays the holder, with its
    publication, or the generation has moved past it. *)
Definition held_or_passed (f : PublicationFence) (pub : option AuthoritativeStepPublication)
    (s : S) : Prop :=
  (pf_generation f < generation_of s (pf_workflow f) (pf_step_key f))%N \/
  (current_publication_fence s (pf_workflow f) (pf_step_key f) = Ok (Some f) /\
   forall p, pub = Some p ->
     authoritative_publication s (pf_workflow f) (pf_step_key f) = Ok (Some p)).

Lemma generation_same s s' w k : same_step s s' w k -> generation_of s' w k = generation_of s w k.
Proof. unfold same_step, generation_of. by intros [-> _]. Qed.

Lemma held_or_passed_same f pub s s' :
  same_step s s' (pf_workflow f) (pf_step_key f) -> held_or_passed f pub s ->
  held_or_passed f pub s'.
Proof.
  intros Hs. unfold held_or_passed. rewrite (generation_same _ _ _ _ Hs).
  destruct Hs as [Hc Ha]. by rewrite Hc, Ha.
Qed.

Lemma held_or_passed_do f pub s op : held_or_passed f pub s -> held_or_passed f pub (fence_do s op).
Proof.
  intros Hh. destruct op as [w k a|p]; cbn.
  - destruct (advance_publication_fence s w k a) as [s' [f'|e]] eqn:Hop; cbn;
      [|by eapply held_or_passed_same, Hh; eapply advance_Err].
    apply advance_Ok in Hop as (_ & _ & _ & Hg & _ & Hc & _ & Hother).
    destruct (decide ((pf_workflow f, pf_step_key f) = (w, k))) as [[= <- <-]|Hne].
    + left. unfold generation_of at 1. rewrite Hc, Hg. destruct Hh as [Hlt|[Hcur _]]; [lia|].
      unfold generation_of. rewrite Hcur. lia.
    + eapply held_or_passed_same; [|exact Hh]. by apply Hother.
  - destruct (publish_authoritative_outputs s p) as [s' [c|e]] eqn:Hop; cbn;
      [|by eapply held_or_passed_same, Hh; eapply publish_Err].
    apply publish_Ok in Hop as (Hcur & Hcur' & Hau & Hother & Hc).
    destruct (decide ((pf_workflow f, pf_step_key f)
                      = (pf_workflow (asp_fence p), pf_step_key (asp_fence p)))) as [[= Ew Ek]|Hne].
    + unfold held_or_passed, generation_of in *. rewrite Ew, Ek in *.
      rewrite Hcur' . rewrite Hcur in Hh. destruct Hh as [Hlt|[[= <-] Hp]]; [by left|].
      right. split; [done|]. intros q Hq. specialize (Hp q Hq). destruct c.
      * congruence.
      * congruence.
    + eapply held_or_passed_same; [|exact Hh]. by apply Hother.
Qed.

Lemma held_or_passed_run f pub s ops : held_or_passed f pub s -> held_or_passed f pub (fence_run s ops).
Proof.
  revert s; induction ops as [|op ops IH]; intros s Hs; [done|]. by apply IH, held_or_passed_do.
Qed.

Lemma generation_le_do s op w k : (generation_of s w k <= generation_of (fence_do s op) w k)%N.
Proof.
  destruct op as [w' k' a|p]; cbn.
  - destruct (advance_publication_fence s w' k' a) as [s' [f'|e]] eqn:Hop; cbn;
      [|by rewrite (generation_same s s') by (by eapply advance_Err)].
    apply advance_Ok in Hop as (_ & _ & _ & Hg & _ & Hc & _ & Hother).
    destruct (decide ((w, k) = (w', k'))) as [[= -> ->]|Hne].
    + unfold generation_of at 2. rewrite Hc, Hg. lia.
    + by rewrite (generation_same s s') by (by apply Hother).
  - destruct (publish_authoritative_outputs s p) as [s' [c|e]] eqn:Hop; cbn;
      [|by rewrite (generation_same s s') by (by eapply publish_Err)].
    apply publish_Ok in Hop as (Hcur & Hcur' & _ & Hother & _).
    destruct (decide ((w, k) = (pf_workflow (asp_fence p), pf_step_key (asp_fence p))))
      as [[= -> ->]|Hne].
    + unfold generation_of. by rewrite Hcur, Hcur'.
    + by rewrite (generation_same s s') by (by apply Hother).
Qed.

Lemma generation_le_run s ops w k : (generation_of s w k <= generation_of (fence_run s ops) w k)%N.
Proof.
  revert s; induction ops as [|op ops IH]; intros s; [done|].
  etrans; [apply generation_le_do|apply IH].
Qed.

Lemma publish_needs_generation s s' p c :
  publish_authoritative_outputs s p = (s', Ok c) ->
  generation_of s (pf_workflow (asp_fence p)) (pf_step_key (asp_fence p))
    = pf_generation (asp_fence p).
Proof. intros (Hcur & _)%publish_Ok. unfold generation_of. by rewrite Hcur. Qed.

(** A superseded attempt can never publish again. *)
Lemma stale_fence_rejected s0 s1 w k a f ops s3 a' f' ops' p :
  advance_publication_fence s0 w k a = (s1, Ok f) ->
  advance_publication_fence (fence_run s1 ops) w k a' = (s3, Ok f') ->
  asp_fence p = f ->
  exists e, (publish_authoritative_outputs (fence_run s3 ops') p).2 = Err e.
Proof.
  intros (Hw & Hk & _ & _ & _ & Hc & _)%advance_Ok (_ & _ & _ & Hg' & _ & Hc' & _)%advance_Ok Hp.
  destruct (publish_authoritative_outputs (fence_run s3 ops') p) as [s4 [c|e]] eqn:Hop;
    [|by exists e].
  apply publish_needs_generation in Hop. rewrite Hp, Hw, Hk in Hop.
  pose proof (generation_le_run s1 ops w k) as Hle. unfold generation_of at 1 in Hle.
  rewrite Hc in Hle.
  pose proof (generation_le_run s3 ops' w k) as Hle'. unfold generation_of at 1 in Hle'.
  rewrite Hc' in Hle'. lia.
Qed.

(** One fence commits at most one output map. *)
Lemma publication_unique s1 s2 p1 c1 ops s4 p2 c2 :
  publish_authoritative_outputs s1 p1 = (s2, Ok c1) ->
  publish_authoritative_outputs (fence_run s2 ops) p2 = (s4, Ok c2) ->
  asp_fence p2 = asp_fence p1 ->
  p2 = p1 /\ c2 = Idempotent /\ same_steps (fence_run s2 ops) s4.
Proof.
  intros (Hcur & Hcur' & Hau & _)%publish_Ok Hop2 Hf.
  assert (Hh : held_or_passed (asp_fence p1) (Some p1) s2).
  { right. split; [done|]. by intros p [= <-]. }
  apply (held_or_passed_run _ _ _ ops) in Hh.
  pose proof (publish_needs_generation _ _ _ _ Hop2) as Hg. rewrite Hf in Hg.
  apply publish_Ok in Hop2 as (Hc1 & Hc2 & Ha & Hother & Hc). rewrite Hf in *.
  destruct Hh as [Hlt|[_ Hp]]; [lia|]. specialize (Hp p1 eq_refl). rewrite Hp in Hc.
  destruct c2; [done|]. injection Hc as ->. split_and!; [done|done|]. intros w k.
  destruct (decide ((w, k) = (pf_workflow (asp_fence p2), pf_step_key (asp_fence p2)))) as [[= -> ->]|];
    [by split; congruence|by apply Hother].
Qed.
End safety.

(** ** The in-memory implementation satisfies the laws *)
Lemma inmemory_same_step entries key entry w k :
  (w, k) <> key -> same_step entries (<[key := entry]> entries : InMemoryPublicationFences) w k.
Proof.
  intros Hne. unfold same_step. cbn.
  unfold InMemoryPublicationFences_current, InMemoryPublicationFences_authoritative.
  by rewrite lookup_insert_ne.
Qed.

Lemma valid_key_unit k u : validate_step_key k = Ok u -> validate_step_key k = Ok tt.
Proof. by destruct u. Qed.

Lemma inmemory_advance_Err s s' w k a e :
  InMemoryPublicationFences_advance s w k a = (s', Err e) -> s' = s.
Proof. unfold InMemoryPublicationFences_advance. repeat case_match; naive_solver. Qed.

Lemma inmemory_publish_Err s s' p e : InMemoryPublicationFences_publish s p = (s', Err e) -> s' = s.
Proof. unfold InMemoryPublicationFences_publish. repeat case_match; naive_solver. Qed.

Lemma inmemory_publish_again s s' p : InMemoryPublicationFences_publish s p = (s', Ok Idempotent) -> s' = s.
Proof. unfold InMemoryPublicationFences_publish. repeat case_match; naive_solver. Qed.

#[global] Instance InMemoryPublicationFences_laws : PublicationFenceLaws InMemoryPublicationFences.
Proof.
  split; cbn.
  - intros s s' w k a f. unfold InMemoryPublicationFences_advance, generation_of. cbn.
    unfold InMemoryPublicationFences_current, InMemoryPublicationFences_authoritative.
    destruct (validate_step_key k) as [u|] eqn:Hk; [|done].
    destruct (s !! (w, k)) as [entry|] eqn:E; cbn.
    + destruct (checked_add_u64 _ 1) as [g|] eqn:Hg; cbn; [|done]. intros [= <- <-].
      apply checked_add_u64_Some in Hg as [-> Hle]. cbn. rewrite lookup_insert_eq. cbn.
      split_and!; try done. intros. by apply inmemory_same_step.
    + intros [= <- <-]. cbn. rewrite lookup_insert_eq. cbn. split_and!; try done.
      intros. by apply inmemory_same_step.
  - by intros s s' w k a e ->%inmemory_advance_Err.
  - intros s s' p c. unfold InMemoryPublicationFences_publish.
    destruct (AuthoritativeStepPublication_validate p) eqn:Hv; [|done].
    assert (Hk : validate_step_key (pf_step_key (asp_fence p)) = Ok tt).
    { unfold AuthoritativeStepPublication_validate, PublicationFence_validate in Hv. ok_inv.
      eauto using valid_key_unit. }
    unfold InMemoryPublicationFences_current, InMemoryPublicationFences_authoritative.
    rewrite Hk. destruct (s !! _) as [entry|] eqn:E; [|done].
    case_bool_decide as Hf; cbn; [|done]. destruct (fe_publication entry) as [q|] eqn:Hq.
    + case_bool_decide; [|done]. intros [= <- <-]. rewrite E. cbn. subst.
      split_and!; try done; congruence.
    + intros [= <- <-]. rewrite lookup_insert_eq. cbn. split_and!; try congruence.
      intros. by apply inmemory_same_step.
  - by intros s s' p e ->%inmemory_publish_Err.
Qed.

(** Fencing: once a newer attempt of a step has been given the fence, the
    superseded attempt is rejected for ever -- after any further advances and
    publications, on this step or others, publishing with the old fence fails
    and changes nothing. *)
Theorem publication_stale_fence_rejected (s0 s1 s3 : InMemoryPublicationFences)
    w k a f ops a' f' ops' p :
  InMemoryPublicationFences_advance s0 w k a = (s1, Ok f) ->
  InMemoryPublicationFences_advance (fence_run s1 ops) w k a' = (s3, Ok f') ->
  asp_fence p = f ->
  exists e, InMemoryPublicationFences_publish (fence_run s3 ops') p = (fence_run s3 ops', Err e).
Proof.
  intros H1 H2 Hp. destruct (stale_fence_rejected (H := InMemoryPublicationFences_repository)
    s0 s1 w k a f ops s3 a' f' ops' p H1 H2 Hp) as [e He].
  exists e. destruct (InMemoryPublicationFences_publish _ p) as [s r] eqn:E.
  assert (r = Err e) as -> by (revert He; cbn; by rewrite E). f_equal. by eapply inmemory_publish_Err.
Qed.

(** At most one output map is ever authoritative for a fence: if a
    publication was accepted, any later accepted publication with the same
    fence is the same one, is reported as an idempotent replay, and leaves the
    store as it was. *)
Theorem publication_single_valued (s1 s2 s4 : InMemoryPublicationFences) p1 c1 ops p2 c2 :
  InMemoryPublicationFences_publish s1 p1 = (s2, Ok c1) ->
  InMemoryPublicationFences_publish (fence_run s2 ops) p2 = (s4, Ok c2) ->
  asp_fence p2 = asp_fence p1 ->
  p2 = p1 /\ c2 = Idempotent /\ s4 = fence_run s2 ops.
Proof.
  intros H1 H2 Hf. destruct (publication_unique (H := InMemoryPublicationFences_repository)
    s1 s2 p1 c1 ops s4 p2 c2 H1 H2 Hf) as (-> & -> & _).
  by apply inmemory_publish_again in H2.
Qed.

(** The in-memory store meets the trait's contract: advancing issues the
    next generation for that step (or fails without effect at the end of
    [u64]), clears its publication and touches no other step; a publication is
    accepted only under the current fence, first time or identical replay; a
    failed call changes nothing. *)
Theorem publication_inmemory_refines :
  PublicationFenceLaws InMemoryPublicationFences /\
  (forall s s' w k a e, InMemoryPublicationFences_advance s w k a = (s', Err e) -> s' = s) /\
  (forall s s' p e, InMemoryPublicationFences_publish s p = (s', Err e) -> s' = s).
Proof. split_and!; [apply InMemoryPublicationFences_laws|apply inmemory_advance_Err|apply inmemory_publish_Err]. Qed.

(** ** Witnesses *)
Definition pf (g : N) (a : N) : PublicationFence := {|
  pf_schema_version := 1; pf_workflow := from_uuid 1; pf_step_key := "fit";
  pf_attempt := from_uuid a; pf_generation := g |}.

Definition pub (g a art : N) : AuthoritativeStepPublication := {|
  asp_fence := pf g a; asp_outputs := {[ "stdout" := from_uuid art ]} |}.

Definition fences1 : InMemoryPublicationFences :=
  (InMemoryPublicationFences_advance ∅ (from_uuid 1) "fit" (from_uuid 10)).1.
Definition fences2 : InMemoryPublicationFences :=
  (InMemoryPublicationFences_publish fences1 (pub 1 10 99)).1.
Definition fences3 : InMemoryPublicationFences :=
  (InMemoryPublicationFences_advance fences2 (from_uuid 1) "fit" (from_uuid 11)).1.

Lemma publication_stale_fence_rejected_witness :
  exists e, InMemoryPublicationFences_publish (fence_run fences3 [OpPublish (pub 2 11 98)])
              (pub 1 10 99)
            = (fence_run fences3 [OpPublish (pub 2 11 98)], Err e).
Proof.
  refine (publication_stale_fence_rejected ∅ fences1 fences3
    (from_uuid 1) "fit" (from_uuid 10) (pf 1 10) [OpPublish (pub 1 10 99)] (from_uuid 11) (pf 2 11)
    [OpPublish (pub 2 11 98)] (pub 1 10 99) _ _ _).
  - apply pair_snd_eq. vm_compute. reflexivity.
  - apply (pair_snd_eq (InMemoryPublicationFences_advance fences2 (from_uuid 1) "fit" (from_uuid 11))).
    vm_compute. reflexivity.
  - reflexivity.
Defined.

Lemma publication_single_valued_witness :
  (InMemoryPublicationFences_publish fences2 (pub 1 10 99)).2 = Ok Idempotent /\
  (InMemoryPublicationFences_publish fences2 (pub 1 10 99)).1 = fences2.
Proof.
  assert (Hi : (InMemoryPublicationFences_publish fences2 (pub 1 10 99)).2 = Ok Idempotent)
    by (vm_compute; reflexivity).
  split; [exact Hi|].
  refine (proj2 (proj2 (publication_single_valued fences1 fences2 _ (pub 1 10 99) Published []
    (pub 1 10 99) Idempotent _ (pair_snd_eq _ _ Hi) eq_refl))).
  apply pair_snd_eq. vm_compute. reflexivity.
Defined.
