(* ===== verification/Event.v ===== *)
(** * Lifecycle events ([hub-core/src/event.rs])

    The append-only chronology derived from repository mutations: the event
    vocabulary, the in-memory log with its sequence numbers and pages, and the
    functions that derive the events of a snapshot change. *)

From stdpp Require Import base gmap strings list pretty.
From S2P Require Import Prelude Core Version Digest Component Run Workflow Task TaskLifecycle.

Definition MAX_EVENT_PAGE : N := 1000.
Definition DEFAULT_EVENT_PAGE : N := 100.

Inductive LifecycleEventKind :=
| ComponentRegistered
| ArtifactRecorded
| RunCreated
| RunStateChanged
| TaskCreated
| TaskStateChanged
| SandboxAttemptStateChanged
| WorkflowCreated
| WorkflowStateChanged
| WorkflowCancelRequested
| WorkflowAttemptCreated
| WorkflowAttemptStateChanged.

#[global] Instance LifecycleEventKind_eq_dec : EqDecision LifecycleEventKind.
Proof. solve_decision. Defined.

Definition LifecycleEventKind_as_str (k : LifecycleEventKind) : string :=
  match k with
  | ComponentRegistered => "component_registered"
  | ArtifactRecorded => "artifact_recorded"
  | RunCreated => "run_created"
  | RunStateChanged => "run_state_changed"
  | TaskCreated => "task_created"
  | TaskStateChanged => "task_state_changed"
  | SandboxAttemptStateChanged => "sandbox_attempt_state_changed"
  | WorkflowCreated => "workflow_created"
  | WorkflowStateChanged => "workflow_state_changed"
  | WorkflowCancelRequested => "workflow_cancel_requested"
  | WorkflowAttemptCreated => "workflow_attempt_created"
  | WorkflowAttemptStateChanged => "workflow_attempt_state_changed"
  end.

Definition LifecycleEventKind_parse (raw : string) : option LifecycleEventKind :=
  if bool_decide (raw = "component_registered") then Some ComponentRegistered
  else if bool_decide (raw = "artifact_recorded") then Some ArtifactRecorded
  else if bool_decide (raw = "run_created") then Some RunCreated
  else if bool_decide (raw = "run_state_changed") then Some RunStateChanged
  else if bool_decide (raw = "task_created") then Some TaskCreated
  else if bool_decide (raw = "task_state_changed") then Some TaskStateChanged
  else if bool_decide (raw = "sandbox_attempt_state_changed") then Some SandboxAttemptStateChanged
  else if bool_decide (raw = "workflow_created") then Some WorkflowCreated
  else if bool_decide (raw = "workflow_state_changed") then Some WorkflowStateChanged
  else if bool_decide (raw = "workflow_cancel_requested") then Some WorkflowCancelRequested
  else if bool_decide (raw = "workflow_attempt_created") then Some WorkflowAttemptCreated
  else if bool_decide (raw = "workflow_attempt_state_changed") then Some WorkflowAttemptStateChanged
  else None.

Inductive LifecycleEntityType :=
| LeComponent
| LeArtifact
| LeRun
| LeTask
| LeSandboxAttempt
| LeWorkflow.

#[global] Instance LifecycleEntityType_eq_dec : EqDecision LifecycleEntityType.
Proof. solve_decision. Defined.

Definition LifecycleEntityType_as_str (e : LifecycleEntityType) : string :=
  match e with
  | LeComponent => "component"
  | LeArtifact => "artifact"
  | LeRun => "run"
  | LeTask => "task"
  | LeSandboxAttempt => "sandbox_attempt"
  | LeWorkflow => "workflow"
  end.

Definition LifecycleEntityType_parse (raw : string) : option LifecycleEntityType :=
  if bool_decide (raw = "component") then Some LeComponent
  else if bool_decide (raw = "artifact") then Some LeArtifact
  else if bool_decide (raw = "run") then Some LeRun
  else if bool_decide (raw = "task") then Some LeTask
  else if bool_decide (raw = "sandbox_attempt") then Some LeSandboxAttempt
  else if bool_decide (raw = "workflow") then Some LeWorkflow
  else None.

Record NewLifecycleEvent := {
  ne_recorded_at : UnixMillis;
  ne_kind : LifecycleEventKind;
  ne_entity_type : LifecycleEntityType;
  ne_entity_id : string;
  ne_attributes : gmap string string;
}.

Record LifecycleEvent := {
  ev_sequence : N;
  ev_recorded_at : UnixMillis;
  ev_kind : LifecycleEventKind;
  ev_entity_type : LifecycleEntityType;
  ev_entity_id : string;
  ev_attributes : gmap string string;
}.

(** ** The in-memory log *)
Record InMemoryLifecycleEvents := {
  il_next_sequence : N;
  il_events : list LifecycleEvent;
}.

#[global] Instance NewLifecycleEvent_eq_dec : EqDecision NewLifecycleEvent.
Proof. solve_decision. Defined.
#[global] Instance LifecycleEvent_eq_dec : EqDecision LifecycleEvent.
Proof. solve_decision. Defined.

Definition InMemoryLifecycleEvents_default : InMemoryLifecycleEvents :=
  {| il_next_sequence := 0; il_events := [] |}.

Definition stored_event (sequence : N) (event : NewLifecycleEvent) : LifecycleEvent :=
  {| ev_sequence := sequence; ev_recorded_at := ne_recorded_at event; ev_kind := ne_kind event;
     ev_entity_type := ne_entity_type event; ev_entity_id := ne_entity_id event;
     ev_attributes := ne_attributes event |}.

Definition InMemoryLifecycleEvents_record (inner : InMemoryLifecycleEvents)
    (event : NewLifecycleEvent) : InMemoryLifecycleEvents * Result LifecycleEvent :=
  match checked_add_u64 (il_next_sequence inner) 1 with
  | None => (inner, Err (Storage "lifecycle event sequence exhausted"))
  | Some next =>
      let stored := stored_event next event in
      ({| il_next_sequence := next; il_events := il_events inner ++ [stored] |}, Ok stored)
  end.

Definition validate_event_page_limit (limit : N) : Result unit :=
  ensure ((1 <=? limit)%N && (limit <=? MAX_EVENT_PAGE)%N)
    (Validation "event page limit must be 1..={MAX_EVENT_PAGE}").

Definition InMemoryLifecycleEvents_list_after (inner : InMemoryLifecycleEvents)
    (after_sequence limit : N) : Result (list LifecycleEvent) :=
  _ ← validate_event_page_limit limit;
  Ok (take (N.to_nat limit)
        (List.filter (fun event => (after_sequence <? ev_sequence event)%N) (il_events inner))).

Definition InMemoryLifecycleEvents_high_water_sequence (inner : InMemoryLifecycleEvents) : Result N :=
  Ok (il_next_sequence inner).

(** ** Events derived from records *)
Definition run_state_name (s : RunState) : string :=
  match s with
  | RsCreated => "created"
  | RsValidated => "validated"
  | RsQueued => "queued"
  | RsRunning => "running"
  | RsSucceeded => "succeeded"
  | RsFailed => "failed"
  | RsCancelled => "cancelled"
  end.

Definition workflow_state_name (s : WorkflowState) : string :=
  match s with
  | WsCreated => "created"
  | WsRunning => "running"
  | WsSucceeded => "succeeded"
  | WsFailed => "failed"
  | WsCancelled => "cancelled"
  end.

Section derive.
Context `{UuidLib}.

Definition component_registered_event (m : ComponentManifest) (recorded_at : UnixMillis)
    : NewLifecycleEvent :=
  {| ne_recorded_at := recorded_at; ne_kind := ComponentRegistered; ne_entity_type := LeComponent;
     ne_entity_id := id_to_string (m_id m);
     ne_attributes := {[ "name" := component_name_str (m_name m);
                         "version" := version_str (m_version m) ]} |}.

Definition artifact_recorded_event (a : ArtifactMeta) : NewLifecycleEvent :=
  let attributes : gmap string string :=
    {[ "name" := art_name a; "media_type" := art_media_type a;
       "digest" := ContentDigest_to_hex (art_digest a); "size" := pretty (art_size a) ]} in
  {| ne_recorded_at := art_created_at a; ne_kind := ArtifactRecorded; ne_entity_type := LeArtifact;
     ne_entity_id := id_to_string (art_id a);
     ne_attributes := match art_produced_by_run a with
                      | Some run => <["produced_by_run" := id_to_string run]> attributes
                      | None => attributes
                      end |}.

Definition run_transition_event {J : JsonLib} (r : RunRecord) (t : Transition) : NewLifecycleEvent :=
  {| ne_recorded_at := tr_at t; ne_kind := RunStateChanged; ne_entity_type := LeRun;
     ne_entity_id := id_to_string (run_id r);
     ne_attributes := {[ "from" := run_state_name (tr_from t); "to" := run_state_name (tr_to t) ]} |}.

Definition run_created_event {J : JsonLib} (r : RunRecord) : NewLifecycleEvent :=
  let attributes : gmap string string :=
    {[ "component" := id_to_string (spec_component (run_spec r));
       "capability" := capability_name_str (spec_capability (run_spec r));
       "state" := run_state_name RsCreated ]} in
  {| ne_recorded_at := run_created_at r; ne_kind := RunCreated; ne_entity_type := LeRun;
     ne_entity_id := id_to_string (run_id r);
     ne_attributes := match run_reproduced_from r with
                      | Some origin => <["reproduced_from" := id_to_string origin]> attributes
                      | None => attributes
                      end |}.

Definition derive_run_events {J : JsonLib} (previous : option RunRecord) (current : RunRecord)
    : list NewLifecycleEvent :=
  (match previous with None => [run_created_event current] | Some _ => [] end) ++
  (run_transition_event current <$>
     drop (match previous with Some p => length (run_transitions p) | None => 0 end)
       (run_transitions current)).

Definition task_created_event (r : TaskRecord) : NewLifecycleEvent :=
  {| ne_recorded_at := tk_created_at r; ne_kind := TaskCreated; ne_entity_type := LeTask;
     ne_entity_id := id_to_string (ts_id (tk_spec r));
     ne_attributes := {[ "principal" := ti_principal (ts_identity (tk_spec r));
                         "state" := TaskState_as_str TsCreated ]} |}.

Definition task_transition_event (r : TaskRecord) (t : TaskTransition) : NewLifecycleEvent :=
  let attributes : gmap string string :=
    {[ "from" := TaskState_as_str (tt_from t); "to" := TaskState_as_str (tt_to t) ]} in
  {| ne_recorded_at := tt_at t; ne_kind := TaskStateChanged; ne_entity_type := LeTask;
     ne_entity_id := id_to_string (ts_id (tk_spec r));
     ne_attributes :=
       if bool_decide (tt_to t = TsAdmitted) then
         match tk_workspace_evidence r with
         | Some w => <["workspace_digest" := ContentDigest_to_hex (wme_workspace_digest w)]> attributes
         | None => attributes
         end
       else attributes |}.

Definition derive_task_events (previous : option TaskRecord) (current : TaskRecord)
    : list NewLifecycleEvent :=
  (match previous with None => [task_created_event current] | Some _ => [] end) ++
  (task_transition_event current <$>
     drop (match previous with Some p => length (tk_transitions p) | None => 0 end)
       (tk_transitions current)).

Definition workflow_cancel_requested_event (workflow_id : string) (at_ : UnixMillis)
    : NewLifecycleEvent :=
  {| ne_recorded_at := at_; ne_kind := WorkflowCancelRequested; ne_entity_type := LeWorkflow;
     ne_entity_id := workflow_id; ne_attributes := ∅ |}.

Section workflow_events.
Context `{JsonLib}.

Definition workflow_attempt_created_event (w : WorkflowRecord) (step_key : string)
    (a : StepAttempt) (observed_at : UnixMillis) : NewLifecycleEvent :=
  {| ne_recorded_at := default observed_at (sa_started_at a); ne_kind := WorkflowAttemptCreated;
     ne_entity_type := LeWorkflow; ne_entity_id := id_to_string (wr_id w);
     ne_attributes := {[ "step" := step_key; "attempt_id" := id_to_string (sa_id a);
                         "attempt_number" := pretty (sa_number a);
                         "run" := id_to_string (sa_run a);
                         "state" := run_state_name (sa_state a) ]} |}.

Definition workflow_attempt_state_changed_event (w : WorkflowRecord) (step_key : string)
    (before after : StepAttempt) (observed_at : UnixMillis) : NewLifecycleEvent :=
  {| ne_recorded_at := match sa_finished_at after with
                       | Some t => t
                       | None => default observed_at (sa_started_at after)
                       end;
     ne_kind := WorkflowAttemptStateChanged;
     ne_entity_type := LeWorkflow; ne_entity_id := id_to_string (wr_id w);
     ne_attributes := {[ "step" := step_key; "attempt_id" := id_to_string (sa_id after);
                         "attempt_number" := pretty (sa_number after);
                         "run" := id_to_string (sa_run after);
                         "from" := run_state_name (sa_state before);
                         "to" := run_state_name (sa_state after) ]} |}.

(** Every attempt of a record, in order. *)
Definition all_attempts (w : option WorkflowRecord) : list StepAttempt :=
  match w with Some w => wr_steps w ≫= sr_attempts | None => [] end.

Definition attempt_events (previous : option WorkflowRecord) (current : WorkflowRecord)
    (step_key : string) (observed_at : UnixMillis) (a : StepAttempt) : list NewLifecycleEvent :=
  let previous_attempt :=
    List.find (fun candidate => bool_decide (sa_id candidate = sa_id a)) (all_attempts previous) in
  let previous_attempt_ids : gset AttemptId := list_to_set (sa_id <$> all_attempts previous) in
  if negb (bool_decide (sa_id a ∈ previous_attempt_ids))
  then [workflow_attempt_created_event current step_key a observed_at]
  else
    match previous_attempt with
    | Some before =>
        if negb (bool_decide (sa_state before = sa_state a))
        then [workflow_attempt_state_changed_event current step_key before a observed_at]
        else []
    | None => []
    end.

Definition derive_workflow_events (previous : option WorkflowRecord) (current : WorkflowRecord)
    (observed_at : UnixMillis) : list NewLifecycleEvent :=
  let previous_state := match previous with Some p => wr_state p | None => WsCreated end in
  (match previous with
   | None =>
       [ {| ne_recorded_at := wr_created_at current; ne_kind := WorkflowCreated;
            ne_entity_type := LeWorkflow; ne_entity_id := id_to_string (wr_id current);
            ne_attributes := {[ "name" := ws_name (wr_spec current);
                                "state" := workflow_state_name WsCreated ]} |} ]
   | Some _ => []
   end) ++
  (if negb (bool_decide (wr_state current = previous_state)) then
     let at_ :=
       if bool_decide (wr_state current = WsRunning) then default observed_at (wr_started_at current)
       else if WorkflowState_is_terminal (wr_state current)
            then default observed_at (wr_finished_at current)
            else observed_at in
     [ {| ne_recorded_at := at_; ne_kind := WorkflowStateChanged; ne_entity_type := LeWorkflow;
          ne_entity_id := id_to_string (wr_id current);
          ne_attributes := {[ "from" := workflow_state_name previous_state;
                              "to" := workflow_state_name (wr_state current) ]} |} ]
   else []) ++
  (match previous ≫= wr_cancel_requested_at with
   | None =>
       match wr_cancel_requested_at current with
       | Some at_ => [workflow_cancel_requested_event (id_to_string (wr_id current)) at_]
       | None => []
       end
   | Some _ => []
   end) ++
  (wr_steps current ≫= fun step =>
     sr_attempts step ≫= attempt_events previous current (sr_key step) observed_at).
End workflow_events.
End derive.

(** ** Names *)
Lemma kind_as_str_inj k k' : LifecycleEventKind_as_str k = LifecycleEventKind_as_str k' -> k = k'.
Proof. by destruct k, k'. Qed.

Lemma LifecycleEventKind_parse_Some raw k :
  LifecycleEventKind_parse raw = Some k <-> raw = LifecycleEventKind_as_str k.
Proof.
  split; [|intros ->; by destruct k]. unfold LifecycleEventKind_parse.
  repeat case_bool_decide; intros Hk; try discriminate Hk; injection Hk as <-; done.
Qed.

Lemma LifecycleEntityType_parse_Some raw e :
  LifecycleEntityType_parse raw = Some e <-> raw = LifecycleEntityType_as_str e.
Proof.
  split; [|intros ->; by destruct e]. unfold LifecycleEntityType_parse.
  repeat case_bool_decide; intros Hk; try discriminate Hk; injection Hk as <-; done.
Qed.

(** ** The log *)

(** The sequence numbers are 1, 2, 3, ... and the counter is the length. *)
Definition log_ok (l : InMemoryLifecycleEvents) : Prop :=
  il_next_sequence l = len (il_events l) /\
  forall i e, il_events l !! i = Some e -> ev_sequence e = N.of_nat (S i).

Definition record_all (l : InMemoryLifecycleEvents) (es : list NewLifecycleEvent)
    : InMemoryLifecycleEvents :=
  foldl (fun l e => (InMemoryLifecycleEvents_record l e).1) l es.

Lemma log_ok_record l e : log_ok l -> log_ok (InMemoryLifecycleEvents_record l e).1.
Proof.
  intros [Hn Hs]. unfold InMemoryLifecycleEvents_record.
  destruct (checked_add_u64 _ 1) as [n|] eqn:E; [|done].
  apply checked_add_u64_Some in E as [-> _]. split; cbn.
  - rewrite Hn. unfold len. rewrite length_app. cbn. lia.
  - intros i x [Hx|[Hi Hx]]%lookup_app_Some; [by apply Hs|].
    apply list_lookup_singleton_Some in Hx as [Hz <-]. cbn. rewrite Hn. unfold len. lia.
Qed.

Lemma log_ok_record_all l es : log_ok l -> log_ok (record_all l es).
Proof. revert l; induction es as [|e es IH]; intros l Hl; [done|]. by apply IH, log_ok_record. Qed.

Lemma log_ok_default : log_ok InMemoryLifecycleEvents_default.
Proof. split; [done|]. by intros [|i] e. Qed.

(** Filtering by sequence number is dropping a prefix. *)
Lemma filter_after_drop l after :
  log_ok l ->
  List.filter (fun event => (after <? ev_sequence event)%N) (il_events l)
    = drop (N.to_nat after) (il_events l).
Proof.
  intros [_ Hs]. revert Hs. generalize (il_events l) as evs. clear l.
  enough (forall evs k, (forall i e, evs !! i = Some e -> ev_sequence e = N.of_nat (S (k + i))) ->
    List.filter (fun event => (after <? ev_sequence event)%N) evs
      = drop (N.to_nat after - k) evs) as Hgen.
  { intros evs Hs. rewrite (Hgen evs 0) by (intros; by apply Hs). f_equal. lia. }
  induction evs as [|e evs IH]; intros k Hs; [by rewrite drop_nil|].
  pose proof (Hs 0 e eq_refl) as He.
  assert (Hs' : forall i x, evs !! i = Some x -> ev_sequence x = N.of_nat (S (S k + i))).
  { intros i x Hx. rewrite (Hs (S i) x) by done. lia. }
  cbn [List.filter]. destruct (N.ltb_spec after (ev_sequence e)).
  - replace (N.to_nat after - k) with 0 by lia. cbn [drop]. f_equal.
    rewrite (IH (S k)) by done. by replace (N.to_nat after - S k) with 0 by lia.
  - replace (N.to_nat after - k) with (S (N.to_nat after - S k)) by lia. cbn [drop].
    by apply IH.
Qed.

Lemma list_after_page l after limit :
  log_ok l -> (1 <= limit <= 1000)%N ->
  InMemoryLifecycleEvents_list_after l after limit
    = Ok (take (N.to_nat limit) (drop (N.to_nat after) (il_events l))).
Proof.
  intros Hl Hlim. unfold InMemoryLifecycleEvents_list_after, validate_event_page_limit, MAX_EVENT_PAGE.
  rewrite bind_ensure by (rewrite andb_true_iff, !N.leb_le; lia).
  by rewrite filter_after_drop.
Qed.

(** A client that polls with the last sequence it has seen as the cursor, for
    at most [fuel] pages. *)
Fixpoint poll (fuel : nat) (l : InMemoryLifecycleEvents) (after limit : N)
    : Result (list LifecycleEvent) :=
  match fuel with
  | O => Ok []
  | S fuel =>
      page ← InMemoryLifecycleEvents_list_after l after limit;
      match last page with
      | None => Ok []
      | Some e => rest ← poll fuel l (ev_sequence e) limit; Ok (page ++ rest)
      end
  end.

Lemma page_last l after limit e :
  log_ok l ->
  last (take limit (drop (N.to_nat after) (il_events l))) = Some e ->
  N.to_nat (ev_sequence e) =
    N.to_nat after + length (take limit (drop (N.to_nat after) (il_events l))).
Proof.
  intros [_ Hs] Hlast. rewrite last_lookup in Hlast.
  set (page := take limit (drop (N.to_nat after) (il_events l))) in *.
  pose proof (lookup_lt_Some _ _ _ Hlast) as Hlt. revert Hlast.
  generalize dependent (length page). intros n Hlt Hlook. unfold page in Hlook.
  apply lookup_take_Some in Hlook as [Hlook _]. rewrite lookup_drop in Hlook.
  apply Hs in Hlook. rewrite Hlook. lia.
Qed.

Lemma poll_all l fuel after limit :
  log_ok l -> (1 <= limit <= 1000)%N ->
  length (il_events l) < fuel + N.to_nat after ->
  poll fuel l after limit = Ok (drop (N.to_nat after) (il_events l)).
Proof.
  intros Hl Hlim. revert after. induction fuel as [|fuel IH]; intros after Hf; cbn [poll].
  - rewrite drop_ge by lia. done.
  - rewrite list_after_page by done. cbn [mbind result_bind].
    destruct (last _) as [e|] eqn:E.
    + pose proof (page_last l after (N.to_nat limit) e Hl E) as Hseq.
      assert (Hne : take (N.to_nat limit) (drop (N.to_nat after) (il_events l)) <> [])
        by (intros Hnil; by rewrite Hnil in E).
      rewrite length_take, length_drop in Hseq.
      assert (Hpos : 0 < length (il_events l) - N.to_nat after).
      { destruct (decide (length (il_events l) <= N.to_nat after)); [|lia].
        destruct Hne. rewrite drop_ge by lia. by rewrite take_nil. }
      rewrite IH by lia. cbn [mbind result_bind]. f_equal.
      rewrite Hseq, <- drop_drop.
      set (rest := drop (N.to_nat after) (il_events l)).
      replace (length (il_events l) - N.to_nat after) with (length rest)
        by (unfold rest; by rewrite length_drop).
      transitivity (take (N.to_nat limit) rest ++ drop (N.to_nat limit) rest);
        [|by rewrite take_drop]. f_equal.
      destruct (decide (N.to_nat limit <= length rest)).
      * by rewrite Nat.min_l by lia.
      * rewrite Nat.min_r by lia. by rewrite !drop_ge by lia.
    + rewrite last_None in E. f_equal. symmetry. apply length_zero_iff_nil.
      apply (f_equal length) in E. rewrite length_take in E. cbn in E. lia.
Qed.

Lemma record_all_events es l :
  (il_next_sequence l + len es <= u64_max)%N ->
  il_events (record_all l es)
    = il_events l ++ imap (fun i e => stored_event (il_next_sequence l + N.of_nat (S i)) e) es.
Proof.
  revert l; induction es as [|e es IH]; intros l Hle; [by rewrite app_nil_r|].
  unfold len in Hle. cbn [length] in Hle. cbn [record_all foldl].
  unfold InMemoryLifecycleEvents_record at 2.
  assert (E : checked_add_u64 (il_next_sequence l) 1 = Some (il_next_sequence l + 1)%N)
    by (apply checked_add_u64_Some; lia).
  rewrite E. cbn [fst]. fold (record_all
    {| il_next_sequence := il_next_sequence l + 1;
       il_events := il_events l ++ [stored_event (il_next_sequence l + 1) e] |} es).
  rewrite IH by (cbn [il_next_sequence]; unfold len; lia). cbn [il_events il_next_sequence].
  rewrite <- app_assoc. f_equal. cbn [app imap]. f_equal.
  apply imap_ext. intros i x _. cbn. f_equal. lia.
Qed.

(** ** Deriving events from successive snapshots *)
Lemma run_calls_prefix `{JsonLib} r cs :
  exists suffix, run_transitions (run_calls r cs) = run_transitions r ++ suffix.
Proof.
  revert r; induction cs as [|c cs IH]; intros r; [exists []; by rewrite app_nil_r|].
  destruct (IH (RunRecord_transition r c.1 c.2).1) as [suffix Hs].
  change (run_calls r (c :: cs)) with (run_calls (RunRecord_transition r c.1 c.2).1 cs).
  destruct (RunRecord_transition_cases r c.1 c.2) as [[_ E]|(_ & r' & E & _ & Ht & _)];
    rewrite E in *; cbn [fst] in *; [by exists suffix|].
  rewrite Hs, Ht, <- app_assoc. eauto.
Qed.

Section telescope.
Context `{UuidLib}.

(** [r'] is a later snapshot of the run [r]. *)
Definition run_extends {J : JsonLib} (r r' : RunRecord) (suffix : list Transition) : Prop :=
  run_id r' = run_id r /\ run_spec r' = run_spec r /\ run_created_at r' = run_created_at r /\
  run_reproduced_from r' = run_reproduced_from r /\
  run_transitions r' = run_transitions r ++ suffix.

Lemma derive_run_events_app {J : JsonLib} (r r' : RunRecord) suffix :
  run_extends r r' suffix ->
  derive_run_events None r' = derive_run_events None r ++ derive_run_events (Some r) r' /\
  derive_run_events (Some r) r' = run_transition_event r <$> suffix.
Proof.
  intros (Hid & Hsp & Hca & Hrf & Ht).
  assert (Hev : forall t, run_transition_event r' t = run_transition_event r t)
    by (intros t; unfold run_transition_event; by rewrite Hid).
  assert (Hcr : run_created_event r' = run_created_event r)
    by (unfold run_created_event; by rewrite Hid, Hsp, Hca, Hrf).
  unfold derive_run_events. rewrite Ht, Hcr, drop_app_length, !drop_0.
  rewrite fmap_app. cbn [app].
  assert (Hm : forall l, run_transition_event r' <$> l = run_transition_event r <$> l)
    by (intros l; by apply list_fmap_ext; intros; rewrite Hev).
  by rewrite !Hm.
Qed.

Lemma task_transition_event_same r r' t :
  tk_spec r' = tk_spec r -> 
  (tt_to t = TsAdmitted -> tk_workspace_evidence r' = tk_workspace_evidence r) ->
  task_transition_event r' t = task_transition_event r t.
Proof.
  intros Hs He. unfold task_transition_event. rewrite Hs. f_equal.
  case_bool_decide as Ht; [|done]. by rewrite He.
Qed.

Lemma logged_admission_evidence `{WorkspaceJson, Sha256Lib} r t :
  task_inv r -> t ∈ tk_transitions r -> tt_to t = TsAdmitted -> is_Some (tk_workspace_evidence r).
Proof.
  intros ((_ & _ & (p & Hp & _ & Ha & _) & Hev) & H2 & _) Hin Ht.
  unfold evidence_matches in Hev. rewrite H2 in Hev. cbn in Hev.
  destruct (tk_workspace_evidence r); [eauto|]. exfalso.
  apply not_admitted_in_prefix in Hp; [|congruence].
  apply not_true_iff_false in Hp. apply Hp, existsb_exists. exists t.
  rewrite <- list_elem_of_In. split; [done|]. by apply bool_decide_eq_true.
Qed.

(** Run events are a faithful, loss-free chronology: saving successive
    snapshots of a run, whatever transitions happened in between, emits
    exactly the events of the final record -- the creation once and each
    logged move once, in order -- and an unchanged record emits nothing. *)
Lemma run_events_telescope {J : JsonLib} (r : RunRecord) cs :
  derive_run_events None (run_calls r cs)
    = derive_run_events None r ++ derive_run_events (Some r) (run_calls r cs) /\
  derive_run_events None r
    = run_created_event r :: (run_transition_event r <$> run_transitions r) /\
  derive_run_events (Some r) r = [].
Proof.
  split_and!.
  - destruct (run_calls_prefix r cs) as [suffix Hs].
    destruct (run_calls_provenance r cs) as (? & ? & _ & _ & _ & _ & ? & _ & ?).
    by apply (derive_run_events_app r (run_calls r cs) suffix).
  - done.
  - unfold derive_run_events. by rewrite drop_all.
Qed.

(** The same for tasks: successive snapshots of a task emit exactly the
    events of its final record, each once; the admission event always carries
    the digest of the evidence it was admitted with. *)
Lemma task_events_telescope `{WorkspaceJson, Sha256Lib} spec now r0 cs more :
  TaskRecord_create spec now = Ok r0 ->
  Forall (admission_clock_ok now) (cs ++ more) ->
  let r := task_calls r0 cs in
  let r' := task_calls r0 (cs ++ more) in
  derive_task_events None r' = derive_task_events None r ++ derive_task_events (Some r) r' /\
  (forall t, t ∈ tk_transitions r -> tt_to t = TsAdmitted ->
     exists e, tk_workspace_evidence r = Some e /\
       ne_attributes (task_transition_event r t) !! "workspace_digest"
         = Some (ContentDigest_to_hex (wme_workspace_digest e))).
Proof.
  intros Hc Hcs r r'. pose proof (TaskRecord_create_inv _ _ _ Hc) as Hi0.
  assert (E : tk_created_at r0 = now) by (unfold TaskRecord_create in Hc; by ok_inv).
  rewrite <- E in Hcs. apply Forall_app in Hcs as [Hcs Hmore].
  pose proof (task_calls_inv r0 cs Hi0 Hcs) as Hir. fold r in Hir.
  destruct (task_calls_steps r0 cs Hi0 Hcs) as (_ & _ & Hca & _).
  rewrite <- Hca in Hmore.
  destruct (task_calls_steps r more Hir Hmore) as (_ & S2 & S3 & S4 & _).
  destruct (task_calls_prefix r more) as [suffix Hs].
  assert (Eq : r' = task_calls r more) by apply foldl_app. rewrite <- Eq in *.
  split.
  - assert (Hcr : task_created_event r' = task_created_event r)
      by (unfold task_created_event; by rewrite S2, S3).
    unfold derive_task_events. rewrite Hs, Hcr, drop_app_length, !drop_0, fmap_app. cbn [app].
    do 2 f_equal. apply list_fmap_ext. intros i t Hit. apply task_transition_event_same; [done|].
    intros Ht. destruct (logged_admission_evidence r t Hir) as [e He];
      [by eapply list_elem_of_lookup_2|done|]. rewrite He. auto.
  - intros t Hin Ht. destruct (logged_admission_evidence r t Hir Hin Ht) as [e He].
    exists e. split; [done|]. unfold task_transition_event. rewrite He.
    rewrite bool_decide_eq_true_2 by done. cbn. by rewrite lookup_insert_eq.
Qed.
End telescope.

(** Sequence numbers are the position in the log: recording a list of
    events on an empty log assigns 1, 2, 3, ... in order (as long as they fit
    in [u64]), the high-water mark is the number of events, and nothing is
    lost or reordered. *)
Lemma event_log_sequences es :
  (len es <= u64_max)%N ->
  let l := record_all InMemoryLifecycleEvents_default es in
  il_events l = imap (fun i e => stored_event (N.of_nat (S i)) e) es /\
  InMemoryLifecycleEvents_high_water_sequence l = Ok (len es).
Proof.
  intros Hle l. assert (Hev : il_events l = imap (fun i e => stored_event (N.of_nat (S i)) e) es).
  { unfold l. rewrite record_all_events by (cbn; lia). cbn. apply imap_ext.
    intros i x _. cbn. f_equal. }
  split; [done|]. unfold InMemoryLifecycleEvents_high_water_sequence. f_equal.
  destruct (log_ok_record_all InMemoryLifecycleEvents_default es log_ok_default) as [Hn _].
  fold l in Hn. rewrite Hn, Hev. unfold len. by rewrite length_imap.
Qed.

(** Cursor pagination is complete: a reader that repeatedly asks for the
    events after the last sequence number it saw, with any legal page size,
    terminates having read every later event exactly once and in order. *)
Theorem event_poll_complete es after limit :
  (1 <= limit <= 1000)%N ->
  let l := record_all InMemoryLifecycleEvents_default es in
  poll (S (length (il_events l))) l after limit = Ok (drop (N.to_nat after) (il_events l)).
Proof.
  intros Hlim l. apply poll_all; [|done|lia]. apply log_ok_record_all, log_ok_default.
Qed.

(** The persisted names of event kinds and entity types parse back to
    themselves and nothing else parses. *)
Lemma event_names_roundtrip raw :
  (forall k, LifecycleEventKind_parse raw = Some k <-> raw = LifecycleEventKind_as_str k) /\
  (forall e, LifecycleEntityType_parse raw = Some e <-> raw = LifecycleEntityType_as_str e).
Proof.
  split; [apply LifecycleEventKind_parse_Some|apply LifecycleEntityType_parse_Some].
Qed.

(** ** Witnesses *)
Definition sample_event (s : string) : NewLifecycleEvent := {|
  ne_recorded_at := 5; ne_kind := RunCreated; ne_entity_type := LeRun;
  ne_entity_id := s; ne_attributes := ∅ |}.

Lemma event_poll_complete_witness :
  let l := record_all InMemoryLifecycleEvents_default
    [sample_event "a"; sample_event "b"; sample_event "c"] in
  poll (S (length (il_events l))) l 0 2 = Ok (il_events l).
Proof. apply (event_poll_complete [_; _; _] 0 2). lia. Defined.

Definition toy_uuid : UuidLib := {| uuid_hyphenated n := pretty n |}.
