(* ===== verification/Memory.v ===== *)
(** * The in-memory repositories and the composite hub store
      ([hub-core/src/memory.rs], traits of [store.rs])

    Component registry, run, task, artifact-metadata and workflow
    repositories, and [InMemoryHubStore], which couples them with the
    lifecycle event log.  Each operation is a function on the store's state;
    [wall_clock_ms()] is an argument. *)

From stdpp Require Import base gmap strings list sorting pretty.
From S2P Require Import Prelude Text Core Version Digest Component Run Workflow Task TaskLifecycle Event.

(** ** Listing order: [rows.sort_by_key(|r| (r.created_at, r.id))] *)
Definition sort_by_key {A K} `{Ordered K} (key : A -> K) (l : list A) : list A :=
  sort_by (fun a b => bool_decide (ord_le (key a) (key b))) l.

(** [iter.max_by(cmp)]: the last of the maximal elements. *)
Definition max_by {A K} `{Ordered K} (key : A -> K) (l : list A) : option A :=
  foldl (fun best x => match best with
                       | None => Some x
                       | Some y => if decide (ord_le (key y) (key x)) then Some x else Some y
                       end) None l.

Lemma sort_by_key_sorted {A K} `{Ordered K} (key : A -> K) l :
  StronglySorted ord_le (key <$> sort_by_key key l).
Proof.
  assert (Hs : StronglySorted (fun a b => bool_decide (ord_le (key a) (key b)) = true) (sort_by_key key l)).
  { apply sort_by_sorted.
    - intros a b. rewrite !bool_decide_eq_true. destruct (total ord_le (key a) (key b)); auto.
    - intros a b c. rewrite !bool_decide_eq_true. intros; by etrans. }
  induction Hs as [|x xs _ IH Hx]; cbn; constructor; [done|].
  apply Forall_fmap. eapply Forall_impl; [exact Hx|]. intros y. cbn. by rewrite bool_decide_eq_true.
Qed.

(** A sorted list without repeated keys is the only one of its elements. *)
Lemma sorted_keys_unique {A K} `{Ordered K} (key : A -> K) (l1 l2 : list A) :
  StronglySorted ord_le (key <$> l1) -> StronglySorted ord_le (key <$> l2) ->
  NoDup (key <$> l1) -> l1 ≡ₚ l2 -> l1 = l2.
Proof.
  assert (Hs : forall l, StronglySorted ord_le (key <$> l) ->
    StronglySorted (fun a b => bool_decide (ord_le (key a) (key b)) = true) l).
  { induction l as [|x l IH]; intros Hl; [constructor|].
    rewrite fmap_cons in Hl. apply StronglySorted_inv in Hl as [Hl Hall]. constructor; [by apply IH|].
    rewrite Forall_fmap in Hall. eapply Forall_impl; [exact Hall|]. intros y. cbn. by rewrite bool_decide_eq_true. }
  intros H1%Hs H2%Hs. apply (sorted_by_key_unique (fun a b => bool_decide (ord_le (key a) (key b))) key); [|done|done].
  intros a b. rewrite !bool_decide_eq_true. intros ? ?. by apply (anti_symm ord_le).
Qed.

Section memory.
Context `{JsonLib, ManifestJson, WorkspaceJson, Sha256Lib, UuidLib}.

(** ** The single repositories *)
Definition InMemoryComponents_put (manifests : gmap (ComponentId * Version) ComponentManifest)
    (manifest : ComponentManifest)
    : gmap (ComponentId * Version) ComponentManifest * Result bool :=
  let key := (m_id manifest, m_version manifest) in
  match manifests !! key with
  | Some existing =>
      (manifests,
       existing_digest ← ComponentManifest_content_digest existing;
       new_digest ← ComponentManifest_content_digest manifest;
       if bool_decide (existing_digest = new_digest) then Ok false
       else Err (ComponentConflict (m_id manifest) (ContentDigest_to_hex existing_digest)
                   (ContentDigest_to_hex new_digest)))
  | None => (<[key := manifest]> manifests, Ok true)
  end.

Definition InMemoryComponents_latest (manifests : gmap (ComponentId * Version) ComponentManifest)
    (id : ComponentId) : Result (option ComponentManifest) :=
  Ok (snd <$> max_by (fun e : (ComponentId * Version) * ComponentManifest => e.1.2)
        (List.filter (fun e => bool_decide (e.1.1 = id)) (map_iter manifests))).

Definition InMemoryComponents_get (manifests : gmap (ComponentId * Version) ComponentManifest)
    (id : ComponentId) (version : Version) : Result (option ComponentManifest) :=
  Ok (manifests !! (id, version)).

Definition InMemoryComponents_list (manifests : gmap (ComponentId * Version) ComponentManifest)
    : Result (list ComponentManifest) :=
  Ok (map_values manifests).

Definition InMemoryRuns_put (records : gmap RunId RunRecord) (record : RunRecord)
    : gmap RunId RunRecord * Result unit :=
  (<[run_id record := record]> records, Ok tt).

Definition InMemoryRuns_list (records : gmap RunId RunRecord) : Result (list RunRecord) :=
  Ok (sort_by_key (fun r => (run_created_at r, run_id r)) (map_values records)).

Definition InMemoryTasks_put (records : gmap TaskId TaskRecord) (record : TaskRecord)
    : gmap TaskId TaskRecord * Result unit :=
  let id := ts_id (tk_spec record) in
  match
    _ ← TaskRecord_validate record;
    match records !! id with
    | Some previous => validate_task_snapshot_update previous record
    | None => Ok tt
    end
  with
  | Ok _ => (<[id := record]> records, Ok tt)
  | Err e => (records, Err e)
  end.

Definition InMemoryTasks_list (records : gmap TaskId TaskRecord) : Result (list TaskRecord) :=
  Ok (sort_by_key (fun r => (tk_created_at r, ts_id (tk_spec r))) (map_values records)).

Definition InMemoryArtifactMeta_put (meta : gmap ArtifactId ArtifactMeta) (a : ArtifactMeta)
    : gmap ArtifactId ArtifactMeta * Result unit :=
  (<[art_id a := a]> meta, Ok tt).

Definition InMemoryArtifactMeta_list (meta : gmap ArtifactId ArtifactMeta)
    : Result (list ArtifactMeta) :=
  Ok (sort_by_key (fun a => (art_created_at a, art_id a)) (map_values meta)).

Definition WorkflowRecord_set_cancel (w : WorkflowRecord) (c : option UnixMillis) : WorkflowRecord :=
  {| wr_id := wr_id w; wr_spec := wr_spec w; wr_admission := wr_admission w;
     wr_state := wr_state w; wr_model_version := wr_model_version w;
     wr_created_at := wr_created_at w; wr_started_at := wr_started_at w;
     wr_finished_at := wr_finished_at w; wr_cancel_requested_at := c;
     wr_steps := wr_steps w; wr_failure := wr_failure w |}.

Definition InMemoryWorkflows_put (records : gmap WorkflowId WorkflowRecord) (record : WorkflowRecord)
    : gmap WorkflowId WorkflowRecord * Result unit :=
  let stored :=
    match records !! wr_id record with
    | Some existing =>
        if is_some (wr_cancel_requested_at record) then record
        else WorkflowRecord_set_cancel record (wr_cancel_requested_at existing)
    | None => record
    end in
  (<[wr_id record := stored]> records, Ok tt).

Definition InMemoryWorkflows_request_cancel (records : gmap WorkflowId WorkflowRecord)
    (id : WorkflowId) (at_ : UnixMillis)
    : gmap WorkflowId WorkflowRecord * Result (option WorkflowRecord) :=
  match records !! id with
  | None => (records, Ok None)
  | Some record =>
      let record' :=
        if negb (WorkflowState_is_terminal (wr_state record))
        then WorkflowRecord_set_cancel record (get_or_insert (wr_cancel_requested_at record) at_)
        else record in
      (<[id := record']> records, Ok (Some record'))
  end.

Definition InMemoryWorkflows_list (records : gmap WorkflowId WorkflowRecord)
    : Result (list WorkflowRecord) :=
  Ok (sort_by_key (fun w => (wr_created_at w, wr_id w)) (map_values records)).

(** ** The composite store *)
Record InMemoryHubStore := {
  hs_components : gmap (ComponentId * Version) ComponentManifest;
  hs_runs : gmap RunId RunRecord;
  hs_tasks : gmap TaskId TaskRecord;
  hs_artifacts : gmap ArtifactId ArtifactMeta;
  hs_workflows : gmap WorkflowId WorkflowRecord;
  hs_events : InMemoryLifecycleEvents;
}.

Definition InMemoryHubStore_default : InMemoryHubStore := {|
  hs_components := ∅; hs_runs := ∅; hs_tasks := ∅; hs_artifacts := ∅; hs_workflows := ∅;
  hs_events := InMemoryLifecycleEvents_default |}.

(** [for event in events { self.events.record(event)?; }]. *)
Fixpoint record_events (l : InMemoryLifecycleEvents) (es : list NewLifecycleEvent)
    : InMemoryLifecycleEvents * Result unit :=
  match es with
  | [] => (l, Ok tt)
  | e :: es =>
      match InMemoryLifecycleEvents_record l e with
      | (l', Ok _) => record_events l' es
      | (l', Err err) => (l', Err err)
      end
  end.

Definition InMemoryHubStore_put_component (s : InMemoryHubStore) (manifest : ComponentManifest)
    (wall_clock : UnixMillis) : InMemoryHubStore * Result bool :=
  let '(components, res) := InMemoryComponents_put (hs_components s) manifest in
  let s1 := {| hs_components := components; hs_runs := hs_runs s; hs_tasks := hs_tasks s;
               hs_artifacts := hs_artifacts s; hs_workflows := hs_workflows s;
               hs_events := hs_events s |} in
  match res with
  | Err e => (s1, Err e)
  | Ok false => (s1, Ok false)
  | Ok true =>
      let '(events, r) := record_events (hs_events s)
                            [component_registered_event manifest wall_clock] in
      ({| hs_components := components; hs_runs := hs_runs s; hs_tasks := hs_tasks s;
          hs_artifacts := hs_artifacts s; hs_workflows := hs_workflows s; hs_events := events |},
       _ ← r; Ok true)
  end.

Definition InMemoryHubStore_put_run (s : InMemoryHubStore) (record : RunRecord)
    : InMemoryHubStore * Result unit :=
  let previous := hs_runs s !! run_id record in
  let '(runs, _) := InMemoryRuns_put (hs_runs s) record in
  let '(events, r) := record_events (hs_events s) (derive_run_events previous record) in
  ({| hs_components := hs_components s; hs_runs := runs; hs_tasks := hs_tasks s;
      hs_artifacts := hs_artifacts s; hs_workflows := hs_workflows s; hs_events := events |}, r).

Definition InMemoryHubStore_put_task (s : InMemoryHubStore) (record : TaskRecord)
    : InMemoryHubStore * Result unit :=
  let previous := hs_tasks s !! ts_id (tk_spec record) in
  let '(tasks, res) := InMemoryTasks_put (hs_tasks s) record in
  match res with
  | Err e => (s, Err e)
  | Ok _ =>
      let '(events, r) := record_events (hs_events s) (derive_task_events previous record) in
      ({| hs_components := hs_components s; hs_runs := hs_runs s; hs_tasks := tasks;
          hs_artifacts := hs_artifacts s; hs_workflows := hs_workflows s; hs_events := events |}, r)
  end.

Definition InMemoryHubStore_put_artifact (s : InMemoryHubStore) (a : ArtifactMeta)
    : InMemoryHubStore * Result unit :=
  let existed := is_some (hs_artifacts s !! art_id a) in
  let '(artifacts, _) := InMemoryArtifactMeta_put (hs_artifacts s) a in
  let '(events, r) := record_events (hs_events s)
                        (if existed then [] else [artifact_recorded_event a]) in
  ({| hs_components := hs_components s; hs_runs := hs_runs s; hs_tasks := hs_tasks s;
      hs_artifacts := artifacts; hs_workflows := hs_workflows s; hs_events := events |}, r).

Definition InMemoryHubStore_put_workflow (s : InMemoryHubStore) (record : WorkflowRecord)
    (wall_clock : UnixMillis) : InMemoryHubStore * Result unit :=
  let previous := hs_workflows s !! wr_id record in
  let '(workflows, _) := InMemoryWorkflows_put (hs_workflows s) record in
  match workflows !! wr_id record with
  | None =>
      ({| hs_components := hs_components s; hs_runs := hs_runs s; hs_tasks := hs_tasks s;
          hs_artifacts := hs_artifacts s; hs_workflows := workflows; hs_events := hs_events s |},
       Err (Storage "workflow disappeared after in-memory put"))
  | Some stored =>
      let '(events, r) := record_events (hs_events s)
                            (derive_workflow_events previous stored wall_clock) in
      ({| hs_components := hs_components s; hs_runs := hs_runs s; hs_tasks := hs_tasks s;
          hs_artifacts := hs_artifacts s; hs_workflows := workflows; hs_events := events |}, r)
  end.

Definition InMemoryHubStore_request_cancel (s : InMemoryHubStore) (id : WorkflowId)
    (at_ : UnixMillis) : InMemoryHubStore * Result (option WorkflowRecord) :=
  let previous := hs_workflows s !! id in
  let '(workflows, res) := InMemoryWorkflows_request_cancel (hs_workflows s) id at_ in
  match res with
  | Err e => (s, Err e)
  | Ok updated =>
      let newly := negb (is_some (previous ≫= wr_cancel_requested_at)) &&
                   is_some (updated ≫= wr_cancel_requested_at) in
      let '(events, r) := record_events (hs_events s)
        (if newly then [workflow_cancel_requested_event (id_to_string id) at_] else []) in
      ({| hs_components := hs_components s; hs_runs := hs_runs s; hs_tasks := hs_tasks s;
          hs_artifacts := hs_artifacts s; hs_workflows := workflows; hs_events := events |},
       _ ← r; Ok updated)
  end.

(** ** Histories of a store *)
Inductive hub_op :=
| PutComponent (m : ComponentManifest) (wall_clock : UnixMillis)
| PutRun (r : RunRecord)
| PutTask (t : TaskRecord)
| PutArtifact (a : ArtifactMeta)
| PutWorkflow (w : WorkflowRecord) (wall_clock : UnixMillis)
| RequestCancel (id : WorkflowId) (at_ : UnixMillis).

Definition hub_do (s : InMemoryHubStore) (op : hub_op) : InMemoryHubStore :=
  match op with
  | PutComponent m t => (InMemoryHubStore_put_component s m t).1
  | PutRun r => (InMemoryHubStore_put_run s r).1
  | PutTask t => (InMemoryHubStore_put_task s t).1
  | PutArtifact a => (InMemoryHubStore_put_artifact s a).1
  | PutWorkflow w t => (InMemoryHubStore_put_workflow s w t).1
  | RequestCancel id t => (InMemoryHubStore_request_cancel s id t).1
  end.

Definition hub_run (s : InMemoryHubStore) (ops : list hub_op) : InMemoryHubStore := foldl hub_do s ops.

(** ** What one operation does to each map *)
Lemma hub_do_components s op :
  hs_components (hub_do s op) = hs_components s \/
  exists m, hs_components s !! (m_id m, m_version m) = None /\
    hs_components (hub_do s op) = <[(m_id m, m_version m) := m]> (hs_components s).
Proof.
  destruct op as [m t|r|t|a|w t|id t]; cbn;
    unfold InMemoryHubStore_put_component, InMemoryHubStore_put_run, InMemoryHubStore_put_task,
      InMemoryHubStore_put_artifact, InMemoryHubStore_put_workflow,
      InMemoryHubStore_request_cancel; repeat case_match; cbn; try (by left).
  all: match goal with H : InMemoryComponents_put _ _ = _ |- _ =>
         unfold InMemoryComponents_put in H; revert H end; case_match eqn:E; intros Hx%(f_equal fst);
       cbn in Hx; subst; [by left|by right; exists m].
Qed.

Lemma hub_do_tasks s op :
  hs_tasks (hub_do s op) = hs_tasks s \/
  exists r, TaskRecord_validate r = Ok tt /\
    (forall p, hs_tasks s !! ts_id (tk_spec r) = Some p -> validate_task_snapshot_update p r = Ok tt) /\
    hs_tasks (hub_do s op) = <[ts_id (tk_spec r) := r]> (hs_tasks s).
Proof.
  destruct op as [m t|r|t|a|w t|id t]; cbn;
    unfold InMemoryHubStore_put_component, InMemoryHubStore_put_run, InMemoryHubStore_put_task,
      InMemoryHubStore_put_artifact, InMemoryHubStore_put_workflow,
      InMemoryHubStore_request_cancel; repeat case_match; cbn; try (by left).
  match goal with H : InMemoryTasks_put _ _ = _ |- _ => unfold InMemoryTasks_put in H; revert H end.
  destruct (_ ≫= _) as [[]|] eqn:E; intros Hx%(f_equal fst); cbn in Hx;
    subst; [|by left]. ok_inv.
  right. exists t. repeat match goal with u : unit |- _ => destruct u end.
  split_and!; [done| |done]. intros p Hp. by rewrite Hp in E.
Qed.

Lemma hub_do_workflows s op :
  hs_workflows (hub_do s op) = hs_workflows s \/
  (exists w, hs_workflows (hub_do s op) = (InMemoryWorkflows_put (hs_workflows s) w).1) \/
  (exists id t, hs_workflows (hub_do s op)
     = (InMemoryWorkflows_request_cancel (hs_workflows s) id t).1).
Proof.
  destruct op as [m t|r|t|a|w t|id t]; cbn [hub_do].
  - unfold InMemoryHubStore_put_component. repeat case_match; by left.
  - unfold InMemoryHubStore_put_run. repeat case_match; by left.
  - unfold InMemoryHubStore_put_task. repeat case_match; by left.
  - unfold InMemoryHubStore_put_artifact. repeat case_match; by left.
  - right. left. exists w. unfold InMemoryHubStore_put_workflow.
    destruct (InMemoryWorkflows_put _ _) as [g res]. destruct (g !! _); [|done].
    by destruct (record_events _ _).
  - right. right. exists id, t. unfold InMemoryHubStore_request_cancel.
    assert (Hok : is_ok (InMemoryWorkflows_request_cancel (hs_workflows s) id t).2 = true)
      by (unfold InMemoryWorkflows_request_cancel; by case_match).
    destruct (InMemoryWorkflows_request_cancel _ _ _) as [g [u|e]]; [|done].
    by destruct (record_events _ _).
Qed.

(** Cancellation intent survives both workflow operations. *)
Definition cancel_requested (records : gmap WorkflowId WorkflowRecord) (id : WorkflowId) : Prop :=
  exists w, records !! id = Some w /\ is_Some (wr_cancel_requested_at w).

Lemma workflows_put_cancel records w id :
  cancel_requested records id -> cancel_requested (InMemoryWorkflows_put records w).1 id.
Proof.
  intros (p & Hp & Hc). unfold InMemoryWorkflows_put. cbn.
  destruct (decide (wr_id w = id)) as [Heq|Hne].
  - unfold cancel_requested. rewrite Heq, Hp, lookup_insert_eq. eexists. split; [done|].
    destruct (wr_cancel_requested_at w) eqn:E; cbn; [rewrite E; eauto|done].
  - exists p. by rewrite lookup_insert_ne.
Qed.

Lemma workflows_request_cancel records id' t id :
  cancel_requested records id -> cancel_requested (InMemoryWorkflows_request_cancel records id' t).1 id.
Proof.
  intros (p & Hp & Hc). unfold InMemoryWorkflows_request_cancel.
  destruct (records !! id') as [q|] eqn:E; [|by exists p]. cbn.
  destruct (decide (id' = id)) as [->|Hne].
  - unfold cancel_requested. rewrite lookup_insert_eq. eexists. split; [done|].
    rewrite Hp in E. injection E as <-. destruct Hc as [c Hc].
    destruct (negb _); cbn; rewrite Hc; cbn; eauto.
  - exists p. by rewrite lookup_insert_ne.
Qed.

(** ** The registry *)
Definition registry_keyed (ms : gmap (ComponentId * Version) ComponentManifest) : Prop :=
  forall id v m, ms !! (id, v) = Some m -> m_id m = id /\ m_version m = v.

Lemma hub_run_components s ops id v m :
  hs_components s !! (id, v) = Some m -> hs_components (hub_run s ops) !! (id, v) = Some m.
Proof.
  revert s; induction ops as [|op ops IH]; intros s Hm; [done|]. apply IH.
  destruct (hub_do_components s op) as [->|(m' & Hn & ->)]; [done|].
  rewrite lookup_insert_ne; [done|]. intros Heq. by rewrite Heq, Hm in Hn.
Qed.

Lemma max_by_spec {A K} `{Ordered K} (key : A -> K) l best :
  match foldl (fun best x => match best with
                       | None => Some x
                       | Some y => if decide (ord_le (key y) (key x)) then Some x else Some y
                       end) best l with
  | None => best = None /\ l = []
  | Some m => (best = Some m \/ m ∈ l) /\
      (forall y, best = Some y \/ y ∈ l -> ord_le (key y) (key m))
  end.
Proof.
  revert best; induction l as [|x l IH]; intros best; cbn.
  - destruct best as [b|]; [|done]. split; [by left|].
    intros y [[= ->]|Hy]; [done|set_solver].
  - specialize (IH (match best with None => Some x
       | Some y => if decide (ord_le (key y) (key x)) then Some x else Some y end)).
    destruct (foldl _ _ l) as [m|]; cycle 1.
    { destruct IH as [IH _]. destruct best; [by case_decide|done]. }
    destruct IH as [Hin Hmax]. split.
    + destruct Hin as [Hin|Hin]; [|right; set_solver].
      destruct best as [b|]; [case_decide|]; injection Hin as ->; [right|left|right]; set_solver.
    + assert (Hx : ord_le (key x) (key m)).
      { destruct best as [b|]; [case_decide as Hd|]; [apply Hmax; by left| |apply Hmax; by left].
        transitivity (key b); [|apply Hmax; by left].
        destruct (total ord_le (key b) (key x)); [done|done]. }
      intros y [Hy|[->|Hy]%elem_of_cons]; [|done|apply Hmax; by right].
      subst best. case_decide as Hd; [|apply Hmax; by left]. by transitivity (key x).
Qed.

(** ** Tasks *)
Definition task_progress (r r' : TaskRecord) : Prop :=
  tk_spec r' = tk_spec r /\ tk_transitions r `prefix_of` tk_transitions r' /\
  (TaskState_is_terminal (tk_state r) = true -> r' = r).

Lemma task_progress_refl r : task_progress r r.
Proof. split_and!; done. Qed.

Lemma task_progress_trans r1 r2 r3 : task_progress r1 r2 -> task_progress r2 r3 -> task_progress r1 r3.
Proof.
  intros (Hs1 & Hp1 & Ht1) (Hs2 & Hp2 & Ht2). split_and!; [congruence|by etrans|].
  intros Ht. specialize (Ht1 Ht). subst. auto.
Qed.

Lemma snapshot_update_progress p r : validate_task_snapshot_update p r = Ok tt -> task_progress p r.
Proof.
  intros (_ & _ & (_ & Hs & _ & _ & suffix & Ht & _) & Hf)%snapshot_update_facts.
  split_and!; [done|rewrite Ht; by eexists|done].
Qed.

Lemma hub_run_tasks s ops id r :
  hs_tasks s !! id = Some r -> exists r', hs_tasks (hub_run s ops) !! id = Some r' /\ task_progress r r'.
Proof.
  revert s r; induction ops as [|op ops IH]; intros s r Hr; [exists r; auto using task_progress_refl|].
  enough (exists r1, hs_tasks (hub_do s op) !! id = Some r1 /\ task_progress r r1) as (r1 & Hr1 & Hp1).
  { destruct (IH _ _ Hr1) as (r' & Hr' & Hp'). exists r'. split; [done|].
    by eapply task_progress_trans. }
  destruct (hub_do_tasks s op) as [->|(t & _ & Hup & ->)]; [exists r; auto using task_progress_refl|].
  destruct (decide (ts_id (tk_spec t) = id)) as [<-|Hne].
  - exists t. rewrite lookup_insert_eq. split; [done|]. by apply snapshot_update_progress, Hup.
  - exists r. rewrite lookup_insert_ne by done. auto using task_progress_refl.
Qed.

Definition tasks_valid (s : InMemoryHubStore) : Prop :=
  forall id r, hs_tasks s !! id = Some r -> TaskRecord_validate r = Ok tt /\ ts_id (tk_spec r) = id.

Lemma hub_run_tasks_valid s ops : tasks_valid s -> tasks_valid (hub_run s ops).
Proof.
  revert s; induction ops as [|op ops IH]; intros s Hs; [done|]. apply IH. intros id r.
  destruct (hub_do_tasks s op) as [->|(t & Hv & _ & ->)]; [apply Hs|].
  rewrite lookup_insert_Some. intros [[<- <-]|[_ Hr]]; [done|by apply Hs].
Qed.

(** ** The chronology of runs *)

(** An event without its sequence number. *)
Definition erase (e : LifecycleEvent) : NewLifecycleEvent :=
  {| ne_recorded_at := ev_recorded_at e; ne_kind := ev_kind e; ne_entity_type := ev_entity_type e;
     ne_entity_id := ev_entity_id e; ne_attributes := ev_attributes e |}.

Definition is_run_event (id : RunId) (e : NewLifecycleEvent) : bool :=
  bool_decide (ne_entity_type e = LeRun) && bool_decide (ne_entity_id e = id_to_string id).

(** What the log says about one run. *)
Definition run_log (id : RunId) (l : InMemoryLifecycleEvents) : list NewLifecycleEvent :=
  List.filter (is_run_event id) (erase <$> il_events l).

Lemma record_events_Ok l es l' u :
  record_events l es = (l', Ok u) -> erase <$> il_events l' = (erase <$> il_events l) ++ es.
Proof.
  revert l; induction es as [|e es IH]; intros l; cbn.
  - intros [= <- _]. by rewrite app_nil_r.
  - unfold InMemoryLifecycleEvents_record. destruct (checked_add_u64 _ _); [|done].
    intros Hr%IH. rewrite Hr. cbn. rewrite fmap_app, <- app_assoc. f_equal. cbn.
    f_equal. by destruct e.
Qed.

Lemma run_log_record id l es l' u :
  record_events l es = (l', Ok u) ->
  run_log id l' = run_log id l ++ List.filter (is_run_event id) es.
Proof.
  intros Hr%record_events_Ok. unfold run_log. rewrite Hr. apply List.filter_app.
Qed.

Lemma filter_other id es :
  Forall (fun e => ne_entity_type e <> LeRun \/ ne_entity_id e <> id_to_string id) es ->
  List.filter (is_run_event id) es = [].
Proof.
  induction 1 as [|e es He _ IH]; [done|]. cbn. rewrite IH. unfold is_run_event.
  destruct He; [rewrite (bool_decide_eq_false_2 (ne_entity_type e = _)) by done|
    rewrite (bool_decide_eq_false_2 (ne_entity_id e = _)) by done; rewrite andb_false_r]; done.
Qed.

Lemma derive_run_events_entity previous r :
  Forall (fun e => ne_entity_type e = LeRun /\ ne_entity_id e = id_to_string (run_id r))
    (derive_run_events previous r).
Proof.
  unfold derive_run_events. apply Forall_app. split.
  - destruct previous; repeat constructor.
  - apply Forall_fmap, Forall_true. done.
Qed.

Lemma filter_own r previous :
  List.filter (is_run_event (run_id r)) (derive_run_events previous r) = derive_run_events previous r.
Proof.
  pose proof (derive_run_events_entity previous r) as Hall. revert Hall.
  induction 1 as [|e es [He Hi] _ IH]; [done|]. cbn. unfold is_run_event at 1.
  rewrite He, Hi, !bool_decide_eq_true_2 by done. cbn. by rewrite IH.
Qed.

Lemma derive_task_events_entity previous t :
  Forall (fun e => ne_entity_type e <> LeRun) (derive_task_events previous t).
Proof.
  unfold derive_task_events. apply Forall_app. split.
  - destruct previous; repeat constructor; done.
  - apply Forall_fmap, Forall_true. done.
Qed.

Lemma derive_workflow_events_entity previous w t :
  Forall (fun e => ne_entity_type e <> LeRun) (derive_workflow_events previous w t).
Proof.
  unfold derive_workflow_events. rewrite !Forall_app. split_and!.
  - destruct previous; repeat constructor; done.
  - destruct (negb _); repeat constructor; done.
  - repeat case_match; repeat constructor; done.
  - apply Forall_forall. intros e He. apply list_elem_of_bind in He as (step & He & _).
    apply list_elem_of_bind in He as (a & He & _). unfold attempt_events in He.
    repeat case_match; try apply list_elem_of_singleton in He as ->; try done; set_solver.
Qed.

(** One accepted operation; a run is only ever replaced by a later snapshot of
    itself. *)
Inductive hub_step (s : InMemoryHubStore) : hub_op -> InMemoryHubStore -> Prop :=
| hub_step_component m t s' b :
    InMemoryHubStore_put_component s m t = (s', Ok b) -> hub_step s (PutComponent m t) s'
| hub_step_run r s' :
    InMemoryHubStore_put_run s r = (s', Ok tt) ->
    (forall p, hs_runs s !! run_id r = Some p -> exists suffix, run_extends p r suffix) ->
    hub_step s (PutRun r) s'
| hub_step_task t s' :
    InMemoryHubStore_put_task s t = (s', Ok tt) -> hub_step s (PutTask t) s'
| hub_step_artifact a s' :
    InMemoryHubStore_put_artifact s a = (s', Ok tt) -> hub_step s (PutArtifact a) s'
| hub_step_workflow w t s' :
    InMemoryHubStore_put_workflow s w t = (s', Ok tt) -> hub_step s (PutWorkflow w t) s'
| hub_step_cancel id t s' o :
    InMemoryHubStore_request_cancel s id t = (s', Ok o) -> hub_step s (RequestCancel id t) s'.

Inductive hub_reachable : InMemoryHubStore -> Prop :=
| reach_default : hub_reachable InMemoryHubStore_default
| reach_step s op s' : hub_reachable s -> hub_step s op s' -> hub_reachable s'.

(** The log tells the whole story of every stored run and nothing else. *)
Definition chronology_ok (s : InMemoryHubStore) : Prop :=
  forall id, run_log id (hs_events s) =
    match hs_runs s !! id with Some r => derive_run_events None r | None => [] end /\
    forall r, hs_runs s !! id = Some r -> run_id r = id.

Lemma chronology_other s s' es u :
  chronology_ok s -> hs_runs s' = hs_runs s ->
  record_events (hs_events s) es = (hs_events s', Ok u) ->
  Forall (fun e => ne_entity_type e <> LeRun) es -> chronology_ok s'.
Proof.
  intros Hs Hr He Hall id. rewrite Hr. destruct (Hs id) as [Hlog Hk]. split; [|done].
  rewrite (run_log_record id _ _ _ _ He), filter_other, app_nil_r; [done|].
  eapply Forall_impl; [exact Hall|]. by left.
Qed.

Lemma chronology_run s r s' :
  Inj (=) (=) uuid_hyphenated -> chronology_ok s ->
  InMemoryHubStore_put_run s r = (s', Ok tt) ->
  (forall p, hs_runs s !! run_id r = Some p -> exists suffix, run_extends p r suffix) ->
  chronology_ok s'.
Proof.
  intros Hinj Hs Hput Hext id. unfold InMemoryHubStore_put_run, InMemoryRuns_put in Hput.
  destruct (record_events _ _) as [ev res] eqn:He. injection Hput as <- ->. cbn [hs_runs hs_events].
  destruct (Hs id) as [Hlog Hk]. destruct (decide (run_id r = id)) as [<-|Hne].
  - rewrite lookup_insert_eq. split; [|by intros ? [= <-]].
    rewrite (run_log_record _ _ _ _ _ He), filter_own, Hlog.
    destruct (hs_runs s !! run_id r) as [p|] eqn:Ep; [|done].
    destruct (Hext p eq_refl) as [suffix Hx]. symmetry. by apply (derive_run_events_app p r suffix).
  - rewrite lookup_insert_ne by done. split; [|done].
    rewrite (run_log_record _ _ _ _ _ He), filter_other, app_nil_r; [done|].
    eapply Forall_impl; [apply derive_run_events_entity|]. intros e [_ Hi]. right.
    rewrite Hi. intros Heq. by apply (id_to_string_inj Hinj) in Heq.
Qed.

Lemma chronology_step s op s' :
  Inj (=) (=) uuid_hyphenated -> chronology_ok s -> hub_step s op s' -> chronology_ok s'.
Proof.
  intros Hinj Hs Hstep. destruct Hstep as [m t s' b Hp|r s' Hp Hext|t s' Hp|a s' Hp|w t s' Hp|id t s' o Hp].
  - unfold InMemoryHubStore_put_component in Hp.
    destruct (InMemoryComponents_put _ _) as [g [[]|e]]; [|by injection Hp as <- _|done].
    destruct (record_events _ _) as [ev [u|]] eqn:He; [|done]. injection Hp as <- _.
    eapply chronology_other; [exact Hs|done|exact He|repeat constructor; done].
  - by eapply chronology_run.
  - unfold InMemoryHubStore_put_task in Hp.
    destruct (InMemoryTasks_put _ _) as [g [[]|e]]; [|done].
    destruct (record_events _ _) as [ev res] eqn:He. injection Hp as <- ->.
    eapply chronology_other; [exact Hs|done|exact He|apply derive_task_events_entity].
  - unfold InMemoryHubStore_put_artifact, InMemoryArtifactMeta_put in Hp.
    destruct (record_events _ _) as [ev res] eqn:He. injection Hp as <- ->.
    eapply chronology_other; [exact Hs|done|exact He|].
    destruct (is_some _); repeat constructor; done.
  - unfold InMemoryHubStore_put_workflow in Hp.
    destruct (InMemoryWorkflows_put _ _) as [g res]. destruct (g !! _); [|done].
    destruct (record_events _ _) as [ev res'] eqn:He. injection Hp as <- ->.
    eapply chronology_other; [exact Hs|done|exact He|apply derive_workflow_events_entity].
  - unfold InMemoryHubStore_request_cancel in Hp.
    destruct (InMemoryWorkflows_request_cancel _ _ _) as [g [upd|e]]; [|done].
    destruct (record_events _ _) as [ev [u|]] eqn:He; [|done]. injection Hp as <- _.
    eapply chronology_other; [exact Hs|done|exact He|].
    destruct (_ && _); repeat constructor; done.
Qed.

(** (C19) The event log is a complete chronology of runs: in every store
    reached by accepted operations in which a run record is only replaced by a
    later snapshot of itself, the events about a run are exactly those of its
    stored record -- its creation and each of its transitions, once, in order
    -- and there are none about unknown runs. *)
Theorem hub_run_chronology s id :
  Inj (=) (=) uuid_hyphenated -> hub_reachable s ->
  run_log id (hs_events s) =
    match hs_runs s !! id with
    | Some r => run_created_event r :: (run_transition_event r <$> run_transitions r)
    | None => []
    end.
Proof.
  intros Hinj Hr. enough (Hok : chronology_ok s).
  { rewrite (proj1 (Hok id)). by destruct (hs_runs s !! id). }
  induction Hr as [|s op s' _ IH Hstep]; [|by eapply chronology_step].
  intros i. split; [done|]. intros r. cbn. by rewrite lookup_empty.
Qed.

(** Registered manifests are immutable: whatever operations follow, a
    registered (component, version) keeps its manifest; registering again
    under the same key never changes the registry and answers [false] for
    identical content and a conflict otherwise. *)
Theorem registry_immutable s ops id v m :
  hs_components s !! (id, v) = Some m ->
  hs_components (hub_run s ops) !! (id, v) = Some m /\
  (forall m' d d', m_id m' = id -> m_version m' = v ->
     ComponentManifest_content_digest m = Ok d -> ComponentManifest_content_digest m' = Ok d' ->
     InMemoryComponents_put (hs_components (hub_run s ops)) m'
       = (hs_components (hub_run s ops),
          if bool_decide (d = d') then Ok false
          else Err (ComponentConflict id (ContentDigest_to_hex d) (ContentDigest_to_hex d')))).
Proof.
  intros Hm. assert (Hm' := hub_run_components s ops id v m Hm). split; [done|].
  intros m' d d' <- <- Hd Hd'. unfold InMemoryComponents_put. rewrite Hm', Hd, Hd'. done.
Qed.

Lemma components_latest_spec ms id :
  exists o, InMemoryComponents_latest ms id = Ok o /\
  match o with
  | None => forall v, ms !! (id, v) = None
  | Some m => exists v, ms !! (id, v) = Some m /\
      forall v' m', ms !! (id, v') = Some m' -> ord_le v' v
  end.
Proof.
  eexists. split; [reflexivity|].
  pose proof (max_by_spec (fun e : (ComponentId * Version) * ComponentManifest => e.1.2)
    (List.filter (fun e => bool_decide (e.1.1 = id)) (map_iter ms)) None) as Hspec.
  assert (Hin : forall k m, (k, m) ∈ List.filter
    (fun e : (ComponentId * Version) * ComponentManifest => bool_decide (e.1.1 = id)) (map_iter ms)
    <-> ms !! k = Some m /\ k.1 = id).
  { intros k m. rewrite list_elem_of_In, List.filter_In, <- list_elem_of_In.
    rewrite elem_of_map_iter, bool_decide_eq_true. done. }
  unfold max_by. destruct (foldl _ _ _) as [[[i v] m]|]; cbn.
  - destruct Hspec as [[[=]|Hel] Hmax]. apply Hin in Hel as [Hms Hi]. cbn in Hi. subst i.
    exists v. split; [done|]. intros v' m' Hv'. apply (Hmax (id, v', m')). right. by apply Hin.
  - destruct Hspec as [_ Hnil]. intros v. destruct (ms !! (id, v)) as [m|] eqn:E; [|done].
    assert (Hel : ((id, v), m) ∈ @nil ((ComponentId * Version) * ComponentManifest))
      by (rewrite <- Hnil; by apply Hin). set_solver.
Qed.

(** [latest] answers the registered manifest whose version string is the
    lexicographically greatest for the component, and nothing exactly when the
    component has no version. *)
Lemma registry_latest_spec ms id :
  exists o, InMemoryComponents_latest ms id = Ok o /\
  match o with
  | None => forall v, ms !! (id, v) = None
  | Some m => exists v, ms !! (id, v) = Some m /\
      forall v' m', ms !! (id, v') = Some m' -> ord_le v' v
  end.
Proof. apply components_latest_spec. Qed.

(** Durable tasks only move forward: starting from an empty store, every
    stored task always validates under its own id, and whatever operations
    follow, its specification is fixed, its log only grows, and once terminal
    it never changes. *)
Theorem hub_tasks_monotone ops more id r :
  let s := hub_run InMemoryHubStore_default ops in
  hs_tasks s !! id = Some r ->
  TaskRecord_validate r = Ok tt /\ ts_id (tk_spec r) = id /\
  exists r', hs_tasks (hub_run s more) !! id = Some r' /\ task_progress r r'.
Proof.
  intros s Hr. assert (Hv : tasks_valid s).
  { apply hub_run_tasks_valid. intros i x. cbn. by rewrite lookup_empty. }
  destruct (Hv id r Hr) as [? ?]. split_and!; [done..|]. by apply hub_run_tasks.
Qed.

(** A cancellation request is never lost: once a workflow carries a
    cancellation intent, no later operation -- in particular no stale scheduler
    write of a record without it -- clears it. *)
Theorem hub_cancel_intent_monotone s ops id :
  cancel_requested (hs_workflows s) id -> cancel_requested (hs_workflows (hub_run s ops)) id.
Proof.
  revert s; induction ops as [|op ops IH]; intros s Hc; [done|]. apply IH.
  destruct (hub_do_workflows s op) as [->|[[w ->]|(i & t & ->)]];
    [done|by apply workflows_put_cancel|by apply workflows_request_cancel].
Qed.
End memory.

(** ** Witnesses *)
Definition toy_manifest_json : ManifestJson := {|
  manifest_to_vec m := Some (bytes (component_name_str (m_name m)) ++ bytes (version_str (m_version m)))
|}.

#[local] Existing Instance toy_json.
#[local] Existing Instance toy_manifest_json.
#[local] Existing Instance toy_workspace_json.
#[local] Existing Instance toy_sha.
#[local] Existing Instance toy_uuid.

Definition hub_one : InMemoryHubStore :=
  (InMemoryHubStore_put_component InMemoryHubStore_default sample_manifest 1).1.

Lemma registry_immutable_witness :
  (InMemoryComponents_put (hs_components (hub_run hub_one [PutRun sample_run])) sample_manifest).2
    = Ok false.
Proof.
  assert (Hm : hs_components hub_one !! (from_uuid 7, mkVersion "1.0.0") = Some sample_manifest)
    by apply lookup_insert_eq.
  assert (Hd : ComponentManifest_content_digest sample_manifest
    = Ok (hash_bytes DOMAIN_COMPONENT_MANIFEST (bytes "solver1.0.0"))) by (vm_compute; reflexivity).
  rewrite (proj2 (registry_immutable hub_one [PutRun sample_run] (from_uuid 7) (mkVersion "1.0.0")
    sample_manifest Hm) sample_manifest _ _ eq_refl eq_refl Hd Hd).
  by rewrite bool_decide_eq_true_2.
Defined.

Lemma hub_run_chronology_witness :
  let s := (InMemoryHubStore_put_run InMemoryHubStore_default sample_run).1 in
  run_log (run_id sample_run) (hs_events s) =
  match hs_runs s !! run_id sample_run with
  | Some r => run_created_event r :: (run_transition_event r <$> run_transitions r)
  | None => []
  end.
Proof.
  intros s. apply hub_run_chronology.
  - intros x y. apply pretty_N_inj.
  - eapply reach_step; [apply reach_default|]. apply (hub_step_run _ sample_run).
    + apply pair_snd_eq. vm_compute. reflexivity.
    + intros p. cbn. by rewrite lookup_empty.
Defined.

Definition hub_task : InMemoryHubStore := hub_run InMemoryHubStore_default [PutTask sample_task_record].

Lemma hub_task_lookup : hs_tasks hub_task !! (from_uuid 3 : TaskId) = Some sample_task_record.
Proof.
  unfold hub_task, hub_run. cbn [foldl hub_do]. unfold InMemoryHubStore_put_task, InMemoryTasks_put.
  cbn [hs_tasks InMemoryHubStore_default]. rewrite lookup_empty.
  assert (Hv : TaskRecord_validate sample_task_record = Ok tt) by (vm_compute; reflexivity).
  rewrite Hv. cbn [mbind result_bind]. destruct (record_events _ _). cbn [fst hs_tasks].
  apply lookup_insert_eq.
Qed.

Lemma hub_tasks_monotone_witness :
  exists r', hs_tasks (hub_run hub_task [PutRun sample_run; PutTask sample_task_record])
    !! (from_uuid 3 : TaskId) = Some r' /\ task_progress sample_task_record r'.
Proof.
  exact (proj2 (proj2 (hub_tasks_monotone [PutTask sample_task_record]
    [PutRun sample_run; PutTask sample_task_record] (from_uuid 3) sample_task_record
    hub_task_lookup))).
Defined.

Definition hub_cancelled : InMemoryHubStore :=
  hub_run InMemoryHubStore_default
    [PutWorkflow sample_workflow_record 11; RequestCancel (from_uuid 5) 12].

Lemma hub_cancelled_requested : cancel_requested (hs_workflows hub_cancelled) (from_uuid 5).
Proof. eexists. split; [apply lookup_insert_eq|cbn; eauto]. Qed.

Lemma hub_cancel_intent_monotone_witness :
  cancel_requested (hs_workflows (hub_run hub_cancelled [PutWorkflow sample_workflow_record 13]))
    (from_uuid 5).
Proof. apply hub_cancel_intent_monotone. apply hub_cancelled_requested. Defined.
