(* ===== verification/Ports.v ===== *)
(** * The repository ports ([hub-core/src/store.rs])

    The orchestrator sees its registry, runs, artifact metadata and workflows
    through traits.  [Repositories] is their operations, [RepositoriesLaws]
    what the orchestrator relies on; the in-memory store satisfies them. *)

From stdpp Require Import base gmap strings list sorting.
From S2P Require Import Prelude Text Core Version Digest Component Run Workflow Task TaskLifecycle.
From S2P Require Import Event Memory.

Class Repositories `{JsonLib} (S : Type) := {
  components_put : S -> ComponentManifest -> UnixMillis -> S * Result bool;
  components_latest : S -> ComponentId -> Result (option ComponentManifest);
  components_get : S -> ComponentId -> Version -> Result (option ComponentManifest);
  components_list : S -> Result (list ComponentManifest);
  runs_put : S -> RunRecord -> S * Result unit;
  runs_get : S -> RunId -> Result (option RunRecord);
  artifacts_put : S -> ArtifactMeta -> S * Result unit;
  artifacts_get : S -> ArtifactId -> Result (option ArtifactMeta);
  workflows_put : S -> WorkflowRecord -> UnixMillis -> S * Result unit;
  workflows_get : S -> WorkflowId -> Result (option WorkflowRecord);
  workflows_list : S -> Result (list WorkflowRecord);
  workflows_request_cancel :
    S -> WorkflowId -> UnixMillis -> S * Result (option WorkflowRecord);
  (** The states the implementation reaches. *)
  repo_ok : S -> Prop;
}.

Section laws.
Context `{JsonLib} {Store : Type} `{!Repositories Store}.

(** Two stores that answer every query about a part alike. *)
Definition same_components (s s' : Store) : Prop :=
  (forall id v, components_get s' id v = components_get s id v) /\
  (forall id, components_latest s' id = components_latest s id) /\
  components_list s' = components_list s.

Definition same_artifacts (s s' : Store) : Prop := forall id, artifacts_get s' id = artifacts_get s id.
Definition same_runs (s s' : Store) : Prop := forall id, runs_get s' id = runs_get s id.
Definition same_workflows (s s' : Store) : Prop := forall id, workflows_get s' id = workflows_get s id.

(** A manifest is in the registry. *)
Definition registered (s : Store) (m : ComponentManifest) : Prop :=
  components_get s (m_id m) (m_version m) = Ok (Some m).

Class RepositoriesLaws : Prop := {
  components_get_key : forall s id v m,
    repo_ok s -> components_get s id v = Ok (Some m) -> m_id m = id /\ m_version m = v;
  (** The latest version is the registered one with the greatest version
      text. *)
  components_latest_law : forall s id m,
    repo_ok s ->
    components_latest s id = Ok (Some m) <->
    m_id m = id /\ registered s m /\
    forall m', registered s m' -> m_id m' = id -> ord_le (m_version m') (m_version m);
  (** The list is the registry in [(id, version)] order. *)
  components_list_law : forall s,
    repo_ok s -> exists l, components_list s = Ok l /\
      (forall m, m ∈ l <-> registered s m) /\
      StronglySorted ord_le ((fun m => (m_id m, m_version m)) <$> l) /\
      NoDup ((fun m => (m_id m, m_version m)) <$> l);
  components_put_law : forall s m t s' b,
    repo_ok s -> components_put s m t = (s', Ok b) ->
    (forall id v, (id, v) <> (m_id m, m_version m) ->
       components_get s' id v = components_get s id v) /\
    (if b : bool then components_get s (m_id m) (m_version m) = Ok None /\ registered s' m
     else components_get s' (m_id m) (m_version m) = components_get s (m_id m) (m_version m));
  runs_get_key : forall s id r, repo_ok s -> runs_get s id = Ok (Some r) -> run_id r = id;
  artifacts_get_key : forall s id a, repo_ok s -> artifacts_get s id = Ok (Some a) -> art_id a = id;
  workflows_get_key : forall s id w, repo_ok s -> workflows_get s id = Ok (Some w) -> wr_id w = id;
  runs_put_law : forall s r s',
    repo_ok s -> runs_put s r = (s', Ok tt) -> runs_get s' (run_id r) = Ok (Some r);
  (** A write that answered an error happened or did not happen. *)
  runs_put_failed : forall s r s' e,
    repo_ok s -> runs_put s r = (s', Err e) ->
    runs_get s' (run_id r) = runs_get s (run_id r) \/ runs_get s' (run_id r) = Ok (Some r);
  (** Artifact metadata already stored under the id may be kept, if it has the
      digest of the new one. *)
  artifacts_put_law : forall s a s',
    repo_ok s -> artifacts_put s a = (s', Ok tt) ->
    exists a', artifacts_get s' (art_id a) = Ok (Some a') /\
      ContentDigest_to_hex (art_digest a') = ContentDigest_to_hex (art_digest a) /\
      (artifacts_get s (art_id a) = Ok None -> a' = a);
  (** A stored workflow is the one given, except that a cancellation request
      already stored is kept. *)
  workflows_put_law : forall s w t s',
    repo_ok s -> workflows_put s w t = (s', Ok tt) ->
    exists c, workflows_get s' (wr_id w) = Ok (Some (WorkflowRecord_set_cancel w c)) /\
      (is_Some (wr_cancel_requested_at w) \/ workflows_get s (wr_id w) = Ok None ->
       c = wr_cancel_requested_at w) /\
      (forall old, workflows_get s (wr_id w) = Ok (Some old) ->
       wr_cancel_requested_at w = None -> c = wr_cancel_requested_at old);
  workflows_put_failed : forall s w t s' e,
    repo_ok s -> workflows_put s w t = (s', Err e) ->
    workflows_get s' (wr_id w) = workflows_get s (wr_id w) \/
    exists c, workflows_get s' (wr_id w) = Ok (Some (WorkflowRecord_set_cancel w c)) /\
      (is_Some (wr_cancel_requested_at w) \/ workflows_get s (wr_id w) = Ok None ->
       c = wr_cancel_requested_at w) /\
      (forall old, workflows_get s (wr_id w) = Ok (Some old) ->
       wr_cancel_requested_at w = None -> c = wr_cancel_requested_at old);
  (** The list is the stored workflows, each once. *)
  workflows_list_law : forall s l,
    repo_ok s -> workflows_list s = Ok l ->
    NoDup (wr_id <$> l) /\ forall w, w ∈ l <-> workflows_get s (wr_id w) = Ok (Some w);
  (** A cancellation request is stored with the first time given, unless the
      workflow is unknown or already terminal. *)
  workflows_cancel_law : forall s id t s' o,
    repo_ok s -> workflows_request_cancel s id t = (s', Ok o) ->
    workflows_get s id = Ok None /\ o = None /\ workflows_get s' id = Ok None \/
    exists old, workflows_get s id = Ok (Some old) /\
      let new := if WorkflowState_is_terminal (wr_state old) then old
                 else WorkflowRecord_set_cancel old (get_or_insert (wr_cancel_requested_at old) t) in
      o = Some new /\ workflows_get s' id = Ok (Some new);
  (** Whatever a write answers, it touches its own entry only. *)
  components_put_frame : forall s m t,
    repo_ok s -> let s' := (components_put s m t).1 in
    repo_ok s' /\ same_runs s s' /\ same_artifacts s s' /\ same_workflows s s';
  runs_put_frame : forall s r,
    repo_ok s -> let s' := (runs_put s r).1 in
    repo_ok s' /\ (forall id, id <> run_id r -> runs_get s' id = runs_get s id) /\
    same_components s s' /\ same_artifacts s s' /\ same_workflows s s';
  artifacts_put_frame : forall s a,
    repo_ok s -> let s' := (artifacts_put s a).1 in
    repo_ok s' /\ (forall id, id <> art_id a -> artifacts_get s' id = artifacts_get s id) /\
    same_components s s' /\ same_runs s s' /\ same_workflows s s';
  workflows_put_frame : forall s w t,
    repo_ok s -> let s' := (workflows_put s w t).1 in
    repo_ok s' /\ (forall id, id <> wr_id w -> workflows_get s' id = workflows_get s id) /\
    same_components s s' /\ same_runs s s' /\ same_artifacts s s';
  workflows_cancel_frame : forall s id t,
    repo_ok s -> let s' := (workflows_request_cancel s id t).1 in
    repo_ok s' /\ (forall id', id' <> id -> workflows_get s' id' = workflows_get s id') /\
    same_components s s' /\ same_runs s s' /\ same_artifacts s s';
}.
End laws.
Arguments RepositoriesLaws {_} Store {_}.

(** ** The in-memory store *)
Section in_memory.
Context `{JsonLib, ManifestJson, WorkspaceJson, Sha256Lib, UuidLib}.

(** Every record is stored under its own id. *)
Definition hub_keyed (s : InMemoryHubStore) : Prop :=
  registry_keyed (hs_components s) /\
  (forall id r, hs_runs s !! id = Some r -> run_id r = id) /\
  (forall id a, hs_artifacts s !! id = Some a -> art_id a = id) /\
  (forall id w, hs_workflows s !! id = Some w -> wr_id w = id).

#[global] Instance InMemoryRepositories : Repositories InMemoryHubStore := {|
  components_put := InMemoryHubStore_put_component;
  components_latest s := InMemoryComponents_latest (hs_components s);
  components_get s := InMemoryComponents_get (hs_components s);
  components_list s := InMemoryComponents_list (hs_components s);
  runs_put := InMemoryHubStore_put_run;
  runs_get s id := Ok (hs_runs s !! id);
  artifacts_put := InMemoryHubStore_put_artifact;
  artifacts_get s id := Ok (hs_artifacts s !! id);
  workflows_put := InMemoryHubStore_put_workflow;
  workflows_get s id := Ok (hs_workflows s !! id);
  workflows_list s := InMemoryWorkflows_list (hs_workflows s);
  workflows_request_cancel := InMemoryHubStore_request_cancel;
  repo_ok := hub_keyed |}.

Lemma registered_lookup (s : InMemoryHubStore) m :
  registered s m <-> hs_components s !! (m_id m, m_version m) = Some m.
Proof. unfold registered. cbn. unfold InMemoryComponents_get. split; [by intros [= Hm]|by intros ->]. Qed.

Lemma in_memory_latest (s : InMemoryHubStore) id m :
  registry_keyed (hs_components s) ->
  InMemoryComponents_latest (hs_components s) id = Ok (Some m) <->
  m_id m = id /\ registered s m /\
  forall m', registered s m' -> m_id m' = id -> ord_le (m_version m') (m_version m).
Proof.
  intros Hk. destruct (components_latest_spec (hs_components s) id) as (o & -> & Ho). split.
  - intros [= ->]. destruct Ho as (v & Hv & Hmax). destruct (Hk _ _ _ Hv) as [<- <-].
    split_and!; [done|by apply registered_lookup|].
    intros m' Hm'%registered_lookup Hid. rewrite Hid in Hm'. by eapply Hmax.
  - intros (<- & Hm%registered_lookup & Hmax). destruct o as [m0|].
    + destruct Ho as (v & Hv & Hmax0). destruct (Hk _ _ _ Hv) as [Hid <-].
      assert (m_version m = m_version m0) as Heq.
      { apply (anti_symm ord_le); [by eapply Hmax0|].
        apply Hmax; [apply registered_lookup; by rewrite Hid|done]. }
      rewrite <- Heq in Hv. congruence.
    + by rewrite Ho in Hm.
Qed.

Lemma in_memory_list (s : InMemoryHubStore) :
  registry_keyed (hs_components s) ->
  let l := map_values (hs_components s) in
  (fun m => (m_id m, m_version m)) <$> l = map_keys (hs_components s) /\
  forall m, m ∈ l <-> registered s m.
Proof.
  intros Hk l. split.
  - apply (map_values_keys (fun m => (m_id m, m_version m))). intros [id v] m Hm.
    by destruct (Hk _ _ _ Hm) as [-> ->].
  - intros m. subst l. rewrite elem_of_map_values, registered_lookup. split; [|eauto].
    intros [[id v] Hm]. by destruct (Hk _ _ _ Hm) as [-> ->].
Qed.

Lemma registry_keyed_insert ms (m : ComponentManifest) :
  registry_keyed ms -> registry_keyed (<[(m_id m, m_version m) := m]> ms).
Proof.
  intros Hk id v m'. rewrite lookup_insert_Some. intros [[[= <- <-] <-]|[_ Hm]]; [done|by apply Hk].
Qed.

Lemma keyed_insert {K V} `{Countable K} (key : V -> K) (g : gmap K V) k v :
  (forall k v, g !! k = Some v -> key v = k) -> key v = k ->
  forall k' v', <[k := v]> g !! k' = Some v' -> key v' = k'.
Proof. intros Hg Hv k' v'. rewrite lookup_insert_Some. intros [[<- <-]|[_ Hl]]; auto. Qed.

Lemma in_memory_put_component_cases (s : InMemoryHubStore) m t :
  let s' := (InMemoryHubStore_put_component s m t).1 in
  hs_runs s' = hs_runs s /\ hs_artifacts s' = hs_artifacts s /\ hs_workflows s' = hs_workflows s /\
  ((hs_components s' = hs_components s /\
    (InMemoryHubStore_put_component s m t).2 <> Ok true) \/
   (hs_components s !! (m_id m, m_version m) = None /\
    hs_components s' = <[(m_id m, m_version m) := m]> (hs_components s) /\
    (InMemoryHubStore_put_component s m t).2 <> Ok false)).
Proof.
  unfold InMemoryHubStore_put_component, InMemoryComponents_put.
  destruct (hs_components s !! _) as [existing|] eqn:E.
  - destruct (_ ≫= _) as [[|]|e] eqn:Eb; cbn; [|by auto 10..].
    exfalso. ok_inv. by case_bool_decide.
  - destruct (record_events _ _) as [evs [u|e]]; cbn; split_and!; try done; by right.
Qed.

Lemma in_memory_put_run (s : InMemoryHubStore) r :
  let s' := (InMemoryHubStore_put_run s r).1 in
  hs_components s' = hs_components s /\ hs_artifacts s' = hs_artifacts s /\
  hs_workflows s' = hs_workflows s /\ hs_runs s' = <[run_id r := r]> (hs_runs s).
Proof.
  unfold InMemoryHubStore_put_run, InMemoryRuns_put. by destruct (record_events _ _).
Qed.

Lemma in_memory_put_artifact (s : InMemoryHubStore) a :
  let s' := (InMemoryHubStore_put_artifact s a).1 in
  hs_components s' = hs_components s /\ hs_runs s' = hs_runs s /\
  hs_workflows s' = hs_workflows s /\ hs_artifacts s' = <[art_id a := a]> (hs_artifacts s).
Proof.
  unfold InMemoryHubStore_put_artifact, InMemoryArtifactMeta_put. by destruct (record_events _ _).
Qed.

(** What [InMemoryWorkflows::put] keeps of an earlier cancellation. *)
Definition merged_cancel (previous : option WorkflowRecord) (w : WorkflowRecord) : option UnixMillis :=
  match wr_cancel_requested_at w with
  | Some t => Some t
  | None => previous ≫= wr_cancel_requested_at
  end.

Lemma in_memory_put_workflow (s : InMemoryHubStore) w t :
  let s' := (InMemoryHubStore_put_workflow s w t).1 in
  hs_components s' = hs_components s /\ hs_runs s' = hs_runs s /\
  hs_artifacts s' = hs_artifacts s /\
  hs_workflows s' = <[wr_id w := WorkflowRecord_set_cancel w (merged_cancel (hs_workflows s !! wr_id w) w)]>
                      (hs_workflows s).
Proof.
  unfold InMemoryHubStore_put_workflow, InMemoryWorkflows_put. rewrite lookup_insert_eq.
  destruct (record_events _ _) as [evs r]. cbn. split_and!; try done. f_equal.
  unfold merged_cancel. destruct w as [? ? ? ? ? ? ? ? c ? ?]. cbn.
  destruct (hs_workflows s !! _) as [old|]; destruct c; done.
Qed.

Lemma in_memory_cancel_workflow (s : InMemoryHubStore) id t :
  let s' := (InMemoryHubStore_request_cancel s id t).1 in
  hs_components s' = hs_components s /\ hs_runs s' = hs_runs s /\
  hs_artifacts s' = hs_artifacts s /\
  hs_workflows s' = match hs_workflows s !! id with
    | None => hs_workflows s
    | Some old => <[id := if WorkflowState_is_terminal (wr_state old) then old
        else WorkflowRecord_set_cancel old (get_or_insert (wr_cancel_requested_at old) t)]> (hs_workflows s)
    end.
Proof.
  unfold InMemoryHubStore_request_cancel, InMemoryWorkflows_request_cancel.
  destruct (hs_workflows s !! id) as [old|]; destruct (record_events _ _) as [evs r]; cbn;
    split_and!; try done. by destruct (WorkflowState_is_terminal _).
Qed.

Lemma in_memory_workflow_stored (s s' : InMemoryHubStore) w t r :
  InMemoryHubStore_put_workflow s w t = (s', r) ->
  exists c, hs_workflows s' !! wr_id w = Some (WorkflowRecord_set_cancel w c) /\
    (is_Some (wr_cancel_requested_at w) \/ Ok (hs_workflows s !! wr_id w) = Ok None :> Result _ ->
     c = wr_cancel_requested_at w) /\
    (forall old, Ok (hs_workflows s !! wr_id w) = Ok (Some old) :> Result _ ->
     wr_cancel_requested_at w = None -> c = wr_cancel_requested_at old).
Proof.
  intros Hput. destruct (in_memory_put_workflow s w t) as (_ & _ & _ & Er).
  rewrite Hput in Er. cbn in Er. rewrite Er, lookup_insert_eq. eexists. split; [done|].
  unfold merged_cancel. split.
  - intros [[c ->]|[= ->]]; [done|]. by destruct (wr_cancel_requested_at w).
  - intros old [= ->] ->. done.
Qed.

Lemma in_memory_workflows_list (ws : gmap WorkflowId WorkflowRecord) :
  (forall id w, ws !! id = Some w -> wr_id w = id) ->
  let l := sort_by_key (fun w => (wr_created_at w, wr_id w)) (map_values ws) in
  NoDup (wr_id <$> l) /\
  forall w, w ∈ l <-> Ok (ws !! wr_id w) = Ok (Some w) :> Result (option WorkflowRecord).
Proof.
  intros Hk l. assert (Hp : l ≡ₚ map_values ws) by apply sort_by_perm. split.
  - rewrite Hp, (map_values_keys wr_id) by done. apply NoDup_map_keys.
  - intros w. rewrite Hp, elem_of_map_values. split.
    + intros [id Hid]. by rewrite (Hk _ _ Hid), Hid.
    + intros [= Hw]. eauto.
Qed.

Lemma set_cancel_id w c : wr_id (WorkflowRecord_set_cancel w c) = wr_id w.
Proof. done. Qed.

Lemma set_cancel_same w : WorkflowRecord_set_cancel w (wr_cancel_requested_at w) = w.
Proof. by destruct w. Qed.

Lemma hub_keyed_put_component s m t : hub_keyed s -> hub_keyed (InMemoryHubStore_put_component s m t).1.
Proof.
  intros (Hc & Hr & Ha & Hw).
  destruct (in_memory_put_component_cases s m t) as (Er & Ea & Ew & [[Ec _]|(_ & Ec & _)]);
    unfold hub_keyed; rewrite Er, Ea, Ew, Ec; split_and!; try done. by apply registry_keyed_insert.
Qed.

Lemma hub_keyed_put_run s r : hub_keyed s -> hub_keyed (InMemoryHubStore_put_run s r).1.
Proof.
  intros (Hc & Hr & Ha & Hw). destruct (in_memory_put_run s r) as (Ec & Ea & Ew & Er).
  unfold hub_keyed. rewrite Er, Ea, Ew, Ec. split_and!; try done. by apply keyed_insert.
Qed.

Lemma hub_keyed_put_artifact s a : hub_keyed s -> hub_keyed (InMemoryHubStore_put_artifact s a).1.
Proof.
  intros (Hc & Hr & Ha & Hw). destruct (in_memory_put_artifact s a) as (Ec & Er & Ew & Ea).
  unfold hub_keyed. rewrite Er, Ea, Ew, Ec. split_and!; try done. by apply keyed_insert.
Qed.

Lemma hub_keyed_put_workflow s w t : hub_keyed s -> hub_keyed (InMemoryHubStore_put_workflow s w t).1.
Proof.
  intros (Hc & Hr & Ha & Hw). destruct (in_memory_put_workflow s w t) as (Ec & Er & Ea & Ew).
  unfold hub_keyed. rewrite Er, Ea, Ew, Ec. split_and!; try done. by apply keyed_insert.
Qed.

Lemma hub_keyed_cancel s id t : hub_keyed s -> hub_keyed (InMemoryHubStore_request_cancel s id t).1.
Proof.
  intros (Hc & Hr & Ha & Hw). destruct (in_memory_cancel_workflow s id t) as (Ec & Er & Ea & Ew).
  unfold hub_keyed. rewrite Er, Ea, Ew, Ec. split_and!; try done.
  destruct (hs_workflows s !! id) as [old|] eqn:E; [|done]. apply keyed_insert; [done|].
  destruct (WorkflowState_is_terminal _); [|rewrite set_cancel_id]; by apply Hw.
Qed.

Ltac ports_cbn :=
  cbn [components_put components_get components_latest components_list runs_put runs_get
       artifacts_put artifacts_get workflows_put workflows_get workflows_list workflows_request_cancel
       repo_ok InMemoryRepositories].

#[global] Instance InMemoryRepositories_laws : RepositoriesLaws InMemoryHubStore.
Proof.
  split.
  - intros s id v m (Hk & _). cbn. intros [= Hm]. by apply Hk.
  - intros s id m (Hk & _). by apply in_memory_latest.
  - intros s (Hk & _). destruct (in_memory_list s Hk) as [Hkeys Hin]. eexists. split; [done|].
    split; [done|]. rewrite Hkeys. split; [apply sorted_map_keys|apply NoDup_map_keys].
  - intros s m t s' b Hk Hput. unfold registered.
    cbn [components_put components_get InMemoryRepositories] in *. unfold InMemoryComponents_get.
    destruct (in_memory_put_component_cases s m t) as (_ & _ & _ & [[Ec Hb]|(Hn & Ec & Hb)]);
      rewrite Hput in *; cbn in *; rewrite Ec.
    + destruct b; [done|]. done.
    + destruct b; [|done]. rewrite Hn, lookup_insert_eq. split_and!; try done.
      intros id v Hne. by rewrite lookup_insert_ne.
  - intros s id r (_ & Hr & _). cbn. intros [= Hl]. by apply Hr.
  - intros s id a (_ & _ & Ha & _). cbn. intros [= Hl]. by apply Ha.
  - intros s id w (_ & _ & _ & Hw). cbn. intros [= Hl]. by apply Hw.
  - intros s r s' _ Hput. cbn [runs_put runs_get InMemoryRepositories] in *. destruct (in_memory_put_run s r) as (_ & _ & _ & Er).
    rewrite Hput in Er. cbn in Er. by rewrite Er, lookup_insert_eq.
  - intros s r s' e _ Hput. right. ports_cbn. destruct (in_memory_put_run s r) as (_ & _ & _ & Er).
    change (InMemoryHubStore_put_run s r = (s', Err e)) in Hput.
    rewrite Hput in Er. cbn in Er. by rewrite Er, lookup_insert_eq.
  - intros s a s' _ Hput. cbn [artifacts_put artifacts_get InMemoryRepositories] in *. destruct (in_memory_put_artifact s a) as (_ & _ & _ & Er).
    rewrite Hput in Er. cbn in Er. exists a. by rewrite Er, lookup_insert_eq.
  - intros s w t s' _ Hput. ports_cbn. destruct (in_memory_workflow_stored _ _ _ _ _ Hput) as (c & -> & ?).
    by exists c.
  - intros s w t s' e _ Hput. right. ports_cbn.
    destruct (in_memory_workflow_stored _ _ _ _ _ Hput) as (c & -> & ?). by exists c.
  - intros s l (_ & _ & _ & Hw). ports_cbn. intros [= <-]. by apply in_memory_workflows_list.
  - intros s id t s' o _ Hput. cbn [workflows_request_cancel workflows_get InMemoryRepositories] in *.
    destruct (in_memory_cancel_workflow s id t) as (_ & _ & _ & Er). rewrite Hput in Er. cbn in Er.
    unfold InMemoryHubStore_request_cancel, InMemoryWorkflows_request_cancel in Hput.
    destruct (hs_workflows s !! id) as [old|] eqn:E.
    + right. exists old. split; [done|]. rewrite Er, lookup_insert_eq.
      destruct (record_events _ _) as [evs [u|e]]; [|done]. injection Hput as <- <-.
      by destruct (WorkflowState_is_terminal _).
    + left. destruct (record_events _ _) as [evs [u|e]]; [|done]. injection Hput as <- <-.
      split_and!; try done. by rewrite Er, E.
  - intros s m t Hk. ports_cbn. split; [by apply hub_keyed_put_component|].
    destruct (in_memory_put_component_cases s m t) as (Er & Ea & Ew & _).
    unfold same_runs, same_artifacts, same_workflows. ports_cbn. by rewrite Er, Ea, Ew.
  - intros s r Hk. ports_cbn. split; [by apply hub_keyed_put_run|].
    destruct (in_memory_put_run s r) as (Ec & Ea & Ew & Er).
    unfold same_components, same_artifacts, same_workflows. ports_cbn. rewrite Ec, Ea, Ew, Er.
    split_and!; try done. intros id Hne. by rewrite lookup_insert_ne.
  - intros s a Hk. ports_cbn. split; [by apply hub_keyed_put_artifact|].
    destruct (in_memory_put_artifact s a) as (Ec & Er & Ew & Ea).
    unfold same_components, same_runs, same_workflows. ports_cbn. rewrite Ec, Ea, Ew, Er.
    split_and!; try done. intros id Hne. by rewrite lookup_insert_ne.
  - intros s w t Hk. ports_cbn. split; [by apply hub_keyed_put_workflow|].
    destruct (in_memory_put_workflow s w t) as (Ec & Er & Ea & Ew).
    unfold same_components, same_runs, same_artifacts. ports_cbn. rewrite Ec, Ea, Ew, Er.
    split_and!; try done. intros id Hne. by rewrite lookup_insert_ne.
  - intros s id t Hk. ports_cbn. split; [by apply hub_keyed_cancel|].
    destruct (in_memory_cancel_workflow s id t) as (Ec & Er & Ea & Ew).
    unfold same_components, same_runs, same_artifacts. ports_cbn. rewrite Ec, Ea, Ew, Er.
    split_and!; try done. intros id' Hne. destruct (hs_workflows s !! id); [|done].
    by rewrite lookup_insert_ne.
Qed.
End in_memory.
