(* ===== verification/Exec.v ===== *)
(** * The executor port ([hub-core/src/exec.rs])

    The structured request an executor receives, what it observes, and the
    [Executor] trait with its default methods.  An implementation is a
    parameter: it runs on the machine and may change its files. *)

From stdpp Require Import base gmap strings list.
From S2P Require Import Prelude Text Core Version Digest Machine Component Task.

(** [CancelToken]: a shared flag. *)
Record CancelToken := { is_cancelled : bool }.

Definition CancelToken_new : CancelToken := {| is_cancelled := false |}.
Definition CancelToken_cancel (t : CancelToken) : CancelToken := {| is_cancelled := true |}.

Record ExecutionRequest := {
  rq_program : string;
  rq_args : list string;
  rq_working_dir : string;
  rq_env : gmap string string;
  rq_timeout_ms : N;
  rq_max_capture_bytes_per_stream : N;
}.

Record ExecutionOutcome := {
  eo_exit_code : option Z;
  eo_signal : option Z;
  eo_timed_out : bool;
  eo_cancelled : bool;
  eo_start_error : option string;
  eo_duration_ms : N;
  eo_stdout : list N;
  eo_stdout_truncated : bool;
  eo_stderr : list N;
  eo_stderr_truncated : bool;
}.

Definition ExecutionOutcome_exited_cleanly (o : ExecutionOutcome) : bool :=
  negb (eo_timed_out o) && negb (eo_cancelled o) && negb (is_some (eo_start_error o)) &&
  bool_decide (eo_exit_code o = Some 0%Z).

Record ExecutionReport := {
  er_outcome : ExecutionOutcome;
  er_backend_id : string;
}.

Record TaskExecutionReport := {
  ter_execution : ExecutionReport;
  ter_admitted_backend : SandboxBackendDescriptor;
}.

(** The trait: its required methods and the two that implementations
    override. *)
Class Executor := {
  backend_id : string;
  backend_descriptor : SandboxBackendDescriptor;
  execute : ExecutionRequest -> CancelToken -> action Machine ExecutorFailure ExecutionOutcome;
  execute_report : ExecutionRequest -> CancelToken -> action Machine ExecutorFailure ExecutionReport;
}.

(** The default bodies. *)
Definition default_backend_descriptor (id : string) : SandboxBackendDescriptor := {|
  sbd_backend_id := id;
  sbd_isolation := IsoProcess;
  sbd_isolation_qualified := false;
  sbd_isolation_evidence_id := None;
  sbd_enforces_network_policy := false;
  sbd_enforces_default_deny_network := false;
  sbd_enforces_workspace_write_policy := false;
  sbd_resources := {| re_wall_clock_ms := false; re_cpu_millis := false; re_memory_bytes := false;
                      re_gpu_devices := false; re_model_tokens := false |};
  sbd_capabilities := mkCapabilitySet [] |}.

Definition default_execute_report (id : string)
    (exec : ExecutionRequest -> CancelToken -> action Machine ExecutorFailure ExecutionOutcome)
    (request : ExecutionRequest) (cancel : CancelToken)
    : action Machine ExecutorFailure ExecutionReport :=
  outcome ← exec request cancel;
  mret {| er_outcome := outcome; er_backend_id := id |}.

Section executor.
Context `{Executor}.

Definition Executor_execute_task_report (task : TaskSpec) (request : ExecutionRequest)
    (cancel : CancelToken) : action Machine ExecutorFailure TaskExecutionReport :=
  let descriptor := backend_descriptor in
  _ ← lift (map_err (fun _ => Backend "task backend admission rejected: {error}")
              (SandboxBackendDescriptor_admission descriptor task));
  execution ← execute_report request cancel;
  mret {| ter_execution := execution; ter_admitted_backend := descriptor |}.

(** Dispatch fails closed: a backend whose own descriptor does not admit the
    task is never invoked, and a report names the descriptor that was
    checked. *)
Lemma execute_task_report_fail_closed task request cancel m :
  match Executor_execute_task_report task request cancel m with
  | (m', Ok r) =>
      SandboxBackendDescriptor_admission backend_descriptor task = Ok tt /\
      ter_admitted_backend r = backend_descriptor /\
      execute_report request cancel m = (m', Ok (ter_execution r))
  | (m', Err e) =>
      (is_ok (SandboxBackendDescriptor_admission backend_descriptor task) = false /\ m' = m) \/
      (SandboxBackendDescriptor_admission backend_descriptor task = Ok tt /\
       execute_report request cancel m = (m', Err e))
  end.
Proof.
  unfold Executor_execute_task_report, mbind, action_bind, lift.
  destruct (SandboxBackendDescriptor_admission _ _) as [[]|e]; cbn; [|by left].
  destruct (execute_report request cancel m) as [m' [r|e]]; cbn; [done|by right].
Qed.
End executor.

Lemma default_descriptor_rejects id task :
  np_default_deny (sb_network (ts_sandbox task)) = true ->
  is_ok (SandboxBackendDescriptor_admission (default_backend_descriptor id) task) = false.
Proof.
  intros Hd. destruct (SandboxBackendDescriptor_admission _ _) as [[]|e] eqn:E; [|done].
  unfold SandboxBackendDescriptor_admission in E. ok_inv.
  match goal with Hx : negb (np_default_deny _ && _) = true |- _ => by rewrite Hd in Hx end.
Qed.
