(* ===== verification/Scicapsule.v ===== *)
(** * The SciCapsule adapter contract ([hub-core/src/scicapsule.rs])

    The guard that [capsule.execute] runs pass at submission: the manifest and
    the capability must be exactly one of the two published process
    contracts. *)

From stdpp Require Import base gmap strings list.
From S2P Require Import Prelude Text Core Version Digest Component.

Definition SCICAPSULE_CAPABILITY : string := "capsule.execute".
Definition CONTRACT_VERSION_V1 : string := "1.0.0".
Definition CONTRACT_VERSION_V2 : string := "2.0.0".
Definition CONTRACT_METADATA_V1 : string := "scicapsule-hub-v1".
Definition CONTRACT_METADATA_V2 : string := "scicapsule-hub-v2".
Definition CAPSULE_MEDIA_TYPE : string := "application/vnd.scirust.scicap".
Definition POLICY_MEDIA_TYPE : string := "application/vnd.scicapsule.trust-policy.v1+json".
Definition REQUEST_MEDIA_TYPE : string := "application/vnd.scicapsule.hub-run-request.v1+json".
Definition RESULT_MEDIA_TYPE_V1 : string := "application/vnd.scicapsule.hub-run-result.v1+json".
Definition RESULT_MEDIA_TYPE_V2 : string := "application/vnd.scicapsule.hub-run-result.v2+json".
Definition V2_SOURCE_HEAD : string := "bb79eea787f0d9562585b27dd38f5f57fa5b5ea9".
Definition V2_SOURCE_MERGE : string := "31e4a825c8a45837ce4f8ff69f936b46e53d3b82".

Definition unsupported (reason : string) : CoreError :=
  Validation (String.append "unsupported SciCapsule Hub execution contract: " reason).

(** [map.get(key).map(String::as_str) != Some(expected)] is an error. *)
Definition require_entry (m : gmap string string) (reason : string) (kv : string * string)
    : Result unit :=
  ensure (bool_decide (m !! kv.1 = Some kv.2)) (unsupported reason).

Definition validate_common (manifest : ComponentManifest) (capability : Capability)
    (expected_output_media_type : string) : Result unit :=
  _ ← require_entry (m_metadata manifest) "canonical_capsule_owner metadata must be scirust"
        ("canonical_capsule_owner", "scirust");
  let inputs := (fun port => (port_name port, port_description port)) <$> cap_inputs capability in
  let expected_inputs := [("capsule", CAPSULE_MEDIA_TYPE); ("policy", POLICY_MEDIA_TYPE);
                          ("request", REQUEST_MEDIA_TYPE)] in
  _ ← ensure (bool_decide (inputs = expected_inputs))
        (unsupported "input ports do not match SciCapsule Hub contract");
  let outputs := (fun port => (port_name port, port_description port)) <$> cap_outputs capability in
  _ ← ensure (bool_decide (outputs = [("result", expected_output_media_type)]))
        (unsupported "result output media type does not match contract");
  forM_ (require_entry (cap_properties capability) "capability property {key:?} must be {expected:?}")
    [("authorization", "local_trust_policy"); ("request_media_type", REQUEST_MEDIA_TYPE);
     ("result_media_type", expected_output_media_type); ("sandbox", "none")].

Definition validate_single_output (process : ProcessBinding)
    (expected_path expected_media_type : string) : Result unit :=
  match pb_outputs process with
  | [output] =>
      ensure (negb (negb (bool_decide (out_name output = "result")) ||
                    negb (bool_decide (out_path output = expected_path)) ||
                    negb (bool_decide (out_media_type output = Some expected_media_type)) ||
                    negb (out_required output)))
        (unsupported "result output does not match SciCapsule execution contract")
  | _ => Err (unsupported "SciCapsule execution requires exactly one result output")
  end.

Definition expected_args_v1 : list string :=
  ["hub-run"; "--capsule"; "{input:capsule}"; "--policy"; "{input:policy}";
   "--request"; "{input:request}"; "--result"; "{output:result}"].

Definition validate_v1 (manifest : ComponentManifest) (capability : Capability) : Result unit :=
  _ ← validate_common manifest capability RESULT_MEDIA_TYPE_V1;
  _ ← require_entry (m_metadata manifest) "contract metadata must be {CONTRACT_METADATA_V1}"
        ("contract", CONTRACT_METADATA_V1);
  execution ← ok_or (m_execution manifest) (unsupported "missing process execution binding");
  let 'Process process := execution in
  _ ← ensure (is_absolute (pb_program process))
        (unsupported "SciCapsule executable path must be absolute");
  _ ← ensure (bool_decide (pb_working_dir process = None))
        (unsupported "SciCapsule Hub v1 does not declare a working_dir override");
  _ ← ensure (bool_decide (pb_args process = expected_args_v1))
        (unsupported "process argv does not match SciCapsule Hub v1");
  validate_single_output process "outputs/scicapsule-result.json" RESULT_MEDIA_TYPE_V1.

Definition expected_args_v2 : list string :=
  ["--capsule"; "{input:capsule}"; "--policy"; "{input:policy}"; "--request"; "{input:request}";
   "--result"; "{output:result}"; "--scicapsule-program"; "/opt/scicapsule/bin/scicapsule"].

Definition validate_v2 (manifest : ComponentManifest) (capability : Capability) : Result unit :=
  _ ← validate_common manifest capability RESULT_MEDIA_TYPE_V2;
  _ ← require_entry (m_metadata manifest) "contract metadata must be {CONTRACT_METADATA_V2}"
        ("contract", CONTRACT_METADATA_V2);
  _ ← forM_ (require_entry (cap_properties capability)
               "v2 capability property {key:?} must be {expected:?}")
        [("execution_mode", "bounded_process_unix"); ("trust_decision_owner", "SciCapsule");
         ("trust_is_scientific_verdict", "false"); ("scicapsule.source_head", V2_SOURCE_HEAD);
         ("scicapsule.source_merge", V2_SOURCE_MERGE)];
  execution ← ok_or (m_execution manifest) (unsupported "missing process execution binding");
  let 'Process process := execution in
  _ ← ensure (is_absolute (pb_program process))
        (unsupported "SciCapsule v2 launcher path must be absolute");
  _ ← ensure (bool_decide (pb_working_dir process = None))
        (unsupported "SciCapsule Hub v2 does not declare a working_dir override");
  _ ← ensure (bool_decide (pb_args process = expected_args_v2))
        (unsupported "process argv does not match SciCapsule Hub v2");
  validate_single_output process "outputs/scicapsule-result-v2.json" RESULT_MEDIA_TYPE_V2.

Definition validate_execution_contract (manifest : ComponentManifest) (capability : Capability)
    : Result unit :=
  if negb (bool_decide (capability_name_str (cap_name capability) = SCICAPSULE_CAPABILITY))
  then Err (unsupported "unexpected capability name")
  else if bool_decide (version_str (cap_contract_version capability) = CONTRACT_VERSION_V1)
  then validate_v1 manifest capability
  else if bool_decide (version_str (cap_contract_version capability) = CONTRACT_VERSION_V2)
  then validate_v2 manifest capability
  else Err (unsupported "contract version {version}; supported versions are {CONTRACT_VERSION_V1} and {CONTRACT_VERSION_V2}").

(** ** What a supported contract guarantees *)
Lemma validate_single_output_Ok p path media :
  validate_single_output p path media = Ok tt ->
  exists o, pb_outputs p = [o] /\ out_name o = "result" /\ out_path o = path /\ out_required o = true.
Proof.
  unfold validate_single_output. destruct (pb_outputs p) as [|o [|]]; [done| |done].
  intros Hr. ok_inv. bool_inv. exists o. done.
Qed.

(** A manifest that passes the guard has an absolute program, no directory
    override, the argument vector of its contract version and one required
    output. *)
Lemma validate_execution_contract_Ok m c :
  validate_execution_contract m c = Ok tt ->
  exists p o, m_execution m = Some (Process p) /\ is_absolute (pb_program p) = true /\
    pb_working_dir p = None /\ (pb_args p = expected_args_v1 \/ pb_args p = expected_args_v2) /\
    port_name <$> cap_inputs c = ["capsule"; "policy"; "request"] /\
    pb_outputs p = [o] /\ out_name o = "result" /\ out_required o = true.
Proof.
  assert (Hin : forall media, validate_common m c media = Ok tt ->
    port_name <$> cap_inputs c = ["capsule"; "policy"; "request"]).
  { intros media Hc. unfold validate_common in Hc. ok_inv. bool_inv.
    match goal with Hi : _ <$> cap_inputs c = _ |- _ => apply (f_equal (fmap fst)) in Hi;
      rewrite <- list_fmap_compose in Hi; exact Hi end. }
  unfold validate_execution_contract. case_bool_decide; [|done]. cbn.
  repeat case_bool_decide; [| |done].
  all: unfold validate_v1, validate_v2; intros Hr; ok_inv;
    repeat match goal with u : unit |- _ => destruct u | e : ExecutionBinding |- _ => destruct e end;
    ok_inv; bool_inv;
    match goal with Hs : validate_single_output _ _ _ = Ok _ |- _ =>
      apply validate_single_output_Ok in Hs as (o & ? & ? & ? & ?) end;
    match goal with Hc : validate_common _ _ _ = Ok _ |- _ => apply Hin in Hc end;
    eexists _, o; split_and!; eauto.
Qed.
