(* ===== verification/Hub.v ===== *)
(** * The orchestrator's state ([hub-core/src/orchestrator.rs], [Orchestrator])

    One Hub instance: its repositories, the publication authority, the
    machine (clock, UUIDs, files) and the in-process maps of executing runs
    and workflows.  Operations are actions on this state; what an operation
    had written before it failed stays written. *)

From stdpp Require Import base gmap strings list.
From S2P Require Import Prelude Text Core Version Digest Machine Component Run Workflow.
From S2P Require Import Publication Ports Exec.

Section hub.
Context `{JsonLib} {Store Fences : Type}.

Record Orchestrator := {
  o_store : Store;
  o_fences : Fences;
  o_machine : Machine;
  o_active_cancels : gmap RunId CancelToken;
  o_active_workflow_cancels : gmap WorkflowId CancelToken;
  o_active_workflow_runs : gmap WorkflowId (gset RunId);
}.

Abbreviation hub A := (action Orchestrator CoreError A).

Definition set_store (o : Orchestrator) (s : Store) : Orchestrator :=
  {| o_store := s; o_fences := o_fences o; o_machine := o_machine o;
     o_active_cancels := o_active_cancels o;
     o_active_workflow_cancels := o_active_workflow_cancels o;
     o_active_workflow_runs := o_active_workflow_runs o |}.

Definition set_fences (o : Orchestrator) (f : Fences) : Orchestrator :=
  {| o_store := o_store o; o_fences := f; o_machine := o_machine o;
     o_active_cancels := o_active_cancels o;
     o_active_workflow_cancels := o_active_workflow_cancels o;
     o_active_workflow_runs := o_active_workflow_runs o |}.

Definition set_machine (o : Orchestrator) (m : Machine) : Orchestrator :=
  {| o_store := o_store o; o_fences := o_fences o; o_machine := m;
     o_active_cancels := o_active_cancels o;
     o_active_workflow_cancels := o_active_workflow_cancels o;
     o_active_workflow_runs := o_active_workflow_runs o |}.

Definition set_cancels (o : Orchestrator) (c : gmap RunId CancelToken) : Orchestrator :=
  {| o_store := o_store o; o_fences := o_fences o; o_machine := o_machine o;
     o_active_cancels := c;
     o_active_workflow_cancels := o_active_workflow_cancels o;
     o_active_workflow_runs := o_active_workflow_runs o |}.

Definition set_workflow_cancels (o : Orchestrator) (c : gmap WorkflowId CancelToken) : Orchestrator :=
  {| o_store := o_store o; o_fences := o_fences o; o_machine := o_machine o;
     o_active_cancels := o_active_cancels o;
     o_active_workflow_cancels := c;
     o_active_workflow_runs := o_active_workflow_runs o |}.

Definition set_workflow_runs (o : Orchestrator) (r : gmap WorkflowId (gset RunId)) : Orchestrator :=
  {| o_store := o_store o; o_fences := o_fences o; o_machine := o_machine o;
     o_active_cancels := o_active_cancels o;
     o_active_workflow_cancels := o_active_workflow_cancels o;
     o_active_workflow_runs := r |}.

(** Calls of one part of the state. *)
Definition on_store {A} (f : Store -> Store * Result A) : hub A := fun o =>
  let '(s, r) := f (o_store o) in (set_store o s, r).

Definition on_fences {A} (f : Fences -> Fences * Result A) : hub A := fun o =>
  let '(s, r) := f (o_fences o) in (set_fences o s, r).

Definition on_machine {A} (act : action Machine CoreError A) : hub A := fun o =>
  let '(m, r) := act (o_machine o) in (set_machine o m, r).

Definition query {A} (f : Store -> Result A) : hub A := reads (fun o => f (o_store o)).

Definition modify (f : Orchestrator -> Orchestrator) : hub unit := fun o => (f o, Ok tt).

Lemma on_store_inv {A} (f : Store -> Store * Result A) o o' r :
  on_store f o = (o', r) -> exists s, f (o_store o) = (s, r) /\ o' = set_store o s.
Proof. unfold on_store. destruct (f (o_store o)) as [s r']. intros [= <- <-]. eauto. Qed.

Lemma on_fences_inv {A} (f : Fences -> Fences * Result A) o o' r :
  on_fences f o = (o', r) -> exists s, f (o_fences o) = (s, r) /\ o' = set_fences o s.
Proof. unfold on_fences. destruct (f (o_fences o)) as [s r']. intros [= <- <-]. eauto. Qed.

Lemma on_machine_inv {A} (act : action Machine CoreError A) o o' r :
  on_machine act o = (o', r) -> exists m, act (o_machine o) = (m, r) /\ o' = set_machine o m.
Proof. unfold on_machine. destruct (act (o_machine o)) as [m r']. intros [= <- <-]. eauto. Qed.
End hub.
Arguments Orchestrator Store Fences : clear implicits.

(** ** Every call keeps the repositories in a state they reach *)
Section keeps.
Context `{JsonLib} {Store Fences : Type} `{!Repositories Store, !RepositoriesLaws Store}.

Definition keeps_ok (o o' : Orchestrator Store Fences) : Prop :=
  repo_ok (o_store o) -> repo_ok (o_store o').

#[global] Instance keeps_ok_preorder : PreOrder keeps_ok.
Proof. split; [intros o Ho; exact Ho|]. intros a b c. unfold keeps_ok. auto. Qed.

Lemma keeps_ok_machine {A} (act : action Machine CoreError A) : steps keeps_ok (on_machine act).
Proof. intros o Ho. unfold on_machine. by destruct (act _). Qed.

Lemma keeps_ok_fences {A} (f : Fences -> Fences * Result A) : steps keeps_ok (on_fences f).
Proof. intros o Ho. unfold on_fences. by destruct (f _). Qed.

Lemma keeps_ok_query {A} (f : Store -> Result A) : steps keeps_ok (query f).
Proof. intros o Ho. exact Ho. Qed.

(** A store call that keeps [repo_ok]. *)
Lemma keeps_ok_store {A} (f : Store -> Store * Result A) :
  (forall s, repo_ok s -> repo_ok (f s).1) -> steps keeps_ok (on_store f).
Proof. intros Hf o. unfold on_store, keeps_ok. specialize (Hf (o_store o)). by destruct (f _). Qed.

Lemma keeps_ok_runs_put r : steps keeps_ok (on_store (fun s => runs_put s r)).
Proof. apply keeps_ok_store. intros s Hs. by apply runs_put_frame. Qed.

Lemma keeps_ok_artifacts_put a : steps keeps_ok (on_store (fun s => artifacts_put s a)).
Proof. apply keeps_ok_store. intros s Hs. by apply artifacts_put_frame. Qed.

Lemma keeps_ok_workflows_put w t : steps keeps_ok (on_store (fun s => workflows_put s w t)).
Proof. apply keeps_ok_store. intros s Hs. by apply workflows_put_frame. Qed.

Lemma keeps_ok_workflows_cancel id t :
  steps keeps_ok (on_store (fun s => workflows_request_cancel s id t)).
Proof. apply keeps_ok_store. intros s Hs. by apply workflows_cancel_frame. Qed.

Lemma keeps_ok_components_put m t : steps keeps_ok (on_store (fun s => components_put s m t)).
Proof. apply keeps_ok_store. intros s Hs. by apply components_put_frame. Qed.
End keeps.
#[export] Hint Resolve keeps_ok_preorder keeps_ok_machine keeps_ok_fences keeps_ok_query
  keeps_ok_runs_put keeps_ok_artifacts_put keeps_ok_workflows_put keeps_ok_workflows_cancel
  keeps_ok_components_put : steps.
