(* ===== verification/Submit.v ===== *)
(** * Registration and submission ([hub-core/src/orchestrator.rs], first half)

    The orchestrator's operations that put work into the Hub:
    component registration and discovery, artifact ingestion, run and
    workflow submission, cancellation of a run, and the resolution of a
    binding's placeholders into an execution request. *)

From Stdlib Require Import Ascii.
From stdpp Require Import base gmap strings list sorting.
From S2P Require Import Prelude Text Core Version Digest Machine Blobs Component Run Workflow Task.
From S2P Require Import TaskLifecycle Publication Event Memory Ports Exec Scicapsule Hub.

Inductive RegistrationStatus := RgCreated | RgAlreadyRegistered.

(** [String::from_utf8]: the byte sequences of RFC 3629. *)
Definition utf8_tail (b : N) : bool := in_range 128 191 b.

Fixpoint utf8_valid (bs : list N) : bool :=
  match bs with
  | [] => true
  | b1 :: r1 =>
      if (b1 <? 128)%N then utf8_valid r1
      else match r1 with
      | [] => false
      | b2 :: r2 =>
          if in_range 194 223 b1 then utf8_tail b2 && utf8_valid r2
          else match r2 with
          | [] => false
          | b3 :: r3 =>
              if in_range 224 239 b1 then
                (if (b1 =? 224)%N then in_range 160 191 b2
                 else if (b1 =? 237)%N then in_range 128 159 b2 else utf8_tail b2) &&
                utf8_tail b3 && utf8_valid r3
              else match r3 with
              | [] => false
              | b4 :: r4 =>
                  in_range 240 244 b1 &&
                  (if (b1 =? 240)%N then in_range 144 191 b2
                   else if (b1 =? 244)%N then in_range 128 143 b2 else utf8_tail b2) &&
                  utf8_tail b3 && utf8_tail b4 && utf8_valid r4
              end
          end
      end
  end.

Definition string_of_bytes (bs : list N) : string :=
  String.string_of_list_ascii (ascii_of_N <$> bs).

Definition from_utf8 (bs : list N) : option string :=
  if utf8_valid bs then Some (string_of_bytes bs) else None.

(** [serde_json] writes UTF-8. *)
Class JsonUtf8 `{JsonLib} : Prop := {
  params_utf8 : forall p bs, params_to_vec p = Some bs -> utf8_valid bs = true;
}.

(** ** Placeholders *)
Definition brace : ascii := "}"%char.

(** [raw.strip_prefix(p).and_then(|r| r.strip_suffix('}'))]. *)
Definition placeholder (p raw : string) : option string :=
  strip_prefix p raw ≫= strip_suffix_byte brace.

Definition mentions_placeholder (raw : string) : bool :=
  contains_str "{params}" raw || contains_str "{input:" raw || contains_str "{output:" raw.

Section placeholders.
Context `{JsonLib}.

(** The loop body of [check_placeholders]. *)
Definition check_placeholder (process : ProcessBinding) (spec : RunSpec) (raw : string)
    : Result unit :=
  if bool_decide (raw = "{params}") then Ok tt
  else match placeholder "{input:" raw with
  | Some name =>
      ensure (existsb (fun i => bool_decide (in_name i = name)) (spec_inputs spec))
        (Validation "binding references unknown input {name:?}; declared inputs: {:?}")
  | None =>
      match placeholder "{output:" raw with
      | Some name =>
          ensure (existsb (fun o => bool_decide (out_name o = name)) (pb_outputs process))
            (Validation "binding references unknown output {name:?}; declared outputs: {:?}")
      | None =>
          ensure (negb (mentions_placeholder raw))
            (Validation "placeholder must occupy the whole argument, got {raw:?}")
      end
  end.

Definition check_placeholders (binding : ExecutionBinding) (spec : RunSpec) : Result unit :=
  let 'Process process := binding in
  forM_ (check_placeholder process spec) (pb_args process).

Definition substitute_placeholders (raw params_json : string)
    (input_paths output_paths : gmap string string) : Result string :=
  if bool_decide (raw = "{params}") then Ok params_json
  else match placeholder "{input:" raw with
  | Some name =>
      ok_or (input_paths !! name)
        (Validation "unresolved input placeholder {name:?} at execution time")
  | None =>
      match placeholder "{output:" raw with
      | Some name =>
          ok_or (output_paths !! name)
            (Validation "unresolved output placeholder {name:?} at execution time")
      | None =>
          _ ← ensure (negb (mentions_placeholder raw))
                (Validation "placeholder must occupy the whole argument, got {raw:?}");
          Ok raw
      end
  end.

(** [path_var] is the Hub's own [PATH]. *)
Definition build_request (limits : Limits) (path_var : string) (spec : RunSpec)
    (binding : option ExecutionBinding) (workdir : string) : Result ExecutionRequest :=
  match binding with
  | None => Err (Validation "component {} declares no executable binding")
  | Some (Process process) =>
      params_bytes ← RunSpec_canonical_params_bytes spec;
      params_json ← ok_or (from_utf8 params_bytes) (Validation "parameters are not UTF-8: {e}");
      let input_paths :=
        collect_map in_name (fun i => path_join (path_join workdir "inputs") (in_name i))
          (spec_inputs spec) in
      let output_paths :=
        collect_map out_name (fun o => path_join workdir (out_path o)) (pb_outputs process) in
      args ← mapR (fun raw => substitute_placeholders raw params_json input_paths output_paths)
               (pb_args process);
      Ok {| rq_program := pb_program process; rq_args := args;
            rq_working_dir := default workdir (pb_working_dir process);
            rq_env := {[ "PATH" := path_var; "TMPDIR" := workdir ]};
            rq_timeout_ms := spec_timeout_ms spec;
            rq_max_capture_bytes_per_stream := max_capture_bytes limits |}
  end.

(** *** The submission check is exactly what the request needs *)

(** What an argument of the binding becomes. *)
Definition resolved_arg (spec : RunSpec) (process : ProcessBinding) (workdir params_json raw arg : string)
    : Prop :=
  (raw = "{params}" /\ arg = params_json) \/
  (exists i, i ∈ spec_inputs spec /\ placeholder "{input:" raw = Some (in_name i) /\
     arg = path_join (path_join workdir "inputs") (in_name i)) \/
  (exists o, o ∈ pb_outputs process /\ placeholder "{output:" raw = Some (out_name o) /\
     arg = path_join workdir (out_path o)) \/
  (mentions_placeholder raw = false /\ arg = raw).

Lemma existsb_key {A K} `{EqDecision K} (key : A -> K) (xs : list A) k :
  existsb (fun x => bool_decide (key x = k)) xs = true <-> exists x, x ∈ xs /\ key x = k.
Proof.
  rewrite List.existsb_exists. split.
  - intros (x & Hx & Hk). bool_inv. exists x. by rewrite list_elem_of_In.
  - intros (x & Hx & Hk). exists x. rewrite <- list_elem_of_In. split; [done|].
    by apply bool_decide_eq_true_2.
Qed.

Lemma check_substitute spec process workdir params_json raw :
  check_placeholder process spec raw = Ok tt <->
  exists arg, substitute_placeholders raw params_json
    (collect_map in_name (fun i => path_join (path_join workdir "inputs") (in_name i)) (spec_inputs spec))
    (collect_map out_name (fun o => path_join workdir (out_path o)) (pb_outputs process)) = Ok arg.
Proof.
  unfold check_placeholder, substitute_placeholders. case_bool_decide; [naive_solver|].
  destruct (placeholder "{input:" raw) as [name|];
    [|destruct (placeholder "{output:" raw) as [name|]].
  - rewrite ensure_Ok, existsb_key, <- (collect_map_is_Some in_name
      (fun i => path_join (path_join workdir "inputs") (in_name i))).
    setoid_rewrite ok_or_Ok. done.
  - rewrite ensure_Ok, existsb_key, <- (collect_map_is_Some out_name
      (fun o => path_join workdir (out_path o))).
    setoid_rewrite ok_or_Ok. done.
  - destruct (ensure _ _) as [[]|e]; cbn; naive_solver.
Qed.

Lemma substitute_resolved spec process workdir params_json raw arg :
  substitute_placeholders raw params_json
    (collect_map in_name (fun i => path_join (path_join workdir "inputs") (in_name i)) (spec_inputs spec))
    (collect_map out_name (fun o => path_join workdir (out_path o)) (pb_outputs process)) = Ok arg ->
  resolved_arg spec process workdir params_json raw arg.
Proof.
  unfold substitute_placeholders, resolved_arg. case_bool_decide as Hp; [intros [= <-]; by left|].
  destruct (placeholder "{input:" raw) as [name|];
    [|destruct (placeholder "{output:" raw) as [name|]].
  - intros (i & Hi & <- & <-)%ok_or_Ok%collect_map_elem. right. left. by exists i.
  - intros (o & Ho & <- & <-)%ok_or_Ok%collect_map_elem. right. right. left. by exists o.
  - intros Hr. ok_inv. bool_inv. right. right. right. done.
Qed.

Lemma check_placeholders_substitutes spec process workdir params_json :
  check_placeholders (Process process) spec = Ok tt <->
  exists args, mapR (fun raw => substitute_placeholders raw params_json
    (collect_map in_name (fun i => path_join (path_join workdir "inputs") (in_name i)) (spec_inputs spec))
    (collect_map out_name (fun o => path_join workdir (out_path o)) (pb_outputs process)))
    (pb_args process) = Ok args.
Proof.
  cbn [check_placeholders]. rewrite forM_Ok. setoid_rewrite mapR_Ok. split.
  - induction 1 as [|raw raws Hraw _ IH]; [exists []; constructor|].
    destruct IH as [args IH]. apply (check_substitute _ _ workdir params_json) in Hraw as [arg Harg].
    exists (arg :: args). by constructor.
  - intros [args Hargs]. induction Hargs as [|raw arg raws args Harg _ IH]; constructor; [|done].
    apply (check_substitute _ _ workdir params_json). eauto.
Qed.

Lemma build_request_iff limits path_var spec process workdir bs :
  params_to_vec (spec_parameters spec) = Some bs -> utf8_valid bs = true ->
  check_placeholders (Process process) spec = Ok tt <->
  exists req, build_request limits path_var spec (Some (Process process)) workdir = Ok req /\
    rq_program req = pb_program process /\
    Forall2 (resolved_arg spec process workdir (string_of_bytes bs)) (pb_args process) (rq_args req) /\
    rq_env req = {[ "PATH" := path_var; "TMPDIR" := workdir ]} /\
    rq_timeout_ms req = spec_timeout_ms spec.
Proof.
  intros Hbs Hutf. unfold build_request, RunSpec_canonical_params_bytes, from_utf8.
  rewrite Hbs. cbn [ok_or mbind result_bind]. rewrite Hutf. cbn [ok_or mbind result_bind].
  rewrite (check_placeholders_substitutes _ _ workdir (string_of_bytes bs)). split.
  - intros [args Hargs]. rewrite Hargs. cbn. eexists. split; [done|]. cbn. split_and!; try done.
    apply mapR_Ok in Hargs. eapply Forall2_impl; [exact Hargs|]. intros raw arg.
    apply substitute_resolved.
  - intros (req & Hreq & _). ok_inv. eauto.
Qed.

(** The submission-time check of placeholders is exact: for a validated
    specification, [check_placeholders] accepts a process binding precisely
    when building the execution request succeeds, in whatever working
    directory; and then every argument is the binding's literal text without
    placeholders, the canonical parameters, or the path of a bound input or
    a declared output, the environment holds [PATH] and [TMPDIR] only, and the
    timeout is the requested one within the limit.  A component without a
    binding has no request at all. *)
Theorem run_request_exact `{!JsonUtf8} limits path_var spec process workdir :
  RunSpec_validate spec limits = Ok tt ->
  (check_placeholders (Process process) spec = Ok tt <->
   exists req params_json,
     build_request limits path_var spec (Some (Process process)) workdir = Ok req /\
     rq_program req = pb_program process /\
     Forall2 (resolved_arg spec process workdir params_json) (pb_args process) (rq_args req) /\
     rq_env req = {[ "PATH" := path_var; "TMPDIR" := workdir ]} /\
     (1 <= rq_timeout_ms req <= max_timeout_ms limits)%N) /\
  is_ok (build_request limits path_var spec None workdir) = false.
Proof.
  intros (Ht & (bs & Hbs & _) & _)%RunSpec_validate_Ok. split; [|done].
  rewrite (build_request_iff limits path_var _ _ workdir bs Hbs (params_utf8 _ _ Hbs)). split.
  - intros (req & Hreq & Hp & Hargs & Henv & Htime). exists req, (string_of_bytes bs).
    rewrite Htime. done.
  - intros (req & pj & Hreq & _). exists req.
    destruct (proj1 (build_request_iff limits path_var spec process workdir bs Hbs (params_utf8 _ _ Hbs)))
      as (req' & Hreq' & ?).
    + apply (check_placeholders_substitutes _ _ workdir (string_of_bytes bs)).
      unfold build_request, RunSpec_canonical_params_bytes, from_utf8 in Hreq.
      rewrite Hbs in Hreq. cbn [ok_or mbind result_bind] in Hreq.
      rewrite (params_utf8 _ _ Hbs) in Hreq. cbn [ok_or mbind result_bind] in Hreq. ok_inv. eauto.
    + rewrite Hreq in Hreq'. injection Hreq' as <-. done.
Qed.
End placeholders.

(** ** The orchestrator *)
Section orchestrator.
Context `{JsonLib, ManifestJson, Sha256Lib, Environment, UuidLib}.
Context {Store Fences : Type} `{!Repositories Store}.

(** The configuration given to [Orchestrator::new]. *)
Context (limits : Limits) (blob_root : string).

Abbreviation hub A := (action (Orchestrator Store Fences) CoreError A).

(** *** Registry *)
Definition register_component (manifest : ComponentManifest) : hub RegistrationStatus :=
  _ ← lift (ComponentManifest_validate manifest);
  wall ← on_machine SystemClock_now_ms;
  inserted ← on_store (fun s => components_put s manifest wall);
  _ ← lift (ComponentManifest_content_digest manifest);
  mret (if inserted : bool then RgCreated else RgAlreadyRegistered).

(** [latest_by_id]: a later manifest replaces an earlier one of the same
    id. *)
Definition discover_by_capability (capability : CapabilityName) : hub (list ComponentManifest) :=
  manifests ← query components_list;
  let latest_by_id := collect_map m_id id manifests in
  mret (List.filter (fun manifest => is_some (ComponentManifest_capability manifest capability))
          (map_values latest_by_id)).

(** *** External artifacts *)
Definition ingest_artifact (name media_type : string) (bs : list N) : hub ArtifactMeta :=
  fresh ← on_machine new_v4;
  let id : ArtifactId := from_uuid fresh in
  let size := len bs in
  _ ← lift (ensure (size <=? u64_max)%N
              (ArtifactTooLarge id u64_max (max_artifact_bytes limits)));
  _ ← lift (ensure (size <=? max_artifact_bytes limits)%N
              (ArtifactTooLarge id size (max_artifact_bytes limits)));
  let digest := hash_bytes DOMAIN_ARTIFACT_BLOB bs in
  now ← on_machine SystemClock_now_ms;
  let meta := {| art_id := id; art_name := name; art_media_type := media_type;
                 art_digest := digest; art_size := size; art_created_at := now;
                 art_produced_by_run := None |} in
  _ ← lift (ArtifactMeta_validate meta);
  stored ← on_machine (FileSystemArtifactStore_put blob_root bs (max_artifact_bytes limits)
                         DOMAIN_ARTIFACT_BLOB);
  _ ← on_store (fun s => artifacts_put s meta);
  mret meta.

(** *** Runs *)

(** The manifest a submission is checked against. *)
Definition resolve_manifest (s : Store) (component : ComponentId)
    (admission_pin : option ComponentAdmissionPin) : Result ComponentManifest :=
  found ← match admission_pin with
          | Some pin => components_get s component (pin_component_version pin)
          | None => components_latest s component
          end;
  ok_or found (ComponentNotFound component).

(** Everything [submit_run_internal] checks before it creates the record. *)
Definition submit_run_checks (s : Store) (spec : RunSpec)
    (admission_pin : option ComponentAdmissionPin)
    : Result (ComponentManifest * ContentDigest * Capability) :=
  _ ← RunSpec_validate spec limits;
  manifest ← resolve_manifest s (spec_component spec) admission_pin;
  manifest_digest ← ComponentManifest_content_digest manifest;
  _ ← match admission_pin with
      | Some pin =>
          ensure (bool_decide (manifest_digest = pin_manifest_digest pin))
            (Validation "component {} version {} manifest digest {} does not match required {}")
      | None => Ok tt
      end;
  capability ← ok_or (ComponentManifest_capability manifest (spec_capability spec))
                 (CapabilityNotDeclared (spec_component spec)
                    (capability_name_str (spec_capability spec)));
  _ ← match admission_pin with
      | Some pin =>
          ensure (bool_decide (cap_contract_version capability = pin_capability_contract_version pin))
            (Validation "capability {} contract version {} does not match required {}")
      | None => Ok tt
      end;
  _ ← if bool_decide (capability_name_str (spec_capability spec) = SCICAPSULE_CAPABILITY)
      then validate_execution_contract manifest capability else Ok tt;
  let port_names := port_name <$> cap_inputs capability in
  let binding_names := in_name <$> spec_inputs spec in
  _ ← forM_ (fun name => ensure (bool_decide (name ∈ binding_names))
               (MissingInputBinding (capability_name_str (spec_capability spec)) name)) port_names;
  _ ← forM_ (fun name => ensure (bool_decide (name ∈ port_names))
               (Validation "input {name:?} does not match any input port of capability {}"))
        binding_names;
  _ ← forM_ (fun input =>
        found ← artifacts_get s (in_artifact input);
        ensure (is_some found) (ArtifactNotFound (in_artifact input))) (spec_inputs spec);
  _ ← match m_execution manifest with
      | Some binding => check_placeholders binding spec
      | None => Ok tt
      end;
  Ok (manifest, manifest_digest, capability).

Definition submit_run_internal (spec : RunSpec) (reproduced_from : option RunId)
    (admission_pin : option ComponentAdmissionPin) : hub RunRecord :=
  '(manifest, manifest_digest, capability) ← query (fun s => submit_run_checks s spec admission_pin);
  now ← on_machine SystemClock_now_ms;
  fresh ← on_machine new_v4;
  record ← lift (RunRecord_create fresh spec (component_name_str (m_name manifest))
                   (m_version manifest) (cap_contract_version capability) now limits);
  let record := RunRecord_set_admission record (Some manifest_digest) reproduced_from in
  let '(record, r) := RunRecord_transition record RsValidated now in
  _ ← lift r;
  let '(record, r) := RunRecord_transition record RsQueued now in
  _ ← lift r;
  _ ← on_store (fun s => runs_put s record);
  mret record.

Definition submit_run (spec : RunSpec) : hub RunRecord := submit_run_internal spec None None.

Definition submit_run_pinned (spec : RunSpec) (pin : ComponentAdmissionPin) : hub RunRecord :=
  submit_run_internal spec None (Some pin).

(** *** Cancellation *)
Definition cancel_run (id : RunId) : hub bool := fun o =>
  match o_active_cancels o !! id with
  | Some token =>
      (set_cancels o (<[id := CancelToken_cancel token]> (o_active_cancels o)), Ok true)
  | None =>
      (found ← query (fun s => runs_get s id);
       record ← lift (ok_or found (RunNotFound id));
       if RunState_is_terminal (run_state record) then mret false
       else
         now ← on_machine SystemClock_now_ms;
         let '(record, r) := RunRecord_transition record RsCancelled now in
         _ ← lift r;
         _ ← on_store (fun s => runs_put s record);
         mret false) o
  end.

(** The two pieces of [cancel_run] for a run that is not executing.  It holds
    no lock there, so that another thread may act between them: the record is
    read and cancelled, then it is stored. *)
Definition cancel_run_read (id : RunId) : hub (option RunRecord) :=
  found ← query (fun s => runs_get s id);
  record ← lift (ok_or found (RunNotFound id));
  if RunState_is_terminal (run_state record) then mret None
  else
    now ← on_machine SystemClock_now_ms;
    let '(record, r) := RunRecord_transition record RsCancelled now in
    _ ← lift r;
    mret (Some record).

Definition cancel_run_store (record : RunRecord) : hub bool :=
  _ ← on_store (fun s => runs_put s record);
  mret false.

(** *** Workflows *)
Definition validate_workflow_step_admission (s : Store) (step : Step) (pin : ComponentAdmissionPin)
    : Result unit :=
  found ← components_get s (step_component step) (pin_component_version pin);
  manifest ← ok_or found (ComponentNotFound (step_component step));
  digest ← ComponentManifest_content_digest manifest;
  _ ← ensure (bool_decide (digest = pin_manifest_digest pin))
        (Validation "workflow step {:?} component {} version {} manifest digest {} does not match required {}");
  capability ← ok_or (ComponentManifest_capability manifest (step_capability step))
                 (CapabilityNotDeclared (step_component step)
                    (capability_name_str (step_capability step)));
  ensure (bool_decide (cap_contract_version capability = pin_capability_contract_version pin))
    (Validation "workflow step {:?} capability {} contract version {} does not match required {}").

(** The registry checks of [submit_workflow_internal]. *)
Definition submit_workflow_checks (s : Store) (spec : WorkflowSpec)
    (admission : option WorkflowAdmissionPins) : Result unit :=
  _ ← WorkflowSpec_validate spec;
  match admission with
  | Some pins =>
      _ ← WorkflowAdmissionPins_validate pins spec;
      forM_ (fun step =>
        pin ← ok_or (pins_steps pins !! step_key step)
                (InvalidRunSpec "workflow step {:?} has no exact admission pin");
        validate_workflow_step_admission s step pin) (ws_steps spec)
  | None =>
      forM_ (fun step =>
        found ← components_latest s (step_component step);
        ensure (is_some found) (ComponentNotFound (step_component step))) (ws_steps spec)
  end.

Definition submit_workflow_internal (spec : WorkflowSpec)
    (admission : option WorkflowAdmissionPins) : hub WorkflowRecord :=
  _ ← query (fun s => submit_workflow_checks s spec admission);
  model_version ← lift (Version_parse WORKFLOW_MODEL_VERSION);
  now ← on_machine SystemClock_now_ms;
  fresh ← on_machine new_v4;
  record ← lift (WorkflowRecord_create_with_admission fresh spec model_version now admission);
  wall ← on_machine SystemClock_now_ms;
  _ ← on_store (fun s => workflows_put s record wall);
  mret record.

(** ** What the operations guarantee *)
Context `{!RepositoriesLaws Store}.

Lemma SystemClock_now_ms_total {E} m : exists t, (SystemClock_now_ms : action Machine E _) m = (tick m, Ok t).
Proof. by eexists. Qed.

Lemma new_v4_total {E} m : exists n, (new_v4 : action Machine E _) m = (tick m, Ok n).
Proof. by eexists. Qed.

(** *** Discovery *)

(** In a list sorted by [(id, version)] the last manifest of an id has its
    greatest version. *)
Lemma last_of_id l m :
  StronglySorted ord_le ((fun m => (m_id m, m_version m)) <$> l) ->
  last (filter (fun x => m_id x = m_id m) l) = Some m ->
  m ∈ l /\ forall m', m' ∈ l -> m_id m' = m_id m -> ord_le (m_version m') (m_version m).
Proof.
  intros Hs Hl. pose proof Hl as [pre Hpre]%last_Some.
  assert (Hm : m ∈ filter (fun x => m_id x = m_id m) l) by (rewrite Hpre; set_solver).
  apply list_elem_of_filter in Hm as [_ Hm]. split; [done|]. intros m' Hm' Hid.
  assert (Hin : m' ∈ pre ++ [m]) by (rewrite <- Hpre; by apply list_elem_of_filter).
  apply elem_of_app in Hin as [Hin|Hin%list_elem_of_singleton]; [|by rewrite Hin].
  assert (Hsub : StronglySorted ord_le ((fun m => (m_id m, m_version m)) <$> (pre ++ [m]))).
  { rewrite <- Hpre. by apply StronglySorted_fmap_filter. }
  rewrite fmap_app in Hsub.
  assert (Hle : ord_le (m_id m', m_version m') (m_id m, m_version m)).
  { clear -Hsub Hin. induction pre as [|x pre IH]; [by apply elem_of_nil in Hin|].
    cbn in Hsub. apply StronglySorted_inv in Hsub as [Hsub Hall].
    apply elem_of_cons in Hin as [->|Hin]; [|auto].
    apply Forall_app in Hall as [_ Hall]. by apply Forall_cons in Hall as [? _]. }
  destruct Hle as [[_ ?]|[Hne _]]; [done|]. by destruct Hne.
Qed.

Lemma latest_by_id_lookup s l id m :
  repo_ok s -> components_list s = Ok l ->
  collect_map m_id Datatypes.id l !! id = Some m <-> components_latest s id = Ok (Some m).
Proof.
  intros Hok Hl. destruct (components_list_law s Hok) as (l' & Hl' & Hin & Hsort & _).
  rewrite Hl in Hl'. injection Hl' as <-.
  assert (Hfwd : forall x, collect_map m_id Datatypes.id l !! id = Some x ->
    components_latest s id = Ok (Some x)).
  { intros x. rewrite collect_map_last, option_fmap_id. intros Hx.
    pose proof (last_Some_elem_of _ _ Hx) as [Hid _]%list_elem_of_filter. subst id.
    destruct (last_of_id _ _ Hsort Hx) as [Hm Hmax]. apply components_latest_law; [done|].
    split_and!; [done|by apply Hin|]. intros m' Hm'%Hin. by apply Hmax. }
  split; [apply Hfwd|]. intros Hlat.
  pose proof Hlat as (Hid & Hreg & _)%components_latest_law; [|done].
  destruct (collect_map m_id Datatypes.id l !! id) as [x|] eqn:E.
  - specialize (Hfwd x eq_refl). congruence.
  - exfalso. assert (is_Some (collect_map m_id Datatypes.id l !! id)) as [? Hs]; [|congruence].
    apply collect_map_is_Some. exists m. split; [by apply Hin|done].
Qed.

(** Discovery answers from the latest manifests only:
    [discover_by_capability] never fails and returns, in the order of their
    ids and each once, exactly the components whose latest registered
    manifest declares the capability. *)
Theorem discover_latest_declaring capability o :
  repo_ok (o_store o) ->
  exists ms, discover_by_capability capability o = (o, Ok ms) /\
    StronglySorted ord_le (m_id <$> ms) /\ NoDup (m_id <$> ms) /\
    forall m, m ∈ ms <->
      components_latest (o_store o) (m_id m) = Ok (Some m) /\
      is_Some (ComponentManifest_capability m capability).
Proof.
  intros Hok. destruct (components_list_law _ Hok) as (l & Hl & _).
  set (g := collect_map m_id Datatypes.id l).
  assert (Hg : forall id m, g !! id = Some m <-> components_latest (o_store o) id = Ok (Some m))
    by (intros id m; by apply latest_by_id_lookup).
  assert (Hkeys : m_id <$> map_values g = map_keys g).
  { apply map_values_keys. intros id m Hm%Hg%components_latest_law; [|done]. by destruct Hm. }
  eexists. split; [unfold discover_by_capability, query, mbind, action_bind, reads; rewrite Hl; done|].
  fold g. rewrite list_filter_bool. split_and!.
  - apply StronglySorted_fmap_filter. rewrite Hkeys. apply sorted_map_keys.
  - apply NoDup_fmap_filter. rewrite Hkeys. apply NoDup_map_keys.
  - intros m. rewrite list_elem_of_filter, elem_of_map_values. split.
    + intros [Hc (id & Hm%Hg)]. pose proof Hm as (Hid & _)%components_latest_law; [|done].
      rewrite Hid. split; [done|]. by destruct (ComponentManifest_capability _ _).
    + intros [Hm [c Hc]]. rewrite Hc. split; [done|]. exists (m_id m). by apply Hg.
Qed.

(** *** Run submission *)

(** The manifest [m] with digest [d] and capability [c] is what the
    submission asked for, and everything it needs is there. *)
Record run_checked (s : Store) (spec : RunSpec) (pin : option ComponentAdmissionPin)
    (m : ComponentManifest) (d : ContentDigest) (c : Capability) : Prop := {
  rc_spec : RunSpec_validate spec limits = Ok tt;
  rc_registered : registered s m;
  rc_component : m_id m = spec_component spec;
  rc_resolved : match pin with
    | Some p => m_version m = pin_component_version p /\ d = pin_manifest_digest p /\
                cap_contract_version c = pin_capability_contract_version p
    | None => components_latest s (spec_component spec) = Ok (Some m)
    end;
  rc_digest : ComponentManifest_content_digest m = Ok d;
  rc_capability : ComponentManifest_capability m (spec_capability spec) = Some c;
  rc_contract : capability_name_str (spec_capability spec) = SCICAPSULE_CAPABILITY ->
    validate_execution_contract m c = Ok tt;
  rc_ports : forall name, name ∈ port_name <$> cap_inputs c <-> name ∈ in_name <$> spec_inputs spec;
  rc_artifacts : forall i, i ∈ spec_inputs spec ->
    exists a, artifacts_get s (in_artifact i) = Ok (Some a);
  rc_placeholders : forall b, m_execution m = Some b -> check_placeholders b spec = Ok tt;
}.

Lemma forM_elem {E A} `{EqDecision A} (xs ys : list A) (err : A -> E) :
  forM_ (fun x => ensure (bool_decide (x ∈ ys)) (err x)) xs = Ok tt <-> xs ⊆ ys.
Proof.
  rewrite forM_Ok, Forall_forall. split; intros Hx x Hin.
  - specialize (Hx x Hin). ok_inv. by bool_inv.
  - apply ensure_Ok. apply bool_decide_eq_true_2. by apply Hx.
Qed.

Lemma resolve_manifest_Ok s id pin m :
  repo_ok s -> resolve_manifest s id pin = Ok m ->
  registered s m /\ m_id m = id /\
  match pin with
  | Some p => m_version m = pin_component_version p
  | None => components_latest s id = Ok (Some m)
  end.
Proof.
  intros Hok Hr. unfold resolve_manifest in Hr. ok_inv. destruct pin as [p|].
  - destruct (components_get_key _ _ _ _ Hok Hr0) as [<- Hv]. unfold registered. by rewrite Hv.
  - pose proof Hr0 as (Hid & Hreg & _)%components_latest_law; [|done]. done.
Qed.

Lemma submit_run_checks_Ok s spec pin m d c :
  repo_ok s -> submit_run_checks s spec pin = Ok (m, d, c) -> run_checked s spec pin m d c.
Proof.
  intros Hok Hr. unfold submit_run_checks in Hr.
  apply bind_Ok in Hr as ([] & Hspec & Hr).
  apply bind_Ok in Hr as (m0 & Hres & Hr). apply resolve_manifest_Ok in Hres as (Hreg & Hid & Hpin); [|done].
  apply bind_Ok in Hr as (d0 & Hdig & Hr). apply bind_Ok in Hr as ([] & Hpd & Hr).
  apply bind_Ok in Hr as (c0 & Hcap%ok_or_Ok & Hr). apply bind_Ok in Hr as ([] & Hpc & Hr).
  apply bind_Ok in Hr as ([] & Hsci & Hr).
  apply bind_Ok in Hr as ([] & Hports%forM_elem & Hr).
  apply bind_Ok in Hr as ([] & Hbinds%forM_elem & Hr).
  apply bind_Ok in Hr as ([] & Harts%forM_Ok & Hr). apply bind_Ok in Hr as ([] & Hph & Hr).
  injection Hr as -> -> ->. split; try done.
  - destruct pin as [p|]; [|done]. ok_inv. bool_inv. done.
  - intros Heq. by rewrite bool_decide_eq_true_2 in Hsci.
  - intros name. split; [apply Hports|apply Hbinds].
  - intros i Hi. rewrite Forall_forall in Harts. specialize (Harts i Hi). ok_inv.
    destruct r as [a|]; [|done]. eauto.
  - intros b Hb. by rewrite Hb in Hph.
Qed.

Lemma submit_run_checks_complete s spec pin m d c :
  run_checked s spec pin m d c -> submit_run_checks s spec pin = Ok (m, d, c).
Proof.
  intros [Hspec Hreg Hid Hres Hdig Hcap Hsci Hports Harts Hph]. unfold submit_run_checks.
  rewrite Hspec. cbn [mbind result_bind].
  assert (Hm : resolve_manifest s (spec_component spec) pin = Ok m).
  { unfold resolve_manifest, registered in *. destruct pin as [p|].
    - destruct Hres as (<- & _). rewrite <- Hid, Hreg. done.
    - by rewrite Hres. }
  rewrite Hm. cbn [mbind result_bind]. rewrite Hdig. cbn [mbind result_bind].
  assert (Hp1 : match pin with
    | Some p => ensure (bool_decide (d = pin_manifest_digest p))
        (Validation "component {} version {} manifest digest {} does not match required {}")
    | None => Ok tt end = Ok tt).
  { destruct pin as [p|]; [|done]. destruct Hres as (_ & -> & _). by rewrite bool_decide_eq_true_2. }
  rewrite Hp1. cbn [mbind result_bind]. rewrite Hcap. cbn [ok_or mbind result_bind].
  assert (Hp2 : match pin with
    | Some p => ensure (bool_decide (cap_contract_version c = pin_capability_contract_version p))
        (Validation "capability {} contract version {} does not match required {}")
    | None => Ok tt end = Ok tt).
  { destruct pin as [p|]; [|done]. destruct Hres as (_ & _ & ->). by rewrite bool_decide_eq_true_2. }
  rewrite Hp2. cbn [mbind result_bind].
  assert (Hp3 : (if bool_decide (capability_name_str (spec_capability spec) = SCICAPSULE_CAPABILITY)
    then validate_execution_contract m c else Ok tt) = Ok tt) by (case_bool_decide; auto).
  rewrite Hp3. cbn [mbind result_bind].
  apply bind_Ok. exists tt. split; [apply forM_elem; intros x; by apply Hports|].
  apply bind_Ok. exists tt. split; [apply forM_elem; intros x; by apply Hports|].
  apply bind_Ok. exists tt. split.
  { apply forM_Ok, Forall_forall. intros i Hi. destruct (Harts i Hi) as [a Ha]. by rewrite Ha. }
  destruct (m_execution m) as [b|]; [by rewrite Hph|done].
Qed.

(** The record a submission writes. *)
Definition queued_record (spec : RunSpec) (m : ComponentManifest) (d : ContentDigest) (c : Capability)
    (reproduced_from : option RunId) (r : RunRecord) : Prop :=
  run_spec r = spec /\ run_state r = RsQueued /\ run_history_ok r /\
  run_component_version r = m_version m /\ run_contract_version r = cap_contract_version c /\
  run_component_manifest_digest r = Some d /\ run_reproduced_from r = reproduced_from /\
  run_outcome r = None.

(** The part of [submit_run_internal] after the checks, as a function of the
    clock and the fresh id. *)
Lemma submit_run_shape spec rf pin o o' res :
  submit_run_internal spec rf pin o = (o', res) ->
  match submit_run_checks (o_store o) spec pin with
  | Err e => o' = o /\ res = Err e
  | Ok (m, d, c) =>
      RunSpec_validate spec limits = Ok tt ->
      exists r, queued_record spec m d c rf r /\
        run_id r = from_uuid (env_uuid (mc_tick (o_machine o) + 1)) /\
        match res with
        | Ok r' => r' = r /\ runs_put (o_store o) r = (o_store o', Ok tt)
        | Err e => runs_put (o_store o) r = (o_store o', Err e)
        end
  end.
Proof.
  unfold submit_run_internal, query, mbind, action_bind at 1, reads.
  destruct (submit_run_checks (o_store o) spec pin) as [[[m d] c]|e]; [|by intros [= <- <-]].
  intros Hr Hspec. revert Hr. unfold on_machine, SystemClock_now_ms, new_v4. cbn [mbind action_bind].
  unfold RunRecord_create. rewrite Hspec. cbn -[runs_put].
  unfold on_store. cbn -[runs_put].
  match goal with |- context[runs_put _ ?r0] => set (r := r0) end.
  intros Hr. exists r. split.
  - unfold queued_record. split_and!; try done. split; try done. intros Hs. by apply is_Some_None in Hs.
  - split; [done|]. revert Hr. unfold action_bind. cbn -[runs_put].
    destruct (runs_put (o_store o) r) as [s [[]|e]]; by intros [= <- <-].
Qed.

Lemma submit_run_accepted spec rf pin o o' r :
  repo_ok (o_store o) ->
  submit_run_internal spec rf pin o = (o', Ok r) ->
  exists m d c, run_checked (o_store o) spec pin m d c /\ queued_record spec m d c rf r /\
    runs_put (o_store o) r = (o_store o', Ok tt).
Proof.
  intros Hok Hr. apply submit_run_shape in Hr.
  destruct (submit_run_checks (o_store o) spec pin) as [[[m d] c]|e] eqn:E; [|by destruct Hr].
  apply submit_run_checks_Ok in E; [|done]. destruct (Hr (rc_spec _ _ _ _ _ _ E)) as (r' & Hq & _ & -> & Hput).
  by exists m, d, c.
Qed.

Lemma submit_run_refused spec rf pin o o' e :
  repo_ok (o_store o) ->
  submit_run_internal spec rf pin o = (o', Err e) ->
  (o' = o /\ submit_run_checks (o_store o) spec pin = Err e) \/
  exists r, runs_put (o_store o) r = (o_store o', Err e).
Proof.
  intros Hok Hr. apply submit_run_shape in Hr.
  destruct (submit_run_checks (o_store o) spec pin) as [[[m d] c]|e'] eqn:E; [|by left; naive_solver].
  apply submit_run_checks_Ok in E; [|done]. destruct (Hr (rc_spec _ _ _ _ _ _ E)) as (r & _ & _ & Hres).
  right. by exists r.
Qed.

(** Submission is admission against an exact, registered identity:
    whatever [submit_run_internal] answers, if it accepts, the record is
    queued with a replayable history and names the version and the canonical
    digest of a manifest that is registered -- the latest, or exactly the
    pinned one -- whose capability declares just the bound inputs, all of
    them existing artifacts, and whose placeholders can be resolved; the
    record is stored and nothing else about runs, registry, artifacts or
    workflows changes.  If it refuses, nothing changes, unless writing the
    record was what failed. *)
Theorem submit_run_sound spec rf pin o o' res :
  repo_ok (o_store o) ->
  submit_run_internal spec rf pin o = (o', res) ->
  match res with
  | Ok r => exists m d c, run_checked (o_store o) spec pin m d c /\
      queued_record spec m d c rf r /\
      runs_get (o_store o') (run_id r) = Ok (Some r) /\
      (forall id, id <> run_id r -> runs_get (o_store o') id = runs_get (o_store o) id) /\
      same_components (o_store o) (o_store o') /\ same_artifacts (o_store o) (o_store o') /\
      same_workflows (o_store o) (o_store o')
  | Err e => (o' = o /\ submit_run_checks (o_store o) spec pin = Err e) \/
      exists r, runs_put (o_store o) r = (o_store o', Err e)
  end.
Proof.
  intros Hok Hr. destruct res as [r|e]; [|by eapply submit_run_refused].
  apply submit_run_accepted in Hr as (m & d & c & Hc & Hq & Hput); [|done].
  pose proof (runs_put_frame _ r Hok) as Hfr. rewrite Hput in Hfr. destruct Hfr as (_ & ? & ? & ? & ?).
  apply runs_put_law in Hput; [|done]. exists m, d, c. done.
Qed.

(** *** Workflow submission *)

(** A step may run: its component is there, at the pinned identity if there
    is one. *)
Definition step_checked (s : Store) (admission : option WorkflowAdmissionPins) (step : Step) : Prop :=
  match admission with
  | None => exists m, components_latest s (step_component step) = Ok (Some m)
  | Some pins => exists pin m c, pins_steps pins !! step_key step = Some pin /\
      registered s m /\ m_id m = step_component step /\
      m_version m = pin_component_version pin /\
      ComponentManifest_content_digest m = Ok (pin_manifest_digest pin) /\
      ComponentManifest_capability m (step_capability step) = Some c /\
      cap_contract_version c = pin_capability_contract_version pin
  end.

Lemma validate_workflow_step_admission_Ok s step pin :
  repo_ok s -> validate_workflow_step_admission s step pin = Ok tt <->
  exists m c, registered s m /\ m_id m = step_component step /\
    m_version m = pin_component_version pin /\
    ComponentManifest_content_digest m = Ok (pin_manifest_digest pin) /\
    ComponentManifest_capability m (step_capability step) = Some c /\
    cap_contract_version c = pin_capability_contract_version pin.
Proof.
  intros Hok. unfold validate_workflow_step_admission. split.
  - intros Hr. ok_inv. bool_inv. subst.
    match goal with Hg : components_get _ _ _ = Ok (Some ?m) |- _ =>
      destruct (components_get_key _ _ _ _ Hok Hg) as [Hid Hv]; exists m end.
    eexists. unfold registered. rewrite Hid, Hv. split_and!; eauto.
  - intros (m & c & Hreg & Hid & Hv & Hd & Hc & Hk). unfold registered in Hreg.
    rewrite <- Hid, <- Hv, Hreg. cbn. rewrite Hd. cbn.
    rewrite bool_decide_eq_true_2 by done. cbn. rewrite Hc. cbn.
    by rewrite bool_decide_eq_true_2.
Qed.

Lemma submit_workflow_checks_Ok s spec admission :
  repo_ok s ->
  submit_workflow_checks s spec admission = Ok tt <->
  WorkflowSpec_validate spec = Ok tt /\
  (forall pins, admission = Some pins -> WorkflowAdmissionPins_validate pins spec = Ok tt) /\
  Forall (step_checked s admission) (ws_steps spec).
Proof.
  intros Hok. unfold submit_workflow_checks. rewrite bind_Ok. destruct admission as [pins|].
  - assert (Hstep : forall step, (ok_or (pins_steps pins !! step_key step)
        (InvalidRunSpec "workflow step {:?} has no exact admission pin")
        ≫= validate_workflow_step_admission s step) = Ok tt <-> step_checked s (Some pins) step).
    { intros step. rewrite bind_Ok. unfold step_checked. setoid_rewrite ok_or_Ok.
      setoid_rewrite validate_workflow_step_admission_Ok; [|done]. naive_solver. }
    split.
    + intros ([] & Hv & ([] & Hp & Hf%forM_Ok)%bind_Ok). split_and!; [done|intros ? [= <-]; exact Hp|].
      eapply Forall_impl; [exact Hf|]. intros step. apply Hstep.
    + intros (Hv & Hp & Hf). exists tt. split; [done|]. apply bind_Ok. exists tt.
      split; [exact (Hp pins eq_refl)|]. apply forM_Ok. eapply Forall_impl; [exact Hf|]. intros step. apply Hstep.
  - assert (Hstep : forall step, (found ← components_latest s (step_component step);
        ensure (is_some found) (ComponentNotFound (step_component step))) = Ok tt
        <-> step_checked s None step).
    { intros step. rewrite bind_Ok. unfold step_checked. setoid_rewrite ensure_Ok. split.
      - intros ([m|] & Hm & ?); [eauto|done].
      - intros [m Hm]. by exists (Some m). }
    split.
    + intros ([] & Hv & Hf%forM_Ok). split_and!; [done|done|].
      eapply Forall_impl; [exact Hf|]. intros step. apply Hstep.
    + intros (Hv & _ & Hf). exists tt. split; [done|]. apply forM_Ok.
      eapply Forall_impl; [exact Hf|]. intros step. apply Hstep.
Qed.

(** What makes a workflow acceptable to a registry. *)
Definition workflow_checked (s : Store) (spec : WorkflowSpec)
    (admission : option WorkflowAdmissionPins) : Prop :=
  WorkflowSpec_validate spec = Ok tt /\
  (forall pins, admission = Some pins -> WorkflowAdmissionPins_validate pins spec = Ok tt) /\
  Forall (step_checked s admission) (ws_steps spec).

Definition created_workflow (spec : WorkflowSpec) (admission : option WorkflowAdmissionPins)
    (w : WorkflowRecord) : Prop :=
  wr_spec w = spec /\ wr_admission w = admission /\ wr_state w = WsCreated /\ wr_steps w = [] /\
  wr_started_at w = None /\ wr_finished_at w = None /\ wr_cancel_requested_at w = None /\
  wr_failure w = None.

Lemma submit_workflow_shape spec admission o o' res :
  repo_ok (o_store o) ->
  submit_workflow_internal spec admission o = (o', res) ->
  match submit_workflow_checks (o_store o) spec admission with
  | Err e => o' = o /\ res = Err e
  | Ok _ => exists w t, created_workflow spec admission w /\
      match res with
      | Ok w' => w' = w /\ workflows_put (o_store o) w t = (o_store o', Ok tt)
      | Err e => workflows_put (o_store o) w t = (o_store o', Err e)
      end
  end.
Proof.
  intros Hok. unfold submit_workflow_internal, query, mbind, action_bind at 1, reads.
  destruct (submit_workflow_checks (o_store o) spec admission) as [[]|e] eqn:E;
    [|by intros [= <- <-]].
  apply submit_workflow_checks_Ok in E as (Hv & Hp & _); [|done].
  assert (Hver : exists v, Version_parse WORKFLOW_MODEL_VERSION = Ok v) by (eexists; by vm_compute).
  destruct Hver as [v Hver]. rewrite Hver. unfold lift at 1. cbn [action_bind].
  unfold on_machine, SystemClock_now_ms, new_v4, WorkflowRecord_create_with_admission, action_bind, lift.
  rewrite Hv.
  assert (Hpins : match admission with
      | Some pins => WorkflowAdmissionPins_validate pins spec | None => Ok tt end = Ok tt)
    by (destruct admission; [by apply Hp|done]).
  rewrite Hpins. cbn -[workflows_put]. unfold on_store. cbn -[workflows_put].
  match goal with |- context[workflows_put _ ?w0 ?t0] => intros Hr; exists w0, t0 end.
  split; [done|]. revert Hr.
  destruct (workflows_put _ _ _) as [s [[]|e]]; by intros [= <- <-].
Qed.

(** A workflow is accepted exactly on checked steps: it is refused
    without any effect precisely when its structure, its pins or a step's
    component does not pass; otherwise a fresh record in state [Created],
    with the given specification and pins, is stored and nothing else
    changes.  With pins, every step is bound to a registered manifest of
    exactly the pinned version, canonical digest and contract version. *)
Theorem submit_workflow_sound spec admission o o' res :
  repo_ok (o_store o) ->
  submit_workflow_internal spec admission o = (o', res) ->
  match res with
  | Ok w => workflow_checked (o_store o) spec admission /\ created_workflow spec admission w /\
      (workflows_get (o_store o) (wr_id w) = Ok None ->
       workflows_get (o_store o') (wr_id w) = Ok (Some w)) /\
      (forall id, id <> wr_id w -> workflows_get (o_store o') id = workflows_get (o_store o) id) /\
      same_components (o_store o) (o_store o') /\ same_runs (o_store o) (o_store o') /\
      same_artifacts (o_store o) (o_store o')
  | Err e => (o' = o /\ ~ workflow_checked (o_store o) spec admission) \/
      exists w t, workflows_put (o_store o) w t = (o_store o', Err e)
  end.
Proof.
  intros Hok Hr. apply submit_workflow_shape in Hr; [|done].
  pose proof (submit_workflow_checks_Ok (o_store o) spec admission Hok) as Hiff.
  destruct (submit_workflow_checks (o_store o) spec admission) as [[]|e] eqn:E.
  - destruct Hr as (w & t & Hw & Hres). destruct res as [w'|e]; [|by right; exists w, t].
    destruct Hres as [-> Hput].
    pose proof (workflows_put_frame _ w t Hok) as Hfr. rewrite Hput in Hfr.
    destruct Hfr as (_ & ? & ? & ? & ?).
    apply workflows_put_law in Hput as (c & Hget & Hc & _); [|done].
    split_and!; try done; [by apply Hiff|]. intros Hnone. rewrite Hget, (Hc (or_intror Hnone)).
    by destruct w.
  - destruct Hr as [-> ->]. left. split; [done|]. intros Hc%Hiff. discriminate.
Qed.

(** *** Cancelling a run *)

(** A queued or idle run is cancelled outright, a terminal one is left alone,
    an executing one is only signalled. *)
Lemma cancel_run_spec id o o' b :
  repo_ok (o_store o) -> cancel_run id o = (o', Ok b) ->
  match o_active_cancels o !! id with
  | Some _ => b = true /\ o_store o' = o_store o /\
      o_active_cancels o' !! id = Some {| is_cancelled := true |}
  | None => b = false /\ exists r, runs_get (o_store o) id = Ok (Some r) /\
      if RunState_is_terminal (run_state r) then o' = o
      else exists t r', RunRecord_transition r RsCancelled t = (r', Ok tt) /\
        runs_put (o_store o) r' = (o_store o', Ok tt)
  end.
Proof.
  intros Hok. unfold cancel_run. destruct (o_active_cancels o !! id) as [token|].
  - intros [= <- <-]. cbn. by rewrite lookup_insert_eq.
  - unfold query. intros Hr. act_inv.
    match goal with Hg : runs_get _ _ = Ok (Some ?x) |- _ => rename x into rec, Hg into Hget end.
    destruct (RunState_is_terminal (run_state rec)) eqn:Et.
    + act_inv. split; [done|]. exists rec. by rewrite Et.
    + apply action_bind_Ok in Hr as (o1 & t & Hnow%on_machine_inv & Hr).
      destruct Hnow as (m1 & _ & ->).
      destruct (RunRecord_transition rec RsCancelled t) as [r' rr] eqn:Ert. act_inv.
      match goal with Hp : on_store _ _ = _ |- _ => apply on_store_inv in Hp as (s1 & Hp & ->) end.
      split; [done|]. exists rec. rewrite Et. split; [done|]. by exists t, r'.
Qed.

(** With nothing between the pieces, they are [cancel_run]. *)
Lemma cancel_run_pieces id o :
  o_active_cancels o !! id = None ->
  cancel_run id o =
    (read ← cancel_run_read id; match read with Some record => cancel_run_store record | None => mret false end) o.
Proof.
  intros Ha. unfold cancel_run, cancel_run_read, cancel_run_store. rewrite Ha. unfold mbind, action_bind.
  destruct (query _ o) as [o1 [found|e]]; [|done]. destruct (lift _ o1) as [o2 [record|e]]; [|done].
  destruct (RunState_is_terminal _); [done|]. destruct (on_machine _ o2) as [o3 [now|e]]; [|done].
  destruct (RunRecord_transition record RsCancelled now) as [record' r]. by destruct (lift r o3) as [o4 [[]|e]].
Qed.

Lemma keeps_ok_ingest_artifact name media bs :
  steps keeps_ok (ingest_artifact name media bs).
Proof. unfold ingest_artifact. solve_steps. Qed.

Lemma keeps_ok_submit_run spec from pin : steps keeps_ok (submit_run_internal spec from pin).
Proof. unfold submit_run_internal. solve_steps. Qed.

Lemma keeps_ok_submit_workflow spec pins : steps keeps_ok (submit_workflow_internal spec pins).
Proof. unfold submit_workflow_internal. solve_steps. Qed.
End orchestrator.

(** ** Concrete hubs *)
Definition plain_json : JsonLib := {| Value := N; params_to_vec _ := Some (bytes "{}") |}.

Lemma plain_json_utf8 : @JsonUtf8 plain_json.
Proof. split. intros p bs [= <-]. by vm_compute. Qed.

Section witnesses.
#[local] Existing Instance plain_json.
#[local] Existing Instance toy_manifest_json.
#[local] Existing Instance toy_workspace_json.
#[local] Existing Instance toy_sha.
#[local] Existing Instance calm_environment.
#[local] Existing Instance plain_uuid.
#[local] Existing Instance plain_json_utf8.

Definition solve_spec : RunSpec := {|
  spec_component := from_uuid 7; spec_capability := mkCapabilityName "linalg.solve";
  spec_parameters := ∅;
  spec_inputs := [ {| in_name := "matrix"; in_artifact := from_uuid 1 |} ];
  spec_timeout_ms := 5000 |}.

Definition matrix_meta : ArtifactMeta := {|
  art_id := from_uuid 1; art_name := "matrix"; art_media_type := "text/csv";
  art_digest := hash_bytes DOMAIN_ARTIFACT_BLOB [1%N]; art_size := 1; art_created_at := 0;
  art_produced_by_run := None |}.

Definition solver_store : InMemoryHubStore :=
  (InMemoryHubStore_put_artifact
     (InMemoryHubStore_put_component InMemoryHubStore_default sample_manifest 1).1 matrix_meta).1.

Definition solver_hub : Orchestrator InMemoryHubStore InMemoryPublicationFences :=
  {| o_store := solver_store; o_fences := ∅; o_machine := bare_machine; o_active_cancels := ∅;
     o_active_workflow_cancels := ∅; o_active_workflow_runs := ∅ |}.

Lemma solver_hub_ok : repo_ok (o_store solver_hub).
Proof. apply hub_keyed_put_artifact, hub_keyed_put_component. by split_and!. Qed.

Lemma run_request_exact_witness :
  check_placeholders (Process sample_binding) solve_spec = Ok tt /\
  exists req params_json,
    build_request Limits_default "/bin" solve_spec (Some (Process sample_binding)) "/work" = Ok req /\
    rq_program req = "/usr/bin/solver" /\
    Forall2 (resolved_arg solve_spec sample_binding "/work" params_json)
      ["--in"; "{input:matrix}"] (rq_args req).
Proof.
  assert (Hc : check_placeholders (Process sample_binding) solve_spec = Ok tt) by (by vm_compute).
  split; [exact Hc|].
  destruct (proj1 (proj1 (run_request_exact Limits_default "/bin" solve_spec sample_binding "/work"
    ltac:(by vm_compute))) Hc) as (req & pj & Hreq & Hp & Hargs & _).
  exists req, pj. split; [exact Hreq|]. split; [exact Hp|exact Hargs].
Defined.

Lemma discover_latest_declaring_witness :
  exists ms, discover_by_capability (mkCapabilityName "linalg.solve") solver_hub
               = (solver_hub, Ok ms) /\ sample_manifest ∈ ms.
Proof.
  destruct (discover_latest_declaring (mkCapabilityName "linalg.solve") solver_hub solver_hub_ok)
    as (ms & Hd & _ & _ & Hin).
  exists ms. split; [exact Hd|]. apply Hin. split; [by vm_compute|]. by eexists.
Defined.

Lemma submit_run_sound_witness :
  let res := submit_run_internal Limits_default solve_spec None None solver_hub in
  exists r m d c, res.2 = Ok r /\
    run_checked Limits_default (o_store solver_hub) solve_spec None m d c /\
    run_state r = RsQueued /\ runs_get (o_store res.1) (run_id r) = Ok (Some r).
Proof.
  intros res. assert (Hok : is_ok res.2 = true) by (by vm_compute).
  pose proof (submit_run_sound Limits_default solve_spec None None solver_hub res.1 res.2
    solver_hub_ok (surjective_pairing _)) as Hs.
  destruct res.2 as [r|e]; [|discriminate].
  destruct Hs as (m & d & c & Hc & (_ & Hq & _) & Hget & _).
  exists r, m, d, c. split; [reflexivity|]. split; [exact Hc|]. split; [exact Hq|exact Hget].
Defined.

Definition solve_workflow : WorkflowSpec := {|
  ws_schema_version := 1; ws_name := "solve"; ws_max_concurrency := 1;
  ws_steps := [ {| step_key := "s"; step_component := from_uuid 7;
                   step_capability := mkCapabilityName "linalg.solve"; step_parameters := ∅;
                   step_inputs := ∅; step_after := []; step_timeout_ms := 10;
                   step_retry := None |} ] |}.

Definition solve_pins : WorkflowAdmissionPins := {|
  pins_schema_version := 1;
  pins_steps := {[ "s" := {| pin_component_version := mkVersion "1.0.0";
    pin_manifest_digest := match ComponentManifest_content_digest sample_manifest with
                           | Ok d => d | Err _ => from_bytes [] end;
    pin_capability_contract_version := mkVersion "1.0.0" |} ]} |}.

Lemma submit_workflow_sound_witness :
  let res := submit_workflow_internal solve_workflow (Some solve_pins) solver_hub in
  exists w, res.2 = Ok w /\ workflow_checked (o_store solver_hub) solve_workflow (Some solve_pins) /\
    wr_state w = WsCreated.
Proof.
  intros res. assert (Hok : is_ok res.2 = true) by (by vm_compute).
  pose proof (submit_workflow_sound solve_workflow (Some solve_pins) solver_hub res.1 res.2
    solver_hub_ok (surjective_pairing _)) as Hs.
  destruct res.2 as [w|e]; [|discriminate].
  destruct Hs as (Hc & (_ & _ & Hw & _) & _). exists w. split; [reflexivity|]. split; [exact Hc|exact Hw].
Defined.
End witnesses.
