(* ===== verification/Execute.v ===== *)
(** * Run execution ([hub-core/src/orchestrator.rs], [execute_run])

    The whole handler that executes a queued run: the exclusive claim, the
    re-check of the recorded manifest, the materialisation of inputs, the
    executor call, the ingestion of outputs and captured streams, and the
    terminal record.  Executor, files and clock may do anything their
    interfaces allow. *)

From Stdlib Require Import Ascii.
From stdpp Require Import base gmap strings list pretty.
From S2P Require Import Prelude Text Core Version Digest Machine Blobs Component Run Workflow Task.
From S2P Require Import TaskLifecycle Publication Event Memory Ports Exec Scicapsule Hub Submit.

Section execute.
Context `{JsonLib, ManifestJson, Sha256Lib, Environment, UuidLib} {backend : Executor}.
Context {Store Fences : Type} `{!Repositories Store}.

(** The configuration: limits, blob root, working-directory root and the
    Hub's [PATH]. *)
Context (limits : Limits) (blob_root workdir_root path_var : string).

Abbreviation hub A := (action (Orchestrator Store Fences) CoreError A).

(** [.map_err(|e| CoreError::Storage(..))?] on a system call. *)
Definition syscalls {A} (msg : string) (m : action Machine IoError A) : hub A :=
  on_machine (storage msg m).

(** One step of the loop that copies the declared inputs below [inputs/]. *)
Definition materialize_input (workdir : string) (input : InputBinding) : hub InputProvenance :=
  found ← query (fun s => artifacts_get s (in_artifact input));
  meta ← lift (ok_or found (ArtifactNotFound (in_artifact input)));
  let dest := path_join (path_join workdir "inputs") (in_name input) in
  _ ← on_machine (FileSystemArtifactStore_copy_to_path blob_root (art_digest meta) dest);
  mret {| ip_name := in_name input; ip_artifact := in_artifact input;
          ip_digest := art_digest meta; ip_size := art_size meta |}.

Definition declared_outputs (binding : option ExecutionBinding) : list OutputSpec :=
  match binding with Some (Process p) => pb_outputs p | None => [] end.

Definition prepare_output_dir (workdir : string) (out : OutputSpec) : hub unit :=
  syscalls "creating output dir {:?}: {e}" (create_dir_all (path_parent (path_join workdir (out_path out)))).

Definition ingest_output_file (record : RunRecord) (spec : OutputSpec) (workdir : string)
    (now : UnixMillis) : hub (option OutputRef) :=
  let path := path_join workdir (out_path spec) in
  stat ← on_machine (attempt (symlink_metadata path));
  match stat with
  | Err IoNotFound => mret None
  | Err IoOther => throw (Storage "stating output {:?}: {error}")
  | Ok (FSymlink _) => throw (Storage "declared output {:?} must not be a symbolic link")
  | Ok FDirectory => mret None
  | Ok (FRegular _) =>
      '(digest, size) ← on_machine (FileSystemArtifactStore_put_file blob_root path
                                      (max_artifact_bytes limits) DOMAIN_ARTIFACT_BLOB);
      let media_type := default "application/octet-stream" (out_media_type spec) in
      fresh ← on_machine new_v4;
      let meta := {| art_id := from_uuid fresh;
                     art_name := String.append (id_to_string (run_id record))
                                   (String.append "-" (out_name spec));
                     art_media_type := media_type; art_digest := digest; art_size := size;
                     art_created_at := now; art_produced_by_run := Some (run_id record) |} in
      _ ← lift (ArtifactMeta_validate meta);
      _ ← on_store (fun s => artifacts_put s meta);
      mret (Some {| or_name := String.append "file:" (out_name spec); or_artifact := art_id meta;
                    or_digest := digest; or_size := art_size meta |})
  end.

(** The body of the loop of [persist_stream_artifacts] for one stream. *)
Definition persist_stream (record : RunRecord) (now : UnixMillis)
    (stream : string * list N * bool) : hub (list OutputRef) :=
  let '(name, bs, truncated) := stream in
  match bs with
  | [] => mret []
  | _ =>
      let label := if truncated : bool then String.append name "-truncated" else name in
      digest ← on_machine (FileSystemArtifactStore_put blob_root bs (max_artifact_bytes limits)
                             DOMAIN_CAPTURE);
      fresh ← on_machine new_v4;
      let meta := {| art_id := from_uuid fresh;
                     art_name := String.append (id_to_string (run_id record))
                                   (String.append "-" label);
                     art_media_type := "text/plain; charset=utf-8"; art_digest := digest;
                     art_size := len bs; art_created_at := now;
                     art_produced_by_run := Some (run_id record) |} in
      _ ← lift (ArtifactMeta_validate meta);
      _ ← on_store (fun s => artifacts_put s meta);
      mret [ {| or_name := name; or_artifact := art_id meta; or_digest := digest;
                or_size := art_size meta |} ]
  end.

Definition persist_stream_artifacts (record : RunRecord) (outcome : ExecutionOutcome)
    (now : UnixMillis) : hub (list OutputRef) :=
  refs ← mapA (persist_stream record now)
           [("stdout", eo_stdout outcome, eo_stdout_truncated outcome);
            ("stderr", eo_stderr outcome, eo_stderr_truncated outcome)];
  mret (mjoin refs).

(** The outcomes [run_process] makes up when the executor itself enforced a
    timeout or observed the cancellation. *)
Definition executor_timed_out (timeout_ms : N) : ExecutionOutcome :=
  {| eo_exit_code := None; eo_signal := None; eo_timed_out := true; eo_cancelled := false;
     eo_start_error := None; eo_duration_ms := timeout_ms; eo_stdout := [];
     eo_stdout_truncated := false; eo_stderr := []; eo_stderr_truncated := false |}.

Definition executor_cancelled : ExecutionOutcome :=
  {| eo_exit_code := None; eo_signal := None; eo_timed_out := false; eo_cancelled := true;
     eo_start_error := None; eo_duration_ms := 0; eo_stdout := [];
     eo_stdout_truncated := false; eo_stderr := []; eo_stderr_truncated := false |}.

Definition run_process (record : RunRecord) (binding : option ExecutionBinding)
    (workdir : string) (token : CancelToken) : hub ExecutionReport :=
  match build_request limits path_var (run_spec record) binding workdir with
  | Err e =>
      now ← on_machine SystemClock_now_ms;
      let '(record, r) := RunRecord_transition record RsFailed now in
      _ ← lift r;
      _ ← on_store (fun s => runs_put s record);
      throw e
  | Ok request =>
      observed ← on_machine (attempt (execute_report request token));
      match observed with
      | Ok report => mret report
      | Err (TimedOut timeout_ms) =>
          mret {| er_outcome := executor_timed_out timeout_ms; er_backend_id := backend_id |}
      | Err ExecCancelled =>
          mret {| er_outcome := executor_cancelled; er_backend_id := backend_id |}
      | Err (Backend reason) => throw (ExecutionFailed (run_id record) (Backend reason))
      end
  end.

(** One declared output after a clean exit: the references collected and the
    required outputs found missing. *)
Definition ingest_declared (record : RunRecord) (workdir : string) (now : UnixMillis)
    (acc : list OutputRef * list string) (spec : OutputSpec) : hub (list OutputRef * list string) :=
  found ← ingest_output_file record spec workdir now;
  mret match found with
       | Some reference => (acc.1 ++ [reference], acc.2)
       | None => if out_required spec then (acc.1, acc.2 ++ [out_name spec]) else acc
       end.

Fixpoint ingest_all (record : RunRecord) (workdir : string) (now : UnixMillis)
    (acc : list OutputRef * list string) (specs : list OutputSpec)
    : hub (list OutputRef * list string) :=
  match specs with
  | [] => mret acc
  | spec :: specs =>
      acc ← ingest_declared record workdir now acc spec;
      ingest_all record workdir now acc specs
  end.

Definition failure_text (spec : RunSpec) (outcome : ExecutionOutcome) (missing_required : list string)
    : option string :=
  if ExecutionOutcome_exited_cleanly outcome && bool_decide (missing_required = []) then None
  else if eo_cancelled outcome then Some "cancelled"
  else if eo_timed_out outcome then
    Some (String.append "timed out after " (String.append (pretty (spec_timeout_ms spec)) " ms"))
  else if negb (bool_decide (missing_required = [])) then
    Some (String.append "required output(s) not produced: " (String.concat ", " missing_required))
  else match eo_start_error outcome with
  | Some start_error => Some (String.append "failed to start: " start_error)
  | None =>
      Some match eo_exit_code outcome with
           | Some code => String.append "non-zero exit code " (pretty code)
           | None => "terminated by signal"
           end
  end.

Definition final_state (outcome : ExecutionOutcome) (missing_required : list string) : RunState :=
  if eo_cancelled outcome && negb (eo_timed_out outcome) then RsCancelled
  else if ExecutionOutcome_exited_cleanly outcome && bool_decide (missing_required = [])
  then RsSucceeded else RsFailed.

(** The manifest captured at submission, re-checked; a record from before
    digests were recorded gets its digest now. *)
Definition recorded_manifest (record : RunRecord) (s : Store)
    : Result (ComponentManifest * RunRecord) :=
  found ← components_get s (spec_component (run_spec record)) (run_component_version record);
  manifest ← ok_or found (ComponentNotFound (spec_component (run_spec record)));
  manifest_digest ← ComponentManifest_content_digest manifest;
  record ← match run_component_manifest_digest record with
           | Some expected_digest =>
               _ ← ensure (bool_decide (manifest_digest = expected_digest))
                     (Validation "component {} version {} manifest digest changed from recorded {} to {}");
               Ok record
           | None =>
               Ok (RunRecord_set_admission record (Some manifest_digest) (run_reproduced_from record))
           end;
  capability ← ok_or (ComponentManifest_capability manifest (spec_capability (run_spec record)))
                 (CapabilityNotDeclared (spec_component (run_spec record))
                    (capability_name_str (spec_capability (run_spec record))));
  _ ← ensure (bool_decide (cap_contract_version capability = run_contract_version record))
        (Validation "capability {} contract version changed from recorded {} to {}");
  Ok (manifest, record).

Definition load_queued_run (id : RunId) (s : Store) : Result RunRecord :=
  found ← runs_get s id;
  record ← ok_or found (RunNotFound id);
  _ ← ensure (bool_decide (run_state record = RsQueued)) (RunNotExecutable id (run_state record));
  Ok record.

(** The token other threads share with this execution. *)
Definition current_token (id : RunId) : hub CancelToken :=
  reads (fun o => Ok (default CancelToken_new (o_active_cancels o !! id))).

(** The end of [execute_run_inner], from the executor's report. *)
Definition finish_run (record : RunRecord) (binding : option ExecutionBinding) (workdir : string)
    (input_provenance : list InputProvenance) (started_at : UnixMillis) (report : ExecutionReport)
    : hub RunRecord :=
  let outcome := er_outcome report in
  finished_at ← on_machine SystemClock_now_ms;
  let duration_ms := saturating_sub_u64 finished_at started_at in
  params_digest ← lift (RunSpec_params_digest (run_spec record));
  streams ← persist_stream_artifacts record outcome finished_at;
  '(outputs, missing_required) ←
    (if ExecutionOutcome_exited_cleanly outcome
     then ingest_all record workdir finished_at (streams, []) (declared_outputs binding)
     else mret (streams, []));
  let record := RunRecord_set_outcome record (Some {|
    ro_exit_code := eo_exit_code outcome; ro_signal := eo_signal outcome;
    ro_timed_out := eo_timed_out outcome; ro_cancelled := eo_cancelled outcome;
    ro_executor_backend := er_backend_id report; ro_duration_ms := duration_ms;
    ro_inputs := input_provenance; ro_outputs := outputs; ro_env_keys := ["PATH"; "TMPDIR"];
    ro_params_digest := params_digest;
    ro_failure := failure_text (run_spec record) outcome missing_required |}) in
  let '(record, r) := RunRecord_transition record (final_state outcome missing_required) finished_at in
  _ ← lift r;
  _ ← on_store (fun s => runs_put s record);
  _ ← on_machine (ignore (fs_remove_dir_all workdir));
  mret record.

(** [execute_run_inner] from the start of the process on. *)
Definition start_run (id : RunId) (record : RunRecord) (binding : option ExecutionBinding)
    (workdir : string) (input_provenance : list InputProvenance) : hub RunRecord :=
  started_at ← on_machine SystemClock_now_ms;
  let '(record, r) := RunRecord_transition record RsRunning started_at in
  _ ← lift r;
  _ ← on_store (fun s => runs_put s record);
  token ← current_token id;
  report ← run_process record binding workdir token;
  finish_run record binding workdir input_provenance started_at report.

(** [execute_run_inner] once the run is known to be queued and admitted. *)
Definition prepare_run (id : RunId) (manifest : ComponentManifest) (record : RunRecord) : hub RunRecord :=
  let binding := m_execution manifest in
  let workdir := path_join workdir_root (id_to_string id) in
  _ ← syscalls "creating run workdir: {e}" (create_dir_all (path_join workdir "inputs"));
  input_provenance ← mapA (materialize_input workdir) (spec_inputs (run_spec record));
  _ ← forA_ (prepare_output_dir workdir) (declared_outputs binding);
  start_run id record binding workdir input_provenance.

Definition execute_run_inner (id : RunId) : hub RunRecord :=
  record ← query (load_queued_run id);
  '(manifest, record) ← query (recorded_manifest record);
  prepare_run id manifest record.

(** The claim: one execution of a run at a time. *)
Definition execute_run (id : RunId) : hub RunRecord := fun o =>
  match o_active_cancels o !! id with
  | Some _ => (o, Err (RunNotExecutable id RsRunning))
  | None =>
      let o := set_cancels o (<[id := CancelToken_new]> (o_active_cancels o)) in
      let '(o, result) := execute_run_inner id o in
      (set_cancels o (delete id (o_active_cancels o)), result)
  end.

(** ** What an execution leaves alone *)
Context `{!RepositoriesLaws Store}.

(** Nothing about components, runs, workflows, fences or the maps of active
    work has changed; artifacts and files may have. *)
Definition untouched (o o' : Orchestrator Store Fences) : Prop :=
  (repo_ok (o_store o) ->
     repo_ok (o_store o') /\ same_components (o_store o) (o_store o') /\
     same_runs (o_store o) (o_store o') /\ same_workflows (o_store o) (o_store o')) /\
  o_fences o' = o_fences o /\ o_active_cancels o' = o_active_cancels o /\
  o_active_workflow_cancels o' = o_active_workflow_cancels o /\
  o_active_workflow_runs o' = o_active_workflow_runs o.

#[local] Instance untouched_preorder : PreOrder untouched.
Proof.
  split.
  - intros o. split_and!; try done.
  - intros a b c (Hab & ? & ? & ? & ?) (Hbc & ? & ? & ? & ?). split_and!; try congruence.
    intros Hok. destruct (Hab Hok) as (Hb & (C1 & C2 & C3) & R1 & W1).
    destruct (Hbc Hb) as (Hc & (D1 & D2 & D3) & R2 & W2). split; [done|].
    unfold same_components, same_runs, same_workflows in *. split_and!; try congruence;
      intros; etrans; eauto.
Qed.

Lemma untouched_on_machine {A} (act : action Machine CoreError A) : steps untouched (on_machine act).
Proof. intros o. unfold on_machine. destruct (act _). split_and!; done. Qed.

Lemma untouched_query {A} (f : Store -> Result A) : steps untouched (query f).
Proof. intros o. reflexivity. Qed.

Lemma untouched_artifacts_put a : steps untouched (on_store (fun s => artifacts_put s a)).
Proof.
  intros o. unfold on_store. pose proof (artifacts_put_frame (o_store o) a) as Hf.
  destruct (artifacts_put _ _) as [s r]. split_and!; try done. intros Hok.
  destruct (Hf Hok) as (? & _ & ? & ? & ?). done.
Qed.

#[local] Hint Resolve untouched_preorder untouched_on_machine untouched_query
  untouched_artifacts_put : steps.

Lemma untouched_materialize workdir i : steps untouched (materialize_input workdir i).
Proof. unfold materialize_input. eauto 10 with steps. Qed.

Lemma untouched_prepare workdir out : steps untouched (prepare_output_dir workdir out).
Proof. unfold prepare_output_dir, syscalls. eauto with steps. Qed.

Lemma untouched_ingest_output_file r spec workdir now :
  steps untouched (ingest_output_file r spec workdir now).
Proof.
  unfold ingest_output_file. apply steps_bind; [apply _|eauto with steps|].
  intros [[content|t|]|[]]; eauto with steps.
  apply steps_bind; [apply _|eauto with steps|]. intros [digest size]. eauto 10 with steps.
Qed.

Lemma untouched_ingest_all r workdir now acc specs :
  steps untouched (ingest_all r workdir now acc specs).
Proof.
  revert acc; induction specs as [|spec specs IH]; intros acc; cbn; [eauto with steps|].
  apply steps_bind; [apply _| |done]. unfold ingest_declared.
  apply steps_bind; [apply _|apply untouched_ingest_output_file|eauto with steps].
Qed.

Lemma untouched_persist_streams r outcome now :
  steps untouched (persist_stream_artifacts r outcome now).
Proof.
  unfold persist_stream_artifacts. apply steps_bind; [apply _| |eauto with steps].
  apply steps_mapA; [apply _|]. intros [[name bs] tr] _. unfold persist_stream.
  destruct bs; eauto 10 with steps.
Qed.

(** ** The terminal record *)
Lemma final_state_terminal outcome missing :
  RunState_is_terminal (final_state outcome missing) = true /\
  RunState_can_transition_to RsRunning (final_state outcome missing) = true.
Proof. unfold final_state. by repeat case_match. Qed.

Lemma final_state_succeeded spec outcome missing :
  (final_state outcome missing = RsSucceeded <-> failure_text spec outcome missing = None) /\
  (final_state outcome missing = RsSucceeded <->
     ExecutionOutcome_exited_cleanly outcome = true /\ missing = []) /\
  (final_state outcome missing = RsCancelled <->
     eo_cancelled outcome = true /\ eo_timed_out outcome = false).
Proof.
  unfold final_state, failure_text, ExecutionOutcome_exited_cleanly.
  destruct (eo_cancelled outcome), (eo_timed_out outcome); cbn;
    try (split_and!; split; (done || by intros [])).
  destruct (negb (is_some (eo_start_error outcome)) && bool_decide (eo_exit_code outcome = Some 0%Z));
    cbn; case_bool_decide as Hm; cbn.
  all: split_and!; split; try done; try (by intros []); repeat case_match; done.
Qed.

Lemma exited_cleanly_inv outcome :
  ExecutionOutcome_exited_cleanly outcome = true ->
  eo_exit_code outcome = Some 0%Z /\ eo_timed_out outcome = false /\ eo_cancelled outcome = false.
Proof. unfold ExecutionOutcome_exited_cleanly. intros Hc. bool_inv. done. Qed.

Lemma ingest_output_file_Ok r spec workdir now o o' ref :
  ingest_output_file r spec workdir now o = (o', Ok (Some ref)) ->
  or_name ref = String.append "file:" (out_name spec).
Proof.
  unfold ingest_output_file. intros Hr. apply action_bind_Ok in Hr as (o1 & stat & _ & Hr).
  destruct stat as [[content|t|]|[]]; act_inv; try done.
  destruct r0 as [digest size]. act_inv. by simplify_eq.
Qed.

Lemma ingest_all_Ok r workdir now acc specs o o' outs missing :
  ingest_all r workdir now acc specs o = (o', Ok (outs, missing)) ->
  (exists more, outs = acc.1 ++ more) /\ (exists more, missing = acc.2 ++ more) /\
  (missing = [] -> forall spec, spec ∈ specs -> out_required spec = true ->
     exists ref, ref ∈ outs /\ or_name ref = String.append "file:" (out_name spec)).
Proof.
  revert acc o; induction specs as [|spec specs IH]; intros acc o; cbn.
  - intros [_ ->]%mret_Ok. cbn. split_and!; [by exists []; rewrite app_nil_r..|set_solver].
  - intros (o1 & acc1 & Hd & Hr)%action_bind_Ok. unfold ingest_declared in Hd.
    apply action_bind_Ok in Hd as (o2 & found & Hf & [_ Hacc]%mret_Ok).
    destruct (IH _ _ Hr) as ([outs' Houts] & [miss' Hmiss] & Hreq). subst acc1.
    destruct found as [ref|]; [|destruct (out_required spec) eqn:Er]; cbn in Houts, Hmiss.
    + apply ingest_output_file_Ok in Hf. split_and!; [exists (ref :: outs'); by rewrite Houts, <- app_assoc|by eexists|].
      intros Hnil spec' [->|Hin]%elem_of_cons Hr'; [|by apply Hreq].
      exists ref. split; [|done]. rewrite Houts. set_solver.
    + split_and!; [by eexists|exists (out_name spec :: miss'); by rewrite Hmiss, <- app_assoc|].
      intros Hnil. rewrite Hnil in Hmiss. by destruct acc.2.
    + split_and!; [by eexists|by eexists|].
      intros Hnil spec' [->|Hin]%elem_of_cons Hr'; [congruence|by apply Hreq].
Qed.

(** One line of a run's input provenance, as the metadata store had it. *)
Definition input_recorded (s : Store) (i : InputBinding) (p : InputProvenance) : Prop :=
  exists meta, artifacts_get s (in_artifact i) = Ok (Some meta) /\
    p = {| ip_name := in_name i; ip_artifact := in_artifact i;
           ip_digest := art_digest meta; ip_size := art_size meta |}.

(** What never changes while a run executes. *)
Definition carried (r0 r : RunRecord) : Prop :=
  run_id r = run_id r0 /\ run_spec r = run_spec r0 /\
  run_component_version r = run_component_version r0 /\
  run_component_manifest_digest r = run_component_manifest_digest r0 /\
  run_contract_version r = run_contract_version r0 /\
  run_created_at r = run_created_at r0 /\ run_reproduced_from r = run_reproduced_from r0 /\
  (run_history_ok r0 -> run_history_ok r).

(** The log of [r] is the log of [r0] and a walk through [states]. *)
Definition walked (r0 r : RunRecord) (states : list (RunState * RunState)) : Prop :=
  exists ts, length ts = length states /\
    run_transitions r = run_transitions r0 ++
      zip_with (fun p t => {| tr_from := p.1; tr_to := p.2; tr_at := t |}) states ts.

(** What a finished record says about its run, started from [r0] under
    [binding] with the metadata of [s]. *)
Record finished_run (s : Store) (binding : option ExecutionBinding) (r0 r : RunRecord) : Prop := {
  fr_carried : carried r0 r;
  fr_log : walked r0 r [(RsQueued, RsRunning); (RsRunning, run_state r)];
  fr_terminal : RunState_is_terminal (run_state r) = true;
  fr_outcome : exists oc, run_outcome r = Some oc /\
    (run_state r = RsSucceeded <-> ro_failure oc = None) /\
    (run_state r = RsCancelled <-> ro_cancelled oc = true /\ ro_timed_out oc = false) /\
    (run_state r = RsSucceeded ->
       ro_exit_code oc = Some 0%Z /\ ro_timed_out oc = false /\ ro_cancelled oc = false /\
       forall out, out ∈ declared_outputs binding -> out_required out = true ->
         exists ref, ref ∈ ro_outputs oc /\ or_name ref = String.append "file:" (out_name out)) /\
    Forall2 (input_recorded s) (spec_inputs (run_spec r)) (ro_inputs oc);
}.

(** How far an execution got, as the stored record shows it. *)
Inductive run_progress (s : Store) (binding : option ExecutionBinding) (r0 : RunRecord)
    : RunRecord -> Prop :=
  | rp_started r : carried r0 r -> run_state r = RsRunning ->
      walked r0 r [(RsQueued, RsRunning)] -> run_outcome r = run_outcome r0 ->
      run_progress s binding r0 r
  | rp_unbuildable r : carried r0 r -> run_state r = RsFailed ->
      walked r0 r [(RsQueued, RsRunning); (RsRunning, RsFailed)] -> run_outcome r = run_outcome r0 ->
      run_progress s binding r0 r
  | rp_finished r : finished_run s binding r0 r -> run_progress s binding r0 r.

(** Assigning the outcome or the digest keeps the history. *)
Lemma run_history_set_outcome r oc : run_history_ok r -> run_history_ok (RunRecord_set_outcome r oc).
Proof. intros [? ? ? ?]. by split. Qed.

Lemma run_history_set_admission r d f : run_history_ok r -> run_history_ok (RunRecord_set_admission r d f).
Proof. intros [? ? ? ?]. by split. Qed.

(** *** Only the executed run changes *)
Definition only_run (id : RunId) (o o' : Orchestrator Store Fences) : Prop :=
  (repo_ok (o_store o) ->
     repo_ok (o_store o') /\ same_components (o_store o) (o_store o') /\
     (forall id', id' <> id -> runs_get (o_store o') id' = runs_get (o_store o) id') /\
     same_workflows (o_store o) (o_store o')) /\
  o_fences o' = o_fences o /\ o_active_cancels o' = o_active_cancels o /\
  o_active_workflow_cancels o' = o_active_workflow_cancels o /\
  o_active_workflow_runs o' = o_active_workflow_runs o.

#[local] Instance only_run_preorder id : PreOrder (only_run id).
Proof.
  split.
  - intros o. split_and!; try done.
  - intros a b c (Hab & ? & ? & ? & ?) (Hbc & ? & ? & ? & ?). split_and!; try congruence.
    intros Hok. destruct (Hab Hok) as (Hb & (C1 & C2 & C3) & R1 & W1).
    destruct (Hbc Hb) as (Hc & (D1 & D2 & D3) & R2 & W2). split; [done|].
    unfold same_components, same_workflows in *. split_and!; try congruence;
      intros; first [by rewrite R2, R1|etrans; eauto].
Qed.

Lemma untouched_only_run id {A} (act : hub A) : steps untouched act -> steps (only_run id) act.
Proof.
  intros Hs o. destruct (Hs o) as (Hr & ? & ? & ? & ?). split_and!; try done.
  intros Hok. destruct (Hr Hok) as (? & ? & ? & ?). split_and!; auto.
Qed.

Lemma only_run_put r : steps (only_run (run_id r)) (on_store (fun s => runs_put s r)).
Proof.
  intros o. unfold on_store. pose proof (runs_put_frame (o_store o) r) as Hf.
  destruct (runs_put _ _) as [s res]. split_and!; try done. intros Hok.
  destruct (Hf Hok) as (? & ? & ? & _ & ?). done.
Qed.

(** A transition followed by a write, as it occurs three times. *)
Lemma only_run_transition_put id r to now {A} (k : RunRecord -> hub A) :
  run_id r = id -> (forall r', run_id r' = id -> steps (only_run id) (k r')) ->
  steps (only_run id)
    (let '(r1, res) := RunRecord_transition r to now in
     _ ← lift res; _ ← on_store (fun s => runs_put s r1); k r1).
Proof.
  intros <- Hk. destruct (RunRecord_transition r to now) as [r1 res] eqn:E.
  assert (Hid : run_id r1 = run_id r).
  { destruct (RunRecord_transition_cases r to now) as [[_ Hc]|(_ & r2 & Hc & _ & _ & _ & _ & Hp)];
      rewrite E in Hc; injection Hc as -> ->; [done|]. by destruct Hp. }
  apply steps_bind; [apply _|by apply steps_lift; apply _|]. intros _.
  apply steps_bind; [apply _|rewrite <- Hid; apply only_run_put|]. intros _. by apply Hk.
Qed.

Lemma only_run_finish record binding workdir ip started report :
  steps (only_run (run_id record)) (finish_run record binding workdir ip started report).
Proof.
  unfold finish_run.
  apply steps_bind; [apply _|apply untouched_only_run; eauto with steps|]. intros now.
  apply steps_bind; [apply _|apply untouched_only_run; eauto with steps|]. intros pd.
  apply steps_bind; [apply _|apply untouched_only_run, untouched_persist_streams|]. intros streams.
  apply steps_bind; [apply _|apply untouched_only_run; destruct (ExecutionOutcome_exited_cleanly _);
    [apply untouched_ingest_all|eauto with steps]|].
  intros [outs missing]. apply only_run_transition_put; [done|]. intros r' Hr'.
  apply untouched_only_run. eauto with steps.
Qed.

Lemma only_run_process record binding workdir token :
  steps (only_run (run_id record)) (run_process record binding workdir token).
Proof.
  unfold run_process. destruct (build_request _ _ _ _ _) as [rq|e].
  - apply untouched_only_run. apply steps_bind; [apply _|eauto with steps|].
    intros [rep|[]]; eauto with steps.
  - apply steps_bind; [apply _|apply untouched_only_run; eauto with steps|]. intros now.
    apply only_run_transition_put; [done|]. intros r' _. apply untouched_only_run. eauto with steps.
Qed.

Lemma only_run_start id record binding workdir ip :
  run_id record = id -> steps (only_run id) (start_run id record binding workdir ip).
Proof.
  intros Hid. unfold start_run.
  apply steps_bind; [apply _|apply untouched_only_run; eauto with steps|]. intros now.
  apply only_run_transition_put; [done|]. intros r' Hr'.
  apply steps_bind; [apply _|intros o; reflexivity|]. intros token.
  apply steps_bind; [apply _|rewrite <- Hr'; apply only_run_process|]. intros report.
  rewrite <- Hr'. apply only_run_finish.
Qed.

(** *** The record the store holds *)
Definition stored (id : RunId) (r : RunRecord) (o : Orchestrator Store Fences) : Prop :=
  repo_ok (o_store o) /\ runs_get (o_store o) id = Ok (Some r).

Lemma stored_untouched id r o o' : stored id r o -> untouched o o' -> stored id r o'.
Proof.
  intros [Hok Hg] [Hu _]. destruct (Hu Hok) as (? & _ & Hr & _). split; [done|]. by rewrite Hr.
Qed.

(** A call that leaves the runs alone, followed by the rest. *)
Lemma triple_bind_untouched {A B} id r (m : hub A) (f : A -> hub B) Q :
  steps untouched m ->
  (forall a, (exists o o', m o = (o', Ok a)) -> triple (stored id r) (f a) Q) ->
  (forall e o, stored id r o -> Q (Err e) o) -> triple (stored id r) (m ≫= f) Q.
Proof.
  intros Hs Hf He o Ho. pose proof (stored_untouched _ _ _ _ Ho (Hs o)) as Ho'.
  unfold mbind, action_bind. destruct (m o) as [o1 [a|e]] eqn:Em; cbn in *; [|by apply He].
  by eapply Hf; eauto.
Qed.

Lemma triple_transition_put {A} id old r to now (k : RunRecord -> hub A) Q :
  run_id r = id -> RunState_can_transition_to (run_state r) to = true ->
  (forall r1, RunRecord_transition r to now = (r1, Ok tt) ->
     triple (stored id r1) (k r1) Q /\
     forall e o x, x = old \/ x = r1 -> stored id x o -> Q (Err e) o) ->
  triple (stored id old)
    (let '(r1, res) := RunRecord_transition r to now in
     _ ← lift res; _ ← on_store (fun s => runs_put s r1); k r1) Q.
Proof.
  intros <- Hc Hk. destruct (RunRecord_transition_cases r to now)
    as [[Hc' _]|(_ & r1 & Ht & _ & _ & _ & _ & Hp)]; [congruence|].
  rewrite Ht. destruct (Hk r1 Ht) as [Hk1 He]. assert (Hid : run_id r1 = run_id r) by apply Hp.
  intros o [Hok Hg]. unfold mbind, action_bind, lift, on_store.
  pose proof (runs_put_frame (o_store o) r1 Hok) as Hfr.
  destruct (runs_put (o_store o) r1) as [s' [[]|e]] eqn:Ep; cbn in *; destruct Hfr as (Hok' & _).
  - apply Hk1. split; [done|]. cbn. rewrite <- Hid. by apply (runs_put_law (o_store o)).
  - apply runs_put_failed in Ep as [Eo|En]; [| |done].
    + apply (He e _ old); [by left|]. split; [done|]. cbn. by rewrite <- Hid, Eo, Hid.
    + rewrite Hid in En. apply (He e _ r1); [by right|by split].
Qed.

(** What [execute_run_inner] answers and leaves behind: the run was stored as
    [old] and executed as [r0]. *)
Definition executed (id : RunId) (s0 : Store) (binding : option ExecutionBinding)
    (old r0 : RunRecord) (res : Result RunRecord) (o : Orchestrator Store Fences) : Prop :=
  match res with
  | Ok r => stored id r o /\ finished_run s0 binding r0 r
  | Err _ => exists r, stored id r o /\ (r = old \/ run_progress s0 binding r0 r)
  end.

Lemma carried_transition r0 r to now r' :
  carried r0 r -> RunRecord_transition r to now = (r', Ok tt) -> carried r0 r'.
Proof.
  intros (? & ? & ? & ? & ? & ? & ? & Hh) (_ & _ & Hp & Hh')%transition_Ok.
  destruct Hp as (? & ? & ? & ? & ? & ? & ? & ? & ?). split_and!; try congruence. auto.
Qed.

Lemma carried_set_outcome r0 r oc : carried r0 r -> carried r0 (RunRecord_set_outcome r oc).
Proof.
  intros (? & ? & ? & ? & ? & ? & ? & Hh). split_and!; try done. intros ?. by apply run_history_set_outcome, Hh.
Qed.

Lemma walked_transition r0 r to now r' states :
  walked r0 r states -> RunRecord_transition r to now = (r', Ok tt) ->
  walked r0 r' (states ++ [(run_state r, to)]).
Proof.
  intros (ts & Hlen & Hlog) (_ & Ht & _)%transition_Ok. exists (ts ++ [now]).
  rewrite !length_app, Hlen. split; [done|]. rewrite Ht, Hlog, zip_with_app by done.
  by rewrite <- app_assoc.
Qed.

(** [r] is [r0], just started. *)
Definition started (r0 r : RunRecord) : Prop :=
  carried r0 r /\ run_state r = RsRunning /\ walked r0 r [(RsQueued, RsRunning)] /\
  run_outcome r = run_outcome r0.

Lemma started_executed id s0 binding old r0 r o e :
  started r0 r -> stored id r o -> executed id s0 binding old r0 (Err e) o.
Proof. intros (? & ? & ? & ?) Ho. exists r. split; [done|]. right. by apply rp_started. Qed.

Lemma finish_run_triple id s0 binding old r0 r workdir ip t report :
  started r0 r -> run_id r = id -> Forall2 (input_recorded s0) (spec_inputs (run_spec r)) ip ->
  triple (stored id r) (finish_run r binding workdir ip t report) (executed id s0 binding old r0).
Proof.
  intros Hst Hid Hip. unfold finish_run.
  assert (He : forall e o, stored id r o -> executed id s0 binding old r0 (Err e) o)
    by (intros; by eapply started_executed).
  apply triple_bind_untouched; [eauto with steps| |done]. intros now _.
  apply triple_bind_untouched; [eauto with steps| |done]. intros pd _.
  apply triple_bind_untouched; [apply untouched_persist_streams| |done]. intros streams _.
  apply triple_bind_untouched; [| |done].
  { destruct (ExecutionOutcome_exited_cleanly _); [apply untouched_ingest_all|eauto with steps]. }
  intros [outs missing] (o1 & o2 & Hing).
  pose proof (final_state_succeeded (run_spec r) (er_outcome report) missing) as (Hs1 & Hs2 & Hs3).
  destruct (final_state_terminal (er_outcome report) missing) as [Hterm Hcan].
  destruct Hst as (Hca & Hrun & Hwalk & Hout).
  apply triple_transition_put; [done|by cbn; rewrite Hrun|]. intros r1 Ht.
  assert (Hfin : finished_run s0 binding r0 r1).
  { assert (Hst1 : run_state r1 = final_state (er_outcome report) missing)
      by (by apply transition_Ok in Ht as (? & _)).
    split.
    - eapply carried_transition, Ht. by apply carried_set_outcome.
    - rewrite Hst1. eapply walked_transition in Ht; [|exact Hwalk]. cbn in Ht. by rewrite Hrun in Ht.
    - by rewrite Hst1.
    - apply transition_Ok in Ht as (_ & _ & (_ & Hsp & _ & _ & _ & _ & _ & Hoc & _) & _).
      eexists. split; [exact Hoc|]. rewrite Hst1, Hsp. cbn. split_and!; try done.
      intros [Hcl ->]%Hs2. rewrite Hcl in Hing. apply exited_cleanly_inv in Hcl as (? & ? & ?).
      split_and!; try done. by eapply ingest_all_Ok in Hing as (_ & _ & Hreq); eauto. }
  split.
  - apply triple_bind_untouched; [eauto with steps| |].
    + intros _ _. apply triple_ret. done.
    + intros e o Ho. exists r1. split; [done|by right; apply rp_finished].
  - intros e o x [->| ->] Ho; [by apply He|]. exists r1. split; [done|by right; apply rp_finished].
Qed.

(** The executor call: the run stays started, unless the request could not be
    built and the run was failed. *)
Lemma run_process_triple id s0 binding old r0 r workdir token :
  started r0 r -> run_id r = id ->
  triple (stored id r) (run_process r binding workdir token)
    (fun res o => match res with
                  | Ok _ => stored id r o
                  | Err e => executed id s0 binding old r0 (Err e) o
                  end).
Proof.
  intros Hst Hid. unfold run_process.
  assert (He : forall e o, stored id r o -> executed id s0 binding old r0 (Err e) o)
    by (intros; by eapply started_executed).
  destruct (build_request _ _ _ _ _) as [rq|e0].
  - apply triple_bind_untouched; [eauto with steps| |by auto]. intros [rep|[ms| |reason]] _;
      (apply triple_ret + apply triple_throw); auto.
  - apply triple_bind_untouched; [eauto with steps| |by auto]. intros now _.
    destruct Hst as (Hca & Hrun & Hwalk & Hout).
    apply triple_transition_put; [done|by rewrite Hrun|]. intros r1 Ht.
    assert (Hp : run_progress s0 binding r0 r1).
    { pose proof (transition_Ok _ _ _ _ Ht) as (Hs & _ & (_ & _ & _ & _ & _ & _ & _ & Ho & _) & _).
      apply rp_unbuildable; [by eapply carried_transition|done| |congruence].
      eapply walked_transition in Ht; [|exact Hwalk]. by rewrite Hrun in Ht. }
    split; [apply triple_throw|]; [by intros o Ho; exists r1; auto|].
    intros e o x [->| ->] Ho; [by apply He|]. exists r1. auto.
Qed.

Lemma walked_nil r : walked r r [].
Proof. exists []. by rewrite app_nil_r. Qed.

Lemma start_run_triple id s0 binding old r0 workdir ip :
  run_id r0 = id -> run_state r0 = RsQueued ->
  Forall2 (input_recorded s0) (spec_inputs (run_spec r0)) ip ->
  triple (stored id old) (start_run id r0 binding workdir ip) (executed id s0 binding old r0).
Proof.
  intros Hid Hq Hip. unfold start_run.
  assert (He : forall e o, stored id old o -> executed id s0 binding old r0 (Err e) o)
    by (intros ? ? ?; exists old; auto).
  apply triple_bind_untouched; [eauto with steps| |done]. intros t _.
  apply triple_transition_put; [done|by rewrite Hq|]. intros r Ht.
  pose proof (transition_Ok _ _ _ _ Ht) as (Hs & _ & (Hid' & Hsp & _ & _ & _ & _ & _ & Ho & _) & _).
  assert (Hst : started r0 r).
  { split_and!; [|done| |done].
    - eapply carried_transition, Ht. by split_and!.
    - eapply walked_transition in Ht; [|apply walked_nil]. by rewrite Hq in Ht. }
  split; [|intros e o x [->| ->] Hx; [by apply He|by eapply started_executed]].
  apply triple_bind_untouched; [intros o; reflexivity| |intros; by eapply started_executed].
  intros token _. eapply triple_bind.
  - eapply (run_process_triple id s0 binding old r0); [done|congruence].
  - intros report. apply finish_run_triple; [done|congruence|by rewrite Hsp].
  - done.
Qed.

(** *** Before the start *)

(** The manifest an execution runs under: the registered one with the digest
    the run was admitted with. *)
Definition admitted_manifest (s : Store) (r : RunRecord) (m : ComponentManifest) (d : ContentDigest)
    : Prop :=
  components_get s (spec_component (run_spec r)) (run_component_version r) = Ok (Some m) /\
  ComponentManifest_content_digest m = Ok d /\
  (forall d0, run_component_manifest_digest r = Some d0 -> d0 = d) /\
  exists c, ComponentManifest_capability m (spec_capability (run_spec r)) = Some c /\
    cap_contract_version c = run_contract_version r.

Lemma set_admission_same r d :
  run_component_manifest_digest r = Some d ->
  RunRecord_set_admission r (Some d) (run_reproduced_from r) = r.
Proof. intros Hd. destruct r. cbn in *. by rewrite <- Hd. Qed.

Lemma recorded_manifest_Ok r s m r' :
  recorded_manifest r s = Ok (m, r') ->
  exists d, admitted_manifest s r m d /\
    r' = RunRecord_set_admission r (Some d) (run_reproduced_from r).
Proof.
  unfold recorded_manifest. intros Hr. ok_inv.
  match goal with Hd : ComponentManifest_content_digest _ = Ok ?x |- _ => exists x end.
  destruct (run_component_manifest_digest r) as [d0|] eqn:Ed; ok_inv; bool_inv; simplify_eq.
  - split; [|by rewrite set_admission_same]. split_and!; try done; [congruence|by eexists].
  - split; [|done]. split_and!; try done; [congruence|by eexists].
Qed.

(** The part of the state only [on_store] changes. *)
Definition store_kept (o o' : Orchestrator Store Fences) : Prop := o_store o' = o_store o.

#[local] Instance store_kept_preorder : PreOrder store_kept.
Proof. split; [done|]. intros a b c. unfold store_kept. congruence. Qed.

Lemma store_kept_on_machine {A} (act : action Machine CoreError A) : steps store_kept (on_machine act).
Proof. intros o. unfold on_machine. by destruct (act _). Qed.

Lemma store_kept_query {A} (f : Store -> Result A) : steps store_kept (query f).
Proof. by intros o. Qed.

#[local] Hint Resolve store_kept_preorder store_kept_on_machine store_kept_query : steps.

Lemma store_kept_materialize workdir i : steps store_kept (materialize_input workdir i).
Proof. unfold materialize_input. eauto 10 with steps. Qed.

Lemma materialize_input_Ok workdir i o o' p :
  materialize_input workdir i o = (o', Ok p) -> input_recorded (o_store o) i p.
Proof.
  unfold materialize_input, query. intros Hr. act_inv.
  match goal with Hg : artifacts_get _ _ = Ok (Some ?x) |- _ => by exists x end.
Qed.

Lemma materialize_all_Ok workdir inputs o o' ps :
  mapA (materialize_input workdir) inputs o = (o', Ok ps) ->
  Forall2 (input_recorded (o_store o)) inputs ps.
Proof.
  intros Hr. eapply (mapA_Ok_steps store_kept) in Hr; [|intros; apply store_kept_materialize].
  eapply Forall2_impl; [exact Hr|]. intros i p (t & t' & Ht & Hp%materialize_input_Ok).
  by rewrite Ht in Hp.
Qed.

Lemma only_run_store_cancels id o o' c :
  only_run id (set_cancels o c) o' ->
  only_run id o (set_cancels o' (o_active_cancels o)).
Proof. intros (Hs & ? & _ & ? & ?). by split_and!. Qed.

Lemma execute_run_inner_cases id r0 o :
  stored id r0 o ->
  (exists e, execute_run_inner id o = (o, Err e)) \/
  run_state r0 = RsQueued /\ exists m d, admitted_manifest (o_store o) r0 m d /\
    execute_run_inner id o =
      prepare_run id m (RunRecord_set_admission r0 (Some d) (run_reproduced_from r0)) o.
Proof.
  intros [Hok Hg]. unfold execute_run_inner, query, mbind, action_bind, reads, load_queued_run.
  rewrite Hg. cbn -[prepare_run]. unfold ensure. case_bool_decide as Hq; cbn -[prepare_run]; [|by eauto].
  destruct (recorded_manifest r0 (o_store o)) as [[m r]|e] eqn:Em; [|by eauto].
  apply recorded_manifest_Ok in Em as (d & Hadm & ->). eauto 10.
Qed.

Lemma only_run_prepare id m r : run_id r = id -> steps (only_run id) (prepare_run id m r).
Proof.
  intros Hid. unfold prepare_run.
  apply steps_bind; [apply _|apply untouched_only_run; unfold syscalls; eauto with steps|]. intros _.
  apply steps_bind; [apply _|apply untouched_only_run, steps_mapA; [apply _|]|].
  { intros i _. apply untouched_materialize. }
  intros ip. apply steps_bind; [apply _|apply untouched_only_run, steps_forA; [apply _|]|].
  { intros i _. apply untouched_prepare. }
  intros _. by apply only_run_start.
Qed.

Lemma triple_bind_quiet {A B} id r0 o0 (m : hub A) (f : A -> hub B) Q :
  steps untouched m -> steps store_kept m ->
  (forall a o1 o2, store_kept o0 o1 -> m o1 = (o2, Ok a) ->
     triple (fun o => stored id r0 o /\ store_kept o0 o) (f a) Q) ->
  (forall e o, stored id r0 o -> Q (Err e) o) ->
  triple (fun o => stored id r0 o /\ store_kept o0 o) (m ≫= f) Q.
Proof.
  intros Hu Hk Hf He o [Ho Hs]. pose proof (stored_untouched _ _ _ _ Ho (Hu o)) as Ho'.
  assert (Hs' : store_kept o0 (m o).1) by (etrans; [exact Hs|apply Hk]).
  unfold mbind, action_bind. destruct (m o) as [o1 [a|e]] eqn:Em; cbn in *; [|by apply He].
  by eapply (Hf a o o1).
Qed.

Lemma prepare_run_triple id r0 m d o :
  run_id r0 = id -> run_state r0 = RsQueued ->
  triple (fun o1 => stored id r0 o1 /\ store_kept o o1)
    (prepare_run id m (RunRecord_set_admission r0 (Some d) (run_reproduced_from r0)))
    (executed id (o_store o) (m_execution m) r0
       (RunRecord_set_admission r0 (Some d) (run_reproduced_from r0))).
Proof.
  intros Hid Hq. unfold prepare_run. set (Q := executed _ _ _ _ _).
  assert (He : forall e o1, stored id r0 o1 -> Q (Err e) o1) by (intros e o1 ?; exists r0; auto).
  apply triple_bind_quiet; [unfold syscalls; eauto with steps..| |done]. intros _ _ _ _ _.
  apply triple_bind_quiet; [apply steps_mapA; [apply _|]..| |done].
  { intros i _. apply untouched_materialize. }
  { intros i _. apply store_kept_materialize. }
  intros ip o1 o2 Ho1 Hip%materialize_all_Ok. rewrite Ho1 in Hip.
  apply triple_bind_quiet; [apply steps_forA; [apply _|]..| |done].
  { intros i _. apply untouched_prepare. }
  { intros i _. apply store_kept_on_machine. }
  intros _ _ _ _ _. eapply triple_weaken; [by apply start_run_triple|by intros ? []|done].
Qed.

Lemma execute_run_spec id r0 o o' res :
  stored id r0 o -> execute_run id o = (o', res) ->
  only_run id o o' /\
  match o_active_cancels o !! id with
  | Some _ => o' = o /\ res = Err (RunNotExecutable id RsRunning)
  | None =>
      (is_ok res = false /\ runs_get (o_store o') id = Ok (Some r0)) \/
      run_state r0 = RsQueued /\ exists m d, admitted_manifest (o_store o) r0 m d /\
        executed id (o_store o) (m_execution m) r0
          (RunRecord_set_admission r0 (Some d) (run_reproduced_from r0)) res o'
  end.
Proof.
  intros Hst. unfold execute_run. destruct (o_active_cancels o !! id) as [tok|] eqn:Ea.
  { intros [= <- <-]. split; [reflexivity|done]. }
  set (oc := set_cancels o _). assert (Hst' : stored id r0 oc) by exact Hst.
  pose proof (runs_get_key _ _ _ (proj1 Hst) (proj2 Hst)) as Hid.
  destruct (execute_run_inner_cases id r0 oc Hst') as [[e He]|(Hq & m & d & Hadm & He)]; rewrite He.
  { intros [= <- <-]. cbn. rewrite delete_insert_id by done.
    split; [by split_and!|left; split; [done|apply Hst]]. }
  pose proof (only_run_prepare id m
    (RunRecord_set_admission r0 (Some d) (run_reproduced_from r0)) Hid oc) as Hfr.
  pose proof (prepare_run_triple id r0 m d oc Hid Hq oc (conj Hst' eq_refl)) as Hex.
  destruct (prepare_run _ _ _ oc) as [o1 res1]. intros [= <- <-].
  assert (Hc : delete id (o_active_cancels o1) = o_active_cancels o).
  { destruct Hfr as (_ & _ & Hfr & _). cbn in Hfr. rewrite Hfr. by rewrite delete_insert_id. }
  split; [rewrite Hc; by eapply only_run_store_cancels|].
  right. split; [done|]. exists m, d. split; [done|]. by destruct res1.
Qed.
Lemma execute_run_stored id o o' r :
  execute_run id o = (o', Ok r) -> exists r0, runs_get (o_store o) id = Ok (Some r0).
Proof.
  unfold execute_run. destruct (o_active_cancels o !! id); [done|].
  destruct (execute_run_inner _ _) as [o1 res] eqn:E. intros [= _ ->].
  apply action_bind_Ok in E as (o2 & r0 & [_ Hl]%reads_Ok & _).
  unfold load_queued_run in Hl. ok_inv. eauto.
Qed.

(** (C3) Executing a run.  A run that is already executing is refused without
    any effect.  Otherwise only this run's record, new artifacts and files
    change, and the claim on the run is released on every path.  On success
    the stored record is the queued one taken through Running to a terminal
    state under the manifest it was admitted with: Succeeded exactly when no
    failure is reported, then with exit code 0 and a reference for every
    required output; Cancelled exactly when cancelled without a timeout; its
    input provenance is what the metadata store had.  On an error the stored
    record is the one before, or it shows how far the execution got. *)
Theorem execute_run_sound id r0 o o' res :
  stored id r0 o -> execute_run id o = (o', res) ->
  only_run id o o' /\
  match o_active_cancels o !! id with
  | Some _ => o' = o /\ res = Err (RunNotExecutable id RsRunning)
  | None =>
      (is_ok res = false /\ runs_get (o_store o') id = Ok (Some r0)) \/
      run_state r0 = RsQueued /\ exists m d, admitted_manifest (o_store o) r0 m d /\
        executed id (o_store o) (m_execution m) r0
          (RunRecord_set_admission r0 (Some d) (run_reproduced_from r0)) res o'
  end.
Proof. apply execute_run_spec. Qed.
End execute.

(** ** A concrete execution *)
Section witnesses.
#[local] Existing Instance plain_json.
#[local] Existing Instance toy_manifest_json.
#[local] Existing Instance toy_workspace_json.
#[local] Existing Instance toy_sha.
#[local] Existing Instance calm_environment.
#[local] Existing Instance plain_uuid.

(** A process that writes its required output and exits with code 0. *)
Definition clean_outcome : ExecutionOutcome :=
  {| eo_exit_code := Some 0%Z; eo_signal := None; eo_timed_out := false; eo_cancelled := false;
     eo_start_error := None; eo_duration_ms := 3; eo_stdout := [111; 107]%N;
     eo_stdout_truncated := false; eo_stderr := []; eo_stderr_truncated := false |}.

Definition writing_execute (rq : ExecutionRequest) (token : CancelToken)
    : action Machine ExecutorFailure ExecutionOutcome := fun m =>
  (set_nodes m (<[path_join (rq_working_dir rq) "out//log.txt" := FRegular [7%N]]> (mc_nodes m)),
   Ok clean_outcome).

Definition writing_executor : Executor := {|
  backend_id := "toy"; backend_descriptor := default_backend_descriptor "toy";
  execute := writing_execute; execute_report := default_execute_report "toy" writing_execute |}.

(** A backend that cannot be reached. *)
Definition broken_executor : Executor := {|
  backend_id := "toy"; backend_descriptor := default_backend_descriptor "toy";
  execute _ _ := throw (Backend "worker unreachable");
  execute_report _ _ := throw (Backend "worker unreachable") |}.

Definition matrix_hub : Orchestrator InMemoryHubStore InMemoryPublicationFences :=
  (ingest_artifact Limits_default "/hub" "matrix" "text/csv" [1%N]
     {| o_store := (InMemoryHubStore_put_component InMemoryHubStore_default sample_manifest 1).1;
        o_fences := ∅; o_machine := bare_machine; o_active_cancels := ∅;
        o_active_workflow_cancels := ∅; o_active_workflow_runs := ∅ |}).1.

Definition matrix_spec : RunSpec := {|
  spec_component := from_uuid 7; spec_capability := mkCapabilityName "linalg.solve";
  spec_parameters := ∅;
  spec_inputs := [ {| in_name := "matrix"; in_artifact := from_uuid 0 |} ];
  spec_timeout_ms := 5000 |}.

Definition queued := submit_run_internal Limits_default matrix_spec None None matrix_hub.

Lemma matrix_hub_ok : repo_ok (o_store matrix_hub).
Proof.
  apply (keeps_ok_ingest_artifact (Store := InMemoryHubStore)); [apply _|]. apply hub_keyed_put_component.
  by split_and!.
Qed.

Lemma queued_ok : repo_ok (o_store queued.1).
Proof. apply (keeps_ok_submit_run (Store := InMemoryHubStore)); [apply _|apply matrix_hub_ok]. Qed.

Definition run8 : RunId := from_uuid 8.

Lemma queued_stored : exists r, stored run8 r queued.1 /\ run_state r = RsQueued.
Proof.
  assert (Hs : (run_state <$> hs_runs (o_store queued.1) !! run8) = Some RsQueued) by (by vm_compute).
  apply fmap_Some in Hs as (r & Hr & Hq). exists r. split; [|done]. split; [exact queued_ok|].
  cbn [runs_get InMemoryRepositories]. by rewrite Hr.
Qed.

Abbreviation run_it ex :=
  (execute_run (backend := ex) Limits_default "/hub" "/work" "/bin" run8 queued.1).

Lemma execute_run_sound_witness :
  let res := run_it writing_executor in
  exists r0 r m d, stored run8 r0 queued.1 /\ res.2 = Ok r /\
    admitted_manifest (o_store queued.1) r0 m d /\
    finished_run (o_store queued.1) (m_execution m)
      (RunRecord_set_admission r0 (Some d) (run_reproduced_from r0)) r.
Proof.
  intros res. destruct queued_stored as (r0 & Hst & Hq).
  assert (Hok : is_ok res.2 = true) by (by vm_compute).
  assert (Ha : o_active_cancels queued.1 !! run8 = None) by (by vm_compute).
  pose proof (execute_run_sound (backend := writing_executor) Limits_default "/hub" "/work" "/bin"
    run8 r0 queued.1 res.1 res.2 Hst (surjective_pairing _)) as [_ Hs].
  rewrite Ha in Hs. clearbody res. destruct res as [o' [r|e]]; [|discriminate Hok].
  destruct Hs as [[Hf _]|(_ & m & d & Hadm & _ & Hfin)]; [discriminate Hf|].
  exists r0, r, m, d. split; [exact Hst|]. split; [reflexivity|]. split; [exact Hadm|exact Hfin].
Defined.

(** A backend that cannot be reached strands the run: the call fails, the
    stored record stays in state Running, and executing it again is refused
    for that reason. *)
Theorem execute_run_backend_failure_strands :
  (run_it broken_executor).2 = Err (ExecutionFailed run8 (Backend "worker unreachable")) /\
  run_state <$> hs_runs (o_store (run_it broken_executor).1) !! run8 = Some RsRunning /\
  (execute_run (backend := writing_executor) Limits_default "/hub" "/work" "/bin" run8
     (run_it broken_executor).1).2 = Err (RunNotExecutable run8 RsRunning).
Proof. split_and!; by vm_compute. Qed.

(** A run that is claimed and finishes between the two pieces of [cancel_run]:
    the execution succeeds, and then the stored record, outcome and outputs
    included, is replaced by that of a run that was cancelled in the queue. *)
Definition raced (record : RunRecord) :=
  cancel_run_store record (execute_run (backend := writing_executor) Limits_default "/hub" "/work" "/bin" run8
    (cancel_run_read run8 queued.1).1).1.

Theorem cancellation_overwrites_success :
  run_state <$> (execute_run (backend := writing_executor) Limits_default "/hub" "/work" "/bin" run8
                   (cancel_run_read run8 queued.1).1).2 = Ok RsSucceeded /\
  match (cancel_run_read run8 queued.1).2 with
  | Ok (Some record) =>
      (fun r => (run_state r, is_some (run_outcome r))) <$> hs_runs (o_store (raced record).1) !! run8 =
        Some (RsCancelled, false)
  | _ => False
  end.
Proof. split; by vm_compute. Qed.
End witnesses.
