(* ===== verification/Attempts.v ===== *)
(** * Workflow records and their attempts ([hub-core/src/orchestrator.rs], second half)

    The helpers of workflow execution: the ledger of step attempts, the
    classification of failures, input resolution, the maps of active runs,
    the terminal writes, and the operations that end workflows from outside
    the scheduler (cancellation and the two recoveries after a restart), and
    the reproduction of a run.  The scheduler itself is in [Schedule]. *)

From Stdlib Require Import Ascii.
From stdpp Require Import base gmap strings list sorting.
From S2P Require Import Prelude Text Core Version Digest Machine Blobs Component Run Workflow Task.
From S2P Require Import TaskLifecycle Publication Event Memory Ports Exec Scicapsule Hub Submit.

(** [iter_mut().find(p)] with an update of the element found. *)
Fixpoint update_first {A} (p : A -> bool) (f : A -> A) (l : list A) : option (list A) :=
  match l with
  | [] => None
  | x :: l => if p x then Some (f x :: l) else cons x <$> update_first p f l
  end.

Section attempts.
Context `{JsonLib, ManifestJson, Sha256Lib, Environment, UuidLib}.
Context {Store Fences : Type} `{!Repositories Store, !PublicationFenceRepository Fences}.
Context (limits : Limits).

Abbreviation hub A := (action (Orchestrator Store Fences) CoreError A).

(** ** The record's fields *)
Definition WorkflowRecord_set_steps (w : WorkflowRecord) (steps : list StepResult) : WorkflowRecord :=
  {| wr_id := wr_id w; wr_spec := wr_spec w; wr_admission := wr_admission w; wr_state := wr_state w;
     wr_model_version := wr_model_version w; wr_created_at := wr_created_at w;
     wr_started_at := wr_started_at w; wr_finished_at := wr_finished_at w;
     wr_cancel_requested_at := wr_cancel_requested_at w; wr_steps := steps;
     wr_failure := wr_failure w |}.

Definition WorkflowRecord_set_failure (w : WorkflowRecord) (f : option string) : WorkflowRecord :=
  {| wr_id := wr_id w; wr_spec := wr_spec w; wr_admission := wr_admission w; wr_state := wr_state w;
     wr_model_version := wr_model_version w; wr_created_at := wr_created_at w;
     wr_started_at := wr_started_at w; wr_finished_at := wr_finished_at w;
     wr_cancel_requested_at := wr_cancel_requested_at w; wr_steps := wr_steps w;
     wr_failure := f |}.

(** ** The ledger of attempts *)
Definition record_attempt (record : WorkflowRecord) (key : string) (attempt : StepAttempt)
    : WorkflowRecord :=
  match
    update_first (fun result => bool_decide (sr_key result = key))
      (fun result => {| sr_key := sr_key result; sr_run := sa_run attempt; sr_state := sa_state attempt;
                        sr_failure := sa_failure attempt;
                        sr_attempts := sr_attempts result ++ [attempt] |})
      (wr_steps record)
  with
  | Some steps => WorkflowRecord_set_steps record steps
  | None =>
      WorkflowRecord_set_steps record
        (sort_by_key sr_key
           (wr_steps record ++
            [ {| sr_key := key; sr_run := sa_run attempt; sr_state := sa_state attempt;
                 sr_failure := sa_failure attempt; sr_attempts := [attempt] |} ]))
  end.

Definition finish_recorded_attempt (record : WorkflowRecord) (key : string) (run_id' : RunId)
    (run : option RunRecord) (category : option AttemptFailureCategory) (failure : option string)
    : WorkflowRecord :=
  let state := match run with Some run => run_state run | None => RsFailed end in
  match
    update_first (fun result => bool_decide (sr_key result = key))
      (fun result => {| sr_key := sr_key result; sr_run := run_id'; sr_state := state;
                        sr_failure := failure;
                        sr_attempts := default (sr_attempts result)
                          (update_first (fun attempt => bool_decide (sa_run attempt = run_id'))
                             (fun attempt => {| sa_id := sa_id attempt; sa_number := sa_number attempt;
                                sa_run := sa_run attempt; sa_state := state;
                                sa_started_at := run ≫= run_started_at;
                                sa_finished_at := run ≫= run_finished_at;
                                sa_failure_category := category; sa_failure := failure |})
                             (sr_attempts result)) |})
      (wr_steps record)
  with
  | Some steps => WorkflowRecord_set_steps record steps
  | None => record
  end.

Definition classify_attempt_failure (run : RunRecord) : option AttemptFailureCategory :=
  if bool_decide (run_state run = RsSucceeded) then None
  else match run_outcome run with
  | None => Some AfExecutionError
  | Some outcome =>
      Some (
        if bool_decide (run_state run = RsCancelled) || ro_cancelled outcome then AfCancelled
        else if ro_timed_out outcome then AfTimedOut
        else if match ro_failure outcome with
                | Some failure => starts_with "failed to start:" failure | None => false end
        then AfStartFailure
        else if match ro_failure outcome with
                | Some failure => starts_with "required output(s) not produced:" failure
                | None => false end
        then AfMissingRequiredOutput
        else if match ro_exit_code outcome with
                | Some code => negb (bool_decide (code = 0%Z)) | None => false end
        then AfNonZeroExit
        else if is_some (ro_signal outcome) then AfSignaled
        else AfExecutionError)
  end.

(** ** Active runs of a workflow *)
Definition register_active_workflow_run (workflow_id : WorkflowId) (id : RunId) : hub unit :=
  modify (fun o => set_workflow_runs o
    (<[workflow_id := {[ id ]} ∪ default ∅ (o_active_workflow_runs o !! workflow_id)]>
       (o_active_workflow_runs o))).

Definition unregister_active_workflow_run (workflow_id : WorkflowId) (id : RunId) : hub unit :=
  modify (fun o =>
    match o_active_workflow_runs o !! workflow_id with
    | None => o
    | Some runs =>
        let runs := runs ∖ {[ id ]} in
        set_workflow_runs o (if bool_decide (runs = ∅)
                             then delete workflow_id (o_active_workflow_runs o)
                             else <[workflow_id := runs]> (o_active_workflow_runs o))
    end).

(** The number of runs that were signalled. *)
Definition cancel_active_workflow_runs (workflow_id : WorkflowId) : hub N :=
  runs ← reads (fun o => Ok (default ∅ (o_active_workflow_runs o !! workflow_id)));
  signalled ← mapA cancel_run (set_iter runs);
  mret (len (List.filter id signalled)).

(** ** Workflow reads and terminal writes *)
Definition workflow_cancel_requested (workflow_id : WorkflowId) : hub bool :=
  found ← query (fun s => workflows_get s workflow_id);
  mret match found with
       | Some record => is_some (wr_cancel_requested_at record)
       | None => false
       end.

Definition put_workflow (record : WorkflowRecord) : hub unit :=
  wall ← on_machine SystemClock_now_ms;
  on_store (fun s => workflows_put s record wall).

Definition refresh_cancel_intent (record : WorkflowRecord) : hub WorkflowRecord :=
  found ← query (fun s => workflows_get s (wr_id record));
  mret match found with
       | Some persisted =>
           if is_some (wr_cancel_requested_at record) then record
           else WorkflowRecord_set_cancel record (wr_cancel_requested_at persisted)
       | None => record
       end.

Definition finish_workflow_cancelled (record : WorkflowRecord) (message : string) : hub WorkflowRecord :=
  record ← refresh_cancel_intent record;
  record ← (if is_some (wr_cancel_requested_at record) then mret record
            else now ← on_machine SystemClock_now_ms; mret (WorkflowRecord_set_cancel record (Some now)));
  record ← (if WorkflowState_is_terminal (wr_state record) then mret record
            else now ← on_machine SystemClock_now_ms;
                 let '(record, r) := WorkflowRecord_transition record WsCancelled now in
                 _ ← lift r; mret record);
  let record := WorkflowRecord_set_failure record (Some message) in
  _ ← put_workflow record;
  mret record.

Definition finish_workflow_failed (record : WorkflowRecord) (message : string) : hub WorkflowRecord :=
  record ← refresh_cancel_intent record;
  if is_some (wr_cancel_requested_at record) then finish_workflow_cancelled record message
  else
    now ← on_machine SystemClock_now_ms;
    let '(record, r) := WorkflowRecord_transition record WsFailed now in
    _ ← lift r;
    let record := WorkflowRecord_set_failure record (Some message) in
    _ ← put_workflow record;
    mret record.

(** The outer result is a storage failure, the inner one what the step
    lacks. *)
Definition resolve_input (record : WorkflowRecord) (acc : result string (gmap string ArtifactId))
    (named : string * InputSource) : hub (result string (gmap string ArtifactId)) :=
  match acc with
  | Err message => mret (Err message)
  | Ok resolved =>
      match named.2 with
      | Artifact artifact =>
          found ← query (fun s => artifacts_get s artifact);
          mret (if is_some found then Ok (<[named.1 := artifact]> resolved)
                else Err "step {:?} input {input_name:?}: artifact {} not found")
      | FromStep dep output =>
          publication ← reads (fun o => authoritative_publication (o_fences o) (wr_id record) dep);
          mret match publication with
               | None => Err "step {:?} input {input_name:?}: dependency {dep:?} has no authoritative publication"
               | Some publication =>
                   match asp_outputs publication !! output with
                   | Some artifact => Ok (<[named.1 := artifact]> resolved)
                   | None => Err "step {:?} input {input_name:?}: authoritative publication for step {dep:?} has no output named {output:?}"
                   end
               end
      end
  end.

Fixpoint resolve_inputs (record : WorkflowRecord) (acc : result string (gmap string ArtifactId))
    (inputs : list (string * InputSource)) : hub (result string (gmap string ArtifactId)) :=
  match inputs with
  | [] => mret acc
  | named :: inputs => acc ← resolve_input record acc named; resolve_inputs record acc inputs
  end.

Definition resolve_workflow_inputs (record : WorkflowRecord) (step : Step)
    : hub (result string (gmap string ArtifactId)) :=
  resolve_inputs record (Ok ∅) (map_iter (step_inputs step)).

(** ** Cancellation and recovery *)
Fixpoint nonterminal_runs (attempts : list StepAttempt) : hub (gset RunId) :=
  match attempts with
  | [] => mret ∅
  | attempt :: attempts =>
      found ← query (fun s => runs_get s (sa_run attempt));
      runs ← nonterminal_runs attempts;
      mret match found with
           | Some run => if RunState_is_terminal (run_state run) then runs
                         else {[ sa_run attempt ]} ∪ runs
           | None => runs
           end
  end.

Definition nonterminal_attempt_runs (record : WorkflowRecord) : hub (gset RunId) :=
  nonterminal_runs (wr_steps record ≫= sr_attempts).

(** [for run_id in nonterminal_attempt_runs(..)? { let _ = self.cancel_run(run_id)?; }] *)
Definition cancel_attempt_runs (record : WorkflowRecord) : hub unit :=
  runs ← nonterminal_attempt_runs record;
  forA_ (fun id => _ ← cancel_run id; mret tt) (set_iter runs).

Definition cancel_workflow (workflow_id : WorkflowId) : hub bool :=
  now ← on_machine SystemClock_now_ms;
  found ← on_store (fun s => workflows_request_cancel s workflow_id now);
  record ← lift (ok_or found (WorkflowNotFound workflow_id));
  if WorkflowState_is_terminal (wr_state record) then mret false
  else
    active_token ← reads (fun o => Ok (o_active_workflow_cancels o !! workflow_id));
    _ ← match active_token with
        | Some token => modify (fun o => set_workflow_cancels o
            (<[workflow_id := CancelToken_cancel token]> (o_active_workflow_cancels o)))
        | None => mret tt
        end;
    signalled_runs ← cancel_active_workflow_runs workflow_id;
    match active_token with
    | None =>
        _ ← cancel_attempt_runs record;
        found ← query (fun s => workflows_get s workflow_id);
        record ← lift (ok_or found (WorkflowNotFound workflow_id));
        _ ← finish_workflow_cancelled record "workflow cancellation requested";
        mret false
    | Some _ => mret (is_some active_token || (0 <? signalled_runs)%N)
    end.

(** [for x in xs { if skip(x) { continue; } body(x)?; count += 1; }] *)
Fixpoint for_counted {A} (skip : A -> bool) (body : A -> hub unit) (xs : list A) : hub N :=
  match xs with
  | [] => mret 0%N
  | x :: xs =>
      if skip x then for_counted skip body xs
      else _ ← body x; count ← for_counted skip body xs; mret (count + 1)%N
  end.

Definition cancel_recovered (record : WorkflowRecord) : hub unit :=
  _ ← cancel_attempt_runs record;
  _ ← finish_workflow_cancelled record "workflow cancellation recovered after restart";
  mret tt.

Definition recover_workflow_cancellations : hub N :=
  records ← query workflows_list;
  for_counted
    (fun record => WorkflowState_is_terminal (wr_state record) ||
                   negb (is_some (wr_cancel_requested_at record)))
    cancel_recovered records.

Definition INTERRUPTED : string :=
  "workflow execution interrupted by daemon restart; local attempts are not replayed automatically".

(** The loop over one step's attempts: the step's own state and failure, and
    its attempts. *)
Fixpoint fail_attempts (now : UnixMillis) (run : RunId) (state : RunState) (failure : option string)
    (attempts : list StepAttempt) : hub (RunState * option string * list StepAttempt) :=
  match attempts with
  | [] => mret (state, failure, [])
  | attempt :: attempts =>
      found ← query (fun s => runs_get s (sa_run attempt));
      match found with
      | None =>
          '(state, failure, attempts) ← fail_attempts now run state failure attempts;
          mret (state, failure, attempt :: attempts)
      | Some record =>
          if RunState_is_terminal (run_state record) then
            '(state, failure, attempts) ← fail_attempts now run state failure attempts;
            mret (state, failure, attempt :: attempts)
          else
            let '(record, r) := RunRecord_transition record RsFailed now in
            _ ← lift r;
            _ ← on_store (fun s => runs_put s record);
            let attempt := {| sa_id := sa_id attempt; sa_number := sa_number attempt;
                              sa_run := sa_run attempt; sa_state := RsFailed;
                              sa_started_at := sa_started_at attempt; sa_finished_at := Some now;
                              sa_failure_category := Some AfExecutionError;
                              sa_failure := Some INTERRUPTED |} in
            let own := bool_decide (run = sa_run attempt) in
            '(state, failure, attempts) ←
              fail_attempts now run (if own then RsFailed else state)
                (if own then Some INTERRUPTED else failure) attempts;
            mret (state, failure, attempt :: attempts)
      end
  end.

Definition fail_step (now : UnixMillis) (result : StepResult) : hub StepResult :=
  '(state, failure, attempts) ←
    fail_attempts now (sr_run result) (sr_state result) (sr_failure result) (sr_attempts result);
  mret {| sr_key := sr_key result; sr_run := sr_run result; sr_state := state;
          sr_failure := failure; sr_attempts := attempts |}.

Definition fail_interrupted (record : WorkflowRecord) : hub unit :=
  now ← on_machine SystemClock_now_ms;
  steps ← mapA (fail_step now) (wr_steps record);
  let '(record, r) := WorkflowRecord_transition (WorkflowRecord_set_steps record steps) WsFailed now in
  _ ← lift r;
  put_workflow (WorkflowRecord_set_failure record (Some INTERRUPTED)).

Definition recover_interrupted_workflows : hub N :=
  records ← query workflows_list;
  for_counted
    (fun record => negb (bool_decide (wr_state record = WsRunning)) ||
                   is_some (wr_cancel_requested_at record))
    fail_interrupted records.

(** ** Reproduction *)
Definition reproduction_pin (s : Store) (original : RunRecord) : Result ComponentAdmissionPin :=
  found ← components_get s (spec_component (run_spec original)) (run_component_version original);
  manifest ← ok_or found (ComponentNotFound (spec_component (run_spec original)));
  manifest_digest ← ComponentManifest_content_digest manifest;
  _ ← match run_component_manifest_digest original with
      | Some expected_digest =>
          ensure (bool_decide (manifest_digest = expected_digest))
            (Validation "component {} version {} manifest digest changed from recorded {} to {}")
      | None => Ok tt
      end;
  capability ← ok_or (ComponentManifest_capability manifest (spec_capability (run_spec original)))
                 (CapabilityNotDeclared (spec_component (run_spec original))
                    (capability_name_str (spec_capability (run_spec original))));
  _ ← ensure (bool_decide (cap_contract_version capability = run_contract_version original))
        (Validation "capability {} contract version changed from recorded {} to {}");
  _ ← forM_ (fun input =>
        found ← artifacts_get s (in_artifact input);
        ensure (is_some found) (ArtifactNotFound (in_artifact input))) (spec_inputs (run_spec original));
  Ok {| pin_component_version := run_component_version original;
        pin_manifest_digest := manifest_digest;
        pin_capability_contract_version := run_contract_version original |}.

Definition reproduce_run (id : RunId) : hub RunRecord :=
  found ← query (fun s => runs_get s id);
  original ← lift (ok_or found (RunNotFound id));
  pin ← query (fun s => reproduction_pin s original);
  submit_run_internal limits (run_spec original) (Some id) (Some pin).

(** ** The ledger *)

(** The entry of a step. *)
Definition step_result (w : WorkflowRecord) (k : string) : option StepResult :=
  List.find (fun r => bool_decide (sr_key r = k)) (wr_steps w).

Definition attempts_of (w : WorkflowRecord) (k : string) : list StepAttempt :=
  match step_result w k with Some r => sr_attempts r | None => [] end.

(** One entry per step, in key order. *)
Definition ledger_ok (w : WorkflowRecord) : Prop :=
  NoDup (sr_key <$> wr_steps w) /\ StronglySorted ord_le (sr_key <$> wr_steps w).

Lemma update_first_spec {A K} `{EqDecision K} (key : A -> K) (k : K) (f : A -> A) l :
  (forall x, key (f x) = key x) ->
  match update_first (fun x => bool_decide (key x = k)) f l with
  | None => List.find (fun x => bool_decide (key x = k)) l = None
  | Some l' => key <$> l' = key <$> l /\
      exists x, List.find (fun x => bool_decide (key x = k)) l = Some x /\
        List.find (fun x => bool_decide (key x = k)) l' = Some (f x) /\
        forall k', k' <> k -> List.find (fun x => bool_decide (key x = k')) l'
                              = List.find (fun x => bool_decide (key x = k')) l
  end.
Proof.
  intros Hf. induction l as [|x l IH]; cbn; [done|]. case_bool_decide as Hx.
  - split; [cbn; by rewrite Hf|]. exists x. cbn. rewrite Hf, bool_decide_eq_true_2 by done.
    split_and!; try done. intros k' Hne. rewrite bool_decide_eq_false_2 by congruence. done.
  - destruct (update_first _ _ l) as [l'|]; cbn; [|done]. destruct IH as (Hk & y & Hy & Hy' & Ho).
    split; [cbn; by rewrite Hk|]. exists y. cbn. rewrite bool_decide_eq_false_2 by done.
    split_and!; try done. intros k' Hne. by rewrite Ho.
Qed.

(** Finding by key in a list of distinct keys does not depend on the order. *)
Lemma find_perm {A K} `{EqDecision K} (key : A -> K) (k : K) l l' :
  NoDup (key <$> l) -> l ≡ₚ l' ->
  List.find (fun x => bool_decide (key x = k)) l' = List.find (fun x => bool_decide (key x = k)) l.
Proof.
  intros Hnd Hp. destruct (List.find _ l) as [x|] eqn:E.
  - apply find_Some_elem in E as [Hx Hk]. bool_inv.
    subst k. apply find_unique; by rewrite <- Hp.
  - destruct (List.find _ l') as [x|] eqn:E'; [|done].
    apply find_Some_elem in E' as [Hx Hk]. rewrite <- Hp in Hx.
    by eapply List.find_none in E; [|by apply list_elem_of_In]; rewrite E in Hk.
Qed.

Lemma find_snoc {A} (p : A -> bool) l x : p x = false -> List.find p (l ++ [x]) = List.find p l.
Proof. intros Hx. induction l as [|y l IH]; cbn; [by rewrite Hx|]. by rewrite IH. Qed.

(** Two records that differ in their steps only. *)
Definition same_but_steps (w w' : WorkflowRecord) : Prop :=
  w' = WorkflowRecord_set_steps w (wr_steps w').

Lemma record_attempt_spec w k a :
  ledger_ok w ->
  let w' := record_attempt w k a in
  ledger_ok w' /\ same_but_steps w w' /\
  step_result w' k = Some {| sr_key := k; sr_run := sa_run a; sr_state := sa_state a;
                             sr_failure := sa_failure a; sr_attempts := attempts_of w k ++ [a] |} /\
  forall k', k' <> k -> step_result w' k' = step_result w k'.
Proof.
  intros [Hnd Hs]. unfold record_attempt, attempts_of, step_result, ledger_ok, same_but_steps.
  match goal with |- context[update_first _ ?f _] =>
    pose proof (update_first_spec sr_key k f (wr_steps w) (fun _ => eq_refl)) as Hu end.
  destruct (update_first _ _ _) as [l'|]; cbn.
  - destruct Hu as (Hk & x & Hx & Hx' & Ho). rewrite Hk, Hx, Hx'. cbn. split_and!; try done.
    apply find_Some_elem in Hx as [_ Hx]. bool_inv. by rewrite Hx.
  - set (new := {| sr_key := k |}). set (l' := sort_by_key _ _).
    assert (Hp : wr_steps w ++ [new] ≡ₚ l') by (symmetry; apply sort_by_perm).
    assert (Hnd' : NoDup (sr_key <$> wr_steps w ++ [new])).
    { rewrite fmap_app. apply NoDup_app. split_and!; [done| |apply NoDup_singleton].
      intros k' Hk' ->%list_elem_of_singleton. apply list_elem_of_fmap in Hk' as (r & Hr & Hin).
      eapply List.find_none in Hu; [|by apply list_elem_of_In]. by rewrite bool_decide_eq_false in Hu. }
    split_and!; [by rewrite <- Hp|exact (sort_by_key_sorted sr_key (wr_steps w ++ [new]))|done| |].
    + rewrite (find_perm sr_key k _ _ Hnd' Hp), Hu. apply (find_unique sr_key _ new); [done|].
      apply elem_of_app. right. by apply list_elem_of_singleton.
    + intros k' Hne. rewrite (find_perm sr_key k' _ _ Hnd' Hp). apply find_snoc.
      by apply bool_decide_eq_false_2.
Qed.

(** What finishing an attempt keeps of it. *)
Definition attempt_ids (l : list StepAttempt) : list (AttemptId * N * RunId) :=
  (fun a => (sa_id a, sa_number a, sa_run a)) <$> l.

Lemma update_attempts f p l :
  (forall a, (sa_id (f a), sa_number (f a), sa_run (f a)) = (sa_id a, sa_number a, sa_run a)) ->
  attempt_ids (default l (update_first p f l)) = attempt_ids l.
Proof.
  intros Hf. induction l as [|a l IH]; cbn; [done|]. destruct (p a); cbn; [by rewrite Hf|].
  destruct (update_first p f l); cbn in *; [by rewrite IH|done].
Qed.

Lemma finish_recorded_attempt_spec w k id run category failure :
  ledger_ok w ->
  let w' := finish_recorded_attempt w k id run category failure in
  let state := match run with Some r => run_state r | None => RsFailed end in
  ledger_ok w' /\ same_but_steps w w' /\
  (forall k', k' <> k -> step_result w' k' = step_result w k') /\
  match step_result w k with
  | None => w' = w
  | Some _ => exists attempts',
      step_result w' k = Some {| sr_key := k; sr_run := id; sr_state := state; sr_failure := failure;
                                 sr_attempts := attempts' |} /\
      attempt_ids attempts' = attempt_ids (attempts_of w k)
  end.
Proof.
  intros [Hnd Hs]. unfold finish_recorded_attempt, attempts_of, step_result, ledger_ok, same_but_steps.
  match goal with |- context[update_first _ ?f (wr_steps w)] =>
    pose proof (update_first_spec sr_key k f (wr_steps w) (fun _ => eq_refl)) as Hu end.
  destruct (update_first _ _ _) as [l'|]; cbn.
  - destruct Hu as (Hk & x & Hx & Hx' & Ho). rewrite Hk, Hx. split_and!; try done.
    eexists. rewrite Hx'. split; [apply find_Some_elem in Hx as [_ Hx]; bool_inv; by rewrite Hx|].
    by apply update_attempts.
  - rewrite Hu. split_and!; try done. by destruct w.
Qed.

(** ** Winding work down *)
Context `{!RepositoriesLaws Store}.

(** A run that is over, or unknown. *)
Definition run_settled (s : Store) (id : RunId) : Prop :=
  forall r, runs_get s id = Ok (Some r) -> RunState_is_terminal (run_state r) = true.

Definition token_cancelled (o : Orchestrator Store Fences) (id : RunId) : Prop :=
  o_active_cancels o !! id = Some {| is_cancelled := true |}.

(** A run that is over or has been told to stop. *)
Definition stopping (o : Orchestrator Store Fences) (id : RunId) : Prop :=
  token_cancelled o id \/ run_settled (o_store o) id.

(** Runs only stop, no execution starts, and of the workflows only those in
    [W] change. *)
Definition closing (W : WorkflowId -> Prop) (o o' : Orchestrator Store Fences) : Prop :=
  (repo_ok (o_store o) ->
     repo_ok (o_store o') /\
     (forall id, run_settled (o_store o) id -> run_settled (o_store o') id) /\
     (forall id, ~ W id -> workflows_get (o_store o') id = workflows_get (o_store o) id)) /\
  (forall id, o_active_cancels o !! id = None -> o_active_cancels o' !! id = None) /\
  (forall id, token_cancelled o id -> token_cancelled o' id) /\
  o_fences o' = o_fences o /\ o_active_workflow_cancels o' = o_active_workflow_cancels o /\
  o_active_workflow_runs o' = o_active_workflow_runs o.

#[local] Instance closing_preorder W : PreOrder (closing W).
Proof.
  split.
  - intros o. split_and!; auto.
  - intros a b c (Hab & Na & Ta & ? & ? & ?) (Hbc & Nb & Tb & ? & ? & ?). split_and!; [|by auto|by auto|congruence..].
    intros Hok. destruct (Hab Hok) as (Hb & Sa & Wa). destruct (Hbc Hb) as (Hc & Sb & Wb).
    split_and!; [done|by auto|]. intros id Hne. by rewrite Wb, Wa.
Qed.

Lemma closing_on_machine W {A} (act : action Machine CoreError A) :
  steps (closing W) (on_machine act).
Proof. intros o. unfold on_machine. destruct (act _). split_and!; auto. Qed.

Lemma closing_query W {A} (f : Store -> Result A) : steps (closing W) (query f).
Proof. intros o. reflexivity. Qed.

(** A write of a run that is over after it. *)
Lemma closing_runs_put W r :
  RunState_is_terminal (run_state r) = true ->
  steps (closing W) (on_store (fun s => runs_put s r)).
Proof.
  intros Hr o. unfold on_store. pose proof (runs_put_frame (o_store o) r) as Hf.
  pose proof (runs_put_law (o_store o) r) as Hl. pose proof (runs_put_failed (o_store o) r) as He.
  destruct (runs_put _ _) as [s res]. split_and!; [|done..]. cbn. intros Hok.
  destruct (Hf Hok) as (Hok' & Ho & _ & _ & Hw). split_and!; [done| |by auto].
  intros id Hs r' Hr'. destruct (decide (id = run_id r)) as [->|Hne]; [|by apply Hs; rewrite <- Ho].
  destruct res as [[]|e].
  - rewrite (Hl s Hok eq_refl) in Hr'. by injection Hr' as <-.
  - destruct (He s e Hok eq_refl) as [Heq|Heq]; rewrite Heq in Hr'; [by apply Hs|].
    by injection Hr' as <-.
Qed.

Lemma closing_workflows_put (W : WorkflowId -> Prop) w t :
  W (wr_id w) -> steps (closing W) (on_store (fun s => workflows_put s w t)).
Proof.
  intros Hw o. unfold on_store. pose proof (workflows_put_frame (o_store o) w t) as Hf.
  destruct (workflows_put _ _ _) as [s res]. split_and!; [|done..]. cbn. intros Hok.
  destruct (Hf Hok) as (Hok' & Ho & _ & Hr & _). split_and!; [done| |intros id Hne; apply Ho; congruence].
  intros id Hs r. rewrite Hr. apply Hs.
Qed.

Lemma closing_request_cancel (W : WorkflowId -> Prop) wid t :
  W wid -> steps (closing W) (on_store (fun s => workflows_request_cancel s wid t)).
Proof.
  intros Hw o. unfold on_store. pose proof (workflows_cancel_frame (o_store o) wid t) as Hf.
  destruct (workflows_request_cancel _ _ _) as [s res]. split_and!; [|done..]. cbn. intros Hok.
  destruct (Hf Hok) as (Hok' & Ho & _ & Hr & _). split_and!; [done| |intros id Hne; apply Ho; congruence].
  intros id Hs r. rewrite Hr. apply Hs.
Qed.

#[local] Hint Resolve closing_preorder closing_on_machine closing_query closing_workflows_put
  closing_request_cancel : steps.

Lemma stopping_closing W o o' id :
  repo_ok (o_store o) -> closing W o o' -> stopping o id -> stopping o' id.
Proof. intros Hok (Hs & _ & Ht & _) [Hc|Hc]; [left; auto|right; by apply Hs]. Qed.

Lemma closing_ok W o o' : repo_ok (o_store o) -> closing W o o' -> repo_ok (o_store o').
Proof. intros Hok [Hs _]. by apply Hs. Qed.

(** [cancel_run] stops its run. *)
Lemma closing_cancel_run W id : steps (closing W) (cancel_run id).
Proof.
  intros o. unfold cancel_run. destruct (o_active_cancels o !! id) as [token|] eqn:Ea.
  - cbn. split_and!; [by auto| | |done..]; intros id'; unfold token_cancelled; cbn; destruct (decide (id' = id)) as [->|];
      rewrite ?lookup_insert_eq, ?lookup_insert_ne by done; [congruence|done|done|done].
  - refine ((_ : steps (closing W) _) o). apply steps_bind; [apply _|apply closing_query|].
    intros found. apply steps_bind; [apply _|eauto with steps|]. intros r.
    destruct (RunState_is_terminal (run_state r)); [eauto with steps|].
    apply steps_bind; [apply _|apply closing_on_machine|]. intros now.
    destruct (RunRecord_transition_cases r RsCancelled now) as [[_ ->]|(_ & r' & -> & Hr' & _)];
      [intros o1; reflexivity|].
    apply steps_bind; [apply _|eauto with steps|]. intros _.
    apply steps_bind; [apply _|apply closing_runs_put; by rewrite Hr'|eauto with steps].
Qed.

Lemma cancel_run_stops id o o' b :
  repo_ok (o_store o) -> cancel_run id o = (o', Ok b) -> stopping o' id.
Proof.
  intros Hok Hr. apply cancel_run_spec in Hr; [|done].
  destruct (o_active_cancels o !! id) as [t|]; [by left; destruct Hr as (_ & _ & Hr)|].
  right. destruct Hr as (_ & r & Hg & Hr).
  destruct (RunState_is_terminal (run_state r)) eqn:Et.
  - subst. intros r' Hr'. congruence.
  - destruct Hr as (t & r1 & (Hs & _ & Hp & _)%transition_Ok & Hput).
    apply runs_put_law in Hput; [|done]. destruct Hp as [Hid _].
    rewrite Hid, (runs_get_key _ _ _ Hok Hg) in Hput. intros r' Hr'.
    rewrite Hput in Hr'. injection Hr' as <-. by rewrite Hs.
Qed.
#[local] Hint Resolve closing_cancel_run : steps.

Lemma closing_forA_cancel W ids :
  steps (closing W) (forA_ (fun id => _ ← cancel_run id; mret tt) ids : hub unit).
Proof. apply steps_forA; [apply _|]. intros id _. eauto with steps. Qed.

Lemma nonterminal_runs_reads attempts o : (nonterminal_runs attempts o).1 = o.
Proof.
  induction attempts as [|a attempts IH]; [done|]. cbn. unfold mbind, action_bind, query, reads.
  destruct (runs_get _ _) as [found|e]; [|done].
  by destruct (nonterminal_runs attempts o) as [o1 [runs|e]].
Qed.

Lemma nonterminal_runs_Ok attempts o o' runs :
  nonterminal_runs attempts o = (o', Ok runs) ->
  forall a, a ∈ attempts -> sa_run a ∈ runs \/ run_settled (o_store o) (sa_run a).
Proof.
  revert runs o o'; induction attempts as [|a attempts IH]; intros runs o o'; cbn; [set_solver|].
  unfold query. intros (o1 & found & [-> Hf]%reads_Ok & (o2 & runs' & Hr & [_ <-]%mret_Ok)%action_bind_Ok)%action_bind_Ok.
  intros b [->|Hb]%elem_of_cons.
  - destruct found as [r|]; [destruct (RunState_is_terminal (run_state r)) eqn:Et|].
    + right. intros r' Hr'. congruence.
    + left. set_solver.
    + right. intros r' Hr'. congruence.
  - destruct (IH _ _ _ Hr b Hb) as [Hin|Hs]; [left|by right].
    repeat case_match; set_solver.
Qed.

Lemma closing_cancel_attempt_runs W record : steps (closing W) (cancel_attempt_runs record).
Proof.
  unfold cancel_attempt_runs. apply steps_bind; [apply _| |intros; apply closing_forA_cancel].
  intros o. unfold nonterminal_attempt_runs. by rewrite nonterminal_runs_reads.
Qed.

Lemma cancel_attempt_runs_stops record o o' :
  repo_ok (o_store o) -> cancel_attempt_runs record o = (o', Ok tt) ->
  forall res a, res ∈ wr_steps record -> a ∈ sr_attempts res -> stopping o' (sa_run a).
Proof.
  intros Hok Hc res a Hres Ha. unfold cancel_attempt_runs in Hc.
  apply action_bind_Ok in Hc as (o1 & runs & Hn & Hf).
  pose proof (nonterminal_runs_reads (wr_steps record ≫= sr_attempts) o) as Hrd.
  unfold nonterminal_attempt_runs in Hn. pose proof Hn as Hn'. rewrite Hn in Hrd. cbn in Hrd. subst o1.
  apply nonterminal_runs_Ok with (a := a) in Hn'; [|apply list_elem_of_bind; eauto].
  destruct Hn' as [Hin|Hs].
  - eapply (forA_post (closing (fun _ => False)) (fun o => repo_ok (o_store o)) (fun id o => stopping o id));
      [..|exact Hok|exact Hf|by apply elem_of_set_iter].
    + intros id. eauto with steps.
    + intros. by eapply closing_ok.
    + intros. by eapply stopping_closing.
    + intros id s s' u Hs (s1 & b & Hb & [-> _]%mret_Ok)%action_bind_Ok. by eapply cancel_run_stops.
  - eapply (stopping_closing (fun _ => False)); [exact Hok| |by right].
    eapply steps_run; [apply closing_forA_cancel|exact Hf].
Qed.

(** *** The terminal writes *)
Lemma WorkflowRecord_transition_Ok w to now w' :
  WorkflowRecord_transition w to now = (w', Ok tt) ->
  WorkflowState_can_transition_to (wr_state w) to = true /\ wr_state w' = to /\
  wr_id w' = wr_id w /\ wr_spec w' = wr_spec w /\ wr_steps w' = wr_steps w /\
  wr_admission w' = wr_admission w /\
  wr_cancel_requested_at w' = wr_cancel_requested_at w.
Proof.
  unfold WorkflowRecord_transition. destruct (WorkflowState_can_transition_to _ _); [|done].
  by intros [= <-].
Qed.

Lemma refresh_cancel_intent_spec record o o' record' :
  refresh_cancel_intent record o = (o', Ok record') ->
  o' = o /\ exists c, record' = WorkflowRecord_set_cancel record c /\
    (is_Some (wr_cancel_requested_at record) -> c = wr_cancel_requested_at record) /\
    (forall w, workflows_get (o_store o) (wr_id record) = Ok (Some w) ->
       is_Some (wr_cancel_requested_at w) -> is_Some c).
Proof.
  unfold refresh_cancel_intent, query. intros (o1 & found & [-> Hf]%reads_Ok & [-> <-]%mret_Ok)%action_bind_Ok.
  split; [done|]. destruct found as [w|].
  - destruct (wr_cancel_requested_at record) as [c|] eqn:Ec; cbn.
    + exists (Some c). rewrite <- Ec, set_cancel_same. split_and!; done.
    + eexists. split; [done|]. split; [by intros []|]. intros w' Hw'. rewrite Hf in Hw'. by simplify_eq.
  - exists (wr_cancel_requested_at record). rewrite set_cancel_same. split_and!; try done. congruence.
Qed.

(** [w] is [record] ended as cancelled. *)
Definition ended_cancelled (record w : WorkflowRecord) (message : string) : Prop :=
  wr_id w = wr_id record /\ wr_spec w = wr_spec record /\ wr_steps w = wr_steps record /\
  wr_admission w = wr_admission record /\ is_Some (wr_cancel_requested_at w) /\
  wr_failure w = Some message /\
  wr_state w = (if WorkflowState_is_terminal (wr_state record) then wr_state record else WsCancelled).

Lemma put_workflow_Ok w o o' :
  repo_ok (o_store o) -> put_workflow w o = (o', Ok tt) ->
  exists c, workflows_get (o_store o') (wr_id w) = Ok (Some (WorkflowRecord_set_cancel w c)) /\
    (is_Some (wr_cancel_requested_at w) -> c = wr_cancel_requested_at w).
Proof.
  intros Hok (o1 & t & (m & _ & ->)%on_machine_inv & (s & Hp & ->)%on_store_inv)%action_bind_Ok.
  apply workflows_put_law in Hp as (c & Hg & Hc & _); [|done]. exists c. auto.
Qed.

Lemma closing_put_workflow (W : WorkflowId -> Prop) w : W (wr_id w) -> steps (closing W) (put_workflow w).
Proof. unfold put_workflow. eauto with steps. Qed.

Lemma closing_refresh W record : steps (closing W) (refresh_cancel_intent record).
Proof. unfold refresh_cancel_intent. eauto with steps. Qed.

Lemma finish_workflow_cancelled_Ok record message o o' w :
  repo_ok (o_store o) -> finish_workflow_cancelled record message o = (o', Ok w) ->
  ended_cancelled record w message /\ workflows_get (o_store o') (wr_id record) = Ok (Some w).
Proof.
  intros Hok Hr. unfold finish_workflow_cancelled in Hr.
  apply action_bind_Ok in Hr as (o1 & r1 & (-> & c & -> & Hc & _)%refresh_cancel_intent_spec & Hr).
  apply action_bind_Ok in Hr as (o2 & r2 & E2 & Hr).
  assert (exists c', r2 = WorkflowRecord_set_cancel record (Some c') /\ o_store o2 = o_store o)
    as (c2 & -> & Ho2).
  { cbn in E2. destruct c as [c|]; cbn in E2.
    - apply mret_Ok in E2 as [-> <-]. eauto.
    - apply action_bind_Ok in E2 as (o3 & t & (m & _ & ->)%on_machine_inv & [-> <-]%mret_Ok). eauto. }
  apply action_bind_Ok in Hr as (o3 & r3 & E3 & Hr).
  assert (repo_ok (o_store o3) /\ wr_id r3 = wr_id record /\ wr_spec r3 = wr_spec record /\
    wr_steps r3 = wr_steps record /\ wr_admission r3 = wr_admission record /\
    wr_cancel_requested_at r3 = Some c2 /\
    wr_state r3 = if WorkflowState_is_terminal (wr_state record) then wr_state record else WsCancelled)
    as (Hok3 & Hid & Hsp & Hst & Had & Hca & Hs3).
  { cbn [wr_state WorkflowRecord_set_cancel] in E3. destruct (WorkflowState_is_terminal (wr_state record)).
    - apply mret_Ok in E3 as [-> <-]. rewrite Ho2. done.
    - apply action_bind_Ok in E3 as (o4 & t & (m & _ & ->)%on_machine_inv & E3).
      destruct (WorkflowRecord_transition _ _ _) as [r4 rr] eqn:Et. act_inv.
      apply WorkflowRecord_transition_Ok in Et as (_ & ? & ? & ? & ? & ? & ?). cbn. by rewrite Ho2. }
  apply action_bind_Ok in Hr as (o4 & [] & Hp & [-> <-]%mret_Ok).
  apply put_workflow_Ok in Hp as (c' & Hg & Hc'); [|done]. cbn in Hg, Hc'. rewrite Hid in Hg.
  split; [by split_and!; cbn; rewrite ?Hca|]. rewrite Hg, Hc' by by rewrite Hca.
  by destruct r3.
Qed.

Lemma closing_finish_cancelled (W : WorkflowId -> Prop) record message :
  W (wr_id record) -> steps (closing W) (finish_workflow_cancelled record message).
Proof.
  intros HW. unfold finish_workflow_cancelled. apply steps_bind_post; [apply _|apply closing_refresh|].
  intros o o1 r1 (-> & c & -> & _)%refresh_cancel_intent_spec _.
  refine ((_ : steps (closing W) _) o).
  apply steps_bind_post; [apply _|solve_steps|]. intros o2 o3 r2 E2 Hcl.
  etrans; [exact Hcl|]. refine ((_ : steps (closing W) _) o3).
  assert (Hid : wr_id r2 = wr_id record).
  { cbn in E2. destruct c; cbn in E2; act_inv; done. }
  apply steps_bind_post; [apply _|solve_steps|]. intros o4 o5 r3 E3 Hcl3.
  etrans; [exact Hcl3|]. refine ((_ : steps (closing W) _) o5).
  assert (Hid3 : wr_id r3 = wr_id record).
  { destruct (WorkflowState_is_terminal _); [by act_inv|].
    apply action_bind_Ok in E3 as (? & t & _ & E3).
    destruct (WorkflowRecord_transition _ _ _) as [r4 rr] eqn:Et. act_inv.
    apply WorkflowRecord_transition_Ok in Et as (_ & _ & ? & _). congruence. }
  apply steps_bind; [apply _| |eauto with steps].
  apply closing_put_workflow. cbn. by rewrite Hid3.
Qed.

(** A call that closes no workflow changes none. *)
Lemma closing_none {A} (m : hub A) o o' r wid :
  steps (closing (fun _ => False)) m -> repo_ok (o_store o) -> m o = (o', r) ->
  workflows_get (o_store o') wid = workflows_get (o_store o) wid.
Proof.
  intros Hm Hok Hr. destruct (steps_run _ _ _ _ _ Hm Hr) as [Hc _].
  destruct (Hc Hok) as (_ & _ & Hw). apply Hw. tauto.
Qed.

Lemma closing_weaken (W W' : WorkflowId -> Prop) o o' :
  (forall id, W id -> W' id) -> closing W o o' -> closing W' o o'.
Proof.
  intros HW (Hc & Hr). split; [|done]. intros Hok. destruct (Hc Hok) as (? & ? & Hw).
  split_and!; auto.
Qed.

Lemma closing_cancel_active W wid : steps (closing W) (cancel_active_workflow_runs wid).
Proof.
  unfold cancel_active_workflow_runs. apply steps_bind; [apply _|eauto with steps|]. intros runs.
  apply steps_bind; [apply _| |eauto with steps]. apply steps_mapA; [apply _|]. eauto with steps.
Qed.

Lemma cancel_active_stops wid o o' n :
  repo_ok (o_store o) -> cancel_active_workflow_runs wid o = (o', Ok n) ->
  forall id, id ∈ default ∅ (o_active_workflow_runs o !! wid) -> stopping o' id.
Proof.
  intros Hok (o1 & runs & [-> [= <-]]%reads_Ok & (o2 & bs & Hm & [-> _]%mret_Ok)%action_bind_Ok)%action_bind_Ok id Hid.
  eapply (mapA_post (closing (fun _ => False)) (fun o => repo_ok (o_store o)) (fun id o => stopping o id));
    [..|exact Hok|exact Hm|by apply elem_of_set_iter].
  - eauto with steps.
  - intros. by eapply closing_ok.
  - intros. by eapply stopping_closing.
  - intros. by eapply cancel_run_stops.
Qed.

(** The stored request: the first time given stays. *)
Definition cancel_intent (old w : WorkflowRecord) : Prop :=
  exists t, w = WorkflowRecord_set_cancel old (get_or_insert (wr_cancel_requested_at old) t).

(** The part of [cancel_workflow] after the request is stored, when nothing
    executes the workflow. *)
Lemma cancel_idle_workflow wid record o o' :
  repo_ok (o_store o) -> workflows_get (o_store o) wid = Ok (Some record) ->
  (_ ← cancel_attempt_runs record;
   found ← query (fun s => workflows_get s wid);
   record ← lift (ok_or found (WorkflowNotFound wid));
   _ ← finish_workflow_cancelled record "workflow cancellation requested";
   mret false) o = (o', Ok false) ->
  closing (eq wid) o o' /\
  exists w, workflows_get (o_store o') wid = Ok (Some w) /\
    ended_cancelled record w "workflow cancellation requested" /\
    forall res a, res ∈ wr_steps record -> a ∈ sr_attempts res -> stopping o' (sa_run a).
Proof.
  intros Hok Hg (o1 & [] & Hc & Hr)%action_bind_Ok.
  pose proof (closing_none _ _ _ _ wid (closing_cancel_attempt_runs _ record) Hok Hc) as Hw.
  pose proof (steps_run _ _ _ _ _ (closing_cancel_attempt_runs (eq wid) record) Hc) as Hcl.
  assert (Hok1 : repo_ok (o_store o1)) by (by eapply closing_ok).
  pose proof (cancel_attempt_runs_stops _ _ _ Hok Hc) as Hst.
  unfold query in Hr. act_inv.
  match goal with Hx : finish_workflow_cancelled ?x _ _ = _ |- _ => rename Hx into Hf; rename x into rec end.
  assert (rec = record) as -> by congruence. pose proof (workflows_get_key _ _ _ Hok Hg) as Hid.
  pose proof (steps_run _ _ _ _ _ (closing_finish_cancelled (eq wid) record _ (eq_sym Hid)) Hf) as Hcl2.
  apply finish_workflow_cancelled_Ok in Hf as [He Hs]; [|done]. rewrite Hid in Hs.
  split; [by etrans|]. eexists. split_and!; [exact Hs|exact He|].
  intros res a Hres Ha. eapply stopping_closing; [exact Hok1|exact Hcl2|]. by eapply Hst.
Qed.

Lemma ended_set_cancel old c w msg :
  ended_cancelled (WorkflowRecord_set_cancel old c) w msg <-> ended_cancelled old w msg.
Proof. done. Qed.

(** (C22) Cancelling a workflow.  When the call returns, the request is durable
    and no other workflow has changed: a terminal workflow is left as it was;
    one that executes in this process keeps running with the intent stored,
    its token cancelled and every registered run over or told to stop; one
    that nothing executes is stored as Cancelled with its request, and each
    of its recorded attempts' runs is over or told to stop. *)
Theorem cancel_workflow_sound wid o o' b :
  repo_ok (o_store o) -> cancel_workflow wid o = (o', Ok b) ->
  (forall id, id <> wid -> workflows_get (o_store o') id = workflows_get (o_store o) id) /\
  exists old, workflows_get (o_store o) wid = Ok (Some old) /\
  if WorkflowState_is_terminal (wr_state old)
  then b = false /\ workflows_get (o_store o') wid = Ok (Some old)
  else match o_active_workflow_cancels o !! wid with
  | Some _ => b = true /\
      o_active_workflow_cancels o' !! wid = Some {| is_cancelled := true |} /\
      (exists w, workflows_get (o_store o') wid = Ok (Some w) /\ cancel_intent old w) /\
      forall id, id ∈ default ∅ (o_active_workflow_runs o !! wid) -> stopping o' id
  | None => b = false /\
      exists w, workflows_get (o_store o') wid = Ok (Some w) /\
        ended_cancelled old w "workflow cancellation requested" /\
        forall res a, res ∈ wr_steps old -> a ∈ sr_attempts res -> stopping o' (sa_run a)
  end.
Proof.
  intros Hok (o1 & t & (m & _ & ->)%on_machine_inv & Hr)%action_bind_Ok.
  apply action_bind_Ok in Hr as (o2 & found & Hreq & Hr).
  pose proof (steps_run _ _ _ _ _ (closing_request_cancel (eq wid) wid t eq_refl) Hreq) as Hcl.
  assert (Hok2 : repo_ok (o_store o2)) by (by eapply closing_ok in Hcl).
  pose proof Hreq as (s & Hlaw & ->)%on_store_inv.
  destruct (workflows_cancel_law _ _ _ _ _ (Hok : repo_ok (o_store (set_machine o m))) Hlaw)
    as [(_ & -> & _)|(old & Hold & -> & Hnew)]; [by act_inv|].
  cbn [ok_or] in Hr. apply action_bind_Ok in Hr as (o3 & rec & [-> [= <-]]%lift_Ok & Hr).
  set (o2 := set_store _ s) in *. destruct Hcl as (Hcl & _ & _). destruct (Hcl Hok) as (_ & _ & Hoth).
  cbn [o_store set_machine] in Hoth, Hold.
  destruct (WorkflowState_is_terminal (wr_state old)) eqn:Et.
  { rewrite Et in Hr. apply mret_Ok in Hr as [-> <-]. split; [intros id Hne; apply Hoth; congruence|].
    exists old. rewrite Et. by split_and!. }
  cbn [wr_state WorkflowRecord_set_cancel] in Hr. rewrite Et in Hr.
  apply action_bind_Ok in Hr as (o3 & tok & [-> [= <-]]%reads_Ok & Hr).
  change (o_active_workflow_cancels o2) with (o_active_workflow_cancels o) in Hr.
  destruct (o_active_workflow_cancels o !! wid) as [token|] eqn:Ea.
  - apply action_bind_Ok in Hr as (o3 & [] & [= <-] & (o4 & n & Hc & [-> <-]%mret_Ok)%action_bind_Ok).
    set (o3 := set_workflow_cancels _ _) in Hc.
    pose proof (steps_run _ _ _ _ _ (closing_cancel_active (eq wid) wid) Hc) as (Hcl3 & _ & _ & _ & Hwc & _).
    destruct (Hcl3 Hok2) as (_ & _ & Hoth3).
    split; [intros id Hne; rewrite Hoth3 by congruence; apply Hoth; congruence|].
    exists old. rewrite Et. split_and!; [done|done| | |].
    + rewrite Hwc. cbn. by rewrite lookup_insert_eq.
    + eexists. split; [|by exists t].
      by rewrite (closing_none _ o3 _ _ wid (closing_cancel_active _ wid) Hok2 Hc).
    + exact (cancel_active_stops _ o3 _ _ Hok2 Hc).
  - apply action_bind_Ok in Hr as (o3 & [] & [-> _]%mret_Ok & (o4 & n & Hc & Hr)%action_bind_Ok).
    pose proof (steps_run _ _ _ _ _ (closing_cancel_active (eq wid) wid) Hc) as (Hcl3 & _).
    destruct (Hcl3 Hok2) as (Hok4 & _ & Hoth3).
    pose proof (closing_none _ _ _ _ wid (closing_cancel_active _ wid) Hok2 Hc) as Hg.
    assert (b = false) as -> by (act_inv; done).
    eapply cancel_idle_workflow in Hr as ((Hcl5 & _) & w & Hw & Hend & Hst); [|done|by rewrite Hg].
    destruct (Hcl5 Hok4) as (_ & _ & Hoth5).
    split; [intros id Hne; rewrite Hoth5, Hoth3 by congruence; apply Hoth; congruence|].
    exists old. rewrite Et. split_and!; [done|done|]. exists w. by split_and!.
Qed.

(** *** Recovery after a restart *)

(** A loop over the stored workflows, each closed by its own iteration. *)
Lemma for_counted_Ok skip body (post : WorkflowRecord -> Orchestrator Store Fences -> Prop) xs o o' n :
  (forall w, steps (closing (eq (wr_id w))) (body w)) ->
  (forall w o o', repo_ok (o_store o) -> workflows_get (o_store o) (wr_id w) = Ok (Some w) ->
     skip w = false -> body w o = (o', Ok tt) -> post w o') ->
  (forall w W o o', repo_ok (o_store o) -> ~ W (wr_id w) -> closing W o o' -> post w o -> post w o') ->
  repo_ok (o_store o) -> NoDup (wr_id <$> xs) ->
  (forall w, w ∈ xs -> workflows_get (o_store o) (wr_id w) = Ok (Some w)) ->
  for_counted skip body xs o = (o', Ok n) ->
  closing (fun id => exists w, w ∈ xs /\ skip w = false /\ wr_id w = id) o o' /\
  (forall w, w ∈ xs -> skip w = false -> post w o') /\
  n = len (List.filter (fun w => negb (skip w)) xs).
Proof.
  intros Hst Hpost Hstab. revert o o' n. induction xs as [|x xs IH]; intros o o' n Hok Hnd Hget; cbn.
  { intros [-> <-]%mret_Ok. split_and!; [reflexivity|by intros w ?%elem_of_nil|done]. }
  rewrite fmap_cons, NoDup_cons in Hnd. destruct Hnd as [Hx Hnd].
  destruct (skip x) eqn:Es; cbn.
  - intros Hr. destruct (IH _ _ _ Hok Hnd (fun w Hw => Hget w (list_elem_of_further _ _ _ Hw)) Hr)
      as (Hcl & Hp & Hn).
    split_and!; [|intros w [->|Hw]%elem_of_cons; [congruence|by apply Hp]|done].
    eapply closing_weaken; [|exact Hcl]. intros id (w & Hw & ?). exists w. split; [by apply list_elem_of_further|done].
  - intros (o1 & [] & Hb & (o2 & c & Hr & [-> <-]%mret_Ok)%action_bind_Ok)%action_bind_Ok.
    pose proof (steps_run _ _ _ _ _ (Hst x) Hb) as Hcl1.
    assert (Hok1 : repo_ok (o_store o1)) by (by eapply closing_ok).
    assert (Hget1 : forall w, w ∈ xs -> workflows_get (o_store o1) (wr_id w) = Ok (Some w)).
    { intros w Hw. destruct Hcl1 as (Hcl1 & _). destruct (Hcl1 Hok) as (_ & _ & Hfr).
      rewrite Hfr; [by apply Hget, list_elem_of_further|]. intros Heq. apply Hx. rewrite Heq.
      by apply list_elem_of_fmap_2. }
    destruct (IH _ _ _ Hok1 Hnd Hget1 Hr) as (Hcl & Hp & Hn). split_and!.
    + etrans; [eapply closing_weaken; [|exact Hcl1]|eapply closing_weaken; [|exact Hcl]].
      * intros id <-. exists x. split_and!; [apply list_elem_of_here|done|done].
      * intros id (w & Hw & ?). exists w. split; [by apply list_elem_of_further|done].
    + intros w [->|Hw]%elem_of_cons Hs; [|by apply Hp].
      eapply Hstab; [exact Hok1| |exact Hcl|].
      * intros (w & Hw & _ & Heq). apply Hx. rewrite <- Heq. by apply list_elem_of_fmap_2.
      * eapply Hpost; [exact Hok| |done|exact Hb]. apply Hget, list_elem_of_here.
    + rewrite Hn. unfold len. cbn. lia.
Qed.

(** A workflow that recovery ended: its stored record relates to the old one
    by [P], and none of its attempts can still be running. *)
Definition recovered (P : WorkflowRecord -> WorkflowRecord -> Prop) (w : WorkflowRecord)
    (o : Orchestrator Store Fences) : Prop :=
  exists w', workflows_get (o_store o) (wr_id w) = Ok (Some w') /\ P w w' /\
    forall res a, res ∈ wr_steps w -> a ∈ sr_attempts res -> stopping o (sa_run a).

Lemma recovered_stable P w W o o' :
  repo_ok (o_store o) -> ~ W (wr_id w) -> closing W o o' -> recovered P w o -> recovered P w o'.
Proof.
  intros Hok HW Hcl (w' & Hg & HP & Hs). exists w'. split_and!; [|done|].
  - destruct Hcl as (Hcl & _). destruct (Hcl Hok) as (_ & _ & Hfr). by rewrite Hfr.
  - intros res a Hr Ha. eapply stopping_closing; [exact Hok|exact Hcl|by eapply Hs].
Qed.

Lemma closing_cancel_recovered w : steps (closing (eq (wr_id w))) (cancel_recovered w).
Proof.
  unfold cancel_recovered. apply steps_bind; [apply _|apply closing_cancel_attempt_runs|]. intros _.
  apply steps_bind; [apply _|by apply closing_finish_cancelled|eauto with steps].
Qed.

Lemma cancel_recovered_Ok w o o' :
  repo_ok (o_store o) -> cancel_recovered w o = (o', Ok tt) ->
  recovered (fun w w' => ended_cancelled w w' "workflow cancellation recovered after restart") w o'.
Proof.
  intros Hok (o1 & [] & Hc & (o2 & w' & Hf & [-> _]%mret_Ok)%action_bind_Ok)%action_bind_Ok.
  pose proof (steps_run _ _ _ _ _ (closing_cancel_attempt_runs (eq (wr_id w)) w) Hc) as Hcl1.
  assert (Hok1 : repo_ok (o_store o1)) by (by eapply closing_ok).
  pose proof (steps_run _ _ _ _ _ (closing_finish_cancelled (eq (wr_id w)) w _ eq_refl) Hf) as Hcl2.
  apply finish_workflow_cancelled_Ok in Hf as [He Hg]; [|done]. exists w'. split_and!; [done|done|].
  intros res a Hr Ha. eapply stopping_closing; [exact Hok1|exact Hcl2|].
  exact (cancel_attempt_runs_stops w o o1 Hok Hc res a Hr Ha).
Qed.

(** Failing one attempt's run. *)
Lemma fail_run_put W r now {A} (k : hub A) :
  RunState_is_terminal (run_state r) = false -> steps (closing W) k ->
  steps (closing W)
    (let '(r1, res) := RunRecord_transition r RsFailed now in
     _ ← lift res; _ ← on_store (fun s => runs_put s r1); k).
Proof.
  intros Ht Hk. destruct (RunRecord_transition_cases r RsFailed now) as [[_ ->]|(_ & r' & -> & Hr' & _)];
    [intros o; reflexivity|].
  apply steps_bind; [apply _|eauto with steps|]. intros _.
  apply steps_bind; [apply _|apply closing_runs_put; by rewrite Hr'|done].
Qed.

Lemma closing_fail_attempts W now run st f attempts :
  steps (closing W) (fail_attempts now run st f attempts).
Proof.
  revert st f. induction attempts as [|a attempts IH]; intros st f; cbn; [eauto with steps|].
  apply steps_bind; [apply _|apply closing_query|]. intros [r|].
  - destruct (RunState_is_terminal (run_state r)) eqn:Et.
    + apply steps_bind; [apply _|apply IH|]. intros [[? ?] ?]. eauto with steps.
    + apply fail_run_put; [done|]. apply steps_bind; [apply _|apply IH|]. intros [[? ?] ?]. eauto with steps.
  - apply steps_bind; [apply _|apply IH|]. intros [[? ?] ?]. eauto with steps.
Qed.

Lemma run_settled_closing W o o' id :
  repo_ok (o_store o) -> closing W o o' -> run_settled (o_store o) id -> run_settled (o_store o') id.
Proof. intros Hok (Hc & _) Hs. destruct (Hc Hok) as (_ & Hm & _). by apply Hm. Qed.

(** The recursive call, whatever the head did. *)
Lemma fail_attempts_tail now run st f attempts o o' res a0 :
  ('(state, failure, attempts) ← fail_attempts now run st f attempts;
   mret (state, failure, a0 :: attempts)) o = (o', Ok res) ->
  exists attempts', fail_attempts now run st f attempts o = (o', Ok (res.1, attempts')) /\
    res.2 = a0 :: attempts'.
Proof.
  intros (o1 & [[st1 f1] as1] & Hr & [-> <-]%mret_Ok)%action_bind_Ok. by exists as1.
Qed.

Lemma fail_attempts_Ok now run st f attempts o o' res :
  repo_ok (o_store o) -> fail_attempts now run st f attempts o = (o', Ok res) ->
  (forall a, a ∈ attempts -> run_settled (o_store o') (sa_run a)) /\
  sa_run <$> res.2 = sa_run <$> attempts.
Proof.
  revert st f o res. induction attempts as [|a attempts IH]; intros st f o res Hok; cbn.
  { intros [-> <-]%mret_Ok. split; [by intros a ?%elem_of_nil|done]. }
  unfold query. intros (o1 & found & [-> Hf]%reads_Ok & Hr)%action_bind_Ok.
  assert (Hstep : forall o1 a0 st f, repo_ok (o_store o1) -> run_settled (o_store o1) (sa_run a) ->
    sa_run a0 = sa_run a ->
    ('(state, failure, attempts) ← fail_attempts now run st f attempts;
     mret (state, failure, a0 :: attempts)) o1 = (o', Ok res) ->
    (forall b, b ∈ a :: attempts -> run_settled (o_store o') (sa_run b)) /\
    sa_run <$> res.2 = sa_run a :: (sa_run <$> attempts)).
  { intros o1 a0 st1 f1 Hok1 Hs1 Ha0 (as' & Ht & ->)%fail_attempts_tail.
    pose proof (steps_run _ _ _ _ _ (closing_fail_attempts (fun _ => False) now run st1 f1 attempts) Ht) as Hcl.
    destruct (IH _ _ _ _ Hok1 Ht) as [Hs Hm]. cbn in Hm. split; [|cbn; by rewrite Ha0, Hm].
    intros b [->|Hb]%elem_of_cons; [by eapply run_settled_closing|by apply Hs]. }
  destruct found as [r|].
  - destruct (RunState_is_terminal (run_state r)) eqn:Et.
    + eapply Hstep; [exact Hok| | |exact Hr]; [|done]. intros r' Hr'. congruence.
    + destruct (RunRecord_transition r RsFailed now) as [r1 rr] eqn:Ert.
      apply action_bind_Ok in Hr as (o1 & [] & [-> ->]%lift_Ok & Hr).
      apply action_bind_Ok in Hr as (o1 & [] & (s1 & Hp & ->)%on_store_inv & Hr).
      apply transition_Ok in Ert as (Hst1 & _ & (Hid & _) & _).
      pose proof (runs_put_frame (o_store o) r1 Hok) as Hfr. rewrite Hp in Hfr.
      apply runs_put_law in Hp as Hl; [|done].
      destruct Hfr as (Hok1 & _). rewrite Hid, (runs_get_key _ _ _ Hok Hf) in Hl.
      eapply (Hstep (set_store o s1)); [exact Hok1| | |exact Hr]; [|done]. cbn. intros r' Hr'.
      rewrite Hl in Hr'. injection Hr' as <-. by rewrite Hst1.
  - eapply Hstep; [exact Hok| | |exact Hr]; [|done]. intros r' Hr'. congruence.
Qed.

Lemma closing_fail_step W now res : steps (closing W) (fail_step now res).
Proof.
  unfold fail_step. apply steps_bind; [apply _|apply closing_fail_attempts|].
  intros [[? ?] ?]. eauto with steps.
Qed.

Lemma closing_fail_interrupted w : steps (closing (eq (wr_id w))) (fail_interrupted w).
Proof.
  unfold fail_interrupted. apply steps_bind; [apply _|eauto with steps|]. intros now.
  apply steps_bind; [apply _|apply steps_mapA; [apply _|intros; apply closing_fail_step]|]. intros steps'.
  destruct (WorkflowRecord_transition _ _ _) as [w1 r] eqn:Et. destruct r as [[]|e]; [|intros o; reflexivity].
  apply steps_bind; [apply _|eauto with steps|]. intros _.
  apply WorkflowRecord_transition_Ok in Et as (_ & _ & Hid & _). apply closing_put_workflow. by cbn.
Qed.

(** [w'] is [w] failed because its execution was interrupted. *)
Definition ended_interrupted (w w' : WorkflowRecord) : Prop :=
  wr_id w' = wr_id w /\ wr_spec w' = wr_spec w /\ wr_state w' = WsFailed /\
  wr_failure w' = Some INTERRUPTED /\
  (fun r => (sr_key r, sr_run r, sa_run <$> sr_attempts r)) <$> wr_steps w' =
  (fun r => (sr_key r, sr_run r, sa_run <$> sr_attempts r)) <$> wr_steps w.

Lemma fail_steps_Ok now results o o' results' :
  repo_ok (o_store o) -> mapA (fail_step now) results o = (o', Ok results') ->
  (forall res a, res ∈ results -> a ∈ sr_attempts res -> run_settled (o_store o') (sa_run a)) /\
  (fun r => (sr_key r, sr_run r, sa_run <$> sr_attempts r)) <$> results' =
  (fun r => (sr_key r, sr_run r, sa_run <$> sr_attempts r)) <$> results.
Proof.
  intros Hok Hm. assert (Hst : forall x, steps (closing (fun _ => False)) (fail_step now x))
    by (intros; apply closing_fail_step). split.
  - intros res a Hres Ha. revert a Ha.
    eapply (mapA_post (closing (fun _ => False)) (fun o => repo_ok (o_store o))
      (fun res o => forall a, a ∈ sr_attempts res -> run_settled (o_store o) (sa_run a)));
      [done|intros; by eapply closing_ok| | |exact Hok|exact Hm|exact Hres].
    + intros x s s' Hs Hcl Hx a Ha. eapply run_settled_closing; [exact Hs|exact Hcl|by apply Hx].
    + intros x s s' y Hs (s1 & [[? ?] ?] & Hf & [-> _]%mret_Ok)%action_bind_Ok.
      by apply fail_attempts_Ok in Hf as [Hf _].
  - eapply (mapA_Ok_steps (closing (fun _ => False))) in Hm; [|exact Hst].
    induction Hm as [|x y xs ys Hxy _ IH]; [done|]. rewrite !fmap_cons, IH. f_equal.
    destruct Hxy as (t & t' & Ht & (s1 & [[? ?] ?] & Hf & [-> <-]%mret_Ok)%action_bind_Ok).
    apply fail_attempts_Ok in Hf as [_ Hf]; [|by eapply closing_ok]. cbn in *. by rewrite Hf.
Qed.

Lemma fail_interrupted_Ok w o o' :
  repo_ok (o_store o) -> fail_interrupted w o = (o', Ok tt) -> recovered ended_interrupted w o'.
Proof.
  intros Hok (o1 & now & (m & _ & ->)%on_machine_inv & Hr)%action_bind_Ok.
  apply action_bind_Ok in Hr as (o2 & results & Hm & Hr).
  assert (Hcl : closing (fun _ => False) (set_machine o m) o2).
  { eapply steps_run; [|exact Hm]. apply steps_mapA; [apply _|]. intros. apply closing_fail_step. }
  assert (Hok2 : repo_ok (o_store o2)) by (by eapply closing_ok in Hcl).
  apply fail_steps_Ok in Hm as [Hs Hsame]; [|done].
  destruct (WorkflowRecord_transition _ _ _) as [w1 rr] eqn:Et.
  apply action_bind_Ok in Hr as (o3 & [] & [-> ->]%lift_Ok & Hp).
  apply WorkflowRecord_transition_Ok in Et as (_ & Hst & Hid & Hsp & Hsteps & _).
  pose proof (steps_run _ _ _ _ _ (closing_put_workflow (fun _ => True)
    (WorkflowRecord_set_failure w1 (Some INTERRUPTED)) I) Hp) as Hcl2.
  apply put_workflow_Ok in Hp as (c & Hg & _); [|done]. cbn in Hg, Hid, Hsp, Hsteps.
  rewrite Hid in Hg. eexists. split_and!; [exact Hg| |].
  - split_and!; cbn; try done. by rewrite Hsteps.
  - intros res a Hres Ha. eapply stopping_closing; [exact Hok2|exact Hcl2|]. right. by eapply Hs.
Qed.

(** One recovery: it closes exactly the workflows it selects. *)
Lemma recovery_pass skip body P o o' n :
  (forall w, steps (closing (eq (wr_id w))) (body w)) ->
  (forall w o o', repo_ok (o_store o) -> body w o = (o', Ok tt) -> recovered P w o') ->
  repo_ok (o_store o) ->
  (records ← query workflows_list; for_counted skip body records) o = (o', Ok n) ->
  repo_ok (o_store o') /\
  (exists W, closing W o o') /\
  forall id w, workflows_get (o_store o) id = Ok (Some w) ->
    if skip w then workflows_get (o_store o') id = Ok (Some w)
    else recovered P w o'.
Proof.
  intros Hst Hpost Hok. unfold query.
  intros (o1 & records & [-> Hl]%reads_Ok & Hr)%action_bind_Ok.
  apply workflows_list_law in Hl as [Hnd Hin]; [|done].
  apply (for_counted_Ok skip body (recovered P)) in Hr as (Hcl & Hp & _); try done.
  - split_and!; [by eapply closing_ok|by eexists|]. intros id w Hw.
    pose proof (workflows_get_key _ _ _ Hok Hw) as <-. destruct (skip w) eqn:Es.
    + destruct Hcl as (Hcl & _). destruct (Hcl Hok) as (_ & _ & Hfr). rewrite Hfr; [done|].
      intros (w' & Hw' & Hs & Hid). apply Hin in Hw'. rewrite Hid in Hw'. congruence.
    + apply Hp; [|done]. by apply Hin.
  - intros w o1 o2 Hok1 _ _. by apply Hpost.
  - intros. by eapply recovered_stable.
  - intros w Hw. by apply Hin.
Qed.

Lemma stopping_settled o id : o_active_cancels o !! id = None -> stopping o id -> run_settled (o_store o) id.
Proof. intros Hn [Ht|]; [|done]. unfold token_cancelled in Ht. congruence. Qed.

(** (C20) Recovery after a restart is complete.  When a fresh process (no
    execution active) has run the two recoveries, every stored workflow is
    accounted for: a terminal one is unchanged; one with a pending
    cancellation is stored as Cancelled; one left Running without it is
    stored as Failed with the reason and its step ledger; one that had not
    started is unchanged.  No run of an attempt of a recovered workflow is
    left in a non-terminal state. *)
Theorem recovery_complete o o1 o2 n m id w :
  repo_ok (o_store o) -> (forall rid, o_active_cancels o !! rid = None) ->
  recover_workflow_cancellations o = (o1, Ok n) ->
  recover_interrupted_workflows o1 = (o2, Ok m) ->
  workflows_get (o_store o) id = Ok (Some w) ->
  exists w', workflows_get (o_store o2) id = Ok (Some w') /\
  let quiet := forall res a, res ∈ wr_steps w -> a ∈ sr_attempts res ->
                 run_settled (o_store o2) (sa_run a) in
  if WorkflowState_is_terminal (wr_state w) then w' = w
  else if is_some (wr_cancel_requested_at w)
       then ended_cancelled w w' "workflow cancellation recovered after restart" /\ quiet
  else if bool_decide (wr_state w = WsRunning) then ended_interrupted w w' /\ quiet
  else w' = w.
Proof.
  intros Hok Hact Hr1 Hr2 Hw.
  apply (recovery_pass _ _ _ _ _ _ closing_cancel_recovered cancel_recovered_Ok Hok)
    in Hr1 as (Hok1 & [W1 Hcl1] & Hrec1).
  apply (recovery_pass _ _ _ _ _ _ closing_fail_interrupted fail_interrupted_Ok Hok1)
    in Hr2 as (Hok2 & [W2 Hcl2] & Hrec2).
  pose proof (workflows_get_key _ _ _ Hok Hw) as Hid. pose proof (Hrec1 _ _ Hw) as Hrec.
  assert (Hact2 : forall rid, o_active_cancels o2 !! rid = None)
    by (intros; apply Hcl2, Hcl1, Hact).
  assert (Hquiet : forall P w', recovered P w' o2 -> forall res a, res ∈ wr_steps w' ->
    a ∈ sr_attempts res -> run_settled (o_store o2) (sa_run a)).
  { intros P w' (_ & _ & _ & Hs) res a Hres Ha. apply stopping_settled; [done|by eapply Hs]. }
  destruct (WorkflowState_is_terminal (wr_state w)) eqn:Et; cbn [orb] in Hrec.
  { exists w. split; [|done]. specialize (Hrec2 _ _ Hrec). cbn in Hrec2.
    destruct (wr_state w); done. }
  destruct (is_some (wr_cancel_requested_at w)) eqn:Ec; cbn [negb] in Hrec.
  - destruct Hrec as (w1 & Hg1 & Hend & Hs). rewrite Hid in Hg1. exists w1.
    pose proof Hend as (_ & _ & _ & _ & _ & _ & Hst). rewrite Et in Hst.
    specialize (Hrec2 _ _ Hg1). rewrite Hst, bool_decide_eq_false_2 in Hrec2 by done.
    split; [exact Hrec2|]. split; [exact Hend|].
    intros res a Hres Ha. apply stopping_settled; [done|].
    eapply stopping_closing; [exact Hok1|exact Hcl2|by eapply Hs].
  - specialize (Hrec2 _ _ Hrec). rewrite Ec, orb_false_r in Hrec2.
    case_bool_decide as Hrun; cbn in Hrec2; [|by exists w].
    pose proof (Hquiet _ _ Hrec2) as Hq. destruct Hrec2 as (w' & Hg & Hend & _). rewrite Hid in Hg.
    exists w'. split; [exact Hg|]. by split.
Qed.

(** *** Reproduction *)
Lemma reproduction_pin_Ok s original pin :
  reproduction_pin s original = Ok pin <->
  exists m d c, components_get s (spec_component (run_spec original)) (run_component_version original)
      = Ok (Some m) /\
    ComponentManifest_content_digest m = Ok d /\
    (forall d0, run_component_manifest_digest original = Some d0 -> d0 = d) /\
    ComponentManifest_capability m (spec_capability (run_spec original)) = Some c /\
    cap_contract_version c = run_contract_version original /\
    (forall i, i ∈ spec_inputs (run_spec original) ->
       exists a, artifacts_get s (in_artifact i) = Ok (Some a)) /\
    pin = {| pin_component_version := run_component_version original; pin_manifest_digest := d;
             pin_capability_contract_version := run_contract_version original |}.
Proof.
  unfold reproduction_pin. split.
  - intros (found & Hm & Hr)%bind_Ok. apply bind_Ok in Hr as (m & ->%ok_or_Ok & Hr).
    apply bind_Ok in Hr as (d & Hd & Hr). apply bind_Ok in Hr as ([] & Hdig & Hr).
    apply bind_Ok in Hr as (c & Hc%ok_or_Ok & Hr). apply bind_Ok in Hr as ([] & Hv & Hr).
    apply bind_Ok in Hr as ([] & Ha%forM_Ok & Hr). injection Hr as <-. ok_inv. bool_inv.
    exists m, d, c. split_and!; try done.
    + intros d0 Hd0. rewrite Hd0 in Hdig. ok_inv. by bool_inv.
    + intros i Hi. rewrite Forall_forall in Ha. specialize (Ha i Hi). ok_inv.
      destruct r as [a|]; [by exists a|done].
  - intros (m & d & c & Hm & Hd & Hdig & Hc & Hv & Ha & ->). rewrite Hm. cbn. rewrite Hd. cbn.
    apply bind_Ok. exists tt. split.
    { destruct (run_component_manifest_digest original) as [d0|]; [|done].
      rewrite (Hdig d0 eq_refl). by rewrite bool_decide_eq_true_2. }
    rewrite Hc. cbn. rewrite bool_decide_eq_true_2 by done. cbn. apply bind_Ok. exists tt. split; [|done].
    apply forM_Ok, Forall_forall. intros i Hi. destruct (Ha i Hi) as [a Hi']. by rewrite Hi'.
Qed.

(** Reproduction is exact and complete.  A reproduction that is accepted
    is a new queued run of the original's very specification, under the
    registered manifest of the original's version, with the digest and the
    contract version the original recorded, linked back to it, and the
    original's record is untouched.  Conversely a run that was once accepted
    under a manifest can be reproduced as long as that manifest is still
    registered and its inputs still exist: only a failing write can refuse
    it. *)
Theorem reproduce_run_exact id o o' res original :
  repo_ok (o_store o) -> runs_get (o_store o) id = Ok (Some original) ->
  reproduce_run id o = (o', res) ->
  match res with
  | Ok r => exists m d c, run_checked limits (o_store o) (run_spec original)
        (Some {| pin_component_version := run_component_version original; pin_manifest_digest := d;
                 pin_capability_contract_version := run_contract_version original |}) m d c /\
      (forall d0, run_component_manifest_digest original = Some d0 -> d0 = d) /\
      queued_record (run_spec original) m d c (Some id) r /\
      runs_get (o_store o') (run_id r) = Ok (Some r) /\
      (run_id r <> id -> runs_get (o_store o') id = Ok (Some original))
  | Err e =>
      forall s0 pin0 m d c, run_checked limits s0 (run_spec original) pin0 m d c ->
        run_component_version original = m_version m ->
        run_contract_version original = cap_contract_version c ->
        run_component_manifest_digest original = Some d ->
        registered (o_store o) m ->
        (forall i, i ∈ spec_inputs (run_spec original) ->
           exists a, artifacts_get (o_store o) (in_artifact i) = Ok (Some a)) ->
        exists r, runs_put (o_store o) r = (o_store o', Err e)
  end.
Proof.
  intros Hok Hg. unfold reproduce_run, query, mbind, action_bind, reads, lift. rewrite Hg. cbn.
  destruct (reproduction_pin (o_store o) original) as [pin|e0] eqn:Ep.
  - intros Hr. destruct res as [r|e].
    + destruct (submit_run_accepted _ _ _ _ _ _ _ Hok Hr) as (m & d & c & Hc & Hq & Hput).
      apply reproduction_pin_Ok in Ep as (m' & d' & c' & _ & _ & Hdig & _ & _ & _ & ->).
      pose proof (rc_resolved _ _ _ _ _ _ _ Hc) as (_ & -> & _).
      exists m, d', c. pose proof (runs_put_frame _ r Hok) as Hfr. rewrite Hput in Hfr.
      destruct Hfr as (_ & Hoth & _). apply runs_put_law in Hput; [|done]. split_and!; try done.
      intros Hne. by rewrite Hoth.
    + intros s0 pin0 m d c Hc Hv Hk Hd Hreg Ha.
      destruct (submit_run_refused _ _ _ _ _ _ _ Hok Hr) as [[_ He]|Hr']; [exfalso|done].
      apply reproduction_pin_Ok in Ep as (m' & d' & c' & Hm' & Hd' & Hdig & _ & _ & _ & ->).
      rewrite (submit_run_checks_complete _ _ _ _ m d c) in He; [done|].
      destruct Hc as [Hspec _ Hid _ Hdg Hcap Hsci Hports _ Hph]. split; try done.
      rewrite <- (Hdig _ Hd). done.
  - intros [= <- <-] s0 pin0 m d c Hc Hv Hk Hd Hreg Ha. exfalso.
    assert (Hex : exists pin, reproduction_pin (o_store o) original = Ok pin); [|destruct Hex; congruence].
    eexists. apply reproduction_pin_Ok. exists m, d, c.
    destruct Hc as [Hspec _ Hid _ Hdg Hcap _ _ _ _]. unfold registered in Hreg.
    rewrite <- Hid, Hv. split_and!; try done. congruence.
Qed.
End attempts.

(** ** A workflow that a restart finds running *)
Section witnesses.
#[local] Existing Instance plain_json.
#[local] Existing Instance toy_manifest_json.
#[local] Existing Instance toy_sha.
#[local] Existing Instance calm_environment.
#[local] Existing Instance plain_uuid.

(** [solver_hub] with the run 1 queued. *)
Definition queued_hub := (submit_run_internal Limits_default solve_spec None None solver_hub).1.

Lemma queued_hub_ok : repo_ok (o_store queued_hub).
Proof. apply (keeps_ok_submit_run (Store := InMemoryHubStore)); [apply _|exact solver_hub_ok]. Qed.

Definition half_attempt : StepAttempt := {|
  sa_id := from_uuid 40; sa_number := 1; sa_run := from_uuid 1; sa_state := RsRunning;
  sa_started_at := Some 1%N; sa_finished_at := None; sa_failure_category := None; sa_failure := None |}.

Definition half_done : StepResult := {|
  sr_key := "s"; sr_run := from_uuid 1; sr_state := RsRunning; sr_failure := None;
  sr_attempts := [half_attempt] |}.

Definition half_workflow : WorkflowRecord := {|
  wr_id := from_uuid 30; wr_spec := solve_workflow; wr_admission := Some solve_pins;
  wr_state := WsRunning; wr_model_version := mkVersion "1.2.0"; wr_created_at := 0;
  wr_started_at := Some 1%N; wr_finished_at := None; wr_cancel_requested_at := None;
  wr_steps := [half_done]; wr_failure := None |}.

Definition half_hub : Orchestrator InMemoryHubStore InMemoryPublicationFences :=
  set_store queued_hub (InMemoryHubStore_put_workflow (o_store queued_hub) half_workflow 2).1.

Lemma half_hub_ok : repo_ok (o_store half_hub).
Proof. exact (hub_keyed_put_workflow _ _ _ queued_hub_ok). Qed.

Lemma half_hub_stored : workflows_get (o_store half_hub) (from_uuid 30) = Ok (Some half_workflow).
Proof. by vm_compute. Qed.

Lemma half_hub_idle (rid : RunId) : o_active_cancels half_hub !! rid = None.
Proof.
  assert (E : o_active_cancels half_hub = ∅) by (by vm_compute). rewrite E. apply lookup_empty.
Qed.

Lemma half_hub_run :
  exists r, runs_get (o_store half_hub) (from_uuid 1) = Ok (Some r) /\ run_state r = RsQueued.
Proof.
  assert (Hs : (run_state <$> hs_runs (o_store half_hub) !! from_uuid 1) = Some RsQueued) by (by vm_compute).
  apply fmap_Some in Hs as (r & Hr & Hq). exists r. split; [|done].
  cbn [runs_get InMemoryRepositories]. by rewrite Hr.
Qed.

Lemma half_run_active : ~ run_settled (o_store half_hub) (from_uuid 1).
Proof.
  destruct half_hub_run as (r & Hr & Hq). intros Hset. specialize (Hset _ Hr). by rewrite Hq in Hset.
Qed.

Lemma cancel_workflow_sound_witness :
  let res := cancel_workflow (from_uuid 30) half_hub in
  res.2 = Ok false /\ ~ run_settled (o_store half_hub) (from_uuid 1) /\ stopping res.1 (from_uuid 1) /\
  exists w, workflows_get (o_store res.1) (from_uuid 30) = Ok (Some w) /\
    ended_cancelled half_workflow w "workflow cancellation requested".
Proof.
  intros res. assert (Hb : res.2 = Ok false) by (by vm_compute).
  split; [exact Hb|]. split; [exact half_run_active|].
  assert (Hrun : cancel_workflow (from_uuid 30) half_hub = (res.1, Ok false))
    by (rewrite <- Hb; apply surjective_pairing).
  clearbody res.
  destruct (cancel_workflow_sound _ _ _ _ half_hub_ok Hrun) as (_ & old & Hold & Hs).
  rewrite half_hub_stored in Hold. injection Hold as <-. cbn [WorkflowState_is_terminal wr_state half_workflow] in Hs.
  assert (Ha : o_active_workflow_cancels half_hub !! (from_uuid 30 : WorkflowId) = None) by (by vm_compute).
  rewrite Ha in Hs. destruct Hs as (_ & w & Hw & Hend & Hstop). split; [|exists w; split; [exact Hw|exact Hend]].
  apply (Hstop half_done half_attempt); left.
Defined.

Lemma recovery_complete_witness :
  let res1 := recover_workflow_cancellations half_hub in
  let res2 := recover_interrupted_workflows res1.1 in
  res1.2 = Ok 0%N /\ res2.2 = Ok 1%N /\
  exists w', workflows_get (o_store res2.1) (from_uuid 30) = Ok (Some w') /\
    ended_interrupted half_workflow w' /\ run_settled (o_store res2.1) (from_uuid 1).
Proof.
  intros res1 res2. assert (H1 : res1.2 = Ok 0%N) by (by vm_compute).
  assert (H2 : res2.2 = Ok 1%N) by (by vm_compute). split; [exact H1|]. split; [exact H2|].
  assert (R1 : recover_workflow_cancellations half_hub = (res1.1, Ok 0%N))
    by (rewrite <- H1; apply surjective_pairing).
  assert (R2 : recover_interrupted_workflows res1.1 = (res2.1, Ok 1%N))
    by (rewrite <- H2; apply surjective_pairing).
  clearbody res2. clearbody res1.
  destruct (recovery_complete _ _ _ _ _ _ _ half_hub_ok half_hub_idle R1 R2 half_hub_stored)
    as (w' & Hw & Hend & Hquiet).
  exists w'. split; [exact Hw|]. split; [exact Hend|].
  apply (Hquiet half_done half_attempt); left.
Defined.

Lemma reproduce_run_exact_witness :
  let res := reproduce_run Limits_default (from_uuid 1) half_hub in
  exists original r, runs_get (o_store half_hub) (from_uuid 1) = Ok (Some original) /\
    res.2 = Ok r /\ run_spec r = run_spec original /\
    run_reproduced_from r = Some (from_uuid 1) /\
    runs_get (o_store res.1) (run_id r) = Ok (Some r).
Proof.
  intros res. destruct half_hub_run as (original & Ho & _).
  assert (Hok : is_ok res.2 = true) by (by vm_compute).
  pose proof (reproduce_run_exact Limits_default (from_uuid 1) half_hub res.1 res.2 original half_hub_ok Ho
    (surjective_pairing _)) as Hr.
  clearbody res. destruct res as [o' [r|e]]; [|discriminate Hok].
  destruct Hr as (m & d & c & _ & _ & Hq & Hg & _). exists original, r.
  split; [exact Ho|]. split; [reflexivity|]. split; [apply Hq|]. split; [apply Hq|exact Hg].
Defined.
End witnesses.
