(* ===== verification/Threads.v ===== *)
(** * Threads that share a state

    A thread is a sequence of atomic actions on a shared state; before each of
    them other threads may have changed the state along a rely relation.  This
    file holds threads, their executions under interference and the proof
    rules used for the workflow workers. *)

From stdpp Require Import base list.
From S2P Require Import Prelude.

Section threads.
Context {S E : Type}.

(** A thread that has ended with a result, or one whose next atomic action
    gives the new state and the rest of the thread. *)
Inductive thread (A : Type) : Type :=
| Ended (r : result E A)
| Atom (step : S -> S * thread A).
#[global] Arguments Ended {A} _.
#[global] Arguments Atom {A} _.

(** Induction over the rest of a thread after any state. *)
Lemma thread_induction {A} (P : thread A -> Prop) :
  (forall r, P (Ended r)) -> (forall step, (forall s, P (step s).2) -> P (Atom step)) -> forall t, P t.
Proof using Type.
  intros He Ha. fix go 1. intros [r|step]; [apply He|]. apply Ha. intros s. apply go.
Qed.

Definition atomic {A} (m : action S E A) : thread A :=
  Atom (fun s => let '(s', r) := m s in (s', Ended r)).

Fixpoint thread_bind_def {A B} (f : A -> thread B) (t : thread A) : thread B :=
  match t with
  | Ended (Ok a) => f a
  | Ended (Err e) => Ended (Err e)
  | Atom step => Atom (fun s => let '(s', t) := step s in (s', thread_bind_def f t))
  end.

#[global] Instance thread_ret : MRet thread := fun A a => Ended (Ok a).
#[global] Instance thread_bind : MBind thread := fun A B => thread_bind_def.

(** ** Executions under interference *)
Context (R : relation S) `{!PreOrder R}.

Inductive exec {A} : thread A -> S -> result E A -> S -> Prop :=
| exec_ended r s : exec (Ended r) s r s
| exec_atom step s s1 r s' :
    R s s1 -> exec (step s1).2 (step s1).1 r s' -> exec (Atom step) s r s'.

(** The execution without interference. *)
Fixpoint run_thread {A} (t : thread A) (s : S) : S * result E A :=
  match t with
  | Ended r => (s, r)
  | Atom step => let '(s', t) := step s in run_thread t s'
  end.

Lemma exec_run {A} (t : thread A) s : exec t s (run_thread t s).2 (run_thread t s).1.
Proof using Type*.
  revert s. induction t as [r|step IH] using thread_induction; intros s; cbn; [constructor|].
  specialize (IH s). apply exec_atom with s; [reflexivity|]. destruct (step s) as [s' t]. apply IH.
Qed.

(** Every thread can be executed to its end, from any state. *)
Lemma exec_total {A} (t : thread A) s : exists r s', exec t s r s'.
Proof using Type*. do 2 eexists. apply exec_run. Qed.

Lemma exec_bind {A B} (t : thread A) (f : A -> thread B) s r s' :
  exec (t ≫= f) s r s' ->
  exists ra s1, exec t s ra s1 /\
    match ra with Ok a => exec (f a) s1 r s' | Err e => r = Err e /\ s' = s1 end.
Proof using Type.
  revert s. induction t as [[a|e]|step IH] using thread_induction; intros s Hr.
  - exists (Ok a), s. split; [constructor|done].
  - inversion Hr; subst. exists (Err e), s'. split; [constructor|done].
  - inversion Hr as [|step' ? s1 ? ? HR Hstep]; subst. clear Hr. specialize (IH s1).
    destruct (step s1) as [s2 t2] eqn:Es. cbn in Hstep, IH.
    destruct (IH s2 Hstep) as (ra & s3 & Ht2 & Hra). exists ra, s3. split; [|done].
    econstructor; [exact HR|]. by rewrite Es.
Qed.

(** ** Proof rules *)

(** From a state in [P], whatever the interference, the thread ends in
    [Q]. *)
Definition rg {A} (P : S -> Prop) (t : thread A) (Q : result E A -> S -> Prop) : Prop :=
  forall s r s', P s -> exec t s r s' -> Q r s'.

Lemma rg_ended {A} (P : S -> Prop) (r : result E A) Q : (forall s, P s -> Q r s) -> rg P (Ended r) Q.
Proof using Type. intros HQ s r' s' Hs Hr. inversion Hr; subst. by apply HQ. Qed.

Lemma rg_ret {A} (P : S -> Prop) (a : A) Q : (forall s, P s -> Q (Ok a) s) -> rg P (mret a) Q.
Proof using Type. apply rg_ended. Qed.

Lemma rg_weaken {A} (P P' : S -> Prop) (t : thread A) (Q Q' : result E A -> S -> Prop) :
  rg P' t Q' -> (forall s, P s -> P' s) -> (forall r s, Q' r s -> Q r s) -> rg P t Q.
Proof using Type. intros Ht HP HQ s r s' Hs Hr. eapply HQ, Ht; eauto. Qed.

(** The assertion before an atomic action must survive interference. *)
Lemma rg_atomic {A} (P : S -> Prop) (m : action S E A) Q :
  (forall s s1, P s -> R s s1 -> P s1) -> triple P m Q -> rg P (atomic m) Q.
Proof using Type.
  intros Hstab Hm s r s' Hs Hr. inversion Hr as [|step ? s1 ? ? HR Hstep]; subst.
  specialize (Hm s1 (Hstab _ _ Hs HR)). destruct (m s1) as [s2 r2]. cbn in *.
  by inversion Hstep; subst.
Qed.

Lemma rg_bind {A B} (P : S -> Prop) (t : thread A) (f : A -> thread B) Q Q' :
  rg P t Q -> (forall a, rg (Q (Ok a)) (f a) Q') -> (forall e s, Q (Err e) s -> Q' (Err e) s) ->
  rg P (t ≫= f) Q'.
Proof using Type.
  intros Ht Hf He s r s' Hs (ra & s1 & Ha & Hra)%exec_bind. specialize (Ht _ _ _ Hs Ha).
  destruct ra as [a|e]; [by eapply Hf|]. destruct Hra as [-> ->]. by apply He.
Qed.

(** ** Threads under way *)

(** What the rest [t] of a thread promises from the state [s]. *)
Definition promises {A} (t : thread A) (Q : result E A -> S -> Prop) (s : S) : Prop :=
  forall r s', exec t s r s' -> Q r s'.

Lemma promises_ended {A} (r : result E A) Q s : promises (Ended r) Q s <-> Q r s.
Proof using Type.
  split; [intros Hp; apply Hp; constructor|]. intros HQ r' s' Hr. by inversion Hr; subst.
Qed.

(** The thread's own next action keeps the promise. *)
Lemma promises_step {A} step (Q : result E A -> S -> Prop) s :
  promises (Atom step) Q s -> promises (step s).2 Q (step s).1.
Proof using Type*. intros Hp r s' Hr. apply Hp. by apply exec_atom with s. Qed.

(** Interference keeps it, when the postcondition survives interference. *)
Lemma promises_rely {A} (t : thread A) (Q : result E A -> S -> Prop) s s1 :
  (forall r s s1, Q r s -> R s s1 -> Q r s1) -> R s s1 -> promises t Q s -> promises t Q s1.
Proof using Type*.
  intros HQ HR Hp. destruct t as [r|step].
  - rewrite promises_ended in *. by eapply HQ.
  - intros r s' Hr. inversion Hr as [|? ? s2 ? ? HR2 Hstep]; subst. apply Hp.
    apply exec_atom with s2; [by etrans|done].
Qed.

(** Every action of the thread, from any state, is along [G], and if it ends
    well its result is in [Q]. *)
Inductive does (G : relation S) {A} (Q : A -> Prop) : thread A -> Prop :=
| does_ended r : (forall a, r = Ok a -> Q a) -> does G Q (Ended r)
| does_atom step : (forall s, G s (step s).1) -> (forall s, does G Q (step s).2) -> does G Q (Atom step).

(** What is left of a thread after some of its actions. *)
Inductive rest_of {A} (t : thread A) : thread A -> Prop :=
| rest_all : rest_of t t
| rest_act act s : rest_of t (Atom act) -> rest_of t (act s).2.

Lemma does_rest (G : relation S) {A} (Q : A -> Prop) (t t' : thread A) :
  does G Q t -> rest_of t t' -> does G Q t'.
Proof using Type.
  intros Ht Hr. induction Hr as [|act s _ IH]; [done|]. inversion IH as [|? _ Hrest]; subst. apply Hrest.
Qed.

Lemma does_ret (G : relation S) {A} (Q : A -> Prop) (a : A) : Q a -> does G Q (mret a).
Proof using Type. intros HQ. constructor. by intros ? [= <-]. Qed.

Lemma does_atomic (G : relation S) {A} (Q : A -> Prop) (m : action S E A) :
  steps G m -> (forall s s' a, m s = (s', Ok a) -> Q a) -> does G Q (atomic m).
Proof using Type.
  intros Hm HQ. constructor; intros s; specialize (Hm s); destruct (m s) as [s' r] eqn:E1; [done|].
  constructor. intros a ->. by eapply HQ.
Qed.

Lemma does_bind (G : relation S) {A B} (Q : A -> Prop) (Q' : B -> Prop) (t : thread A) (f : A -> thread B) :
  does G Q t -> (forall a, Q a -> does G Q' (f a)) -> does G Q' (t ≫= f).
Proof using Type.
  intros Ht Hf. induction Ht as [[a|e] Ha|step Hs _ IH]; [by apply Hf, Ha|by constructor|].
  constructor; intros s; [specialize (Hs s)|specialize (IH s)]; by destruct (step s).
Qed.

Lemma does_if (G : relation S) {A} (Q : A -> Prop) (b : bool) (t1 t2 : thread A) :
  does G Q t1 -> does G Q t2 -> does G Q (if b then t1 else t2).
Proof using Type. by destruct b. Qed.
End threads.
Arguments thread S E A : clear implicits.
