(* ===== verification/Worker.v ===== *)
(** * The worker of one workflow step ([hub-core/src/orchestrator.rs], [execute_parallel_step])

    Each launched step runs on its own thread and shares with the scheduler
    and the other workers the Hub and the workflow record behind its lock.
    The worker is a thread of atomic actions -- one per critical section or
    call on the Hub -- and other threads may act between any two of them.
    [execute_run] is one action: it holds the claim on its run throughout, and
    what others can do to it meanwhile is to make the executor answer
    differently, which it may anyway. *)

From stdpp Require Import base gmap strings list.
From S2P Require Import Prelude Text Core Version Digest Machine Blobs Component Run Workflow Task.
From S2P Require Import TaskLifecycle Publication Event Memory Ports Exec Scicapsule Hub Submit.
From S2P Require Import Execute Attempts Threads.

Inductive ParallelStepTerminal :=
| Succeeded
| Failed (message : string)
| Cancelled (message : string).

Section worker.
Context `{JsonLib, ManifestJson, Sha256Lib, Environment, UuidLib} {backend : Executor}.
Context {Store Fences : Type} `{!Repositories Store, !PublicationFenceRepository Fences}.

(** The configuration; [polls] is how often the wait of a retry finds that its
    delay has not elapsed yet. *)
Context (limits : Limits) (blob_root workdir_root path_var : string) (polls : N -> Machine -> nat).

Abbreviation hub A := (action (Orchestrator Store Fences) CoreError A).

(** ** The state the threads share *)
Record Shared := {
  sh_hub : Orchestrator Store Fences;
  sh_record : WorkflowRecord;
}.

Abbreviation shared A := (action Shared CoreError A).
Abbreviation worker A := (thread Shared CoreError A).

Definition on_hub {A} (m : hub A) : shared A := fun sh =>
  let '(o, r) := m (sh_hub sh) in ({| sh_hub := o; sh_record := sh_record sh |}, r).

(** [let mut record = lock(..)?; f(&mut record); self.workflows.put(&record)?;] *)
Definition update_record (f : WorkflowRecord -> WorkflowRecord) : shared unit := fun sh =>
  let record := f (sh_record sh) in
  let '(o, r) := put_workflow record (sh_hub sh) in ({| sh_hub := o; sh_record := record |}, r).

(** The workflow's own token, as the map of active workflows holds it. *)
Definition workflow_token (o : Orchestrator Store Fences) (workflow_id : WorkflowId) : CancelToken :=
  default CancelToken_new (o_active_workflow_cancels o !! workflow_id).

(** [token.is_cancelled() || self.workflow_cancel_requested(workflow_id)?] *)
Definition should_stop (workflow_id : WorkflowId) : hub bool :=
  cancelled ← reads (fun o => Ok (is_cancelled (workflow_token o workflow_id)));
  if cancelled : bool then mret true else workflow_cancel_requested workflow_id.

(** ** One attempt *)
Definition begin_attempt (workflow_id : WorkflowId) (step : Step) (run_spec : RunSpec)
    (admission_pin : option ComponentAdmissionPin) (attempt_number : N)
    : worker (RunRecord * PublicationFence) :=
  submitted ← atomic (on_hub match admission_pin with
                             | Some pin => submit_run_pinned limits run_spec pin
                             | None => submit_run limits run_spec
                             end);
  fresh ← atomic (on_hub (on_machine new_v4));
  let attempt_id : AttemptId := from_uuid fresh in
  _ ← atomic (update_record (fun record => record_attempt record (step_key step)
        {| sa_id := attempt_id; sa_number := attempt_number; sa_run := run_id submitted;
           sa_state := run_state submitted; sa_started_at := run_started_at submitted;
           sa_finished_at := run_finished_at submitted; sa_failure_category := None;
           sa_failure := None |}));
  publication_fence ← atomic (on_hub (on_fences (fun s =>
        advance_publication_fence s workflow_id (step_key step) attempt_id)));
  _ ← atomic (on_hub (register_active_workflow_run workflow_id (run_id submitted)));
  mret (submitted, publication_fence).

Definition run_attempt (workflow_id : WorkflowId) (id : RunId) : worker (Result RunRecord) :=
  stop ← atomic (on_hub (should_stop workflow_id));
  _ ← (if stop : bool then atomic (on_hub (cancel_run id)) else mret false);
  executed ← atomic (on_hub (attempt (execute_run (backend := backend) limits blob_root workdir_root
                                        path_var id)));
  _ ← atomic (on_hub (unregister_active_workflow_run workflow_id id));
  mret executed.

(** The map of authoritative outputs; a label that occurs twice is refused. *)
Definition published_outputs (outputs : list OutputRef) : Result (gmap string ArtifactId) :=
  foldM (fun m output =>
    _ ← ensure (negb (is_some (m !! or_name output)))
          (Validation "step {:?} produced duplicate output label {:?}; authoritative publication is ambiguous");
    Ok (<[or_name output := or_artifact output]> m)) ∅ outputs.

Definition publish_attempt (finished : RunRecord) (publication_fence : PublicationFence)
    : worker ParallelStepTerminal :=
  outputs ← Ended (outcome ← ok_or (run_outcome finished)
                     (Storage "succeeded run {} has no recorded outcome for authoritative publication");
                   published_outputs (ro_outputs outcome));
  _ ← atomic (on_hub (on_fences (fun s => publish_authoritative_outputs s
        {| asp_fence := publication_fence; asp_outputs := outputs |})));
  mret Succeeded.

(** ** The wait between attempts *)
Fixpoint poll_backoff (n : nat) (workflow_id : WorkflowId) : worker bool :=
  stop ← atomic (on_hub (should_stop workflow_id));
  if stop : bool then mret false
  else match n with
  | O => mret true
  | S n => poll_backoff n workflow_id
  end.

Definition wait_retry_backoff (workflow_id : WorkflowId) (backoff_ms : N) : worker bool :=
  if (backoff_ms =? 0)%N then
    atomic (on_hub (
      cancelled ← reads (fun o => Ok (is_cancelled (workflow_token o workflow_id)));
      if cancelled : bool then mret false
      else
        found ← query (fun s => workflows_get s workflow_id);
        mret match found with
             | Some record => negb (is_some (wr_cancel_requested_at record))
             | None => false
             end))
  else
    n ← atomic (on_hub (reads (fun o => Ok (polls backoff_ms (o_machine o)))));
    poll_backoff n workflow_id.

(** ** The loop over attempts *)
Definition retries (step : Step) (attempt_number : N) (category : option AttemptFailureCategory) : bool :=
  match step_retry step with
  | Some policy => (attempt_number <? rp_max_attempts policy)%N &&
                   RetryPolicy_allows policy (default AfExecutionError category)
  | None => false
  end.

(** The body of the loop; [next] is the rest of it after a retry. *)
Definition attempt_once (next : worker ParallelStepTerminal) (workflow_id : WorkflowId) (step : Step)
    (run_spec : RunSpec) (admission_pin : option ComponentAdmissionPin) (attempt_number : N)
    : worker ParallelStepTerminal :=
  stop ← atomic (on_hub (should_stop workflow_id));
  if stop : bool then mret (Cancelled "workflow cancellation requested")
  else
    '(submitted, publication_fence) ←
      begin_attempt workflow_id step run_spec admission_pin attempt_number;
    executed ← run_attempt workflow_id (run_id submitted);
    match executed with
    | Err error =>
        current_run ← atomic (on_hub (query (fun s => runs_get s (run_id submitted))));
        _ ← atomic (update_record (fun record => finish_recorded_attempt record (step_key step)
              (run_id submitted) current_run (Some AfExecutionError) (Some (CoreError_to_string error))));
        Ended (Err error)
    | Ok finished =>
        let category := classify_attempt_failure finished in
        let failure := run_outcome finished ≫= ro_failure in
        _ ← atomic (update_record (fun record => finish_recorded_attempt record (step_key step)
              (run_id submitted) (Some finished) category failure));
        cancelled ← atomic (on_hub (workflow_cancel_requested workflow_id));
        if cancelled || bool_decide (run_state finished = RsCancelled) then
          mret (Cancelled (default "workflow cancellation requested" failure))
        else if bool_decide (run_state finished = RsSucceeded) then
          publish_attempt finished publication_fence
        else if negb (retries step attempt_number category) then
          mret (Failed "step {:?} attempt {attempt_number} ended in state {}{}")
        else
          let backoff_ms := default 0%N (step_retry step ≫= rp_backoff_ms) in
          go_on ← wait_retry_backoff workflow_id backoff_ms;
          if negb go_on then
            mret (Cancelled "workflow cancellation requested during retry backoff")
          else next
    end.


(** With [fuel] for at least [max_attempts] rounds the last case is never
    reached. *)
Fixpoint attempt_loop (fuel : nat) (workflow_id : WorkflowId) (step : Step) (run_spec : RunSpec)
    (admission_pin : option ComponentAdmissionPin) (attempt_number : N)
    : worker ParallelStepTerminal :=
  attempt_once
    match fuel with
    | O => Ended (Err (Panic "attempts"))
    | S fuel => attempt_loop fuel workflow_id step run_spec admission_pin (attempt_number + 1)
    end
    workflow_id step run_spec admission_pin attempt_number.

Definition max_attempts (step : Step) : N :=
  match step_retry step with Some policy => rp_max_attempts policy | None => 1 end.

Definition execute_parallel_step (workflow_id : WorkflowId) (step : Step)
    (resolved : gmap string ArtifactId) : worker ParallelStepTerminal :=
  let run_spec := WorkflowSpec_step_run_spec step resolved in
  admission_pin ← atomic (reads (fun sh =>
        Ok (wr_admission (sh_record sh) ≫= fun pins => pins_steps pins !! step_key step)));
  attempt_loop (N.to_nat (max_attempts step)) workflow_id step run_spec admission_pin 1.

(** ** How runs evolve while workers work *)
Context `{!RepositoriesLaws Store, !PublicationFenceLaws Fences}.

(** A stored run keeps its identity, and once over it is frozen. *)
Definition evolves (r r' : RunRecord) : Prop :=
  run_spec r' = run_spec r /\ run_component_version r' = run_component_version r /\
  run_contract_version r' = run_contract_version r /\
  (forall d, run_component_manifest_digest r = Some d -> run_component_manifest_digest r' = Some d) /\
  (RunState_is_terminal (run_state r) = true -> r' = r).

Definition runs_evolve (s s' : Store) : Prop :=
  forall id r, runs_get s id = Ok (Some r) ->
    exists r', runs_get s' id = Ok (Some r') /\ evolves r r'.

Lemma evolves_refl r : evolves r r.
Proof. by split_and!. Qed.

Lemma evolves_trans r1 r2 r3 : evolves r1 r2 -> evolves r2 r3 -> evolves r1 r3.
Proof.
  intros (? & ? & ? & Hd & Ht) (? & ? & ? & Hd' & Ht'). split_and!; try congruence; [auto|].
  intros Hr. rewrite (Ht Hr) in *. auto.
Qed.

Lemma same_runs_evolve s s' : same_runs s s' -> runs_evolve s s'.
Proof. intros Hs id r Hr. exists r. rewrite Hs. split; [done|apply evolves_refl]. Qed.

(** The fences and the workflows' tokens are left alone and the runs
    evolve. *)
Definition quiet (o o' : Orchestrator Store Fences) : Prop :=
  repo_ok (o_store o) ->
  repo_ok (o_store o') /\ runs_evolve (o_store o) (o_store o') /\ o_fences o' = o_fences o /\
  o_active_workflow_cancels o' = o_active_workflow_cancels o.

#[global] Instance quiet_preorder : PreOrder quiet.
Proof.
  split.
  - intros o Hok. split_and!; [done|by apply same_runs_evolve|done..].
  - intros a b c Hab Hbc Hok. destruct (Hab Hok) as (Hb & Eab & ? & ?). destruct (Hbc Hb) as (Hc & Ebc & ? & ?).
    split_and!; [done| |congruence..].
    intros id r Hr. destruct (Eab id r Hr) as (r1 & Hr1 & He1). destruct (Ebc id r1 Hr1) as (r2 & Hr2 & He2).
    exists r2. split; [done|by eapply evolves_trans].
Qed.

(** The store, the fences and the tokens are the same. *)
Lemma quiet_same o o' :
  o_store o' = o_store o -> o_fences o' = o_fences o ->
  o_active_workflow_cancels o' = o_active_workflow_cancels o -> quiet o o'.
Proof. intros Hs Hf Ht Hok. rewrite Hs. split_and!; [done|by apply same_runs_evolve|done..]. Qed.

Lemma quiet_on_machine {A} (act : action Machine CoreError A) : steps quiet (on_machine act).
Proof. intros o. unfold on_machine. destruct (act _). by apply quiet_same. Qed.

Lemma quiet_query {A} (f : Store -> Result A) : steps quiet (query f).
Proof. intros o. reflexivity. Qed.

Lemma quiet_modify f :
  (forall o, o_store (f o) = o_store o /\ o_fences (f o) = o_fences o /\
     o_active_workflow_cancels (f o) = o_active_workflow_cancels o) -> steps quiet (modify f).
Proof. intros Hf o. destruct (Hf o) as (? & ? & ?). by apply quiet_same. Qed.

Lemma quiet_put_workflow w : steps quiet (put_workflow w).
Proof.
  unfold put_workflow. apply steps_bind; [apply _|apply quiet_on_machine|]. intros t o Hok. unfold on_store.
  pose proof (workflows_put_frame (o_store o) w t) as Hf. destruct (workflows_put _ _ _) as [s r].
  destruct (Hf Hok) as (? & _ & _ & Hr & _). split_and!; [done|by apply same_runs_evolve|done..].
Qed.

#[local] Hint Resolve quiet_preorder quiet_on_machine quiet_query quiet_put_workflow : steps.

Lemma quiet_register wid id : steps quiet (register_active_workflow_run wid id).
Proof. by apply quiet_modify. Qed.

Lemma quiet_unregister wid id : steps quiet (unregister_active_workflow_run wid id).
Proof. apply quiet_modify. intros o. by destruct (o_active_workflow_runs o !! wid). Qed.

Lemma quiet_cancel_requested wid : steps quiet (workflow_cancel_requested wid).
Proof. unfold workflow_cancel_requested. eauto with steps. Qed.

Lemma quiet_should_stop wid : steps quiet (should_stop wid).
Proof.
  unfold should_stop. apply steps_bind; [apply _|eauto with steps|]. intros [].
  - eauto with steps.
  - apply quiet_cancel_requested.
Qed.

(** Writing a record that evolves from the stored one. *)
Lemma quiet_runs_put r r1 o :
  (repo_ok (o_store o) -> runs_get (o_store o) (run_id r1) = Ok (Some r)) -> evolves r r1 ->
  quiet o (on_store (fun s => runs_put s r1) o).1.
Proof.
  intros Hg He. unfold on_store. pose proof (runs_put_frame (o_store o) r1) as Hf.
  pose proof (runs_put_law (o_store o) r1) as Hl. pose proof (runs_put_failed (o_store o) r1) as Hx.
  destruct (runs_put _ _) as [s res]. intros Hok. specialize (Hg Hok). cbn in *.
  destruct (Hf Hok) as (Hok' & Ho & _). split_and!; [done| |done..]. intros id r0 Hr0.
  destruct (decide (id = run_id r1)) as [->|Hne]; [|exists r0; rewrite Ho by done; split; [done|apply evolves_refl]].
  rewrite Hg in Hr0. injection Hr0 as <-. destruct res as [[]|e].
  - exists r1. split; [by apply Hl|done].
  - destruct (Hx s e Hok eq_refl) as [Heq|Heq]; rewrite Heq; [exists r|exists r1]; (split; [done|]).
    + apply evolves_refl.
    + done.
Qed.

Lemma evolves_transition r to now r' :
  RunRecord_transition r to now = (r', Ok tt) -> RunState_is_terminal (run_state r) = false -> evolves r r'.
Proof.
  intros (_ & _ & (? & ? & _ & ? & Hd & ? & _) & _)%transition_Ok Ht.
  split_and!; try done; [by intros d Hd'; rewrite Hd|congruence].
Qed.

Lemma quiet_cancel_run id : steps quiet (cancel_run id).
Proof.
  intros o. unfold cancel_run. destruct (o_active_cancels o !! id) as [t|].
  { by apply quiet_same. }
  unfold query, mbind, action_bind, reads, lift.
  destruct (runs_get (o_store o) id) as [[r|]|e] eqn:Eg; cbn; [|reflexivity..].
  destruct (RunState_is_terminal (run_state r)) eqn:Et; [reflexivity|].
  pose proof (quiet_on_machine SystemClock_now_ms o) as Hq. revert Hq. unfold on_machine, SystemClock_now_ms. cbn. intros Hq.
  destruct (RunRecord_transition r RsCancelled _) as [r1 [[]|e]] eqn:Ert; [|exact Hq].
  etrans; [exact Hq|]. pose proof (evolves_transition _ _ _ _ Ert Et) as He.
  apply transition_Ok in Ert as (_ & _ & (Hid & _) & _).
  pose proof (quiet_runs_put r r1 (set_machine o (tick (o_machine o)))) as Hp.
  destruct (on_store _ _) as [o1 [[]|e]]; apply Hp; try done; cbn; intros Hok;
    by rewrite Hid, (runs_get_key _ _ _ Hok Eg).
Qed.

Abbreviation execute_run' := (execute_run (backend := backend) limits blob_root workdir_root path_var).

(** What an executed run keeps. *)
Lemma carried_evolves r0 r d :
  RunState_is_terminal (run_state r0) = false ->
  (forall d0, run_component_manifest_digest r0 = Some d0 -> d0 = d) ->
  carried (RunRecord_set_admission r0 (Some d) (run_reproduced_from r0)) r -> evolves r0 r.
Proof.
  intros Ht Hd (_ & Hs & Hv & Hdg & Hk & _). cbn in *. split_and!; try done; [|congruence].
  intros d0 Hd0. by rewrite (Hd _ Hd0).
Qed.

Lemma run_progress_evolves s b r0 r d :
  RunState_is_terminal (run_state r0) = false ->
  (forall d0, run_component_manifest_digest r0 = Some d0 -> d0 = d) ->
  run_progress s b (RunRecord_set_admission r0 (Some d) (run_reproduced_from r0)) r -> evolves r0 r.
Proof. intros Ht Hd [r' Hc _ _ _|r' Hc _ _ _|r' [Hc _ _ _]]; by eapply carried_evolves. Qed.

Lemma execute_run_evolves id (o o' : Orchestrator Store Fences) res r0 :
  stored id r0 o -> execute_run' id o = (o', res) ->
  exists r, stored id r o' /\ evolves r0 r /\
    match res with Ok r' => r' = r | Err _ => True end.
Proof.
  intros Hst Hr. apply (execute_run_spec _ _ _ _ _ r0) in Hr as [Hfr Hr]; [|done].
  assert (Hok' : repo_ok (o_store o')) by (destruct Hfr as [Hfr _]; by apply Hfr, Hst).
  destruct (o_active_cancels o !! id).
  { destruct Hr as [-> ->]. exists r0. split_and!; [apply Hst..|apply evolves_refl|done]. }
  destruct Hr as [[Hres Hg]|(Hq & m & d & (_ & _ & Hd & _) & Hex)].
  { exists r0. split; [by split|]. split; [apply evolves_refl|]. by destruct res. }
  assert (Ht : RunState_is_terminal (run_state r0) = false) by (by rewrite Hq).
  destruct res as [r|e]; cbn in Hex.
  - destruct Hex as [Hs [Hc _ _ _]]. exists r. split_and!; [apply Hs..| |done]. by eapply carried_evolves.
  - destruct Hex as (r & Hs & [->|Hp]).
    + exists r0. split_and!; [apply Hs..|apply evolves_refl|done].
    + exists r. split_and!; [apply Hs..| |done]. by eapply run_progress_evolves.
Qed.

Lemma execute_run_unknown id (o : Orchestrator Store Fences) :
  (forall r, runs_get (o_store o) id <> Ok (Some r)) ->
  let o' := (execute_run' id o).1 in
  o_store o' = o_store o /\ o_fences o' = o_fences o /\
  o_active_workflow_cancels o' = o_active_workflow_cancels o.
Proof.
  intros Hn o'. subst o'. unfold execute_run. destruct (o_active_cancels o !! id); [done|].
  unfold execute_run_inner, query, mbind, action_bind, reads, load_queued_run. cbn.
  destruct (runs_get (o_store o) id) as [[r|]|e] eqn:Eg; cbn; [by specialize (Hn r)|by split_and!..].
Qed.

Lemma quiet_execute_run id : steps quiet (execute_run' id : hub RunRecord).
Proof.
  intros o Hok. destruct (runs_get (o_store o) id) as [[r0|]|e] eqn:Eg.
  - assert (Hst : stored id r0 o) by (by split).
    destruct (execute_run' id o) as [o' res] eqn:Er. cbn.
    pose proof (execute_run_evolves id o o' res r0 Hst Er) as (r & Hs & He & _).
    apply (execute_run_spec _ _ _ _ _ r0) in Er as [(Hfr & Hf & _ & Ht & _) _]; [|done].
    destruct (Hfr Hok) as (? & _ & Hoth & _). split_and!; [done| |done..].
    intros id' r' Hr'. destruct (decide (id' = id)) as [->|Hne].
    + exists r. split; [apply Hs|]. rewrite Eg in Hr'. by injection Hr' as <-.
    + exists r'. rewrite Hoth by done. split; [done|apply evolves_refl].
  - destruct (execute_run_unknown id o) as (? & ? & ?); [by rewrite Eg|]. by apply quiet_same.
  - destruct (execute_run_unknown id o) as (? & ? & ?); [by rewrite Eg|]. by apply quiet_same.
Qed.

(** ** One worker among others *)
Section one_step.
Context (wid : WorkflowId) (step : Step) (run_spec' : RunSpec) (pin : option ComponentAdmissionPin).

(** What the other threads -- the scheduler, the workers of other steps, API
    calls -- may do: anything that keeps the repositories in order, lets runs
    evolve, and leaves this step's entry in the ledger and its fence alone. *)
Definition worker_rely (sh sh' : Shared) : Prop :=
  repo_ok (o_store (sh_hub sh)) ->
  repo_ok (o_store (sh_hub sh')) /\ runs_evolve (o_store (sh_hub sh)) (o_store (sh_hub sh')) /\
  (ledger_ok (sh_record sh) -> ledger_ok (sh_record sh') /\
     step_result (sh_record sh') (step_key step) = step_result (sh_record sh) (step_key step)) /\
  wr_admission (sh_record sh') = wr_admission (sh_record sh) /\
  same_step (o_fences (sh_hub sh)) (o_fences (sh_hub sh')) wid (step_key step).

Context (R : relation Shared) (HR : forall sh sh', R sh sh' -> worker_rely sh sh').

(** Assertions: [K] on the runs, [L] on the step's entry, and the step's
    authoritative publication. *)
Record held (K : Store -> Prop) (L : option StepResult -> Prop)
    (pub : option AuthoritativeStepPublication) (sh : Shared) : Prop := {
  held_ok : repo_ok (o_store (sh_hub sh));
  held_ledger : ledger_ok (sh_record sh);
  held_runs : K (o_store (sh_hub sh));
  held_entry : L (step_result (sh_record sh) (step_key step));
  held_pub : authoritative_publication (o_fences (sh_hub sh)) wid (step_key step) = Ok pub;
}.

(** A fact about runs that survives their evolution. *)
Definition lasting (K : Store -> Prop) : Prop := forall s s', runs_evolve s s' -> K s -> K s'.

Definition known (r : RunRecord) (s : Store) : Prop :=
  exists r', runs_get s (run_id r) = Ok (Some r') /\ evolves r r'.

Lemma lasting_known r : lasting (known r).
Proof.
  intros s s' He (r1 & Hr1 & H1'). destruct (He _ _ Hr1) as (r2 & Hr2 & H2'). exists r2.
  split; [done|by eapply evolves_trans].
Qed.

Lemma lasting_true : lasting (fun _ => True).
Proof. done. Qed.

Lemma held_stable K L pub sh sh' : lasting K -> held K L pub sh -> R sh sh' -> held K L pub sh'.
Proof.
  intros HK [Hok Hl Hk He Hp] Hr. destruct (HR _ _ Hr Hok) as (? & Hev & Hl' & _ & _ & Hpub). destruct (Hl' Hl) as [? Hs].
  split; [done|done|by eapply HK|by rewrite Hs|by rewrite Hpub].
Qed.

Lemma held_quiet {A} K L pub (m : hub A) :
  lasting K -> steps quiet m -> triple (held K L pub) (on_hub m) (fun _ => held K L pub).
Proof.
  intros HK Hm sh [Hok Hl Hk He Hp]. unfold on_hub. specialize (Hm (sh_hub sh) Hok).
  destruct (m (sh_hub sh)) as [o r]. destruct Hm as (? & Hev & Hf & _). cbn in *.
  split; cbn; [done|done|by eapply HK|done|by rewrite Hf].
Qed.

(** A call on the Hub that lets runs evolve. *)
Lemma rg_quiet {A} K L pub (m : hub A) :
  lasting K -> steps quiet m -> rg R (held K L pub) (atomic (on_hub m)) (fun _ => held K L pub).
Proof.
  intros HK Hm. apply rg_atomic; [intros; by eapply held_stable|by apply held_quiet].
Qed.

(** The bind of such a call. *)
Lemma rg_bind_quiet {A B} K L pub (m : hub A) (f : A -> worker B) Q :
  lasting K -> steps quiet m -> (forall a, rg R (held K L pub) (f a) Q) ->
  (forall e sh, held K L pub sh -> Q (Err e) sh) ->
  rg R (held K L pub) (a ← atomic (on_hub m); f a) Q.
Proof. intros HK Hm Hf He. eapply rg_bind; [by apply rg_quiet|done|done]. Qed.

(** Writing the ledger of this step. *)
Lemma rg_bind_record {B} K (L L' : option StepResult -> Prop) pub g (f : unit -> worker B) Q :
  lasting K ->
  (forall w, ledger_ok w -> L (step_result w (step_key step)) ->
     ledger_ok (g w) /\ L' (step_result (g w) (step_key step))) ->
  rg R (held K L' pub) (f tt) Q ->
  (forall e sh, held K L' pub sh -> Q (Err e) sh) ->
  rg R (held K L pub) (a ← atomic (update_record g); f a) Q.
Proof.
  intros HK Hg Hf He. eapply (rg_bind _ _ _ _ (fun _ => held K L' pub)); [|by intros []|done].
  apply rg_atomic; [intros; by eapply held_stable|]. intros sh [Hok Hl Hk Hent Hp]. unfold update_record.
  pose proof (quiet_put_workflow (g (sh_record sh)) (sh_hub sh) Hok) as Hq.
  destruct (put_workflow _ _) as [o r]. destruct Hq as (? & Hev & Hf' & _). destruct (Hg _ Hl Hent).
  cbn in *. split; cbn; [done|done|by eapply HK|done|by rewrite Hf'].
Qed.

(** Advancing the fence clears the publication, publishing sets it. *)
Lemma rg_bind_advance {B} K L pub a (f : PublicationFence -> worker B) Q :
  lasting K ->
  (forall fence, pf_workflow fence = wid -> pf_step_key fence = step_key step -> pf_attempt fence = a ->
     rg R (held K L None) (f fence) Q) ->
  (forall e sh, held K L pub sh -> Q (Err e) sh) ->
  rg R (held K L pub) (fence ← atomic (on_hub (on_fences (fun s =>
       advance_publication_fence s wid (step_key step) a))); f fence) Q.
Proof.
  intros HK Hf He. eapply (rg_bind _ _ _ _ (fun res sh => match res with
    | Ok fence => held K L None sh /\ pf_workflow fence = wid /\ pf_step_key fence = step_key step /\
                  pf_attempt fence = a
    | Err _ => held K L pub sh end)).
  - apply rg_atomic; [intros; by eapply held_stable|]. intros sh [Hok Hl Hk Hent Hp].
    unfold on_hub, on_fences.
    destruct (advance_publication_fence _ _ _ _) as [s [fence|e]] eqn:Ea; cbn.
    + apply advance_Ok in Ea as (? & ? & ? & _ & _ & _ & Hn & _). by split_and!.
    + split; try done. cbn. by rewrite (proj2 (advance_Err _ _ _ _ _ _ Ea _ _)).
  - intros fence. intros sh r sh' (Hh & ? & ? & ?). by eapply Hf.
  - done.
Qed.

Lemma rg_bind_publish {B} K L p (f : PublicationCommit -> worker B) Q :
  lasting K -> pf_workflow (asp_fence p) = wid -> pf_step_key (asp_fence p) = step_key step ->
  (forall c, rg R (held K L (Some p)) (f c) Q) ->
  (forall e sh, held K L None sh -> Q (Err e) sh) ->
  rg R (held K L None) (c ← atomic (on_hub (on_fences (fun s => publish_authoritative_outputs s p))); f c) Q.
Proof.
  intros HK Hw Hs Hf He. eapply (rg_bind _ _ _ _ (fun res sh => match res with
    | Ok _ => held K L (Some p) sh | Err _ => held K L None sh end)); [|done|done].
  apply rg_atomic; [intros; by eapply held_stable|]. intros sh [Hok Hl Hk Hent Hp].
  unfold on_hub, on_fences. destruct (publish_authoritative_outputs _ _) as [s [c|e]] eqn:Ea; cbn.
  - apply publish_Ok in Ea as (_ & _ & Hn & _). rewrite Hw, Hs in Hn. by split.
  - split; try done. cbn. by rewrite (proj2 (publish_Err _ _ _ _ Ea _ _)).
Qed.

(** *** Submitting the attempt's run *)
Definition fences_kept (o o' : Orchestrator Store Fences) : Prop :=
  o_fences o' = o_fences o /\ o_active_workflow_cancels o' = o_active_workflow_cancels o.

#[local] Instance fences_kept_preorder : PreOrder fences_kept.
Proof. split; [done|]. intros a b c [] []. split; congruence. Qed.

Lemma fences_kept_store {A} (f : Store -> Store * Result A) : steps fences_kept (on_store f).
Proof. intros o. unfold on_store. by destruct (f _). Qed.

Lemma fences_kept_machine {A} (act : action Machine CoreError A) : steps fences_kept (on_machine act).
Proof. intros o. unfold on_machine. by destruct (act _). Qed.

Lemma fences_kept_query {A} (f : Store -> Result A) : steps fences_kept (query f).
Proof. by intros o. Qed.

#[local] Hint Resolve fences_kept_preorder fences_kept_store fences_kept_machine fences_kept_query : steps.

Lemma fences_kept_submit spec rf p : steps fences_kept (submit_run_internal limits spec rf p).
Proof. unfold submit_run_internal. solve_steps. Qed.

(** The run of an attempt is a run of the step's specification, under the
    pinned identity if there is one. *)
Definition admitted (r : RunRecord) : Prop :=
  run_spec r = run_spec' /\
  forall p, pin = Some p ->
    run_component_version r = pin_component_version p /\
    run_component_manifest_digest r = Some (pin_manifest_digest p) /\
    run_contract_version r = pin_capability_contract_version p.

Lemma admitted_evolves r r' : admitted r -> evolves r r' -> admitted r'.
Proof.
  intros [Hs Hp] (Hs' & Hv & Hk & Hd & _). split; [congruence|]. intros p Hpin.
  destruct (Hp p Hpin) as (? & ? & ?). split_and!; [congruence|by apply Hd|congruence].
Qed.

Definition submit_attempt : hub RunRecord :=
  match pin with
  | Some pin => submit_run_pinned limits run_spec' pin
  | None => submit_run limits run_spec'
  end.

Lemma submit_attempt_Ok o o' r :
  repo_ok (o_store o) -> submit_attempt o = (o', Ok r) ->
  known r (o_store o') /\ admitted r.
Proof.
  intros Hok Hr. assert (Hr' : submit_run_internal limits run_spec' None pin o = (o', Ok r))
    by (by unfold submit_attempt in Hr; destruct pin).
  destruct (submit_run_accepted _ _ _ _ _ _ _ Hok Hr') as (m & d & c & Hc & Hq & Hput).
  apply runs_put_law in Hput; [|done]. destruct Hq as (Hs & _ & _ & Hv & Hk & Hd & _).
  split; [exists r; split; [done|apply evolves_refl]|]. split; [done|]. intros p Hpin.
  pose proof (rc_resolved _ _ _ _ _ _ _ Hc) as Hres. rewrite Hpin in Hres.
  destruct Hres as (Hver & Hdig & Hcv). split_and!; congruence.
Qed.

Lemma rg_bind_submit {B} L pub (f : RunRecord -> worker B) Q :
  (forall r, admitted r -> rg R (held (known r) L pub) (f r) Q) ->
  (forall e sh, held (fun _ => True) L pub sh -> Q (Err e) sh) ->
  rg R (held (fun _ => True) L pub) (r ← atomic (on_hub submit_attempt); f r) Q.
Proof.
  intros Hf He. eapply (rg_bind _ _ _ _ (fun res sh => match res with
    | Ok r => held (known r) L pub sh /\ admitted r | Err _ => held (fun _ => True) L pub sh end)).
  - apply rg_atomic; [intros; by eapply held_stable|]. intros sh [Hok Hl Hk Hent Hp]. unfold on_hub.
    assert (Hs : exists rf p, submit_attempt = submit_run_internal limits run_spec' rf p)
      by (unfold submit_attempt; destruct pin; by do 2 eexists).
    destruct Hs as (rf & p & Hs).
    pose proof (keeps_ok_submit_run limits run_spec' rf p (sh_hub sh) Hok) as Hok'.
    pose proof (fences_kept_submit run_spec' rf p (sh_hub sh)) as Hf'. rewrite <- Hs in Hok', Hf'.
    destruct Hf' as [Hf' _].
    destruct (submit_attempt (sh_hub sh)) as [o [r|e]] eqn:Es; cbn in *.
    + destruct (submit_attempt_Ok _ _ _ Hok Es) as [Hkn Had]. split; [|done].
      split; cbn; try done. by rewrite Hf'.
    + split; cbn; try done. by rewrite Hf'.
  - intros r sh res sh' [Hh Had]. by eapply Hf.
  - done.
Qed.

(** *** The ledger of this step *)
Definition entry_ids (ids : list (AttemptId * N * RunId)) (e : option StepResult) : Prop :=
  attempt_ids (match e with Some r => sr_attempts r | None => [] end) = ids.

(** Attempts are numbered from 1 in the order they were made. *)
Definition logged (n : nat) (ids : list (AttemptId * N * RunId)) : Prop :=
  (fun x => x.1.2) <$> ids = N.of_nat <$> seq 1 n.

Lemma logged_snoc n ids a i number :
  logged n ids -> number = N.of_nat (S n) -> logged (S n) (ids ++ [(a, number, i)]).
Proof. unfold logged. intros Hl ->. by rewrite fmap_app, seq_S, fmap_app, Hl. Qed.

Lemma entry_record_attempt ids w a :
  ledger_ok w -> entry_ids ids (step_result w (step_key step)) ->
  ledger_ok (record_attempt w (step_key step) a) /\
  entry_ids (ids ++ [(sa_id a, sa_number a, sa_run a)])
    (step_result (record_attempt w (step_key step) a) (step_key step)).
Proof.
  intros Hl Hids. destruct (record_attempt_spec w (step_key step) a Hl) as (Hl' & _ & Hr & _).
  split; [done|]. rewrite Hr. unfold entry_ids, attempt_ids in *. cbn. rewrite fmap_app.
  unfold attempts_of. by rewrite Hids.
Qed.

(** The entry after an attempt was finished. *)
Definition entry_finished (ids : list (AttemptId * N * RunId)) (id : RunId) (st : RunState)
    (e : option StepResult) : Prop :=
  entry_ids ids e /\ (ids <> [] -> exists r, e = Some r /\ sr_run r = id /\ sr_state r = st).

Lemma entry_finish_attempt ids w id run category failure :
  ledger_ok w -> entry_ids ids (step_result w (step_key step)) ->
  ledger_ok (finish_recorded_attempt w (step_key step) id run category failure) /\
  entry_finished ids id (match run with Some r => run_state r | None => RsFailed end)
    (step_result (finish_recorded_attempt w (step_key step) id run category failure) (step_key step)).
Proof.
  intros Hl Hids.
  destruct (finish_recorded_attempt_spec w (step_key step) id run category failure Hl) as (Hl' & _ & _ & Hr).
  split; [done|]. unfold entry_finished, entry_ids, attempts_of in *.
  destruct (step_result w (step_key step)) as [r|] eqn:Er.
  - destruct Hr as (attempts' & Hs & Hi). rewrite Hs. cbn [sr_attempts]. rewrite Hi. split; [done|]. by eauto.
  - rewrite Hr, Er. split; [done|]. by rewrite <- Hids.
Qed.

(** *** One attempt *)

(** The step has made at most [bound] attempts and published nothing. *)
Definition unpublished (bound : N) (sh : Shared) : Prop :=
  exists ids n, held (fun _ => True) (entry_ids ids) None sh /\ logged n ids /\ (N.of_nat n <= bound)%N.

Lemma held_unpublished K ids n bound sh :
  held K (entry_ids ids) None sh -> logged n ids -> (N.of_nat n <= bound)%N -> unpublished bound sh.
Proof. intros [? ? ? ? ?] Hl Hb. exists ids, n. by split_and!. Qed.

Lemma begin_attempt_rg ids n number :
  logged n ids -> number = N.of_nat (S n) ->
  rg R (held (fun _ => True) (entry_ids ids) None) (begin_attempt wid step run_spec' pin number)
    (fun res sh => match res with
     | Ok (r, fence) =>
         held (known r) (entry_ids (ids ++ [(pf_attempt fence, number, run_id r)])) None sh /\
         admitted r /\ pf_workflow fence = wid /\ pf_step_key fence = step_key step
     | Err _ => unpublished number sh
     end).
Proof.
  intros Hlog Hn. unfold begin_attempt. change (match pin with
    | Some p => submit_run_pinned limits run_spec' p | None => submit_run limits run_spec' end)
    with submit_attempt.
  assert (Hb : (N.of_nat n <= number)%N) by lia.
  apply rg_bind_submit; [|by intros; eapply held_unpublished]. intros r Had.
  apply rg_bind_quiet; [apply lasting_known|eauto with steps| |by intros; eapply held_unpublished].
  intros fresh. pose proof (logged_snoc n ids (from_uuid fresh) (run_id r) number Hlog Hn) as Hlog'.
  assert (Hb' : (N.of_nat (S n) <= number)%N) by lia.
  apply (rg_bind_record _ _ (entry_ids (ids ++ [(from_uuid fresh, number, run_id r)])));
    [apply lasting_known| | |by intros; eapply held_unpublished].
  { intros w Hl He. by apply (entry_record_attempt ids). }
  apply rg_bind_advance; [apply lasting_known| |by intros; eapply held_unpublished].
  intros fence Hw Hs Ha.
  apply rg_bind_quiet; [apply lasting_known|apply quiet_register| |by intros; eapply held_unpublished].
  intros _. apply rg_ret. intros sh Hh. rewrite Ha. by split_and!.
Qed.

(** What the worker learns from an execution. *)
Definition observed (id : RunId) (r : RunRecord) : Prop :=
  run_id r = id /\ admitted r /\ RunState_is_terminal (run_state r) = true /\
  (run_state r = RsSucceeded -> exists oc, run_outcome r = Some oc /\ ro_exit_code oc = Some 0%Z).

Lemma execute_run_observed (o o' : Orchestrator Store Fences) r0 r :
  repo_ok (o_store o) -> known r0 (o_store o) -> admitted r0 ->
  execute_run' (run_id r0) o = (o', Ok r) -> known r (o_store o') /\ observed (run_id r0) r.
Proof.
  intros Hok (r1 & Hg & He) Had Hr. pose proof (admitted_evolves _ _ Had He) as Had1.
  assert (Hst : stored (run_id r0) r1 o) by (by split).
  pose proof (execute_run_evolves _ _ _ _ _ Hst Hr) as (r2 & [Hok2 Hs] & He2 & ->).
  pose proof (runs_get_key _ _ _ Hok2 Hs) as Hid.
  apply (execute_run_spec _ _ _ _ _ r1) in Hr as [_ Hr]; [|done].
  split; [exists r2; split; [by rewrite Hid|apply evolves_refl]|].
  destruct (o_active_cancels o !! run_id r0); [by destruct Hr|].
  destruct Hr as [[? _]|(_ & m & d & _ & _ & Hfin)]; [done|].
  destruct Hfin as [_ _ Hterm (oc & Hoc & _ & _ & Hsucc & _)].
  split_and!; [done|by eapply admitted_evolves|done|]. intros Hst2. exists oc.
  split; [done|]. by apply Hsucc.
Qed.

Lemma held_any K L pub sh : held K L pub sh -> held (fun _ => True) L pub sh.
Proof. by intros []. Qed.

Lemma run_attempt_rg L r0 :
  admitted r0 ->
  rg R (held (known r0) L None) (run_attempt wid (run_id r0))
    (fun res sh => match res with
     | Ok (Ok r) => held (known r) L None sh /\ observed (run_id r0) r
     | _ => held (fun _ => True) L None sh
     end).
Proof.
  intros Had. unfold run_attempt.
  apply rg_bind_quiet; [apply lasting_known|apply quiet_should_stop| |by intros; eapply held_any].
  intros stop. eapply (rg_bind _ _ _ _ (fun _ => held (known r0) L None)); [| |by intros; eapply held_any].
  { destruct stop; [apply rg_quiet; [apply lasting_known|apply quiet_cancel_run]|by apply rg_ret]. }
  intros _. eapply (rg_bind _ _ _ _ (fun res sh => match res with
     | Ok (Ok r) => held (known r) L None sh /\ observed (run_id r0) r
     | _ => held (fun _ => True) L None sh end)); [| |done].
  - apply rg_atomic; [intros; by eapply held_stable; [apply lasting_known|..]|].
    intros sh Hh. pose proof (held_quiet _ _ _ (attempt (execute_run' (run_id r0)) : hub (Result RunRecord))
      (lasting_known r0) (steps_attempt _ _ (quiet_execute_run _)) sh Hh) as Hh'.
    unfold on_hub, attempt in *. destruct Hh as [Hok _ Hk _ _].
    destruct (execute_run' (run_id r0) (sh_hub sh)) as [o [r|e]] eqn:Ex; cbn in *; [|by eapply held_any].
    destruct (execute_run_observed _ _ _ _ Hok Hk Had Ex) as [Hk' Hob]. split; [|done].
    by destruct Hh'.
  - intros [r|e].
    + intros sh res sh' [Hh Hob]. revert sh res sh' Hh.
      apply rg_bind_quiet; [apply lasting_known|apply quiet_unregister| |by intros; eapply held_any].
      intros _. apply rg_ret. done.
    + apply rg_bind_quiet; [done|apply quiet_unregister| |done]. intros _. by apply rg_ret.
Qed.

(** *** The whole step *)

(** The step succeeded: its last attempt's run is stored as Succeeded with
    exit code 0, and exactly that run's outputs are the step's authoritative
    publication, under that attempt's fence. *)
Definition published (bound : N) (sh : Shared) : Prop :=
  exists r oc p res a n,
    runs_get (o_store (sh_hub sh)) (run_id r) = Ok (Some r) /\ run_state r = RsSucceeded /\
    admitted r /\ run_outcome r = Some oc /\ ro_exit_code oc = Some 0%Z /\
    authoritative_publication (o_fences (sh_hub sh)) wid (step_key step) = Ok (Some p) /\
    published_outputs (ro_outputs oc) = Ok (asp_outputs p) /\
    step_result (sh_record sh) (step_key step) = Some res /\
    sr_run res = run_id r /\ sr_state res = RsSucceeded /\
    last (sr_attempts res) = Some a /\ sa_id a = pf_attempt (asp_fence p) /\ sa_run a = run_id r /\
    sa_number <$> sr_attempts res = N.of_nat <$> seq 1 n /\ (N.of_nat n <= bound)%N.

Definition step_post (bound : N) (res : Result ParallelStepTerminal) (sh : Shared) : Prop :=
  repo_ok (o_store (sh_hub sh)) /\ ledger_ok (sh_record sh) /\
  match res with
  | Ok Succeeded => published bound sh
  | _ => unpublished bound sh
  end.

Lemma unpublished_post bound bound' res sh :
  res <> Ok Succeeded -> unpublished bound sh -> (bound <= bound')%N -> step_post bound' res sh.
Proof.
  intros Hr (ids & n & Hh & Hl & Hb) Hle. split; [apply Hh|]. split; [apply Hh|].
  assert (Hu : unpublished bound' sh) by (exists ids, n; split_and!; [done|done|lia]).
  by destruct res as [[]|].
Qed.

Lemma entry_published ids n bound r p sh :
  held (known r) (entry_finished (ids ++ [(pf_attempt (asp_fence p), N.of_nat n, run_id r)])
    (run_id r) (run_state r)) (Some p) sh ->
  logged n (ids ++ [(pf_attempt (asp_fence p), N.of_nat n, run_id r)]) -> (N.of_nat n <= bound)%N ->
  run_state r = RsSucceeded -> admitted r ->
  (exists oc, run_outcome r = Some oc /\ ro_exit_code oc = Some 0%Z /\
     published_outputs (ro_outputs oc) = Ok (asp_outputs p)) ->
  step_post bound (Ok Succeeded) sh.
Proof.
  intros [Hok Hl (r' & Hg & He) [Hids Hent] Hp] Hlog Hb Hst Had (oc & Hoc & Hex & Hout).
  split; [done|]. split; [done|].
  assert (r' = r) as -> by (apply He; by rewrite Hst).
  destruct Hent as (res & Hres & Hrun & Hstate); [by destruct ids|].
  rewrite Hres in Hids. unfold entry_ids, attempt_ids in Hids.
  assert (Hlast : exists a, last (sr_attempts res) = Some a /\
    (sa_id a, sa_number a, sa_run a) = (pf_attempt (asp_fence p), N.of_nat n, run_id r)).
  { assert (Hla : last ((fun a => (sa_id a, sa_number a, sa_run a)) <$> sr_attempts res)
      = Some (pf_attempt (asp_fence p), N.of_nat n, run_id r)) by (rewrite Hids; apply last_snoc).
    rewrite fmap_last in Hla. apply fmap_Some in Hla as (a & Ha & Heq). by exists a. }
  destruct Hlast as (a & Hla & [= Ha1 _ Ha3]).
  exists r, oc, p, res, a, n. split_and!; try done; [congruence|].
  unfold logged in Hlog. rewrite <- Hids, <- list_fmap_compose in Hlog. exact Hlog.
Qed.

Lemma poll_backoff_rg K L pub n :
  lasting K -> rg R (held K L pub) (poll_backoff n wid) (fun _ => held K L pub).
Proof.
  intros HK. induction n as [|n IH]; cbn [poll_backoff];
    (apply rg_bind_quiet; [done|apply quiet_should_stop| |done]); intros [|];
    first [by apply rg_ret|done].
Qed.

Lemma wait_retry_backoff_rg K L pub ms :
  lasting K -> rg R (held K L pub) (wait_retry_backoff wid ms) (fun _ => held K L pub).
Proof.
  intros HK. unfold wait_retry_backoff. destruct (ms =? 0)%N.
  - apply rg_quiet; [done|]. apply steps_bind; [apply _|eauto with steps|]. intros []; eauto with steps.
  - apply rg_bind_quiet; [done|eauto with steps| |done]. intros n. by apply poll_backoff_rg.
Qed.

Lemma publish_attempt_rg ids n bound r fence :
  observed (run_id r) r -> run_state r = RsSucceeded ->
  pf_workflow fence = wid -> pf_step_key fence = step_key step ->
  logged n (ids ++ [(pf_attempt fence, N.of_nat n, run_id r)]) -> (N.of_nat n <= bound)%N ->
  rg R (held (known r) (entry_finished (ids ++ [(pf_attempt fence, N.of_nat n, run_id r)])
          (run_id r) (run_state r)) None)
    (publish_attempt r fence) (step_post bound).
Proof.
  intros (_ & Had & _ & Hsucc) Hst Hw Hs Hlog Hb. unfold publish_attempt.
  destruct (Hsucc Hst) as (oc & Hoc & Hex). rewrite Hoc. cbn [ok_or mbind result_bind].
  assert (Herr : forall e sh, held (known r) (entry_finished (ids ++ [(pf_attempt fence, N.of_nat n, run_id r)])
          (run_id r) (run_state r)) None sh -> step_post bound (Err e) sh).
  { intros e sh [? ? ? [? _] ?]. eapply (unpublished_post bound); [done| |lia]. 
    eapply (held_unpublished (known r)); [by split|done|done]. }
  destruct (published_outputs (ro_outputs oc)) as [outs|e] eqn:Eo; [|by apply rg_ended; auto].
  cbn [mbind thread_bind thread_bind_def].
  apply rg_bind_publish; [apply lasting_known|done|done| |done]. intros _. apply rg_ret. intros sh Hh.
  eapply (entry_published ids n bound r {| asp_fence := fence; asp_outputs := outs |});
    [exact Hh|done|done|done|done|]. by exists oc.
Qed.

Lemma attempt_once_rg next n ids number bound :
  logged n ids -> number = N.of_nat (S n) -> (number <= bound)%N ->
  (forall category ids', retries step number category = true -> logged (S n) ids' ->
     rg R (held (fun _ => True) (entry_ids ids') None) next (step_post bound)) ->
  rg R (held (fun _ => True) (entry_ids ids) None)
    (attempt_once next wid step run_spec' pin number) (step_post bound).
Proof.
  intros Hlog Hn Hb Hnext. unfold attempt_once.
  assert (Hun : forall K ids' n' res sh, held K (entry_ids ids') None sh -> logged n' ids' ->
    (n' <= S n)%nat -> res <> Ok Succeeded -> step_post bound res sh).
  { intros K ids' n' res sh Hh Hl Hle Hr. eapply (unpublished_post number); [done| |done].
    eapply held_unpublished; [exact Hh|exact Hl|lia]. }
  assert (Hun0 : forall K res sh, held K (entry_ids ids) None sh -> res <> Ok Succeeded ->
    step_post bound res sh) by (intros K res sh Hh Hr; apply (Hun K ids n res sh); auto).
  apply rg_bind_quiet; [done|apply quiet_should_stop| |by intros; eapply Hun0].
  intros [|]; [apply rg_ret; by intros; eapply Hun0|].
  eapply rg_bind; [by eapply begin_attempt_rg| |].
  2:{ intros e sh Hu. eapply (unpublished_post number); [done|exact Hu|done]. }
  intros [r0 fence] sh0 res0 sh0' (Hh0 & Had & Hw & Hs). revert sh0 res0 sh0' Hh0.
  pose proof (logged_snoc n ids (pf_attempt fence) (run_id r0) number Hlog Hn) as Hlog'.
  set (ids' := ids ++ _) in *.
  assert (Hun1 : forall K res sh, held K (entry_ids ids') None sh -> res <> Ok Succeeded ->
    step_post bound res sh) by (intros K res sh Hh Hr; apply (Hun K ids' (S n) res sh); auto).
  assert (Hun2 : forall K id st res sh, held K (entry_finished ids' id st) None sh -> res <> Ok Succeeded ->
    step_post bound res sh) by (intros K id st res sh [? ? ? [? _] ?] Hr; by apply (Hun1 K)).
  eapply rg_bind; [by apply run_attempt_rg| |by intros e sh Hh; apply (Hun1 _ _ _ Hh)].
  intros [r|e].
  2:{ apply rg_bind_quiet; [done|eauto with steps| |by intros; eapply Hun1]. intros cur.
      eapply (rg_bind_record _ _ (entry_ids ids')); [done| | |by intros; eapply Hun1].
      - intros w Hl He. by destruct (entry_finish_attempt ids' w (run_id r0) cur
          (Some AfExecutionError) (Some (CoreError_to_string e)) Hl He) as [? [? _]].
      - apply rg_ended. by intros; eapply Hun1. }
  intros sh1 res1 sh1' [Hh1 Hob]. revert sh1 res1 sh1' Hh1.
  pose proof Hob as (Hid & Had' & Hterm & Hsucc).
  apply (rg_bind_record _ _ (entry_finished ids' (run_id r0) (run_state r)));
    [apply lasting_known|by intros w Hl He; apply (entry_finish_attempt ids')| |by intros; eapply Hun2].
  apply rg_bind_quiet; [apply lasting_known|apply quiet_cancel_requested| |by intros; eapply Hun2].
  intros cancelled. destruct (_ || _); [apply rg_ret; by intros; eapply Hun2|].
  case_bool_decide as Hst.
  { subst ids'. rewrite Hn, <- Hid in *. by apply publish_attempt_rg; try lia. }
  destruct (retries step number _) eqn:Ert; cbn [negb]; [|apply rg_ret; by intros; eapply Hun2].
  eapply rg_bind; [apply wait_retry_backoff_rg, lasting_known| |by intros e sh Hh; apply (Hun2 _ _ _ _ _ Hh)].
  intros [|]; cbn [negb]; [|apply rg_ret; by intros; eapply Hun2].
  eapply rg_weaken; [by eapply Hnext| |done]. by intros sh [? ? ? [? _] ?].
Qed.

Lemma retries_max number category :
  retries step number category = true -> (number < max_attempts step)%N.
Proof. unfold retries, max_attempts. destruct (step_retry step); [|done]. intros. bool_inv. lia. Qed.

Lemma attempt_loop_rg fuel n ids number :
  logged n ids -> number = N.of_nat (S n) -> (number <= max_attempts step)%N ->
  (max_attempts step <= number + N.of_nat fuel)%N ->
  rg R (held (fun _ => True) (entry_ids ids) None)
    (attempt_loop fuel wid step run_spec' pin number) (step_post (max_attempts step)).
Proof.
  revert n ids number. induction fuel as [|fuel IH]; intros n ids number Hlog Hn Hmax Hfuel;
    cbn [attempt_loop]; (eapply attempt_once_rg; [exact Hlog|exact Hn|exact Hmax|]);
    intros category ids' Hr%retries_max Hlog'; [lia|].
  apply (IH (S n)); [done|lia..].
Qed.
End one_step.

Lemma step_publication wid step resolved (R : relation Shared) sh :
  PreOrder R -> (forall sh sh', R sh sh' -> worker_rely wid step sh sh') ->
  (1 <= max_attempts step)%N ->
  repo_ok (o_store (sh_hub sh)) -> ledger_ok (sh_record sh) ->
  step_result (sh_record sh) (step_key step) = None ->
  authoritative_publication (o_fences (sh_hub sh)) wid (step_key step) = Ok None ->
  (exists res sh', exec R (execute_parallel_step wid step resolved) sh res sh') /\
  forall res sh', exec R (execute_parallel_step wid step resolved) sh res sh' ->
    step_post wid step (WorkflowSpec_step_run_spec step resolved)
      (wr_admission (sh_record sh) ≫= fun pins => pins_steps pins !! step_key step)
      (max_attempts step) res sh'.
Proof.
  intros Hpre HR Hmax Hok Hl Hnone Hpub. split; [by apply exec_total|].
  set (pin := wr_admission (sh_record sh) ≫= _).
  set (spec := WorkflowSpec_step_run_spec step resolved).
  set (P := fun sh1 => held wid step (fun _ => True) (entry_ids []) None sh1 /\
    wr_admission (sh_record sh1) = wr_admission (sh_record sh)).
  assert (HP : P sh) by (split; [by split; rewrite ?Hnone|done]).
  intros res sh' Hex. refine ((_ : rg R P _ _) sh res sh' HP Hex).
  unfold execute_parallel_step. eapply (rg_bind _ _ _ _ (fun r sh1 => P sh1 /\ r = Ok pin)).
  - apply rg_atomic.
    + intros s s1 [Hh Ha] Hr. split; [by eapply held_stable|].
      destruct (HR _ _ Hr (held_ok _ _ _ _ _ _ Hh)) as (_ & _ & _ & Hadm & _). congruence.
    + intros s [Hh Ha]. cbn. split; [done|]. by rewrite Ha.
  - intros p s r s' [[Hh _] [= ->]]. revert s r s' Hh.
    apply (attempt_loop_rg wid step spec pin R HR _ 0 [] 1); [done|done|done|lia].
  - by intros e s [_ ?].
Qed.

(** (C4) A workflow step publishes exactly what its successful attempt
    produced.  Whatever the other threads do within their rely -- API calls,
    the scheduler, other workers, cancellations -- a worker started on a step
    that was never attempted comes to an end, after at most the policy's
    number of attempts, numbered from 1 in the ledger.  If it reports success,
    its last attempt's run is stored as Succeeded with exit code 0, was
    submitted with the step's specification under the pinned identity, and
    the step's authoritative publication is exactly that run's outputs under
    that attempt's fence; on every other outcome, errors included, the step
    has no authoritative publication. *)
Theorem step_publication_exact wid step resolved (R : relation Shared) sh :
  PreOrder R -> (forall sh sh', R sh sh' -> worker_rely wid step sh sh') ->
  (1 <= max_attempts step)%N ->
  repo_ok (o_store (sh_hub sh)) -> ledger_ok (sh_record sh) ->
  step_result (sh_record sh) (step_key step) = None ->
  authoritative_publication (o_fences (sh_hub sh)) wid (step_key step) = Ok None ->
  (exists res sh', exec R (execute_parallel_step wid step resolved) sh res sh') /\
  forall res sh', exec R (execute_parallel_step wid step resolved) sh res sh' ->
    step_post wid step (WorkflowSpec_step_run_spec step resolved)
      (wr_admission (sh_record sh) ≫= fun pins => pins_steps pins !! step_key step)
      (max_attempts step) res sh'.
Proof. apply step_publication. Qed.

Lemma worker_rely_refl wid step sh : worker_rely wid step sh sh.
Proof. intros Hok. split_and!; try done. by apply same_runs_evolve. Qed.
End worker.

(** ** A concrete step *)
Section witnesses.
#[local] Existing Instance plain_json.
#[local] Existing Instance toy_manifest_json.
#[local] Existing Instance toy_workspace_json.
#[local] Existing Instance toy_sha.
#[local] Existing Instance calm_environment.
#[local] Existing Instance plain_uuid.

Definition matrix_step : Step := {|
  step_key := "solve"; step_component := from_uuid 7;
  step_capability := mkCapabilityName "linalg.solve"; step_parameters := ∅;
  step_inputs := {[ "matrix" := Artifact (from_uuid 0) ]}; step_after := [];
  step_timeout_ms := 10; step_retry := None |}.

Definition matrix_workflow : WorkflowRecord := {|
  wr_id := from_uuid 500;
  wr_spec := {| ws_schema_version := 1; ws_name := "solve"; ws_max_concurrency := 1;
                ws_steps := [matrix_step] |};
  wr_admission := None; wr_state := WsRunning; wr_model_version := mkVersion "1.2.0";
  wr_created_at := 0; wr_started_at := Some 1%N; wr_finished_at := None;
  wr_cancel_requested_at := None; wr_steps := []; wr_failure := None |}.

Definition matrix_shared : Shared :=
  {| sh_hub := matrix_hub; sh_record := matrix_workflow |}.

Abbreviation solve_step :=
  (execute_parallel_step (backend := writing_executor) Limits_default "/hub" "/work" "/bin"
     (fun _ _ => 0%nat) (from_uuid 500) matrix_step {[ "matrix" := from_uuid 0 ]}).

Lemma step_publication_exact_witness :
  let done := run_thread solve_step matrix_shared in
  done.2 = Ok Succeeded /\
  step_post (from_uuid 500) matrix_step
    (WorkflowSpec_step_run_spec matrix_step {[ "matrix" := from_uuid 0 ]}) None 1 (Ok Succeeded) done.1.
Proof.
  intros done. assert (Hok : done.2 = Ok Succeeded) by (by vm_compute). split; [exact Hok|].
  assert (Hex : exec eq solve_step matrix_shared done.2 done.1) by exact (exec_run eq solve_step matrix_shared).
  rewrite <- Hok. clearbody done.
  apply (step_publication_exact (backend := writing_executor) Limits_default "/hub" "/work" "/bin"
    (fun _ _ => 0%nat) (from_uuid 500) matrix_step {[ "matrix" := from_uuid 0 ]} eq matrix_shared).
  - apply _.
  - intros sh sh' ->. apply worker_rely_refl.
  - done.
  - apply matrix_hub_ok.
  - split; constructor.
  - reflexivity.
  - by vm_compute.
  - exact Hex.
Defined.
End witnesses.
