(* ===== verification/Guarantee.v ===== *)
(** * What the workers and the scheduler leave alone

    The other side of the rely of [Worker]: every atomic action of a worker
    keeps the repositories in order, lets runs evolve, never revives a
    cancelled token, and touches the ledger entry and the fence of its own
    step only.  The scheduler's actions, and those of the Hub's API, touch no
    step at all. *)

From stdpp Require Import base gmap strings list.
From S2P Require Import Prelude Text Core Version Digest Machine Blobs Component Run Workflow Task.
From S2P Require Import TaskLifecycle Publication Event Memory Ports Exec Scicapsule Hub Submit.
From S2P Require Import Execute Attempts Threads Worker.

Section guarantee.
Context `{JsonLib, ManifestJson, Sha256Lib, Environment, UuidLib} {backend : Executor}.
Context {Store Fences : Type} `{!Repositories Store, !PublicationFenceRepository Fences}.
Context `{!RepositoriesLaws Store, !PublicationFenceLaws Fences}.
Context (limits : Limits) (blob_root workdir_root path_var : string) (polls : N -> Machine -> nat).

Abbreviation hub A := (action (Orchestrator Store Fences) CoreError A).
Abbreviation shared_state := (Shared (Store := Store) (Fences := Fences)).

(** ** Moves *)
Section moves.
Context (wid : WorkflowId).

Definition stays_cancelled (o o' : Orchestrator Store Fences) : Prop :=
  is_cancelled (workflow_token o wid) = true -> is_cancelled (workflow_token o' wid) = true.

(** A change of the Hub that touches the fences of the workflow's steps in
    [K] only. *)
Definition hub_moves (K : string -> Prop) (o o' : Orchestrator Store Fences) : Prop :=
  repo_ok (o_store o) ->
  repo_ok (o_store o') /\ runs_evolve (o_store o) (o_store o') /\ stays_cancelled o o' /\
  forall k, ~ K k -> same_step (o_fences o) (o_fences o') wid k.

(** A change of the record that touches the ledger of the steps in [K]
    only. *)
Definition record_moves (K : string -> Prop) (w w' : WorkflowRecord) : Prop :=
  wr_id w' = wr_id w /\ wr_state w' = wr_state w /\ wr_spec w' = wr_spec w /\
  wr_admission w' = wr_admission w /\
  (ledger_ok w -> ledger_ok w' /\ forall k, ~ K k -> step_result w' k = step_result w k).

Definition moves (K : string -> Prop) (sh sh' : shared_state) : Prop :=
  hub_moves K (sh_hub sh) (sh_hub sh') /\ record_moves K (sh_record sh) (sh_record sh').

#[global] Instance hub_moves_preorder K : PreOrder (hub_moves K).
Proof.
  split.
  - intros o Hok. split_and!; [done|by apply same_runs_evolve|by intros ?|done].
  - intros a b c Hab Hbc Hok. destruct (Hab Hok) as (Hb & Eab & Tab & Sab).
    destruct (Hbc Hb) as (Hc & Ebc & Tbc & Sbc). split_and!; [done| |unfold stays_cancelled in *; auto|].
    + intros id r Hr. destruct (Eab id r Hr) as (r1 & Hr1 & He1). destruct (Ebc id r1 Hr1) as (r2 & Hr2 & He2).
      exists r2. split; [done|by eapply evolves_trans].
    + intros k Hk. destruct (Sab k Hk), (Sbc k Hk). split; congruence.
Qed.

#[global] Instance record_moves_preorder K : PreOrder (record_moves K).
Proof.
  split.
  - intros w. by split_and!.
  - intros a b c (? & ? & ? & ? & Lab) (? & ? & ? & ? & Lbc). split_and!; [congruence..|].
    intros Ha. destruct (Lab Ha) as [Hb Sab]. destruct (Lbc Hb) as [Hc Sbc]. split; [done|].
    intros k Hk. by rewrite Sbc, Sab.
Qed.

#[global] Instance moves_preorder K : PreOrder (moves K).
Proof.
  split; [intros sh; split; reflexivity|]. intros a b c [? ?] [? ?]. split; by etrans.
Qed.

Lemma hub_moves_weaken (K K' : string -> Prop) o o' :
  (forall k, K k -> K' k) -> hub_moves K o o' -> hub_moves K' o o'.
Proof. intros HK Hm Hok. destruct (Hm Hok) as (? & ? & ? & Hs). split_and!; auto. Qed.

(** Moves elsewhere are what a worker's rely allows. *)
Lemma moves_rely K step sh sh' : ~ K (step_key step) -> moves K sh sh' -> worker_rely wid step sh sh'.
Proof.
  intros Hk [Hh (_ & _ & _ & Ha & Hl)] Hok. destruct (Hh Hok) as (? & ? & _ & Hs).
  split_and!; [done|done| |done|by apply Hs]. intros Hw. destruct (Hl Hw). auto.
Qed.

(** ** The Hub's calls *)
Lemma quiet_moves K o o' : quiet o o' -> hub_moves K o o'.
Proof.
  intros Hq Hok. destruct (Hq Hok) as (? & ? & Hf & Ht). split_and!; [done|done| |by rewrite Hf].
  unfold stays_cancelled, workflow_token. by rewrite Ht.
Qed.

Lemma steps_quiet_moves {A} K (m : hub A) : steps quiet m -> steps (hub_moves K) m.
Proof. intros Hm o. apply quiet_moves, Hm. Qed.

Lemma steps_on_hub {A} K (m : hub A) : steps (hub_moves K) m -> steps (moves K) (on_hub m).
Proof.
  intros Hm sh. specialize (Hm (sh_hub sh)). unfold on_hub. destruct (m (sh_hub sh)). split; [done|].
  cbn. reflexivity.
Qed.

Lemma advance_moves owner key a :
  steps (hub_moves (fun k => owner = wid /\ key = k))
    (on_fences (fun s => advance_publication_fence s owner key a) : hub _).
Proof.
  intros o Hok. unfold on_fences. destruct (advance_publication_fence _ _ _ _) as [s [f|e]] eqn:Ea; cbn.
  - apply advance_Ok in Ea as (_ & _ & _ & _ & _ & _ & _ & Hs).
    split_and!; [done|by apply same_runs_evolve|by intros ?|]. intros k Hk. apply Hs. naive_solver.
  - split_and!; [done|by apply same_runs_evolve|by intros ?|]. intros k _. by eapply advance_Err.
Qed.

Lemma publish_moves owner key p :
  pf_workflow (asp_fence p) = owner -> pf_step_key (asp_fence p) = key ->
  steps (hub_moves (fun k => owner = wid /\ key = k))
    (on_fences (fun s => publish_authoritative_outputs s p) : hub _).
Proof.
  intros Hw Hk o Hok. unfold on_fences. destruct (publish_authoritative_outputs _ _) as [s [c|e]] eqn:Ea; cbn.
  - apply publish_Ok in Ea as (_ & _ & _ & Hs & _).
    split_and!; [done|by apply same_runs_evolve|by intros ?|]. intros k Hk'. apply Hs. naive_solver.
  - split_and!; [done|by apply same_runs_evolve|by intros ?|]. intros k _. by eapply publish_Err.
Qed.

(** UUIDs do not collide: none of those still to be drawn names a stored
    run. *)
Definition uuids_fresh (o : Orchestrator Store Fences) : Prop :=
  forall n r, (mc_tick (o_machine o) <= n)%N ->
    runs_get (o_store o) (from_uuid (env_uuid n)) <> Ok (Some r).

Lemma submit_moves K spec rf p o :
  uuids_fresh o -> hub_moves K o (submit_run_internal limits spec rf p o).1.
Proof.
  intros Hfresh. apply quiet_moves. intros Hok. set (res := submit_run_internal _ _ _ _ _).
  pose proof (submit_run_shape limits spec rf p o res.1 res.2 (surjective_pairing _)) as Hs.
  destruct (fences_kept_submit limits spec rf p o) as [Hf Ht]. fold res in Hf, Ht.
  pose proof (keeps_ok_submit_run limits spec rf p o Hok) as Hok'. fold res in Hok'.
  split_and!; [done| |done|done]. clearbody res. intros id r0 Hr0.
  destruct (submit_run_checks limits (o_store o) spec p) as [[[m d] c]|e] eqn:E.
  2:{ destruct Hs as [-> _]. exists r0. split; [done|apply evolves_refl]. }
  pose proof (submit_run_checks_Ok limits _ _ _ _ _ _ Hok E) as Hc. destruct (Hs (rc_spec _ _ _ _ _ _ _ Hc)) as (r & _ & Hid & Hput).
  assert (Hp : (runs_put (o_store o) r).1 = o_store res.1).
  { destruct res.2; [destruct Hput as [_ ->]|rewrite Hput]; done. }
  pose proof (runs_put_frame (o_store o) r Hok) as (_ & Hoth & _). rewrite Hp in Hoth.
  exists r0. split; [|apply evolves_refl]. rewrite Hoth; [done|]. intros ->. rewrite Hid in Hr0.
  eapply Hfresh, Hr0. lia.
Qed.

End moves.

(** ** The worker's guarantee *)
Section one_step.
Context (owner : WorkflowId) (step : Step).

(** The step of [owner] itself, among the steps of a workflow. *)
Definition own (wid : WorkflowId) (k : string) : Prop := owner = wid /\ step_key step = k.

(** Each action moves this step only, if UUIDs do not collide. *)
Definition guarantee (sh sh' : shared_state) : Prop :=
  uuids_fresh (sh_hub sh) ->
  (forall wid, hub_moves wid (own wid) (sh_hub sh) (sh_hub sh')) /\
  record_moves (eq (step_key step)) (sh_record sh) (sh_record sh').

(** To the owner's other steps ... *)
Lemma guarantee_moves sh sh' :
  guarantee sh sh' -> uuids_fresh (sh_hub sh) -> moves owner (eq (step_key step)) sh sh'.
Proof.
  intros Hg Hfresh. destruct (Hg Hfresh) as [Hm Hr]. split; [|done].
  eapply hub_moves_weaken, Hm. by intros k [_ Hk].
Qed.

(** ... and to other workflows. *)
Lemma guarantee_elsewhere wid sh sh' :
  wid <> owner -> guarantee sh sh' -> uuids_fresh (sh_hub sh) ->
  hub_moves wid (fun _ => False) (sh_hub sh) (sh_hub sh').
Proof. intros Hw Hg Hfresh. eapply hub_moves_weaken, (Hg Hfresh). by intros k [-> _]. Qed.

Abbreviation keeps_still t := (does guarantee (fun _ => True) t).

Lemma on_hub_Ok {A} (m : hub A) (sh sh' : shared_state) a :
  on_hub m sh = (sh', Ok a) -> exists o, m (sh_hub sh) = (o, Ok a).
Proof. unfold on_hub. destruct (m (sh_hub sh)) as [o r]. intros [= _ ->]. by exists o. Qed.

Lemma does_hub {A} (Q : A -> Prop) (m : hub A) :
  (forall o wid, uuids_fresh o -> hub_moves wid (own wid) o (m o).1) ->
  (forall o o' a, m o = (o', Ok a) -> Q a) -> does guarantee Q (atomic (on_hub m)).
Proof.
  intros Hm HQ. apply does_atomic.
  - intros sh Hfresh. unfold on_hub. split; [|by destruct (m (sh_hub sh))].
    intros wid. specialize (Hm _ wid Hfresh). by destruct (m (sh_hub sh)).
  - intros sh sh' a [o Ho]%on_hub_Ok. by eapply HQ.
Qed.

Lemma does_quiet {A} (m : hub A) : steps quiet m -> keeps_still (atomic (on_hub m)).
Proof. intros Hm. apply does_hub; [|done]. intros o wid _. apply quiet_moves, Hm. Qed.

Lemma does_record g :
  (forall w, record_moves (eq (step_key step)) w (g w)) -> keeps_still (atomic (update_record g)).
Proof.
  intros Hg. apply does_atomic; [|done]. intros sh _. unfold update_record.
  pose proof (quiet_put_workflow (g (sh_record sh)) (sh_hub sh)) as Hq.
  destruct (put_workflow _ _) as [o r]. split; [intros wid; by apply quiet_moves|apply Hg].
Qed.

Lemma record_attempt_moves w a : record_moves (eq (step_key step)) w (record_attempt w (step_key step) a).
Proof.
  split_and!; try (unfold record_attempt; by destruct (update_first _ _ _)).
  intros Hl. destruct (record_attempt_spec w (step_key step) a Hl) as (? & _ & _ & Ho).
  split; [done|]. intros k Hk. apply Ho. congruence.
Qed.

Lemma finish_attempt_moves w id run c f :
  record_moves (eq (step_key step)) w (finish_recorded_attempt w (step_key step) id run c f).
Proof.
  split_and!; try (unfold finish_recorded_attempt; by destruct (update_first _ _ _)).
  intros Hl. destruct (finish_recorded_attempt_spec w (step_key step) id run c f Hl) as (? & _ & Ho & _).
  split; [done|]. intros k Hk. apply Ho. congruence.
Qed.

#[local] Hint Resolve quiet_preorder quiet_on_machine quiet_query quiet_put_workflow quiet_register quiet_unregister
  quiet_cancel_requested quiet_should_stop quiet_cancel_run quiet_execute_run : steps.
#[local] Hint Resolve record_attempt_moves finish_attempt_moves : steps.

(** One action after another. *)
Ltac solve_does :=
  repeat match goal with
  | |- does _ _ (mbind _ _) => apply (does_bind _ (fun _ => True)); [|intros ? _]
  | |- does _ _ (mret _) => by apply does_ret
  | |- does _ _ (Ended _) => by constructor
  | |- does _ _ (if _ then _ else _) => apply does_if
  | |- does _ _ (match ?x with _ => _ end) => destruct x
  | |- does _ _ (atomic (on_hub _)) => solve [apply does_quiet; solve_steps]
  | |- does _ _ (atomic (update_record _)) => solve [apply does_record; eauto with steps]
  end.

(** A fence of this step. *)
Definition own_fence (fence : PublicationFence) : Prop :=
  pf_workflow fence = owner /\ pf_step_key fence = step_key step.

Lemma begin_attempt_does spec pin number :
  does guarantee (fun p => own_fence p.2) (begin_attempt limits owner step spec pin number).
Proof.
  unfold begin_attempt. apply (does_bind _ (fun _ => True)); [|intros r _].
  { apply does_hub; [|done]. intros o wid Hfresh. destruct pin; by apply submit_moves. }
  apply (does_bind _ (fun _ => True)); [solve_does|intros u _].
  apply (does_bind _ (fun _ => True)); [solve_does|intros _ _].
  apply (does_bind _ own_fence); [|intros fence Hf].
  { apply does_hub; [intros o wid _; apply advance_moves|]. intros o o' fence. unfold on_fences.
    destruct (advance_publication_fence _ _ _ _) as [s [f|e]] eqn:Ea; intros [= _ <-].
    apply advance_Ok in Ea as (? & ? & _). by split. }
  apply (does_bind _ (fun _ => True)); [solve_does|intros _ _]. by apply does_ret.
Qed.

Lemma publish_attempt_does finished fence : own_fence fence -> keeps_still (publish_attempt finished fence).
Proof.
  intros [Hw Hk]. unfold publish_attempt. apply (does_bind _ (fun _ => True)); [by constructor|].
  intros outputs _. apply (does_bind _ (fun _ => True)); [|intros; by apply does_ret].
  apply does_hub; [|done]. intros o wid _. by apply publish_moves.
Qed.

Lemma poll_backoff_does n : keeps_still (poll_backoff n owner).
Proof. induction n as [|n IH]; cbn [poll_backoff]; solve_does. exact IH. Qed.

Lemma wait_retry_backoff_does ms : keeps_still (wait_retry_backoff polls owner ms).
Proof.
  unfold wait_retry_backoff. solve_does. apply poll_backoff_does.
Qed.

Lemma run_attempt_does id :
  keeps_still (run_attempt (backend := backend) limits blob_root workdir_root path_var owner id).
Proof. unfold run_attempt. solve_does. Qed.

Lemma attempt_once_does next spec pin number :
  keeps_still next ->
  keeps_still (attempt_once (backend := backend) limits blob_root workdir_root path_var polls next owner step
                 spec pin number).
Proof.
  intros Hnext. unfold attempt_once. apply (does_bind _ (fun _ => True)); [solve_does|intros stop _].
  apply does_if; [solve_does|]. eapply does_bind; [apply begin_attempt_does|].
  intros [submitted fence] Hf. apply (does_bind _ (fun _ => True)); [apply run_attempt_does|intros [r|e] _].
  - cbn [snd] in Hf. solve_does; [by apply publish_attempt_does|apply wait_retry_backoff_does|done].
  - solve_does.
Qed.

Lemma attempt_loop_does fuel spec pin number :
  keeps_still (attempt_loop (backend := backend) limits blob_root workdir_root path_var polls fuel owner step
                 spec pin number).
Proof.
  revert number. induction fuel as [|fuel IH]; intros number; cbn [attempt_loop]; apply attempt_once_does.
  - by constructor.
  - apply IH.
Qed.

(** Every action of the worker keeps its guarantee. *)
Lemma worker_guarantee resolved :
  keeps_still (execute_parallel_step (backend := backend) limits blob_root workdir_root path_var polls owner step
                 resolved).
Proof.
  unfold execute_parallel_step. apply (does_bind _ (fun _ => True)); [|intros pin _; apply attempt_loop_does].
  apply does_atomic; [|done]. intros sh _. split; reflexivity.
Qed.
End one_step.
End guarantee.
