(* ===== verification/Schedule.v ===== *)
(** * The workflow scheduler ([hub-core/src/orchestrator.rs], [execute_workflow])

    One thread schedules the steps of a workflow: it launches workers for
    steps whose dependencies have completed, receives their results, and ends
    the workflow.  Its loop is a state machine: each step of the relation
    [own_step] is one piece of the loop body -- the refresh of the
    cancellation intent, one launch, the signals and the decision to wait or
    to leave, the receipt of one result.  This file holds the scheduler's own
    steps, its invariant and measure, and the ends of the workflow; [System]
    composes it with its workers. *)

From stdpp Require Import base gmap strings list.
From S2P Require Import Prelude Text Core Version Digest Machine Blobs Component Run Workflow Task.
From S2P Require Import TaskLifecycle Publication Event Memory Ports Exec Scicapsule Hub Submit.
From S2P Require Import Execute Attempts Threads Worker Guarantee.

Section schedule.
Context `{JsonLib, ManifestJson, Sha256Lib, Environment, UuidLib}.
Context {Store Fences : Type} `{!Repositories Store, !PublicationFenceRepository Fences}.

Abbreviation hub A := (action (Orchestrator Store Fences) CoreError A).

(** ** The scheduler's variables *)
Record Sched := {
  sc_shared : Shared (Store := Store) (Fences := Fences);
  sc_pending : gset string;
  sc_completed : gset string;
  sc_in_flight : gset string;
  sc_first_failure : option string;
  sc_cancellation_reason : option string;
}.

Abbreviation sched A := (action Sched CoreError A).

Definition set_shared (s : Sched) (sh : Shared) : Sched :=
  {| sc_shared := sh; sc_pending := sc_pending s; sc_completed := sc_completed s;
     sc_in_flight := sc_in_flight s; sc_first_failure := sc_first_failure s;
     sc_cancellation_reason := sc_cancellation_reason s |}.

Definition set_failure (s : Sched) (f : option string) : Sched :=
  {| sc_shared := sc_shared s; sc_pending := sc_pending s; sc_completed := sc_completed s;
     sc_in_flight := sc_in_flight s; sc_first_failure := f;
     sc_cancellation_reason := sc_cancellation_reason s |}.

Definition set_reason (s : Sched) (r : option string) : Sched :=
  {| sc_shared := sc_shared s; sc_pending := sc_pending s; sc_completed := sc_completed s;
     sc_in_flight := sc_in_flight s; sc_first_failure := sc_first_failure s;
     sc_cancellation_reason := r |}.

Definition set_sets (s : Sched) (pending completed in_flight : gset string) : Sched :=
  {| sc_shared := sc_shared s; sc_pending := pending; sc_completed := completed;
     sc_in_flight := in_flight; sc_first_failure := sc_first_failure s;
     sc_cancellation_reason := sc_cancellation_reason s |}.

Definition sc_hub (s : Sched) : Orchestrator Store Fences := sh_hub (sc_shared s).

Definition on_shared {A} (m : action Shared CoreError A) : sched A := fun s =>
  let '(sh, r) := m (sc_shared s) in (set_shared s sh, r).

Definition assign (f : Sched -> Sched) : sched unit := fun s => (f s, Ok tt).

(** [token.cancel()]: the token other threads share. *)
Definition cancel_token (wid : WorkflowId) : hub unit :=
  modify (fun o => set_workflow_cancels o
    (<[wid := CancelToken_cancel (workflow_token o wid)]> (o_active_workflow_cancels o))).

(** [token.cancel(); self.cancel_active_workflow_runs(workflow_id)?;] *)
Definition stop_everything (wid : WorkflowId) : sched unit :=
  on_shared (on_hub (_ ← cancel_token wid; _ ← cancel_active_workflow_runs wid; mret tt)).

(** ** The pieces of the loop body *)
Definition refresh_phase (wid : WorkflowId) : sched unit :=
  persisted_cancel ← on_shared (fun sh =>
    match refresh_cancel_intent (sh_record sh) (sh_hub sh) with
    | (o, Ok record) => ({| sh_hub := o; sh_record := record |},
                         Ok (is_some (wr_cancel_requested_at record)))
    | (o, Err e) => ({| sh_hub := o; sh_record := sh_record sh |}, Err e)
    end);
  if persisted_cancel : bool then
    _ ← on_shared (on_hub (cancel_token wid));
    _ ← assign (fun s => set_reason s (get_or_insert (sc_cancellation_reason s)
                                         "workflow cancellation requested"));
    _ ← on_shared (on_hub (cancel_active_workflow_runs wid));
    mret tt
  else mret tt.

(** The condition of the [while]. *)
Definition may_launch (wid : WorkflowId) (spec : WorkflowSpec) (s : Sched) : bool :=
  negb (is_some (sc_first_failure s)) && negb (is_some (sc_cancellation_reason s)) &&
  negb (is_cancelled (workflow_token (sc_hub s) wid)) &&
  (N.of_nat (size (sc_in_flight s)) <? WorkflowSpec_concurrency_limit spec)%N.

(** The first pending step whose dependencies have all completed. *)
Definition next_ready (spec : WorkflowSpec) (s : Sched) : option string :=
  List.find (fun key => match WorkflowSpec_dependencies spec !! key with
                        | Some deps => bool_decide (deps ⊆ sc_completed s)
                        | None => false
                        end) (set_iter (sc_pending s)).

(** One round of the [while]: whether there is another one, and the worker it
    launched. *)
Definition launch_phase (wid : WorkflowId) (spec : WorkflowSpec)
    : sched (option (string * gmap string ArtifactId)) := fun s =>
  if negb (may_launch wid spec s) then (s, Ok None)
  else match next_ready spec s with
  | None => (s, Ok None)
  | Some key =>
      match List.find (fun step => bool_decide (step_key step = key)) (ws_steps spec) with
      | None => (set_failure s (Some "step {key:?} disappeared from validated workflow"), Ok None)
      | Some step =>
          (resolved ← on_shared (fun sh =>
             on_hub (resolve_workflow_inputs (sh_record sh) step) sh);
           match resolved with
           | Err message => _ ← assign (fun s => set_failure s (Some message)); mret None
           | Ok resolved =>
               _ ← assign (fun s => set_sets s (sc_pending s ∖ {[ key ]}) (sc_completed s)
                                      ({[ key ]} ∪ sc_in_flight s));
               mret (Some (key, resolved))
           end) s
      end
  end.

(** The signals before the decision. *)
Definition signal_phase (wid : WorkflowId) : sched unit := fun s =>
  if is_some (sc_first_failure s) then stop_everything wid s
  else if is_some (sc_cancellation_reason s) || is_cancelled (workflow_token (sc_hub s) wid)
  then on_shared (on_hub (_ ← cancel_active_workflow_runs wid; mret tt)) s
  else (s, Ok tt).

(** Whether the loop ends; [false] waits for a result. *)
Definition decide_phase (wid : WorkflowId) : sched bool := fun s =>
  if bool_decide (sc_in_flight s = ∅) then
    if bool_decide (sc_pending s = ∅) || is_some (sc_first_failure s) ||
       is_some (sc_cancellation_reason s) || is_cancelled (workflow_token (sc_hub s) wid)
    then (s, Ok true)
    else (s, Err (Storage "workflow scheduler stalled with no ready or in-flight step"))
  else (s, Ok false).

Definition settle_phase (wid : WorkflowId) : sched bool :=
  _ ← signal_phase wid; decide_phase wid.

Definition receive_phase (wid : WorkflowId) (key : string) (result : Result ParallelStepTerminal)
    : sched unit := fun s =>
  let s := set_sets s (sc_pending s) (sc_completed s) (sc_in_flight s ∖ {[ key ]}) in
  match result with
  | Ok Succeeded =>
      (set_sets s (sc_pending s) ({[ key ]} ∪ sc_completed s) (sc_in_flight s), Ok tt)
  | Ok (Failed message) =>
      if is_some (sc_first_failure s) then (s, Ok tt)
      else stop_everything wid (set_failure s (Some message))
  | Ok (Cancelled message) =>
      if is_some (sc_first_failure s) || is_some (sc_cancellation_reason s) then (s, Ok tt)
      else stop_everything wid (set_reason s (Some message))
  | Err error =>
      if is_some (sc_first_failure s) then (s, Ok tt)
      else stop_everything wid (set_failure s (Some (CoreError_to_string error)))
  end.

(** ** Before and after the loop *)
Definition claim_workflow (wid : WorkflowId) : hub unit := fun o =>
  match o_active_workflow_cancels o !! wid with
  | Some _ =>
      (found ← query (fun s => workflows_get s wid);
       throw (WorkflowNotExecutable wid
                match found with Some record => wr_state record | None => WsRunning end)) o
  | None => (set_workflow_cancels o (<[wid := CancelToken_new]> (o_active_workflow_cancels o)), Ok tt)
  end.

Definition release_workflow (wid : WorkflowId) : hub unit :=
  modify (fun o => set_workflow_cancels (set_workflow_runs o (delete wid (o_active_workflow_runs o)))
                     (delete wid (o_active_workflow_cancels o))).

(** [execute_workflow_inner] up to the loop: the terminal record, or the
    scheduler's first state. *)
Definition open_workflow (wid : WorkflowId) : hub (WorkflowRecord + WorkflowRecord) :=
  found ← query (fun s => workflows_get s wid);
  record ← lift (ok_or found (WorkflowNotFound wid));
  _ ← lift (ensure (bool_decide (wr_state record = WsCreated))
              (WorkflowNotExecutable wid (wr_state record)));
  record ← refresh_cancel_intent record;
  cancelled ← reads (fun o => Ok (is_cancelled (workflow_token o wid)));
  if cancelled || is_some (wr_cancel_requested_at record) then
    record ← finish_workflow_cancelled record "cancelled before execution";
    mret (inl record)
  else
    started_at ← on_machine SystemClock_now_ms;
    let '(record, r) := WorkflowRecord_transition record WsRunning started_at in
    _ ← lift r;
    _ ← put_workflow record;
    mret (inr record).

Definition first_state (o : Orchestrator Store Fences) (record : WorkflowRecord) : Sched :=
  {| sc_shared := {| sh_hub := o; sh_record := record |};
     sc_pending := list_to_set (step_key <$> ws_steps (wr_spec record));
     sc_completed := ∅; sc_in_flight := ∅; sc_first_failure := None;
     sc_cancellation_reason := None |}.

(** [execute_workflow_inner] after the loop. *)
Definition close_workflow (spec : WorkflowSpec) (s : Sched) : hub WorkflowRecord :=
  record ← refresh_cancel_intent (sh_record (sc_shared s));
  if is_some (wr_cancel_requested_at record) || is_some (sc_cancellation_reason s) then
    finish_workflow_cancelled record
      (default "workflow cancellation requested" (sc_cancellation_reason s))
  else match sc_first_failure s with
  | Some message => finish_workflow_failed record message
  | None =>
      if negb (bool_decide (size (sc_completed s) = length (ws_steps spec))) then
        finish_workflow_failed record "workflow scheduler completed {} of {} steps"
      else
        now ← on_machine SystemClock_now_ms;
        let '(record, r) := WorkflowRecord_transition record WsSucceeded now in
        _ ← lift r;
        _ ← put_workflow record;
        mret record
  end.

(** ** The state machine *)
Inductive phase :=
| Refresh
| Launching
| Settle
| Waiting
| Left
| Stopped (e : CoreError).

Section machine.
Context (wid : WorkflowId) (spec : WorkflowSpec).

(** What the workers see of a step of the scheduler. *)
Inductive event :=
| Silent
| Launch (key : string) (resolved : gmap string ArtifactId)
| Receive (key : string) (result : Result ParallelStepTerminal).

(** The point of the loop after the phase's end. *)
Definition after {A} (r : Result A) (ph : A -> phase) : phase :=
  match r with Ok a => ph a | Err e => Stopped e end.

(** A step of the scheduler. *)
Inductive own_step : event -> Sched * phase -> Sched * phase -> Prop :=
| step_refresh s s' r :
    refresh_phase wid s = (s', r) -> own_step Silent (s, Refresh) (s', after r (fun _ => Launching))
| step_launch s s' key resolved :
    launch_phase wid spec s = (s', Ok (Some (key, resolved))) ->
    own_step (Launch key resolved) (s, Launching) (s', Launching)
| step_launched s s' : launch_phase wid spec s = (s', Ok None) -> own_step Silent (s, Launching) (s', Settle)
| step_launch_error s s' e :
    launch_phase wid spec s = (s', Err e) -> own_step Silent (s, Launching) (s', Stopped e)
| step_settle s s' r :
    settle_phase wid s = (s', r) ->
    own_step Silent (s, Settle) (s', after r (fun b : bool => if b then Left else Waiting))
| step_receive s s' key result r :
    key ∈ sc_in_flight s -> receive_phase wid key result s = (s', r) ->
    own_step (Receive key result) (s, Waiting) (s', after r (fun _ => Refresh)).

(** ** What a phase does to the Hub *)
Context `{!RepositoriesLaws Store, !PublicationFenceLaws Fences}.

(** The scheduler moves no step. *)
Abbreviation hub_frame := (hub_moves (Store := Store) (Fences := Fences) wid (fun _ => False)).
Abbreviation shared_frame := (moves (Store := Store) (Fences := Fences) wid (fun _ => False)).

#[local] Hint Resolve quiet_preorder quiet_cancel_run : steps.

Lemma hub_frame_cancel_active : steps hub_frame (cancel_active_workflow_runs wid).
Proof. apply steps_quiet_moves. unfold cancel_active_workflow_runs. solve_steps. Qed.

Lemma hub_frame_cancel_token : steps hub_frame (cancel_token wid).
Proof.
  intros o Hok. split_and!; [done|by apply same_runs_evolve| |by split].
  intros _. unfold workflow_token. cbn. by rewrite lookup_insert_eq.
Qed.

Lemma refresh_keeps_hub record (o : Orchestrator Store Fences) : (refresh_cancel_intent record o).1 = o.
Proof.
  unfold refresh_cancel_intent, query, mbind, action_bind, reads. by destruct (workflows_get _ _) as [[]|].
Qed.

Lemma resolve_input_keeps_hub record acc i (o : Orchestrator Store Fences) : (resolve_input record acc i o).1 = o.
Proof. unfold resolve_input, query, mbind, action_bind, reads. by repeat case_match; simplify_eq. Qed.

Lemma resolve_keeps_hub record inputs acc (o : Orchestrator Store Fences) : (resolve_inputs record acc inputs o).1 = o.
Proof.
  revert acc. induction inputs as [|i inputs IH]; intros acc; [done|]. cbn. unfold mbind, action_bind at 1.
  pose proof (resolve_input_keeps_hub record acc i o) as E.
  destruct (resolve_input record acc i o) as [o1 r]. cbn in E. subst o1. destruct r; [apply IH|done].
Qed.

(** The variables of two states agree up to what the phase is about. *)
Definition same_sets (s s' : Sched) : Prop :=
  sc_pending s' = sc_pending s /\ sc_completed s' = sc_completed s /\ sc_in_flight s' = sc_in_flight s.

(** A failure or a reason, once there, stays. *)
Definition ends_recorded (s s' : Sched) : Prop :=
  (is_Some (sc_first_failure s) -> is_Some (sc_first_failure s')) /\
  (is_Some (sc_cancellation_reason s) -> is_Some (sc_cancellation_reason s')).

Definition calm (s s' : Sched) : Prop :=
  shared_frame (sc_shared s) (sc_shared s') /\ same_sets s s' /\ ends_recorded s s'.

#[local] Instance calm_preorder : PreOrder calm.
Proof.
  split.
  - intros s. split; [reflexivity|]. by split_and!.
  - intros a b c (Hab & (? & ? & ?) & ? & ?) (Hbc & (? & ? & ?) & ? & ?).
    split; [by etrans|]. split; [split_and!; congruence|split; auto].
Qed.

Lemma calm_hub {A} (m : hub A) : steps hub_frame m -> steps calm (on_shared (on_hub m)).
Proof.
  intros Hm s. specialize (Hm (sc_hub s)). unfold on_shared, on_hub, sc_hub in *.
  destruct (m _) as [o r]. split; [|by split_and!]. split; [exact Hm|]. by split_and!.
Qed.

Lemma calm_stop : steps calm (stop_everything wid).
Proof.
  apply calm_hub. apply steps_bind; [apply _|apply hub_frame_cancel_token|]. intros _.
  apply steps_bind; [apply _|apply hub_frame_cancel_active|]. intros. apply steps_ret, _.
Qed.

Lemma calm_refresh : steps calm (refresh_phase wid).
Proof.
  unfold refresh_phase. apply steps_bind; [apply _| |].
  { intros s. unfold on_shared. pose proof (refresh_keeps_hub (sh_record (sc_shared s)) (sh_hub (sc_shared s))) as Hk.
    destruct (refresh_cancel_intent _ _) as [o [r|e]] eqn:Er; cbn in Hk; subst o;
      (split; [split; cbn; [reflexivity|]|by split_and!]); [|by split_and!].
    apply refresh_cancel_intent_spec in Er as (_ & c & -> & _). by split_and!. }
  intros [|]; [|apply steps_ret, _].
  apply steps_bind; [apply _|apply calm_hub, hub_frame_cancel_token|]. intros _.
  apply steps_bind; [apply _| |].
  { intros s. split; [reflexivity|]. split; [by split_and!|]. split; cbn; [done|].
    by intros [r ->]. }
  intros _. apply steps_bind; [apply _|apply calm_hub, hub_frame_cancel_active|]. intros. apply steps_ret, _.
Qed.

Lemma calm_signal : steps calm (signal_phase wid).
Proof.
  intros s. unfold signal_phase. destruct (is_some (sc_first_failure s)); [apply calm_stop|].
  destruct (_ || _); [|reflexivity]. apply calm_hub. apply steps_bind; [apply _|apply hub_frame_cancel_active|].
  intros. apply steps_ret, _.
Qed.

Lemma decide_keeps s : (decide_phase wid s).1 = s.
Proof. unfold decide_phase. by repeat case_match. Qed.

Lemma calm_settle : steps calm (settle_phase wid).
Proof.
  unfold settle_phase. apply steps_bind; [apply _|apply calm_signal|]. intros _ s. by rewrite decide_keeps.
Qed.

(** One launch: it failed, found nothing to launch, or moved one ready step
    from [pending] to [in_flight]. *)
Lemma launch_cases s s' r :
  launch_phase wid spec s = (s', r) ->
  match r with
  | Ok (Some (key, _)) =>
      may_launch wid spec s = true /\ next_ready spec s = Some key /\ sc_shared s' = sc_shared s /\
      sc_pending s' = sc_pending s ∖ {[ key ]} /\ sc_completed s' = sc_completed s /\
      sc_in_flight s' = {[ key ]} ∪ sc_in_flight s /\
      sc_first_failure s' = sc_first_failure s /\ sc_cancellation_reason s' = sc_cancellation_reason s
  | Ok None => calm s s' /\ (may_launch wid spec s' = false \/ next_ready spec s' = None)
  | Err _ => calm s s'
  end.
Proof.
  unfold launch_phase. destruct (may_launch wid spec s) eqn:Em; cbn [negb].
  2:{ intros [= <- <-]. split; [reflexivity|by left]. }
  destruct (next_ready spec s) as [key|] eqn:En.
  2:{ intros [= <- <-]. split; [reflexivity|by right]. }
  destruct (List.find _ _) as [step|].
  2:{ intros [= <- <-]. split; [|by left]. split; [reflexivity|]. split; [by split_and!|]. by split. }
  unfold mbind, action_bind at 1, on_shared, on_hub.
  pose proof (resolve_keeps_hub (sh_record (sc_shared s)) (map_iter (step_inputs step)) (Ok ∅)
    (sh_hub (sc_shared s))) as Hk. unfold resolve_workflow_inputs.
  destruct (resolve_inputs _ _ _ _) as [o [[resolved|msg]|e]]; cbn in Hk; subst o.
  - intros [= <- <-]. cbn. split_and!; try done. by destruct (sc_shared s).
  - intros [= <- <-]. split; [|by left]. split; [split; [reflexivity|by split_and!]|]. split; [by split_and!|]. by split.
  - intros [= <- <-]. split; [split; [reflexivity|by split_and!]|]. by split_and!.
Qed.

(** A launch resolves the inputs of the step. *)
Lemma launch_resolved s s' key resolved :
  launch_phase wid spec s = (s', Ok (Some (key, resolved))) ->
  exists step o, step ∈ ws_steps spec /\ step_key step = key /\
    resolve_workflow_inputs (sh_record (sc_shared s)) step (sc_hub s) = (o, Ok (Ok resolved)).
Proof.
  unfold launch_phase. destruct (may_launch wid spec s); [|done]. cbn [negb].
  destruct (next_ready spec s) as [k|]; [|done].
  destruct (List.find _ _) as [step|] eqn:Ef; [|done]. apply find_Some_elem in Ef as [Hin Hk]. bool_inv.
  unfold mbind, action_bind at 1, on_shared, on_hub, sc_hub.
  destruct (resolve_workflow_inputs _ _ _) as [o [[r|msg]|e]] eqn:Er; intros [= _ Hkey Hr]; subst.
  by exists step, o.
Qed.

Lemma receive_cases s s' key result r :
  receive_phase wid key result s = (s', r) ->
  shared_frame (sc_shared s) (sc_shared s') /\ ends_recorded s s' /\
  sc_pending s' = sc_pending s /\ sc_in_flight s' = sc_in_flight s ∖ {[ key ]} /\
  match result with
  | Ok Succeeded => sc_completed s' = {[ key ]} ∪ sc_completed s /\ sc_shared s' = sc_shared s
  | _ => sc_completed s' = sc_completed s /\
      (is_Some (sc_first_failure s') \/ is_Some (sc_cancellation_reason s'))
  end.
Proof.
  unfold receive_phase. set (s0 := set_sets s _ _ _).
  assert (Hstop : forall s1, sc_shared s1 = sc_shared s ->
    sc_pending s1 = sc_pending s -> sc_completed s1 = sc_completed s ->
    sc_in_flight s1 = sc_in_flight s ∖ {[ key ]} -> ends_recorded s s1 ->
    (is_Some (sc_first_failure s1) \/ is_Some (sc_cancellation_reason s1)) ->
    forall s2 r2, (stop_everything wid s1 = (s2, r2) \/ s2 = s1) ->
    shared_frame (sc_shared s) (sc_shared s2) /\ ends_recorded s s2 /\
    sc_pending s2 = sc_pending s /\ sc_in_flight s2 = sc_in_flight s ∖ {[ key ]} /\
    sc_completed s2 = sc_completed s /\
    (is_Some (sc_first_failure s2) \/ is_Some (sc_cancellation_reason s2))).
  { intros s1 Hsh Hp Hc Hf [E1 E2] Hend s2 r2 H12.
    assert (calm s1 s2) as (Hfr & (? & ? & ?) & E3 & E4).
    { destruct H12 as [Hs| ->]; [by eapply steps_run, Hs; apply calm_stop|reflexivity]. }
    rewrite Hsh in Hfr. split_and!; [apply Hfr|split; auto|congruence..|]. naive_solver. }
  assert (Hfail : forall msg, (if is_some (sc_first_failure s0) then (s0, Ok tt)
      else stop_everything wid (set_failure s0 (Some msg))) = (s', r) ->
    shared_frame (sc_shared s) (sc_shared s') /\ ends_recorded s s' /\
    sc_pending s' = sc_pending s /\ sc_in_flight s' = sc_in_flight s ∖ {[ key ]} /\
    sc_completed s' = sc_completed s /\
    (is_Some (sc_first_failure s') \/ is_Some (sc_cancellation_reason s'))).
  { intros msg. destruct (is_some (sc_first_failure s0)) eqn:Ef; intros Hr.
    - injection Hr as <- <-. apply (Hstop s0) with (r2 := Ok tt);
        first [done|by right|left; cbn in *; by destruct (sc_first_failure s)].
    - apply (Hstop (set_failure s0 (Some msg))) with (r2 := r);
        first [done|by left|split; [done|by intros]|left; by eexists|idtac]. }
  destruct result as [[|msg|msg]|e].
  - intros [= <- <-]. by split_and!.
  - apply Hfail.
  - destruct (is_some (sc_first_failure s0) || is_some (sc_cancellation_reason s0)) eqn:Ef; intros Hr.
    + injection Hr as <- <-. apply (Hstop s0) with (r2 := Ok tt);
        first [done|by right|cbn in *; destruct (sc_first_failure s); [by left|right];
                              by destruct (sc_cancellation_reason s)].
    + apply (Hstop (set_reason s0 (Some msg))) with (r2 := r);
        first [done|by left|split; [by intros|done]|right; by eexists|idtac].
  - apply Hfail.
Qed.

(** ** The invariant *)
Context (Hvalid : WorkflowSpec_validate spec = Ok tt).

Definition keys : gset string := list_to_set (spec_keys spec).

Definition deps_done (s : Sched) (k : string) : Prop :=
  exists deps, WorkflowSpec_dependencies spec !! k = Some deps /\ deps ⊆ sc_completed s.

Definition ending (s : Sched) : Prop :=
  is_Some (sc_first_failure s) \/ is_Some (sc_cancellation_reason s).

Record sched_inv (s : Sched) : Prop := {
  si_repo : repo_ok (o_store (sc_hub s));
  si_record : wr_id (sh_record (sc_shared s)) = wid /\ wr_state (sh_record (sc_shared s)) = WsRunning /\
              wr_spec (sh_record (sc_shared s)) = spec;
  si_keys : sc_pending s ∪ sc_in_flight s ∪ sc_completed s ⊆ keys;
  si_disjoint : sc_pending s ## sc_in_flight s /\ sc_pending s ## sc_completed s /\
                sc_in_flight s ## sc_completed s;
  (** Never more workers than the limit. *)
  si_concurrency : (N.of_nat (size (sc_in_flight s)) <= WorkflowSpec_concurrency_limit spec)%N;
  (** Whatever was started had all its dependencies completed. *)
  si_order : forall k, k ∈ keys -> k ∉ sc_pending s -> deps_done s k;
  (** No step is lost without the workflow ending. *)
  si_lost : ending s \/ keys ⊆ sc_pending s ∪ sc_in_flight s ∪ sc_completed s;
}.

(** What is known at a point of the loop. *)
Definition phase_inv (s : Sched) (ph : phase) : Prop :=
  match ph with
  | Settle => may_launch wid spec s = false \/ next_ready spec s = None
  | Waiting => sc_in_flight s <> ∅
  | Left => sc_in_flight s = ∅ /\
      (sc_pending s = ∅ \/ ending s \/ is_cancelled (workflow_token (sc_hub s) wid) = true)
  | _ => True
  end.

Lemma may_launch_false_stays s s' :
  same_sets s s' -> ends_recorded s s' -> stays_cancelled wid (sc_hub s) (sc_hub s') ->
  may_launch wid spec s = false -> may_launch wid spec s' = false.
Proof.
  intros (_ & _ & Hf) [E1 E2] Ht. unfold may_launch, stays_cancelled in *. rewrite Hf.
  rewrite !andb_false_iff, !negb_false_iff. intros [[[F1|F2]|F3]|F4]; [| | |by right].
  - left. left. left. destruct (sc_first_failure s); [|done]. by destruct E1 as [? ->].
  - left. left. right. destruct (sc_cancellation_reason s); [|done]. by destruct E2 as [? ->].
  - left. right. auto.
Qed.

Lemma next_ready_same s s' : same_sets s s' -> next_ready spec s' = next_ready spec s.
Proof. intros (Hp & Hc & _). unfold next_ready. by rewrite Hp, Hc. Qed.

Lemma ending_recorded s s' : ends_recorded s s' -> ending s -> ending s'.
Proof. intros [E1 E2] [?|?]; [left|right]; auto. Qed.

(** The invariant depends on the sets, the ends and the Hub. *)
Lemma sched_inv_frame K s s' :
  sched_inv s -> moves wid K (sc_shared s) (sc_shared s') -> same_sets s s' -> ends_recorded s s' ->
  sched_inv s'.
Proof.
  intros [Hok Hrec Hk Hd Hc Ho Hl] [Hh (R1 & R2 & R3 & _)] (Ep & Ec & Ef) He.
  split; unfold deps_done in *; rewrite ?Ep, ?Ec, ?Ef, ?R1, ?R2, ?R3; try done.
  - by apply Hh.
  - destruct Hl; [left; by eapply ending_recorded|by right].
Qed.

Lemma calm_inv s s' : sched_inv s -> calm s s' -> sched_inv s'.
Proof. intros Hi (Hm & Hs & He). by eapply sched_inv_frame. Qed.

(** A token that is cancelled stays so, and the sets the same: what is known
    at a point of the loop remains true. *)
Lemma phase_inv_frame K s s' ph :
  sched_inv s -> moves wid K (sc_shared s) (sc_shared s') -> same_sets s s' -> ends_recorded s s' ->
  phase_inv s ph -> phase_inv s' ph.
Proof.
  intros Hi [Hh _] Hs He Hph. destruct (Hh (si_repo _ Hi)) as (_ & _ & Ht & _).
  destruct ph; try done; cbn in *.
  - destruct Hph as [Hm|Hn]; [left; by eapply may_launch_false_stays|right]. by rewrite (next_ready_same s).
  - destruct Hs as (_ & _ & Ef). by rewrite Ef.
  - destruct Hs as (Ep & _ & Ef). rewrite Ep, Ef. destruct Hph as [Hf [Hp|[Hen|Hc]]]; (split; [done|]); auto.
    right. left. by eapply ending_recorded.
Qed.

Lemma calm_phase s s' ph : sched_inv s -> calm s s' -> phase_inv s ph -> phase_inv s' ph.
Proof. intros Hi (Hm & Hs & He). by eapply phase_inv_frame. Qed.

Lemma next_ready_Some s k :
  next_ready spec s = Some k -> k ∈ sc_pending s /\ deps_done s k.
Proof.
  unfold next_ready. intros [Hin%elem_of_set_iter Hk]%find_Some_elem. split; [done|].
  unfold deps_done. destruct (WorkflowSpec_dependencies spec !! k) as [deps|]; [|done].
  bool_inv. by exists deps.
Qed.

(** A launch preserves the invariant. *)
Lemma launch_inv s s' k resolved :
  sched_inv s -> launch_phase wid spec s = (s', Ok (Some (k, resolved))) -> sched_inv s'.
Proof.
  intros [Hok Hrec Hk (Hd1 & Hd2 & Hd3) Hc Ho Hl] Hr.
  apply launch_cases in Hr as (Hm & [Hin Hdeps]%next_ready_Some & Hsh & Ep & Ec & Ef & E1 & E2).
  unfold sc_hub in *. unfold may_launch in Hm. bool_inv.
  split; unfold sc_hub, deps_done, ending in *; rewrite ?Hsh, ?Ep, ?Ec, ?Ef, ?E1, ?E2; try done.
  - set_solver.
  - set_solver.
  - rewrite size_union, size_singleton by set_solver. lia.
  - intros k' Hk' Hn. destruct (decide (k' = k)) as [->|Hne]; [done|]. apply Ho; [done|set_solver].
  - destruct Hl as [Hl|Hl]; [by left|right]. intros k' Hk'. specialize (Hl k' Hk').
    destruct (decide (k' = k)); set_solver.
Qed.

(** So does the receipt of a result. *)
Lemma receive_inv s s' k result r :
  sched_inv s -> k ∈ sc_in_flight s -> receive_phase wid k result s = (s', r) -> sched_inv s'.
Proof.
  intros [Hok Hrec Hk (Hd1 & Hd2 & Hd3) Hc Ho Hl] Hin Hr.
  apply receive_cases in Hr as ((Hm & R1 & R2 & R3 & _) & He & Ep & Ef & Hres).
  assert (Hsize : (size (sc_in_flight s ∖ {[ k ]}) <= size (sc_in_flight s))%nat)
    by (apply subseteq_size; set_solver).
  assert (Hcc : sc_completed s ⊆ sc_completed s' /\ sc_completed s' ⊆ {[ k ]} ∪ sc_completed s).
  { destruct result as [[]|]; destruct Hres as [-> _]; set_solver. }
  split; unfold deps_done; rewrite ?Ep, ?Ef, ?R1, ?R2, ?R3; auto.
  - by apply Hm.
  - set_solver.
  - split_and!; set_solver.
  - lia.
  - intros k' Hk' Hn. destruct (Ho k' Hk' Hn) as (deps & Hdeps & Hsub). exists deps. set_solver.
  - destruct Hl as [Hl|Hl]; [left; by eapply ending_recorded|].
    destruct result as [[]|]; destruct Hres as [Hc' Hres]; try (by left); right.
    rewrite Hc'. intros k' Hk'. specialize (Hl k' Hk'). destruct (decide (k' = k)); set_solver.
Qed.

(** With nothing in flight and nothing to end for, some pending step is
    ready. *)
Lemma decide_total s :
  sched_inv s -> phase_inv s Settle -> exists b, decide_phase wid s = (s, Ok b) /\
    phase_inv s (if b then Left else Waiting).
Proof.
  intros [_ _ Hk (_ & Hd & _) _ _ Hl] Hph. unfold decide_phase. case_bool_decide as Hf; [|by exists false].
  case_bool_decide as Hp; cbn [orb]; [exists true; split; [done|]; split; [done|by left]|].
  destruct (sc_first_failure s) as [m|] eqn:E1; cbn [is_some orb].
  { exists true. split; [done|]. split; [done|]. right. left. left. by rewrite E1. }
  destruct (sc_cancellation_reason s) as [m|] eqn:E2; cbn [is_some orb].
  { exists true. split; [done|]. split; [done|]. right. left. right. by rewrite E2. }
  destruct (is_cancelled (workflow_token (sc_hub s) wid)) eqn:E3.
  { exists true. split; [done|]. split; [done|]. right. by right. }
  exfalso. destruct Hl as [[[? Hl]|[? Hl]]|Hl]; [congruence..|].
  destruct Hph as [Hm|Hn].
  - unfold may_launch in Hm. rewrite E1, E2, E3, Hf, size_empty in Hm. cbn in Hm. bool_inv.
    pose proof (workflow_validate_wf _ Hvalid) as Hwf. pose proof (ww_concurrency _ Hwf).
    unfold WorkflowSpec_concurrency_limit in *. lia.
  - apply set_choose_L in Hp as [k Hkp].
    assert (Hkey : k ∈ keys) by set_solver.
    destruct (workflow_ready_exists spec (sc_completed s) k Hvalid) as (j & deps & Hj & Hjc & Hjd & Hsub).
    { by apply elem_of_list_to_set in Hkey. }
    { set_solver. }
    assert (Hjp : j ∈ sc_pending s).
    { assert (j ∈ keys) by (by apply elem_of_list_to_set). set_solver. }
    unfold next_ready in Hn. eapply List.find_none in Hn; [|apply list_elem_of_In, elem_of_set_iter, Hjp].
    cbn in Hn. rewrite Hjd in Hn. bool_inv. done.
Qed.

Lemma settle_inv s s' b :
  sched_inv s -> phase_inv s Settle -> settle_phase wid s = (s', Ok b) ->
  sched_inv s' /\ phase_inv s' (if b then Left else Waiting).
Proof.
  intros Hi Hph (s1 & [] & Hs & Hd)%action_bind_Ok.
  assert (Hcalm : calm s s1) by (eapply steps_run; [apply calm_signal|exact Hs]).
  pose proof (calm_inv _ _ Hi Hcalm) as Hi1. pose proof (calm_phase _ _ _ Hi Hcalm Hph) as Hph1.
  destruct (decide_total s1 Hi1 Hph1) as (b' & Hb & Hpb). rewrite Hb in Hd. by injection Hd as <- <-.
Qed.

(** A silent step leaves the sets alone and moves nothing. *)
Lemma silent_calm s s' ph ph' : own_step Silent (s, ph) (s', ph') -> calm s s'.
Proof.
  intros Hst. inversion Hst as [? ? r Hr| |? ? Hr|? ? e Hr|? ? r Hr|]; subst.
  - eapply steps_run; [apply calm_refresh|exact Hr].
  - by apply launch_cases in Hr as [Hc _].
  - by apply launch_cases in Hr.
  - eapply steps_run; [apply calm_settle|exact Hr].
Qed.

(** Every own step preserves the invariant and reaches the next point. *)
Lemma own_step_inv l s ph s' ph' :
  sched_inv s -> phase_inv s ph -> own_step l (s, ph) (s', ph') -> sched_inv s' /\ phase_inv s' ph'.
Proof.
  intros Hi Hph Hst. inversion Hst as [? ? r Hr|? ? ? ? Hr|? ? Hr|? ? e Hr|? ? r Hr|? ? ? ? r Hin Hr]; subst; clear Hst.
  - split; [|by destruct r]. eapply calm_inv; [exact Hi|]. eapply steps_run; [apply calm_refresh|done].
  - split; [|done]. by eapply launch_inv.
  - apply launch_cases in Hr as [Hc Hp]. split; [by eapply calm_inv|done].
  - apply launch_cases in Hr. split; [by eapply calm_inv|done].
  - destruct r as [b|e]; [by eapply settle_inv|]. split; [|done]. eapply calm_inv; [exact Hi|].
    eapply steps_run; [apply calm_settle|done].
  - split; [|by destruct r]. by eapply receive_inv.
Qed.

Lemma first_state_inv o record :
  wr_id record = wid -> wr_state record = WsRunning -> wr_spec record = spec ->
  repo_ok (o_store o) -> sched_inv (first_state o record).
Proof.
  intros Hid Hst Hsp Hok. unfold first_state, keys, spec_keys. rewrite Hsp.
  split; cbn.
  - done.
  - done.
  - set_solver.
  - split_and!; set_solver.
  - rewrite size_empty. lia.
  - done.
  - right. set_solver.
Qed.

(** ** Termination *)

(** Every own step uses up some of this. *)
Definition phase_rank (ph : phase) : nat :=
  match ph with Refresh => 3 | Launching => 2 | Settle => 1 | _ => 0 end.

Definition sched_measure (c : Sched * phase) : nat :=
  4 * (2 * size (sc_pending c.1) + size (sc_in_flight c.1)) + phase_rank c.2.

Lemma calm_measure s s' ph ph' :
  calm s s' -> (phase_rank ph' < phase_rank ph)%nat ->
  (sched_measure (s', ph') < sched_measure (s, ph))%nat.
Proof. intros (_ & (Ep & _ & Ef) & _) Hr. unfold sched_measure. cbn. rewrite Ep, Ef. lia. Qed.

Lemma size_remove (X : gset string) k : k ∈ X -> size X = S (size (X ∖ {[ k ]})).
Proof.
  intros Hk. rewrite (union_difference_L {[ k ]} X) at 1 by set_solver.
  rewrite size_union, size_singleton by set_solver. lia.
Qed.

Lemma own_step_measure l c c' : own_step l c c' -> (sched_measure c' < sched_measure c)%nat.
Proof.
  destruct 1 as [s s' r Hr|s s' key res Hl|s s' Hl|s s' e Hl|s s' r Hr|s s' key res r Hin Hr].
  - eapply calm_measure; [eapply steps_run; [apply calm_refresh|exact Hr]|destruct r; cbn; lia].
  - apply launch_cases in Hl as (_ & [Hin _]%next_ready_Some & _ & Ep & _ & Ef & _).
    unfold sched_measure. cbn. rewrite Ep, Ef, (size_remove _ _ Hin).
    assert (Hs : (size ({[ key ]} ∪ sc_in_flight s) <= S (size (sc_in_flight s)))%nat).
    { rewrite size_union_alt, size_singleton. apply le_n_S, subseteq_size. set_solver. }
    lia.
  - apply launch_cases in Hl as [Hc _]. eapply calm_measure; [exact Hc|cbn; lia].
  - apply launch_cases in Hl. eapply calm_measure; [exact Hl|cbn; lia].
  - eapply calm_measure; [eapply steps_run; [apply calm_settle|exact Hr]|destruct r as [[]|]; cbn; lia].
  - apply receive_cases in Hr as (_ & _ & Ep & Ef & _).
    unfold sched_measure. cbn. rewrite Ep, Ef, (size_remove _ _ Hin). destruct r; cbn; lia.
Qed.

Lemma first_measure o record :
  (sched_measure (first_state o record, Refresh) <= 8 * length (ws_steps (wr_spec record)) + 3)%nat.
Proof.
  unfold sched_measure, first_state. cbn. rewrite size_empty.
  assert (Hs : (size (list_to_set (step_key <$> ws_steps (wr_spec record)) : gset string)
    <= length (ws_steps (wr_spec record)))%nat); [|lia].
  rewrite <- (length_fmap step_key). generalize (step_key <$> ws_steps (wr_spec record)).
  intros l. induction l as [|k l IH]; cbn; [by rewrite size_empty|].
  rewrite size_union_alt, size_singleton. apply le_n_S. etrans; [|exact IH].
  apply subseteq_size. set_solver.
Qed.

(** The scheduler can always act, except when it waits for a worker. *)
Lemma own_step_exists s ph :
  phase_inv s ph ->
  match ph with
  | Left | Stopped _ => True
  | Waiting => sc_in_flight s <> ∅ /\
      forall k result, k ∈ sc_in_flight s -> exists c, own_step (Receive k result) (s, ph) c
  | _ => exists l c, own_step l (s, ph) c
  end.
Proof.
  intros Hph. destruct ph as [| | | | |e]; try done.
  - destruct (refresh_phase wid s) as [s' r] eqn:E. do 2 eexists. by apply step_refresh.
  - destruct (launch_phase wid spec s) as [s' [[[k r]|]|e]] eqn:E; do 2 eexists;
      [by apply step_launch|by apply step_launched|by apply step_launch_error].
  - destruct (settle_phase wid s) as [s' r] eqn:E. do 2 eexists. by apply step_settle.
  - split; [exact Hph|]. intros k result Hin.
    destruct (receive_phase wid k result s) as [s' r] eqn:E. eexists. by apply step_receive.
Qed.

(** ** The end of the workflow *)

(** [w] ends [record] with state [st], and is stored with its cancellation
    request, if any. *)
Definition ended_in (record w : WorkflowRecord) (st : WorkflowState) (o : Orchestrator Store Fences) : Prop :=
  wr_id w = wr_id record /\ wr_spec w = wr_spec record /\ wr_state w = st /\
  (exists c, workflows_get (o_store o) (wr_id record) = Ok (Some (WorkflowRecord_set_cancel w c))) /\
  match st with
  | WsFailed => is_Some (wr_failure w)
  | WsCancelled => is_Some (wr_cancel_requested_at w)
  | _ => True
  end.

Lemma ended_transition record to now (o o' : Orchestrator Store Fences) w
    (fill : WorkflowRecord -> WorkflowRecord) :
  repo_ok (o_store o) ->
  (forall w, wr_id (fill w) = wr_id w /\ wr_spec (fill w) = wr_spec w /\ wr_state (fill w) = wr_state w) ->
  (let '(record, r) := WorkflowRecord_transition record to now in
   _ ← lift r; _ ← put_workflow (fill record); mret (fill record)) o = (o', Ok w) ->
  wr_id w = wr_id record /\ wr_spec w = wr_spec record /\ wr_state w = to /\
  (exists c, workflows_get (o_store o') (wr_id record) = Ok (Some (WorkflowRecord_set_cancel w c))) /\
  exists w0, w = fill w0.
Proof.
  intros Hok Hfill. destruct (WorkflowRecord_transition record to now) as [w1 r] eqn:Et.
  intros (o1 & [] & [-> ->]%lift_Ok & (o2 & [] & Hp & [-> <-]%mret_Ok)%action_bind_Ok)%action_bind_Ok.
  apply WorkflowRecord_transition_Ok in Et as (_ & Hs & Hid & Hsp & _).
  apply put_workflow_Ok in Hp as (c & Hg & _); [|done].
  destruct (Hfill w1) as (F1 & F2 & F3). rewrite F1, Hid in Hg.
  split_and!; try congruence; eauto.
Qed.

Lemma finish_workflow_failed_Ok record message (o o' : Orchestrator Store Fences) w :
  repo_ok (o_store o) -> wr_state record = WsRunning ->
  finish_workflow_failed record message o = (o', Ok w) ->
  exists st, (st = WsFailed \/ st = WsCancelled) /\ ended_in record w st o'.
Proof.
  intros Hok Hrun (o1 & r1 & (-> & c & -> & _ & _)%refresh_cancel_intent_spec & Hr)%action_bind_Ok.
  destruct (is_some _).
  - apply finish_workflow_cancelled_Ok in Hr as [(Hid & Hsp & _ & _ & Hc & _ & Hst) Hg]; [|done].
    cbn in *. rewrite Hrun in Hst. exists WsCancelled. split; [by right|]. split_and!; try done.
    exists (wr_cancel_requested_at w). by rewrite set_cancel_same.
  - apply action_bind_Ok in Hr as (o2 & now & (m & _ & ->)%on_machine_inv & Hr).
    apply (ended_transition _ _ _ _ _ _ (fun w => WorkflowRecord_set_failure w (Some message))) in Hr
      as (? & ? & ? & ? & w0 & ->); try done.
    exists WsFailed. split; [by left|]. by split_and!.
Qed.

Lemma close_workflow_Ok s (o' : Orchestrator Store Fences) w :
  repo_ok (o_store (sc_hub s)) -> wr_state (sh_record (sc_shared s)) = WsRunning ->
  close_workflow spec s (sc_hub s) = (o', Ok w) ->
  exists st, ended_in (sh_record (sc_shared s)) w st o' /\ WorkflowState_is_terminal st = true /\
    (st = WsSucceeded -> ~ ending s /\ size (sc_completed s) = length (ws_steps spec)).
Proof.
  intros Hok Hrun. unfold close_workflow.
  intros (o1 & r1 & (-> & c & -> & _ & _)%refresh_cancel_intent_spec & Hr)%action_bind_Ok. cbn in Hr.
  destruct (is_some c || is_some (sc_cancellation_reason s)) eqn:Ec.
  { apply finish_workflow_cancelled_Ok in Hr as [(Hid & Hsp & _ & _ & Hc & _ & Hst) Hg]; [|done].
    cbn in *. rewrite Hrun in Hst. exists WsCancelled. split; [|split; [done|by intros]].
    split_and!; try done. exists (wr_cancel_requested_at w). by rewrite set_cancel_same. }
  destruct (sc_first_failure s) as [message|] eqn:Ef.
  { apply finish_workflow_failed_Ok in Hr as (st & Hst & He); [|done..]. exists st.
    split; [exact He|]. by destruct Hst as [->| ->]. }
  case_bool_decide as Hsz; cbn [negb] in Hr.
  - apply action_bind_Ok in Hr as (o2 & now & (m & _ & ->)%on_machine_inv & Hr).
    apply (ended_transition _ _ _ _ _ _ (fun w => w)) in Hr as (? & ? & ? & ? & _); try done.
    exists WsSucceeded. split; [by split_and!|]. split; [done|]. intros _. split; [|done].
    destruct (sc_cancellation_reason s) eqn:Er; [by rewrite orb_true_r in Ec|].
    intros [[? He]|[? He]]; congruence.
  - apply finish_workflow_failed_Ok in Hr as (st & Hst & He); [|done..]. exists st.
    split; [exact He|]. by destruct Hst as [->| ->].
Qed.


Lemma quiet_refresh record : steps quiet (refresh_cancel_intent record : hub WorkflowRecord).
Proof. intros o. by rewrite refresh_keeps_hub. Qed.

#[local] Hint Resolve quiet_refresh quiet_on_machine quiet_put_workflow : steps.

Lemma quiet_close s : steps quiet (close_workflow spec s : hub WorkflowRecord).
Proof. unfold close_workflow, finish_workflow_failed, finish_workflow_cancelled. solve_steps. Qed.

(** When as many steps have completed as there are, all have. *)
Lemma completed_all s :
  sched_inv s -> size (sc_completed s) = length (ws_steps spec) ->
  forall step, step ∈ ws_steps spec -> step_key step ∈ sc_completed s.
Proof.
  intros Hi Hsz step Hstep.
  assert (Hk : size keys = length (ws_steps spec)).
  { unfold keys. rewrite size_list_to_set; [apply length_fmap|].
    apply (ww_unique _ (workflow_validate_wf _ Hvalid)). }
  assert (Heq : sc_completed s ≡ keys).
  { apply set_subseteq_size_equiv; [pose proof (si_keys s Hi); set_solver|lia]. }
  rewrite Heq. apply elem_of_list_to_set. by apply list_elem_of_fmap_2.
Qed.
End machine.

(** ** What a step's inputs resolve to *)

(** The artifact an input source stands for at this moment. *)
Definition source_artifact (record : WorkflowRecord) (o : Orchestrator Store Fences)
    (source : InputSource) (a : ArtifactId) : Prop :=
  match source with
  | Artifact x => a = x /\ exists m, artifacts_get (o_store o) x = Ok (Some m)
  | FromStep dep output => exists p,
      authoritative_publication (o_fences o) (wr_id record) dep = Ok (Some p) /\
      asp_outputs p !! output = Some a
  end.

Lemma resolve_input_cases record resolved named o r :
  resolve_input record (Ok resolved) named o = (o, Ok r) ->
  match r with
  | Ok resolved' => exists a, source_artifact record o named.2 a /\ resolved' = <[named.1 := a]> resolved
  | Err _ => forall a, ~ source_artifact record o named.2 a
  end.
Proof.
  unfold resolve_input, query. destruct named as [name [x|dep output]]; cbn.
  - intros (o1 & found & [-> Hf]%reads_Ok & [_ <-]%mret_Ok)%action_bind_Ok.
    destruct found as [m|]; cbn; [eauto 10|]. intros a [_ [m Hm]]. congruence.
  - intros (o1 & found & [-> Hf]%reads_Ok & [_ <-]%mret_Ok)%action_bind_Ok.
    destruct found as [p|]; [|intros a (p & Hp & _); congruence].
    destruct (asp_outputs p !! output) as [a|] eqn:E; [by exists a; eauto|].
    intros a (p' & Hp' & Ha). congruence.
Qed.

Lemma resolve_inputs_Err record msg inputs o :
  resolve_inputs record (Err msg) inputs o = (o, Ok (Err msg)).
Proof.
  induction inputs as [|i inputs IH]; [done|]. cbn. unfold mbind, action_bind. cbn. exact IH.
Qed.

Lemma resolve_inputs_cases record inputs resolved o r :
  NoDup inputs.*1 ->
  resolve_inputs record (Ok resolved) inputs o = (o, Ok r) ->
  match r with
  | Ok resolved' =>
      (forall name source, (name, source) ∈ inputs ->
         exists a, source_artifact record o source a /\ resolved' !! name = Some a) /\
      (forall name, name ∉ inputs.*1 -> resolved' !! name = resolved !! name)
  | Err _ => exists name source, (name, source) ∈ inputs /\ forall a, ~ source_artifact record o source a
  end.
Proof.
  revert resolved. induction inputs as [|[name source] inputs IH]; intros resolved Hnd; cbn -[resolve_input].
  { intros [_ <-]%mret_Ok. split; [by intros ?? ?%elem_of_nil|done]. }
  apply NoDup_cons in Hnd as [Hn Hnd].
  intros (o1 & acc & Hi & Hr)%action_bind_Ok.
  pose proof (resolve_input_keeps_hub record (Ok resolved) (name, source) o) as Hk.
  rewrite Hi in Hk. cbn in Hk. subst o1.
  apply resolve_input_cases in Hi. destruct acc as [resolved1|msg]; cbn in Hi.
  - destruct Hi as (a & Ha & ->). specialize (IH _ Hnd Hr). destruct r as [resolved'|msg].
    + destruct IH as [Hin Hout]. split.
      * intros n src [[= -> ->]|Hi]%elem_of_cons; [|by apply Hin].
        exists a. split; [done|]. by rewrite Hout, lookup_insert_eq.
      * intros n [Hne Hni]%not_elem_of_cons. rewrite Hout by done. by rewrite lookup_insert_ne.
    + destruct IH as (n & src & Hi & Hno). exists n, src. split; [by right|done].
  - rewrite resolve_inputs_Err in Hr. injection Hr as <-. exists name, source. split; [by left|done].
Qed.

(** The inputs a step is started with are exactly what its sources stand
    for: reading nothing but the metadata store and the fences and changing
    nothing, the resolution either gives every input, and only those, the
    artifact that is its source -- an existing one, or the named output of the
    dependency's authoritative publication -- or names a failure because some
    input has no such artifact; never the output of an unpublished attempt. *)
Lemma step_inputs_spec record step o o' r :
  resolve_workflow_inputs record step o = (o', Ok r) ->
  o' = o /\
  match r with
  | Ok resolved =>
      (forall name, is_Some (resolved !! name) <-> is_Some (step_inputs step !! name)) /\
      forall name a, resolved !! name = Some a <->
        exists source, step_inputs step !! name = Some source /\ source_artifact record o source a
  | Err _ => exists name source, step_inputs step !! name = Some source /\
      forall a, ~ source_artifact record o source a
  end.
Proof.
  unfold resolve_workflow_inputs. intros Hr.
  assert (o' = o) as ->.
  { pose proof (resolve_keeps_hub record (map_iter (step_inputs step)) (Ok ∅) o) as Hk.
    by rewrite Hr in Hk. }
  split; [done|].
  assert (Hnd : NoDup (map_iter (step_inputs step)).*1) by apply NoDup_map_keys.
  assert (Huniq : forall source a b, source_artifact record o source a ->
    source_artifact record o source b -> a = b).
  { intros [x|dep out] a b; cbn; [by intros [-> _] [-> _]|].
    intros (p & Hp & Ha) (p' & Hp' & Hb). congruence. }
  apply resolve_inputs_cases in Hr; [|done]. destruct r as [resolved|msg].
  - destruct Hr as [Hin Hout].
    assert (Hiff : forall name a, resolved !! name = Some a <->
      exists source, step_inputs step !! name = Some source /\ source_artifact record o source a).
    2:{ split; [|done]. intros name. split.
        - intros [a (source & Hs & _)%Hiff]. by exists source.
        - intros [source Hs]. destruct (Hin name source) as (a & _ & Ha); [by apply elem_of_map_iter|]. by exists a. }
    intros name a. split.
    + intros Ha. destruct (decide (name ∈ (map_iter (step_inputs step)).*1)) as [Hn|Hn].
      * apply list_elem_of_fmap in Hn as ([n source] & -> & Hs). destruct (Hin _ _ Hs) as (b & Hb & Hl).
        cbn in Ha. exists source. apply elem_of_map_iter in Hs. split; [done|]. cbn in *. congruence.
      * rewrite Hout in Ha by done. done.
    + intros (source & Hs & Ha). apply elem_of_map_iter in Hs. destruct (Hin _ _ Hs) as (b & Hb & Hl).
      by rewrite (Huniq _ _ _ Ha Hb).
  - destruct Hr as (name & source & Hs & Hno). exists name, source. by rewrite <- elem_of_map_iter.
Qed.
End schedule.
