(* ===== verification/System.v ===== *)
(** * The whole workflow execution

    The scheduler together with the workers it launches: a state is the
    scheduler's variables, the point of its loop and the rest of each worker's
    thread.  A transition is a step of the scheduler, one atomic action of a
    worker, or anything other callers of the Hub may do meanwhile.  The
    workers' rely is discharged by the guarantees of the scheduler and of the
    other workers ([Guarantee]). *)

From stdpp Require Import base gmap strings list.
From S2P Require Import Prelude Text Core Version Digest Machine Blobs Component Run Workflow Task.
From S2P Require Import TaskLifecycle Publication Event Memory Ports Exec Scicapsule Hub Submit.
From S2P Require Import Execute Attempts Threads Worker Guarantee Schedule.

Section system.
Context `{JsonLib, ManifestJson, Sha256Lib, Environment, UuidLib} {backend : Executor}.
Context {Store Fences : Type} `{!Repositories Store, !PublicationFenceRepository Fences}.
Context `{!RepositoriesLaws Store, !PublicationFenceLaws Fences}.
Context (limits : Limits) (blob_root workdir_root path_var : string) (polls : N -> Machine -> nat).
Context (wid : WorkflowId) (spec : WorkflowSpec).

Abbreviation shared_state := (Shared (Store := Store) (Fences := Fences)).
Abbreviation worker := (thread shared_state CoreError ParallelStepTerminal).
Abbreviation step_thread := (execute_parallel_step (backend := backend) (Store := Store) (Fences := Fences)
  limits blob_root workdir_root path_var polls wid).

Record system := mkSystem {
  sy_sched : Sched (Store := Store) (Fences := Fences);
  sy_phase : phase;
  sy_workers : gmap string worker;
}.

Definition sy_shared (c : system) : shared_state := sc_shared (sy_sched c).

(** A step of the scheduler: a launch adds a worker, a receipt joins one. *)
Inductive sched_step : system -> system -> Prop :=
| sys_silent s ph s' ph' ws :
    own_step wid spec Silent (s, ph) (s', ph') -> sched_step (mkSystem s ph ws) (mkSystem s' ph' ws)
| sys_launch s ph s' ph' ws step resolved :
    step ∈ ws_steps spec -> own_step wid spec (Launch (step_key step) resolved) (s, ph) (s', ph') ->
    sched_step (mkSystem s ph ws)
      (mkSystem s' ph' (<[step_key step := step_thread step resolved]> ws))
| sys_receive s ph s' ph' ws key result :
    ws !! key = Some (Ended result) -> own_step wid spec (Receive key result) (s, ph) (s', ph') ->
    sched_step (mkSystem s ph ws) (mkSystem s' ph' (delete key ws)).

(** An atomic action of a worker.  UUIDs do not collide. *)
Inductive worker_step : system -> system -> Prop :=
| sys_worker s ph ws key act :
    ws !! key = Some (Atom act) -> uuids_fresh (sc_hub s) ->
    worker_step (mkSystem s ph ws)
      (mkSystem (set_shared s (act (sc_shared s)).1) ph (<[key := (act (sc_shared s)).2]> ws)).

(** What other callers of the Hub may do: move no step of this workflow. *)
Inductive external_step : system -> system -> Prop :=
| sys_external s ph ws sh :
    moves wid (fun _ => False) (sc_shared s) sh ->
    external_step (mkSystem s ph ws) (mkSystem (set_shared s sh) ph ws).

(** What the execution does itself. *)
Definition internal_step (c c' : system) : Prop := sched_step c c' \/ worker_step c c'.

(** Executions, with the number of the scheduler's steps. *)
Inductive run : nat -> system -> system -> Prop :=
| run_start c : run 0 c c
| run_sched n c c1 c2 : run n c c1 -> sched_step c1 c2 -> run (S n) c c2
| run_worker n c c1 c2 : run n c c1 -> worker_step c1 c2 -> run n c c2
| run_external n c c1 c2 : run n c c1 -> external_step c1 c2 -> run n c c2.

(** A workflow that has just been started: no step has been attempted. *)
Definition started (adm : option WorkflowAdmissionPins) (c : system) : Prop :=
  exists o record, c = mkSystem (first_state o record) Refresh ∅ /\
    repo_ok (o_store o) /\ wr_id record = wid /\ wr_state record = WsRunning /\ wr_spec record = spec /\
    wr_admission record = adm /\ wr_steps record = [] /\
    forall step, step ∈ ws_steps spec ->
      authoritative_publication (o_fences o) wid (step_key step) = Ok None.

(** ** Data flow *)

(** The artifacts given to a step are those its inputs name: the output of a
    dependency is the one in its authoritative publication. *)
Definition flows (fences : Fences) (source : InputSource) (a : ArtifactId) : Prop :=
  match source with
  | Artifact x => a = x
  | FromStep dep output => exists p,
      authoritative_publication fences wid dep = Ok (Some p) /\ asp_outputs p !! output = Some a
  end.

Definition inputs_match (fences : Fences) (step : Step) (resolved : gmap string ArtifactId) : Prop :=
  forall name a, resolved !! name = Some a <->
    exists source, step_inputs step !! name = Some source /\ flows fences source a.

Lemma inputs_match_same fences fences' step resolved :
  (forall dep, dep ∈ step_deps step -> same_step fences fences' wid dep) ->
  inputs_match fences step resolved -> inputs_match fences' step resolved.
Proof.
  intros Hs Hm name a. rewrite (Hm name a).
  assert (Heq : forall source, step_inputs step !! name = Some source ->
    flows fences source a <-> flows fences' source a).
  { intros [x|dep output] Hsrc; [done|]. cbn. destruct (Hs dep) as [_ ->]; [|done].
    apply elem_of_step_deps. right. by do 2 eexists. }
  split; intros (source & Hsrc & Hf); exists source; (split; [done|]); by apply (Heq source Hsrc).
Qed.

(** ** The invariant *)
Context (Hvalid : WorkflowSpec_validate spec = Ok tt) (adm : option WorkflowAdmissionPins).

Definition pinned (step : Step) : option ComponentAdmissionPin :=
  adm ≫= fun pins => pins_steps pins !! step_key step.

(** What the worker of a step answers with. *)
Definition answered (step : Step) (resolved : gmap string ArtifactId)
    (result : Result ParallelStepTerminal) (sh : shared_state) : Prop :=
  step_post wid step (WorkflowSpec_step_run_spec step resolved) (pinned step) (max_attempts step) result sh.

(** A step that was never attempted. *)
Definition untouched (step : Step) (sh : shared_state) : Prop :=
  step_result (sh_record sh) (step_key step) = None /\
  authoritative_publication (o_fences (sh_hub sh)) wid (step_key step) = Ok None.

(** A worker was given what its step's sources stand for, every action it
    still takes is within its guarantee, and whatever the others do it ends as
    [answered]. *)
Definition worker_ok (step : Step) (t : worker) (sh : shared_state) : Prop :=
  exists resolved, inputs_match (o_fences (sh_hub sh)) step resolved /\
    does (guarantee wid step) (fun _ => True) t /\
    promises (worker_rely wid step) t (answered step resolved) sh.

(** A completed step has published the outputs of a run on such inputs. *)
Definition completed_ok (step : Step) (sh : shared_state) : Prop :=
  exists resolved, inputs_match (o_fences (sh_hub sh)) step resolved /\
    answered step resolved (Ok Succeeded) sh.

Record system_inv (c : system) : Prop := {
  sv_sched : sched_inv wid spec (sy_sched c);
  sv_phase : phase_inv wid spec (sy_sched c) (sy_phase c);
  sv_ledger : ledger_ok (sh_record (sy_shared c));
  sv_admission : wr_admission (sh_record (sy_shared c)) = adm;
  (** There is a worker for each step in flight, and no other. *)
  sv_workers : dom (sy_workers c) = sc_in_flight (sy_sched c);
  sv_pending : forall step, step ∈ ws_steps spec -> step_key step ∈ sc_pending (sy_sched c) ->
    untouched step (sy_shared c);
  sv_running : forall step t, step ∈ ws_steps spec -> sy_workers c !! step_key step = Some t ->
    worker_ok step t (sy_shared c);
  sv_completed : forall step, step ∈ ws_steps spec -> step_key step ∈ sc_completed (sy_sched c) ->
    completed_ok step (sy_shared c);
}.

(** *** What survives the moves of others *)
#[local] Instance worker_rely_preorder step : PreOrder (worker_rely (Store := Store) (Fences := Fences) wid step).
Proof.
  split; [intros sh; apply worker_rely_refl|]. intros a b c Hab Hbc Hok.
  destruct (Hab Hok) as (Hb & Eab & Lab & Aab & Fab). destruct (Hbc Hb) as (Hc & Ebc & Lbc & Abc & Fbc).
  split_and!; [done| | |congruence|destruct Fab, Fbc; split; congruence].
  - intros id r Hr. destruct (Eab id r Hr) as (r1 & Hr1 & He1). destruct (Ebc id r1 Hr1) as (r2 & Hr2 & He2).
    exists r2. split; [done|by eapply evolves_trans].
  - intros Ha. destruct (Lab Ha) as [Hb' ?]. destruct (Lbc Hb'). split; [done|congruence].
Qed.

Lemma published_stable step rs pin bound sh sh' :
  repo_ok (o_store (sh_hub sh)) -> ledger_ok (sh_record sh) -> worker_rely wid step sh sh' ->
  published wid step rs pin bound sh -> published wid step rs pin bound sh'.
Proof.
  intros Hok Hl Hr (r & oc & p & res & a & n & Hg & Hst & Had & Hoc & Hex & Hp & Hout & Hres & Hrest).
  destruct (Hr Hok) as (_ & Hev & Hl' & _ & _ & Hpub). destruct (Hl' Hl) as [_ Hs].
  destruct (Hev _ _ Hg) as (r' & Hg' & _ & _ & _ & _ & Hfin).
  rewrite Hfin in Hg' by (by rewrite Hst).
  exists r, oc, p, res, a, n. rewrite Hpub, Hs. do 8 (split; [assumption|]). exact Hrest.
Qed.

Lemma answered_stable step resolved result sh sh' :
  worker_rely wid step sh sh' -> answered step resolved result sh -> answered step resolved result sh'.
Proof.
  intros Hr (Hok & Hl & Hres). destruct (Hr Hok) as (Hok' & _ & Hl' & _ & _). destruct (Hl' Hl) as [Hl1 _].
  split; [done|]. split; [done|].
  assert (Hun : unpublished wid step (max_attempts step) sh -> unpublished wid step (max_attempts step) sh').
  { intros (ids & n & Hh & Hn). exists ids, n. split; [|done].
    by refine (held_stable wid step (worker_rely wid step) (fun _ _ Hrel => Hrel) _ _ _ _ _ _ Hh Hr). }
  destruct result as [[]|]; auto. by apply (published_stable _ _ _ _ sh).
Qed.

Lemma untouched_stable step sh sh' :
  repo_ok (o_store (sh_hub sh)) -> ledger_ok (sh_record sh) -> worker_rely wid step sh sh' ->
  untouched step sh -> untouched step sh'.
Proof.
  intros Hok Hl Hr [Hn Hp]. destruct (Hr Hok) as (_ & _ & Hl' & _ & _ & Hpub). destruct (Hl' Hl) as [_ Hs].
  split; congruence.
Qed.

(** *** The steps of the workflow *)
Lemma step_unique step step' :
  step ∈ ws_steps spec -> step' ∈ ws_steps spec -> step_key step = step_key step' -> step = step'.
Proof.
  pose proof (ww_unique _ (workflow_validate_wf _ Hvalid)) as Hnd. unfold spec_keys in Hnd.
  intros [i Hi]%list_elem_of_lookup_1 [j Hj]%list_elem_of_lookup_1 Hk.
  assert (i = j) as ->; [|congruence].
  apply (NoDup_lookup _ _ _ (step_key step) Hnd); [by rewrite list_lookup_fmap, Hi|by rewrite list_lookup_fmap, Hj, Hk].
Qed.

Lemma step_in_keys step : step ∈ ws_steps spec -> step_key step ∈ keys spec.
Proof. intros Hs. apply elem_of_list_to_set. by apply list_elem_of_fmap_2. Qed.

(** The dependencies of a step that was launched have completed. *)
Lemma launched_deps (s : Sched (Store := Store) (Fences := Fences)) step :
  sched_inv wid spec s -> step ∈ ws_steps spec -> step_key step ∉ sc_pending s ->
  step_deps step ⊆ sc_completed s.
Proof.
  intros Hi Hs Hp. destruct (si_order _ _ _ Hi _ (step_in_keys _ Hs) Hp) as (deps & Hd & Hsub).
  apply dependencies_lookup in Hd as (step' & Hs' & Hk & <-); [|apply (ww_unique _ (workflow_validate_wf _ Hvalid))].
  by rewrite (step_unique step step').
Qed.

(** *** Moves *)

(** A change of the shared state that moves steps in flight only. *)
Record unmoved (K : string -> Prop) (c : system) (sh : shared_state) : Prop := {
  um_ledger : ledger_ok (sh_record sh);
  um_admission : wr_admission (sh_record sh) = adm;
  um_pending : forall step, step ∈ ws_steps spec -> step_key step ∈ sc_pending (sy_sched c) -> untouched step sh;
  um_inputs : forall step resolved, step ∈ ws_steps spec -> step_key step ∉ sc_pending (sy_sched c) ->
    inputs_match (o_fences (sh_hub (sy_shared c))) step resolved ->
    inputs_match (o_fences (sh_hub sh)) step resolved;
  um_running : forall step t, step ∈ ws_steps spec -> ~ K (step_key step) ->
    sy_workers c !! step_key step = Some t -> worker_ok step t sh;
  um_completed : forall step, step ∈ ws_steps spec -> step_key step ∈ sc_completed (sy_sched c) ->
    completed_ok step sh;
}.

Lemma moves_unmoved K c sh :
  system_inv c -> moves wid K (sy_shared c) sh -> (forall k, K k -> k ∈ sc_in_flight (sy_sched c)) ->
  unmoved K c sh.
Proof.
  intros [Hi _ Hl Ha Hw Hp Hr Hc] Hm HK. pose proof (si_repo _ _ _ Hi) as Hok. change (sc_hub _) with (sh_hub (sy_shared c)) in Hok.
  destruct (si_disjoint _ _ _ Hi) as (Hpf & Hpc & Hfc).
  assert (Hrely : forall step, step_key step ∉ sc_in_flight (sy_sched c) -> worker_rely wid step (sy_shared c) sh)
    by (intros step Hn; eapply moves_rely, Hm; auto).
  assert (Hin : forall step resolved, step ∈ ws_steps spec -> step_key step ∉ sc_pending (sy_sched c) ->
    inputs_match (o_fences (sh_hub (sy_shared c))) step resolved ->
    inputs_match (o_fences (sh_hub sh)) step resolved).
  { intros step resolved Hs Hn. apply inputs_match_same. intros dep Hdep.
    pose proof (launched_deps _ _ Hi Hs Hn dep Hdep) as Hd. destruct Hm as [Hm _].
    apply Hm; [done|]. intros Hk%HK. by apply (Hfc dep). }
  split; [| | |done| |].
  - destruct Hm as [_ (_ & _ & _ & _ & Hm)]. by apply Hm.
  - destruct Hm as [_ (_ & _ & _ & Hm & _)]. congruence.
  - intros step Hs Hin'. eapply untouched_stable; [exact Hok|exact Hl|apply Hrely|by apply Hp].
    intros Hf. by apply (Hpf (step_key step)).
  - intros step t Hs Hk Ht. destruct (Hr step t Hs Ht) as (resolved & Hres & Hdoes & Hprom). exists resolved.
    assert (Hf : step_key step ∈ sc_in_flight (sy_sched c)) by (rewrite <- Hw; by eapply elem_of_dom_2).
    split; [apply Hin; [done|intros Hk'; by apply (Hpf (step_key step))|done]|]. split; [done|].
    eapply promises_rely; [apply _| |by eapply moves_rely, Hm|exact Hprom].
    intros r s1 s2 Hans Hrel. by eapply answered_stable.
  - intros step Hs Hk. destruct (Hc step Hs Hk) as (resolved & Hres & Hans). exists resolved.
    split; [apply Hin; [done|intros Hk'; by apply (Hpc (step_key step))|done]|].
    eapply answered_stable; [apply Hrely; intros Hk'; by apply (Hfc (step_key step))|exact Hans].
Qed.

(** A transition that leaves the scheduler's sets alone. *)
Lemma inv_same_sets K c s' ph' ws' :
  system_inv c -> moves wid K (sy_shared c) (sc_shared s') -> (forall k, K k -> k ∈ sc_in_flight (sy_sched c)) ->
  same_sets (sy_sched c) s' -> sched_inv wid spec s' -> phase_inv wid spec s' ph' ->
  dom ws' = dom (sy_workers c) -> (forall k, ~ K k -> ws' !! k = sy_workers c !! k) ->
  (forall step t, step ∈ ws_steps spec -> K (step_key step) -> ws' !! step_key step = Some t ->
     worker_ok step t (sc_shared s')) ->
  (forall k, K k \/ ~ K k) -> system_inv (mkSystem s' ph' ws').
Proof.
  intros Hi Hm HK (Ep & Ec & Ef) Hs' Hph Hdom Hws Hown Hdec.
  destruct (moves_unmoved _ _ _ Hi Hm HK) as [? ? Hp Hin Hr Hc].
  split; cbn; unfold sy_shared; cbn; try done.
  - rewrite Hdom, Ef. apply Hi.
  - intros step Hs. rewrite Ep. by apply Hp.
  - intros step t Hs Ht. destruct (Hdec (step_key step)) as [Hk|Hk]; [by apply Hown|].
    rewrite Hws in Ht by done. by apply Hr.
  - intros step Hs. rewrite Ec. by apply Hc.
Qed.

Lemma external_inv c c' : system_inv c -> external_step c c' -> system_inv c'.
Proof.
  intros Hi Hst. inversion Hst as [s ph ws sh Hm]; subst.
  assert (Hs : same_sets s (set_shared s sh)) by done. assert (He : ends_recorded s (set_shared s sh)) by done.
  apply (inv_same_sets (fun _ => False) _ _ _ _ Hi); try done; auto.
  - exact (sched_inv_frame wid spec _ s (set_shared s sh) (sv_sched _ Hi) Hm Hs He).
  - exact (phase_inv_frame wid spec _ s (set_shared s sh) _ (sv_sched _ Hi) Hm Hs He (sv_phase _ Hi)).
Qed.

(** So is a silent step of the scheduler. *)
Lemma silent_inv s s' ph ph' ws :
  system_inv (mkSystem s ph ws) -> own_step wid spec Silent (s, ph) (s', ph') -> system_inv (mkSystem s' ph' ws).
Proof.
  intros Hi Hst. destruct (own_step_inv wid spec Hvalid _ _ _ _ _ (sv_sched _ Hi) (sv_phase _ Hi) Hst) as [Hs Hp].
  destruct (silent_calm wid spec _ _ _ _ Hst) as (Hm & Hsets & _).
  apply (inv_same_sets (fun _ => False) _ _ _ _ Hi); try done; auto.
Qed.

(** And an action of a worker, which moves its own step. *)
Lemma worker_inv s ph ws key act :
  system_inv (mkSystem s ph ws) -> ws !! key = Some (Atom act) -> uuids_fresh (sc_hub s) ->
  system_inv (mkSystem (set_shared s (act (sc_shared s)).1) ph (<[key := (act (sc_shared s)).2]> ws)).
Proof.
  intros Hi Hw Hfresh.
  pose proof (sv_workers _ Hi) as Hdom. cbn in Hdom.
  assert (Hf : key ∈ sc_in_flight s) by (rewrite <- Hdom; by eapply elem_of_dom_2).
  assert (Hstep : exists step, step ∈ ws_steps spec /\ step_key step = key).
  { assert (Hk : key ∈ keys spec) by (apply (si_keys _ _ _ (sv_sched _ Hi)); set_solver).
    apply elem_of_list_to_set, list_elem_of_fmap in Hk as (step & -> & Hs). by exists step. }
  destruct Hstep as (step & Hs & <-).
  destruct (sv_running _ Hi step _ Hs Hw) as (resolved & Hin & Hdoes & Hprom).
  inversion Hdoes as [|? Hact Hrest]; subst. pose proof (guarantee_moves _ _ _ _ (Hact (sc_shared s)) Hfresh) as Hmv.
  assert (Hsets : same_sets s (set_shared s (act (sc_shared s)).1)) by done.
  assert (He : ends_recorded s (set_shared s (act (sc_shared s)).1)) by done.
  apply (inv_same_sets (eq (step_key step)) _ _ _ _ Hi); try done.
  - by intros k <-.
  - exact (sched_inv_frame wid spec _ s (set_shared s _) (sv_sched _ Hi) Hmv Hsets He).
  - exact (phase_inv_frame wid spec _ s (set_shared s _) _ (sv_sched _ Hi) Hmv Hsets He (sv_phase _ Hi)).
  - cbn. rewrite dom_insert_lookup_L; [done|by eexists].
  - intros k Hk. by apply lookup_insert_ne.
  - intros step' t Hs' Hk Ht. assert (step' = step) as -> by (symmetry; by apply step_unique).
    rewrite lookup_insert_eq in Ht. injection Ht as <-. exists resolved. split_and!; [|done|].
    + destruct (moves_unmoved _ _ _ Hi Hmv) as [_ _ _ Hin' _ _]; [by intros k <-|]. apply Hin'; [done| |done].
      intros Hp. by apply (proj1 (si_disjoint _ _ _ (sv_sched _ Hi)) (step_key step)).
    + by apply (promises_step (worker_rely wid step) act).
  - intros k. destruct (decide (step_key step = k)); auto.
Qed.

(** A launch gives a pending step its worker. *)
Lemma launch_worker_ok s s' ws step resolved :
  system_inv (mkSystem s Launching ws) -> step ∈ ws_steps spec ->
  launch_phase wid spec s = (s', Ok (Some (step_key step, resolved))) ->
  worker_ok step (step_thread step resolved) (sc_shared s).
Proof.
  intros Hi Hs Hl. pose proof (launch_cases _ _ _ _ _ Hl) as (_ & [Hp _]%next_ready_Some & _).
  destruct (sv_pending _ Hi step Hs Hp) as [Hnone Hpub].
  destruct (launch_resolved _ _ _ _ _ _ Hl) as (step1 & o & Hs1 & Hk & Hr).
  rewrite (step_unique _ _ Hs1 Hs Hk) in Hr. apply step_inputs_spec in Hr as (-> & Hall & Hiff).
  destruct (si_record _ _ _ (sv_sched _ Hi)) as (Hid & _ & _). cbn in Hid.
  exists resolved. split_and!.
  - intros name a. rewrite Hiff. split; intros (source & Hsrc & Hf); exists source; (split; [done|]).
    + destruct source as [x|dep output]; cbn in *; [by destruct Hf|by rewrite Hid in Hf].
    + destruct source as [x|dep output]; cbn in *; [|by rewrite Hid].
      destruct (proj2 (Hall name) (ex_intro _ _ Hsrc)) as [b Hb].
      pose proof Hb as (source & Hsrc' & Hb')%Hiff. rewrite Hsrc in Hsrc'. injection Hsrc' as <-.
      cbn in Hb'. subst a. destruct Hb' as [-> Hm]. by split.
  - apply worker_guarantee.
  - pose proof (sv_admission _ Hi) as Ha. cbn in Ha. unfold answered, pinned. rewrite <- Ha.
    refine (proj2 (step_publication limits blob_root workdir_root path_var polls wid step resolved
      (worker_rely wid step) (sc_shared s) _ (fun _ _ Hrel => Hrel) _ (si_repo _ _ _ (sv_sched _ Hi))
      (sv_ledger _ Hi) Hnone Hpub)).
    pose proof (ww_step _ (workflow_validate_wf _ Hvalid) _ Hs) as Hwf. unfold max_attempts.
    destruct (step_retry step) as [p|] eqn:Ep; [|done]. apply (sw_retry _ Hwf _ Ep).
Qed.

Lemma launch_inv_system s ph s' ph' ws step resolved :
  system_inv (mkSystem s ph ws) -> step ∈ ws_steps spec ->
  own_step wid spec (Launch (step_key step) resolved) (s, ph) (s', ph') ->
  system_inv (mkSystem s' ph' (<[step_key step := step_thread step resolved]> ws)).
Proof.
  intros Hi Hs Hst. destruct (own_step_inv wid spec Hvalid _ _ _ _ _ (sv_sched _ Hi) (sv_phase _ Hi) Hst) as [Hs' Hp'].
  inversion Hst as [|? ? ? ? Hl| | | |]; subst. pose proof (launch_worker_ok _ _ _ _ _ Hi Hs Hl) as Hok.
  apply launch_cases in Hl as (_ & _ & Hsh & Ep & Ec & Ef & _).
  destruct Hi as [_ _ Hl Ha Hw Hpd Hr Hc]. unfold sy_shared in *. cbn in *. rewrite <- Hsh in *.
  split; unfold sy_shared; cbn; try done.
  - by rewrite dom_insert_L, Ef, Hw.
  - intros step1 Hs1. rewrite Ep. intros [Hk _]%elem_of_difference. by apply Hpd.
  - intros step1 t Hs1 Ht. destruct (decide (step_key step1 = step_key step)) as [Hk|Hk].
    + rewrite (step_unique _ _ Hs1 Hs Hk) in *. rewrite lookup_insert_eq in Ht. by injection Ht as <-.
    + rewrite lookup_insert_ne in Ht by done. by apply Hr.
  - intros step1 Hs1. rewrite Ec. by apply Hc.
Qed.

(** A receipt ends a worker, and completes its step if it published. *)
Lemma receive_inv_system s ph s' ph' ws key result :
  system_inv (mkSystem s ph ws) -> ws !! key = Some (Ended result) ->
  own_step wid spec (Receive key result) (s, ph) (s', ph') -> system_inv (mkSystem s' ph' (delete key ws)).
Proof.
  intros Hi Hw Hst. destruct (own_step_inv wid spec Hvalid _ _ _ _ _ (sv_sched _ Hi) (sv_phase _ Hi) Hst) as [Hs' Hp'].
  inversion Hst as [| | | | |? ? ? ? r Hin Hr]; subst.
  destruct (receive_cases _ _ _ _ _ _ Hr) as (Hm & _ & Ep & Ef & Hres).
  destruct (moves_unmoved _ _ _ Hi Hm) as [Hl Ha Hpd _ Hrn Hc]; [done|]. cbn in *.
  split; unfold sy_shared; cbn; try done.
  - pose proof (sv_workers _ Hi) as Hdom. cbn in Hdom. by rewrite dom_delete_L, Ef, Hdom.
  - intros step Hs. rewrite Ep. by apply Hpd.
  - intros step t Hs [_ Ht]%lookup_delete_Some. apply Hrn; auto.
  - intros step Hs Hk. destruct (decide (step_key step ∈ sc_completed s)) as [Hk1|Hk1]; [by apply Hc|].
    destruct result as [[]|]; destruct Hres as [Ec Hres]; rewrite Ec in Hk; try done.
    apply elem_of_union in Hk as [Hk%elem_of_singleton|Hk]; [|done]. subst key.
    destruct (Hrn step _ Hs id Hw) as (resolved & Hin' & _ & Hans%promises_ended). by exists resolved.
Qed.

Lemma sched_step_inv c c' : system_inv c -> sched_step c c' -> system_inv c'.
Proof.
  intros Hi Hst. inversion Hst; subst; [by eapply silent_inv|by eapply launch_inv_system|by eapply receive_inv_system].
Qed.

Lemma started_inv c : started adm c -> system_inv c.
Proof.
  intros (o & record & -> & Hok & Hid & Hst & Hsp & Ha & Hsteps & Hpub).
  split; unfold sy_shared; cbn; try done.
  - by apply first_state_inv.
  - unfold ledger_ok. rewrite Hsteps. split; constructor.
  - intros step Hstep _. split; [|by apply Hpub]. unfold step_result. cbn. by rewrite Hsteps.
Qed.

Lemma run_inv n c c' : started adm c -> run n c c' -> system_inv c'.
Proof.
  intros Hs%started_inv Hrun. induction Hrun as [c|n c c1 c2 _ IH Hst|n c c1 c2 _ IH Hst|n c c1 c2 _ IH Hst];
    [done|..]; specialize (IH Hs).
  - by eapply sched_step_inv.
  - inversion Hst; subst. by apply worker_inv.
  - by eapply external_inv.
Qed.

(** ** Termination *)
Definition system_measure (c : system) : nat := sched_measure (sy_sched c, sy_phase c).

Lemma sched_step_measure c c' : sched_step c c' -> (system_measure c' < system_measure c)%nat.
Proof. intros Hst. inversion Hst; subst; by eapply (own_step_measure wid spec). Qed.

Lemma run_measure n c c' : run n c c' -> (n + system_measure c' <= system_measure c)%nat.
Proof.
  induction 1 as [c|n c c1 c2 _ IH Hst%sched_step_measure|n c c1 c2 _ IH Hst|n c c1 c2 _ IH Hst]; [lia|lia|..];
    by inversion Hst; subst.
Qed.

(** The workers' threads get shorter. *)
Inductive shorter : gmap string worker -> gmap string worker -> Prop :=
| shorter_act ws key act sh : ws !! key = Some (Atom act) -> shorter (<[key := (act sh).2]> ws) ws.

Lemma shorter_insert key t ws : ws !! key = None -> Acc shorter ws -> Acc shorter (<[key := t]> ws).
Proof.
  revert ws. induction t as [r|act IH] using thread_induction; intros ws Hk Hacc;
    induction Hacc as [ws Hacc IHws]; constructor; intros ws' Hst; inversion Hst as [? key' act' sh Hl]; subst.
  - destruct (decide (key' = key)) as [->|Hne]; [by rewrite lookup_insert_eq in Hl|].
    rewrite lookup_insert_ne in Hl by done. rewrite insert_insert_ne by done.
    apply IHws; [by apply shorter_act|by rewrite lookup_insert_ne].
  - destruct (decide (key' = key)) as [->|Hne].
    + rewrite lookup_insert_eq in Hl. injection Hl as <-. rewrite insert_insert_eq. by apply IH, Acc_intro.
    + rewrite lookup_insert_ne in Hl by done. rewrite insert_insert_ne by done.
      apply IHws; [by apply shorter_act|by rewrite lookup_insert_ne].
Qed.

Lemma shorter_wf : well_founded shorter.
Proof.
  intros ws. induction ws as [|key t ws Hk IH] using map_ind; [|by apply shorter_insert].
  constructor. intros ws' Hst. inversion Hst as [? key act sh Hl]; subst. by rewrite lookup_empty in Hl.
Qed.

Lemma externals_keep c c1 :
  rtc external_step c c1 -> system_measure c1 = system_measure c /\ sy_workers c1 = sy_workers c.
Proof.
  induction 1 as [c|c c1 c2 Hst _ [IHm IHw]]; [done|]. inversion Hst; subst. by rewrite IHm, IHw.
Qed.

(** Some worker can act, or all have ended. *)
Lemma workers_act c :
  uuids_fresh (sc_hub (sy_sched c)) ->
  (exists c', worker_step c c') \/ forall key t, sy_workers c !! key = Some t -> exists r, t = Ended r.
Proof.
  intros Hfresh. destruct c as [s ph ws]. cbn in *. induction ws as [|key t ws Hk IH] using map_ind.
  { right. intros key t Hl. by rewrite lookup_empty in Hl. }
  destruct t as [r|act].
  - destruct IH as [[c' Hst]|Hall].
    + left. inversion Hst as [? ? ? key' act Hl]; subst. eexists. apply (sys_worker _ _ _ key' act); [|done].
      rewrite lookup_insert_ne; [done|]. intros ->. congruence.
    + right. intros key' t' [[_ <-]|[_ Hl]]%lookup_insert_Some; [by eexists|by eapply Hall].
  - left. eexists. eapply (sys_worker _ _ _ key act); [apply lookup_insert_eq|done].
Qed.

Lemma can_act c :
  system_inv c -> uuids_fresh (sc_hub (sy_sched c)) ->
  (exists c', internal_step c c') \/
  match sy_phase c with Left | Stopped _ => True | _ => False end /\
  forall key t, sy_workers c !! key = Some t -> exists r, t = Ended r.
Proof.
  intros Hi Hfresh. destruct (workers_act c Hfresh) as [[c' Hst]|Hall]; [left; exists c'; by right|].
  destruct c as [s ph ws]. pose proof (own_step_exists wid spec s ph (sv_phase _ Hi)) as Hex. cbn in *.
  assert (Hsilent : forall l c, own_step wid spec l (s, ph) c -> ph <> Waiting ->
    exists c', internal_step (mkSystem s ph ws) c').
  { intros l [s' ph'] Hst Hne. destruct l as [|key resolved|key result].
    - eexists. left. by apply sys_silent.
    - inversion Hst as [|? ? ? ? Hl| | | |]; subst.
      destruct (launch_resolved _ _ _ _ _ _ Hl) as (step & _ & Hstep & <- & _).
      eexists. left. by eapply sys_launch.
    - by inversion Hst. }
  destruct ph; try (left; destruct Hex as (l & c & Hst); by eapply Hsilent); [|by right|by right].
  left. destruct Hex as [Hne Hrec]. apply set_choose_L in Hne as [key Hkey].
  pose proof (sv_workers _ Hi) as Hdom. cbn in Hdom. rewrite <- Hdom in Hkey.
  apply elem_of_dom in Hkey as [t Ht]. destruct (Hall _ _ Ht) as [r ->].
  destruct (Hrec key r) as [[s' ph'] Hst]; [rewrite <- Hdom; by eapply elem_of_dom_2|].
  eexists. left. by eapply sys_receive.
Qed.

(** ** Other callers of the Hub *)
#[local] Hint Resolve quiet_preorder quiet_on_machine quiet_query quiet_put_workflow quiet_cancel_run
  quiet_execute_run quiet_refresh : steps.

Lemma quiet_request_cancel id t :
  steps quiet (on_store (fun s => workflows_request_cancel s id t) : action (Orchestrator Store Fences) CoreError _).
Proof.
  intros o Hok. unfold on_store. pose proof (workflows_cancel_frame (o_store o) id t Hok) as Hf.
  destruct (workflows_request_cancel _ _ _) as [s r]. destruct Hf as (? & _ & _ & Hr & _).
  split_and!; [done|by apply same_runs_evolve|done..].
Qed.

Lemma quiet_cancel_attempt_runs record :
  steps quiet (cancel_attempt_runs record : action (Orchestrator Store Fences) CoreError _).
Proof.
  unfold cancel_attempt_runs. apply steps_bind; [apply _| |intros; apply steps_forA; [apply _|]; intros; solve_steps].
  intros o. unfold nonterminal_attempt_runs. by rewrite nonterminal_runs_reads.
Qed.

Lemma quiet_cancel_active id :
  steps quiet (cancel_active_workflow_runs id : action (Orchestrator Store Fences) CoreError _).
Proof. unfold cancel_active_workflow_runs. solve_steps. Qed.

Lemma quiet_finish_cancelled record message :
  steps quiet (finish_workflow_cancelled record message : action (Orchestrator Store Fences) CoreError _).
Proof. unfold finish_workflow_cancelled. solve_steps. Qed.

#[local] Hint Resolve quiet_request_cancel quiet_cancel_attempt_runs quiet_cancel_active quiet_finish_cancelled : steps.

(** Cancelling a workflow, this one or another, raises its token. *)
Lemma cancel_workflow_moves id :
  steps (hub_moves wid (fun _ => False)) (cancel_workflow id : action (Orchestrator Store Fences) CoreError _).
Proof.
  assert (Hq : forall A (m : action (Orchestrator Store Fences) CoreError A),
    steps quiet m -> steps (hub_moves wid (fun _ => False)) m) by (intros; by apply steps_quiet_moves).
  unfold cancel_workflow. apply steps_bind; [apply _|apply Hq; solve_steps|intros now].
  apply steps_bind; [apply _|apply Hq; solve_steps|intros found].
  apply steps_bind; [apply _|apply Hq; solve_steps|intros record].
  destruct (WorkflowState_is_terminal _); [apply Hq; solve_steps|].
  apply steps_bind; [apply _|apply Hq; solve_steps|intros token].
  apply steps_bind; [apply _| |intros _; apply Hq; solve_steps].
  destruct token as [t|]; [|apply Hq; solve_steps].
  intros o Hok. split_and!; [done|by apply same_runs_evolve| |by split].
  unfold stays_cancelled, workflow_token. cbn. destruct (decide (wid = id)) as [->|Hne].
  - by rewrite lookup_insert_eq.
  - by rewrite lookup_insert_ne.
Qed.

(** A call that is made on the Hub while the workflow executes: a run is
    submitted, executed or cancelled, a workflow is cancelled, or a worker of
    another workflow acts. *)
Inductive concurrent_call : Orchestrator Store Fences -> Orchestrator Store Fences -> Prop :=
| call_submit spec' rf pin o : concurrent_call o (submit_run_internal limits spec' rf pin o).1
| call_execute id o :
    concurrent_call o (execute_run (backend := backend) limits blob_root workdir_root path_var id o).1
| call_cancel_run id o : concurrent_call o (cancel_run id o).1
| call_cancel_workflow id o : concurrent_call o (cancel_workflow id o).1
| call_worker owner step resolved act sh :
    owner <> wid ->
    rest_of (execute_parallel_step (backend := backend) limits blob_root workdir_root path_var polls owner step
               resolved) (Atom act) ->
    concurrent_call (sh_hub sh) (sh_hub (act sh).1).

(** One action of the execution, after whatever other callers did. *)
Definition advances (c' c : system) : Prop := exists c1, rtc external_step c c1 /\ internal_step c1 c'.

(** The interference that workflow execution tolerates is what the Hub's
    callers cause: submitting, executing and cancelling runs, cancelling any
    workflow -- this one too -- and each action of the workers of other
    workflows keep the repositories in order, let runs evolve but never change
    a finished one, never revive a cancelled token, and leave the publication
    fences of this workflow alone. *)
Theorem concurrent_calls_external s ph ws o' :
  uuids_fresh (sc_hub s) -> concurrent_call (sc_hub s) o' ->
  external_step (mkSystem s ph ws)
    (mkSystem (set_shared s {| sh_hub := o'; sh_record := sh_record (sc_shared s) |}) ph ws).
Proof.
  intros Hfresh Hc. constructor. split; [|cbn; reflexivity]. cbn. fold (sc_hub s). clear ph ws.
  revert Hfresh Hc. generalize (sc_hub s) as o0. intros o0 Hfresh Hc.
  destruct Hc as [spec' rf pin o|id o|id o|id o|owner step resolved act sh Hne Hrest].
  - by apply submit_moves.
  - apply quiet_moves. exact (quiet_execute_run limits blob_root workdir_root path_var id o).
  - apply quiet_moves. exact (quiet_cancel_run id o).
  - apply cancel_workflow_moves.
  - pose proof (worker_guarantee limits blob_root workdir_root path_var polls owner step resolved) as Hg.
    apply (does_rest _ _ _ _ Hg) in Hrest. inversion Hrest as [|? Hact _]; subst.
    by apply (guarantee_elsewhere owner step wid).
Qed.

(** (C18) Every workflow execution comes to an end: there is no infinite
    sequence of steps of the scheduler and actions of the workers, whatever
    other callers of the Hub do in between, and no fairness is needed. *)
Theorem workflow_execution_terminates : well_founded advances.
Proof.
  assert (Hall : forall n ws c, system_measure c = n -> sy_workers c = ws -> Acc advances c).
  2:{ intros c. by eapply Hall. }
  intros n. induction n as [n IHn] using lt_wf_ind. intros ws. induction (shorter_wf ws) as [ws _ IHws].
  intros c Hn Hws. constructor. intros c' (c1 & [Em Ew]%externals_keep & [Hst|Hst]).
  - apply sched_step_measure in Hst. eapply (IHn (system_measure c')); [lia|done|done].
  - inversion Hst as [s ph ws1 key act Hl _]; subst. cbn in Ew. subst ws1.
    eapply IHws; [by apply (shorter_act _ key act (sc_shared s))|exact Em|done].
Qed.

(** (C2) Safety of workflow execution.  Whatever interleaving of the
    scheduler, its workers and other callers of the Hub led from a started
    workflow to a state: pending, running and completed steps are disjoint
    sets of steps of the workflow, with exactly one worker per running step
    and never more than the limit; every step that was launched had all its
    dependencies completed and was given the artifacts its sources stand for;
    a step is in none of the sets only when the workflow is ending; a step not
    yet launched was never attempted; each worker, whatever happens next,
    ends by publishing its run's outputs or without a publication; and each
    completed step has published exactly what its successful run produced. *)
Theorem workflow_execution_safe n c c' : started adm c -> run n c c' -> system_inv c'.
Proof. apply run_inv. Qed.

(** (C16) A workflow execution is never stuck, and its scheduler takes at most
    [8 * steps + 3] steps: in every state that can be reached the scheduler or
    a worker can act -- the error for a stalled schedule is never raised --
    unless the loop has been left or has failed and every worker has ended. *)
Theorem workflow_execution_progress n c c' :
  started adm c -> run n c c' ->
  (n <= 8 * length (ws_steps spec) + 3)%nat /\
  (uuids_fresh (sc_hub (sy_sched c')) ->
   (exists c'', internal_step c' c'') \/
   match sy_phase c' with Left | Stopped _ => True | _ => False end /\
   forall key t, sy_workers c' !! key = Some t -> exists r, t = Ended r) /\
  (sy_phase c' = Settle -> forall s1, signal_phase wid (sy_sched c') = (s1, Ok tt) ->
     exists b, decide_phase wid s1 = (s1, Ok b)).
Proof.
  intros Hs Hrun. pose proof (run_inv _ _ _ Hs Hrun) as Hi. apply run_measure in Hrun.
  split_and!.
  - destruct Hs as (o & record & -> & _ & _ & _ & Hsp & _). pose proof (first_measure spec Hvalid o record) as Hf.
    rewrite Hsp in Hf. unfold system_measure in Hrun. cbn [sy_sched sy_phase] in Hrun. lia.
  - intros Hfresh. by apply can_act.
  - intros Hp s1 Hs1. pose proof (steps_run _ _ _ _ _ (calm_signal wid) Hs1) as Hcalm.
    pose proof (sv_phase _ Hi) as Hph. rewrite Hp in Hph.
    destruct (decide_total wid spec Hvalid s1) as (b & Hb & _); [|by eapply calm_phase; [apply Hi|..]|by exists b].
    eapply calm_inv; [apply Hi|done].
Qed.

(** (C1) A workflow that ends as Succeeded is complete, and its data flowed
    along its dependencies.  When the loop is left and the record closed, the
    answered record is terminal, is the workflow's own, and is stored, up to a
    cancellation request that arrived meanwhile; Failed carries a failure and
    Cancelled a request.  Succeeded means that no failure or cancellation was
    recorded and that every step has an authoritative publication: exactly the
    outputs of its last attempt's run, which is stored as Succeeded with exit
    code 0 and was submitted under the pinned identity with the step's
    specification on precisely the artifacts its sources stand for -- for a
    dependency, the output of that name in the dependency's own authoritative
    publication. *)
Theorem workflow_success_complete n c c' o' w :
  started adm c -> run n c c' -> sy_phase c' = Left ->
  close_workflow spec (sy_sched c') (sc_hub (sy_sched c')) = (o', Ok w) ->
  wr_id w = wid /\ wr_spec w = spec /\ WorkflowState_is_terminal (wr_state w) = true /\
  (exists c, workflows_get (o_store o') wid = Ok (Some (WorkflowRecord_set_cancel w c))) /\
  (wr_state w = WsFailed -> is_Some (wr_failure w)) /\
  (wr_state w = WsCancelled -> is_Some (wr_cancel_requested_at w)) /\
  (wr_state w = WsSucceeded -> ~ ending (sy_sched c') /\
   forall step, step ∈ ws_steps spec ->
     exists resolved, inputs_match (o_fences o') step resolved /\
       published wid step (WorkflowSpec_step_run_spec step resolved) (pinned step) (max_attempts step)
         {| sh_hub := o'; sh_record := sh_record (sy_shared c') |}).
Proof.
  intros Hs Hrun Hph Hc. pose proof (run_inv _ _ _ Hs Hrun) as Hi.
  pose proof (sv_sched _ Hi) as Hsi. destruct (si_record _ _ _ Hsi) as (Rid & Rst & Rsp).
  pose proof (steps_run _ _ _ _ _ (quiet_close spec (sy_sched c')) Hc) as Hq.
  apply (close_workflow_Ok spec) in Hc as (st & (Eid & Esp & Est & Eg & Em) & Ht & Hsucc);
    [|apply Hsi|done].
  rewrite Rid in Eid, Eg. rewrite Rsp in Esp. subst st.
  split_and!; try done; try (intros Hw; by rewrite Hw in Em).
  intros Hw. destruct (Hsucc Hw) as [Hne Hsz]. split; [done|]. intros step Hstep.
  pose proof (completed_all wid spec Hvalid _ Hsi Hsz step Hstep) as Hk.
  set (sh' := {| sh_hub := o'; sh_record := sh_record (sy_shared c') |}).
  assert (Hm : moves wid (fun _ => False) (sy_shared c') sh').
  { split; [by apply quiet_moves|reflexivity]. }
  destruct (um_completed _ _ _ (moves_unmoved _ _ _ Hi Hm (fun _ F => match F with end)) step Hstep Hk)
    as (resolved & Hin & _ & _ & Hpub).
  exists resolved. by split.
Qed.

(** Opening a workflow starts it exactly once and from scratch.  Only a
    stored workflow in state Created is opened.  If a cancellation was
    requested before, it ends as Cancelled without any step attempted;
    otherwise it is stored as Running, the fences are untouched, and if no
    step was attempted or published yet the scheduler starts from the state
    that every theorem on executions assumes.  Every other workflow is
    refused and nothing changes. *)
Theorem workflow_opening o o' res :
  repo_ok (o_store o) -> open_workflow wid o = (o', res) ->
  match res with
  | Ok opened => exists w0, workflows_get (o_store o) wid = Ok (Some w0) /\ wr_state w0 = WsCreated /\
      match opened with
      | inl w => wr_state w = WsCancelled /\ wr_steps w = wr_steps w0 /\
          is_Some (wr_cancel_requested_at w) /\ workflows_get (o_store o') wid = Ok (Some w)
      | inr record => wr_state record = WsRunning /\ o_fences o' = o_fences o /\
          (exists c, workflows_get (o_store o') wid = Ok (Some (WorkflowRecord_set_cancel record c))) /\
          (wr_spec w0 = spec -> wr_steps w0 = [] ->
           (forall step, step ∈ ws_steps spec ->
              authoritative_publication (o_fences o) wid (step_key step) = Ok None) ->
           started (wr_admission w0) (mkSystem (first_state o' record) Refresh ∅))
      end
  | Err _ => forall w0, workflows_get (o_store o) wid = Ok (Some w0) -> wr_state w0 <> WsCreated -> o' = o
  end.
Proof.
  intros Hok Hr. destruct res as [opened|e].
  - apply action_bind_Ok in Hr as (o1 & found & [-> Hf]%reads_Ok & Hr).
    apply action_bind_Ok in Hr as (o1 & w0 & [-> Hw0]%lift_Ok & Hr). destruct found as [w|]; [|done].
    cbn in Hw0. injection Hw0 as ->. pose proof (workflows_get_key _ _ _ Hok Hf) as Hid.
    apply action_bind_Ok in Hr as (o1 & [] & [-> Hst]%lift_Ok & Hr). apply ensure_Ok in Hst. bool_inv.
    apply action_bind_Ok in Hr as (o1 & r1 & (-> & c & -> & _)%refresh_cancel_intent_spec & Hr).
    apply action_bind_Ok in Hr as (o1 & b & [-> _]%reads_Ok & Hr). exists w0. split; [done|]. split; [done|].
    destruct (b || _).
    + apply action_bind_Ok in Hr as (o1 & w & Hfin & [-> <-]%mret_Ok).
      apply finish_workflow_cancelled_Ok in Hfin as [(_ & _ & Es & _ & Ec & _ & Est) Hg]; [|done].
      cbn in *. rewrite Hst in Est. rewrite Hid in Hg. by split_and!.
    + apply action_bind_Ok in Hr as (o1 & t & Hm & Hr). pose proof Hm as (m & _ & ->)%on_machine_inv.
      destruct (WorkflowRecord_transition _ _ _) as [record r] eqn:Et.
      apply action_bind_Ok in Hr as (o1 & [] & [-> ->]%lift_Ok & Hr).
      apply action_bind_Ok in Hr as (o5 & [] & Hput & [-> <-]%mret_Ok).
      apply WorkflowRecord_transition_Ok in Et as (_ & Es & Eid & Esp & Est & Ea & _). cbn in *.
      pose proof (steps_run _ _ _ _ _ (quiet_put_workflow record) Hput Hok) as (Hok' & _ & Hfe & _).
      apply put_workflow_Ok in Hput as (c' & Hg & _); [|done]. rewrite Eid, Hid in Hg.
      split_and!; [done|done|by exists c'|]. intros Hspec Hsteps Hpub.
      exists o5, record. split_and!; try congruence; try done.
      intros step Hstep. rewrite Hfe. by apply Hpub.
  - intros w0 Hg Hst. unfold open_workflow, query, mbind, action_bind, reads, lift in Hr. rewrite Hg in Hr. cbn in Hr.
    rewrite bool_decide_eq_false_2 in Hr by done. cbn in Hr. by injection Hr as <-.
Qed.

(** ** One execution *)
Fixpoint first_Some {A B} (f : A -> option B) (xs : list A) : option B :=
  match xs with
  | [] => None
  | x :: xs => match f x with Some b => Some b | None => first_Some f xs end
  end.

Lemma first_Some_elem {A B} (f : A -> option B) xs b :
  first_Some f xs = Some b -> exists x, x ∈ xs /\ f x = Some b.
Proof.
  induction xs as [|x xs IH]; cbn; [done|]. destruct (f x) eqn:E.
  - intros [= ->]. exists x. split; [by left|done].
  - intros (y & Hy & Hf)%IH. exists y. split; [by right|done].
Qed.

(** The execution that lets the workers act whenever they can, with a test
    [fresh] for collisions of UUIDs. *)
Context (fresh : Orchestrator Store Fences -> bool) (Hfresh : forall o, fresh o = true -> uuids_fresh o).

Definition first_atom (ws : gmap string worker) : option (string * (shared_state -> shared_state * worker)) :=
  first_Some (fun kt => match kt.2 with Atom act => Some (kt.1, act) | Ended _ => None end) (map_to_list ws).

Definition first_ended (ws : gmap string worker) : option (string * Result ParallelStepTerminal) :=
  first_Some (fun kt => match kt.2 with Ended r => Some (kt.1, r) | Atom _ => None end) (map_to_list ws).

Definition next (c : system) : option system :=
  let '(mkSystem s ph ws) := c in
  match first_atom ws with
  | Some (key, act) =>
      if fresh (sc_hub s)
      then Some (mkSystem (set_shared s (act (sc_shared s)).1) ph (<[key := (act (sc_shared s)).2]> ws))
      else None
  | None =>
      match ph with
      | Refresh => let '(s', r) := refresh_phase wid s in Some (mkSystem s' (after r (fun _ => Launching)) ws)
      | Launching =>
          match launch_phase wid spec s with
          | (s', Ok (Some (key, resolved))) =>
              step ← List.find (fun step => bool_decide (step_key step = key)) (ws_steps spec);
              Some (mkSystem s' Launching (<[key := step_thread step resolved]> ws))
          | (s', Ok None) => Some (mkSystem s' Settle ws)
          | (s', Err e) => Some (mkSystem s' (Stopped e) ws)
          end
      | Settle =>
          let '(s', r) := settle_phase wid s in
          Some (mkSystem s' (after r (fun b : bool => if b then Left else Waiting)) ws)
      | Waiting =>
          '(key, result) ← first_ended ws;
          if bool_decide (key ∈ sc_in_flight s) then
            let '(s', r) := receive_phase wid key result s in
            Some (mkSystem s' (after r (fun _ => Refresh)) (delete key ws))
          else None
      | Left | Stopped _ => None
      end
  end.

Fixpoint drive (fuel : nat) (c : system) : system :=
  match fuel with
  | O => c
  | S fuel => match next c with Some c' => drive fuel c' | None => c end
  end.

Lemma next_internal c c' : next c = Some c' -> internal_step c c'.
Proof.
  destruct c as [s ph ws]. unfold next. destruct (first_atom ws) as [[key act]|] eqn:Ea.
  { destruct (fresh _) eqn:Ef; [|done]. intros [= <-]. right. constructor; [|by apply Hfresh].
    apply first_Some_elem in Ea as ([k t] & Hin%elem_of_map_to_list & Ht).
    destruct t as [|act']; [done|]. by injection Ht as -> ->. }
  intros Hn. left. destruct ph as [| | | | |e]; try done.
  - destruct (refresh_phase wid s) as [s' r] eqn:E. injection Hn as <-. by apply sys_silent, step_refresh.
  - destruct (launch_phase wid spec s) as [s' [[[key resolved]|]|e]] eqn:E.
    + apply bind_Some in Hn as (step & [Hin Hk]%find_Some_elem & [= <-]). bool_inv. subst key.
      by apply sys_launch, step_launch.
    + injection Hn as <-. by apply sys_silent, step_launched.
    + injection Hn as <-. by apply sys_silent, step_launch_error.
  - destruct (settle_phase wid s) as [s' r] eqn:E. injection Hn as <-. by apply sys_silent, step_settle.
  - apply bind_Some in Hn as ([key result] & Hf & Hn). case_bool_decide; [|done].
    destruct (receive_phase wid key result s) as [s' r] eqn:E. injection Hn as <-.
    apply first_Some_elem in Hf as ([k t] & Hin%elem_of_map_to_list & Ht).
    destruct t as [r'|]; [|done]. injection Ht as -> ->. eapply sys_receive; [exact Hin|].
    by apply step_receive.
Qed.

Lemma drive_run fuel c0 c n : run n c0 c -> exists m, run m c0 (drive fuel c).
Proof.
  revert c n. induction fuel as [|fuel IH]; intros c n Hrun; cbn; [by exists n|].
  destruct (next c) as [c'|] eqn:E; [|by exists n].
  apply next_internal in E as [Hst|Hst]; eapply IH; [by eapply run_sched|by eapply run_worker].
Qed.
End system.

(** ** A workflow of two steps *)
Section witnesses.
#[local] Existing Instance plain_json.
#[local] Existing Instance toy_manifest_json.
#[local] Existing Instance toy_workspace_json.
#[local] Existing Instance toy_sha.
#[local] Existing Instance calm_environment.
#[local] Existing Instance plain_uuid.

(** [refine] works on the log that [solve] writes. *)
Definition refine_step : Step := {|
  step_key := "refine"; step_component := from_uuid 7;
  step_capability := mkCapabilityName "linalg.solve"; step_parameters := ∅;
  step_inputs := {[ "matrix" := FromStep "solve" "file:log" ]}; step_after := [];
  step_timeout_ms := 10; step_retry := None |}.

Definition chain_spec : WorkflowSpec :=
  {| ws_schema_version := 1; ws_name := "chain"; ws_max_concurrency := 2;
     ws_steps := [refine_step; matrix_step] |}.

Definition chain_workflow : WorkflowRecord := {|
  wr_id := from_uuid 500; wr_spec := chain_spec; wr_admission := None; wr_state := WsRunning;
  wr_model_version := mkVersion "1.2.0"; wr_created_at := 0; wr_started_at := Some 1%N;
  wr_finished_at := None; wr_cancel_requested_at := None; wr_steps := []; wr_failure := None |}.

(** Every stored run was named by an earlier tick. *)
Definition ids_fresh (o : Orchestrator InMemoryHubStore InMemoryPublicationFences) : bool :=
  forallb (fun id => (as_uuid id <? mc_tick (o_machine o))%N) (map_keys (hs_runs (o_store o))).

Lemma ids_fresh_uuids o : ids_fresh o = true -> uuids_fresh o.
Proof.
  intros Hf n r Hn [= Hr]. unfold ids_fresh in Hf. rewrite List.forallb_forall in Hf.
  specialize (Hf (from_uuid n)). cbn in Hf. assert (Hlt : (n <? mc_tick (o_machine o))%N = true); [|bool_inv; lia].
  apply Hf, list_elem_of_In, elem_of_map_keys, elem_of_dom. by eexists.
Qed.

Definition chain_start := mkSystem (first_state matrix_hub chain_workflow) Refresh ∅.

Definition chain_final := drive (backend := writing_executor) Limits_default "/hub" "/work" "/bin"
  (fun _ _ => 0%nat) (from_uuid 500) chain_spec ids_fresh 80 chain_start.

Abbreviation chain_run := (run (backend := writing_executor) Limits_default "/hub" "/work" "/bin"
  (fun _ _ => 0%nat) (from_uuid 500) chain_spec).

Lemma chain_valid : WorkflowSpec_validate chain_spec = Ok tt.
Proof. by vm_compute. Qed.

Lemma chain_started : started (from_uuid 500) chain_spec None chain_start.
Proof.
  exists matrix_hub, chain_workflow. split; [reflexivity|]. split; [exact matrix_hub_ok|].
  do 5 (split; [reflexivity|]). intros step [-> | [-> | []%not_elem_of_nil]%elem_of_cons]%elem_of_cons;
    vm_compute; reflexivity.
Qed.

Lemma chain_runs : exists n, chain_run n chain_start chain_final.
Proof. eapply drive_run; [exact ids_fresh_uuids|constructor]. Qed.

Lemma workflow_execution_safe_witness :
  exists n, chain_run n chain_start chain_final /\ sy_phase chain_final = Left /\
    system_inv (from_uuid 500) chain_spec None chain_final.
Proof.
  destruct chain_runs as [n Hrun]. exists n. split; [exact Hrun|]. split; [by vm_compute|].
  exact (workflow_execution_safe _ _ _ _ _ _ _ chain_valid _ _ _ _ chain_started Hrun).
Defined.

Lemma workflow_execution_progress_witness :
  exists n, chain_run n chain_start chain_final /\ (n <= 19)%nat.
Proof.
  destruct chain_runs as [n Hrun]. exists n. split; [exact Hrun|].
  exact (proj1 (workflow_execution_progress _ _ _ _ _ _ _ chain_valid _ _ _ _ chain_started Hrun)).
Defined.

Lemma workflow_success_complete_witness :
  let res := close_workflow chain_spec (sy_sched chain_final) (sc_hub (sy_sched chain_final)) in
  exists w, res.2 = Ok w /\ wr_state w = WsSucceeded /\
    exists resolved, inputs_match (from_uuid 500) (o_fences res.1) refine_step resolved.
Proof.
  intros res. destruct chain_runs as [n Hrun].
  assert (Hw : match res.2 with Ok w => bool_decide (wr_state w = WsSucceeded) | Err _ => false end = true)
    by (vm_compute; reflexivity).
  assert (Hph : sy_phase chain_final = Left) by (vm_compute; reflexivity).
  assert (Hres : close_workflow chain_spec (sy_sched chain_final) (sc_hub (sy_sched chain_final)) = res)
    by reflexivity.
  clearbody res. destruct res as [o' [w|e]]; [|discriminate Hw]. apply bool_decide_eq_true in Hw.
  exists w. split; [reflexivity|]. split; [exact Hw|].
  destruct (workflow_success_complete _ _ _ _ _ _ _ chain_valid _ _ _ _ _ _ chain_started Hrun Hph Hres)
    as (_ & _ & _ & _ & _ & _ & Hsucc).
  destruct (proj2 (Hsucc Hw) refine_step) as (resolved & Hin & _); [left|]. exists resolved. exact Hin.
Defined.

Lemma concurrent_calls_external_witness :
  external_step (from_uuid 500) chain_start
    (mkSystem (set_shared (sy_sched chain_start)
       {| sh_hub := (cancel_workflow (from_uuid 500) matrix_hub).1; sh_record := chain_workflow |})
       Refresh ∅).
Proof.
  apply (concurrent_calls_external (backend := writing_executor) Limits_default "/hub" "/work" "/bin"
    (fun _ _ => 0%nat) (from_uuid 500) (first_state matrix_hub chain_workflow)).
  - apply ids_fresh_uuids. vm_compute. reflexivity.
  - apply call_cancel_workflow.
Defined.

Definition created_workflow : WorkflowRecord := {|
  wr_id := from_uuid 500; wr_spec := chain_spec; wr_admission := None; wr_state := WsCreated;
  wr_model_version := mkVersion "1.2.0"; wr_created_at := 0; wr_started_at := None;
  wr_finished_at := None; wr_cancel_requested_at := None; wr_steps := []; wr_failure := None |}.

Definition created_hub := set_store matrix_hub
  (InMemoryHubStore_put_workflow (o_store matrix_hub) created_workflow 2).1.

Lemma created_hub_ok : repo_ok (o_store created_hub).
Proof. exact (hub_keyed_put_workflow _ _ _ matrix_hub_ok). Qed.

Lemma workflow_opening_witness :
  let res := open_workflow (from_uuid 500) created_hub in
  exists record, res.2 = Ok (inr record) /\ wr_state record = WsRunning /\ o_fences res.1 = o_fences created_hub.
Proof.
  intros res. assert (Hr : match res.2 with Ok (inr _) => true | _ => false end = true) by (vm_compute; reflexivity).
  pose proof (workflow_opening (from_uuid 500) chain_spec created_hub res.1 res.2 created_hub_ok (surjective_pairing _)) as Hs.
  clearbody res. destruct res as [o' [[w|record]|e]]; [discriminate Hr| |discriminate Hr].
  destruct Hs as (w0 & _ & _ & Hrun & Hf & _). exists record. split; [reflexivity|]. split; [exact Hrun|exact Hf].
Defined.

Lemma workflow_execution_terminates_witness :
  Acc (advances (backend := writing_executor) Limits_default "/hub" "/work" "/bin" (fun _ _ => 0%nat)
    (from_uuid 500) chain_spec) chain_start.
Proof.
  exact (workflow_execution_terminates (backend := writing_executor) Limits_default "/hub" "/work" "/bin"
    (fun _ _ => 0%nat) (from_uuid 500) chain_spec chain_valid chain_start).
Defined.
End witnesses.
