(* ===== verification/Capacity.v ===== *)
(** * Shared local execution slots ([hub-executor/src/local_capacity.rs])

    [LocalCapacityExecutor] puts one ceiling on the callers that are inside a
    backend at the same time.  The critical sections and the straight-line
    code between them are functions; the callers, the clock and the backend
    make a transition system whose steps are these functions.  Instants and
    durations are nanoseconds. *)

From stdpp Require Import base gmap strings list pretty.
From S2P Require Import Prelude Text Core Component Task Exec.

(** [Duration::from_millis] and [as_millis]. *)
Definition from_millis (ms : N) : N := (ms * 1000000)%N.
Definition as_millis (ns : N) : N := (ns / 1000000)%N.

(** [u64::try_from(d.as_millis()).unwrap_or(default)]. *)
Definition millis_u64 (ns default : N) : N :=
  if (as_millis ns <=? u64_max)%N then as_millis ns else default.

(** [State], behind the mutex. *)
Record CapacityState := {
  cs_active : N;
  cs_quarantined : bool;
}.

Definition CapacityState_default : CapacityState := {| cs_active := 0; cs_quarantined := false |}.

(** The immutable fields; [inner] is a parameter of the system below, the
    state and its condition variable are part of its state. *)
Record LocalCapacityExecutor := {
  lc_limit : N;
  lc_backend : string;
}.

Definition LocalCapacityExecutor_new (limit : N) : result string LocalCapacityExecutor :=
  if negb ((1 <=? limit) && (limit <=? 256))%N
  then Err "local max inflight must be in 1..=256"%string
  else Ok {| lc_limit := limit;
             lc_backend := String.append "process-capacity/v1/slots/" (pretty limit) |}.

Definition unavailable : ExecutorFailure :=
  Backend "local capacity quarantined or poisoned; execution termination is unproven".

(** How one iteration of the loop of [acquire] ends: with a slot, with an
    error, or in [wait_timeout], which gives the lock back. *)
Inductive AcquireStep :=
| SlotTaken
| Refused (e : ExecutorFailure)
| WaitTimeout (ns : N).

Definition acquire_iteration (self : LocalCapacityExecutor) (cancelled : bool)
    (elapsed timeout_ms : N) (state : CapacityState) : CapacityState * AcquireStep :=
  if cs_quarantined state then (state, Refused unavailable)
  else if cancelled then (state, Refused ExecCancelled)
  else
    let remaining := (from_millis timeout_ms - elapsed)%N in
    if (remaining <? from_millis 1)%N then (state, Refused (TimedOut timeout_ms))
    else if (cs_active state <? lc_limit self)%N then
      ({| cs_active := cs_active state + 1; cs_quarantined := cs_quarantined state |}, SlotTaken)
    else (state, WaitTimeout (N.min remaining (from_millis 10))).

(** [Drop for Slot]; [state.active -= 1] panics on underflow. *)
Definition Slot_drop (completed : bool) : action CapacityState CoreError unit := fun state =>
  if completed then
    match cs_active state with
    | 0%N => (state, Err (Panic "attempt to subtract with overflow"))
    | a => ({| cs_active := a - 1; cs_quarantined := cs_quarantined state |}, Ok tt)
    end
  else ({| cs_active := cs_active state; cs_quarantined := true |}, Ok tt).

(** [execute] from the slot to the backend: the recheck and the bounded
    request.  An error releases the slot. *)
Definition ExecutionRequest_set_timeout (request : ExecutionRequest) (ms : N) : ExecutionRequest := {|
  rq_program := rq_program request;
  rq_args := rq_args request;
  rq_working_dir := rq_working_dir request;
  rq_env := rq_env request;
  rq_timeout_ms := ms;
  rq_max_capture_bytes_per_stream := rq_max_capture_bytes_per_stream request |}.

Definition admitted_request (request : ExecutionRequest) (cancelled : bool) (elapsed : N)
    : result ExecutorFailure ExecutionRequest :=
  _ ← ensure (negb cancelled) ExecCancelled;
  let bounded := ExecutionRequest_set_timeout request
    (millis_u64 (from_millis (rq_timeout_ms request) - elapsed) 0) in
  _ ← ensure (negb (rq_timeout_ms bounded =? 0)%N) (TimedOut (rq_timeout_ms request));
  mret bounded.

(** [execute] after the backend: the slot's verdict and the answer. *)
Definition ExecutionOutcome_set_duration (o : ExecutionOutcome) (ms : N) : ExecutionOutcome := {|
  eo_exit_code := eo_exit_code o;
  eo_signal := eo_signal o;
  eo_timed_out := eo_timed_out o;
  eo_cancelled := eo_cancelled o;
  eo_start_error := eo_start_error o;
  eo_duration_ms := ms;
  eo_stdout := eo_stdout o;
  eo_stdout_truncated := eo_stdout_truncated o;
  eo_stderr := eo_stderr o;
  eo_stderr_truncated := eo_stderr_truncated o |}.

Definition backend_answer (elapsed : N) (r : result ExecutorFailure ExecutionOutcome)
    : bool * result ExecutorFailure ExecutionOutcome :=
  (is_ok r, (fun o => ExecutionOutcome_set_duration o (millis_u64 elapsed u64_max)) <$> r).

Definition LocalCapacityExecutor_backend_descriptor (self : LocalCapacityExecutor)
    : SandboxBackendDescriptor := {|
  sbd_backend_id := lc_backend self;
  sbd_isolation := IsoProcess;
  sbd_isolation_qualified := false;
  sbd_isolation_evidence_id := None;
  sbd_enforces_network_policy := false;
  sbd_enforces_default_deny_network := false;
  sbd_enforces_workspace_write_policy := false;
  sbd_resources := {| re_wall_clock_ms := true; re_cpu_millis := false; re_memory_bytes := false;
                      re_gpu_devices := false; re_model_tokens := false |};
  sbd_capabilities := mkCapabilitySet [] |}.

(** ** The callers

    Where a call of [execute] is.  Between two steps of a call any other may
    take steps; the clock moves and tokens are cancelled at any time. *)
Inductive CallPhase :=
| Acquiring
| Holding
| InBackend (bounded : ExecutionRequest)
| Leaving (completed : bool) (r : result ExecutorFailure ExecutionOutcome)
| Unwinding
| Returned (r : result ExecutorFailure ExecutionOutcome)
| Unwound.

(** [cl_dispatched] records the request handed to the backend. *)
Record Call := mkCall {
  cl_request : ExecutionRequest;
  cl_started : N;
  cl_cancelled : bool;
  cl_dispatched : option ExecutionRequest;
  cl_phase : CallPhase;
}.

Record CapacitySystem := mkCapacitySystem {
  cy_state : CapacityState;
  cy_now : N;
  cy_calls : gmap nat Call;
}.

Definition elapsed (now : N) (c : Call) : N := (now - cl_started c)%N.

(** The next step of a call on its own, from its phase; [answer] is what the
    backend does when it is running: [None] panics. *)
Definition call_step (self : LocalCapacityExecutor) (now : N)
    (answer : option (result ExecutorFailure ExecutionOutcome)) (state : CapacityState) (c : Call)
    : CapacityState * result CoreError (option ExecutionRequest * CallPhase) :=
  match cl_phase c with
  | Acquiring =>
      match acquire_iteration self (cl_cancelled c) (elapsed now c) (rq_timeout_ms (cl_request c)) state with
      | (state', SlotTaken) => (state', Ok (cl_dispatched c, Holding))
      | (state', Refused e) => (state', Ok (cl_dispatched c, Returned (Err e)))
      | (state', WaitTimeout _) => (state', Ok (cl_dispatched c, Acquiring))
      end
  | Holding =>
      match admitted_request (cl_request c) (cl_cancelled c) (elapsed now c) with
      | Ok bounded => (state, Ok (Some bounded, InBackend bounded))
      | Err e => (state, Ok (cl_dispatched c, Leaving true (Err e)))
      end
  | InBackend _ =>
      match answer with
      | Some r => let '(completed, r') := backend_answer (elapsed now c) r in
                  (state, Ok (cl_dispatched c, Leaving completed r'))
      | None => (state, Ok (cl_dispatched c, Unwinding))
      end
  | Leaving completed r =>
      let '(state', d) := Slot_drop completed state in
      (state', (fun _ => (cl_dispatched c, Returned r)) <$> d)
  | Unwinding =>
      let '(state', d) := Slot_drop false state in
      (state', (fun _ => (cl_dispatched c, Unwound)) <$> d)
  | Returned _ | Unwound => (state, Ok (cl_dispatched c, cl_phase c))
  end.

Definition Call_move (c : Call) (next : option ExecutionRequest * CallPhase) : Call :=
  mkCall (cl_request c) (cl_started c) (cl_cancelled c) next.1 next.2.

Section capacity.
Context (self : LocalCapacityExecutor).

Inductive capacity_step : CapacitySystem -> CapacitySystem -> Prop :=
| step_enter i request cancelled σ :
    (rq_timeout_ms request <= u64_max)%N -> cy_calls σ !! i = None ->
    capacity_step σ (mkCapacitySystem (cy_state σ) (cy_now σ)
      (<[i := mkCall request (cy_now σ) cancelled None Acquiring]> (cy_calls σ)))
| step_time later σ :
    (cy_now σ <= later)%N -> capacity_step σ (mkCapacitySystem (cy_state σ) later (cy_calls σ))
| step_cancel i c σ :
    cy_calls σ !! i = Some c ->
    capacity_step σ (mkCapacitySystem (cy_state σ) (cy_now σ)
      (<[i := mkCall (cl_request c) (cl_started c) true (cl_dispatched c) (cl_phase c)]> (cy_calls σ)))
| step_call i c answer next state' σ :
    cy_calls σ !! i = Some c ->
    call_step self (cy_now σ) answer (cy_state σ) c = (state', Ok next) ->
    capacity_step σ (mkCapacitySystem state' (cy_now σ) (<[i := Call_move c next]> (cy_calls σ))).

Definition capacity_start (now : N) : CapacitySystem := mkCapacitySystem CapacityState_default now ∅.

(** ** The slots that are out *)
Definition holds_slot (p : CallPhase) : bool :=
  match p with
  | Holding | InBackend _ | Leaving _ _ | Unwinding => true
  | Acquiring | Returned _ | Unwound => false
  end.

Definition holders (calls : gmap nat Call) : gmap nat Call :=
  filter (fun ic => holds_slot (cl_phase ic.2) = true) calls.

Definition slots_out (σ : CapacitySystem) : N := N.of_nat (size (holders (cy_calls σ))).

Lemma holders_insert calls i c :
  holds_slot (cl_phase c) = true -> holders (<[i := c]> calls) = <[i := c]> (holders calls).
Proof using Type. intros Hc. unfold holders. by rewrite map_filter_insert_True. Qed.

Lemma holders_insert_not calls i c :
  holds_slot (cl_phase c) = false -> holders (<[i := c]> calls) = delete i (holders calls).
Proof using Type.
  intros Hc. unfold holders. rewrite map_filter_insert_False by (cbn; congruence).
  by rewrite map_filter_delete.
Qed.

Lemma holders_lookup calls i c :
  calls !! i = Some c ->
  holders calls !! i = if holds_slot (cl_phase c) then Some c else None.
Proof using Type.
  intros Hc. unfold holders. destruct (holds_slot (cl_phase c)) eqn:E.
  - by apply map_lookup_filter_Some.
  - apply map_lookup_filter_None. right. intros c' Hc'. cbn. naive_solver congruence.
Qed.

(** How the number of slots out changes when one call moves. *)
Definition slot_count (b : bool) : N := if b then 1 else 0.

Lemma slots_out_move σ st now i c c' :
  cy_calls σ !! i = Some c ->
  (slots_out (mkCapacitySystem st now (<[i := c']> (cy_calls σ))) + slot_count (holds_slot (cl_phase c)) =
   slots_out σ + slot_count (holds_slot (cl_phase c')))%N.
Proof using Type.
  intros Hc. unfold slots_out. cbn. pose proof (holders_lookup _ _ _ Hc) as Hl.
  destruct (holds_slot (cl_phase c')) eqn:E'.
  - rewrite holders_insert by done. destruct (holds_slot (cl_phase c)) eqn:E.
    + rewrite map_size_insert_Some by eauto. done.
    + rewrite map_size_insert_None by done. cbn. lia.
  - rewrite holders_insert_not by done. destruct (holds_slot (cl_phase c)) eqn:E.
    + rewrite map_size_delete_Some by eauto.
      assert (size (holders (cy_calls σ)) <> 0).
      { intros Hz%map_size_empty_iff. rewrite Hz in Hl. done. }
      cbn. lia.
    + rewrite map_size_delete_None by done. done.
Qed.

Lemma slots_out_enter σ st now i c' :
  cy_calls σ !! i = None -> holds_slot (cl_phase c') = false ->
  slots_out (mkCapacitySystem st now (<[i := c']> (cy_calls σ))) = slots_out σ.
Proof using Type.
  intros Hi Hc. unfold slots_out. cbn. rewrite holders_insert_not by done.
  rewrite map_size_delete_None; [done|]. apply map_lookup_filter_None. by left.
Qed.

(** What one step of a call does to the counter, with the slot it gains or
    gives back. *)
Lemma call_step_slots now answer state c state' next :
  call_step self now answer state c = (state', Ok next) ->
  (cs_active state + slot_count (holds_slot next.2) =
     cs_active state' + slot_count (holds_slot (cl_phase c))
   /\ cs_quarantined state' = cs_quarantined state /\
   (cs_active state' <= N.max (cs_active state) (lc_limit self)))%N \/
  (holds_slot (cl_phase c) = true /\ holds_slot next.2 = false /\
   cs_active state' = cs_active state /\ cs_quarantined state' = true).
Proof using Type.
  unfold call_step, acquire_iteration, Slot_drop, backend_answer, fmap, result_fmap.
  intros Hs. repeat case_match; simplify_eq; cbn in *; simplify_eq; bool_inv;
    (left; split_and!; first [done|lia]) || (right; done).
Qed.

(** ** What holds of a call *)
Definition bounded_by (request b : ExecutionRequest) : Prop :=
  exists ms, b = ExecutionRequest_set_timeout request ms /\
    (1 <= ms <= rq_timeout_ms request)%N.

Definition never_dispatched (c : Call) (now : N) (e : ExecutorFailure) : Prop :=
  (e = ExecCancelled /\ cl_cancelled c = true) \/
  (e = TimedOut (rq_timeout_ms (cl_request c)) /\
   (from_millis (rq_timeout_ms (cl_request c)) < elapsed now c + from_millis 1)%N).

Definition phase_ok (σ : CapacitySystem) (c : Call) : Prop :=
  match cl_phase c with
  | Acquiring | Holding => cl_dispatched c = None
  | InBackend b => cl_dispatched c = Some b
  | Leaving completed r =>
      match cl_dispatched c with
      | None => completed = true /\ exists e, r = Err e /\ never_dispatched c (cy_now σ) e
      | Some _ => completed = is_ok r
      end
  | Unwinding => is_Some (cl_dispatched c)
  | Returned r =>
      match cl_dispatched c with
      | None => exists e, r = Err e /\
          (never_dispatched c (cy_now σ) e \/ (e = unavailable /\ cs_quarantined (cy_state σ) = true))
      | Some _ => is_ok r = true \/ cs_quarantined (cy_state σ) = true
      end
  | Unwound => is_Some (cl_dispatched c) /\ cs_quarantined (cy_state σ) = true
  end.

Definition call_ok (σ : CapacitySystem) (c : Call) : Prop :=
  (rq_timeout_ms (cl_request c) <= u64_max)%N /\
  (forall b, cl_dispatched c = Some b -> bounded_by (cl_request c) b) /\ phase_ok σ c.

Record capacity_inv (σ : CapacitySystem) : Prop := {
  ci_out : (slots_out σ <= cs_active (cy_state σ) <= lc_limit self)%N;
  ci_exact : cs_quarantined (cy_state σ) = false -> cs_active (cy_state σ) = slots_out σ;
  ci_lost : cs_quarantined (cy_state σ) = true -> (slots_out σ < cs_active (cy_state σ))%N;
  ci_calls : map_Forall (fun _ c => call_ok σ c) (cy_calls σ);
}.

(** One iteration under the lock: what each of its ends means. *)
Lemma acquire_iteration_spec cancelled el ms state :
  match acquire_iteration self cancelled el ms state with
  | (state', SlotTaken) =>
      cs_quarantined state = false /\ cancelled = false /\ (el + from_millis 1 <= from_millis ms)%N /\
      (cs_active state < lc_limit self)%N /\
      state' = {| cs_active := cs_active state + 1; cs_quarantined := cs_quarantined state |}
  | (state', Refused e) => state' = state /\
      ((e = unavailable /\ cs_quarantined state = true) \/ (e = ExecCancelled /\ cancelled = true) \/
       (e = TimedOut ms /\ (from_millis ms < el + from_millis 1)%N))
  | (state', WaitTimeout ns) => state' = state /\ cs_quarantined state = false /\ cancelled = false /\
      (lc_limit self <= cs_active state)%N /\
      (from_millis 1 <= ns <= from_millis 10)%N /\ (el + ns <= from_millis ms)%N
  end.
Proof using Type.
  unfold acquire_iteration. pose proof (eq_refl : from_millis 1 = 1000000%N).
  pose proof (eq_refl : from_millis 10 = 10000000%N).
  destruct (cs_quarantined state) eqn:Eq; [by auto|]. destruct cancelled; [by auto|].
  destruct (N.ltb_spec (from_millis ms - el) (from_millis 1)); [split; [done|]; right; right; split; [done|lia]|].
  destruct (N.ltb_spec (cs_active state) (lc_limit self)); rewrite ?Eq; split_and!; try done; lia.
Qed.

Lemma millis_u64_bound ns ms : (ms <= u64_max)%N -> (ns <= from_millis ms)%N ->
  millis_u64 ns 0 = as_millis ns /\ (as_millis ns <= ms)%N.
Proof using Type.
  unfold millis_u64, as_millis, from_millis. intros Hms Hns.
  assert (ns / 1000000 <= ms)%N by (apply N.Div0.div_le_upper_bound; lia).
  rewrite (proj2 (N.leb_le _ _)) by lia. done.
Qed.

Lemma as_millis_zero ns : as_millis ns = 0%N <-> (ns < from_millis 1)%N.
Proof using Type. unfold as_millis, from_millis. rewrite N.div_small_iff by lia. lia. Qed.

Lemma admitted_request_spec request cancelled elapsed :
  (rq_timeout_ms request <= u64_max)%N ->
  match admitted_request request cancelled elapsed with
  | Ok b => bounded_by request b
  | Err e => (e = ExecCancelled /\ cancelled = true) \/
             (e = TimedOut (rq_timeout_ms request) /\
              (from_millis (rq_timeout_ms request) < elapsed + from_millis 1)%N)
  end.
Proof using Type.
  intros Hms. unfold admitted_request. destruct cancelled; cbn; [by left|].
  destruct (millis_u64_bound (from_millis (rq_timeout_ms request) - elapsed)
              (rq_timeout_ms request)) as [-> Hle]; [done|lia|].
  destruct (N.eqb_spec (as_millis (from_millis (rq_timeout_ms request) - elapsed)) 0) as [Hz|Hz]; cbn.
  - right. split; [done|]. apply as_millis_zero in Hz. unfold from_millis in *. lia.
  - eexists. split; [done|lia].
Qed.

(** ** Steps keep the invariant *)
Definition later (σ σ' : CapacitySystem) : Prop :=
  (cy_now σ <= cy_now σ')%N /\
  (cs_quarantined (cy_state σ) = true -> cs_quarantined (cy_state σ') = true).

Lemma never_dispatched_later c now now' e :
  (now <= now')%N -> never_dispatched c now e -> never_dispatched c now' e.
Proof using Type. unfold never_dispatched, elapsed. intros Hn [?|[-> ?]]; [by left|right]. split; [done|lia]. Qed.

Lemma call_ok_later σ σ' c : later σ σ' -> call_ok σ c -> call_ok σ' c.
Proof using Type.
  intros [Hn Hq] (Ht & Hb & Hp). split_and!; [done|done|]. unfold phase_ok in *.
  repeat case_match; naive_solver eauto using never_dispatched_later.
Qed.

(** The calls of a system after one of them changed. *)
Lemma calls_ok_insert σ st now i c' :
  later σ (mkCapacitySystem st now (<[i := c']> (cy_calls σ))) ->
  map_Forall (fun _ c => call_ok σ c) (cy_calls σ) ->
  call_ok (mkCapacitySystem st now (<[i := c']> (cy_calls σ))) c' ->
  map_Forall (fun _ c => call_ok (mkCapacitySystem st now (<[i := c']> (cy_calls σ))) c)
    (<[i := c']> (cy_calls σ)).
Proof using Type.
  intros Hl Hall Hc j c. rewrite lookup_insert_Some. intros [[_ <-]|[_ Hj]]; [done|].
  eapply call_ok_later; [exact Hl|]. by eapply Hall.
Qed.

(** The moved call is as described, once its step is over. *)
Lemma call_step_ok σ i c answer state' next :
  cy_calls σ !! i = Some c -> call_ok σ c ->
  (cs_quarantined (cy_state σ) = true -> cs_quarantined state' = true) ->
  call_step self (cy_now σ) answer (cy_state σ) c = (state', Ok next) ->
  call_ok (mkCapacitySystem state' (cy_now σ) (<[i := Call_move c next]> (cy_calls σ))) (Call_move c next).
Proof using Type.
  intros Hi (Ht & Hb & Hp) Hq Hs. unfold call_ok, phase_ok in *. unfold call_step in Hs.
  pose proof (admitted_request_spec (cl_request c) (cl_cancelled c) (elapsed (cy_now σ) c) Ht) as Hadm.
  destruct (cl_phase c) as [| |b|completed r| |r|] eqn:Ep; cbn.
  - pose proof (acquire_iteration_spec (cl_cancelled c) (elapsed (cy_now σ) c)
      (rq_timeout_ms (cl_request c)) (cy_state σ)) as Hacq.
    destruct (acquire_iteration _ _ _ _ _) as [st' [|e|ns]]; simplify_eq; cbn; [by rewrite Hp| |by rewrite Hp].
    rewrite Hp. split_and!; [done|done|]. exists e. split; [done|].
    destruct Hacq as [-> [Hu|[Hc|Hd]]]; [by right|by left; left|by left; right].
  - destruct (admitted_request _ _ _) as [b|e]; simplify_eq; cbn.
    + split_and!; [done|by intros ? [= <-]|done].
    + rewrite Hp. split_and!; [done|done|done|]. by exists e.
  - destruct answer as [r|]; [|simplify_eq; cbn; rewrite Hp in *; by split_and!].
    unfold backend_answer in Hs. simplify_eq; cbn. rewrite Hp in *. split_and!; [done|done|].
    by destruct r.
  - unfold Slot_drop in Hs. destruct completed.
    + destruct (cs_active (cy_state σ)) eqn:Ea; unfold fmap, result_fmap in Hs; simplify_eq; cbn in *.
      destruct (cl_dispatched c) eqn:Ed; split_and!; try done; naive_solver.
    + unfold fmap, result_fmap in Hs. simplify_eq. cbn in *. destruct (cl_dispatched c); split_and!; naive_solver.
  - unfold Slot_drop, fmap, result_fmap in Hs. simplify_eq. cbn. by split_and!.
  - simplify_eq. cbn. split_and!; [done|done|]. repeat case_match; naive_solver.
  - simplify_eq. cbn. split_and!; naive_solver.
Qed.

Lemma capacity_inv_start now : capacity_inv (capacity_start now).
Proof using Type.
  assert (Hz : slots_out (capacity_start now) = 0%N).
  { unfold slots_out, holders. cbn. by rewrite map_filter_empty, map_size_empty. }
  constructor; rewrite ?Hz; [split; apply N.le_0_l|done|done|apply map_Forall_empty].
Qed.

Lemma capacity_step_inv σ σ' : capacity_step σ σ' -> capacity_inv σ -> capacity_inv σ'.
Proof using Type.
  intros Hstep [Hout Hexact Hlost Hcalls].
  destruct Hstep as [i request cancelled σ Hms Hi|t σ Ht|i c σ Hi|i c answer next state' σ Hi Hs].
  - constructor; cbn; rewrite ?slots_out_enter by done; [done..|].
    apply calls_ok_insert; [by split; [apply N.le_refl|]|done|]. by split_and!.
  - constructor; cbn; [done..|]. intros i c Hc. eapply call_ok_later; [|by eapply Hcalls]. by split.
  - pose proof (slots_out_move σ (cy_state σ) (cy_now σ) i c
      (mkCall (cl_request c) (cl_started c) true (cl_dispatched c) (cl_phase c)) Hi) as Hm.
    cbn [cl_phase] in Hm. constructor; cbn; [lia|intros; rewrite Hexact by done; lia|..].
    + intros Hq. specialize (Hlost Hq). lia.
    + apply calls_ok_insert; [by split; [apply N.le_refl|]|done|]. destruct (Hcalls i c Hi) as (Hms & Hb & Hp).
      split_and!; [done|done|]. unfold phase_ok, never_dispatched in *. cbn in *.
      repeat case_match; naive_solver.
  - pose proof (slots_out_move σ state' (cy_now σ) i c (Call_move c next) Hi) as Hm. cbn [Call_move cl_phase] in Hm.
    pose proof (call_step_slots _ _ _ _ _ _ Hs) as Hd.
    assert (Hq : cs_quarantined (cy_state σ) = true -> cs_quarantined state' = true)
      by (destruct Hd as [(_ & -> & _)|(_ & _ & _ & ->)]; done).
    constructor; cbn.
    + destruct Hd as [(? & _ & ?)|(Eb & Eb' & -> & _)]; [lia|]. rewrite Eb, Eb' in Hm. cbn in Hm. lia.
    + intros Hq'. destruct Hd as [(? & Heq & ?)|(_ & _ & _ & ?)]; [|congruence].
      rewrite Heq in Hq'. specialize (Hexact Hq'). lia.
    + intros Hq'. destruct Hd as [(? & Heq & ?)|(Eb & Eb' & -> & _)].
      * rewrite Heq in Hq'. specialize (Hlost Hq'). lia.
      * rewrite Eb, Eb' in Hm. cbn in Hm. lia.
    + apply calls_ok_insert; [by split; [apply N.le_refl|]|done|]. eapply call_step_ok; eauto.
Qed.

Lemma capacity_steps_inv σ σ' : rtc capacity_step σ σ' -> capacity_inv σ -> capacity_inv σ'.
Proof using Type. induction 1; eauto using capacity_step_inv. Qed.

Lemma capacity_inv_reachable now σ : rtc capacity_step (capacity_start now) σ -> capacity_inv σ.
Proof using Type. intros Hr. eapply capacity_steps_inv; [exact Hr|apply capacity_inv_start]. Qed.

(** A call that can take a step takes one: no subtraction underflows. *)
Lemma call_step_defined σ i c answer :
  capacity_inv σ -> cy_calls σ !! i = Some c ->
  exists state' next, call_step self (cy_now σ) answer (cy_state σ) c = (state', Ok next).
Proof using Type.
  intros [Hout _ _ _] Hi. unfold call_step, Slot_drop.
  destruct (cl_phase c) as [| |b|completed r| |r|] eqn:Ep; try by eauto.
  - by destruct (acquire_iteration _ _ _ _ _) as [? []]; eauto.
  - destruct (admitted_request _ _ _); eauto.
  - destruct answer; cbn; eauto.
  - destruct completed; [|by eauto].
    assert (size (holders (cy_calls σ)) <> 0) as Hne.
    { intros Hz%map_size_empty_iff. pose proof (holders_lookup _ _ _ Hi) as Hl. by rewrite Hz, Ep in Hl. }
    unfold slots_out in Hout. destruct (cs_active (cy_state σ)); [lia|eauto].
Qed.

(** ** After a quarantine

    What a call that had no slot when the quarantine began can still do. *)
Definition shut_out (c : Call) : Prop :=
  cl_dispatched c = None /\ (cl_phase c = Acquiring \/ cl_phase c = Returned (Err unavailable)).

Definition slotless (σ : CapacitySystem) (i : nat) : Prop :=
  forall c, cy_calls σ !! i = Some c -> shut_out c.

Lemma shut_out_step σ i :
  cs_quarantined (cy_state σ) = true -> slotless σ i ->
  forall σ', capacity_step σ σ' -> slotless σ' i.
Proof using Type.
  intros Hq Hs σ' Hstep c'.
  destruct Hstep as [j request cancelled σ Hms Hj|t σ Ht|j c σ Hj|j c answer next state' σ Hj Hc];
    cbn; try (by apply Hs); rewrite lookup_insert_Some; intros [[-> <-]|[_ Hi]]; try by apply Hs.
  - by split; [|left].
  - destruct (Hs c Hj). by split.
  - destruct (Hs c Hj) as [Hd Hp]. unfold call_step, acquire_iteration in Hc. rewrite Hq in Hc.
    unfold shut_out. destruct Hp as [Hp|Hp]; rewrite Hp in Hc; simplify_eq; cbn; auto.
Qed.

Lemma quarantine_step σ σ' :
  capacity_step σ σ' -> cs_quarantined (cy_state σ) = true ->
  cs_quarantined (cy_state σ') = true /\ (slots_out σ' <= slots_out σ)%N.
Proof using Type.
  intros Hstep Hq.
  destruct Hstep as [j request cancelled σ Hms Hj|t σ Ht|j c σ Hj|j c answer next state' σ Hj Hc]; cbn.
  - split; [done|]. by rewrite slots_out_enter.
  - done.
  - split; [done|]. pose proof (slots_out_move σ (cy_state σ) (cy_now σ) j c
      (mkCall (cl_request c) (cl_started c) true (cl_dispatched c) (cl_phase c)) Hj) as Hm. cbn in Hm. lia.
  - pose proof (slots_out_move σ state' (cy_now σ) j c (Call_move c next) Hj) as Hm. cbn [Call_move cl_phase] in Hm.
    split; [destruct (call_step_slots _ _ _ _ _ _ Hc) as [(_ & -> & _)|(_ & _ & _ & ->)]; done|].
    enough (slot_count (holds_slot next.2) <= slot_count (holds_slot (cl_phase c)))%N by lia.
    unfold call_step, acquire_iteration in Hc. rewrite Hq in Hc. clear Hm.
    destruct (cl_phase c); unfold Slot_drop, fmap, result_fmap in Hc;
      repeat case_match; simplify_eq; cbn [snd holds_slot slot_count]; lia.
Qed.
(** ** Executable runs *)
Definition enter (i : nat) (request : ExecutionRequest) (σ : CapacitySystem) : CapacitySystem :=
  if decide (cy_calls σ !! i = None /\ (rq_timeout_ms request <= u64_max)%N) then
    mkCapacitySystem (cy_state σ) (cy_now σ)
      (<[i := mkCall request (cy_now σ) false None Acquiring]> (cy_calls σ))
  else σ.

Definition advance (i : nat) (answer : option (result ExecutorFailure ExecutionOutcome))
    (σ : CapacitySystem) : CapacitySystem :=
  match cy_calls σ !! i with
  | None => σ
  | Some c =>
      match call_step self (cy_now σ) answer (cy_state σ) c with
      | (state', Ok next) => mkCapacitySystem state' (cy_now σ) (<[i := Call_move c next]> (cy_calls σ))
      | (_, Err _) => σ
      end
  end.

Lemma enter_reaches i request σ : rtc capacity_step σ (enter i request σ).
Proof using Type. unfold enter. case_decide as Hd; [|done]. apply rtc_once. constructor; tauto. Qed.

Lemma advance_reaches i answer σ : rtc capacity_step σ (advance i answer σ).
Proof using Type.
  unfold advance. destruct (cy_calls σ !! i) as [c|] eqn:Hi; [|done].
  destruct (call_step _ _ _ _ _) as [state' [next|e]] eqn:Hs; [|done].
  apply rtc_once. by apply step_call with answer.
Qed.
End capacity.

(** ** What the executor guarantees *)

(** (C30) The ceiling holds in every interleaving of callers: at most [limit]
    of them hold a slot, so at most [limit] are inside the backend.  A slot is
    counted exactly as long as its holder keeps it; the only slots counted
    beyond the holders are those lost to a quarantine, which lower the
    capacity for good.  Giving a slot back never underflows the counter, so
    the mutex is never poisoned. *)
Theorem capacity_bounded self now σ :
  rtc (capacity_step self) (capacity_start now) σ ->
  (slots_out σ <= cs_active (cy_state σ) <= lc_limit self)%N /\
  (if cs_quarantined (cy_state σ) then slots_out σ < cs_active (cy_state σ)
   else slots_out σ = cs_active (cy_state σ))%N /\
  (forall i c answer, cy_calls σ !! i = Some c ->
     exists state' next, call_step self (cy_now σ) answer (cy_state σ) c = (state', Ok next)).
Proof.
  intros Hinv%capacity_inv_reachable. pose proof Hinv as [Hout Hexact Hlost _].
  split; [exact Hout|]. split; [|intros i c answer; by apply call_step_defined].
  destruct (cs_quarantined _) eqn:E; [auto|]. by rewrite Hexact.
Qed.

(** A backend error or panic quarantines the executor for good: from then
    on no further caller gets a slot -- the slots out can only come back --
    and every call that was still queued, or arrives later, ends with the
    [unavailable] error without ever reaching the backend. *)
Theorem quarantine_isolates self now σ σ' i :
  rtc (capacity_step self) (capacity_start now) σ ->
  cs_quarantined (cy_state σ) = true ->
  (forall c, cy_calls σ !! i = Some c -> cl_phase c = Acquiring) ->
  rtc (capacity_step self) σ σ' ->
  cs_quarantined (cy_state σ') = true /\ (slots_out σ' <= slots_out σ)%N /\
  (forall c, cy_calls σ' !! i = Some c -> cl_dispatched c = None /\
     (cl_phase c = Acquiring \/ cl_phase c = Returned (Err unavailable))) /\
  (forall c answer state' next, cy_calls σ' !! i = Some c ->
     call_step self (cy_now σ') answer (cy_state σ') c = (state', Ok next) ->
     next.2 = Returned (Err unavailable)).
Proof.
  intros Hinv%capacity_inv_reachable Hq Hacq Hr.
  assert (Hs : slotless σ i).
  { intros c Hc. specialize (Hacq c Hc). destruct (ci_calls _ _ Hinv i c Hc) as (_ & _ & Hp).
    unfold phase_ok in Hp. rewrite Hacq in Hp. by split; [|left]. }
  clear Hinv Hacq.
  enough (cs_quarantined (cy_state σ') = true /\ (slots_out σ' <= slots_out σ)%N /\ slotless σ' i)
    as (Hq' & Hle & Hs').
  { split_and!; [done|done|by apply Hs'|]. intros c answer state' next Hc Hn.
    destruct (Hs' c Hc) as [_ [Hp|Hp]]; unfold call_step, acquire_iteration in Hn; rewrite Hp in Hn.
    - rewrite Hq' in Hn. by simplify_eq.
    - by simplify_eq. }
  induction Hr as [σ|σ σ1 σ' Hstep _ IH]; [done|].
  destruct (quarantine_step _ _ _ Hstep Hq) as [Hq1 Hle1].
  destruct IH as (? & ? & ?); [done|by apply (shut_out_step self σ)|]. split_and!; [done|lia|done].
Qed.

(** What a finished call returned.  One that never reached the backend
    failed because it was cancelled, because less than a millisecond of its
    own timeout was left, or because the executor is quarantined; one that
    did was given its own request with a timeout of at least a millisecond
    and at most what it asked for, and if it returned an error the executor
    is quarantined. *)
Theorem capacity_calls_exact self now σ i c r :
  rtc (capacity_step self) (capacity_start now) σ ->
  cy_calls σ !! i = Some c -> cl_phase c = Returned r ->
  match cl_dispatched c with
  | None =>
      (r = Err ExecCancelled /\ cl_cancelled c = true) \/
      (r = Err (TimedOut (rq_timeout_ms (cl_request c))) /\
       (from_millis (rq_timeout_ms (cl_request c)) < elapsed (cy_now σ) c + from_millis 1)%N) \/
      (r = Err unavailable /\ cs_quarantined (cy_state σ) = true)
  | Some bounded =>
      (exists ms, bounded = ExecutionRequest_set_timeout (cl_request c) ms /\
         (1 <= ms <= rq_timeout_ms (cl_request c))%N) /\
      (is_ok r = true \/ cs_quarantined (cy_state σ) = true)
  end.
Proof.
  intros Hinv%capacity_inv_reachable Hi Hp. destruct (ci_calls _ _ Hinv i c Hi) as (_ & Hb & Hphase).
  unfold phase_ok in Hphase. rewrite Hp in Hphase. destruct (cl_dispatched c) as [b|].
  - split; [by apply Hb|done].
  - destruct Hphase as (e & -> & [[[-> ?]|[-> ?]]|[-> ?]]); auto.
Qed.

(** ** Concrete runs: one slot, two callers *)
Definition one_slot : LocalCapacityExecutor := {|
  lc_limit := 1; lc_backend := "process-capacity/v1/slots/1" |}.

Example one_slot_new : LocalCapacityExecutor_new 1 = Ok one_slot.
Proof. reflexivity. Qed.

Definition sleep_request : ExecutionRequest := {|
  rq_program := "/bin/sleep"; rq_args := ["1"%string]; rq_working_dir := "/tmp"; rq_env := ∅;
  rq_timeout_ms := 5000; rq_max_capture_bytes_per_stream := 1024 |}.

Definition slept : ExecutionOutcome := {|
  eo_exit_code := Some 0%Z; eo_signal := None; eo_timed_out := false; eo_cancelled := false;
  eo_start_error := None; eo_duration_ms := 0; eo_stdout := []; eo_stdout_truncated := false;
  eo_stderr := []; eo_stderr_truncated := false |}.

(** Caller 0 is in the backend, caller 1 has found no slot. *)
Definition crowded : CapacitySystem :=
  advance one_slot 1 None (enter 1 sleep_request
    (advance one_slot 0 None (advance one_slot 0 None (enter 0 sleep_request (capacity_start 0))))).

(** Caller 0 has returned; or it has panicked. *)
Definition served : CapacitySystem :=
  advance one_slot 0 None (advance one_slot 0 (Some (Ok slept)) crowded).

Definition broken : CapacitySystem := advance one_slot 0 None (advance one_slot 0 None crowded).

Definition rejected : CapacitySystem := advance one_slot 1 None broken.

Lemma crowded_reachable : rtc (capacity_step one_slot) (capacity_start 0) crowded.
Proof.
  unfold crowded. repeat (etrans; [|first [apply advance_reaches|apply enter_reaches]]). done.
Qed.

Lemma capacity_bounded_witness :
  cs_active (cy_state crowded) = 1%N /\ (slots_out crowded <= 1)%N.
Proof.
  split; [by vm_compute|].
  destruct (capacity_bounded one_slot 0 crowded) as ([Hle1 Hle2] & _ & _); [apply crowded_reachable|].
  etrans; [exact Hle1|exact Hle2].
Defined.

Lemma quarantine_isolates_witness :
  cs_quarantined (cy_state broken) = true /\
  (forall c, cy_calls rejected !! 1 = Some c -> cl_dispatched c = None).
Proof.
  split; [by vm_compute|]. intros c Hc.
  destruct (quarantine_isolates one_slot 0 broken rejected 1) as (_ & _ & Hs & _).
  - etrans; [exact crowded_reachable|]. unfold broken. by etrans; apply advance_reaches.
  - by vm_compute.
  - intros c1. by vm_compute; intros [= <-].
  - apply advance_reaches.
  - by apply (Hs c Hc).
Defined.

Lemma capacity_calls_exact_witness :
  exists c r, cy_calls served !! 0 = Some c /\ cl_phase c = Returned r /\ is_ok r = true /\
    exists bounded, cl_dispatched c = Some bounded /\ (1 <= rq_timeout_ms bounded <= 5000)%N.
Proof.
  destruct (cy_calls served !! 0) as [c|] eqn:Hc; [|by vm_compute in Hc].
  destruct (cl_phase c) as [| | | | |r|] eqn:Hp; try by (vm_compute in Hc; injection Hc as <-).
  exists c, r. split; [done|]. split; [done|].
  split; [vm_compute in Hc; injection Hc as <-; injection Hp as <-; done|].
  assert (Hr : rtc (capacity_step one_slot) (capacity_start 0) served).
  { etrans; [exact crowded_reachable|]. unfold served. by etrans; apply advance_reaches. }
  pose proof (capacity_calls_exact one_slot 0 served 0 c r Hr Hc Hp) as Hx.
  destruct (cl_dispatched c) as [b|] eqn:Hd.
  - destruct Hx as [(ms & -> & Hms) _]. exists (ExecutionRequest_set_timeout (cl_request c) ms).
    split; [done|]. cbn. vm_compute in Hc. injection Hc as <-. exact Hms.
  - by vm_compute in Hc; injection Hc as <-.
Defined.
