(* ===== verification/Distributed.v ===== *)
(** * The Hub-worker wire contract ([hub-protocol/src/distributed.rs])

    The messages of the lease protocol, and the translation of paths rooted
    in the transported work directory: the Hub replaces its directory by a
    token ([encode_workdir_path] of [hub-executor/src/remote.rs]), the worker
    replaces the token by its own ([expand_workdir_path] of
    [hub-executor/src/worker.rs]). *)

From Stdlib Require Import Ascii.
From stdpp Require Import base gmap strings list.
From S2P Require Import Prelude Text Machine Exec.

Definition WORKER_PROTOCOL_VERSION : N := 1.
Definition PROCESS_EXECUTION_CAPABILITY : string := "process.execute.v1".
Definition WORKDIR_TOKEN : string := "{hub-workdir}".

Record WorkerDescriptor := {
  wd_protocol_version : N;
  wd_worker_id : string;
  wd_capabilities : list string;
  wd_max_payload_bytes : N;
  wd_heartbeat_interval_ms : N;
}.

Record RemoteFile := {
  rf_path : string;
  rf_bytes : list N;
}.

Record RemoteExecutionRequest := {
  rx_program : string;
  rx_args : list string;
  rx_env : gmap string string;
  rx_timeout_ms : N;
  rx_max_capture_bytes_per_stream : N;
  rx_directories : list string;
  rx_files : list RemoteFile;
}.

Record LeaseCreateRequest := {
  lcr_protocol_version : N;
  lcr_attempt_id : string;
  lcr_execution : RemoteExecutionRequest;
}.

Inductive LeaseState := LeaseQueued | LeaseRunning | LeaseCompleted | LeaseCancelled | LeaseFailed.

Definition LeaseState_is_terminal (s : LeaseState) : bool :=
  match s with LeaseCompleted | LeaseCancelled | LeaseFailed => true | LeaseQueued | LeaseRunning => false end.

Record LeaseCreateResponse := {
  lcp_lease_id : string;
  lcp_attempt_id : string;
  lcp_worker_id : string;
  lcp_state : LeaseState;
  lcp_expires_at_ms : N;
}.

Record RemoteExecutionResult := {
  rer_outcome : ExecutionOutcome;
  rer_files : list RemoteFile;
}.

Record LeaseStatusResponse := {
  lsr_lease_id : string;
  lsr_attempt_id : string;
  lsr_worker_id : string;
  lsr_state : LeaseState;
  lsr_last_heartbeat_ms : N;
  lsr_expires_at_ms : N;
  lsr_result : option RemoteExecutionResult;
  lsr_error : option string;
}.

#[global] Instance LeaseState_eq_dec : EqDecision LeaseState.
Proof. solve_decision. Defined.
#[global] Instance RemoteFile_eq_dec : EqDecision RemoteFile.
Proof. solve_decision. Defined.
#[global] Instance RemoteExecutionRequest_eq_dec : EqDecision RemoteExecutionRequest.
Proof. solve_decision. Defined.
#[global] Instance ExecutionOutcome_eq_dec : EqDecision ExecutionOutcome.
Proof. solve_decision. Defined.
#[global] Instance RemoteExecutionResult_eq_dec : EqDecision RemoteExecutionResult.
Proof. solve_decision. Defined.

(** ** Relative paths

    [checked_relative_path], the same in both files but for the texts. *)
Definition checked_relative_path (raw : string) : result string string :=
  if bool_decide (raw = ""%string) || is_absolute raw
  then Err "invalid workdir-relative path {raw:?}"%string
  else _ ← forM_ (fun component => ensure (match component with Normal _ => true | _ => false end)
                                     "unsafe workdir-relative path {raw:?}"%string) (path_components raw);
       Ok raw.

(** ** Work directory paths

    [Path::strip_prefix] on Unix paths, as text: the pieces of the value after
    those of the prefix (which is not empty), without the separators and [.]
    pieces around them. *)
Definition trivial_piece (w : string) : bool :=
  bool_decide (w = ""%string) || bool_decide (w = "."%string).

Fixpoint pieces_after (pieces root : list string) : option (list string) :=
  match root with
  | [] => Some pieces
  | r :: root' =>
      match pieces with
      | [] => None
      | w :: pieces' =>
          if trivial_piece w then pieces_after pieces' root
          else if decide (w = r) then pieces_after pieces' root' else None
      end
  end.

Fixpoint trim_pieces (pieces : list string) : list string :=
  match pieces with
  | [] => []
  | w :: pieces' => if trivial_piece w then trim_pieces pieces' else pieces
  end.

Definition solid_pieces (p : string) : list string :=
  List.filter (fun w => negb (trivial_piece w)) (split_byte slash p).

Definition leading_dot (p : string) : bool :=
  match split_byte slash p with w :: _ => bool_decide (w = "."%string) | [] => false end.

Definition path_strip_prefix (value root : string) : option string :=
  if Bool.eqb (is_absolute value) (is_absolute root) && Bool.eqb (leading_dot value) (leading_dot root) then
    pieces ← pieces_after (split_byte slash value) (solid_pieces root);
    Some (String.concat "/" (reverse (trim_pieces (reverse (trim_pieces pieces)))))
  else None.

(** [candidate.starts_with(root)] holds exactly when [strip_prefix]
    succeeds. *)
Definition encode_workdir_path (value root : string) : string :=
  if is_absolute value then
    match path_strip_prefix value root with
    | Some relative =>
        if decide (relative = ""%string) then WORKDIR_TOKEN
        else String.append WORKDIR_TOKEN (String slash relative)
    | None => value
    end
  else value.

Definition expand_workdir_path (value root : string) : string :=
  if decide (value = WORKDIR_TOKEN) then root
  else match strip_prefix (String.append WORKDIR_TOKEN "/") value with
       | Some relative => path_join root relative
       | None => value
       end.

(** ** What the translation does *)
Definition solid (pieces : list string) : list string := List.filter (fun w => negb (trivial_piece w)) pieces.

Lemma solid_cons w l : solid (w :: l) = if trivial_piece w then solid l else w :: solid l.
Proof. unfold solid. cbn. by destruct (trivial_piece w). Qed.

Lemma solid_app l1 l2 : solid (l1 ++ l2) = solid l1 ++ solid l2.
Proof. apply List.filter_app. Qed.

Lemma solid_reverse l : solid (reverse l) = reverse (solid l).
Proof.
  induction l as [|w l IH]; [done|]. rewrite reverse_cons, solid_app, IH, !solid_cons.
  destruct (trivial_piece w); [by rewrite app_nil_r|by rewrite reverse_cons].
Qed.

Lemma solid_trim l : solid (trim_pieces l) = solid l.
Proof. induction l as [|w l IH]; [done|]. cbn [trim_pieces]. rewrite solid_cons.
  destruct (trivial_piece w) eqn:E; [done|]. by rewrite solid_cons, E. Qed.

Lemma trim_pieces_head l w l' : trim_pieces l = w :: l' -> trivial_piece w = false.
Proof.
  induction l as [|v l IH]; [done|]. cbn. destruct (trivial_piece v) eqn:E; [done|]. by intros [= <- _].
Qed.

Lemma elem_of_trim w l : w ∈ trim_pieces l -> w ∈ l.
Proof.
  induction l as [|v l IH]; [done|]. cbn. destruct (trivial_piece v); [|done].
  intros Hw. right. auto.
Qed.

Lemma pieces_after_Some pieces root rest :
  Forall (fun r => trivial_piece r = false) root ->
  pieces_after pieces root = Some rest -> solid pieces = root ++ solid rest /\ forall w, w ∈ rest -> w ∈ pieces.
Proof.
  revert root; induction pieces as [|w pieces IH]; intros root Hroot.
  - destruct root; [|done]. by intros [= <-].
  - destruct root as [|r root]; [by intros [= <-]|]. cbn [pieces_after]. rewrite solid_cons.
    destruct (trivial_piece w) eqn:Ew.
    + intros Hp. destruct (IH _ Hroot Hp) as [-> Hin]. split; [done|]. intros v Hv. right. auto.
    + case_decide; [|done]. subst. apply Forall_cons in Hroot as [_ Hroot]. intros Hp.
      destruct (IH _ Hroot Hp) as [-> Hin]. split; [done|]. intros v Hv. right. auto.
Qed.

Lemma pieces_after_None pieces root :
  Forall (fun r => trivial_piece r = false) root ->
  pieces_after pieces root = None -> ~ exists rest, solid pieces = root ++ rest.
Proof.
  revert root; induction pieces as [|w pieces IH]; intros root Hroot.
  - destruct root as [|r root]; [done|]. intros _ [rest Hr]. discriminate Hr.
  - destruct root as [|r root]; [done|]. cbn [pieces_after]. rewrite solid_cons.
    destruct (trivial_piece w) eqn:Ew; [by apply IH|].
    case_decide as Hw; [|by intros _ [rest Hx]; cbn in Hx; congruence]. subst. apply Forall_cons in Hroot as [_ Hroot].
    intros Hp [rest [= Heq]]. apply (IH root Hroot Hp). eauto.
Qed.

Lemma solid_pieces_solid p : Forall (fun r => trivial_piece r = false) (solid_pieces p).
Proof.
  apply List.Forall_forall. intros w [_ Hw]%List.filter_In. by apply negb_true_iff.
Qed.

Lemma split_byte_app_sep a p q :
  split_byte a (String.append p (String a q)) = split_byte a p ++ split_byte a q.
Proof.
  induction p as [|b p IH].
  - change (String.append "" (String a q)) with (String a q). cbn. by rewrite decide_True.
  - rewrite append_cons. cbn [split_byte]. case_decide; [by rewrite IH|]. rewrite IH.
    by destruct (split_byte_nonempty a p) as (w & ws & ->).
Qed.

Lemma split_concat ws :
  ws <> [] -> Forall (fun w => contains_byte slash w = false) ws ->
  split_byte slash (String.concat "/" ws) = ws.
Proof.
  intros Hne Hall. induction ws as [|w ws IH]; [done|]. apply Forall_cons in Hall as [Hw Hall].
  destruct ws as [|v ws]; [by apply split_byte_none|].
  change (String.concat "/" (w :: v :: ws))
    with (String.append w (String slash (String.concat "/" (v :: ws)))).
  rewrite split_byte_sep by done. by rewrite IH.
Qed.

Lemma split_pieces_no_sep a s : Forall (fun w => contains_byte a w = false) (split_byte a s).
Proof.
  induction s as [|b s IH]; cbn; [by repeat constructor|].
  case_decide as Hb; [by constructor|].
  destruct (split_byte_nonempty a s) as (w & ws & E). rewrite E in *.
  apply Forall_cons in IH as [Hw IH]. constructor; [|done]. cbn. rewrite Hw.
  by rewrite bool_decide_eq_false_2.
Qed.

Lemma solid_pieces_join p q : is_absolute q = false -> p <> ""%string ->
  solid_pieces (path_join p q) = solid_pieces p ++ solid_pieces q.
Proof.
  intros Hq Hp. unfold path_join. rewrite Hq, bool_decide_eq_false_2 by done.
  unfold ends_with_slash. destruct (strip_suffix_byte slash p) as [r|] eqn:E.
  - apply strip_suffix_byte_Some in E. subst. rewrite append_assoc.
    change (String.append (String slash "") q) with (String slash q).
    unfold solid_pieces. rewrite !split_byte_app_sep, !List.filter_app.
    change (split_byte slash "") with [""%string]. cbn [List.filter trivial_piece].
    by rewrite !app_nil_r.
  - unfold solid_pieces. by rewrite split_byte_app_sep, List.filter_app.
Qed.

(** The relative text that [strip_prefix] leaves. *)
Lemma path_strip_prefix_Some value root relative :
  path_strip_prefix value root = Some relative ->
  is_absolute relative = false /\
  solid_pieces value = solid_pieces root ++ solid_pieces relative.
Proof.
  unfold path_strip_prefix. destruct (_ && _); [|done].
  intros (rest & Hr & [= <-])%bind_Some.
  destruct (pieces_after_Some _ _ _ (solid_pieces_solid root) Hr) as [Hs Hin].
  set (mid := reverse (trim_pieces (reverse (trim_pieces rest)))).
  assert (Hmid : solid mid = solid rest)
    by (unfold mid; rewrite solid_reverse, solid_trim, solid_reverse, reverse_involutive; apply solid_trim).
  unfold solid_pieces at 1. fold (solid (split_byte slash value)). rewrite Hs, <- Hmid.
  assert (Hno : Forall (fun w => contains_byte slash w = false) mid).
  { apply Forall_forall. intros w Hw. unfold mid in Hw. rewrite elem_of_reverse in Hw.
    apply elem_of_trim in Hw. rewrite elem_of_reverse in Hw. apply elem_of_trim, Hin in Hw.
    pose proof (split_pieces_no_sep slash value) as Hall. rewrite Forall_forall in Hall. by apply Hall. }
  destruct (decide (mid = [])) as [->|Hne]; [done|].
  split; [|by unfold solid_pieces; rewrite split_concat].
  destruct mid as [|w mid'] eqn:Em; [done|]. apply Forall_cons in Hno as [Hw _].
  assert (Hnt : w <> ""%string).
  { assert (exists l, trim_pieces rest = w :: l) as [l Hl].
    { revert Em. unfold mid. destruct (trim_pieces rest) as [|v l] eqn:Et; [done|].
      intros Em. exists l. f_equal. pose proof (trim_pieces_head _ _ _ Et) as Hv.
      clear -Em Hv. revert Em. rewrite reverse_cons.
      assert (Hk : forall k, exists k', trim_pieces (k ++ [v]) = k' ++ [v]).
      { induction k as [|x k [k' IH]]; cbn; [rewrite Hv; by exists []|].
        destruct (trivial_piece x); [by exists k'|]. by exists (x :: k). }
      destruct (Hk (reverse l)) as [k' ->]. rewrite reverse_snoc. by intros [= ->]. }
    apply trim_pieces_head in Hl. unfold trivial_piece in Hl. by bool_inv. }
  destruct w as [|c w]; [done|]. cbn in Hw. apply orb_false_iff in Hw as [Hc _]. bool_inv.
  destruct mid' as [|v mid']; [by apply not_absolute_cons|].
  change (String.concat "/" (String c w :: v :: mid'))
    with (String c (String.append w (String.append "/" (String.concat "/" (v :: mid'))))).
  by apply not_absolute_cons.
Qed.

Lemma absolute_no_dot p : is_absolute p = true -> leading_dot p = false.
Proof.
  unfold is_absolute, starts_with. destruct (strip_prefix "/" p) as [r|] eqn:E; [|done].
  apply strip_prefix_Some in E. by subst.
Qed.

Lemma path_strip_prefix_None value root :
  is_absolute root = true -> path_strip_prefix value root = None ->
  ~ (is_absolute value = true /\ exists rest, solid_pieces value = solid_pieces root ++ rest).
Proof.
  unfold path_strip_prefix. intros Hroot Hn [Hv Hr].
  rewrite Hroot, Hv, !absolute_no_dot in Hn by done. cbn in Hn.
  apply bind_None in Hn as [Hn|(? & _ & ?)]; [|done].
  by apply (pieces_after_None _ _ (solid_pieces_solid root) Hn).
Qed.

Lemma expand_token_path relative root : relative <> ""%string ->
  expand_workdir_path (String.append WORKDIR_TOKEN (String slash relative)) root = path_join root relative.
Proof.
  intros Hr. unfold expand_workdir_path. rewrite decide_False.
  - change (String.append WORKDIR_TOKEN (String slash relative))
      with (String.append (String.append WORKDIR_TOKEN "/") relative).
    by rewrite (proj2 (strip_prefix_Some _ _ _) eq_refl).
  - intros Heq. apply (f_equal slen) in Heq. rewrite slen_append in Heq. unfold slen in Heq. cbn in Heq. lia.
Qed.

Lemma expand_other value root :
  value <> WORKDIR_TOKEN -> starts_with (String.append WORKDIR_TOKEN "/") value = false ->
  expand_workdir_path value root = value.
Proof.
  intros Hne Hst. unfold expand_workdir_path. rewrite decide_False by done.
  unfold starts_with in Hst. by destruct (strip_prefix _ value).
Qed.

(** A path below the Hub's work directory reaches the worker as the same
    path below the worker's: whatever separators and [.] pieces it has, the
    components after the directory are kept, and they alone.  Any other value
    arrives as it was, unless it uses the reserved token itself. *)
Theorem workdir_path_translates value hub worker :
  is_absolute hub = true -> is_absolute worker = true ->
  let value' := expand_workdir_path (encode_workdir_path value hub) worker in
  (forall rest, is_absolute value = true -> solid_pieces value = solid_pieces hub ++ rest ->
     solid_pieces value' = solid_pieces worker ++ rest) /\
  (~ (is_absolute value = true /\ exists rest, solid_pieces value = solid_pieces hub ++ rest) ->
     value <> WORKDIR_TOKEN -> starts_with (String.append WORKDIR_TOKEN "/") value = false ->
     value' = value).
Proof.
  intros Hh Hw. cbv zeta. unfold encode_workdir_path.
  destruct (is_absolute value) eqn:Hv; [destruct (path_strip_prefix value hub) as [relative|] eqn:E|].
  - destruct (path_strip_prefix_Some _ _ _ E) as (Hrel & Hs). split; [|by intros []; eauto].
    intros rest _ Hrest. rewrite Hs in Hrest. apply app_inv_head in Hrest as <-.
    case_decide as Hempty; [subst|].
    + unfold expand_workdir_path. rewrite decide_True by done. cbn. by rewrite app_nil_r.
    + rewrite expand_token_path by done. apply solid_pieces_join; [done|]. by intros ->.
  - pose proof (path_strip_prefix_None _ _ Hh E) as Hno. split; [intros; exfalso; eauto|].
    intros _. apply expand_other.
  - split; [done|]. intros _. apply expand_other.
Qed.

Lemma workdir_path_translates_witness :
  solid_pieces (expand_workdir_path (encode_workdir_path "/hub/run-7//inputs/./a.csv" "/hub/run-7") "/w/lease-1/")
    = ["w"; "lease-1"; "inputs"; "a.csv"]%string /\
  expand_workdir_path (encode_workdir_path "--seed=4" "/hub/run-7") "/w/lease-1" = "--seed=4"%string.
Proof.
  split.
  - rewrite (proj1 (workdir_path_translates "/hub/run-7//inputs/./a.csv" "/hub/run-7" "/w/lease-1/"
                      eq_refl eq_refl) ["inputs"; "a.csv"]%string eq_refl eq_refl). reflexivity.
  - apply (proj2 (workdir_path_translates "--seed=4" "/hub/run-7" "/w/lease-1" eq_refl eq_refl));
      [by intros [? _]|done|reflexivity].
Defined.
