(* ===== verification/Transport.v ===== *)
(** * Moving a work directory ([hub-executor/src/remote.rs], [worker.rs])

    Both ends of the lease protocol read a directory tree into relative files
    and write relative files into a directory.  The collectors are the same on
    both sides but for their texts; the Hub also collects the directories. *)

From Stdlib Require Import Ascii.
From stdpp Require Import base gmap strings list.
From S2P Require Import Prelude Text Core Digest Machine Blobs Exec Distributed.

(** The order of [PathBuf]s: component by component. *)
Definition component_key (c : PathComponent) : N * string :=
  match c with
  | RootDir => (1%N, "")
  | CurDir => (2%N, "")
  | ParentDir => (3%N, "")
  | Normal name => (4%N, name)
  end.

Fixpoint components_leb (a b : list PathComponent) : bool :=
  match a, b with
  | [], _ => true
  | _ :: _, [] => false
  | x :: a, y :: b =>
      if decide (x = y) then components_leb a b
      else bool_decide (ord_le (component_key x) (component_key y))
  end.

Definition path_leb (p q : string) : bool := components_leb (path_components p) (path_components q).

(** The file system sees a path without its empty and [.] pieces; one that
    ends with such a piece names a directory. *)
Definition path_normal (p : string) : string :=
  let text := String.concat "/" (solid_pieces p) in
  if is_absolute p then String slash text else text.

Definition names_directory (p : string) : bool :=
  match last (split_byte slash p) with Some w => trivial_piece w | None => true end.

(** The order in which a directory is listed is the file system's. *)
Class DirectoryOrder := { env_order : N -> list (string * FileNode) -> list (string * FileNode) }.

Class DirectoryOrderLaws `{DirectoryOrder} : Prop := {
  env_order_perm : forall t l, env_order t l ≡ₚ l;
}.

Section transport.
Context `{Environment, DirectoryOrder}.

(** ** The calls of [std::fs] *)

(** The name of [k] in the directory [dir]. *)
Definition child_name (dir k : string) : option string :=
  name ← strip_prefix (if ends_with_slash dir then dir else String.append dir "/") k;
  if bool_decide (name = ""%string) || contains_byte slash name then None else Some name.

Definition dir_entries (nodes : gmap string FileNode) (dir : string) : list (string * FileNode) :=
  omap (fun kv => (fun name => (name, kv.2)) <$> child_name dir kv.1) (map_to_list nodes).

(** [fs::read_dir(p)]. *)
Definition fs_read_dir (p : string) : action Machine IoError (list (string * FileNode)) :=
  syscall (fun _ m => m) (fun m =>
    match follow 40 (mc_nodes m) p with
    | Some q =>
        if decide (mc_nodes m !! q = Some FDirectory)
        then (m, Ok (env_order (mc_tick m) (dir_entries (mc_nodes m) q)))
        else (m, Err (if decide (mc_nodes m !! q = None) then IoNotFound else IoOther))
    | None => (m, Err IoOther)
    end).

(** [entry?] and [entry.file_type()?], which does not follow links. *)
Definition fs_dir_entry (e : string * FileNode) : action Machine IoError (string * FileNode) :=
  syscall (fun _ m => m) (fun m => (m, Ok e)).

Definition fs_file_type (e : string * FileNode) : action Machine IoError FileNode :=
  syscall (fun _ m => m) (fun m => (m, Ok e.2)).

(** [fs::create_dir_all] and [fs::write] on a joined path. *)
Definition fs_create_dirs (p : string) : action Machine IoError unit := create_dir_all (path_normal p).

Definition fs_write_at (p : string) (bs : list N) : action Machine IoError unit :=
  if names_directory p then syscall (fun _ m => m) (fun m => (m, Err IoOther))
  else fs_write (path_normal p) bs.

Abbreviation io_text := (rethrow (fun _ : IoError => "{io error}"%string)).

(** ** Collecting

    The recursion of [collect_paths] and [collect_directory_paths] descends
    into directories, never through links: a path longer than every other is
    a leaf, which bounds the depth. *)
Definition deeper (nodes : gmap string FileNode) (p : string) : nat :=
  size (filter (fun kv : string * FileNode => (slen p < slen kv.1)%N) nodes).

Fixpoint collect_paths (fuel : nat) (current : string) : action Machine string (list string) :=
  match fuel with
  | O => throw "directory tree deeper than its nodes"%string
  | S fuel =>
      entries ← io_text (fs_read_dir current);
      found ← mapA (fun e =>
        entry ← io_text (fs_dir_entry e);
        file_type ← io_text (fs_file_type entry);
        match file_type with
        | FSymlink _ => throw "remote transport refuses symlink {:?}"%string
        | FDirectory => collect_paths fuel (path_join current entry.1)
        | FRegular _ => mret [path_join current entry.1]
        end) entries;
      mret (concat found)
  end.

Fixpoint collect_directory_paths (fuel : nat) (root current : string)
    : action Machine string (list string) :=
  match fuel with
  | O => throw "directory tree deeper than its nodes"%string
  | S fuel =>
      entries ← io_text (fs_read_dir current);
      found ← mapA (fun e =>
        entry ← io_text (fs_dir_entry e);
        file_type ← io_text (fs_file_type entry);
        match file_type with
        | FSymlink _ => throw "remote transport refuses symlink {:?}"%string
        | FDirectory =>
            let path := path_join current entry.1 in
            relative ← lift (ok_or (path_strip_prefix path root) "transport directory escaped workdir"%string);
            below ← collect_directory_paths fuel root path;
            mret (relative :: below)
        | FRegular _ => mret []
        end) entries;
      mret (concat found)
  end.

Definition tree_fuel (root : string) : Machine -> nat := fun m => S (deeper (mc_nodes m) root).

Definition with_fuel {A} (root : string) (f : nat -> action Machine string A) : action Machine string A :=
  fun m => f (tree_fuel root m) m.

Definition collect_directories (root : string) : action Machine string (list string) :=
  directories ← with_fuel root (fun fuel => collect_directory_paths fuel root root);
  mret (sort_by (fun a b => bool_decide (ord_le a b)) directories).

(** The loop over the sorted paths: the running total is checked and capped. *)
Fixpoint read_files (root : string) (limit total : N) (paths : list string)
    : action Machine string (list RemoteFile) :=
  match paths with
  | [] => mret []
  | path :: paths =>
      bytes ← io_text (fs_read path);
      total ← lift (ok_or (checked_add_u64 total (len bytes)) "remote request payload size overflow"%string);
      _ ← lift (ensure (negb (limit <? total)%N) "remote request files exceed {limit} byte transport limit"%string);
      relative ← lift (ok_or (path_strip_prefix path root) "transport path escaped workdir"%string);
      files ← read_files root limit total paths;
      mret ({| rf_path := relative; rf_bytes := bytes |} :: files)
  end.

Definition collect_files (root : string) (limit : N) : action Machine string (list RemoteFile) :=
  paths ← with_fuel root (fun fuel => collect_paths fuel root);
  read_files root limit 0 (sort_by path_leb paths).

(** ** Materializing

    One file below [root]; the total is checked before anything is written. *)
Fixpoint write_files (root : string) (limit total : N) (files : list RemoteFile)
    : action Machine string unit :=
  match files with
  | [] => mret tt
  | file :: files =>
      total ← lift (ok_or (checked_add_u64 total (len (rf_bytes file))) "remote payload size overflow"%string);
      _ ← lift (ensure (negb (limit <? total)%N) "remote payload exceeds {limit} byte limit"%string);
      relative ← lift (checked_relative_path (rf_path file));
      let destination := path_join root relative in
      _ ← io_text (create_dir_all (path_parent (path_normal destination)));
      _ ← io_text (fs_write_at destination (rf_bytes file));
      write_files root limit total files
  end.

(** [RemoteExecutor::materialize_result_files]. *)
Definition materialize_result_files (max_payload_bytes : N) (root : string) (files : list RemoteFile)
    : action Machine string unit := write_files root max_payload_bytes 0 files.

(** [prepare_workdir] of the worker. *)
Definition prepare_workdir (root : string) (directories : list string) (files : list RemoteFile) (limit : N)
    : action Machine string unit :=
  exists_ ← path_exists root;
  _ ← (if exists_ : bool then io_text (fs_remove_dir_all root) else mret tt);
  _ ← io_text (fs_create_dirs root);
  _ ← forA_ (fun directory =>
        relative ← lift (checked_relative_path directory);
        io_text (fs_create_dirs (path_join root relative))) directories;
  write_files root limit 0 files.
End transport.

(** ** Paths below a root *)
Lemma concat_app l1 l2 : l1 <> [] -> l2 <> [] ->
  String.concat "/" (l1 ++ l2) = String.append (String.concat "/" l1) (String slash (String.concat "/" l2)).
Proof.
  intros H1 H2. induction l1 as [|w l1 IH]; [done|]. destruct l1 as [|v l1].
  - destruct l2 as [|u l2]; [done|]. done.
  - change ((w :: v :: l1) ++ l2) with (w :: (v :: l1) ++ l2).
    assert (Hc : forall l, l <> [] -> String.concat "/" (w :: l) = String.append w (String slash (String.concat "/" l)))
      by (by intros [|? ?]).
    rewrite !Hc by (by destruct l2). rewrite IH by done. by rewrite append_assoc, append_cons.
Qed.

Lemma in_tree_below root x : in_tree root (String.append root (String slash x)).
Proof.
  right. unfold starts_with.
  assert (strip_prefix (String.append root "/") (String.append root (String slash x)) = Some x) as ->; [|done].
  apply strip_prefix_Some. by rewrite append_assoc.
Qed.

Lemma in_tree_cases root p : in_tree root p -> p = root \/ exists x, p = String.append root (String slash x).
Proof.
  intros [->|Hs]; [by left|right]. unfold starts_with in Hs.
  destruct (strip_prefix (String.append root "/") p) as [x|] eqn:E; [|done].
  apply strip_prefix_Some in E. exists x. by rewrite E, append_assoc.
Qed.

Lemma path_prefix_below root x n :
  path_prefix n (String.append root (String slash x)) =
    if decide (n <= length (split_byte slash root)) then path_prefix n root
    else String.append root (String slash (path_prefix (n - length (split_byte slash root)) x)).
Proof.
  unfold path_prefix. rewrite split_byte_app_sep. case_decide as Hn.
  - by rewrite take_app_le.
  - rewrite take_app_ge by lia. destruct (split_byte_nonempty slash root) as (w & ws & Er).
    destruct (split_byte_nonempty slash x) as (v & vs & Ex). rewrite concat_app.
    + by rewrite concat_split_byte.
    + by rewrite Er.
    + rewrite Er, Ex in *. cbn [length] in *. by destruct (n - S (length ws)) eqn:E; [lia|].
Qed.

Lemma path_prefix_all root n : length (split_byte slash root) <= n -> path_prefix n root = root.
Proof. intros Hn. unfold path_prefix. rewrite take_ge by done. apply concat_split_byte. Qed.

(** The directories on the way to a path of the tree. *)
Lemma ancestors_below root p q :
  in_tree root p -> q ∈ path_ancestors p -> q ∈ path_ancestors root \/ in_tree root q.
Proof.
  intros [->|[x ->]]%in_tree_cases; [by left|]. unfold path_ancestors.
  rewrite !list_elem_of_In, !List.filter_In, <- !list_elem_of_In, !list_elem_of_fmap.
  intros [(n & -> & Hn%elem_of_seq) Hne]. rewrite path_prefix_below in *. case_decide as Hle.
  - left. split; [|done]. exists n. split; [done|]. apply elem_of_seq. lia.
  - right. apply in_tree_below.
Qed.

Lemma parent_below root x : in_tree root (path_parent (String.append root (String slash x))).
Proof.
  unfold path_parent. rewrite split_byte_app_sep, length_app, path_prefix_below.
  destruct (split_byte_nonempty slash x) as (v & vs & ->). cbn [length].
  case_decide as Hle; [|apply in_tree_below]. left. apply path_prefix_all. lia.
Qed.

Lemma checked_relative_path_Ok raw relative :
  checked_relative_path raw = Ok relative ->
  relative = raw /\ is_absolute raw = false /\ solid_pieces raw <> [].
Proof.
  unfold checked_relative_path. destruct (bool_decide_reflect (raw = ""%string)) as [|Hne]; [done|].
  destruct (is_absolute raw) eqn:Ha; [done|]. cbn. intros Hr. ok_inv. split; [done|]. split; [done|].
  apply forM_Ok in Hr0. unfold path_components in Hr0. rewrite Ha in Hr0. unfold solid_pieces.
  destruct (split_byte_nonempty slash relative) as (w & ws & E). rewrite E in *.
  destruct (decide (w = "."%string)) as [->|Hdot].
  { apply Forall_cons in Hr0 as [Hc _]. done. }
  destruct (decide (w = ""%string)) as [->|Hw].
  { exfalso. apply split_byte_cons in E as [_ [[-> ->]|(q & -> & _)]]; done. }
  cbn. unfold trivial_piece. by rewrite !bool_decide_eq_false_2.
Qed.

Lemma destination_below root raw :
  path_normal root = root -> solid_pieces root <> [] ->
  is_absolute raw = false -> solid_pieces raw <> [] ->
  exists x, path_normal (path_join root raw) = String.append root (String slash x).
Proof.
  intros Hroot Hs Hr Hp. exists (String.concat "/" (solid_pieces raw)).
  assert (Hne : root <> ""%string) by (intros ->; by apply Hs).
  unfold path_normal. rewrite solid_pieces_join by done. rewrite concat_app by done.
  assert (Ha : is_absolute (path_join root raw) = is_absolute root).
  { unfold path_join. rewrite Hr, bool_decide_eq_false_2 by done. destruct root as [|c root]; [done|].
    unfold is_absolute, starts_with. destruct (ends_with_slash _); rewrite append_cons; cbn; by destruct (decide _). }
  rewrite Ha. unfold path_normal in Hroot. clear Ha Hs Hne.
  set (text := String.concat "/" (solid_pieces root)) in *. clearbody text.
  by destruct (is_absolute root); subst root.
Qed.

(** ** Containment

    A run's directory, its parents there and no link in it. *)
Section containment.
Context `{Environment, DirectoryOrder} (root : string).
Context (Hnormal : path_normal root = root) (Hnamed : solid_pieces root <> []).

Record rooted (nodes : gmap string FileNode) : Prop := {
  rt_ancestors : forall q, q ∈ path_ancestors root -> is_Some (nodes !! q);
  rt_links : forall k t, in_tree root k -> nodes !! k <> Some (FSymlink t);
}.

Definition contained (m m' : Machine) : Prop :=
  rooted (mc_nodes m) -> rooted (mc_nodes m') /\ changes (in_tree root) m m'.

#[local] Instance contained_preorder : PreOrder contained.
Proof using Type.
  split; [by intros m Hm|]. intros a b c Hab Hbc Ha. destruct (Hab Ha) as [Hb Cab].
  destruct (Hbc Hb) as [Hc Cbc]. split; [done|]. by etrans.
Qed.

#[local] Hint Resolve contained_preorder : steps.

Lemma contained_same m m' : mc_nodes m' = mc_nodes m -> contained m m'.
Proof using Type. intros Heq Hm. rewrite Heq. split; [done|]. intros p _. by rewrite Heq. Qed.

Lemma contained_insert m p bs : in_tree root p -> contained m (set_nodes m (<[p := FRegular bs]> (mc_nodes m))).
Proof using Type.
  intros Hp [Ha Hl]. split; [constructor|]; cbn.
  - intros q Hq. apply lookup_insert_is_Some'. right. auto.
  - intros k t Hk [[_ ?]|[_ ?]]%lookup_insert_Some; [done|]. by eapply Hl.
  - intros k Hk. cbn. rewrite lookup_insert_ne; [done|]. by intros ->.
Qed.

Lemma contained_create p : in_tree root p -> steps contained (create_dir_all p).
Proof using Type.
  intros Hp m [Ha Hl]. split; [constructor|].
  - intros q Hq. destruct (create_dir_all_lookup p q m) as [->|(_ & _ & ->)]; [auto|by eexists].
  - intros k t Hk. destruct (create_dir_all_lookup p k m) as [->|(_ & _ & ->)]; [by apply Hl|done].
  - intros k Hk. destruct (create_dir_all_lookup p k m) as [->|(Hq & Hn & _)]; [done|].
    destruct (ancestors_below _ _ _ Hp Hq) as [Hx|Hx]; [|done]. destruct (Ha k Hx). congruence.
Qed.

Lemma contained_put m p bs : in_tree root p -> contained m (put_content m p bs).1.
Proof using Type.
  intros Hp Hm. unfold put_content, write_target. rewrite follow_self by (intros t; by apply (rt_links _ Hm)).
  cbn. destruct (is_dir _ _); cbn; [|by split]. destruct (negb _); cbn; [|by split].
  by apply contained_insert.
Qed.

Lemma contained_write p bs : in_tree root p -> steps contained (fs_write p bs).
Proof using Type.
  intros Hp m. unfold fs_write, syscall. destruct (env_fault _) as [k|]; cbn.
  - case_decide; [by apply contained_same|].
    etrans; [by apply (contained_same m (tick m))|by apply contained_put].
  - etrans; [by apply (contained_same m (tick m))|by apply contained_put].
Qed.

Lemma contained_write_files limit total files : steps contained (write_files root limit total files).
Proof using Hnormal Hnamed.
  revert total. induction files as [|file files IH]; intros total; cbn [write_files]; [solve_steps|].
  apply steps_bind; [apply _|solve_steps|]. intros total'.
  apply steps_bind; [apply _|solve_steps|]. intros _.
  apply steps_bind_post; [apply _|solve_steps|].
  intros m m1 relative [-> Hck]%lift_Ok _.
  destruct (checked_relative_path_Ok _ _ Hck) as (-> & Ha & Hs).
  destruct (destination_below root (rf_path file) Hnormal Hnamed Ha Hs) as [x Hx].
  enough (Hd : steps contained
    (_ ← rethrow (fun _ : IoError => "{io error}"%string)
           (create_dir_all (path_parent (path_normal (path_join root (rf_path file)))));
     _ ← rethrow (fun _ : IoError => "{io error}"%string) (fs_write_at (path_join root (rf_path file)) (rf_bytes file));
     write_files root limit total' files)) by apply Hd.
  apply steps_bind; [apply _| |intros _; apply steps_bind; [apply _| |intros _; apply IH]].
  - apply steps_rethrow, contained_create. rewrite Hx. apply parent_below.
  - apply steps_rethrow. unfold fs_write_at. destruct (names_directory _).
    + intros m2. unfold syscall. destruct (env_fault _); by apply contained_same.
    + apply contained_write. rewrite Hx. apply in_tree_below.
Qed.
End containment.

Definition payload (files : list RemoteFile) : N := foldr (fun file n => len (rf_bytes file) + n)%N 0%N files.

Lemma write_files_payload `{Environment} root limit total files m m' :
  write_files root limit total files m = (m', Ok tt) -> files = [] \/ (total + payload files <= limit)%N.
Proof.
  revert total m. induction files as [|file files IH]; intros total m; [by left|].
  cbn [write_files]. intros Hr. right. act_inv.
  match goal with Hx : checked_add_u64 _ _ = Some _ |- _ => apply checked_add_u64_Some in Hx as [-> _] end.
  bool_inv. cbn [payload foldr]. fold (payload files). apply IH in Hr as [->|Hr]; cbn; lia.
Qed.

(** Returned files stay in the run's directory.  Whatever paths and bytes
    a worker sends, and wherever the file system fails, materializing them
    changes no path outside the tree of the work directory and leaves no link
    in it, so a worker cannot make the Hub write elsewhere; and if it succeeds
    the payload was within the transport limit. *)
Theorem remote_files_contained `{Environment} limit root files m m' r :
  path_normal root = root -> solid_pieces root <> [] -> rooted root (mc_nodes m) ->
  materialize_result_files limit root files m = (m', r) ->
  (forall k, ~ in_tree root k -> mc_nodes m' !! k = mc_nodes m !! k) /\
  (forall k t, in_tree root k -> mc_nodes m' !! k <> Some (FSymlink t)) /\
  (r = Ok tt -> (payload files <= limit)%N).
Proof.
  intros Hn Hs Hm Hr. destruct (contained_write_files root Hn Hs limit 0 files m Hm) as [Hm' Hc].
  unfold materialize_result_files in Hr. rewrite Hr in Hm', Hc. cbn in *.
  split; [exact Hc|]. split; [apply Hm'|]. intros ->.
  apply write_files_payload in Hr as [->|Hr]; [apply N.le_0_l|exact Hr].
Qed.

(** A worker that tries to climb out, after one good file. *)
Section witnesses.
#[local] Existing Instance calm_environment.

Definition run_directory : Machine := mkMachine
  (<["/hub" := FDirectory]> (<["/hub/run" := FDirectory]> {["/etc/passwd" := FRegular [1]%N]})) 0.

Definition hostile_files : list RemoteFile :=
  [{| rf_path := "out/result.bin"; rf_bytes := [7; 8]%N |}; {| rf_path := "../../etc/passwd"; rf_bytes := [0]%N |}].

Abbreviation hostile_run := (materialize_result_files 100 "/hub/run" hostile_files run_directory).

Lemma run_directory_rooted : rooted "/hub/run" (mc_nodes run_directory).
Proof.
  split.
  - intros q Hq.
    assert (Hc : q ∈ ["/hub"; "/hub/run"]%string) by exact Hq.
    apply elem_of_cons in Hc as [->|Hc]; [by eexists|]. apply list_elem_of_singleton in Hc as ->. by eexists.
  - intros k t _. cbn. intros Hk. apply lookup_insert_Some in Hk as [[_ ?]|[_ Hk]]; [done|].
    apply lookup_insert_Some in Hk as [[_ ?]|[_ Hk]]; [done|]. by apply lookup_singleton_Some in Hk as [_ ?].
Qed.

Lemma remote_files_contained_witness :
  is_ok hostile_run.2 = false /\
  mc_nodes hostile_run.1 !! "/hub/run/out/result.bin"%string = Some (FRegular [7; 8]%N) /\
  mc_nodes hostile_run.1 !! "/etc/passwd"%string = Some (FRegular [1]%N).
Proof.
  split; [by vm_compute|]. split; [by vm_compute|].
  destruct (remote_files_contained 100 "/hub/run" hostile_files run_directory hostile_run.1 hostile_run.2
              eq_refl ltac:(done) run_directory_rooted ltac:(by destruct hostile_run)) as (Hout & _).
  rewrite (Hout "/etc/passwd"%string); [done|]. by intros [?|?].
Defined.
End witnesses.
