(* ===== verification/Lease.v ===== *)
(** * The worker's lease book ([hub-executor/src/worker.rs])

    A worker keeps leases in memory: one per attempt, found again by the
    attempt's id, with the state of its execution.  Every operation of
    [WorkerService] is one critical section on the book. *)

From Stdlib Require Import Ascii.
From stdpp Require Import base gmap strings list.
From S2P Require Import Prelude Text Core Machine Exec Distributed.

Definition HEARTBEAT_INTERVAL_MS : N := 250.
Definition LEASE_GRACE_MS : N := 30000.

(** The configuration of [WorkerInner]; its lease book is the state. *)
Record WorkerInner := {
  wi_worker_id : string;
  wi_token : string;
  wi_work_root : string;
  wi_max_payload_bytes : N;
}.

(** The token of an entry is shared with the execution it was given to. *)
Record LeaseEntry := mkLeaseEntry {
  le_attempt_id : string;
  le_execution : RemoteExecutionRequest;
  le_state : LeaseState;
  le_last_heartbeat_ms : N;
  le_expires_at_ms : N;
  le_result : option RemoteExecutionResult;
  le_error : option string;
  le_cancel : CancelToken;
}.

Record LeaseBook := mkLeaseBook {
  lb_draining : bool;
  lb_leases : gmap string LeaseEntry;
  lb_attempts : gmap string string;
}.

Definition LeaseBook_default : LeaseBook := mkLeaseBook false ∅ ∅.

Inductive CompletionDisposition := Stored | Duplicate.

Inductive ReserveError :=
| ReserveBadRequest (e : string)
| ReserveConflict (e : string)
| ReserveDraining
| ReservePayloadTooLarge
| ReserveInternal (e : string).

(** [saturating_add]. *)
Definition saturating_add_u64 (a b : N) : N := N.min (a + b) u64_max.

(** ** Changes of an entry *)
Definition LeaseEntry_set_state (s : LeaseState) (now : N) (e : LeaseEntry) : LeaseEntry :=
  mkLeaseEntry (le_attempt_id e) (le_execution e) s now (le_expires_at_ms e) (le_result e) (le_error e)
    (le_cancel e).

Definition LeaseEntry_set_cancel (e : LeaseEntry) : LeaseEntry :=
  mkLeaseEntry (le_attempt_id e) (le_execution e) (le_state e) (le_last_heartbeat_ms e)
    (le_expires_at_ms e) (le_result e) (le_error e) (CancelToken_cancel (le_cancel e)).

Definition LeaseEntry_set_heartbeat (now : N) (e : LeaseEntry) : LeaseEntry :=
  mkLeaseEntry (le_attempt_id e) (le_execution e) (le_state e) now
    (le_expires_at_ms e) (le_result e) (le_error e) (le_cancel e).

Definition LeaseEntry_set_result (r : RemoteExecutionResult) (now : N) (e : LeaseEntry) : LeaseEntry :=
  mkLeaseEntry (le_attempt_id e) (le_execution e)
    (if eo_cancelled (rer_outcome r) then LeaseCancelled else LeaseCompleted) now
    (le_expires_at_ms e) (Some r) None (le_cancel e).

Definition LeaseEntry_fail (error : string) (now : N) (e : LeaseEntry) : LeaseEntry :=
  mkLeaseEntry (le_attempt_id e) (le_execution e) LeaseFailed now
    (le_expires_at_ms e) (le_result e) (Some error) (le_cancel e).

Definition LeaseBook_put (id : string) (e : LeaseEntry) (b : LeaseBook) : LeaseBook :=
  mkLeaseBook (lb_draining b) (<[id := e]> (lb_leases b)) (lb_attempts b).

Section service.
Context `{Environment, UuidLib} (inner : WorkerInner).

(** The book behind its lock, and the machine the worker runs on. *)
Record WorkerService := {
  ws_book : LeaseBook;
  ws_machine : Machine;
}.

Abbreviation service E A := (action WorkerService E A).

Definition on_worker_machine {E A} (m : action Machine E A) : service E A := fun s =>
  let '(mc, r) := m (ws_machine s) in ({| ws_book := ws_book s; ws_machine := mc |}, r).

Definition book {E} : service E LeaseBook := reads (fun s => Ok (ws_book s)).

Definition set_book {E} (b : LeaseBook) : service E unit := fun s =>
  ({| ws_book := b; ws_machine := ws_machine s |}, Ok tt).

Definition worker_now {E} : service E N := on_worker_machine now_ms.

Definition WorkerService_descriptor : WorkerDescriptor := {|
  wd_protocol_version := WORKER_PROTOCOL_VERSION;
  wd_worker_id := wi_worker_id inner;
  wd_capabilities := [PROCESS_EXECUTION_CAPABILITY];
  wd_max_payload_bytes := wi_max_payload_bytes inner;
  wd_heartbeat_interval_ms := HEARTBEAT_INTERVAL_MS |}.

(** ** Draining *)
Definition drain_entry (now : N) (e : LeaseEntry) : LeaseEntry :=
  if LeaseState_is_terminal (le_state e) then e
  else
    let e := LeaseEntry_set_cancel e in
    if decide (le_state e = LeaseQueued) then LeaseEntry_set_state LeaseCancelled now e else e.

Definition active_leases (b : LeaseBook) : N :=
  N.of_nat (size (filter (fun ie : string * LeaseEntry =>
                            LeaseState_is_terminal (le_state ie.2) = false) (lb_leases b))).

Definition begin_draining : service string N :=
  b ← book;
  now ← worker_now;
  _ ← set_book (mkLeaseBook true (drain_entry now <$> lb_leases b) (lb_attempts b));
  mret (active_leases b).

Definition is_draining : service string bool := b ← book; mret (lb_draining b).

Definition active_lease_count : service string N := b ← book; mret (active_leases b).

(** The [Authorization] header, when it is one and is text. *)
Definition authorize (header : option string) : bool :=
  match header ≫= strip_prefix "Bearer " with
  | Some value => bool_decide (value = wi_token inner)
  | None => false
  end.

(** ** Leases *)
Definition create_response (lease_id : string) (e : LeaseEntry) : LeaseCreateResponse := {|
  lcp_lease_id := lease_id;
  lcp_attempt_id := le_attempt_id e;
  lcp_worker_id := wi_worker_id inner;
  lcp_state := le_state e;
  lcp_expires_at_ms := le_expires_at_ms e |}.

Fixpoint input_bytes (total : N) (files : list RemoteFile) : option N :=
  match files with
  | [] => Some total
  | file :: files => total ← checked_add_u64 total (len (rf_bytes file)); input_bytes total files
  end.

(** The checks of [reserve_lease] before it takes the lock. *)
Definition check_request (request : LeaseCreateRequest) : result ReserveError unit :=
  _ ← ensure (lcr_protocol_version request =? WORKER_PROTOCOL_VERSION)%N
        (ReserveBadRequest "unsupported worker protocol {}; expected {}");
  _ ← ensure (negb (bool_decide (trim_chars (chars (lcr_attempt_id request)) = [])))
        (ReserveBadRequest "attempt id must not be empty");
  input ← ok_or (input_bytes 0 (rx_files (lcr_execution request)))
            (ReserveBadRequest "payload size overflow");
  _ ← ensure (negb (wi_max_payload_bytes inner <? input)%N) ReservePayloadTooLarge;
  forM_ (fun file => map_err ReserveBadRequest (_ ← checked_relative_path (rf_path file); Ok tt))
    (rx_files (lcr_execution request)).

Definition new_entry (request : LeaseCreateRequest) (now : N) : LeaseEntry := {|
  le_attempt_id := lcr_attempt_id request;
  le_execution := lcr_execution request;
  le_state := LeaseQueued;
  le_last_heartbeat_ms := now;
  le_expires_at_ms :=
    saturating_add_u64 (saturating_add_u64 now (rx_timeout_ms (lcr_execution request))) LEASE_GRACE_MS;
  le_result := None;
  le_error := None;
  le_cancel := CancelToken_new |}.

Definition reserve_lease (request : LeaseCreateRequest) : service ReserveError LeaseCreateResponse :=
  _ ← lift (check_request request);
  b ← book;
  match lb_attempts b !! lcr_attempt_id request with
  | Some existing_id =>
      existing ← lift (ok_or (lb_leases b !! existing_id) (ReserveInternal "attempt index drift"));
      _ ← lift (ensure (bool_decide (le_execution existing = lcr_execution request))
            (ReserveConflict "attempt id was reused with a different execution payload"));
      mret (create_response existing_id existing)
  | None =>
      _ ← lift (ensure (negb (lb_draining b)) ReserveDraining);
      fresh ← on_worker_machine new_v4;
      let lease_id := uuid_hyphenated fresh in
      now ← worker_now;
      let entry := new_entry request now in
      _ ← set_book (mkLeaseBook (lb_draining b) (<[lease_id := entry]> (lb_leases b))
                      (<[lcr_attempt_id request := lease_id]> (lb_attempts b)));
      mret (create_response lease_id entry)
  end.

Definition lease_status (lease_id : string) : service string (option LeaseStatusResponse) :=
  b ← book;
  mret ((fun e => {| lsr_lease_id := lease_id;
                     lsr_attempt_id := le_attempt_id e;
                     lsr_worker_id := wi_worker_id inner;
                     lsr_state := le_state e;
                     lsr_last_heartbeat_ms := le_last_heartbeat_ms e;
                     lsr_expires_at_ms := le_expires_at_ms e;
                     lsr_result := le_result e;
                     lsr_error := le_error e |}) <$> lb_leases b !! lease_id).

Definition cancel_lease_token (lease_id : string) : service string bool :=
  b ← book;
  match lb_leases b !! lease_id with
  | None => mret false
  | Some e => _ ← set_book (LeaseBook_put lease_id (LeaseEntry_set_cancel e) b); mret true
  end.

Definition heartbeat (lease_id : string) : service string bool :=
  b ← book;
  match lb_leases b !! lease_id with
  | None => mret false
  | Some e =>
      if LeaseState_is_terminal (le_state e) then mret false
      else
        now ← worker_now;
        _ ← set_book (LeaseBook_put lease_id (LeaseEntry_set_heartbeat now e) b);
        mret true
  end.

(** The token handed out is the entry's own flag, named by the lease. *)
Definition mark_running (lease_id : string) : service string RemoteExecutionRequest :=
  b ← book;
  e ← lift (ok_or (lb_leases b !! lease_id) "lease disappeared before execution"%string);
  _ ← lift (ensure (bool_decide (le_state e = LeaseQueued))
        "lease cannot start from terminal/non-queued state {:?}"%string);
  if is_cancelled (le_cancel e) then
    now ← worker_now;
    _ ← set_book (LeaseBook_put lease_id (LeaseEntry_set_state LeaseCancelled now e) b);
    throw "lease was cancelled before execution"%string
  else
    now ← worker_now;
    _ ← set_book (LeaseBook_put lease_id (LeaseEntry_set_state LeaseRunning now e) b);
    mret (le_execution e).

Definition complete_result (lease_id : string) (r : RemoteExecutionResult)
    : service string CompletionDisposition :=
  b ← book;
  e ← lift (ok_or (lb_leases b !! lease_id) "lease disappeared before result commit"%string);
  match le_result e with
  | Some existing =>
      if decide (existing = r) then mret Duplicate
      else throw "conflicting duplicate remote result"%string
  | None =>
      now ← worker_now;
      _ ← set_book (LeaseBook_put lease_id (LeaseEntry_set_result r now e) b);
      mret Stored
  end.

Definition fail_lease (lease_id error : string) : service string unit :=
  b ← book;
  match lb_leases b !! lease_id with
  | None => mret tt
  | Some e =>
      if LeaseState_is_terminal (le_state e) then mret tt
      else
        now ← worker_now;
        set_book (LeaseBook_put lease_id (LeaseEntry_fail error now e) b)
  end.
End service.

(** ** The moves of a book

    What the critical sections do to a book, one entry at a time; a move says
    which result it commits, if any. *)
Inductive entry_move (e : LeaseEntry) : option RemoteExecutionResult -> LeaseEntry -> Prop :=
| move_cancel : entry_move e None (LeaseEntry_set_cancel e)
| move_heartbeat now :
    LeaseState_is_terminal (le_state e) = false -> entry_move e None (LeaseEntry_set_heartbeat now e)
| move_start now :
    le_state e = LeaseQueued -> is_cancelled (le_cancel e) = false ->
    entry_move e None (LeaseEntry_set_state LeaseRunning now e)
| move_stop now :
    le_state e = LeaseQueued -> is_cancelled (le_cancel e) = true ->
    entry_move e None (LeaseEntry_set_state LeaseCancelled now e)
| move_complete r now : le_result e = None -> entry_move e (Some r) (LeaseEntry_set_result r now e)
| move_fail error now :
    LeaseState_is_terminal (le_state e) = false -> entry_move e None (LeaseEntry_fail error now e).

Inductive book_step (b : LeaseBook) : option (string * RemoteExecutionResult) -> LeaseBook -> Prop :=
| book_stay : book_step b None b
| book_drain now : book_step b None (mkLeaseBook true (drain_entry now <$> lb_leases b) (lb_attempts b))
| book_reserve id request now :
    lb_leases b !! id = None -> lb_attempts b !! lcr_attempt_id request = None ->
    lb_draining b = false ->
    book_step b None (mkLeaseBook (lb_draining b) (<[id := new_entry request now]> (lb_leases b))
                        (<[lcr_attempt_id request := id]> (lb_attempts b)))
| book_entry id c e e' :
    lb_leases b !! id = Some e -> entry_move e c e' -> book_step b (pair id <$> c) (LeaseBook_put id e' b).

Section service_steps.
Context `{Environment, UuidLib} (inner : WorkerInner).

(** The UUIDs still to be drawn name no lease. *)
Definition lease_ids_fresh (s : WorkerService) : Prop :=
  forall t, (mc_tick (ws_machine s) <= t)%N -> lb_leases (ws_book s) !! uuid_hyphenated (env_uuid t) = None.

Definition service_moves (s s' : WorkerService) : Prop := book_step (ws_book s) None (ws_book s').

(** Every operation of the service is one move of the book. *)
Ltac run_service :=
  intros s; unfold service_moves, mbind, action_bind, book, reads, lift, set_book, worker_now,
    on_worker_machine, now_ms, new_v4, throw, mret, action_ret; cbn;
  repeat (case_match; cbn in *; simplify_eq); cbn; try (by constructor).

Lemma begin_draining_moves : steps service_moves begin_draining.
Proof using Type. run_service. Qed.

Lemma lease_status_moves id : steps service_moves (lease_status inner id).
Proof using Type. run_service. Qed.

Lemma cancel_lease_token_moves id : steps service_moves (cancel_lease_token id).
Proof using Type. unfold cancel_lease_token. run_service. by eapply (book_entry _ _ None); [|constructor]. Qed.

Lemma heartbeat_moves id : steps service_moves (heartbeat id).
Proof using Type. unfold heartbeat. run_service. by eapply (book_entry _ _ None); [|constructor]. Qed.

Lemma fail_lease_moves id error : steps service_moves (fail_lease id error).
Proof using Type. unfold fail_lease. run_service. by eapply (book_entry _ _ None); [|constructor]. Qed.

Lemma complete_result_moves id r s :
  exists c, (c = None \/ c = Some (id, r)) /\
    book_step (ws_book s) c (ws_book (complete_result id r s).1).
Proof using Type.
  unfold complete_result, mbind, action_bind, book, reads, lift, set_book, worker_now, on_worker_machine, now_ms, mret.
  cbn. destruct (lb_leases (ws_book s) !! id) as [e|] eqn:He; cbn;
    [|exists None; split; [by left|constructor]].
  destruct (le_result e) as [r'|] eqn:Hr; [exists None; split; [by left|case_decide; constructor]|]. cbn.
  exists (Some (id, r)). split; [by right|]. by apply (book_entry _ id (Some r) e); [|constructor].
Qed.

Lemma mark_running_moves id : steps service_moves (mark_running id).
Proof using Type.
  unfold mark_running. intros s. unfold service_moves.
  unfold mbind, action_bind, book, reads, lift, set_book, worker_now, on_worker_machine, now_ms, mret. cbn.
  destruct (lb_leases (ws_book s) !! id) as [e|] eqn:He; cbn; [|constructor].
  destruct (bool_decide_reflect (le_state e = LeaseQueued)) as [Hq|Hq]; cbn; [|constructor].
  destruct (is_cancelled (le_cancel e)) eqn:Hc; cbn; by apply (book_entry _ id None e); [|constructor].
Qed.

Lemma reserve_lease_moves request s :
  lease_ids_fresh s -> service_moves s (reserve_lease inner request s).1.
Proof using Type.
  unfold reserve_lease. intros Hfresh. unfold service_moves.
  unfold mbind, action_bind, book, reads, lift, set_book, worker_now, on_worker_machine, now_ms, new_v4, mret. cbn.
  destruct (check_request inner request); cbn; [|constructor].
  destruct (lb_attempts (ws_book s) !! lcr_attempt_id request) as [id|] eqn:Ha; cbn.
  - destruct (lb_leases (ws_book s) !! id); cbn; [|constructor]. case_bool_decide; constructor.
  - destruct (lb_draining (ws_book s)) eqn:Hd; cbn; [constructor|].
    rewrite <- Hd. apply book_reserve; [|done|done]. by apply Hfresh.
Qed.
End service_steps.

(** ** Well-formed books *)
Definition result_state (r : RemoteExecutionResult) : LeaseState :=
  if eo_cancelled (rer_outcome r) then LeaseCancelled else LeaseCompleted.

(** The state tells which of the result and the error are there. *)
Record entry_ok (e : LeaseEntry) : Prop := {
  eok_result : forall r, le_result e = Some r -> le_state e = result_state r;
  eok_completed : le_state e = LeaseCompleted -> is_Some (le_result e);
  eok_failed : le_state e = LeaseFailed <-> is_Some (le_error e);
}.

Record book_wf (b : LeaseBook) : Prop := {
  wf_entries : map_Forall (fun _ e => entry_ok e) (lb_leases b);
  wf_index : forall attempt id,
    lb_attempts b !! attempt = Some id <->
    exists e, lb_leases b !! id = Some e /\ le_attempt_id e = attempt;
  wf_drained : lb_draining b = true -> forall id e, lb_leases b !! id = Some e ->
    LeaseState_is_terminal (le_state e) = false ->
    le_state e = LeaseRunning /\ is_cancelled (le_cancel e) = true;
}.

(** What an entry keeps for good. *)
Record entry_le (e e' : LeaseEntry) : Prop := {
  el_attempt : le_attempt_id e' = le_attempt_id e;
  el_execution : le_execution e' = le_execution e;
  el_expires : le_expires_at_ms e' = le_expires_at_ms e;
  el_cancel : is_cancelled (le_cancel e) = true -> is_cancelled (le_cancel e') = true;
  el_left_queue : le_state e <> LeaseQueued -> le_state e' <> LeaseQueued;
  el_terminal : LeaseState_is_terminal (le_state e) = true -> LeaseState_is_terminal (le_state e') = true;
  el_result : forall r, le_result e = Some r ->
    le_result e' = Some r /\ le_state e' = le_state e /\ le_error e' = le_error e;
}.

#[global] Instance entry_le_preorder : PreOrder entry_le.
Proof.
  split.
  - intros e. by constructor; auto.
  - intros a b c [] []. constructor; try congruence; try by auto.
    intros r Hr. destruct (el_result0 r Hr) as (Hb & ? & ?). destruct (el_result1 r Hb) as (? & ? & ?).
    split_and!; congruence.
Qed.

Lemma result_terminal e r : entry_ok e -> le_result e = Some r -> LeaseState_is_terminal (le_state e) = true.
Proof. intros [Hr _ _] Hs. rewrite (Hr r Hs). unfold result_state. by case_match. Qed.

Lemma open_result e : entry_ok e -> LeaseState_is_terminal (le_state e) = false -> le_result e = None.
Proof.
  intros Hok Ht. destruct (le_result e) as [r|] eqn:E; [|done].
  by rewrite (result_terminal _ _ Hok E) in Ht.
Qed.

Lemma open_error e : entry_ok e -> LeaseState_is_terminal (le_state e) = false -> le_error e = None.
Proof.
  intros [_ _ Hf] Ht. destruct (le_error e) eqn:E; [|done].
  destruct Hf as [_ Hf]. by rewrite Hf in Ht.
Qed.

Lemma entry_move_ok e c e' : entry_move e c e' -> entry_ok e -> entry_ok e' /\ entry_le e e'.
Proof.
  intros Hm Hok. pose proof (open_result e Hok) as Hor. pose proof (open_error e Hok) as Hoe.
  pose proof (result_terminal e) as Hrt. destruct Hok as [Hr Hc Hf].
  destruct Hm as [|now Ht|now Hq Hn|now Hq Hn|r now Hn|error now Ht].
  - split; [by constructor|]. by constructor.
  - split; [by constructor|]. by constructor.
  - rewrite Hq in *. rewrite Hor, Hoe in * by done. split.
    + constructor; cbn; [by rewrite Hor|done|]. rewrite Hoe by done. split; [done|by intros []].
    + constructor; cbn; rewrite ?Hq; try done. by rewrite Hor.
  - rewrite Hq in *. rewrite Hor, Hoe in * by done. split.
    + constructor; cbn; [by rewrite Hor|done|]. rewrite Hoe by done. split; [done|by intros []].
    + constructor; cbn; rewrite ?Hq; try done. by rewrite Hor.
  - split.
    + constructor; cbn; [by intros r' [= <-]|by eexists|]. split; [|by intros []]. by case_match.
    + constructor; cbn; try done; [by case_match|by case_match|]. by rewrite Hn.
  - split.
    + constructor; cbn; [by rewrite (Hor Ht)|done|]. by split; eexists.
    + constructor; cbn; try done. by rewrite (Hor Ht).
Qed.

Lemma drain_entry_ok now e : entry_ok e -> entry_ok (drain_entry now e) /\ entry_le e (drain_entry now e).
Proof.
  intros Hok. unfold drain_entry. destruct (LeaseState_is_terminal (le_state e)) eqn:Ht; [done|].
  destruct (entry_move_ok _ _ _ (move_cancel e) Hok) as [Hok1 Hle1]. cbn zeta.
  case_decide as Hq; [|done].
  destruct (entry_move_ok _ _ _ (move_stop _ now Hq eq_refl) Hok1) as [Hok2 Hle2].
  split; [done|]. by etrans.
Qed.

(** What a book keeps for good. *)
Record book_le (b b' : LeaseBook) : Prop := {
  bl_draining : lb_draining b = true -> lb_draining b' = true;
  bl_entries : forall id e, lb_leases b !! id = Some e ->
    exists e', lb_leases b' !! id = Some e' /\ entry_le e e';
  bl_attempts : forall a id, lb_attempts b !! a = Some id -> lb_attempts b' !! a = Some id;
  bl_closed : lb_draining b = true -> forall id e', lb_leases b' !! id = Some e' -> is_Some (lb_leases b !! id);
}.

#[global] Instance book_le_preorder : PreOrder book_le.
Proof.
  split.
  - intros b. constructor; eauto. intros id e He. exists e. split; [done|reflexivity].
  - intros a b c [D1 E1 A1 C1] [D2 E2 A2 C2]. constructor; auto.
    + intros id e He. destruct (E1 id e He) as (e1 & He1 & L1). destruct (E2 id e1 He1) as (e2 & He2 & L2).
      exists e2. split; [done|by etrans].
    + intros Hd id e' He'. destruct (C2 (D1 Hd) id e' He') as [e1 He1]. by apply (C1 Hd id e1).
Qed.

Lemma book_step_ok b c b' : book_step b c b' -> book_wf b -> book_wf b' /\ book_le b b'.
Proof.
  intros Hs Hwf. destruct Hs as [|now|id request now Hid Ha Hd|id c e e' He Hm]; [by split|..];
    destruct Hwf as [Hent Hidx Hdr].
  - assert (Hlook : forall id e', (drain_entry now <$> lb_leases b) !! id = Some e' <->
                     exists e, lb_leases b !! id = Some e /\ e' = drain_entry now e).
    { intros id e'. rewrite lookup_fmap, fmap_Some. done. }
    split; constructor; cbn.
    + intros id e' (e & He & ->)%Hlook. apply drain_entry_ok. by eapply Hent.
    + intros a id. rewrite Hidx. split.
      * intros (e & He & <-). exists (drain_entry now e). split; [apply Hlook; eauto|].
        apply drain_entry_ok. by eapply Hent.
      * intros (e' & (e & He & ->)%Hlook & <-). exists e. split; [done|]. symmetry.
        apply drain_entry_ok. by eapply Hent.
    + intros _ id e' (e & He & ->)%Hlook. unfold drain_entry.
      destruct (LeaseState_is_terminal (le_state e)) eqn:Ht; [by rewrite Ht|]. cbn zeta.
      case_decide as Hq; [done|]. cbn in *. intros _. destruct (le_state e); done.
    + done.
    + intros id e He. exists (drain_entry now e). split; [apply Hlook; eauto|]. apply drain_entry_ok. by eapply Hent.
    + done.
    + intros _ id e' (e & He & _)%Hlook. by exists e.
  - assert (Hfresh : forall a, lb_attempts b !! a <> Some id).
    { intros a (e & He & _)%Hidx. congruence. }
    split; constructor; cbn.
    + apply map_Forall_insert_2; [|done]. constructor; cbn; [done|done|]. split; [done|by intros []].
    + intros a i. destruct (decide (a = lcr_attempt_id request)) as [->|Hne].
      * rewrite lookup_insert_eq. split.
        -- intros [= <-]. exists (new_entry request now). by rewrite lookup_insert_eq.
        -- intros (e & He & Hea). apply lookup_insert_Some in He as [[-> _]|[_ He]]; [done|].
           exfalso. assert (Hi : lb_attempts b !! lcr_attempt_id request = Some i) by (apply Hidx; eauto).
           congruence.
      * rewrite lookup_insert_ne by done. rewrite Hidx. split; intros (e & He & Hea); exists e; (split; [|done]).
        -- rewrite lookup_insert_ne; [done|]. congruence.
        -- apply lookup_insert_Some in He as [[_ <-]|[_ He]]; [by cbn in Hea|done].
    + congruence.
    + done.
    + intros i e He. exists e. split; [|reflexivity]. rewrite lookup_insert_ne; [done|]. congruence.
    + intros a i Hi. rewrite lookup_insert_ne; [done|]. congruence.
    + congruence.
  - destruct (entry_move_ok _ _ _ Hm (Hent id e He)) as [Hok' Hle].
    split; constructor; cbn.
    + by apply map_Forall_insert_2.
    + intros a i. rewrite Hidx. split; intros (x & Hx & <-).
      * destruct (decide (i = id)) as [->|Hne]; [|exists x; by rewrite lookup_insert_ne].
        simplify_eq. exists e'. rewrite lookup_insert_eq. split; [done|]. apply Hle.
      * apply lookup_insert_Some in Hx as [[-> <-]|[_ Hx]]; [|by eauto]. exists e. split; [done|].
        symmetry. apply Hle.
    + intros Hd i x Hx Ht. apply lookup_insert_Some in Hx as [[-> <-]|[_ Hx]]; [|by eapply Hdr].
      assert (Ho : LeaseState_is_terminal (le_state e) = false).
      { destruct (LeaseState_is_terminal (le_state e)) eqn:E; [|done].
        by rewrite (el_terminal _ _ Hle E) in Ht. }
      destruct (Hdr Hd _ _ He Ho) as [Hrun Hcan]. split; [|by apply Hle].
      assert (le_state e' <> LeaseQueued) by (apply Hle; congruence). by destruct (le_state e').
    + done.
    + intros i x Hx. destruct (decide (i = id)) as [->|Hne].
      * simplify_eq. exists e'. by rewrite lookup_insert_eq.
      * exists x. rewrite lookup_insert_ne by done. split; [done|reflexivity].
    + done.
    + intros _ i x [[-> _]|[_ Hx]]%lookup_insert_Some; eauto.
Qed.

(** A result that appears was committed. *)
Lemma book_step_results b c b' id e' r :
  book_step b c b' -> lb_leases b' !! id = Some e' -> le_result e' = Some r ->
  (exists e, lb_leases b !! id = Some e /\ le_result e = Some r) \/ c = Some (id, r).
Proof.
  intros Hs He' Hr. destruct Hs as [|now|i request now Hi Ha Hd|i c e x Hi Hm]; cbn in He'.
  - by left; eauto.
  - rewrite lookup_fmap, fmap_Some in He'. destruct He' as (e & He & ->). left. exists e. split; [done|].
    unfold drain_entry in Hr. repeat case_match; done.
  - apply lookup_insert_Some in He' as [[_ <-]|[_ He']]; [done|]. by left; eauto.
  - apply lookup_insert_Some in He' as [[<- <-]|[_ He']]; [|by left; eauto].
    destruct Hm as [| | | |r' now Hn|]; try (left; by exists e).
    right. cbn in Hr. by simplify_eq.
Qed.

(** ** Reserving

    What a successful reservation leaves in the book, and what a known attempt
    is answered. *)
Section reserve.
Context `{Environment, UuidLib} (inner : WorkerInner).

Lemma reserve_lease_Ok request s s' r :
  book_wf (ws_book s) -> reserve_lease inner request s = (s', Ok r) ->
  check_request inner request = Ok tt /\
  exists id e, lb_attempts (ws_book s') !! lcr_attempt_id request = Some id /\
    lb_leases (ws_book s') !! id = Some e /\ le_execution e = lcr_execution request /\
    r = create_response inner id e.
Proof using Type.
  intros Hwf. unfold reserve_lease, mbind, action_bind, book, reads, lift, set_book, worker_now,
    on_worker_machine, now_ms, new_v4, mret. cbn.
  destruct (check_request inner request) as [[]|]; cbn; [|done].
  destruct (lb_attempts (ws_book s) !! lcr_attempt_id request) as [id|] eqn:Ha; cbn.
  - destruct (lb_leases (ws_book s) !! id) as [e|] eqn:He; cbn; [|done].
    destruct (bool_decide_reflect (le_execution e = lcr_execution request)) as [Hx|]; cbn; [|done].
    intros [= <- <-]. split; [done|]. by exists id, e.
  - destruct (lb_draining (ws_book s)); cbn; [done|]. intros [= <- <-]. split; [done|].
    eexists _, _. cbn. split; [apply lookup_insert_eq|]. split; [apply lookup_insert_eq|]. done.
Qed.

Lemma reserve_lease_known request s id e :
  check_request inner request = Ok tt ->
  lb_attempts (ws_book s) !! lcr_attempt_id request = Some id ->
  lb_leases (ws_book s) !! id = Some e ->
  reserve_lease inner request s =
    (s, if bool_decide (le_execution e = lcr_execution request) then Ok (create_response inner id e)
        else Err (ReserveConflict "attempt id was reused with a different execution payload")).
Proof using Type.
  intros Hck Ha He. unfold reserve_lease, mbind, action_bind, book, reads, lift. cbn.
  rewrite Hck. cbn. rewrite Ha. cbn. rewrite He. cbn. by case_bool_decide.
Qed.

Lemma reserve_lease_replay request s id e :
  check_request inner request = Ok tt ->
  lb_attempts (ws_book s) !! lcr_attempt_id request = Some id ->
  lb_leases (ws_book s) !! id = Some e -> le_execution e = lcr_execution request ->
  reserve_lease inner request s = (s, Ok (create_response inner id e)).
Proof using Type.
  intros Hck Ha He Hx. rewrite (reserve_lease_known _ _ _ _ Hck Ha He).
  by rewrite bool_decide_eq_true_2.
Qed.

Lemma reserve_lease_conflict request s id e :
  check_request inner request = Ok tt ->
  lb_attempts (ws_book s) !! lcr_attempt_id request = Some id ->
  lb_leases (ws_book s) !! id = Some e -> le_execution e <> lcr_execution request ->
  exists text, reserve_lease inner request s = (s, Err (ReserveConflict text)).
Proof using Type.
  intros Hck Ha He Hx. rewrite (reserve_lease_known _ _ _ _ Hck Ha He).
  rewrite bool_decide_eq_false_2 by done. eauto.
Qed.
End reserve.
