(* ===== verification/WorkerHost.v ===== *)
(** * The worker service ([hub-executor/src/worker.rs])

    The HTTP handlers of a worker, the task that executes one lease
    ([run_lease]) and the host on which they interleave: requests in any
    order, any number of lease tasks between their critical sections,
    heartbeats and drains. *)

From Stdlib Require Import Ascii.
From stdpp Require Import base gmap strings list pretty.
From S2P Require Import Prelude Text Core Digest Machine Blobs Event Exec Distributed Transport Lease.

(** The answers of the handlers. *)
Inductive ResponseBody :=
| DescriptorBody (d : WorkerDescriptor)
| LeaseBody (r : LeaseCreateResponse)
| StatusBody (r : LeaseStatusResponse)
| ErrorBody (error : string)
| EmptyBody.

Record Response := mkResponse {
  rs_status : N;
  rs_body : ResponseBody;
}.

Definition worker_error (status : N) (error : string) : Response := mkResponse status (ErrorBody error).
Definition unauthorized : Response := worker_error 401 "worker authorization refused".

Section host.
Context `{Environment, UuidLib, DirectoryOrder} {backend : Executor} (inner : WorkerInner).

Abbreviation service E A := (action WorkerService E A).

(** ** Handlers

    Each is an answer and the new state; [create_lease] also says which lease
    to run. *)
Definition describe_worker (header : option string) (s : WorkerService) : WorkerService * Response :=
  if negb (authorize inner header) then (s, unauthorized)
  else match is_draining s with
       | (s, Ok false) => (s, mkResponse 200 (DescriptorBody (WorkerService_descriptor inner)))
       | (s, Ok true) => (s, worker_error 503 "worker is draining")
       | (s, Err error) => (s, worker_error 500 error)
       end.

Definition reserve_error_response (e : ReserveError) : Response :=
  match e with
  | ReserveBadRequest error => worker_error 400 error
  | ReserveConflict error => worker_error 409 error
  | ReserveDraining => worker_error 503 "worker is draining and not accepting new leases"
  | ReservePayloadTooLarge => worker_error 413 "remote payload exceeds worker limit"
  | ReserveInternal error => worker_error 500 error
  end.

Definition create_lease (header : option string) (body : result string LeaseCreateRequest)
    (s : WorkerService) : WorkerService * (Response * option string) :=
  if negb (authorize inner header) then (s, (unauthorized, None))
  else match body with
       | Err error => (s, (worker_error 400 error, None))
       | Ok request =>
           match reserve_lease inner request s with
           | (s, Err e) => (s, (reserve_error_response e, None))
           | (s, Ok response) =>
               (s, (mkResponse 202 (LeaseBody response),
                    if decide (lcp_state response = LeaseQueued) then Some (lcp_lease_id response) else None))
           end
       end.

Definition get_lease (header : option string) (lease_id : string) (s : WorkerService)
    : WorkerService * Response :=
  if negb (authorize inner header) then (s, unauthorized)
  else match lease_status inner lease_id s with
       | (s, Ok (Some status)) => (s, mkResponse 200 (StatusBody status))
       | (s, Ok None) => (s, worker_error 404 "lease not found")
       | (s, Err error) => (s, worker_error 500 error)
       end.

Definition cancel_lease (header : option string) (lease_id : string) (s : WorkerService)
    : WorkerService * Response :=
  if negb (authorize inner header) then (s, unauthorized)
  else match cancel_lease_token lease_id s with
       | (s, Ok true) => (s, mkResponse 202 EmptyBody)
       | (s, Ok false) => (s, worker_error 404 "lease not found")
       | (s, Err error) => (s, worker_error 500 error)
       end.

(** ** The task of one lease

    The request its process is started with. *)
Definition lease_root (lease_id : string) : string := path_join (wi_work_root inner) lease_id.

Definition lease_request (lease_id : string) (execution : RemoteExecutionRequest) : ExecutionRequest :=
  let root := lease_root lease_id in {|
  rq_program := rx_program execution;
  rq_args := (fun value => expand_workdir_path value root) <$> rx_args execution;
  rq_working_dir := root;
  rq_env := (fun value => expand_workdir_path value root) <$> rx_env execution;
  rq_timeout_ms := rx_timeout_ms execution;
  rq_max_capture_bytes_per_stream := rx_max_capture_bytes_per_stream execution |}.

(** Where the task is: what [run_lease] does next. *)
Inductive TaskPhase :=
| TaskStart
| TaskPrepare (execution : RemoteExecutionRequest)
| TaskExecute (request : ExecutionRequest)
| TaskCollect (outcome : ExecutionOutcome)
| TaskCommit (r : RemoteExecutionResult)
| TaskFail (error : string) (cleanup : bool)
| TaskCleanup
| TaskDone.

(** The token a lease shares with its execution. *)
Definition lease_token (b : LeaseBook) (lease_id : string) : CancelToken :=
  match lb_leases b !! lease_id with Some e => le_cancel e | None => CancelToken_new end.

(** One stretch of [run_lease] between two points where others may act;
    [joins] tells whether the blocking task of the execution comes back. *)
Definition run_lease_step (joins : bool) (lease_id : string) (phase : TaskPhase) (s : WorkerService)
    : WorkerService * TaskPhase :=
  let root := lease_root lease_id in
  match phase with
  | TaskStart =>
      match mark_running lease_id s with
      | (s, Ok execution) => (s, TaskPrepare execution)
      | (s, Err error) => (s, TaskFail error false)
      end
  | TaskPrepare execution =>
      match on_worker_machine (prepare_workdir root (rx_directories execution) (rx_files execution)
                                 (wi_max_payload_bytes inner)) s with
      | (s, Ok _) => (s, TaskExecute (lease_request lease_id execution))
      | (s, Err error) => (s, TaskFail error false)
      end
  | TaskExecute request =>
      if negb joins then (s, TaskFail "worker execution task failed: {error}" true)
      else match on_worker_machine (execute request (lease_token (ws_book s) lease_id)) s with
           | (s, Ok outcome) => (s, TaskCollect outcome)
           | (s, Err error) => (s, TaskFail "worker executor backend failed: {error}" true)
           end
  | TaskCollect outcome =>
      match on_worker_machine (collect_files root (wi_max_payload_bytes inner)) s with
      | (s, Ok files) => (s, TaskCommit {| rer_outcome := outcome; rer_files := files |})
      | (s, Err error) => (s, TaskFail error true)
      end
  | TaskCommit r =>
      match complete_result lease_id r s with
      | (s, Ok _) => (s, TaskCleanup)
      | (s, Err error) => (s, TaskFail error true)
      end
  | TaskFail error cleanup =>
      ((fail_lease lease_id error s).1, if cleanup then TaskCleanup else TaskDone)
  | TaskCleanup => ((on_worker_machine (fs_remove_dir_all root) s).1, TaskDone)
  | TaskDone => (s, TaskDone)
  end.

(** ** The host *)

(** A lease task, with what it was given and what it ran. *)
Record LeaseTask := mkLeaseTask {
  lt_lease : string;
  lt_phase : TaskPhase;
  lt_execution : option RemoteExecutionRequest;
  lt_outcome : option ExecutionOutcome;
}.

Definition LeaseTask_spawn (lease_id : string) : LeaseTask := mkLeaseTask lease_id TaskStart None None.

Definition LeaseTask_move (t : LeaseTask) (phase : TaskPhase) : LeaseTask :=
  mkLeaseTask (lt_lease t) phase
    (match phase with TaskPrepare execution => Some execution | _ => lt_execution t end)
    (match phase with TaskCollect outcome => Some outcome | _ => lt_outcome t end).

Record WorkerHost := mkWorkerHost {
  wh_service : WorkerService;
  wh_tasks : list LeaseTask;
}.

Inductive host_step : WorkerHost -> WorkerHost -> Prop :=
| host_describe header h s' r :
    describe_worker header (wh_service h) = (s', r) ->
    host_step h (mkWorkerHost s' (wh_tasks h))
| host_create header body h s' r spawn :
    lease_ids_fresh (wh_service h) ->
    create_lease header body (wh_service h) = (s', (r, spawn)) ->
    host_step h (mkWorkerHost s' (wh_tasks h ++ match spawn with
                                                | Some id => [LeaseTask_spawn id]
                                                | None => []
                                                end))
| host_get header id h s' r :
    get_lease header id (wh_service h) = (s', r) -> host_step h (mkWorkerHost s' (wh_tasks h))
| host_cancel header id h s' r :
    cancel_lease header id (wh_service h) = (s', r) -> host_step h (mkWorkerHost s' (wh_tasks h))
| host_heartbeat id h s' r :
    heartbeat id (wh_service h) = (s', r) -> host_step h (mkWorkerHost s' (wh_tasks h))
| host_drain h s' r :
    begin_draining (wh_service h) = (s', r) -> host_step h (mkWorkerHost s' (wh_tasks h))
| host_task i t joins h s' phase :
    wh_tasks h !! i = Some t ->
    run_lease_step joins (lt_lease t) (lt_phase t) (wh_service h) = (s', phase) ->
    host_step h (mkWorkerHost s' (<[i := LeaseTask_move t phase]> (wh_tasks h)))
| host_outside h m' :
    host_step h (mkWorkerHost {| ws_book := ws_book (wh_service h); ws_machine := m' |} (wh_tasks h)).

(** [WorkerService::new]: the configuration of a worker, its work directory
    made; its book is empty. *)
Definition WorkerService_new (worker_id token work_root : string) (max_payload_bytes : N)
    : action Machine string WorkerInner :=
  _ ← lift (ensure (negb (bool_decide (trim_chars (chars worker_id) = []))) "worker id must not be empty"%string);
  _ ← lift (ensure (negb (bool_decide (token = ""%string))) "worker bearer token must not be empty"%string);
  _ ← lift (ensure (negb (max_payload_bytes =? 0)%N) "worker max payload bytes must be greater than zero"%string);
  _ ← rethrow (fun _ : IoError => "creating worker work root {work_root:?}: {e}"%string) (fs_create_dirs work_root);
  mret {| wi_worker_id := worker_id; wi_token := token; wi_work_root := work_root;
          wi_max_payload_bytes := max_payload_bytes |}.

Definition host_start (m : Machine) : WorkerHost :=
  mkWorkerHost {| ws_book := LeaseBook_default; ws_machine := m |} [].

(** ** What a step does to the book *)
Lemma on_worker_machine_book {E A} (m : action Machine E A) s s' r :
  on_worker_machine m s = (s', r) -> ws_book s' = ws_book s.
Proof using Type. unfold on_worker_machine. destruct (m (ws_machine s)). by intros [= <- <-]. Qed.

(** A step of a task, and the result it may commit. *)
Definition committed (id : string) (phase : TaskPhase) : option (string * RemoteExecutionResult) :=
  match phase with TaskCommit r => Some (id, r) | _ => None end.

Lemma run_lease_step_moves joins id phase s s' phase' :
  run_lease_step joins id phase s = (s', phase') ->
  exists c, (c = None \/ c = committed id phase) /\ book_step (ws_book s) c (ws_book s').
Proof using Type.
  intros Hr. destruct phase as [|x|rq|o|r|e c| |]; cbn in Hr.
  5: { destruct (complete_result_moves id r s) as (c & Hc & Hm). exists c. split; [done|].
       destruct (complete_result id r s) as [? [?|?]]; by simplify_eq. }
  all: exists None; split; [by left|].
  - pose proof (mark_running_moves id s) as Hm. destruct (mark_running id s) as [? [?|?]]; by simplify_eq.
  - destruct (on_worker_machine _ s) as [s1 [?|?]] eqn:E; simplify_eq;
      rewrite (on_worker_machine_book _ _ _ _ E); constructor.
  - destruct joins; cbn in Hr; [|simplify_eq; constructor].
    destruct (on_worker_machine _ s) as [s1 [?|?]] eqn:E; simplify_eq;
      rewrite (on_worker_machine_book _ _ _ _ E); constructor.
  - destruct (on_worker_machine _ s) as [s1 [?|?]] eqn:E; simplify_eq;
      rewrite (on_worker_machine_book _ _ _ _ E); constructor.
  - simplify_eq. apply (fail_lease_moves id e s).
  - simplify_eq. destruct (on_worker_machine _ s) as [s1 r1] eqn:E. cbn.
    rewrite (on_worker_machine_book _ _ _ _ E). constructor.
  - simplify_eq. constructor.
Qed.

Lemma create_lease_moves header body s s' r spawn :
  lease_ids_fresh s -> create_lease header body s = (s', (r, spawn)) ->
  book_step (ws_book s) None (ws_book s').
Proof using Type.
  intros Hf. unfold create_lease. destruct (authorize inner header); cbn; [|intros; simplify_eq; constructor].
  destruct body as [request|e]; [|intros; simplify_eq; constructor].
  pose proof (reserve_lease_moves inner request s Hf) as Hm.
  destruct (reserve_lease inner request s) as [s1 [rp|e]]; intros; by simplify_eq.
Qed.

Lemma describe_worker_moves header s : service_moves s (describe_worker header s).1.
Proof using Type.
  unfold describe_worker. destruct (authorize inner header); cbn; [|constructor].
  unfold is_draining, mbind, action_bind, book, reads. cbn. destruct (lb_draining (ws_book s)); constructor.
Qed.

Lemma get_lease_moves header id s : service_moves s (get_lease header id s).1.
Proof using Type.
  unfold get_lease. destruct (authorize inner header); cbn; [|constructor].
  unfold lease_status, mbind, action_bind, book, reads. cbn.
  destruct (lb_leases (ws_book s) !! id); constructor.
Qed.

Lemma cancel_lease_moves header id s : service_moves s (cancel_lease header id s).1.
Proof using Type.
  unfold cancel_lease. destruct (authorize inner header); cbn; [|constructor].
  pose proof (cancel_lease_token_moves id s) as Hm.
  destruct (cancel_lease_token id s) as [s1 [[|]|?]]; done.
Qed.

(** ** The tasks of a host *)
Definition ran (execution : RemoteExecutionRequest) (id : string) (o : ExecutionOutcome) : Prop :=
  exists cancel m m', execute (lease_request id execution) cancel m = (m', Ok o).

Definition phase_fits (t : LeaseTask) : Prop :=
  match lt_phase t with
  | TaskStart => lt_execution t = None /\ lt_outcome t = None
  | TaskPrepare x => lt_execution t = Some x /\ lt_outcome t = None
  | TaskExecute request =>
      (exists x, lt_execution t = Some x /\ request = lease_request (lt_lease t) x) /\ lt_outcome t = None
  | TaskCollect o => is_Some (lt_execution t) /\ lt_outcome t = Some o
  | TaskCommit r => is_Some (lt_execution t) /\ lt_outcome t = Some (rer_outcome r)
  | TaskFail _ _ | TaskCleanup | TaskDone => True
  end.

Record task_ok (b : LeaseBook) (t : LeaseTask) : Prop := {
  tk_started : forall x, lt_execution t = Some x ->
    exists e, lb_leases b !! lt_lease t = Some e /\ le_execution e = x /\ le_state e <> LeaseQueued;
  tk_outcome : forall o, lt_outcome t = Some o ->
    exists x, lt_execution t = Some x /\ ran x (lt_lease t) o;
  tk_phase : phase_fits t;
}.

Record host_inv (h : WorkerHost) : Prop := {
  hi_book : book_wf (ws_book (wh_service h));
  hi_tasks : forall i t, wh_tasks h !! i = Some t -> task_ok (ws_book (wh_service h)) t;
  hi_once : forall i j t u, wh_tasks h !! i = Some t -> wh_tasks h !! j = Some u ->
    is_Some (lt_execution t) -> is_Some (lt_execution u) -> lt_lease t = lt_lease u -> i = j;
  hi_results : forall id e r, lb_leases (ws_book (wh_service h)) !! id = Some e -> le_result e = Some r ->
    exists i t, wh_tasks h !! i = Some t /\ lt_lease t = id /\ lt_outcome t = Some (rer_outcome r);
}.

Lemma task_ok_le b b' t : book_le b b' -> task_ok b t -> task_ok b' t.
Proof using Type.
  intros [_ He _ _] [Hs Ho Hp]. constructor; [|done|done]. intros x Hx.
  destruct (Hs x Hx) as (e & Hl & Hex & Hq). destruct (He _ _ Hl) as (e' & Hl' & Hle).
  exists e'. split_and!; [done|by rewrite (el_execution _ _ Hle)|by apply Hle].
Qed.

Lemma mark_running_Ok id s s' x :
  mark_running id s = (s', Ok x) ->
  exists e e', lb_leases (ws_book s) !! id = Some e /\ le_state e = LeaseQueued /\
    is_cancelled (le_cancel e) = false /\ x = le_execution e /\
    lb_leases (ws_book s') !! id = Some e' /\ le_execution e' = x /\ le_state e' = LeaseRunning.
Proof using Type.
  unfold mark_running, mbind, action_bind, book, reads, lift, set_book, worker_now, on_worker_machine, now_ms, mret.
  cbn. destruct (lb_leases (ws_book s) !! id) as [e|] eqn:He; cbn; [|done].
  destruct (bool_decide_reflect (le_state e = LeaseQueued)) as [Hq|Hq]; cbn; [|done].
  destruct (is_cancelled (le_cancel e)) eqn:Hc; cbn; [discriminate|]. intros [= <- <-]. cbn.
  eexists e, _. do 4 (split; [done|]). split; [apply lookup_insert_eq|done].
Qed.

Lemma complete_result_Ok id r s s' d :
  complete_result id r s = (s', Ok d) ->
  exists e, lb_leases (ws_book s') !! id = Some e /\ le_result e = Some r.
Proof using Type.
  unfold complete_result, mbind, action_bind, book, reads, lift, set_book, worker_now, on_worker_machine, now_ms, mret.
  cbn. destruct (lb_leases (ws_book s) !! id) as [e|] eqn:He; cbn; [|done].
  destruct (le_result e) as [r'|] eqn:Hr.
  - case_decide as Heq; [|done]. intros [= <- <-]. subst. by exists e.
  - cbn. intros [= <- <-]. cbn. rewrite lookup_insert_eq. by eexists.
Qed.


(** ** Steps keep the invariant

    Handlers, heartbeats and drains move the book and may add a task. *)
Lemma host_inv_handler h s' more :
  host_inv h -> service_moves (wh_service h) s' ->
  (forall t, t ∈ more -> exists id, t = LeaseTask_spawn id) ->
  host_inv (mkWorkerHost s' (wh_tasks h ++ more)).
Proof using Type.
  intros [Hb Ht Ho Hr] Hm Hmore. destruct (book_step_ok _ _ _ Hm Hb) as [Hb' Hle].
  assert (Hnew : forall i t, (wh_tasks h ++ more) !! i = Some t ->
            wh_tasks h !! i = Some t \/ exists id, t = LeaseTask_spawn id).
  { intros i t [Hi|[_ Hi]]%lookup_app_Some; [by left|right]. by eapply Hmore, list_elem_of_lookup_2. }
  constructor; cbn.
  - done.
  - intros i t [Hi|[id ->]]%Hnew; [by eapply task_ok_le; eauto|]. by constructor.
  - intros i j t u [Hi|[id ->]]%Hnew [Hj|[jd ->]]%Hnew Hti Hui Hl;
      [by eapply Ho|by destruct Hui|by destruct Hti|by destruct Hti].
  - intros id e r He Her. destruct (book_step_results _ _ _ _ _ _ Hm He Her) as [(e0 & He0 & Hr0)|?]; [|done].
    destruct (Hr id e0 r He0 Hr0) as (i & t & Hi & ? & ?). exists i, t. split; [|done].
    by apply lookup_app_l_Some.
Qed.

(** The three facts about a moved task. *)
Ltac phase_cases :=
  split; [unfold phase_fits; cbn; try (by eauto)|split; first [by left|idtac]].

(** What a step of a task does to it. *)
Lemma run_lease_step_phase joins t s s' phase :
  phase_fits t -> run_lease_step joins (lt_lease t) (lt_phase t) s = (s', phase) ->
  phase_fits (LeaseTask_move t phase) /\
  (lt_execution (LeaseTask_move t phase) = lt_execution t \/
   exists x, lt_execution t = None /\ phase = TaskPrepare x /\ mark_running (lt_lease t) s = (s', Ok x)) /\
  (lt_outcome (LeaseTask_move t phase) = lt_outcome t \/
   exists o x, lt_outcome t = None /\ phase = TaskCollect o /\ lt_execution t = Some x /\
     ran x (lt_lease t) o).
Proof using Type.
  intros Hp Hr. unfold phase_fits in Hp.
  destruct (lt_phase t) as [|x|rq|o|r|e c| |] eqn:Ep; cbn in Hr.
  - destruct Hp as [Hx Ho]. destruct (mark_running (lt_lease t) s) as [s1 [x|e]] eqn:E; simplify_eq; phase_cases.
    right. by exists x.
  - destruct Hp as [Hx Ho]. destruct (on_worker_machine _ s) as [s1 [?|?]] eqn:E; simplify_eq; phase_cases.
  - destruct Hp as [(x & Hx & ->) Ho]. destruct joins; cbn in Hr; [|simplify_eq; phase_cases].
    destruct (on_worker_machine _ s) as [s1 [o|?]] eqn:E; simplify_eq; phase_cases.
    right. exists o, x. split_and!; [done|done|done|].
    unfold on_worker_machine in E. destruct (execute _ _ (ws_machine s)) as [m' r'] eqn:Ex. simplify_eq.
    by eexists _, _, _.
  - destruct (on_worker_machine _ s) as [s1 [?|?]] eqn:E; simplify_eq; phase_cases.
  - destruct (complete_result (lt_lease t) r s) as [s1 [?|?]]; simplify_eq; phase_cases.
  - destruct c; simplify_eq; phase_cases.
  - simplify_eq; phase_cases.
  - simplify_eq; phase_cases.
Qed.

Lemma host_inv_task h i t joins s' phase :
  host_inv h -> wh_tasks h !! i = Some t ->
  run_lease_step joins (lt_lease t) (lt_phase t) (wh_service h) = (s', phase) ->
  host_inv (mkWorkerHost s' (<[i := LeaseTask_move t phase]> (wh_tasks h))).
Proof using Type.
  intros [Hb Ht Ho Hr] Hi Hs. destruct (run_lease_step_moves _ _ _ _ _ _ Hs) as (c & Hc & Hm).
  destruct (book_step_ok _ _ _ Hm Hb) as [Hb' Hle]. pose proof (Ht i t Hi) as Hok.
  destruct (run_lease_step_phase _ _ _ _ _ (tk_phase _ _ Hok) Hs) as (Hph & Hex & Hout).
  pose proof (task_ok_le _ _ _ Hle Hok) as Hok'.
  assert (Hlen : i < length (wh_tasks h)) by by eapply lookup_lt_Some.
  assert (Hmove : task_ok (ws_book s') (LeaseTask_move t phase)).
  { constructor; [| |done].
    - intros x Hx. destruct Hex as [Heq|(y & _ & -> & (e & e' & _ & _ & _ & _ & He' & ? & Hst)%mark_running_Ok)].
      + rewrite Heq in Hx. by apply (tk_started _ _ Hok').
      + cbn in *. simplify_eq. exists e'. by rewrite Hst.
    - intros o Ho'. destruct Hout as [Heq|(o' & x & _ & -> & Hx & Hran)].
      + rewrite Heq in Ho'. destruct (tk_outcome _ _ Hok' o Ho') as (x & Hx & Hran). exists x. split; [|done].
        destruct Hex as [->|(y & Hn & _)]; [done|congruence].
      + cbn in *. simplify_eq. by exists x. }
  assert (Hnew : forall j u, <[i := LeaseTask_move t phase]> (wh_tasks h) !! j = Some u ->
            (j = i /\ u = LeaseTask_move t phase) \/ (j <> i /\ wh_tasks h !! j = Some u)).
  { intros j u Hj. destruct (decide (j = i)) as [->|Hne].
    - rewrite list_lookup_insert_eq in Hj by done. left. by simplify_eq.
    - rewrite list_lookup_insert_ne in Hj by done. by right. }
  (* a lease just started had no started task *)
  assert (Hone : forall j u, j <> i -> wh_tasks h !! j = Some u -> is_Some (lt_execution u) ->
            is_Some (lt_execution (LeaseTask_move t phase)) -> lt_lease u = lt_lease t -> False).
  { intros j u Hne Hj Hu Hmv Hl. destruct Hex as [Heq|(x & _ & -> & (e & e' & He & Hq & _)%mark_running_Ok)].
    - rewrite Heq in Hmv. apply Hne. by eapply Ho.
    - destruct Hu as [y Hy]. destruct (tk_started _ _ (Ht j u Hj) y Hy) as (e1 & He1 & _ & Hnq).
      rewrite Hl in He1. by simplify_eq. }
  constructor; cbn.
  - done.
  - intros j u [[-> ->]|[_ Hj]]%Hnew; [done|]. by eapply task_ok_le; eauto.
  - intros j k u v [[-> ->]|[Hj' Hj]]%Hnew [[-> ->]|[Hk' Hk]]%Hnew Hu Hv Hl; [done|..].
    + exfalso. by eapply (Hone k v).
    + exfalso. by eapply (Hone j u).
    + by eapply Ho.
  - intros id e r He Her.
    assert (Hkeep : forall j u o, wh_tasks h !! j = Some u -> lt_outcome u = Some o ->
              exists u', <[i := LeaseTask_move t phase]> (wh_tasks h) !! j = Some u' /\
                         lt_lease u' = lt_lease u /\ lt_outcome u' = Some o).
    { intros j u o Hj Hu. destruct (decide (j = i)) as [->|Hne].
      - simplify_eq. rewrite list_lookup_insert_eq by done. eexists. split; [done|]. split; [done|].
        destruct Hout as [->|(o' & x & Hn & _)]; [done|congruence].
      - rewrite list_lookup_insert_ne by done. by exists u. }
    destruct (book_step_results _ _ _ _ _ _ Hm He Her) as [(e0 & He0 & Hr0)|Hcm].
    + destruct (Hr id e0 r He0 Hr0) as (j & u & Hj & <- & Hu).
      destruct (Hkeep j u _ Hj Hu) as (u' & ? & ? & ?). by exists j, u'.
    + destruct Hc as [->|Hc]; [done|]. rewrite Hcm in Hc. unfold committed in Hc.
      destruct (lt_phase t) eqn:Ep; try done. simplify_eq.
      pose proof (tk_phase _ _ Hok) as Hp. unfold phase_fits in Hp. rewrite Ep in Hp. destruct Hp as [_ Hp].
      destruct (Hkeep i t _ Hi Hp) as (u' & ? & ? & ?). by exists i, u'.
Qed.

(** Every step is a handler's or a task's. *)
Lemma host_step_cases h h' :
  host_step h h' ->
  (service_moves (wh_service h) (wh_service h') /\
   exists more, wh_tasks h' = wh_tasks h ++ more /\ forall t, t ∈ more -> exists id, t = LeaseTask_spawn id) \/
  exists i t joins phase, wh_tasks h !! i = Some t /\
    run_lease_step joins (lt_lease t) (lt_phase t) (wh_service h) = (wh_service h', phase) /\
    wh_tasks h' = <[i := LeaseTask_move t phase]> (wh_tasks h).
Proof using Type.
  assert (Hnone : forall (l : list LeaseTask), exists more, l = l ++ more /\
            forall t, t ∈ more -> exists id, t = LeaseTask_spawn id).
  { intros l. exists []. rewrite app_nil_r. split; [done|]. intros t Ht. by apply elem_of_nil in Ht. }
  intros Hs. destruct Hs as [header h s' r Hr|header body h s' r spawn Hf Hr|header id h s' r Hr
    |header id h s' r Hr|id h s' r Hr|h s' r Hr|i t joins h s' phase Ht Hr|h m']; cbn; [left..|right|left].
  - split; [|done]. replace s' with (describe_worker header (wh_service h)).1 by (by rewrite Hr).
    apply describe_worker_moves.
  - split; [by eapply create_lease_moves|]. eexists. split; [done|]. intros t Ht. destruct spawn as [id|].
    + apply list_elem_of_singleton in Ht as ->. by exists id.
    + by apply elem_of_nil in Ht.
  - split; [|done]. replace s' with (get_lease header id (wh_service h)).1 by (by rewrite Hr).
    apply get_lease_moves.
  - split; [|done]. replace s' with (cancel_lease header id (wh_service h)).1 by (by rewrite Hr).
    apply cancel_lease_moves.
  - split; [|done]. exact (steps_run _ _ _ _ _ (heartbeat_moves id) Hr).
  - split; [|done]. exact (steps_run _ _ _ _ _ begin_draining_moves Hr).
  - by exists i, t, joins, phase.
  - split; [constructor|done].
Qed.

Lemma host_eta h : h = mkWorkerHost (wh_service h) (wh_tasks h).
Proof using Type. by destruct h. Qed.

Lemma host_step_inv h h' : host_step h h' -> host_inv h -> host_inv h'.
Proof using Type.
  intros Hs Hinv. rewrite (host_eta h').
  destruct (host_step_cases _ _ Hs) as [(Hm & more & -> & Hmore)|(i & t & joins & phase & Hi & Hr & ->)].
  - by apply host_inv_handler.
  - by eapply host_inv_task.
Qed.

Lemma host_inv_start m : host_inv (host_start m).
Proof using Type.
  constructor; cbn; try done. constructor; cbn; try done.
  intros a id. split; [done|]. by intros (e & He & _).
Qed.

Lemma host_inv_reachable m h : rtc host_step (host_start m) h -> host_inv h.
Proof using Type.
  assert (Hsteps : forall a b, rtc host_step a b -> host_inv a -> host_inv b)
    by (induction 1; eauto using host_step_inv).
  intros Hr. eapply Hsteps; [exact Hr|apply host_inv_start].
Qed.

Lemma host_step_le h h' : host_inv h -> host_step h h' ->
  book_le (ws_book (wh_service h)) (ws_book (wh_service h')).
Proof using Type.
  intros Hinv Hs. destruct (host_step_cases _ _ Hs) as [(Hm & _)|(i & t & joins & phase & _ & Hr & _)].
  - by destruct (book_step_ok _ _ _ Hm (hi_book _ Hinv)).
  - destruct (run_lease_step_moves _ _ _ _ _ _ Hr) as (c & _ & Hm).
    by destruct (book_step_ok _ _ _ Hm (hi_book _ Hinv)).
Qed.

Lemma host_steps_le h h' : host_inv h -> rtc host_step h h' ->
  host_inv h' /\ book_le (ws_book (wh_service h)) (ws_book (wh_service h')).
Proof using Type.
  intros Hinv Hr. induction Hr as [h|h h1 h' Hs _ IH]; [by split|].
  destruct IH as [? Hle]; [by eapply host_step_inv|]. split; [done|].
  etrans; [by apply host_step_le|exact Hle].
Qed.

(** A result was the outcome of an execution of its lease. *)
Lemma host_result_ran h id e r :
  host_inv h -> lb_leases (ws_book (wh_service h)) !! id = Some e -> le_result e = Some r ->
  ran (le_execution e) id (rer_outcome r).
Proof using Type.
  intros Hinv He Hr. destruct (hi_results _ Hinv id e r He Hr) as (i & t & Hi & <- & Ho).
  destruct (tk_outcome _ _ (hi_tasks _ Hinv i t Hi) _ Ho) as (x & Hx & Hran).
  destruct (tk_started _ _ (hi_tasks _ Hinv i t Hi) x Hx) as (e1 & He1 & <- & _).
  rewrite He in He1. by injection He1 as <-.
Qed.

(** A draining host starts nothing. *)
Definition started_in (h : WorkerHost) (i : nat) (id : string) : Prop :=
  exists t, wh_tasks h !! i = Some t /\ lt_lease t = id /\ is_Some (lt_execution t).

Lemma drained_step h h' i id :
  host_inv h -> lb_draining (ws_book (wh_service h)) = true -> host_step h h' ->
  started_in h' i id -> started_in h i id.
Proof using Type.
  intros Hinv Hd Hs (t' & Hi & <- & Hx).
  destruct (host_step_cases _ _ Hs) as [(_ & more & Heq & Hmore)|(j & t & joins & phase & Hj & Hr & Heq)];
    rewrite Heq in Hi.
  - apply lookup_app_Some in Hi as [Hi|[_ Hi]]; [by exists t'|].
    apply list_elem_of_lookup_2, Hmore in Hi as [id ->]. by destruct Hx.
  - destruct (decide (i = j)) as [->|Hne]; [|rewrite list_lookup_insert_ne in Hi by done; by exists t'].
    rewrite list_lookup_insert_eq in Hi by (by eapply lookup_lt_Some). simplify_eq. exists t. split; [done|].
    split; [done|]. pose proof (tk_phase _ _ (hi_tasks _ Hinv _ _ Hj)) as Hp.
    destruct (run_lease_step_phase _ _ _ _ _ Hp Hr) as (_ & [<-|(x & _ & -> & Hm)] & _); [done|].
    apply mark_running_Ok in Hm as (e & _ & He & Hq & _).
    destruct (wf_drained _ (hi_book _ Hinv) Hd _ _ He) as [? _]; [by rewrite Hq|congruence].
Qed.

(** ** Executable runs *)
Definition post_lease (header : option string) (request : LeaseCreateRequest) (h : WorkerHost) : WorkerHost :=
  let '(s', (_, spawn)) := create_lease header (Ok request) (wh_service h) in
  mkWorkerHost s' (wh_tasks h ++ match spawn with Some id => [LeaseTask_spawn id] | None => [] end).

Definition run_task (i : nat) (h : WorkerHost) : WorkerHost :=
  match wh_tasks h !! i with
  | None => h
  | Some t =>
      let '(s', phase) := run_lease_step true (lt_lease t) (lt_phase t) (wh_service h) in
      mkWorkerHost s' (<[i := LeaseTask_move t phase]> (wh_tasks h))
  end.

Definition drain (h : WorkerHost) : WorkerHost := mkWorkerHost (begin_draining (wh_service h)).1 (wh_tasks h).

Lemma post_lease_reaches header request h :
  lease_ids_fresh (wh_service h) -> rtc host_step h (post_lease header request h).
Proof using Type.
  intros Hf. unfold post_lease.
  destruct (create_lease header (Ok request) (wh_service h)) as [s' [r spawn]] eqn:E.
  apply rtc_once. by eapply host_create.
Qed.

Lemma run_task_reaches i h : rtc host_step h (run_task i h).
Proof using Type.
  unfold run_task. destruct (wh_tasks h !! i) as [t|] eqn:Hi; [|done].
  destruct (run_lease_step true (lt_lease t) (lt_phase t) (wh_service h)) as [s' phase] eqn:E.
  apply rtc_once. by eapply host_task.
Qed.

Lemma drain_reaches h : rtc host_step h (drain h).
Proof using Type.
  unfold drain. destruct (begin_draining (wh_service h)) as [s' r] eqn:E. apply rtc_once. by eapply host_drain.
Qed.
End host.

(** ** What a worker guarantees *)
Section theorems.
Context `{Environment, UuidLib, DirectoryOrder} {backend : Executor} (inner : WorkerInner).

(** (C28) An attempt is executed at most once, in every interleaving of
    requests, replays, cancellations, drains and lease tasks: of all the tasks
    spawned for the leases of one attempt, at most one is ever given the
    execution. *)
Theorem attempt_runs_once m h i j t u e f :
  rtc (host_step inner) (host_start m) h ->
  wh_tasks h !! i = Some t -> wh_tasks h !! j = Some u ->
  is_Some (lt_execution t) -> is_Some (lt_execution u) ->
  lb_leases (ws_book (wh_service h)) !! lt_lease t = Some e ->
  lb_leases (ws_book (wh_service h)) !! lt_lease u = Some f ->
  le_attempt_id e = le_attempt_id f -> i = j.
Proof.
  intros Hinv%host_inv_reachable Ht Hu Hxt Hxu He Hf Ha. pose proof (hi_book _ _ Hinv) as Hb.
  assert (Hi : lb_attempts (ws_book (wh_service h)) !! le_attempt_id e = Some (lt_lease t))
    by (apply (wf_index _ Hb); eauto).
  assert (Hj : lb_attempts (ws_book (wh_service h)) !! le_attempt_id e = Some (lt_lease u))
    by (apply (wf_index _ Hb); eauto).
  eapply (hi_once _ _ Hinv); eauto. congruence.
Qed.

(** (C32) Every book a worker can reach is well formed: the state of a lease
    tells whether it has a result or an error, the index of attempts and the
    leases name each other, and what a draining worker has not ended is
    running under a set token.  From one reachable book to a later one no
    lease and no index entry is lost, and a lease keeps its attempt, execution
    and deadline, never returns to the queue and never leaves the terminal
    states. *)
Theorem worker_book_typed m h h' :
  rtc (host_step inner) (host_start m) h -> rtc (host_step inner) h h' ->
  book_wf (ws_book (wh_service h')) /\ book_le (ws_book (wh_service h)) (ws_book (wh_service h')).
Proof.
  intros Hinv%host_inv_reachable Hsteps. destruct (host_steps_le _ _ _ Hinv Hsteps) as [Hinv' Hle].
  split; [apply Hinv'|exact Hle].
Qed.

(** (C29) A result in the book is the outcome that the executor gave for the
    very request the lease was reserved with, its work directory being the
    lease's own, and its state is Completed or Cancelled as the outcome says.
    No later step of the host changes the result or the state. *)
Theorem lease_result_faithful m h h' id e r :
  rtc (host_step inner) (host_start m) h ->
  lb_leases (ws_book (wh_service h)) !! id = Some e -> le_result e = Some r ->
  rtc (host_step inner) h h' ->
  (exists cancel m1 m2, execute (lease_request inner id (le_execution e)) cancel m1 = (m2, Ok (rer_outcome r))) /\
  le_state e = result_state r /\
  exists e', lb_leases (ws_book (wh_service h')) !! id = Some e' /\ le_result e' = Some r /\
    le_state e' = le_state e /\ le_execution e' = le_execution e.
Proof.
  intros Hinv%host_inv_reachable He Hr Hsteps. split; [|split].
  - exact (host_result_ran _ _ _ _ _ Hinv He Hr).
  - by apply (wf_entries _ (hi_book _ _ Hinv) id e He).
  - destruct (host_steps_le _ _ _ Hinv Hsteps) as [_ Hle]. destruct (bl_entries _ _ Hle id e He) as (e' & He' & Hel).
    destruct (el_result _ _ Hel r Hr) as (? & ? & _). exists e'. split_and!; [done|done|done|apply Hel].
Qed.

(** A draining worker stays so, takes no new lease and starts no
    process: every task that holds an execution later held it already.  What
    was running has been told to stop, and nothing is left in the queue. *)
Theorem drain_starts_nothing m h h' i t :
  rtc (host_step inner) (host_start m) h ->
  lb_draining (ws_book (wh_service h)) = true ->
  rtc (host_step inner) h h' ->
  lb_draining (ws_book (wh_service h')) = true /\
  (forall id e, lb_leases (ws_book (wh_service h')) !! id = Some e ->
     is_Some (lb_leases (ws_book (wh_service h)) !! id) /\
     (LeaseState_is_terminal (le_state e) = true \/
      le_state e = LeaseRunning /\ is_cancelled (le_cancel e) = true)) /\
  (wh_tasks h' !! i = Some t -> is_Some (lt_execution t) ->
     exists t0, wh_tasks h !! i = Some t0 /\ lt_lease t0 = lt_lease t /\ is_Some (lt_execution t0)).
Proof.
  intros Hinv%host_inv_reachable Hd Hsteps.
  destruct (host_steps_le _ _ _ Hinv Hsteps) as [Hinv' Hle]. pose proof (bl_draining _ _ Hle Hd) as Hd'.
  split_and!; [done| |].
  - intros id e He. split; [by eapply (bl_closed _ _ Hle)|].
    destruct (LeaseState_is_terminal (le_state e)) eqn:Et; [by left|right].
    by apply (wf_drained _ (hi_book _ _ Hinv') Hd' id e He).
  - intros Hi Hx. assert (Hst : started_in h' i (lt_lease t)) by (by exists t). clear Hi Hx Hd' Hle Hinv'.
    revert Hst. induction Hsteps as [h|h h1 h' Hs _ IH]; [done|]. intros Hst.
    apply (drained_step inner h h1); [done|done|done|]. apply IH; [by eapply host_step_inv| |done].
    by apply (bl_draining _ _ (host_step_le _ _ _ Hinv Hs)).
Qed.

(** A replayed reservation is idempotent for as long as the worker lives:
    after any later steps the same request gets the same lease and deadline
    and changes nothing, draining or not, and the attempt's id with any other
    execution is a conflict that changes nothing.  The index never drifts from
    the leases. *)
Theorem reservation_replays m h h' request s r :
  rtc (host_step inner) (host_start m) h -> lease_ids_fresh (wh_service h) ->
  reserve_lease inner request (wh_service h) = (s, Ok r) ->
  rtc (host_step inner) (mkWorkerHost s (wh_tasks h)) h' ->
  let s' := wh_service h' in
  (exists r', reserve_lease inner request s' = (s', Ok r') /\
     lcp_lease_id r' = lcp_lease_id r /\ lcp_expires_at_ms r' = lcp_expires_at_ms r) /\
  (forall other, check_request inner other = Ok tt -> lcr_attempt_id other = lcr_attempt_id request ->
     lcr_execution other <> lcr_execution request ->
     exists text, reserve_lease inner other s' = (s', Err (ReserveConflict text))).
Proof.
  intros Hinv%host_inv_reachable Hf Hres Hsteps s'.
  pose proof (reserve_lease_moves inner request _ Hf) as Hm. rewrite Hres in Hm. cbn in Hm.
  assert (Hinv1 : host_inv inner (mkWorkerHost s (wh_tasks h))).
  { pose proof (host_inv_handler inner h s [] Hinv Hm) as Hi. rewrite app_nil_r in Hi. apply Hi.
    intros t Ht. by apply elem_of_nil in Ht. }
  destruct (host_steps_le _ _ _ Hinv1 Hsteps) as [_ Hle]. cbn in Hle.
  destruct (reserve_lease_Ok _ _ _ _ _ (hi_book _ _ Hinv) Hres) as (Hck & id & e & Ha & He & Hx & ->).
  destruct (bl_entries _ _ Hle id e He) as (e' & He' & Hel). pose proof (bl_attempts _ _ Hle _ _ Ha) as Ha'.
  fold s' in He', Ha'. split.
  - exists (create_response inner id e'). split_and!; [|done|apply Hel].
    apply reserve_lease_replay; [done|done|done|]. by rewrite (el_execution _ _ Hel).
  - intros other Hco Hat Hne. apply (reserve_lease_conflict _ _ _ id e'); [done| |done|].
    + by rewrite Hat.
    + rewrite (el_execution _ _ Hel). congruence.
Qed.
End theorems.

(** ** Concrete runs *)
Section witnesses.
#[local] Existing Instance calm_environment.
#[local] Existing Instance toy_uuid.

#[local] Instance listed_order : DirectoryOrder := {| env_order _ l := l |}.

Definition done_outcome : ExecutionOutcome := {|
  eo_exit_code := Some 0%Z; eo_signal := None; eo_timed_out := false; eo_cancelled := false;
  eo_start_error := None; eo_duration_ms := 7; eo_stdout := [111; 107]%N; eo_stdout_truncated := false;
  eo_stderr := []; eo_stderr_truncated := false |}.

Definition obedient_executor : Executor := {|
  backend_id := "process";
  backend_descriptor := default_backend_descriptor "process";
  execute _ _ := mret done_outcome;
  execute_report := default_execute_report "process" (fun _ _ => mret done_outcome) |}.
#[local] Existing Instance obedient_executor.

Definition small_worker : WorkerInner := {|
  wi_worker_id := "worker-a"; wi_token := "secret"; wi_work_root := "/w"; wi_max_payload_bytes := 1000 |}.

Definition small_request : LeaseCreateRequest := {|
  lcr_protocol_version := 1; lcr_attempt_id := "attempt-1";
  lcr_execution := {| rx_program := "/bin/true"; rx_args := []; rx_env := ∅; rx_timeout_ms := 1000;
                      rx_max_capture_bytes_per_stream := 1024; rx_directories := ["inputs"%string];
                      rx_files := [{| rf_path := "inputs/data"; rf_bytes := [1; 2]%N |}] |} |}.

Definition worker_up : WorkerHost := host_start (mkMachine ∅ 0).

Definition post (h : WorkerHost) : WorkerHost := post_lease small_worker (Some "Bearer secret"%string) small_request h.
Definition go (i : nat) (h : WorkerHost) : WorkerHost := run_task small_worker i h.

(** One lease, executed to its end. *)
Definition posted : WorkerHost := post worker_up.
Definition finished : WorkerHost := go 0 (go 0 (go 0 (go 0 (go 0 (go 0 posted))))).

(** The same request again while the lease is still queued: a second task is
    spawned, which finds the lease running and fails it. *)
Definition replayed : WorkerHost := post posted.
Definition failed_running : WorkerHost := go 1 (go 1 (go 0 replayed)).
Definition revived : WorkerHost := go 0 (go 0 (go 0 (go 0 failed_running))).

Definition lease_states (h : WorkerHost) : list LeaseState := le_state <$> map_values (lb_leases (ws_book (wh_service h))).

Lemma fresh_after_ids (h : WorkerHost) (ids : list N) :
  elements (dom (lb_leases (ws_book (wh_service h)))) = (fun n => uuid_hyphenated n) <$> ids ->
  Forall (fun n => (n < mc_tick (ws_machine (wh_service h)))%N) ids -> lease_ids_fresh (wh_service h).
Proof.
  intros Hdom Hlt t Ht. apply not_elem_of_dom. rewrite <- elem_of_elements, Hdom.
  intros (n & Heq & Hn)%list_elem_of_fmap. rewrite Forall_forall in Hlt. specialize (Hlt n Hn).
  cbn in Heq. apply (inj pretty) in Heq. lia.
Qed.

Lemma posted_reachable : rtc (host_step small_worker) worker_up posted.
Proof. apply post_lease_reaches. intros t _. apply lookup_empty. Qed.

Lemma posted_fresh : lease_ids_fresh (wh_service posted).
Proof. apply (fresh_after_ids posted [0%N]); [by vm_compute|by repeat constructor]. Qed.

Lemma finished_reachable : rtc (host_step small_worker) posted finished.
Proof. unfold finished, go. by repeat (etrans; [|apply run_task_reaches]). Qed.

Example finished_state : lease_states finished = [LeaseCompleted].
Proof. by vm_compute. Qed.

Lemma failed_running_reachable : rtc (host_step small_worker) worker_up failed_running.
Proof.
  etrans; [exact posted_reachable|].
  etrans; [exact (post_lease_reaches small_worker (Some "Bearer secret"%string) small_request posted posted_fresh)|].
  unfold failed_running, go. by repeat (etrans; [|apply run_task_reaches]).
Qed.

(** A terminal lease is not always final: a replay that arrives while its
    lease is queued makes the worker report Failed while the process runs,
    and Completed afterwards. *)
Theorem replay_fails_running_lease :
  rtc (host_step small_worker) worker_up failed_running /\ lease_states failed_running = [LeaseFailed] /\
  (lt_phase <$> head (wh_tasks failed_running) = Some (TaskPrepare (lcr_execution small_request))) /\
  rtc (host_step small_worker) failed_running revived /\ lease_states revived = [LeaseCompleted].
Proof.
  split; [|split; [by vm_compute|split; [by vm_compute|split; [|by vm_compute]]]].
  - exact failed_running_reachable.
  - unfold revived, go. by do 4 (etrans; [|apply run_task_reaches]).
Qed.

(** The lease of the examples. *)
Definition lease_0 : string := uuid_hyphenated 0.

Lemma worker_book_typed_witness :
  rtc (host_step small_worker) worker_up posted /\ rtc (host_step small_worker) posted finished /\
  book_wf (ws_book (wh_service finished)).
Proof.
  split; [exact posted_reachable|]. split; [exact finished_reachable|].
  exact (proj1 (worker_book_typed small_worker (mkMachine ∅ 0) posted finished posted_reachable finished_reachable)).
Defined.

Example small_worker_made : (WorkerService_new "worker-a" "secret" "/w" 1000 (mkMachine ∅ 0)).2 = Ok small_worker.
Proof. by vm_compute. Qed.

Lemma attempt_runs_once_witness :
  exists t u, wh_tasks failed_running !! 0 = Some t /\ is_Some (lt_execution t) /\
    wh_tasks failed_running !! 1 = Some u /\ lt_lease u = lt_lease t /\ (is_Some (lt_execution u) -> 0 = 1).
Proof.
  destruct (wh_tasks failed_running) as [|t [|u l]] eqn:Hl; [by vm_compute in Hl..|].
  exists t, u. assert (Ht : wh_tasks failed_running !! 0 = Some t) by by rewrite Hl.
  assert (Hu : wh_tasks failed_running !! 1 = Some u) by by rewrite Hl.
  assert (Hx : is_Some (lt_execution t)) by (vm_compute in Hl; injection Hl as <- _ _; by eexists).
  assert (He : lt_lease u = lt_lease t) by (vm_compute in Hl; by injection Hl as <- <- _).
  split; [done|]. split; [done|]. split; [done|]. split; [done|]. intros Hxu.
  destruct (lb_leases (ws_book (wh_service failed_running)) !! lt_lease t) as [e|] eqn:Hle.
  - apply (attempt_runs_once small_worker _ failed_running 0 1 t u e e failed_running_reachable Ht Hu Hx Hxu Hle);
      [by rewrite He|done].
  - assert (Hn : lt_lease t = lease_0) by (vm_compute in Hl; by injection Hl as <- _ _).
    rewrite Hn in Hle. by vm_compute in Hle.
Defined.

Lemma lease_result_faithful_witness :
  exists e r, lb_leases (ws_book (wh_service finished)) !! lease_0 = Some e /\ le_result e = Some r /\
    le_state e = LeaseCompleted /\ rer_files r = [{| rf_path := "inputs/data"; rf_bytes := [1; 2]%N |}] /\
    exists e', lb_leases (ws_book (wh_service (drain finished))) !! lease_0 = Some e' /\ le_result e' = Some r.
Proof.
  destruct (lb_leases (ws_book (wh_service finished)) !! lease_0) as [e|] eqn:He; [|by vm_compute in He].
  destruct (le_result e) as [r|] eqn:Hr; [|by vm_compute in He; injection He as <-].
  exists e, r. split; [reflexivity|]. split; [exact Hr|].
  assert (Hst : result_state r = LeaseCompleted /\
                rer_files r = [{| rf_path := "inputs/data"; rf_bytes := [1; 2]%N |}])
    by (vm_compute in He; injection He as <-; injection Hr as <-; done).
  assert (Hf : rtc (host_step small_worker) worker_up finished)
    by (etrans; [exact posted_reachable|exact finished_reachable]).
  destruct (lease_result_faithful small_worker _ finished (drain finished) lease_0 e r Hf He Hr
              (drain_reaches small_worker finished)) as (_ & Hs & e' & He' & Hr' & _).
  destruct Hst as [Hst Hfiles]. split; [by rewrite Hs|]. split; [exact Hfiles|].
  exists e'. split; [exact He'|exact Hr'].
Defined.

Lemma drain_starts_nothing_witness :
  lease_states (drain posted) = [LeaseCancelled] /\
  (forall t, wh_tasks (go 0 (drain posted)) !! 0 = Some t -> is_Some (lt_execution t) ->
     exists t0, wh_tasks (drain posted) !! 0 = Some t0 /\ is_Some (lt_execution t0)).
Proof.
  split; [by vm_compute|]. intros t Ht Hx.
  assert (Hr : rtc (host_step small_worker) worker_up (drain posted))
    by (etrans; [exact posted_reachable|apply drain_reaches]).
  destruct (drain_starts_nothing small_worker _ (drain posted) (go 0 (drain posted)) 0 t Hr
              (eq_refl : lb_draining (ws_book (wh_service (drain posted))) = true)
              (run_task_reaches small_worker 0 (drain posted))) as (_ & _ & Hs).
  destruct (Hs Ht Hx) as (t0 & ? & _ & ?). by exists t0.
Defined.

(** Reserved, then executed to the end and replayed. *)
Lemma reservation_replays_witness :
  exists r r', (reserve_lease small_worker small_request (wh_service worker_up)).2 = Ok r /\
    lcp_lease_id r = lease_0 /\
    let h' := go 0 (mkWorkerHost (reserve_lease small_worker small_request (wh_service worker_up)).1 []) in
    reserve_lease small_worker small_request (wh_service h') = (wh_service h', Ok r') /\
    lcp_lease_id r' = lease_0.
Proof.
  destruct (reserve_lease small_worker small_request (wh_service worker_up)) as [s res] eqn:E.
  destruct res as [r|e]; [|by vm_compute in E].
  assert (Hid : lcp_lease_id r = lease_0) by (vm_compute in E; injection E as _ <-; done).
  destruct (reservation_replays small_worker (mkMachine ∅ 0) worker_up
              (go 0 (mkWorkerHost s [])) small_request s r
              (rtc_refl _ _) (fun t _ => lookup_empty _) E (run_task_reaches small_worker 0 (mkWorkerHost s [])))
    as ((r' & Hr' & Hid' & _) & _).
  exists r, r'. split; [done|]. split; [done|]. split; [exact Hr'|]. by rewrite Hid'.
Defined.
End witnesses.
