(* ===== verification/Remote.v ===== *)
(** * The remote executor ([hub-executor/src/remote.rs])

    The Hub's end of the lease protocol: it checks the worker's descriptor,
    transports the work directory, reserves one lease and polls it until it
    is terminal, lost, expired or cancelled.  The HTTP client is a parameter;
    the state is the Hub's machine and whatever is on the other side of the
    network. *)

From Stdlib Require Import Ascii.
From stdpp Require Import base gmap strings list.
From S2P Require Import Prelude Text Core Digest Machine Exec Distributed Transport Capacity.

Definition DEFAULT_POLL_MS : N := 100.
Definition DEFAULT_LOST_AFTER_MS : N := 3000.
Definition DEFAULT_MAX_PAYLOAD_BYTES : N := 64 * 1024 * 1024.

(** [ureq::Error], its response body read. *)
Inductive UreqError :=
| UreqStatus (status : N) (body : string)
| UreqTransport (reason : string).

(** [ureq] and [serde_json]: one request with its [Authorization] header, and
    the decoding of a response's body. *)
Class HttpClient (Net : Type) := {
  HttpResponse : Type;
  http_get : string -> string -> action Net UreqError HttpResponse;
  http_post : string -> string -> option LeaseCreateRequest -> action Net UreqError HttpResponse;
  json_descriptor : HttpResponse -> result string WorkerDescriptor;
  json_lease : HttpResponse -> result string LeaseCreateResponse;
  json_status : HttpResponse -> result string LeaseStatusResponse;
}.

(** [Instant::now()], in nanoseconds. *)
Class Stopwatch := { env_instant : N -> N }.

Record RemoteExecutor := mkRemoteExecutor {
  rm_endpoint : string;
  rm_token : string;
  rm_backend_id : string;
  rm_poll_interval_ms : N;
  rm_lost_after_ms : N;
  rm_max_payload_bytes : N;
  rm_expected_worker_id : option string;
}.

Fixpoint trim_start_byte (a : ascii) (l : list ascii) : list ascii :=
  match l with b :: l' => if decide (a = b) then trim_start_byte a l' else l | [] => [] end.

(** [s.trim_end_matches(c)]. *)
Definition trim_end_matches (a : ascii) (s : string) : string :=
  String.string_of_list_ascii (reverse (trim_start_byte a (reverse (String.list_ascii_of_string s)))).

Definition RemoteExecutor_new (endpoint token : string) : result string RemoteExecutor :=
  let endpoint := trim_end_matches slash endpoint in
  _ ← ensure (starts_with "http://" endpoint || starts_with "https://" endpoint)
        "remote worker URL must start with http:// or https://"%string;
  _ ← ensure (negb (bool_decide (token = ""%string))) "remote worker bearer token must not be empty"%string;
  Ok {| rm_endpoint := endpoint;
        rm_token := token;
        rm_backend_id := String.append "remote:" endpoint;
        rm_poll_interval_ms := DEFAULT_POLL_MS;
        rm_lost_after_ms := DEFAULT_LOST_AFTER_MS;
        rm_max_payload_bytes := DEFAULT_MAX_PAYLOAD_BYTES;
        rm_expected_worker_id := None |}.

Definition RemoteExecutor_with_max_payload_bytes (value : N) (self : RemoteExecutor) : RemoteExecutor :=
  mkRemoteExecutor (rm_endpoint self) (rm_token self) (rm_backend_id self) (rm_poll_interval_ms self)
    (rm_lost_after_ms self) (N.max value 1) (rm_expected_worker_id self).

Definition RemoteExecutor_with_expected_worker_id (id : string) (self : RemoteExecutor) : RemoteExecutor :=
  mkRemoteExecutor (rm_endpoint self) (rm_token self) (rm_backend_id self) (rm_poll_interval_ms self)
    (rm_lost_after_ms self) (rm_max_payload_bytes self) (Some id).

Inductive RemoteCallError :=
| CallAuthorization
| CallStatus (status : N) (body : string)
| CallTransport (reason : string)
| CallDecode (reason : string).

Definition classify_ureq (e : UreqError) : RemoteCallError :=
  match e with
  | UreqStatus status body =>
      if (status =? 401)%N || (status =? 403)%N then CallAuthorization else CallStatus status body
  | UreqTransport reason => CallTransport reason
  end.

(** Outcomes the executor makes up: no process is behind them. *)
Definition synthetic_outcome (cancelled : bool) (start_error : option string) (duration_ms : N)
    : ExecutionOutcome := {|
  eo_exit_code := None; eo_signal := None; eo_timed_out := false; eo_cancelled := cancelled;
  eo_start_error := start_error; eo_duration_ms := duration_ms; eo_stdout := []; eo_stdout_truncated := false;
  eo_stderr := []; eo_stderr_truncated := false |}.

Section remote.
Context `{Environment, UuidLib, DirectoryOrder, Stopwatch} {Net : Type} `{!HttpClient Net}.

(** What the executor acts on: the Hub's machine and the network. *)
Record RemoteWorld := mkRemoteWorld {
  rw_machine : Machine;
  rw_net : Net;
}.

Abbreviation remote E A := (action RemoteWorld E A).

Definition on_local {E A} (m : action Machine E A) : remote E A := fun w =>
  let '(mc, r) := m (rw_machine w) in (mkRemoteWorld mc (rw_net w), r).

Definition on_net {E A} (m : action Net E A) : remote E A := fun w =>
  let '(net, r) := m (rw_net w) in (mkRemoteWorld (tick (rw_machine w)) net, r).

Definition instant {E} : remote E N :=
  on_local (fun m => (tick m, Ok (env_instant (mc_tick m)))).

(** [elapsed_ms(started)]. *)
Definition elapsed_ms {E} (started : N) : remote E N :=
  now ← instant; mret (millis_u64 (now - started) u64_max).

(** ** Calls *)
Definition authorized (self : RemoteExecutor) : string := String.append "Bearer " (rm_token self).

Definition url (self : RemoteExecutor) (path : string) : string := String.append (rm_endpoint self) path.

Definition decode_response {T} (decode : HttpResponse -> result string T)
    (call : action Net UreqError HttpResponse) : remote RemoteCallError T :=
  response ← on_net (rethrow classify_ureq call);
  lift (map_err CallDecode (decode response)).

Definition get_json {T} (self : RemoteExecutor) (decode : HttpResponse -> result string T) (path : string)
    : remote RemoteCallError T :=
  decode_response decode (http_get (url self path) (authorized self)).

Definition post_json {T} (self : RemoteExecutor) (decode : HttpResponse -> result string T) (path : string)
    (body : LeaseCreateRequest) : remote RemoteCallError T :=
  decode_response decode (http_post (url self path) (authorized self) (Some body)).

Definition post_empty (self : RemoteExecutor) (path : string) : remote RemoteCallError unit :=
  _ ← on_net (rethrow classify_ureq (http_post (url self path) (authorized self) None)); mret tt.

Definition describe (self : RemoteExecutor) : remote RemoteCallError WorkerDescriptor :=
  get_json self json_descriptor "/v1/worker".

(** ** Eligibility *)
Definition identity_empty (d : WorkerDescriptor) : bool :=
  bool_decide (trim_chars (chars (wd_worker_id d)) = []).

Definition has_capability (d : WorkerDescriptor) : bool :=
  existsb (fun capability => bool_decide (capability = PROCESS_EXECUTION_CAPABILITY)) (wd_capabilities d).

(** [usize::try_from(..)] is the identity on 64-bit targets. *)
Definition payload_fits (self : RemoteExecutor) (d : WorkerDescriptor) : bool :=
  negb (wd_max_payload_bytes d <? rm_max_payload_bytes self)%N.

Definition discover_eligible (self : RemoteExecutor) : remote string WorkerDescriptor :=
  descriptor ← rethrow (fun error => match error with
                                     | CallAuthorization => "authorization refused"%string
                                     | _ => "unavailable: {other}"%string
                                     end) (describe self);
  _ ← lift (ensure (negb (identity_empty descriptor)) "worker identity is empty"%string);
  _ ← lift (ensure (wd_protocol_version descriptor =? WORKER_PROTOCOL_VERSION)%N
        "protocol {} unsupported; expected {}"%string);
  _ ← lift (ensure (has_capability descriptor) "worker {} lacks capability {}"%string);
  _ ← lift (ensure (payload_fits self descriptor)
        "worker payload limit {} is below configured client limit {}"%string);
  mret descriptor.

(** ** The transported request *)
Definition build_remote_request (self : RemoteExecutor) (request : ExecutionRequest)
    : action Machine string RemoteExecutionRequest :=
  _ ← (fun m => (m, ensure (is_dir (mc_nodes m) (rq_working_dir request))
                      "local execution workdir {:?} does not exist"%string));
  directories ← collect_directories (rq_working_dir request);
  files ← collect_files (rq_working_dir request) (rm_max_payload_bytes self);
  mret {| rx_program := rq_program request;
          rx_args := (fun value => encode_workdir_path value (rq_working_dir request)) <$> rq_args request;
          rx_env := (fun value => encode_workdir_path value (rq_working_dir request)) <$> rq_env request;
          rx_timeout_ms := rq_timeout_ms request;
          rx_max_capture_bytes_per_stream := rq_max_capture_bytes_per_stream request;
          rx_directories := directories;
          rx_files := files |}.

(** ** The lease

    [execute] up to the accepted lease; an error is the reason of a
    [remote_failure]. *)
Record LeaseSession := mkLeaseSession {
  ls_descriptor : WorkerDescriptor;
  ls_attempt_id : string;
  ls_lease : LeaseCreateResponse;
}.

Definition open_lease (self : RemoteExecutor) (request : ExecutionRequest) : remote string LeaseSession :=
  descriptor ← rethrow (fun error => match error with
                                     | CallAuthorization => "remote worker authorization refused"%string
                                     | _ => "remote worker unavailable: {error}"%string
                                     end) (describe self);
  _ ← lift (ensure (negb (identity_empty descriptor)) "remote worker identity is empty"%string);
  _ ← lift (ensure (match rm_expected_worker_id self with
                    | Some expected => bool_decide (wd_worker_id descriptor = expected)
                    | None => true
                    end) "remote worker identity changed before lease dispatch: expected {:?}, found {:?}"%string);
  _ ← lift (ensure (wd_protocol_version descriptor =? WORKER_PROTOCOL_VERSION)%N
        "remote worker protocol {} unsupported; expected {}"%string);
  _ ← lift (ensure (has_capability descriptor) "remote worker {} lacks capability {}"%string);
  _ ← lift (ensure (payload_fits self descriptor)
        "remote worker payload limit {} is below configured client limit {}"%string);
  execution ← on_local (build_remote_request self request);
  fresh ← on_local new_v4;
  let attempt_id := uuid_hyphenated fresh in
  lease ← rethrow (fun error => match error with
                                | CallAuthorization => "remote worker authorization refused"%string
                                | _ => "remote worker could not create lease: {error}"%string
                                end)
            (post_json self json_lease "/v1/leases"
               {| lcr_protocol_version := WORKER_PROTOCOL_VERSION;
                  lcr_attempt_id := attempt_id;
                  lcr_execution := execution |});
  _ ← lift (ensure (bool_decide (lcp_attempt_id lease = attempt_id) &&
                    bool_decide (lcp_worker_id lease = wd_worker_id descriptor))
        "remote worker returned mismatched lease identity"%string);
  mret (mkLeaseSession descriptor attempt_id lease).

(** How one turn of the polling loop ends. *)
Inductive PollTurn :=
| PollCancelled
| PollAgain (last_contact : N)
| PollDone (outcome : ExecutionOutcome).

Definition lease_path (session : LeaseSession) : string :=
  String.append "/v1/leases/" (lcp_lease_id (ls_lease session)).

(** The checks on a status and what its state means. *)
Definition status_turn (self : RemoteExecutor) (request : ExecutionRequest) (session : LeaseSession)
    (contact : N) (status : LeaseStatusResponse) : remote string PollTurn :=
  _ ← lift (ensure (bool_decide (lsr_lease_id status = lcp_lease_id (ls_lease session)) &&
                    bool_decide (lsr_attempt_id status = ls_attempt_id session) &&
                    bool_decide (lsr_worker_id status = wd_worker_id (ls_descriptor session)))
        "remote worker returned mismatched status identity"%string);
  now ← on_local now_ms;
  _ ← lift (ensure (negb ((rm_lost_after_ms self <? saturating_sub_u64 now (lsr_last_heartbeat_ms status))%N &&
                          negb (LeaseState_is_terminal (lsr_state status))))
        "remote worker heartbeat became stale"%string);
  match lsr_state status with
  | LeaseQueued | LeaseRunning => mret (PollAgain contact)
  | LeaseCompleted | LeaseCancelled =>
      r ← lift (ok_or (lsr_result status) "remote terminal lease omitted execution result"%string);
      _ ← on_local (materialize_result_files (rm_max_payload_bytes self) (rq_working_dir request) (rer_files r));
      mret (PollDone (rer_outcome r))
  | LeaseFailed => throw (default "remote worker lease failed"%string (lsr_error status))
  end.

(** One turn of the loop; [cancelled] tells whether the token is set at a
    tick of the Hub's machine. *)
Definition poll_turn (self : RemoteExecutor) (cancelled : N -> bool) (request : ExecutionRequest)
    (session : LeaseSession) (last_contact : N) : remote string PollTurn :=
  stop ← reads (fun w => Ok (cancelled (mc_tick (rw_machine w))));
  if stop : bool then
    _ ← ignore (post_empty self (String.append (lease_path session) "/cancel"));
    mret PollCancelled
  else
    now ← on_local now_ms;
    _ ← lift (ensure (negb (lcp_expires_at_ms (ls_lease session) <? now)%N) "remote execution lease expired"%string);
    answer ← attempt (get_json self json_status (lease_path session));
    match answer with
    | Ok status =>
        contact ← instant;
        status_turn self request session contact status
    | Err CallAuthorization => throw "remote worker authorization refused"%string
    | Err _ =>
        now ← instant;
        if (now - last_contact <? from_millis (rm_lost_after_ms self))%N then mret (PollAgain last_contact)
        else throw "remote worker lost while lease was active: {error}"%string
    end.

(** The loop, each turn followed by [sleep]; [None] when [fuel] turns were not
    enough. *)
Fixpoint poll_loop (fuel : nat) (self : RemoteExecutor) (cancelled : N -> bool) (request : ExecutionRequest)
    (session : LeaseSession) (last_contact : N) : remote string (option PollTurn) :=
  match fuel with
  | O => mret None
  | S fuel =>
      turn ← poll_turn self cancelled request session last_contact;
      match turn with
      | PollAgain last_contact =>
          _ ← on_local (fun m => (tick m, Ok tt));
          poll_loop fuel self cancelled request session last_contact
      | _ => mret (Some turn)
      end
  end.

(** [execute]: whatever goes wrong becomes the start error of an outcome. *)
Definition RemoteExecutor_execute (fuel : nat) (self : RemoteExecutor) (cancelled : N -> bool)
    (request : ExecutionRequest) : remote ExecutorFailure (option ExecutionOutcome) :=
  started ← instant;
  stop ← reads (fun w => Ok (cancelled (mc_tick (rw_machine w))));
  if stop : bool then
    duration ← elapsed_ms started; mret (Some (synthetic_outcome true None duration))
  else
    turn ← attempt (session ← open_lease self request;
                    last_contact ← instant;
                    poll_loop fuel self cancelled request session last_contact);
    match turn with
    | Err reason => duration ← elapsed_ms started; mret (Some (synthetic_outcome false (Some reason) duration))
    | Ok (Some (PollDone outcome)) => mret (Some outcome)
    | Ok (Some _) => duration ← elapsed_ms started; mret (Some (synthetic_outcome true None duration))
    | Ok None => mret None
    end.

Definition remote_backend_id (self : RemoteExecutor) (worker_id : string) : string :=
  String.append "remote:" (String.append worker_id (String.append "@" (rm_endpoint self))).

Definition RemoteExecutor_execute_report (fuel : nat) (self : RemoteExecutor) (cancelled : N -> bool)
    (request : ExecutionRequest) : remote ExecutorFailure (option ExecutionReport) :=
  found ← attempt (discover_eligible self);
  match found with
  | Err _ =>
      outcome ← RemoteExecutor_execute fuel self cancelled request;
      mret ((fun o => {| er_outcome := o; er_backend_id := rm_backend_id self |}) <$> outcome)
  | Ok descriptor =>
      let worker_id := wd_worker_id descriptor in
      outcome ← RemoteExecutor_execute fuel (RemoteExecutor_with_expected_worker_id worker_id self) cancelled request;
      mret ((fun o => {| er_outcome := o; er_backend_id := remote_backend_id self worker_id |}) <$> outcome)
  end.

(** ** What the calls establish *)
Lemma get_json_Ok {T} self (decode : HttpResponse -> result string T) path w w' v :
  get_json self decode path w = (w', Ok v) ->
  exists resp, http_get (url self path) (authorized self) (rw_net w) = (rw_net w', Ok resp) /\ decode resp = Ok v.
Proof using Type.
  unfold get_json, decode_response. intros Hr. act_inv. unfold on_net in Hr0.
  destruct (rethrow _ _ _) as [net res] eqn:E. injection Hr0 as <- ->. act_inv. by exists r.
Qed.

Lemma post_json_Ok {T} self (decode : HttpResponse -> result string T) path body w w' v :
  post_json self decode path body w = (w', Ok v) ->
  exists resp, http_post (url self path) (authorized self) (Some body) (rw_net w) = (rw_net w', Ok resp) /\
    decode resp = Ok v.
Proof using Type.
  unfold post_json, decode_response. intros Hr. act_inv. unfold on_net in Hr0.
  destruct (rethrow _ _ _) as [net res] eqn:E. injection Hr0 as <- ->. act_inv. by exists r.
Qed.

Lemma on_local_Ok {E A} (m : action Machine E A) w w' a :
  on_local m w = (w', Ok a) -> m (rw_machine w) = (rw_machine w', Ok a) /\ rw_net w' = rw_net w.
Proof using Type. unfold on_local. destruct (m (rw_machine w)) as [mc r]. by intros [= <- ->]. Qed.

(** An accepted lease: the descriptor was eligible and what was posted is the
    request built from the Hub's work directory, under a fresh attempt. *)
Definition eligible_for (self : RemoteExecutor) (d : WorkerDescriptor) : Prop :=
  identity_empty d = false /\ wd_protocol_version d = WORKER_PROTOCOL_VERSION /\
  has_capability d = true /\ payload_fits self d = true /\
  (forall expected, rm_expected_worker_id self = Some expected -> wd_worker_id d = expected).

Lemma open_lease_Ok self request w w' session :
  open_lease self request w = (w', Ok session) ->
  eligible_for self (ls_descriptor session) /\
  lcp_attempt_id (ls_lease session) = ls_attempt_id session /\
  lcp_worker_id (ls_lease session) = wd_worker_id (ls_descriptor session) /\
  exists execution m m' net resp,
    build_remote_request self request m = (m', Ok execution) /\
    http_post (url self "/v1/leases") (authorized self)
      (Some {| lcr_protocol_version := WORKER_PROTOCOL_VERSION; lcr_attempt_id := ls_attempt_id session;
               lcr_execution := execution |}) net = (rw_net w', Ok resp) /\
    json_lease resp = Ok (ls_lease session) /\
    exists w1, describe self w = (w1, Ok (ls_descriptor session)) /\ net = rw_net w1.
Proof using Type.
  unfold open_lease. intros Hr. act_inv. cbn in *.
  repeat match goal with Hx : on_local _ _ = (_, Ok _) |- _ => apply on_local_Ok in Hx as [? Hx] end.
  match goal with Hx : post_json _ _ _ _ _ = _ |- _ => apply post_json_Ok in Hx as (resp & Hp & Hj) end.
  match goal with Hx : _ && _ = true |- _ => apply andb_true_iff in Hx as [Ha Hw] end. bool_inv.
  split; [|split; [done|split; [done|]]].
  - split_and!; try done. intros expected He. rewrite He in *. by bool_inv.
  - eexists _, _, _, _, _. split; [done|]. split; [exact Hp|]. split; [done|].
    eexists. split; [done|].
    match goal with Hx : (mkRemoteWorld _ _, _) = _ |- _ => injection Hx as <- _ end. done.
Qed.

Lemma status_turn_Done self request session contact status w w' o :
  status_turn self request session contact status w = (w', Ok (PollDone o)) ->
  lsr_lease_id status = lcp_lease_id (ls_lease session) /\
  lsr_attempt_id status = ls_attempt_id session /\
  lsr_worker_id status = wd_worker_id (ls_descriptor session) /\
  (lsr_state status = LeaseCompleted \/ lsr_state status = LeaseCancelled) /\
  exists r m, lsr_result status = Some r /\ o = rer_outcome r /\
    materialize_result_files (rm_max_payload_bytes self) (rq_working_dir request) (rer_files r) m =
      (rw_machine w', Ok tt) /\ rw_net w' = rw_net w.
Proof using Type.
  unfold status_turn. intros Hr. act_inv.
  match goal with Hx : _ && _ = true |- _ => apply andb_true_iff in Hx as [[Ha Hw]%andb_true_iff Hi] end. bool_inv.
  do 3 (split; [done|]).
  repeat match goal with Hx : on_local _ _ = (_, Ok _) |- _ => apply on_local_Ok in Hx as [? Hx] end.
  destruct (lsr_state status) eqn:Es; act_inv; (split; [by auto|]);
    repeat match goal with Hx : on_local _ _ = (_, Ok _) |- _ => apply on_local_Ok in Hx as [? Hx] end;
    try discriminate Hr; injection Hr as <-;
    (eexists _, _; split; [done|]; split; [done|]; split; [eassumption|]; congruence).
Qed.

Lemma status_turn_local self request session contact status w :
  rw_net (status_turn self request session contact status w).1 = rw_net w.
Proof using Type.
  assert (Hloc : forall E A (m : action Machine E A), steps (fun w w' => rw_net w' = rw_net w) (on_local m)).
  { intros E A m w0. unfold on_local. by destruct (m (rw_machine w0)). }
  assert (PreOrder (fun w w' : RemoteWorld => rw_net w' = rw_net w)) by (split; [done|intros ? ? ?; congruence]).
  change ((fun w w' => rw_net w' = rw_net w) w (status_turn self request session contact status w).1).
  generalize w. change (steps (fun w w' => rw_net w' = rw_net w) (status_turn self request session contact status)).
  unfold status_turn. solve_steps; auto with steps.
Qed.

Lemma poll_turn_Done self cancelled request session last_contact w w' o :
  poll_turn self cancelled request session last_contact w = (w', Ok (PollDone o)) ->
  exists resp status r m,
    http_get (url self (lease_path session)) (authorized self) (rw_net w) = (rw_net w', Ok resp) /\
    json_status resp = Ok status /\
    lsr_lease_id status = lcp_lease_id (ls_lease session) /\
    lsr_attempt_id status = ls_attempt_id session /\
    lsr_worker_id status = wd_worker_id (ls_descriptor session) /\
    (lsr_state status = LeaseCompleted \/ lsr_state status = LeaseCancelled) /\
    lsr_result status = Some r /\ o = rer_outcome r /\
    materialize_result_files (rm_max_payload_bytes self) (rq_working_dir request) (rer_files r) m =
      (rw_machine w', Ok tt).
Proof using Type.
  unfold poll_turn. intros Hr. act_inv. destruct (cancelled _); [act_inv; discriminate|]. act_inv.
  unfold attempt in Hr2. destruct (get_json self json_status (lease_path session) s) as [s3 res] eqn:Eg.
  injection Hr2 as -> ->. apply on_local_Ok in Hr0 as [_ Hn0]. destruct r1 as [status|e].
  - apply get_json_Ok in Eg as (resp & Hg & Hj). apply action_bind_Ok in Hr as (s0 & r0 & Hi & Hr).
    unfold instant in Hi. apply on_local_Ok in Hi as [_ Hn2].
    apply status_turn_Done in Hr as (? & ? & ? & ? & r' & m & ? & ? & Hm & Hn).
    exists resp, status, r', m. split; [|by auto 10]. rewrite Hn, Hn2, <- Hn0. exact Hg.
  - destruct e; act_inv;
      match type of Hr with context [if ?b then _ else _] => destruct b end; act_inv; discriminate Hr.
Qed.

(** ** The loop on the network

    Whatever the calls do to the network is along [R]. *)
Section along.
Context (R : relation Net) `{!PreOrder R}.
Context (Hget : forall u a, steps R (http_get u a)) (Hpost : forall u a b, steps R (http_post u a b)).

Definition net_along (w w' : RemoteWorld) : Prop := R (rw_net w) (rw_net w').

#[local] Instance net_along_preorder : PreOrder net_along.
Proof using Type*. split; [intros w; unfold net_along; reflexivity|intros a b c; unfold net_along; by etrans]. Qed.

Lemma along_on_local {E A} (m : action Machine E A) : steps net_along (on_local m).
Proof using Type*. intros w. unfold on_local, net_along. destruct (m (rw_machine w)); cbn. reflexivity. Qed.

Lemma along_on_net {E A} (m : action Net E A) : steps R m -> steps net_along (on_net m).
Proof using Type. intros Hm w. specialize (Hm (rw_net w)). unfold on_net, net_along. by destruct (m (rw_net w)). Qed.

#[local] Hint Resolve net_along_preorder along_on_local along_on_net : steps.

Lemma along_get_json {T} self (decode : HttpResponse -> result string T) path :
  steps net_along (get_json self decode path).
Proof using Type*. unfold get_json, decode_response. solve_steps. Qed.

Lemma along_post_json {T} self (decode : HttpResponse -> result string T) path body :
  steps net_along (post_json self decode path body).
Proof using Type*. unfold post_json, decode_response. solve_steps. Qed.

Lemma along_post_empty self path : steps net_along (post_empty self path).
Proof using Type*. unfold post_empty. solve_steps. Qed.

Lemma along_instant {E} : steps net_along (instant : action _ E _).
Proof using Type*. apply along_on_local. Qed.

#[local] Hint Resolve along_get_json along_post_json along_post_empty along_instant : steps.

Lemma along_poll_turn self cancelled request session last_contact :
  steps net_along (poll_turn self cancelled request session last_contact).
Proof using Type*.
  unfold poll_turn, status_turn. solve_steps.
Qed.

(** The turn that ended the loop. *)
Lemma poll_loop_Some fuel self cancelled request session last_contact w w' turn :
  poll_loop fuel self cancelled request session last_contact w = (w', Ok (Some turn)) ->
  (forall c, turn <> PollAgain c) /\
  exists w1 c, net_along w w1 /\ poll_turn self cancelled request session c w1 = (w', Ok turn).
Proof using Type*.
  revert w last_contact. induction fuel as [|fuel IH]; intros w last_contact; cbn [poll_loop].
  - intros Hr. act_inv. discriminate.
  - intros (w1 & t & Ht & Hr)%action_bind_Ok.
    pose proof (steps_run _ _ _ _ _ (along_poll_turn self cancelled request session last_contact) Ht) as Hal.
    destruct t as [|c|o].
    + act_inv. injection Hr as <-. split; [done|]. exists w, last_contact. split; [reflexivity|done].
    + apply action_bind_Ok in Hr as (w2 & [] & Hl & Hr). apply on_local_Ok in Hl as [_ Hn].
      destruct (IH w2 c Hr) as (Hne & w3 & c3 & Hal3 & Hp). split; [done|]. exists w3, c3. split; [|done].
      unfold net_along in *. rewrite Hn in Hal3. by etrans.
    + act_inv. injection Hr as <-. split; [done|]. exists w, last_contact. split; [reflexivity|done].
Qed.

(** What an outcome that [execute] returns is: made up, or the result of its
    own lease. *)
Lemma remote_execute_outcome fuel self cancelled request w w' o :
  RemoteExecutor_execute fuel self cancelled request w = (w', Ok (Some o)) ->
  (exists duration, o = synthetic_outcome true None duration) \/
  (exists reason duration, o = synthetic_outcome false (Some reason) duration) \/
  exists session wo w1 w2 w3 c,
    rw_net wo = rw_net w /\ open_lease self request wo = (w1, Ok session) /\ net_along w1 w2 /\
    poll_turn self cancelled request session c w2 = (w3, Ok (PollDone o)).
Proof using Type*.
  unfold RemoteExecutor_execute. intros (s & started & Hi & Hr)%action_bind_Ok.
  unfold instant in Hi. apply on_local_Ok in Hi as [_ Hs]. act_inv. destruct (cancelled _).
  { act_inv. injection Hr as <-. left. eauto. }
  act_inv. unfold attempt in Hr0.
  destruct ((session ← open_lease self request; _) s) as [s1 res] eqn:E. injection Hr0 as <- <-.
  destruct res as [[[|c|o']|]|reason]; cbn beta iota in Hr.
  3: { apply mret_Ok in Hr as [_ Hr]. injection Hr as <-.
       apply action_bind_Ok in E as (w1 & session & Ho & E). apply action_bind_Ok in E as (w2 & c & Hi & E).
       pose proof (steps_run _ _ _ _ _ along_instant Hi) as Hal.
       destruct (poll_loop_Some _ _ _ _ _ _ _ _ _ E) as (_ & w3 & c' & Hal' & Hp).
       right. right. exists session, s, w1, w3, s1, c'. split; [done|]. split; [done|]. split; [|done]. by etrans. }
  all: clear E; act_inv; try discriminate Hr; injection Hr as <-; eauto.
Qed.
End along.

(** ** Termination *)
Definition world_tick (w : RemoteWorld) : N := mc_tick (rw_machine w).

Lemma instant_run {E} w w' n :
  (instant : remote E N) w = (w', Ok n) -> world_tick w' = (world_tick w + 1)%N.
Proof using Type. unfold instant, on_local. cbn. by intros [= <- _]. Qed.

Lemma get_json_tick {T} self (decode : HttpResponse -> result string T) path w :
  world_tick (get_json self decode path w).1 = (world_tick w + 1)%N.
Proof using Type.
  unfold get_json, decode_response, mbind, action_bind, on_net.
  destruct (rethrow _ _ (rw_net w)) as [net [r|e]]; done.
Qed.

(** A turn that goes on has seen the lease not expired and the token not
    cancelled, and time pass. *)
Lemma poll_turn_Again self cancelled request session last_contact w w' c :
  poll_turn self cancelled request session last_contact w = (w', Ok (PollAgain c)) ->
  (clock_ms (world_tick w) <= lcp_expires_at_ms (ls_lease session))%N /\ cancelled (world_tick w) = false /\
  (world_tick w <= world_tick w')%N.
Proof using Type.
  unfold poll_turn. intros Hr. act_inv. destruct (cancelled _) eqn:Ec; [act_inv; discriminate Hr|].
  apply action_bind_Ok in Hr as (w1 & now & Hnow & Hr). unfold on_local, now_ms in Hnow. cbn in Hnow.
  injection Hnow as <- <-. apply action_bind_Ok in Hr as (w2 & [] & Hex & Hr).
  apply lift_Ok in Hex as [-> Hex]. apply ensure_Ok in Hex. bool_inv.
  split; [exact Hex|]. split; [done|]. apply action_bind_Ok in Hr as (w3 & answer & Ha & Hr).
  assert (H3 : world_tick w3 = (world_tick w + 1 + 1)%N).
  { unfold attempt in Ha. destruct (get_json _ _ _ _) as [w4 res] eqn:Eg. injection Ha as <- <-.
    change w4 with ((w4, res).1). rewrite <- Eg, get_json_tick. done. }
  destruct answer as [status|e].
  - apply action_bind_Ok in Hr as (w4 & c4 & Hi & Hr). apply instant_run in Hi.
    unfold status_turn in Hr. apply action_bind_Ok in Hr as (w5 & [] & Hl & Hr).
    apply lift_Ok in Hl as [-> _]. apply action_bind_Ok in Hr as (w6 & now6 & H6 & Hr).
    unfold on_local, now_ms in H6. cbn in H6. injection H6 as <- _.
    apply action_bind_Ok in Hr as (w7 & [] & H7 & Hr). apply lift_Ok in H7 as [-> _].
    destruct (lsr_state status); act_inv; try discriminate Hr; cbn; unfold world_tick in *; cbn; lia.
  - assert (Hx : exists w4 n, (instant : remote string N) w3 = (w4, Ok n) /\ w' = w4).
    { destruct e; [act_inv|..]; apply action_bind_Ok in Hr as (w4 & n & Hi & Hr); exists w4, n; (split; [done|]);
        match type of Hr with context [if ?b then _ else _] => destruct b end; by act_inv. }
    destruct Hx as (w4 & n & Hi & ->). apply instant_run in Hi. lia.
Qed.

(** From [t0] on the session is over for the client: its lease has expired or
    its token is cancelled. *)
Definition over_from (t0 : N) (cancelled : N -> bool) (session : LeaseSession) : Prop :=
  forall t, (t0 <= t)%N -> (lcp_expires_at_ms (ls_lease session) < clock_ms t)%N \/ cancelled t = true.

Lemma over_turn t0 self cancelled request session last_contact w w' c :
  over_from t0 cancelled session ->
  poll_turn self cancelled request session last_contact w = (w', Ok (PollAgain c)) -> (world_tick w < t0)%N.
Proof using Type.
  intros Hover (Hle & Hc & _)%poll_turn_Again. destruct (decide (world_tick w < t0)%N) as [|Hge]; [done|].
  destruct (Hover (world_tick w)) as [Hlt|Ht]; [lia|lia|congruence].
Qed.

Lemma poll_loop_enough t0 self cancelled request session k last_contact w :
  over_from t0 cancelled session -> (t0 <= world_tick w + N.of_nat k)%N ->
  (poll_loop (S k) self cancelled request session last_contact w).2 <> Ok None.
Proof using Type.
  intros Hover. revert w last_contact. induction k as [|k IH]; intros w last_contact Hk; cbn [poll_loop];
    unfold mbind at 1, action_bind at 1;
    destruct (poll_turn self cancelled request session last_contact w) as [w1 [[|c|o]|e]] eqn:Et; try done.
  - apply (over_turn t0) in Et; [lia|done].
  - apply poll_turn_Again in Et as (_ & _ & Ht). cbn [mbind action_bind on_local].
    apply IH. unfold world_tick in *. cbn. lia.
Qed.

(** Any outcome stamped with the elapsed time. *)
Lemma timed_total {A} (f : N -> A) (started : N) w :
  exists w' a, (duration ← elapsed_ms started; mret (f duration) : remote ExecutorFailure A) w = (w', Ok a) /\
    exists d, a = f d.
Proof using Type. unfold elapsed_ms, instant, on_local. cbn. eauto. Qed.

(** The session that [execute] opens from here is over at some time, if it
    opens one. *)
Definition session_ends (self : RemoteExecutor) (cancelled : N -> bool) (request : ExecutionRequest)
    (w : RemoteWorld) : Prop :=
  forall w1 session, open_lease self request w = (w1, Ok session) -> exists t0, over_from t0 cancelled session.

Lemma session_terminates self cancelled request w :
  session_ends self cancelled request w ->
  exists fuel, ((session ← open_lease self request;
                 last_contact ← instant;
                 poll_loop fuel self cancelled request session last_contact) w).2 <> Ok None.
Proof using Type.
  intros Hends. unfold mbind at 1, action_bind at 1.
  destruct (open_lease self request w) as [w1 [session|reason]] eqn:Eo; [|by exists 0].
  destruct (Hends _ _ Eo) as [t0 Hover]. exists (S (N.to_nat t0)).
  unfold mbind, action_bind, instant, on_local. cbn [fst snd]. apply (poll_loop_enough t0); [done|lia].
Qed.

(** (C31) The remote executor answers, whatever the network does, if the
    session it opens is over at some time: from some instant on, the token is
    cancelled or the Hub's clock, a [u64], has passed the expiry that the
    worker gave to the lease.  Then finitely many turns of the polling loop are
    enough, however the requests fail or answer before, and the answer is an
    outcome, never an error; if no session is opened, nothing is asked of the
    clock.  The condition is needed: the loop has no deadline of its own
    ([RemoteWorker.remote_polls_for_ever]). *)
Theorem remote_execute_terminates self cancelled request w :
  session_ends self cancelled request (instant (E := ExecutorFailure) w).1 ->
  exists fuel w' o, RemoteExecutor_execute fuel self cancelled request w = (w', Ok (Some o)).
Proof using Type.
  intros Hends. unfold RemoteExecutor_execute.
  set (w0 := (instant (E := ExecutorFailure) w).1). set (started := env_instant (world_tick w)).
  assert (Ei : instant (E := ExecutorFailure) w = (w0, Ok started)) by done. fold w0 in Hends.
  destruct (session_terminates self cancelled request w0 Hends) as [fuel Hf]. exists fuel.
  unfold mbind at 1, action_bind at 1. rewrite Ei. unfold mbind at 1, action_bind at 1. cbn [reads].
  clearbody w0 started. destruct (cancelled _).
  { destruct (timed_total (fun d => Some (synthetic_outcome true None d)) started w0) as (w' & a & Hw & d & ->). eauto. }
  unfold mbind at 1, action_bind at 1, attempt.
  destruct ((session ← open_lease self request; _) w0) as [w3 [[[|c'|o]|]|reason]]; [..|].
  - destruct (timed_total (fun d => Some (synthetic_outcome true None d)) started w3) as (w' & a & Hw & d & ->). eauto.
  - destruct (timed_total (fun d => Some (synthetic_outcome true None d)) started w3) as (w' & a & Hw & d & ->). eauto.
  - cbn. eauto.
  - by destruct Hf.
  - destruct (timed_total (fun d => Some (synthetic_outcome false (Some reason) d)) started w3) as (w' & a & Hw & d & ->).
    eauto.
Qed.
End remote.
