(* ===== verification/RemoteWorker.v ===== *)
(** * The Hub and a worker together ([hub-executor/src/remote.rs], [worker.rs])

    The remote executor of [Remote] on a network whose other end is the
    worker host of [WorkerHost]: requests are routed to the handlers, may be
    lost before or after they were served, and the host takes any steps of its
    own between two requests. *)

From Stdlib Require Import Ascii.
From stdpp Require Import base gmap strings list pretty.
From S2P Require Import Prelude Text Core Digest Machine Blobs Event Exec Distributed Transport Lease.
From S2P Require Import WorkerHost Capacity Remote.

(** ** Routes

    The table of [router]; a lease id is one path segment. *)
Inductive Route :=
| RouteWorker
| RouteLeases
| RouteLease (lease_id : string)
| RouteCancel (lease_id : string)
| RouteUnknown.

Definition route (path : string) : Route :=
  if decide (path = "/v1/worker"%string) then RouteWorker
  else if decide (path = "/v1/leases"%string) then RouteLeases
  else match split_byte slash <$> strip_prefix "/v1/leases/" path with
       | Some [id] => if decide (id = ""%string) then RouteUnknown else RouteLease id
       | Some [id; verb] =>
           if decide (id = ""%string) then RouteUnknown
           else if decide (verb = "cancel"%string) then RouteCancel id else RouteUnknown
       | _ => RouteUnknown
       end.

Section network.
Context `{Environment, UuidLib, DirectoryOrder} {backend : Executor} (inner : WorkerInner).

(** What the host does before a request arrives, and whether the request
    ([Some false]) or its response ([Some true]) is lost. *)
Context (between : WorkerHost -> WorkerHost) (fault : WorkerHost -> option bool) (endpoint : string).

Definition spawned (spawn : option string) : list LeaseTask :=
  match spawn with Some id => [LeaseTask_spawn id] | None => [] end.

Definition serve_get (path header : string) (h : WorkerHost) : WorkerHost * Response :=
  match route path with
  | RouteWorker => let '(s, r) := describe_worker inner (Some header) (wh_service h) in
                   (mkWorkerHost s (wh_tasks h), r)
  | RouteLease id => let '(s, r) := get_lease inner (Some header) id (wh_service h) in
                     (mkWorkerHost s (wh_tasks h), r)
  | RouteLeases | RouteCancel _ => (h, mkResponse 405 EmptyBody)
  | RouteUnknown => (h, mkResponse 404 EmptyBody)
  end.

Definition serve_post (path header : string) (body : option LeaseCreateRequest) (h : WorkerHost)
    : WorkerHost * Response :=
  match route path with
  | RouteLeases =>
      let '(s, (r, spawn)) := create_lease inner (Some header)
        (match body with Some request => Ok request | None => Err "invalid lease body: {error}"%string end)
        (wh_service h) in
      (mkWorkerHost s (wh_tasks h ++ spawned spawn), r)
  | RouteCancel id => let '(s, r) := cancel_lease inner (Some header) id (wh_service h) in
                      (mkWorkerHost s (wh_tasks h), r)
  | RouteWorker | RouteLease _ => (h, mkResponse 405 EmptyBody)
  | RouteUnknown => (h, mkResponse 404 EmptyBody)
  end.

(** The client's view: a status of 400 or more is an error. *)
Definition transmit (serve : string -> WorkerHost -> WorkerHost * Response) (target : string)
    : action WorkerHost UreqError Response := fun h =>
  match strip_prefix endpoint target with
  | None => (h, Err (UreqTransport "no route to host"))
  | Some path =>
      let h := between h in
      match fault h with
      | Some false => (h, Err (UreqTransport "connection refused"))
      | lost =>
          let '(h', r) := serve path h in
          (h', match lost with
               | Some _ => Err (UreqTransport "connection reset")
               | None => if (400 <=? rs_status r)%N
                         then Err (UreqStatus (rs_status r)
                                     match rs_body r with ErrorBody e => e | _ => ""%string end)
                         else Ok r
               end)
      end
  end.

#[local] Instance worker_http : HttpClient WorkerHost := {|
  HttpResponse := Response;
  http_get target header := transmit (fun path => serve_get path header) target;
  http_post target header body := transmit (fun path => serve_post path header body) target;
  json_descriptor r := match rs_body r with DescriptorBody d => Ok d | _ => Err "decoding response: {e}"%string end;
  json_lease r := match rs_body r with LeaseBody l => Ok l | _ => Err "decoding response: {e}"%string end;
  json_status r := match rs_body r with StatusBody s => Ok s | _ => Err "decoding response: {e}"%string end |}.

(** ** The network moves the host along its own steps *)
Context (between_ok : forall h, rtc (host_step inner) h (between h)).
Context (between_fresh : forall h, lease_ids_fresh (wh_service (between h))).

Lemma serve_get_reaches path header h : rtc (host_step inner) h (serve_get path header h).1.
Proof using Type.
  unfold serve_get. destruct (route path) as [| |id|id|]; try done; apply rtc_once.
  - destruct (describe_worker _ _ _) as [s r] eqn:E. by eapply host_describe.
  - destruct (get_lease _ _ _ _) as [s r] eqn:E. by eapply host_get.
Qed.

Lemma serve_post_reaches path header body h :
  lease_ids_fresh (wh_service h) -> rtc (host_step inner) h (serve_post path header body h).1.
Proof using Type.
  intros Hf. unfold serve_post. destruct (route path) as [| |id|id|]; try done.
  - destruct body as [request|].
    + apply rtc_once. destruct (create_lease _ _ _ _) as [s [r spawn]] eqn:E. by eapply host_create.
    + apply rtc_once. destruct (create_lease _ _ _ _) as [s [r spawn]] eqn:E. by eapply host_create.
  - apply rtc_once. destruct (cancel_lease _ _ _ _) as [s r] eqn:E. by eapply host_cancel.
Qed.

Lemma transmit_reaches serve target h :
  (forall path h, lease_ids_fresh (wh_service h) -> rtc (host_step inner) h (serve path h).1) ->
  rtc (host_step inner) h (transmit serve target h).1.
Proof using between_ok between_fresh.
  intros Hs. unfold transmit. destruct (strip_prefix endpoint target) as [path|]; [|done].
  cbv zeta. specialize (Hs path (between h) (between_fresh h)).
  destruct (fault (between h)) as [[|]|]; [|by apply between_ok|];
    destruct (serve path (between h)) as [h' r]; (etrans; [apply between_ok|exact Hs]).
Qed.

Lemma transmit_Ok serve target h h' r :
  transmit serve target h = (h', Ok r) ->
  exists path, strip_prefix endpoint target = Some path /\ serve path (between h) = (h', r) /\
    (rs_status r < 400)%N.
Proof using Type.
  unfold transmit. destruct (strip_prefix endpoint target) as [path|]; [|done]. cbv zeta.
  destruct (fault (between h)) as [[|]|]; [by destruct (serve _ _)|done|].
  destruct (serve path (between h)) as [h1 r1] eqn:E. destruct (N.leb_spec 400 (rs_status r1)); [done|].
  intros [= <- <-]. eauto.
Qed.

Lemma strip_endpoint path : strip_prefix endpoint (String.append endpoint path) = Some path.
Proof using Type. by apply strip_prefix_Some. Qed.

Lemma http_get_along u a : steps (rtc (host_step inner)) (http_get u a).
Proof using between_ok between_fresh.
  intros h. apply transmit_reaches. intros path h' _. apply serve_get_reaches.
Qed.

Lemma http_post_along u a b : steps (rtc (host_step inner)) (http_post u a b).
Proof using between_ok between_fresh.
  intros h. apply transmit_reaches. intros path h' Hf. by apply serve_post_reaches.
Qed.

(** A decoded lease is the reservation of the posted request. *)
Lemma posted_lease header request h h' resp lease :
  http_post (String.append endpoint "/v1/leases") header (Some request) h = (h', Ok resp) ->
  json_lease resp = Ok lease ->
  exists h1 s, rtc (host_step inner) h h1 /\ lease_ids_fresh (wh_service h1) /\
    reserve_lease inner request (wh_service h1) = (s, Ok lease) /\ wh_service h' = s.
Proof using between_ok between_fresh.
  intros (path & Hpath & Hserve & _)%transmit_Ok Hj. rewrite strip_endpoint in Hpath. injection Hpath as <-.
  exists (between h). unfold serve_post in Hserve. cbn in Hserve. unfold create_lease in Hserve.
  destruct (negb (authorize inner (Some header))); [by injection Hserve as <- <-|].
  destruct (reserve_lease inner request (wh_service (between h))) as [s [l|e]] eqn:E.
  - injection Hserve as <- <-. cbn in Hj. injection Hj as <-. eauto.
  - injection Hserve as <- <-. by destruct e.
Qed.

(** A decoded status is that of the lease on the path. *)
Lemma polled_status header id h h' resp status :
  http_get (String.append endpoint (String.append "/v1/leases/" id)) header h = (h', Ok resp) ->
  json_status resp = Ok status -> lsr_lease_id status = id ->
  exists h1 e, rtc (host_step inner) h h1 /\ lb_leases (ws_book (wh_service h1)) !! id = Some e /\
    lsr_result status = le_result e /\ lsr_attempt_id status = le_attempt_id e /\ lsr_state status = le_state e.
Proof using between_ok between_fresh.
  intros (path & Hpath & Hserve & _)%transmit_Ok Hj Hid. rewrite strip_endpoint in Hpath. injection Hpath as <-.
  exists (between h). unfold serve_get in Hserve.
  destruct (route _) as [| |i|i|]; try (by injection Hserve as <- <-).
  - unfold describe_worker, is_draining, mbind, action_bind, book, reads in Hserve. cbn in Hserve.
    destruct (authorize inner (Some header)); cbn in Hserve; [destruct (lb_draining _)|]; by injection Hserve as <- <-.
  - unfold get_lease, lease_status, mbind, action_bind, book, reads in Hserve. cbn in Hserve.
    destruct (authorize inner (Some header)); cbn in Hserve; [|by injection Hserve as <- <-].
    destruct (lb_leases (ws_book (wh_service (between h))) !! i) as [e|] eqn:He; cbn in Hserve;
      injection Hserve as <- <-; [|done].
    cbn in Hj. injection Hj as <-. cbn in *. subst i. exists e. eauto.
Qed.
End network.

(** ** End to end *)
Section end_to_end.
Context (hub_env worker_env : Environment) `{UuidLib, Stopwatch} (hub_order worker_order : DirectoryOrder).
Context {backend : Executor} (inner : WorkerInner).
Context (between : WorkerHost -> WorkerHost) (fault : WorkerHost -> option bool).

Abbreviation network endpoint := (worker_http (H := worker_env) inner between fault endpoint).
Abbreviation steps_of := (host_step (H := worker_env) (H1 := worker_order) inner).
Abbreviation execute_remotely fuel self cancelled request :=
  (RemoteExecutor_execute (H := hub_env) (H1 := hub_order) (HttpClient0 := network (rm_endpoint self))
     fuel self cancelled request).

(** (C27) What the Hub is told about a remote run is what happened.  In every
    interleaving of the worker with its other clients, with any loss of
    requests and responses, an outcome that the remote executor returns and
    did not make up itself -- as cancelled, or as a start error -- is the
    outcome the worker's executor gave for the Hub's own request: the one
    built from the run's work directory, its paths moved to the lease's. *)
Theorem remote_execution_end_to_end m fuel self cancelled request (w w' : RemoteWorld (Net := WorkerHost)) o :
  (forall h, rtc steps_of h (between h)) ->
  (forall h, lease_ids_fresh (H := worker_env) (wh_service (between h))) ->
  rtc steps_of (host_start m) (rw_net w) ->
  execute_remotely fuel self cancelled request w = (w', Ok (Some o)) ->
  (exists duration, o = synthetic_outcome true None duration) \/
  (exists reason duration, o = synthetic_outcome false (Some reason) duration) \/
  exists execution lease_id cancel m1 m2 m3 m4,
    build_remote_request (H := hub_env) (H1 := hub_order) self request m1 = (m2, Ok execution) /\
    execute (lease_request inner lease_id execution) cancel m3 = (m4, Ok o).
Proof.
  intros Hok Hfresh Hreach Hex.
  pose proof (http_get_along (H := worker_env) (H1 := worker_order) inner between fault (rm_endpoint self) Hok Hfresh) as Hga.
  pose proof (http_post_along (H := worker_env) (H1 := worker_order) inner between fault (rm_endpoint self) Hok Hfresh) as Hpa.
  destruct (remote_execute_outcome (H := hub_env) (H1 := hub_order) (HttpClient0 := network (rm_endpoint self))
              (rtc steps_of) Hga Hpa _ _ _ _ _ _ _ Hex) as [Hc|[Hf|Hdone]]; [by left|by right; left|right; right].
  destruct Hdone as (session & wo & w1 & w2 & w3 & c & Hwo & Hopen & Halong & Hpoll).
  apply open_lease_Ok in Hopen as (_ & _ & _ & execution & m1 & m2 & net & resp & Hbuild & Hpost & Hjson & wd & Hd & ->).
  apply poll_turn_Done in Hpoll as (resp' & status & r & mm & Hget & Hjson' & Hid & Hat & _ & Hst & Hr & -> & _).
  pose proof (steps_run _ _ _ _ _ (along_get_json (HttpClient0 := network (rm_endpoint self)) (rtc steps_of)
                Hga Hpa self _ _) Hd) as Hd'.
  unfold net_along in *. rewrite Hwo in Hd'.
  destruct (posted_lease (H := worker_env) (H1 := worker_order) inner between fault (rm_endpoint self) Hok Hfresh
              _ _ _ _ _ _ Hpost Hjson) as (h1 & s & Hr1 & Hf1 & Hres & Hs).
  destruct (polled_status (H := worker_env) (H1 := worker_order) inner between fault (rm_endpoint self) Hok Hfresh
              _ _ _ _ _ _ Hget Hjson' Hid) as (h2 & e & Hr2 & He & Hre & Hae & Hse).
  pose proof (steps_run _ _ _ _ _ (Hpa _ _ _) Hpost) as Hp1.
  assert (Hinv1 : host_inv inner h1)
    by (apply (host_inv_reachable _ m); by do 2 (etrans; [eassumption|])).
  assert (Hinvw : host_inv inner (rw_net w1))
    by (apply (host_inv_reachable _ m); by do 2 (etrans; [eassumption|])).
  destruct (host_steps_le _ (rw_net w1) h2 Hinvw ltac:(etrans; [exact Halong|exact Hr2])) as [Hinv2 Hle].
  destruct (reserve_lease_Ok _ _ _ _ _ (hi_book _ _ Hinv1) Hres) as (_ & id & e0 & _ & He0 & Hx0 & Hl).
  rewrite <- Hs in He0. destruct (bl_entries _ _ Hle id e0 He0) as (e1 & He1 & Hel).
  rewrite Hl in He. cbn in He. rewrite He1 in He. injection He as ->. rewrite Hre in Hr.
  destruct (host_result_ran _ _ _ _ _ Hinv2 He1 Hr) as (cancel & m3 & m4 & Hran).
  rewrite (el_execution _ _ Hel), Hx0 in Hran. cbn in Hran.
  exists execution, id, cancel, m1, m2, m3, m4. by split.
Qed.
End end_to_end.

(** ** A concrete run *)
Section witnesses.
#[local] Existing Instance calm_environment.
#[local] Existing Instance plain_uuid.
#[local] Existing Instance listed_order.
#[local] Existing Instance obedient_executor.

#[local] Instance tick_stopwatch : Stopwatch := {| env_instant t := t |}.

(** The worker's task runs to its end between two requests, and time passes
    beyond every UUID drawn. *)
Definition longest_id (h : WorkerHost) : N :=
  foldr N.max 0%N (slen <$> map_keys (lb_leases (ws_book (wh_service h)))).

Definition pass_time (h : WorkerHost) : WorkerHost :=
  mkWorkerHost {| ws_book := ws_book (wh_service h);
                  ws_machine := mkMachine (mc_nodes (ws_machine (wh_service h))) (longest_id h + 1) |} (wh_tasks h).

Definition working (h : WorkerHost) : WorkerHost :=
  pass_time (run_task small_worker 0 (run_task small_worker 0 h)).

Definition hub_machine : Machine := mkMachine
  (<["/hub" := FDirectory]> (<["/hub/run" := FDirectory]> (<["/hub/run/in.txt" := FRegular [1; 2; 3]%N]> ∅))) 0.

Definition hub_request : ExecutionRequest := {|
  rq_program := "/bin/tool"; rq_args := ["--input"; "/hub/run/in.txt"]%string; rq_working_dir := "/hub/run";
  rq_env := ∅; rq_timeout_ms := 1000; rq_max_capture_bytes_per_stream := 1024 |}.

Definition hub_remote : RemoteExecutor :=
  RemoteExecutor_with_max_payload_bytes 1000
    match RemoteExecutor_new "http://worker-a:8488/" "secret" with
    | Ok r => r
    | Err _ => mkRemoteExecutor "" "" "" 0 0 0 None
    end.

Definition remote_start : RemoteWorld := mkRemoteWorld hub_machine (host_start (mkMachine ∅ 0)).

Abbreviation demo_run := (RemoteExecutor_execute
  (HttpClient0 := worker_http small_worker working (fun _ => None) (rm_endpoint hub_remote))
  10 hub_remote (fun _ => false) hub_request remote_start).

Lemma slen_tally n : slen (tally n) = N.of_nat n.
Proof. induction n as [|n IH]; [done|]. cbn [tally]. rewrite slen_cons, IH. lia. Qed.

Lemma longest_id_le h id e : lb_leases (ws_book (wh_service h)) !! id = Some e -> (slen id <= longest_id h)%N.
Proof.
  intros He. unfold longest_id.
  assert (Hin : id ∈ map_keys (lb_leases (ws_book (wh_service h)))) by (apply elem_of_map_keys, elem_of_dom; by eexists).
  revert Hin. generalize (map_keys (lb_leases (ws_book (wh_service h)))) as ks.
  induction ks as [|k ks IH]; [by intros ?%elem_of_nil|]. cbn. intros [->|Hk]%elem_of_cons; [lia|].
  specialize (IH Hk). lia.
Qed.

Lemma working_fresh h : lease_ids_fresh (wh_service (working h)).
Proof.
  unfold working. generalize (run_task small_worker 0 (run_task small_worker 0 h)) as h'. clear h. intros h t Ht.
  destruct (lb_leases (ws_book (wh_service (pass_time h))) !! uuid_hyphenated (env_uuid t)) as [e|] eqn:E; [|done].
  exfalso. cbn in E, Ht. apply (longest_id_le h) in E. rewrite slen_tally in E. lia.
Qed.

Lemma working_reaches h : rtc (host_step small_worker) h (working h).
Proof.
  unfold working. etrans; [apply run_task_reaches|]. etrans; [apply run_task_reaches|].
  apply rtc_once. unfold pass_time. constructor.
Qed.

Lemma demo_result : demo_run.2 = Ok (Some done_outcome).
Proof. by vm_compute. Qed.

Lemma remote_execution_end_to_end_witness :
  demo_run.2 = Ok (Some done_outcome) /\
  exists execution lease_id cancel m1 m2 m3 m4,
    build_remote_request hub_remote hub_request m1 = (m2, Ok execution) /\
    execute (lease_request small_worker lease_id execution) cancel m3 = (m4, Ok done_outcome).
Proof.
  split; [exact demo_result|].
  destruct (remote_execution_end_to_end calm_environment calm_environment listed_order listed_order small_worker
              working (fun _ => None) (mkMachine ∅ 0) 10 hub_remote (fun _ => false) hub_request remote_start
              demo_run.1 done_outcome working_reaches working_fresh (rtc_refl _ _)
              (pair_snd_eq _ _ demo_result)) as [[d Hd]|[(reason & d & Hd)|Hrun]];
    [discriminate Hd|discriminate Hd|exact Hrun].
Defined.

(** The same client on a network that is silent once the worker holds the
    lease: the clock passes the expiry of the session that was opened. *)
Abbreviation silent_network := (worker_http small_worker working
  (fun h => if bool_decide (lb_leases (ws_book (wh_service h)) = ∅) then None else Some true) (rm_endpoint hub_remote)).

Abbreviation silent_session := (open_lease (HttpClient0 := silent_network) hub_remote hub_request
  (instant (E := ExecutorFailure) remote_start).1).

Lemma silent_session_opened :
  exists w1 session, silent_session = (w1, Ok session) /\ (lcp_expires_at_ms (ls_lease session) <? u64_max)%N = true.
Proof.
  assert (Hopen : match silent_session.2 with
                  | Ok session => (lcp_expires_at_ms (ls_lease session) <? u64_max)%N
                  | Err _ => false
                  end = true) by (vm_compute; reflexivity).
  destruct silent_session as [w1 [session|e]]; [|discriminate Hopen]. by exists w1, session.
Qed.

Lemma remote_execute_terminates_witness :
  (exists w1 session, silent_session = (w1, Ok session)) /\
  exists fuel w' o,
    RemoteExecutor_execute (HttpClient0 := silent_network) fuel hub_remote (fun _ => false) hub_request remote_start =
      (w', Ok (Some o)).
Proof.
  destruct silent_session_opened as (w1 & session & Ho & Hx%N.ltb_lt). split; [by exists w1, session|].
  apply (remote_execute_terminates (HttpClient0 := silent_network)). intros w2 session2 Ho2. rewrite Ho in Ho2.
  injection Ho2 as _ <-. exists (lcp_expires_at_ms (ls_lease session) + 1)%N. intros t Ht. left.
  unfold clock_ms. cbn [env_now calm_environment]. lia.
Defined.

(** ** A worker that never ends

    A worker that gives its lease the expiry [u64::MAX] and always answers
    that it runs, with a heartbeat that is never stale, keeps the client in
    its polling loop: after any number of turns there is no answer. *)
#[local] Instance stuck_worker : HttpClient string := {|
  HttpResponse := string;
  http_get _ _ := fun attempt => (attempt, Ok attempt);
  http_post _ _ body := fun attempt =>
    let attempt := match body with Some r => lcr_attempt_id r | None => attempt end in (attempt, Ok attempt);
  json_descriptor _ := Ok {| wd_protocol_version := WORKER_PROTOCOL_VERSION; wd_worker_id := "stuck";
                             wd_capabilities := [PROCESS_EXECUTION_CAPABILITY]; wd_max_payload_bytes := u64_max;
                             wd_heartbeat_interval_ms := 1000 |};
  json_lease attempt := Ok {| lcp_lease_id := "lease"; lcp_attempt_id := attempt; lcp_worker_id := "stuck";
                              lcp_state := LeaseQueued; lcp_expires_at_ms := u64_max |};
  json_status attempt := Ok {| lsr_lease_id := "lease"; lsr_attempt_id := attempt; lsr_worker_id := "stuck";
                               lsr_state := LeaseRunning; lsr_last_heartbeat_ms := u64_max;
                               lsr_expires_at_ms := u64_max; lsr_result := None; lsr_error := None |} |}.

Lemma stuck_turn self request session c m a :
  ls_attempt_id session = a -> lcp_lease_id (ls_lease session) = "lease"%string ->
  lcp_expires_at_ms (ls_lease session) = u64_max -> wd_worker_id (ls_descriptor session) = "stuck"%string ->
  exists m' c', poll_turn self (fun _ => false) request session c (mkRemoteWorld m a) =
    (mkRemoteWorld m' a, Ok (PollAgain c')).
Proof.
  intros Ha Hl Hx Hw.
  assert (Hlate : forall t, (u64_max <? clock_ms t)%N = false) by (intros t; apply N.ltb_ge; unfold clock_ms; lia).
  assert (Hstale : forall t, (rm_lost_after_ms self <? saturating_sub_u64 (clock_ms t) u64_max)%N = false)
    by (intros t; apply N.ltb_ge; unfold saturating_sub_u64, clock_ms; lia).
  unfold poll_turn, status_turn, get_json, decode_response, attempt, instant, now_ms, on_local, on_net, rethrow, lift,
    reads, mbind, action_bind. cbn [fst snd rw_machine rw_net mc_tick tick]. rewrite Hx, Hlate. cbn.
  rewrite Ha, Hl, Hw, !bool_decide_true by done. cbn. rewrite Hstale. cbn. by eexists _, _.
Qed.

Lemma stuck_loop fuel self request session c m a :
  ls_attempt_id session = a -> lcp_lease_id (ls_lease session) = "lease"%string ->
  lcp_expires_at_ms (ls_lease session) = u64_max -> wd_worker_id (ls_descriptor session) = "stuck"%string ->
  (poll_loop fuel self (fun _ => false) request session c (mkRemoteWorld m a)).2 = Ok None.
Proof.
  intros Ha Hl Hx Hw. revert c m. induction fuel as [|fuel IH]; intros c m; [done|]. cbn [poll_loop].
  destruct (stuck_turn self request session c m a Ha Hl Hx Hw) as (m' & c' & Ht).
  unfold mbind at 1, action_bind at 1. rewrite Ht. apply IH.
Qed.

Theorem remote_polls_for_ever fuel :
  (RemoteExecutor_execute fuel hub_remote (fun _ => false) hub_request (mkRemoteWorld hub_machine "")).2 = Ok None.
Proof.
  assert (Hopen : match open_lease hub_remote hub_request
                          (instant (E := ExecutorFailure) (mkRemoteWorld hub_machine ""%string)).1 with
                  | (w, Ok session) =>
                      (ls_attempt_id session, lcp_lease_id (ls_lease session), lcp_expires_at_ms (ls_lease session),
                       wd_worker_id (ls_descriptor session)) = (rw_net w, "lease"%string, u64_max, "stuck"%string)
                  | (_, Err _) => False
                  end) by (vm_compute; reflexivity).
  unfold RemoteExecutor_execute, mbind, action_bind. revert Hopen.
  change (instant (mkRemoteWorld hub_machine ""%string))
    with ((instant (E := ExecutorFailure) (mkRemoteWorld hub_machine ""%string)).1,
          Ok (E := ExecutorFailure) (env_instant (mc_tick hub_machine))).
  cbn [reads]. unfold attempt.
  destruct (open_lease _ _ _) as [[m a] [session|e]]; [|done]. intros [= Ha Hl Hx Hw].
  cbn [instant on_local rw_machine rw_net]. set (c := env_instant (mc_tick m)). set (w := mkRemoteWorld _ _).
  pose proof (stuck_loop fuel hub_remote hub_request session c (tick m) a Ha Hl Hx Hw) as Hnone. fold w in Hnone.
  destruct (poll_loop _ _ _ _ _ _ w) as [w' r]. cbn in Hnone. by rewrite Hnone.
Qed.
End witnesses.
