(* ===== verification/Pool.v ===== *)
(** * Placement over several workers ([hub-executor/src/pool.rs])

    The pool asks every configured worker for its descriptor, picks the
    eligible one with the least calls in flight, counts the call while it
    lasts and stays with that worker whatever happens. *)

From Stdlib Require Import Ascii.
From stdpp Require Import base gmap strings list sorting.
From S2P Require Import Prelude Text Core Digest Machine Blobs Exec Distributed Transport Lease WorkerHost Capacity Remote RemoteWorker.

Record RemotePoolExecutor := { rp_workers : list RemoteExecutor }.

(** [from_credentials]: two endpoints at least, distinct without their
    trailing slashes, each with a token. *)
Definition RemotePoolExecutor_from_credentials (credentials : list (string * string))
    : result string RemotePoolExecutor :=
  _ ← ensure (2 <=? length credentials)%nat "remote worker pool requires at least two endpoints"%string;
  built ← foldM (fun (state : gset string * list RemoteExecutor) credential =>
    let normalized := trim_end_matches slash credential.1 in
    seen ← insert_seen state.1 normalized "duplicate remote worker endpoint {:?}"%string;
    _ ← ensure (negb (bool_decide (credential.2 = ""%string)))
          "remote worker bearer token must not be empty for endpoint {:?}"%string;
    worker ← RemoteExecutor_new normalized credential.2;
    Ok (seen, state.2 ++ [worker])) (∅, []) credentials;
  Ok {| rp_workers := built.2 |}.

Definition RemotePoolExecutor_new (endpoints : list string) (token : string)
    : result string RemotePoolExecutor :=
  _ ← ensure (negb (bool_decide (token = ""%string))) "remote worker bearer token must not be empty"%string;
  RemotePoolExecutor_from_credentials ((fun endpoint => (endpoint, token)) <$> endpoints).

Definition RemotePoolExecutor_with_max_payload_bytes (value : N) (self : RemotePoolExecutor) : RemotePoolExecutor :=
  {| rp_workers := RemoteExecutor_with_max_payload_bytes value <$> rp_workers self |}.

(** ** The load map

    [BTreeMap<String, u64>] behind its mutex, keyed by endpoint. *)
Abbreviation Loads := (gmap string N).

Definition load_of (loads : Loads) (endpoint : string) : N := default 0%N (loads !! endpoint).

Definition Candidate : Type := RemoteExecutor * string.

(** [(load, worker_id, endpoint)], compared in this order. *)
Definition candidate_key (loads : Loads) (c : Candidate) : N * (string * string) :=
  (load_of loads (rm_endpoint c.1), (c.2, rm_endpoint c.1)).

Definition candidate_leb (loads : Loads) (a b : Candidate) : bool :=
  bool_decide (ord_le (candidate_key loads a) (candidate_key loads b)).

(** The critical section of [select]: [eligible.remove(0)] after the sort,
    and its count. *)
Definition choose_worker (eligible : list Candidate) (loads : Loads) : option (Candidate * Loads) :=
  match sort_by (candidate_leb loads) eligible with
  | [] => None
  | c :: _ =>
      let key := rm_endpoint c.1 in
      Some (c, <[key := N.min (load_of loads key + 1) u64_max]> loads)
  end.

(** [Drop for InFlightGuard]. *)
Definition InFlightGuard_drop (key : string) (loads : Loads) : Loads :=
  match loads !! key with
  | None => loads
  | Some count =>
      let count := saturating_sub_u64 count 1 in
      if (count =? 0)%N then delete key loads else <[key := count]> loads
  end.

Section pool.
Context `{Environment, UuidLib, DirectoryOrder, Stopwatch} {Net : Type} `{!HttpClient Net}.

(** The pool's map and everything its workers act on. *)
Record PoolWorld := mkPoolWorld {
  pw_remote : RemoteWorld (Net := Net);
  pw_in_flight : Loads;
}.

Abbreviation pool E A := (action PoolWorld E A).

Definition on_remote {E A} (m : action (RemoteWorld (Net := Net)) E A) : pool E A := fun w =>
  let '(r, a) := m (pw_remote w) in (mkPoolWorld r (pw_in_flight w), a).

(** Discovery: every worker in the configured order, before the lock. *)
Fixpoint discover_all (workers : list RemoteExecutor) (identities : gmap string string)
    : pool string (list Candidate * list string) :=
  match workers with
  | [] => mret ([], [])
  | worker :: workers =>
      found ← attempt (on_remote (discover_eligible worker));
      match found with
      | Ok descriptor =>
          let id := wd_worker_id descriptor in
          _ ← lift (ensure (negb (bool_decide (is_Some (identities !! id))))
                "duplicate worker identity {:?} advertised by {:?} and {:?}"%string);
          rest ← discover_all workers (<[id := rm_endpoint worker]> identities);
          mret ((worker, id) :: rest.1, rest.2)
      | Err error =>
          rest ← discover_all workers identities;
          mret (rest.1, String.append (rm_endpoint worker) (String.append ": " error) :: rest.2)
      end
  end.

Definition no_workers (diagnostics : list string) : string :=
  match diagnostics with
  | [] => "no eligible remote workers"
  | _ => String.append "no eligible remote workers: " (String.concat "; " diagnostics)
  end.

Definition claim_worker (eligible : list Candidate) (diagnostics : list string)
    : pool string (Candidate * string) := fun w =>
  match choose_worker eligible (pw_in_flight w) with
  | None => (w, Err (no_workers diagnostics))
  | Some (c, loads) => (mkPoolWorld (pw_remote w) loads, Ok (c, rm_endpoint c.1))
  end.

Definition RemotePoolExecutor_select (self : RemotePoolExecutor) : pool string (Candidate * string) :=
  found ← discover_all (rp_workers self) ∅;
  claim_worker found.1 found.2.

Definition drop_guard {E} (key : string) : pool E unit := fun w =>
  (mkPoolWorld (pw_remote w) (InFlightGuard_drop key (pw_in_flight w)), Ok tt).

Definition POOL_BACKEND_ID : string := "remote-pool".

Definition failure_report (reason : string) (duration_ms : N) : ExecutionReport := {|
  er_outcome := synthetic_outcome false (Some reason) duration_ms;
  er_backend_id := POOL_BACKEND_ID |}.

(** [execute_report]; the guard lives until the worker has answered. *)
Definition RemotePoolExecutor_execute_report (fuel : nat) (self : RemotePoolExecutor) (cancelled : N -> bool)
    (request : ExecutionRequest) : pool ExecutorFailure (option ExecutionReport) :=
  started ← on_remote instant;
  stop ← reads (fun w => Ok (cancelled (mc_tick (rw_machine (pw_remote w)))));
  if stop : bool then
    mret (Some {| er_outcome := synthetic_outcome true None 0; er_backend_id := POOL_BACKEND_ID |})
  else
    selection ← attempt (RemotePoolExecutor_select self);
    match selection with
    | Err error =>
        duration ← on_remote (elapsed_ms started);
        mret (Some (failure_report error duration))
    | Ok ((worker, worker_id), key) =>
        answer ← attempt (on_remote (RemoteExecutor_execute fuel
                   (RemoteExecutor_with_expected_worker_id worker_id worker) cancelled request));
        _ ← drop_guard key;
        outcome ← lift answer;
        mret ((fun o => {| er_outcome := o; er_backend_id := remote_backend_id worker worker_id |}) <$> outcome)
    end.

Definition RemotePoolExecutor_execute (fuel : nat) (self : RemotePoolExecutor) (cancelled : N -> bool)
    (request : ExecutionRequest) : pool ExecutorFailure (option ExecutionOutcome) :=
  report ← RemotePoolExecutor_execute_report fuel self cancelled request;
  mret (er_outcome <$> report).
End pool.

(** ** The choice *)
Lemma candidate_leb_total loads a b : candidate_leb loads a b = true \/ candidate_leb loads b a = true.
Proof.
  unfold candidate_leb. rewrite !bool_decide_eq_true. apply (total ord_le).
Qed.

Lemma candidate_leb_trans loads a b c :
  candidate_leb loads a b = true -> candidate_leb loads b c = true -> candidate_leb loads a c = true.
Proof. unfold candidate_leb. rewrite !bool_decide_eq_true. apply (transitivity (R := ord_le)). Qed.

Lemma choose_worker_Some eligible loads c loads' :
  choose_worker eligible loads = Some (c, loads') ->
  c ∈ eligible /\ (forall d, d ∈ eligible -> ord_le (candidate_key loads c) (candidate_key loads d)) /\
  loads' = <[rm_endpoint c.1 := N.min (load_of loads (rm_endpoint c.1) + 1) u64_max]> loads.
Proof.
  unfold choose_worker. destruct (sort_by (candidate_leb loads) eligible) as [|x l] eqn:E; [done|].
  intros [= <- <-]. pose proof (sort_by_perm (candidate_leb loads) eligible) as Hp. rewrite E in Hp.
  pose proof (sort_by_sorted (candidate_leb loads) eligible (candidate_leb_total loads)
                (candidate_leb_trans loads)) as Hs. rewrite E in Hs.
  split; [rewrite <- Hp; left|]. split; [|done]. intros d Hd. rewrite <- Hp in Hd.
  apply StronglySorted_inv in Hs as [_ Hall]. apply elem_of_cons in Hd as [->|Hd].
  - destruct (candidate_leb_total loads x x) as [Hx|Hx]; by apply bool_decide_eq_true in Hx.
  - rewrite Forall_forall in Hall. specialize (Hall d Hd). by apply bool_decide_eq_true in Hall.
Qed.

Lemma choose_worker_head eligible loads c :
  head (sort_by (candidate_leb loads) eligible) = Some c ->
  choose_worker eligible loads =
    Some (c, <[rm_endpoint c.1 := N.min (load_of loads (rm_endpoint c.1) + 1) u64_max]> loads).
Proof. unfold choose_worker. destruct (sort_by _ _); [done|]. by intros [= ->]. Qed.

Lemma choose_worker_None eligible loads : choose_worker eligible loads = None <-> eligible = [].
Proof.
  unfold choose_worker. pose proof (sort_by_perm (candidate_leb loads) eligible) as Hp.
  destruct (sort_by (candidate_leb loads) eligible); split; intros Heq; subst; try done.
  - by apply Permutation_nil_l in Hp.
  - by apply Permutation_nil_r in Hp.
Qed.

(** ** Concurrent calls

    The calls that hold a guard, by the endpoint they count for.  Any number
    of threads choose and drop, in any order, on whatever candidates their
    own discovery found. *)
Record PoolCalls := mkPoolCalls {
  pc_loads : Loads;
  pc_held : list string;
}.

Inductive pool_step : PoolCalls -> PoolCalls -> Prop :=
| pool_take eligible c loads' σ :
    (N.of_nat (length (pc_held σ)) < u64_max)%N ->
    choose_worker eligible (pc_loads σ) = Some (c, loads') ->
    pool_step σ (mkPoolCalls loads' (rm_endpoint c.1 :: pc_held σ))
| pool_give key before after σ :
    pc_held σ = before ++ key :: after ->
    pool_step σ (mkPoolCalls (InFlightGuard_drop key (pc_loads σ)) (before ++ after)).

Definition calls_on (endpoint : string) (held : list string) : N :=
  N.of_nat (length (filter (fun k => k = endpoint) held)).

Definition loads_exact (σ : PoolCalls) : Prop :=
  forall k, pc_loads σ !! k = if decide (calls_on k (pc_held σ) = 0%N) then None else Some (calls_on k (pc_held σ)).

Lemma loads_exact_load σ k : loads_exact σ -> load_of (pc_loads σ) k = calls_on k (pc_held σ).
Proof. intros Hx. unfold load_of. rewrite Hx. case_decide as Hz; [by rewrite Hz|done]. Qed.

Lemma calls_on_cons k j held :
  calls_on k (j :: held) = (calls_on k held + if decide (j = k) then 1 else 0)%N.
Proof. unfold calls_on. rewrite filter_cons. case_decide; cbn [length]; lia. Qed.

Lemma calls_on_perm k held held' : held ≡ₚ held' -> calls_on k held = calls_on k held'.
Proof. intros Hp. unfold calls_on. by rewrite Hp. Qed.

Lemma calls_on_le k held : (calls_on k held <= N.of_nat (length held))%N.
Proof. unfold calls_on. pose proof (length_filter (fun j => j = k) held). lia. Qed.

Lemma drop_lookup key loads k :
  InFlightGuard_drop key loads !! k =
    if decide (k = key) then (n ← loads !! key; if (n - 1 =? 0)%N then None else Some (n - 1)%N)
    else loads !! k.
Proof.
  unfold InFlightGuard_drop, saturating_sub_u64. destruct (loads !! key) as [n|] eqn:E; cbn.
  - destruct (n - 1 =? 0)%N eqn:Ez; case_decide as Hk; subst;
      first [by rewrite lookup_delete_eq|by rewrite lookup_insert_eq|by rewrite lookup_delete_ne by done
            |by rewrite lookup_insert_ne by done].
  - case_decide as Hk; [by rewrite Hk, E|done].
Qed.

Lemma pool_step_exact σ σ' : pool_step σ σ' -> loads_exact σ -> loads_exact σ'.
Proof.
  intros Hs Hx k. destruct Hs as [eligible c loads' σ Hlen Hc|key before after σ Hheld]; cbn.
  - apply choose_worker_Some in Hc as (_ & _ & ->). rewrite calls_on_cons.
    rewrite (loads_exact_load _ _ Hx). pose proof (calls_on_le (rm_endpoint c.1) (pc_held σ)).
    destruct (decide (rm_endpoint c.1 = k)) as [<-|Hne].
    + rewrite lookup_insert_eq. case_decide; [lia|]. f_equal. lia.
    + rewrite lookup_insert_ne, Hx, N.add_0_r by done. done.
  - assert (Hcount : calls_on k (pc_held σ) = (calls_on k (before ++ after) + if decide (key = k) then 1 else 0)%N).
    { rewrite <- calls_on_cons. apply calls_on_perm. rewrite Hheld. by rewrite Permutation_middle. }
    rewrite drop_lookup, !Hx. case_decide as Hk.
    + subst key. rewrite Hcount, decide_True by done. rewrite decide_False by lia. cbn.
      replace (calls_on k (before ++ after) + 1 - 1)%N with (calls_on k (before ++ after)) by lia.
      destruct (N.eqb_spec (calls_on k (before ++ after)) 0); by case_decide.
    + rewrite Hcount, decide_False, N.add_0_r by congruence. done.
Qed.

Definition pool_start : PoolCalls := mkPoolCalls ∅ [].

Lemma loads_exact_reachable σ : rtc pool_step pool_start σ -> loads_exact σ.
Proof.
  assert (Hsteps : forall a b, rtc pool_step a b -> loads_exact a -> loads_exact b)
    by (induction 1; eauto using pool_step_exact).
  intros Hr. eapply Hsteps; [exact Hr|]. by intros k.
Qed.

(** ** One call *)
Section call.
Context `{Environment, UuidLib, DirectoryOrder, Stopwatch} {Net : Type} `{!HttpClient Net}.

(** Discovery touches no load, and the candidates are what the workers
    advertised, in the configured order. *)
Lemma on_remote_Ok {E A} (m : action (RemoteWorld (Net := Net)) E A) w w' r :
  on_remote m w = (w', r) -> pw_in_flight w' = pw_in_flight w /\ m (pw_remote w) = (pw_remote w', r).
Proof using Type. unfold on_remote. destruct (m (pw_remote w)). by intros [= <- <-]. Qed.

Definition advertised (c : Candidate) : Prop :=
  exists w w' d, discover_eligible c.1 w = (w', Ok d) /\ wd_worker_id d = c.2.

Lemma discover_all_spec workers identities w w' r :
  discover_all workers identities w = (w', r) ->
  pw_in_flight w' = pw_in_flight w /\
  forall found, r = Ok found ->
    Forall advertised found.1 /\ (forall c, c ∈ found.1 -> c.1 ∈ workers) /\
    NoDup (snd <$> found.1) /\ (forall c, c ∈ found.1 -> identities !! c.2 = None).
Proof using Type.
  revert identities w w' r. induction workers as [|x workers IH]; intros identities w w' r; cbn [discover_all].
  - intros [= <- <-]. split; [done|]. intros found [= <-]. cbn. split_and!; [done|set_solver|constructor|set_solver].
  - unfold mbind at 1, action_bind at 1, attempt. destruct (on_remote (discover_eligible x) w) as [w1 res] eqn:Eo.
    destruct (on_remote_Ok _ _ _ _ Eo) as [Hl Hd]. destruct res as [d|error].
    + unfold mbind at 1, action_bind at 1, lift.
      destruct (bool_decide_reflect (is_Some (identities !! wd_worker_id d))) as [Hsome|Hnone]; cbn [negb ensure].
      { intros [= <- <-]. split; [done|]. by intros ? [=]. }
      unfold mbind at 1, action_bind at 1.
      destruct (discover_all workers _ w1) as [w2 [found|e]] eqn:Er; destruct (IH _ _ _ _ Er) as [Hl2 Hf2].
      * cbn. intros [= <- <-]. split; [congruence|]. intros found' [= <-]. cbn.
        destruct (Hf2 found eq_refl) as (Hadv & Hin & Hnd & Hno). split_and!.
        -- constructor; [by exists (pw_remote w), (pw_remote w1), d|done].
        -- intros c [->|Hc]%elem_of_cons; [by left|right; auto].
        -- constructor; [|done]. intros (c & Hc & Hcin)%list_elem_of_fmap. specialize (Hno c Hcin).
           cbn in Hc. rewrite <- Hc, lookup_insert_eq in Hno. done.
        -- intros c [->|Hc]%elem_of_cons; cbn; [by apply eq_None_not_Some|].
           specialize (Hno c Hc). by apply lookup_insert_None in Hno as [? _].
      * intros [= <- <-]. split; [congruence|]. by intros ? [=].
    + unfold mbind at 1, action_bind at 1.
      destruct (discover_all workers _ w1) as [w2 [found|e]] eqn:Er; destruct (IH _ _ _ _ Er) as [Hl2 Hf2].
      * cbn. intros [= <- <-]. split; [congruence|]. intros found' [= <-]. cbn.
        destruct (Hf2 found eq_refl) as (Hadv & Hin & Hnd & Hno). split_and!; [done| |done|done].
        intros c Hc. right. auto.
      * intros [= <- <-]. split; [congruence|]. by intros ? [=].
Qed.

(** A claim is undone by its drop. *)
Lemma drop_insert key loads :
  (load_of loads key < u64_max)%N -> (forall n, loads !! key = Some n -> n <> 0%N) ->
  InFlightGuard_drop key (<[key := N.min (load_of loads key + 1) u64_max]> loads) = loads.
Proof using Type.
  intros Hlt Hnz. apply map_eq. intros k. rewrite drop_lookup, lookup_insert_eq. cbn.
  case_decide as Hk; [|by rewrite lookup_insert_ne]. subst k.
  replace (N.min (load_of loads key + 1) u64_max - 1)%N with (load_of loads key) by lia.
  unfold load_of. destruct (loads !! key) as [n|] eqn:E; cbn; [|done].
  destruct (N.eqb_spec n 0); [by destruct (Hnz n)|done].
Qed.

Lemma claim_worker_Ok eligible diagnostics (w w' : PoolWorld (Net := Net)) c key :
  claim_worker eligible diagnostics w = (w', Ok (c, key)) ->
  choose_worker eligible (pw_in_flight w) = Some (c, pw_in_flight w') /\ key = rm_endpoint c.1 /\
  pw_remote w' = pw_remote w.
Proof using Type.
  unfold claim_worker. destruct (choose_worker eligible (pw_in_flight w)) as [[c' loads]|] eqn:E; [|done].
  by intros [= <- -> <-].
Qed.

Lemma select_spec self w w' r :
  RemotePoolExecutor_select self w = (w', r) ->
  match r with
  | Err _ => pw_in_flight w' = pw_in_flight w
  | Ok (c, key) => key = rm_endpoint c.1 /\ c.1 ∈ rp_workers self /\ advertised c /\
      pw_in_flight w' = <[key := N.min (load_of (pw_in_flight w) key + 1) u64_max]> (pw_in_flight w)
  end.
Proof using Type.
  unfold RemotePoolExecutor_select, mbind, action_bind.
  destruct (discover_all (rp_workers self) ∅ w) as [w1 [found|e]] eqn:Ed;
    destruct (discover_all_spec _ _ _ _ _ Ed) as [Hl Hf]; [|by intros [= <- <-]].
  destruct (Hf found eq_refl) as (Hadv & Hin & _). intros Hc. destruct r as [[c key]|e].
  - apply claim_worker_Ok in Hc as (Hc & -> & Hr). apply choose_worker_Some in Hc as (Hcin & _ & ->).
    rewrite Forall_forall in Hadv. rewrite Hl. split_and!; auto.
  - unfold claim_worker in Hc. destruct (choose_worker _ _) as [[? ?]|]; [done|]. by injection Hc as <- _.
Qed.
End call.

(** The pool's placement is deterministic and least loaded.  However many
    calls run concurrently, the map counts for each endpoint exactly the calls
    that hold it; the worker chosen is the least by calls in flight, then
    identity, then endpoint, and there is a choice whenever somebody is
    eligible. *)
Theorem pool_choice_least σ eligible :
  rtc pool_step pool_start σ -> (N.of_nat (length (pc_held σ)) < u64_max)%N ->
  match choose_worker eligible (pc_loads σ) with
  | None => eligible = []
  | Some (c, loads') => c ∈ eligible /\
      (forall d, d ∈ eligible ->
         ord_le (calls_on (rm_endpoint c.1) (pc_held σ), (c.2, rm_endpoint c.1))
                (calls_on (rm_endpoint d.1) (pc_held σ), (d.2, rm_endpoint d.1))) /\
      (forall k, loads' !! k = let n := calls_on k (rm_endpoint c.1 :: pc_held σ) in
                               if decide (n = 0%N) then None else Some n)
  end.
Proof.
  intros Hr Hlen. pose proof (loads_exact_reachable _ Hr) as Hx.
  destruct (choose_worker eligible (pc_loads σ)) as [[c loads']|] eqn:Ec; [|by apply choose_worker_None in Ec].
  destruct (choose_worker_Some _ _ _ _ Ec) as (Hin & Hmin & _). split; [done|]. split.
  - intros d Hd. specialize (Hmin d Hd). unfold candidate_key in Hmin. by rewrite !loads_exact_load in Hmin.
  - exact (pool_step_exact _ _ (pool_take eligible c loads' σ Hlen Ec) Hx).
Qed.

(** A call stays with the worker it was placed on.  Its report is the
    pool's own -- cancelled before the start, or no worker to place it on --
    or names one worker of the configuration and the identity this worker
    advertised, and is the answer of one execution on that worker, pinned to
    that identity; whatever the answer, no other worker is tried, and the
    load map is back to what it was. *)
Theorem pool_call_pinned `{Environment, UuidLib, DirectoryOrder, Stopwatch} {Net : Type} `{!HttpClient Net}
    fuel self cancelled request (w w' : PoolWorld (Net := Net)) report :
  (forall k n, pw_in_flight w !! k = Some n -> (1 <= n < u64_max)%N) ->
  RemotePoolExecutor_execute_report fuel self cancelled request w = (w', Ok (Some report)) ->
  pw_in_flight w' = pw_in_flight w /\
  ((report = {| er_outcome := synthetic_outcome true None 0; er_backend_id := POOL_BACKEND_ID |}) \/
   (exists reason duration, report = failure_report reason duration) \/
   exists worker id r,
     worker ∈ rp_workers self /\ advertised (worker, id) /\
     RemoteExecutor_execute fuel (RemoteExecutor_with_expected_worker_id id worker) cancelled request r =
       (pw_remote w', Ok (Some (er_outcome report))) /\
     er_backend_id report = remote_backend_id worker id).
Proof.
  intros Hloads. unfold RemotePoolExecutor_execute_report.
  intros (w1 & started & Hi & Hr)%action_bind_Ok. destruct (on_remote_Ok _ _ _ _ Hi) as [Hl1 _].
  apply action_bind_Ok in Hr as (w2 & stop & Hs & Hr). apply reads_Ok in Hs as [-> Hs].
  destruct stop; [apply mret_Ok in Hr as [-> [= <-]]; split; [done|by left]|].
  apply action_bind_Ok in Hr as (w3 & selection & Hsel & Hr). unfold attempt in Hsel.
  destruct (RemotePoolExecutor_select self w1) as [w4 res] eqn:Es. injection Hsel as -> ->.
  pose proof (select_spec _ _ _ _ Es) as Hspec. rewrite Hl1 in Hspec.
  destruct selection as [[[worker id] key]|error].
  - destruct Hspec as (-> & Hin & Hadv & Hl3). cbn in *.
    apply action_bind_Ok in Hr as (w5 & answer & Ha & Hr). unfold attempt in Ha.
    destruct (on_remote _ w3) as [w6 res] eqn:Eo. injection Ha as -> ->.
    destruct (on_remote_Ok _ _ _ _ Eo) as [Hl5 Hex].
    apply action_bind_Ok in Hr as (w7 & [] & Hg & Hr). injection Hg as <-.
    apply action_bind_Ok in Hr as (w8 & outcome & Ho & Hr). apply lift_Ok in Ho as [-> ->].
    apply mret_Ok in Hr as [-> Hr]. cbn. split.
    + rewrite Hl5, Hl3. apply drop_insert; [|intros n Hn; specialize (Hloads _ _ Hn); lia].
      unfold load_of. destruct (pw_in_flight w !! rm_endpoint worker) as [n|] eqn:E; [|done].
      cbn. apply (Hloads _ _ E).
    + right. right. destruct outcome as [o|]; [|done]. injection Hr as <-.
      exists worker, id, (pw_remote w3). by split_and!.
  - apply action_bind_Ok in Hr as (w5 & d & Hd & Hr). destruct (on_remote_Ok _ _ _ _ Hd) as [Hl5 _].
    apply mret_Ok in Hr as [-> [= <-]]. split; [congruence|]. right. left. by exists error, d.
Qed.

(** ** Concrete runs *)
Section witnesses.
#[local] Existing Instance calm_environment.
#[local] Existing Instance plain_uuid.
#[local] Existing Instance listed_order.
#[local] Existing Instance obedient_executor.
#[local] Existing Instance tick_stopwatch.

Definition worker_at (endpoint : string) : RemoteExecutor :=
  RemoteExecutor_with_max_payload_bytes 1000
    (mkRemoteExecutor endpoint "secret" (String.append "remote:" endpoint) 100 3000 1000 None).

Definition two_workers : RemotePoolExecutor := {|
  rp_workers := [worker_at "http://worker-a:8488"; worker_at "http://worker-b:8488"] |}.

Example two_workers_built :
  RemotePoolExecutor_with_max_payload_bytes 1000 <$>
    RemotePoolExecutor_new ["http://worker-a:8488/"; "http://worker-b:8488"]%string "secret" = Ok two_workers.
Proof. by vm_compute. Qed.

(** One call is out on worker-a, so the next goes to worker-b. *)
Definition alpha : Candidate := (worker_at "http://worker-a:8488", "alpha"%string).
Definition beta : Candidate := (worker_at "http://worker-b:8488", "beta"%string).

Definition one_out : PoolCalls :=
  mkPoolCalls (<[rm_endpoint alpha.1 := N.min (load_of ∅ (rm_endpoint alpha.1) + 1) u64_max]> ∅) [rm_endpoint alpha.1].

Lemma first_choice : head (sort_by (candidate_leb ∅) [alpha; beta]) = Some alpha.
Proof. by vm_compute. Qed.

Lemma second_choice : head (sort_by (candidate_leb (pc_loads one_out)) [alpha; beta]) = Some beta.
Proof. by vm_compute. Qed.

Lemma one_out_reachable : rtc pool_step pool_start one_out.
Proof.
  apply rtc_once. apply (pool_take [alpha; beta] alpha); [done|].
  exact (choose_worker_head _ _ _ first_choice).
Qed.

Lemma pool_choice_least_witness :
  exists loads, choose_worker [alpha; beta] (pc_loads one_out) = Some (beta, loads) /\
    loads !! "http://worker-b:8488"%string = Some 1%N.
Proof.
  pose proof (pool_choice_least one_out [alpha; beta] one_out_reachable ltac:(done)) as Hc.
  rewrite (choose_worker_head _ _ _ second_choice) in *. destruct Hc as (_ & _ & Hl).
  eexists. split; [reflexivity|]. rewrite Hl. reflexivity.
Defined.

(** Worker-b is down: the call runs on worker-a and its load is given back. *)
Definition pool_world : PoolWorld (Net := WorkerHost) := mkPoolWorld remote_start ∅.

Abbreviation pool_run := (RemotePoolExecutor_execute_report
  (HttpClient0 := worker_http small_worker working (fun _ => None) "http://worker-a:8488")
  10 two_workers (fun _ => false) hub_request pool_world).

Lemma pool_run_result :
  pool_run.2 = Ok (Some {| er_outcome := done_outcome;
                           er_backend_id := "remote:worker-a@http://worker-a:8488" |}).
Proof. by vm_compute. Qed.

Lemma pool_call_pinned_witness :
  pool_run.2 = Ok (Some {| er_outcome := done_outcome;
                           er_backend_id := "remote:worker-a@http://worker-a:8488" |}) /\
  pw_in_flight pool_run.1 = ∅.
Proof.
  split; [exact pool_run_result|].
  assert (Hidle : forall k n, pw_in_flight pool_world !! k = Some n -> (1 <= n < u64_max)%N).
  { intros k n Hn. change ((∅ : gmap string N) !! k = Some n) in Hn. by rewrite lookup_empty in Hn. }
  apply (pool_call_pinned (HttpClient0 := worker_http small_worker working (fun _ => None) "http://worker-a:8488")
           10 two_workers (fun _ => false) hub_request pool_world pool_run.1 _
           Hidle (pair_snd_eq _ _ pool_run_result)).
Defined.
End witnesses.
