(* ===== verification/Sql.v ===== *)
(** * SQLite as the repositories use it ([hub-store-sqlite/src/lib.rs])

    The database is a set of tables, each keyed by its primary key.  An SQL
    statement of the source is a function on the tables; statements run in
    transactions, any of their statements may fail, and a transaction that is
    not committed leaves no trace.  Queries outside a transaction do not
    fail. *)

From Stdlib Require Import Ascii.
From stdpp Require Import base gmap strings list sorting.
From S2P Require Import Prelude Text Core Machine Blobs Memory.

(** ** JSON columns

    The crate serde_json on the type of a stored record: [to_string] and
    [from_str].  The repositories rely on reading back what they wrote.  (For
    a floating-point number serde_json promises that only with its feature
    [float_roundtrip].) *)
Class SerdeJson (A : Type) := {
  json_to_string : A -> result string string;
  json_from_str : string -> result string A;
}.

Class SerdeJsonLaws (A : Type) `{SerdeJson A} : Prop := {
  json_round_trip : forall (a : A) text, json_to_string a = Ok text -> json_from_str text = Ok a;
}.

Definition encode_json {A} `{SerdeJson A} (context : string) (a : A) : Result string :=
  map_err (fun _ => Storage context) (json_to_string a).

Definition decode_json {A} `{SerdeJson A} (context text : string) : Result A :=
  map_err (fun _ => Storage context) (json_from_str text).

(** [row.map(|j| serde_json::from_str(&j)).transpose()]. *)
Definition decode_row {A} `{SerdeJson A} (context : string) (text : option string) : Result (option A) :=
  match text with
  | None => Ok None
  | Some text => Some <$> decode_json context text
  end.

(** ** Integers

    A column is an [i64]; binding a [u64] that does not fit is an error of the
    statement. *)
Definition i64_max : N := 2 ^ 63 - 1.

Definition sql_u64 (context : string) (n : N) : Result N :=
  if (n <=? i64_max)%N then Ok n else Err (Storage context).

(** [now_ms()] and [storage_now_ms()]: the clock in milliseconds, 0 when it
    does not fit. *)
Definition clock_i64 (now : N) : N := if (now <=? i64_max)%N then now else 0%N.

(** ** Statements and transactions *)
Section transactions.
Context `{Environment} {Tables : Type}.

(** The open database, and the tick of what the outside decides next. *)
Record Database := mkDatabase {
  db_tables : Tables;
  db_tick : N;
}.

Abbreviation db A := (action Database CoreError A).

Definition on_tables {A} (f : Tables -> Tables * Result A) : db A := fun d =>
  let '(t, r) := f (db_tables d) in (mkDatabase t (db_tick d), r).

(** One statement: it may fail, otherwise it does what it says. *)
Definition statement {A} (context : string) (f : Tables -> Tables * Result A) : db A := fun d =>
  let d1 := mkDatabase (db_tables d) (db_tick d + 1) in
  match env_fault (db_tick d) with
  | Some _ => (d1, Err (Storage context))
  | None => on_tables f d1
  end.

(** [query_row(..).optional()] and [execute] of a statement that cannot
    fail. *)
Definition query {A} (context : string) (f : Tables -> A) : db A :=
  statement context (fun t => (t, Ok (f t))).
Definition execute_sql (context : string) (f : Tables -> Tables) : db unit :=
  statement context (fun t => (f t, Ok tt)).

(** How the code inside a transaction ends: with a commit, or returning with
    the transaction open, whose destructor rolls back. *)
Inductive TxEnd (A : Type) :=
| Committing (a : A)
| Dropping (a : A).
Arguments Committing {A} a.
Arguments Dropping {A} a.

Definition roll_back (before : Database) (d : Database) : Database :=
  mkDatabase (db_tables before) (db_tick d).

Definition transaction {A} (begin_context commit_context : string) (body : db (TxEnd A)) : db A := fun d =>
  match query begin_context (fun _ => tt) d with
  | (d1, Err e) => (d1, Err e)
  | (d1, Ok _) =>
      match body d1 with
      | (d2, Err e) => (roll_back d d2, Err e)
      | (d2, Ok (Dropping a)) => (roll_back d d2, Ok a)
      | (d2, Ok (Committing a)) =>
          match query commit_context (fun _ => tt) d2 with
          | (d3, Err e) => (roll_back d d3, Err e)
          | (d3, Ok _) => (d3, Ok a)
          end
      end
  end.

(** The time of the system clock. *)
Definition sql_now {E} : action Database E N := fun d =>
  (mkDatabase (db_tables d) (db_tick d + 1), Ok (clock_i64 (env_now (db_tick d)))).

(** ** What they do to the tables *)
Lemma statement_Ok {A} context (f : Tables -> Tables * Result A) d d' a :
  statement context f d = (d', Ok a) -> f (db_tables d) = (db_tables d', Ok a).
Proof.
  unfold statement, on_tables. destruct (env_fault _); [done|]. cbn.
  destruct (f (db_tables d)) as [t r]. by intros [= <- ->].
Qed.

Lemma query_Ok {A} context (f : Tables -> A) d d' a :
  query context f d = (d', Ok a) -> db_tables d' = db_tables d /\ a = f (db_tables d).
Proof. by intros [= -> ->]%statement_Ok. Qed.

Lemma execute_sql_Ok context (f : Tables -> Tables) d d' u :
  execute_sql context f d = (d', Ok u) -> db_tables d' = f (db_tables d).
Proof. by intros [= <-]%statement_Ok. Qed.

Lemma sql_now_Ok {E} d d' n : sql_now (E := E) d = (d', Ok n) -> db_tables d' = db_tables d.
Proof. by intros [= <- _]. Qed.

(** A transaction either leaves the tables alone or does all of what its body
    did. *)
Lemma transaction_cases {A} b c (body : db (TxEnd A)) d d' r :
  transaction b c body d = (d', r) ->
  (db_tables d' = db_tables d /\
   ((exists e, r = Err e) \/
    exists d1 d2 a, db_tables d1 = db_tables d /\ body d1 = (d2, Ok (Dropping a)) /\ r = Ok a)) \/
  exists d1 d2 a, db_tables d1 = db_tables d /\ body d1 = (d2, Ok (Committing a)) /\
    db_tables d' = db_tables d2 /\ r = Ok a.
Proof.
  unfold transaction. destruct (query b _ d) as [d1 [u|e]] eqn:Eb.
  - apply query_Ok in Eb as [Et _].
    destruct (body d1) as [d2 [[a|a]|e]] eqn:Ebody.
    + destruct (query c _ d2) as [d3 [u3|e]] eqn:Ec.
      * apply query_Ok in Ec as [Et3 _]. intros [= <- <-]. right. by exists d1, d2, a.
      * intros [= <- <-]. left. split; [done|]. by left; exists e.
    + intros [= <- <-]. left. split; [done|]. right. by exists d1, d2, a.
    + intros [= <- <-]. left. split; [done|]. by left; exists e.
  - intros [= <- <-]. left. split; [|by left; exists e].
    revert Eb. unfold query, statement, on_tables. by destruct (env_fault _); intros [= <-].
Qed.

Lemma transaction_Err {A} b c (body : db (TxEnd A)) d d' e :
  transaction b c body d = (d', Err e) -> db_tables d' = db_tables d.
Proof.
  intros [[Ht _]|(d1 & d2 & a & _ & _ & _ & [=])]%transaction_cases. done.
Qed.

Lemma transaction_Ok {A} b c (body : db (TxEnd A)) d d' a :
  transaction b c body d = (d', Ok a) ->
  exists d1 d2, db_tables d1 = db_tables d /\
    (body d1 = (d2, Ok (Dropping a)) /\ db_tables d' = db_tables d \/
     body d1 = (d2, Ok (Committing a)) /\ db_tables d' = db_tables d2).
Proof.
  intros [[Ht [[e [=]]|(d1 & d2 & x & H1 & Hb & [= ->])]]|(d1 & d2 & x & H1 & Hb & H2 & [= ->])]%transaction_cases.
  - exists d1, d2. split; [done|]. by left.
  - exists d1, d2. split; [done|]. by right.
Qed.

(** Whatever happens, a transaction keeps what every commit of its body
    keeps. *)
Lemma transaction_keeps {A} (P : Tables -> Prop) b c (body : db (TxEnd A)) d :
  P (db_tables d) ->
  (forall d1 d2 a, db_tables d1 = db_tables d -> body d1 = (d2, Ok (Committing a)) -> P (db_tables d2)) ->
  P (db_tables (transaction b c body d).1).
Proof.
  intros Hp Hb. destruct (transaction b c body d) as [d' r] eqn:E.
  destruct (transaction_cases _ _ _ _ _ _ E) as [[Ht _]|(d1 & d2 & a & H1 & H2 & Ht & _)]; cbn; rewrite Ht.
  - done.
  - by eapply Hb.
Qed.
End transactions.
Arguments Database Tables : clear implicits.
Arguments mkDatabase {Tables}.
Arguments Committing {A} a.
Arguments Dropping {A} a.

(** ** Tables of JSON records

    A table whose rows hold a record as JSON text under the text of its key. *)
Section record_tables.
Context {A Row K : Type} `{SerdeJson A, Countable K, !Ordered K} (text_of : Row -> string) (key : A -> K).

Definition holds (row : Row) (k : K) (a : A) : Prop :=
  json_from_str (text_of row) = Ok a /\ key a = k.

(** Every row reads back, as the record of its key. *)
Definition table_ok (t : gmap K Row) : Prop :=
  forall k row, t !! k = Some row -> exists a, holds row k a.

Definition table_get (context : string) (t : gmap K Row) (k : K) : Result (option A) :=
  decode_row context (text_of <$> t !! k).

(** [SELECT json FROM t ORDER BY created_at, id]. *)
Definition table_list (context : string) (created_at : Row -> N) (t : gmap K Row) : Result (list A) :=
  mapR (fun row => decode_json context (text_of row))
    (snd <$> sort_by_key (fun e : K * Row => (created_at e.2, e.1)) (map_iter t)).

Lemma table_get_None context t k : table_ok t -> table_get context t k = Ok None <-> t !! k = None.
Proof.
  intros Hok. unfold table_get. destruct (t !! k) as [row|] eqn:E; [|done]. cbn.
  destruct (Hok _ _ E) as (a & Ha & _). unfold decode_json. by rewrite Ha.
Qed.

Lemma table_get_Some context t k a :
  table_get context t k = Ok (Some a) <-> exists row, t !! k = Some row /\ json_from_str (text_of row) = Ok a.
Proof.
  unfold table_get. destruct (t !! k) as [row|] eqn:E; cbn.
  - unfold decode_json. destruct (json_from_str (text_of row)) as [b|e] eqn:Ej; cbn; split.
    + intros [= <-]. by exists row.
    + intros (r & [= <-] & Ha). congruence.
    + done.
    + intros (r & [= <-] & Ha). congruence.
  - split; [done|]. by intros (r & ? & _).
Qed.

Lemma table_get_total context t k : table_ok t -> exists o, table_get context t k = Ok o.
Proof.
  intros Hok. unfold table_get. destruct (t !! k) as [row|] eqn:E; [|by eexists].
  destruct (Hok _ _ E) as (a & Ha & _). cbn. unfold decode_json. rewrite Ha. by eexists.
Qed.

Lemma table_get_key context t k a : table_ok t -> table_get context t k = Ok (Some a) -> key a = k.
Proof.
  intros Hok (row & Hr & Ha)%table_get_Some. destruct (Hok _ _ Hr) as (b & Hb & Hk). congruence.
Qed.

Lemma table_ok_insert t k row a : table_ok t -> holds row k a -> table_ok (<[k := row]> t).
Proof.
  intros Hok Ha k' row'. rewrite lookup_insert_Some. intros [[<- <-]|[_ Hl]]; [by exists a|by apply Hok].
Qed.

Lemma table_get_insert context t k row a :
  json_from_str (text_of row) = Ok a -> table_get context (<[k := row]> t) k = Ok (Some a).
Proof. intros Ha. apply table_get_Some. exists row. by rewrite lookup_insert_eq. Qed.

Lemma table_get_insert_ne context t k k' row :
  k <> k' -> table_get context (<[k := row]> t) k' = table_get context t k'.
Proof. intros Hne. unfold table_get. by rewrite lookup_insert_ne. Qed.

(** The list is the records of the table, each once. *)
Lemma table_list_spec context created_at t :
  table_ok t -> exists l, table_list context created_at t = Ok l /\
    key <$> l ≡ₚ map_keys t /\
    Forall2 (fun e a => holds e.2 e.1 a) (sort_by_key (fun e : K * Row => (created_at e.2, e.1)) (map_iter t)) l.
Proof.
  intros Hok. unfold table_list.
  set (rows := sort_by_key _ (map_iter t)).
  assert (Hp : rows ≡ₚ map_iter t) by apply sort_by_perm.
  assert (Hall : forall e, e ∈ rows -> exists a, holds e.2 e.1 a).
  { intros [k row] Hin. rewrite Hp in Hin. apply elem_of_map_iter in Hin. by apply Hok. }
  assert (exists l, Forall2 (fun e a => holds e.2 e.1 a) rows l) as [l Hl].
  { clear Hp. induction rows as [|e rows IH]; [by exists []|].
    destruct (Hall e) as [a Ha]; [left|]. destruct IH as [l Hl]; [intros; apply Hall; by right|].
    exists (a :: l). by constructor. }
  exists l. split; [|split; [|done]].
  - apply mapR_Ok. apply Forall2_fmap_l. eapply Forall2_impl; [exact Hl|].
    intros e a [Ha _]. cbn. unfold decode_json. by rewrite Ha.
  - unfold map_keys. rewrite <- Hp. clear Hp Hall. induction Hl as [|e a rows l [_ Hk] _ IH]; [done|].
    rewrite !fmap_cons, Hk. by rewrite IH.
Qed.

Lemma table_list_elem context created_at t l a :
  table_ok t -> table_list context created_at t = Ok l ->
  a ∈ l <-> table_get context t (key a) = Ok (Some a).
Proof.
  intros Hok Hl. destruct (table_list_spec context created_at t Hok) as (l' & Hl' & _ & Hall).
  rewrite Hl in Hl'. injection Hl' as <-. rewrite table_get_Some.
  set (rows := sort_by_key _ _) in Hall. assert (Hp : rows ≡ₚ map_iter t) by apply sort_by_perm.
  split.
  - intros Ha. apply list_elem_of_lookup in Ha as [i Hi].
    destruct (Forall2_lookup_r _ _ _ _ _ Hall Hi) as ([k row] & Hrow & Hd & Hk).
    apply list_elem_of_lookup_2 in Hrow. rewrite Hp in Hrow. apply elem_of_map_iter in Hrow.
    cbn in *. exists row. by rewrite Hk.
  - intros (row & Hr & Ha). assert (Hin : (key a, row) ∈ rows) by (rewrite Hp; by apply elem_of_map_iter).
    apply list_elem_of_lookup in Hin as [i Hi].
    destruct (Forall2_lookup_l _ _ _ _ _ Hall Hi) as (b & Hb & Hd & _). cbn in Hd.
    assert (b = a) as -> by congruence. by eapply list_elem_of_lookup_2.
Qed.
End record_tables.

(** ** Concrete instances

    A serialiser that knows finitely many values, each written as a unary
    numeral, and UUIDs so written. *)
Lemma length_tally n : String.length (tally n) = n.
Proof. induction n as [|n IH]; [done|]. cbn. by rewrite IH. Qed.

Lemma tally_le a b : String.le (tally a) (tally b) <-> a <= b.
Proof.
  unfold String.le. revert b. induction a as [|a IH]; intros [|b].
  - cbn. split; [lia|done].
  - cbn. split; [lia|done].
  - cbn. split; [done|lia].
  - assert (String.leb (tally (S a)) (tally (S b)) = String.leb (tally a) (tally b)) as -> by done.
    rewrite IH. lia.
Qed.

Definition known_json {A} `{EqDecision A} (known : list A) : SerdeJson A := {|
  json_to_string a := match list_find (fun x => a = x) known with
                      | Some (i, _) => Ok (tally i)
                      | None => Err "unknown value"
                      end;
  json_from_str text := ok_or (known !! String.length text) "unknown text" |}.

Lemma known_json_laws {A} `{EqDecision A} (known : list A) : @SerdeJsonLaws A (known_json known).
Proof.
  split. intros a text. cbn. destruct (list_find _ known) as [[i x]|] eqn:E; [|done].
  intros [= <-]. apply list_find_Some in E as (Hl & -> & _). by rewrite length_tally, Hl.
Qed.

Definition plain_uuid_text : @UuidText plain_uuid := {|
  uuid_from_str text := Some (N.of_nat (String.length text)) |}.

Lemma plain_uuid_text_laws : @UuidTextLaws plain_uuid plain_uuid_text.
Proof.
  split; cbn.
  - intros a b. rewrite tally_le. lia.
  - intros a. by rewrite length_tally, N2Nat.id.
Qed.
