(* ===== verification/SqliteStore.v ===== *)
(** * The SQLite store ([hub-store-sqlite/src/lib.rs])

    The tables of the schema, and the repository operations of [SqliteStore]
    as transactions on them: components, runs, tasks, artifact metadata,
    workflows and the lifecycle log. *)

From Stdlib Require Import Ascii.
From stdpp Require Import base gmap strings list sorting.
From S2P Require Import Prelude Text Core Version Digest Component Run Workflow Task TaskLifecycle.
From S2P Require Import Event Machine Memory Sql.

(** ** The schema *)
Record ComponentRow := {
  cor_manifest_json : string;
  cor_manifest_digest : string;
  cor_registered_at : N;
}.

(** The rows of [runs], [tasks] and [workflows]. *)
Record RecordRow := {
  rcr_created_at : N;
  rcr_state : string;
  rcr_record_json : string;
}.

Record ArtifactRow := {
  arr_digest : string;
  arr_created_at : N;
  arr_meta_json : string;
}.

Record EventRow := {
  evr_recorded_at : N;
  evr_kind : string;
  evr_entity_type : string;
  evr_entity_id : string;
  evr_attributes_json : string;
}.

Record FenceRow := {
  fer_generation : N;
  fer_attempt_id : string;
  fer_publication_json : option string;
}.

Record SandboxRow := {
  sbr_workspace : string;
  sbr_state : string;
  sbr_record_json : string;
}.

(** [tb_event_sequence] is the entry of [lifecycle_events] in SQLite's own
    table of AUTOINCREMENT counters. *)
Record Tables := mkTables {
  tb_components : gmap (string * string) ComponentRow;
  tb_runs : gmap string RecordRow;
  tb_artifact_meta : gmap string ArtifactRow;
  tb_workflows : gmap string RecordRow;
  tb_lifecycle_events : gmap N EventRow;
  tb_event_sequence : N;
  tb_workflow_publication_fences : gmap (string * string) FenceRow;
  tb_tasks : gmap string RecordRow;
  tb_sandbox_attempts : gmap string SandboxRow;
}.

Definition Tables_empty : Tables := mkTables ∅ ∅ ∅ ∅ ∅ 0 ∅ ∅ ∅.

Definition set_components x (t : Tables) : Tables := mkTables x (tb_runs t) (tb_artifact_meta t)
  (tb_workflows t) (tb_lifecycle_events t) (tb_event_sequence t) (tb_workflow_publication_fences t)
  (tb_tasks t) (tb_sandbox_attempts t).
Definition set_runs x (t : Tables) : Tables := mkTables (tb_components t) x (tb_artifact_meta t)
  (tb_workflows t) (tb_lifecycle_events t) (tb_event_sequence t) (tb_workflow_publication_fences t)
  (tb_tasks t) (tb_sandbox_attempts t).
Definition set_artifact_meta x (t : Tables) : Tables := mkTables (tb_components t) (tb_runs t) x
  (tb_workflows t) (tb_lifecycle_events t) (tb_event_sequence t) (tb_workflow_publication_fences t)
  (tb_tasks t) (tb_sandbox_attempts t).
Definition set_workflows x (t : Tables) : Tables := mkTables (tb_components t) (tb_runs t)
  (tb_artifact_meta t) x (tb_lifecycle_events t) (tb_event_sequence t)
  (tb_workflow_publication_fences t) (tb_tasks t) (tb_sandbox_attempts t).
Definition set_events x n (t : Tables) : Tables := mkTables (tb_components t) (tb_runs t)
  (tb_artifact_meta t) (tb_workflows t) x n (tb_workflow_publication_fences t) (tb_tasks t)
  (tb_sandbox_attempts t).
Definition set_fences x (t : Tables) : Tables := mkTables (tb_components t) (tb_runs t)
  (tb_artifact_meta t) (tb_workflows t) (tb_lifecycle_events t) (tb_event_sequence t) x (tb_tasks t)
  (tb_sandbox_attempts t).
Definition set_tasks x (t : Tables) : Tables := mkTables (tb_components t) (tb_runs t)
  (tb_artifact_meta t) (tb_workflows t) (tb_lifecycle_events t) (tb_event_sequence t)
  (tb_workflow_publication_fences t) x (tb_sandbox_attempts t).
Definition set_sandbox_attempts x (t : Tables) : Tables := mkTables (tb_components t) (tb_runs t)
  (tb_artifact_meta t) (tb_workflows t) (tb_lifecycle_events t) (tb_event_sequence t)
  (tb_workflow_publication_fences t) (tb_tasks t) x.

Abbreviation SqliteStore := (Database Tables).
Abbreviation sqlite A := (action SqliteStore CoreError A).

(** [INSERT .. ON CONFLICT(id) DO UPDATE SET state = .., record_json = ..]:
    the creation column of an existing row stays. *)
Definition upsert_record (id : string) (row : RecordRow) (t : gmap string RecordRow) : gmap string RecordRow :=
  <[id := {| rcr_created_at := match t !! id with Some old => rcr_created_at old | None => rcr_created_at row end;
             rcr_state := rcr_state row; rcr_record_json := rcr_record_json row |}]> t.

(** The state column of a workflow is the variant's name, [{:?}]. *)
Definition WorkflowState_debug (s : WorkflowState) : string :=
  match s with
  | WsCreated => "Created" | WsRunning => "Running" | WsSucceeded => "Succeeded"
  | WsFailed => "Failed" | WsCancelled => "Cancelled"
  end.

Section store.
Context `{JsonLib, ManifestJson, WorkspaceJson, Sha256Lib, UuidLib, Environment}.
Context `{SerdeJson ComponentManifest, SerdeJson RunRecord, SerdeJson TaskRecord, SerdeJson ArtifactMeta,
          SerdeJson WorkflowRecord, SerdeJson (gmap string string)}.

(** ** The lifecycle log *)
Definition insert_event (event : NewLifecycleEvent) (attributes_json : string) (t : Tables) : Tables * Result N :=
  if (i64_max <=? tb_event_sequence t)%N then (t, Err (Storage "appending lifecycle event"))
  else
    let sequence := (tb_event_sequence t + 1)%N in
    (set_events (<[sequence := {| evr_recorded_at := ne_recorded_at event;
                                  evr_kind := LifecycleEventKind_as_str (ne_kind event);
                                  evr_entity_type := LifecycleEntityType_as_str (ne_entity_type event);
                                  evr_entity_id := ne_entity_id event;
                                  evr_attributes_json := attributes_json |}]> (tb_lifecycle_events t))
       sequence t, Ok sequence).

Definition append_event_tx (event : NewLifecycleEvent) : sqlite LifecycleEvent :=
  attributes_json ← lift (encode_json "serializing lifecycle event" (ne_attributes event));
  _ ← lift (sql_u64 "appending lifecycle event" (ne_recorded_at event));
  sequence ← statement "appending lifecycle event" (insert_event event attributes_json);
  mret (stored_event sequence event).

Definition append_events (events : list NewLifecycleEvent) : sqlite unit :=
  forA_ (fun event => _ ← append_event_tx event; mret tt) events.

Definition decode_event (e : N * EventRow) : Result LifecycleEvent :=
  let '(sequence, row) := e in
  kind ← ok_or (LifecycleEventKind_parse (evr_kind row)) (Storage "unknown lifecycle event kind {kind:?}");
  entity_type ← ok_or (LifecycleEntityType_parse (evr_entity_type row))
                  (Storage "unknown lifecycle entity type {entity_type:?}");
  attributes ← decode_json "stored lifecycle attributes failed to deserialize: {e}" (evr_attributes_json row);
  Ok {| ev_sequence := sequence; ev_recorded_at := evr_recorded_at row; ev_kind := kind;
        ev_entity_type := entity_type; ev_entity_id := evr_entity_id row; ev_attributes := attributes |}.

(** [WHERE sequence > ?1 ORDER BY sequence LIMIT ?2]. *)
Definition SqliteStore_list_after (t : Tables) (after_sequence limit : N) : Result (list LifecycleEvent) :=
  _ ← validate_event_page_limit limit;
  after_sequence ← sql_u64 "querying lifecycle events" after_sequence;
  mapR decode_event
    (take (N.to_nat limit)
       (List.filter (fun e => (after_sequence <? e.1)%N) (map_iter (tb_lifecycle_events t)))).

(** [SELECT COALESCE(MAX(sequence), 0) FROM lifecycle_events]. *)
Definition SqliteStore_high_water_sequence (t : Tables) : Result N :=
  Ok (foldr N.max 0%N (map_keys (tb_lifecycle_events t))).

(** ** Components *)
Definition registry_key (m : ComponentManifest) : string * string :=
  (id_to_string (m_id m), version_str (m_version m)).

(** The primary key is [(id, version)]. *)
Definition insert_component (k : string * string) (row : ComponentRow) (t : Tables) : Tables * Result unit :=
  match tb_components t !! k with
  | Some _ => (t, Err (Storage "inserting component"))
  | None => (set_components (<[k := row]> (tb_components t)) t, Ok tt)
  end.

Definition SqliteStore_put_component (manifest : ComponentManifest) (storage_now : UnixMillis) : sqlite bool :=
  new_digest ← lift (ComponentManifest_content_digest manifest);
  json ← lift (encode_json "serializing manifest: {e}" manifest);
  transaction "beginning registration" "committing registration" (
    existing ← query "looking up component" (fun t => tb_components t !! registry_key manifest);
    match existing with
    | Some row =>
        if decide (cor_manifest_digest row = ContentDigest_to_hex new_digest) then mret (Dropping false)
        else throw (ComponentConflict (m_id manifest) (cor_manifest_digest row) (ContentDigest_to_hex new_digest))
    | None =>
        registered_at ← sql_now;
        _ ← statement "inserting component" (insert_component (registry_key manifest)
              {| cor_manifest_json := json; cor_manifest_digest := ContentDigest_to_hex new_digest;
                 cor_registered_at := registered_at |});
        _ ← append_event_tx (component_registered_event manifest storage_now);
        mret (Committing true)
    end).

Definition manifest_failed : string := "stored manifest failed to deserialize: {e}".

(** [WHERE id = ?1 ORDER BY version DESC LIMIT 1]. *)
Definition SqliteStore_latest_component (t : Tables) (id : ComponentId) : Result (option ComponentManifest) :=
  decode_row manifest_failed
    ((fun e : (string * string) * ComponentRow => cor_manifest_json e.2) <$>
       head (sort_by (fun a b => bool_decide (ord_le b.1.2 a.1.2))
               (List.filter (fun e => bool_decide (e.1.1 = id_to_string id)) (map_iter (tb_components t))))).

Definition SqliteStore_get_component (t : Tables) (id : ComponentId) (version : Version)
    : Result (option ComponentManifest) :=
  table_get cor_manifest_json manifest_failed (tb_components t) (id_to_string id, version_str version).

(** [ORDER BY id, version]. *)
Definition SqliteStore_list_components (t : Tables) : Result (list ComponentManifest) :=
  mapR (fun row => decode_json manifest_failed (cor_manifest_json row)) (map_values (tb_components t)).

(** ** Runs *)
Definition run_failed : string := "stored run failed to deserialize: {e}".

Definition SqliteStore_put_run (record : RunRecord) : sqlite unit :=
  json ← lift (encode_json "serializing run record: {e}" record);
  let id := id_to_string (run_id record) in
  transaction "beginning run upsert" "committing run upsert" (
    previous_json ← query "loading run before upsert" (fun t => rcr_record_json <$> tb_runs t !! id);
    previous ← lift (decode_row run_failed previous_json);
    created_at ← lift (sql_u64 "upserting run" (run_created_at record));
    _ ← execute_sql "upserting run" (fun t => set_runs (upsert_record id
          {| rcr_created_at := created_at; rcr_state := RunState_to_string (run_state record);
             rcr_record_json := json |} (tb_runs t)) t);
    _ ← append_events (derive_run_events previous record);
    mret (Committing tt)).

Definition SqliteStore_get_run (t : Tables) (id : RunId) : Result (option RunRecord) :=
  table_get rcr_record_json run_failed (tb_runs t) (id_to_string id).

Definition SqliteStore_list_runs (t : Tables) : Result (list RunRecord) :=
  table_list rcr_record_json run_failed rcr_created_at (tb_runs t).

(** ** Tasks *)
Definition task_failed : string := "stored task failed to deserialize: {e}".

Definition task_id (record : TaskRecord) : string := id_to_string (ts_id (tk_spec record)).

Definition SqliteStore_put_task (record : TaskRecord) : sqlite unit :=
  _ ← lift (TaskRecord_validate record);
  json ← lift (encode_json "serializing task record: {e}" record);
  transaction "beginning task upsert" "committing task upsert" (
    previous_json ← query "loading task before upsert" (fun t => rcr_record_json <$> tb_tasks t !! task_id record);
    previous ← lift (decode_row task_failed previous_json);
    _ ← lift (match previous with Some before => validate_task_snapshot_update before record | None => Ok tt end);
    created_at ← lift (sql_u64 "upserting task" (tk_created_at record));
    _ ← execute_sql "upserting task" (fun t => set_tasks (upsert_record (task_id record)
          {| rcr_created_at := created_at; rcr_state := TaskState_as_str (tk_state record);
             rcr_record_json := json |} (tb_tasks t)) t);
    _ ← append_events (derive_task_events previous record);
    mret (Committing tt)).

Definition SqliteStore_get_task (t : Tables) (id : TaskId) : Result (option TaskRecord) :=
  table_get rcr_record_json task_failed (tb_tasks t) (id_to_string id).

Definition SqliteStore_list_tasks (t : Tables) : Result (list TaskRecord) :=
  table_list rcr_record_json task_failed rcr_created_at (tb_tasks t).

(** ** Artifact metadata *)
Definition artifact_failed : string := "stored artifact failed to deserialize: {e}".

Definition insert_artifact (k : string) (row : ArtifactRow) (t : Tables) : Tables * Result unit :=
  match tb_artifact_meta t !! k with
  | Some _ => (t, Err (Storage "inserting artifact meta"))
  | None => (set_artifact_meta (<[k := row]> (tb_artifact_meta t)) t, Ok tt)
  end.

Definition SqliteStore_put_artifact (meta : ArtifactMeta) : sqlite unit :=
  _ ← lift (ArtifactMeta_validate meta);
  json ← lift (encode_json "serializing artifact meta: {e}" meta);
  let id := id_to_string (art_id meta) in
  transaction "beginning artifact insert" "committing artifact insert" (
    existing ← query "looking up artifact meta" (fun t => arr_digest <$> tb_artifact_meta t !! id);
    match existing with
    | Some digest =>
        if decide (digest = ContentDigest_to_hex (art_digest meta)) then mret (Dropping tt)
        else throw (Validation "artifact {} already exists with digest {digest}; refusing divergent metadata")
    | None =>
        created_at ← lift (sql_u64 "inserting artifact meta" (art_created_at meta));
        _ ← statement "inserting artifact meta" (insert_artifact id
              {| arr_digest := ContentDigest_to_hex (art_digest meta); arr_created_at := created_at;
                 arr_meta_json := json |});
        _ ← append_event_tx (artifact_recorded_event meta);
        mret (Committing tt)
    end).

Definition SqliteStore_get_artifact (t : Tables) (id : ArtifactId) : Result (option ArtifactMeta) :=
  table_get arr_meta_json artifact_failed (tb_artifact_meta t) (id_to_string id).

Definition SqliteStore_list_artifacts (t : Tables) : Result (list ArtifactMeta) :=
  table_list arr_meta_json artifact_failed arr_created_at (tb_artifact_meta t).

(** ** Workflows *)
Definition workflow_failed : string := "stored workflow failed to deserialize: {e}".

(** A cancellation request already stored is kept. *)
Definition merge_cancel (record : WorkflowRecord) (previous : option WorkflowRecord) : WorkflowRecord :=
  if is_some (wr_cancel_requested_at record) then record
  else match previous with
       | Some existing => WorkflowRecord_set_cancel record (wr_cancel_requested_at existing)
       | None => record
       end.

Definition SqliteStore_put_workflow (record : WorkflowRecord) (storage_now : UnixMillis) : sqlite unit :=
  transaction "beginning workflow upsert" "committing workflow upsert" (
    existing_json ← query "loading workflow before upsert"
      (fun t => rcr_record_json <$> tb_workflows t !! id_to_string (wr_id record));
    previous ← lift (decode_row workflow_failed existing_json);
    let stored := merge_cancel record previous in
    json ← lift (encode_json "serializing workflow: {e}" stored);
    created_at ← lift (sql_u64 "upserting workflow" (wr_created_at stored));
    _ ← execute_sql "upserting workflow" (fun t => set_workflows (upsert_record (id_to_string (wr_id stored))
          {| rcr_created_at := created_at; rcr_state := WorkflowState_debug (wr_state stored);
             rcr_record_json := json |} (tb_workflows t)) t);
    _ ← append_events (derive_workflow_events previous stored storage_now);
    mret (Committing tt)).

(** [UPDATE workflows SET record_json = ?2 WHERE id = ?1]. *)
Definition update_workflow_json (id json : string) (t : Tables) : Tables :=
  set_workflows (alter (fun row => {| rcr_created_at := rcr_created_at row; rcr_state := rcr_state row;
                                      rcr_record_json := json |}) id (tb_workflows t)) t.

Definition SqliteStore_request_cancel (id : WorkflowId) (at_ : UnixMillis) : sqlite (option WorkflowRecord) :=
  transaction "beginning workflow cancellation" "committing workflow cancellation" (
    json ← query "loading workflow for cancellation" (fun t => rcr_record_json <$> tb_workflows t !! id_to_string id);
    match json with
    | None => mret (Dropping None)
    | Some json =>
        record ← lift (decode_json workflow_failed json);
        if negb (WorkflowState_is_terminal (wr_state record)) && negb (is_some (wr_cancel_requested_at record)) then
          let record := WorkflowRecord_set_cancel record (Some at_) in
          updated ← lift (encode_json "serializing workflow: {e}" record);
          _ ← execute_sql "persisting workflow cancellation" (update_workflow_json (id_to_string id) updated);
          _ ← append_event_tx (workflow_cancel_requested_event (id_to_string id) at_);
          mret (Committing (Some record))
        else mret (Committing (Some record))
    end).

Definition SqliteStore_get_workflow (t : Tables) (id : WorkflowId) : Result (option WorkflowRecord) :=
  table_get rcr_record_json workflow_failed (tb_workflows t) (id_to_string id).

Definition SqliteStore_list_workflows (t : Tables) : Result (list WorkflowRecord) :=
  table_list rcr_record_json workflow_failed rcr_created_at (tb_workflows t).
End store.
