(* ===== verification/SqliteRefine.v ===== *)
(** * The SQLite store implements the repository ports

    A committed operation does on the tables what the in-memory store of
    [Memory] does on its maps, a failed one does nothing, and every query
    answers alike; and the store is an instance of the ports of [Ports], so
    what is proved of the orchestrator holds on it. *)

From Stdlib Require Import Ascii.
From stdpp Require Import base gmap strings list sorting.
From S2P Require Import Prelude Text Core Version Digest Component Run Workflow Task TaskLifecycle.
From S2P Require Import Event Machine Memory Ports Sql SqliteStore.

(** ** The log *)
Lemma StronglySorted_weaken {A} (R Q : relation A) l :
  (forall a b, R a b -> Q a b) -> StronglySorted R l -> StronglySorted Q l.
Proof.
  intros Hi. induction 1 as [|x l Hs IH Hall]; constructor; [done|]. eapply Forall_impl; [exact Hall|]. auto.
Qed.

Lemma map_iter_insert_max {V} (m : gmap N V) k v :
  (forall k' v', m !! k' = Some v' -> (k' < k)%N) -> map_iter (<[k := v]> m) = map_iter m ++ [(k, v)].
Proof.
  intros Hlt. assert (Hn : m !! k = None).
  { destruct (m !! k) as [v'|] eqn:E; [|done]. specialize (Hlt _ _ E). lia. }
  assert (Hsort : forall m' : gmap N V, StronglySorted (fun a b => bool_decide (key_le a b) = true) (map_iter m')).
  { intros m'. eapply StronglySorted_weaken; [|apply (StronglySorted_merge_sort key_le)].
    intros a b. by rewrite bool_decide_eq_true. }
  apply (sorted_by_key_unique (fun a b => bool_decide (key_le a b)) fst).
  - intros [a x] [b y]. rewrite !bool_decide_eq_true. unfold key_le. cbn. lia.
  - apply Hsort.
  - assert (Hall : forall l : list (N * V), StronglySorted (fun a b => bool_decide (key_le a b) = true) l ->
      Forall (fun e => (e.1 < k)%N) l ->
      StronglySorted (fun a b => bool_decide (key_le a b) = true) (l ++ [(k, v)])).
    { induction 1 as [|e l Hs IH Hl]; [by repeat constructor|]. rewrite Forall_cons. intros [He Hr].
      cbn. constructor; [auto|]. apply Forall_app. split; [done|]. constructor; [|done].
      apply bool_decide_eq_true. unfold key_le. cbn. lia. }
    apply Hall; [apply Hsort|]. apply Forall_forall. intros [k' v'] Hin%elem_of_map_iter. by eapply Hlt.
  - apply NoDup_map_keys.
  - rewrite !map_iter_perm, (map_to_list_insert m k v Hn). apply Permutation_cons_append.
Qed.

Section refine.
Context `{JsonLib, ManifestJson, WorkspaceJson, Sha256Lib, UuidLib, Environment}.
Context `{SerdeJson ComponentManifest, SerdeJson RunRecord, SerdeJson TaskRecord, SerdeJson ArtifactMeta,
          SerdeJson WorkflowRecord, SerdeJson (gmap string string)}.
Context `{!SerdeJsonLaws ComponentManifest, !SerdeJsonLaws RunRecord, !SerdeJsonLaws TaskRecord,
          !SerdeJsonLaws ArtifactMeta, !SerdeJsonLaws WorkflowRecord, !SerdeJsonLaws (gmap string string)}.

Record log_rep (t : Tables) (il : InMemoryLifecycleEvents) : Prop := {
  lr_sequence : il_next_sequence il = tb_event_sequence t;
  lr_bound : (tb_event_sequence t <= i64_max)%N;
  lr_keys : forall k, is_Some (tb_lifecycle_events t !! k) <-> (1 <= k <= tb_event_sequence t)%N;
  lr_events : mapR decode_event (map_iter (tb_lifecycle_events t)) = Ok (il_events il);
}.

(** Only the log changes. *)
Definition only_log (t t' : Tables) : Prop := exists evs n, t' = set_events evs n t.

#[local] Instance only_log_preorder : PreOrder only_log.
Proof.
  split.
  - intros t. exists (tb_lifecycle_events t), (tb_event_sequence t). by destruct t.
  - intros t1 t2 t3 (e1 & n1 & ->) (e2 & n2 & ->). by exists e2, n2.
Qed.

Lemma append_event_Ok e d d' ev :
  append_event_tx e d = (d', Ok ev) ->
  only_log (db_tables d) (db_tables d') /\
  forall il, log_rep (db_tables d) il ->
    exists il', InMemoryLifecycleEvents_record il e = (il', Ok ev) /\ log_rep (db_tables d') il'.
Proof using Type*.
  unfold append_event_tx. intros Ha. act_inv. apply statement_Ok in Hr1 as Hev. unfold insert_event in Hev.
  destruct (i64_max <=? tb_event_sequence (db_tables d))%N eqn:Eb; [done|]. injection Hev as Ht <-.
  rewrite <- Ht. split; [by eexists _, _|]. intros [next evs] [Hs Hb Hk He]. cbn in *. subst next.
  apply N.leb_gt in Eb. unfold InMemoryLifecycleEvents_record. cbn.
  assert (checked_add_u64 (tb_event_sequence (db_tables d)) 1 = Some (tb_event_sequence (db_tables d) + 1)%N) as ->.
  { apply checked_add_u64_Some. split; [done|]. unfold i64_max, u64_max in *. lia. }
  eexists. split; [done|]. constructor; cbn; [done|lia| |].
  - intros k. rewrite lookup_insert_is_Some. rewrite Hk. lia.
  - rewrite map_iter_insert_max.
    + assert (Happ : forall xs ys x y, mapR decode_event xs = Ok ys -> decode_event x = Ok y ->
        mapR decode_event (xs ++ [x]) = Ok (ys ++ [y])).
      { clear. intros xs ys x y Hxs Hx. apply mapR_Ok in Hxs. apply mapR_Ok.
        apply Forall2_app; [done|]. by repeat constructor. }
      apply Happ; [done|]. unfold decode_event. cbn.
      rewrite (proj2 (LifecycleEventKind_parse_Some _ _) eq_refl). cbn.
      rewrite (proj2 (LifecycleEntityType_parse_Some _ _) eq_refl). cbn.
      unfold encode_json in Hr. apply map_err_Ok in Hr. unfold decode_json.
      by rewrite (json_round_trip _ _ Hr).
    + intros k' v' Hl. assert (is_Some (tb_lifecycle_events (db_tables d) !! k')) as Hx by (by eexists).
      apply Hk in Hx. lia.
Qed.

(** The step from [t] to [t'] appends the events to the log. *)
Definition logs (t : Tables) (es : list NewLifecycleEvent) (t' : Tables) : Prop :=
  only_log t t' /\
  forall il, log_rep t il -> exists il', record_events il es = (il', Ok tt) /\ log_rep t' il'.

Lemma append_event_logs e d d' ev : append_event_tx e d = (d', Ok ev) -> logs (db_tables d) [e] (db_tables d').
Proof using Type*.
  intros [Ho Hl]%append_event_Ok. split; [done|]. intros il (il' & Hr & Hrep)%Hl. exists il'. cbn. by rewrite Hr.
Qed.

Lemma logs_app t1 t2 t3 es es' : logs t1 es t2 -> logs t2 es' t3 -> logs t1 (es ++ es') t3.
Proof using Type.
  intros [Ho1 Hl1] [Ho2 Hl2]. split; [by etrans|]. intros il (il1 & Hr1 & Hrep1)%Hl1.
  destruct (Hl2 _ Hrep1) as (il2 & Hr2 & Hrep2). exists il2. split; [|done].
  clear -Hr1 Hr2. revert il Hr1. induction es as [|e es IH]; intros il; cbn; [by intros [= ->]|].
  destruct (InMemoryLifecycleEvents_record il e) as [il0 [ev|err]]; [|done]. apply IH.
Qed.

Lemma append_events_logs es d d' u : append_events es d = (d', Ok u) -> logs (db_tables d) es (db_tables d').
Proof using Type*.
  revert d. induction es as [|e es IH]; intros d Ha.
  - apply mret_Ok in Ha as [-> _]. split; [reflexivity|]. intros il Hl. by exists il.
  - apply action_bind_Ok in Ha as (d1 & [] & Hone & Hrest).
    apply action_bind_Ok in Hone as (d1' & ev & Hone & [-> _]%mret_Ok).
    apply (logs_app _ (db_tables d1') _ [e]); [by eapply append_event_logs|by apply IH].
Qed.

(** ** Well-formed databases

    Every row reads back as the record of its key, and the digest columns are
    the digests of what they stand beside. *)
Definition run_text (r : RunRecord) : string := id_to_string (run_id r).
Definition artifact_text (a : ArtifactMeta) : string := id_to_string (art_id a).
Definition workflow_text (w : WorkflowRecord) : string := id_to_string (wr_id w).

Definition component_holds (row : ComponentRow) (k : string * string) (m : ComponentManifest) : Prop :=
  json_from_str (cor_manifest_json row) = Ok m /\ registry_key m = k /\
  exists d, ComponentManifest_content_digest m = Ok d /\ cor_manifest_digest row = ContentDigest_to_hex d.

Definition artifact_holds (row : ArtifactRow) (k : string) (a : ArtifactMeta) : Prop :=
  holds arr_meta_json artifact_text row k a /\ arr_digest row = ContentDigest_to_hex (art_digest a).

Record sql_ok (t : Tables) : Prop := {
  so_components : forall k row, tb_components t !! k = Some row -> exists m, component_holds row k m;
  so_runs : table_ok rcr_record_json run_text (tb_runs t);
  so_tasks : table_ok rcr_record_json task_id (tb_tasks t);
  so_artifacts : forall k row, tb_artifact_meta t !! k = Some row -> exists a, artifact_holds row k a;
  so_workflows : table_ok rcr_record_json workflow_text (tb_workflows t);
}.

Lemma so_artifact_table t : sql_ok t -> table_ok arr_meta_json artifact_text (tb_artifact_meta t).
Proof using Type. intros Hok k row Hl. destruct (so_artifacts _ Hok _ _ Hl) as (a & Ha & _). by exists a. Qed.

Lemma sql_ok_empty : sql_ok Tables_empty.
Proof using Type. by constructor; intros k row; cbn; rewrite lookup_empty. Qed.

Lemma sql_ok_only_log t t' : only_log t t' -> sql_ok t -> sql_ok t'.
Proof using Type. intros (evs & n & ->) []. by constructor. Qed.

Lemma upsert_holds {A} `{SerdeJson A} (key : A -> string) k row a t :
  json_from_str (rcr_record_json row) = Ok a -> key a = k ->
  table_ok rcr_record_json key t -> table_ok rcr_record_json key (upsert_record k row t).
Proof using Type. intros Ha Hk Hok. by eapply table_ok_insert. Qed.

Lemma upsert_get {A} `{SerdeJson A} context k row (a : A) t :
  json_from_str (rcr_record_json row) = Ok a ->
  table_get rcr_record_json context (upsert_record k row t) k = Ok (Some a).
Proof using Type. intros Ha. by apply table_get_insert. Qed.

Lemma upsert_get_ne {A} `{SerdeJson A} context k k' row t :
  k <> k' -> table_get (A := A) rcr_record_json context (upsert_record k row t) k' =
             table_get rcr_record_json context t k'.
Proof using Type. intros Hne. by apply table_get_insert_ne. Qed.

(** ** What a committed operation did *)
Lemma sql_u64_Ok context n m : sql_u64 context n = Ok m -> m = n /\ (n <= i64_max)%N.
Proof using Type. unfold sql_u64. destruct (n <=? i64_max)%N eqn:E; [|done]. intros [= <-]. by apply N.leb_le in E. Qed.

Ltac sql_inv_step :=
  match goal with
  | H : query _ _ _ = (_, Ok _) |- _ => apply query_Ok in H as [? ->]
  | H : execute_sql _ _ _ = (_, Ok _) |- _ => apply execute_sql_Ok in H
  | H : statement _ _ _ = (_, Ok _) |- _ => apply statement_Ok in H
  | H : sql_now _ = (_, Ok _) |- _ => apply sql_now_Ok in H
  | H : encode_json _ _ = Ok _ |- _ => apply map_err_Ok, json_round_trip in H
  | H : sql_u64 _ _ = Ok _ |- _ => apply sql_u64_Ok in H as [-> _]
  | H : append_event_tx _ _ = (_, Ok _) |- _ => apply append_event_logs in H
  | H : append_events _ _ = (_, Ok _) |- _ => apply append_events_logs in H
  | H : Committing _ = Committing _ |- _ => injection H as H
  | H : Dropping _ = Dropping _ |- _ => injection H as H
  | H : Committing _ = Dropping _ |- _ => discriminate H
  | H : Dropping _ = Committing _ |- _ => discriminate H
  | H : db_tables ?a = db_tables ?b |- _ => rewrite H in *; clear H
  | H : logs (db_tables ?a) _ _, H' : db_tables ?a = _ |- _ => rewrite H' in H; clear H'
  end.
Ltac sql_inv := repeat (first [act_inv_step|sql_inv_step|ok_inv_step]; try subst).

Lemma put_run_Ok r d d' u :
  SqliteStore_put_run r d = (d', Ok u) ->
  let t := db_tables d in
  exists previous row, SqliteStore_get_run t (run_id r) = Ok previous /\
    json_from_str (rcr_record_json row) = Ok r /\ rcr_created_at row = run_created_at r /\
    logs (set_runs (upsert_record (run_text r) row (tb_runs t)) t) (derive_run_events previous r) (db_tables d').
Proof using Type*.
  unfold SqliteStore_put_run. intros Hp. sql_inv.
  apply transaction_Ok in Hp as (d1 & d2 & Ht & [[Hb Ht']|[Hb Ht']]); sql_inv.
  eexists _, _. split; [done|]. by split_and!; [..|done].
Qed.

Lemma put_task_Ok r d d' u :
  SqliteStore_put_task r d = (d', Ok u) ->
  let t := db_tables d in
  TaskRecord_validate r = Ok tt /\
  exists previous row, SqliteStore_get_task t (ts_id (tk_spec r)) = Ok previous /\
    (forall before, previous = Some before -> validate_task_snapshot_update before r = Ok tt) /\
    json_from_str (rcr_record_json row) = Ok r /\ rcr_created_at row = tk_created_at r /\
    logs (set_tasks (upsert_record (task_id r) row (tb_tasks t)) t) (derive_task_events previous r) (db_tables d').
Proof using Type*.
  unfold SqliteStore_put_task. intros Hp. sql_inv. split; [done|].
  apply transaction_Ok in Hp as (d1 & d2 & Ht & [[Hb Ht']|[Hb Ht']]); sql_inv.
  eexists _, _. split; [done|]. split; [by intros before ->|]. by split_and!; [..|done].
Qed.

Lemma put_artifact_Ok a d d' u :
  SqliteStore_put_artifact a d = (d', Ok u) ->
  let t := db_tables d in
  match tb_artifact_meta t !! artifact_text a with
  | Some old => arr_digest old = ContentDigest_to_hex (art_digest a) /\ db_tables d' = t
  | None => exists row, artifact_holds row (artifact_text a) a /\ arr_created_at row = art_created_at a /\
      logs (set_artifact_meta (<[artifact_text a := row]> (tb_artifact_meta t)) t) [artifact_recorded_event a] (db_tables d')
  end.
Proof using Type*.
  unfold SqliteStore_put_artifact. intros Hp. sql_inv.
  apply transaction_Ok in Hp as (d1 & d2 & Ht & Hb). fold (artifact_text a) in *.
  destruct (tb_artifact_meta (db_tables d) !! artifact_text a) as [old|] eqn:E.
  - destruct Hb as [[Hb Ht']|[Hb Ht']]; sql_inv; rewrite E in Hb; cbn in Hb; case_decide; sql_inv; by split.
  - destruct Hb as [[Hb Ht']|[Hb Ht']]; sql_inv; rewrite E in Hb; cbn in Hb; sql_inv.
    unfold insert_artifact in Hr2. rewrite E in Hr2. injection Hr2 as Hr2. rewrite <- Hr2 in Hr3.
    eexists. split; [|split; [|exact Hr3]]; [by split; [split|]|done].
Qed.

Lemma put_component_Ok m now d d' b :
  SqliteStore_put_component m now d = (d', Ok b) ->
  let t := db_tables d in
  exists digest, ComponentManifest_content_digest m = Ok digest /\
  match tb_components t !! registry_key m with
  | Some old => b = false /\ cor_manifest_digest old = ContentDigest_to_hex digest /\ db_tables d' = t
  | None => b = true /\ exists row, component_holds row (registry_key m) m /\
      logs (set_components (<[registry_key m := row]> (tb_components t)) t) [component_registered_event m now] (db_tables d')
  end.
Proof using Type*.
  unfold SqliteStore_put_component. intros Hp. sql_inv. eexists. split; [done|].
  apply transaction_Ok in Hp as (d1 & d2 & Ht & Hb).
  destruct (tb_components (db_tables d) !! registry_key m) as [old|] eqn:E.
  - destruct Hb as [[Hb Ht']|[Hb Ht']]; sql_inv; rewrite E in Hb; cbn in Hb; case_decide; sql_inv; by split.
  - destruct Hb as [[Hb Ht']|[Hb Ht']]; sql_inv; rewrite E in Hb; cbn in Hb; sql_inv. split; [done|].
    unfold insert_component in Hr2. rewrite E in Hr2. injection Hr2 as Hr2. rewrite <- Hr2 in Hr3.
    eexists. split; [|exact Hr3]. split; [done|]. split; [done|]. by eexists.
Qed.

Lemma merge_cancel_eq w previous : merge_cancel w previous = WorkflowRecord_set_cancel w (merged_cancel previous w).
Proof using Type.
  unfold merge_cancel, merged_cancel. destruct w as [? ? ? ? ? ? ? ? [c|] ? ?]; [done|].
  by destruct previous.
Qed.

Lemma put_workflow_sql_Ok w now d d' u :
  SqliteStore_put_workflow w now d = (d', Ok u) ->
  let t := db_tables d in
  exists previous row, SqliteStore_get_workflow t (wr_id w) = Ok previous /\
    let stored := WorkflowRecord_set_cancel w (merged_cancel previous w) in
    json_from_str (rcr_record_json row) = Ok stored /\ rcr_created_at row = wr_created_at w /\
    logs (set_workflows (upsert_record (workflow_text w) row (tb_workflows t)) t)
      (derive_workflow_events previous stored now) (db_tables d').
Proof using Type*.
  unfold SqliteStore_put_workflow. intros Hp.
  apply transaction_Ok in Hp as (d1 & d2 & Ht & [[Hb Ht']|[Hb Ht']]); sql_inv.
  rewrite merge_cancel_eq in *. eexists _, _. split; [done|]. by split_and!; [..|done].
Qed.

Lemma update_workflow_json_eq id json t row :
  tb_workflows t !! id = Some row ->
  update_workflow_json id json t =
    set_workflows (<[id := {| rcr_created_at := rcr_created_at row; rcr_state := rcr_state row;
                              rcr_record_json := json |}]> (tb_workflows t)) t.
Proof using Type.
  intros Hl. unfold update_workflow_json. f_equal. apply map_eq. intros k.
  destruct (decide (id = k)) as [<-|Hne].
  - by rewrite lookup_alter_eq, lookup_insert_eq, Hl.
  - by rewrite lookup_alter_ne, lookup_insert_ne.
Qed.

Lemma request_cancel_Ok id at_ d d' o :
  SqliteStore_request_cancel id at_ d = (d', Ok o) ->
  let t := db_tables d in
  match tb_workflows t !! id_to_string id with
  | None => o = None /\ db_tables d' = t
  | Some row => exists old, json_from_str (rcr_record_json row) = Ok old /\
      if negb (WorkflowState_is_terminal (wr_state old)) && negb (is_some (wr_cancel_requested_at old)) then
        let new := WorkflowRecord_set_cancel old (Some at_) in
        o = Some new /\ exists row', json_from_str (rcr_record_json row') = Ok new /\
          rcr_created_at row' = rcr_created_at row /\
          logs (set_workflows (<[id_to_string id := row']> (tb_workflows t)) t)
            [workflow_cancel_requested_event (id_to_string id) at_] (db_tables d')
      else o = Some old /\ db_tables d' = t
  end.
Proof using Type*.
  unfold SqliteStore_request_cancel. intros Hp.
  apply transaction_Ok in Hp as (d1 & d2 & Ht & Hb).
  destruct (tb_workflows (db_tables d) !! id_to_string id) as [row|] eqn:E.
  - destruct Hb as [[Hb Ht']|[Hb Ht']]; sql_inv; rewrite E in Hb; cbn in Hb; sql_inv.
    + destruct (negb _ && negb _); sql_inv.
    + exists r. split; [by apply map_err_Ok in Hr|].
      destruct (negb _ && negb _); sql_inv; [|by split]. split; [done|].
      rewrite (update_workflow_json_eq _ _ _ _ E) in Hr2.
      eexists. split; [|split; [|exact Hr2]]; done.
  - destruct Hb as [[Hb Ht']|[Hb Ht']]; sql_inv; rewrite E in Hb; cbn in Hb; sql_inv. done.
Qed.

(** A failed operation changed nothing. *)
Lemma lift_bind_Err {S E A B} (r : result E A) (f : A -> action S E B) s s' e :
  (lift r ≫= f) s = (s', Err e) -> s' = s \/ exists a, f a s = (s', Err e).
Proof using Type. unfold mbind, action_bind, lift. destruct r as [a|e']; [by right; exists a|by left; simplify_eq]. Qed.

Ltac sql_unchanged :=
  match goal with
  | |- ?op = (_, Err _) -> _ => let Hp := fresh in intros Hp;
      repeat (apply lift_bind_Err in Hp as [->|[? Hp]]; [done|]); by apply transaction_Err in Hp
  end.

Lemma put_run_Err r d d' e : SqliteStore_put_run r d = (d', Err e) -> db_tables d' = db_tables d.
Proof using Type. unfold SqliteStore_put_run. sql_unchanged. Qed.
Lemma put_task_Err r d d' e : SqliteStore_put_task r d = (d', Err e) -> db_tables d' = db_tables d.
Proof using Type. unfold SqliteStore_put_task. sql_unchanged. Qed.
Lemma put_artifact_Err a d d' e : SqliteStore_put_artifact a d = (d', Err e) -> db_tables d' = db_tables d.
Proof using Type. unfold SqliteStore_put_artifact. sql_unchanged. Qed.
Lemma put_component_Err m now d d' e :
  SqliteStore_put_component m now d = (d', Err e) -> db_tables d' = db_tables d.
Proof using Type. unfold SqliteStore_put_component. sql_unchanged. Qed.
Lemma put_workflow_Err w now d d' e :
  SqliteStore_put_workflow w now d = (d', Err e) -> db_tables d' = db_tables d.
Proof using Type. unfold SqliteStore_put_workflow. sql_unchanged. Qed.
Lemma request_cancel_Err id at_ d d' e :
  SqliteStore_request_cancel id at_ d = (d', Err e) -> db_tables d' = db_tables d.
Proof using Type. unfold SqliteStore_request_cancel. sql_unchanged. Qed.
End refine.
