(* ===== verification/SqlitePorts.v ===== *)
(** * The SQLite store behind the repository ports

    [SqliteStore] as an instance of [Repositories] and its laws: what is
    proved of the orchestrator against the ports holds with this store. *)

From Stdlib Require Import Ascii.
From stdpp Require Import base gmap strings list sorting.
From S2P Require Import Prelude Text Core Version Digest Component Run Workflow Task TaskLifecycle.
From S2P Require Import Event Machine Memory Ports Sql SqliteStore SqliteRefine.

Section ports.
Context `{JsonLib, ManifestJson, WorkspaceJson, Sha256Lib, UuidLib, Environment}.
Context `{SerdeJson ComponentManifest, SerdeJson RunRecord, SerdeJson TaskRecord, SerdeJson ArtifactMeta,
          SerdeJson WorkflowRecord, SerdeJson (gmap string string)}.
Context `{!SerdeJsonLaws ComponentManifest, !SerdeJsonLaws RunRecord, !SerdeJsonLaws TaskRecord,
          !SerdeJsonLaws ArtifactMeta, !SerdeJsonLaws WorkflowRecord, !SerdeJsonLaws (gmap string string)}.
Context {UT : UuidText} {UTL : UuidTextLaws}.

(** ** The texts of identifiers *)
#[global] Instance uuid_text_inj : Inj (=) (=) uuid_hyphenated.
Proof using UTL.
  intros a b Heq. assert (a <= b /\ b <= a)%N as [? ?]; [|lia].
  split; apply uuid_text_order; by rewrite Heq.
Qed.

#[global] Instance id_text_inj k : Inj (=) (=) (id_to_string (k := k)).
Proof using UTL. apply id_to_string_inj, _. Qed.

#[global] Instance version_str_inj : Inj (=) (=) version_str.
Proof. intros [x] [y]. cbn. by intros ->. Qed.

Lemma component_text_le (a b : ComponentId * Version) :
  ord_le (id_to_string a.1, version_str a.2) (id_to_string b.1, version_str b.2) <-> ord_le a b.
Proof using UTL.
  destruct a as [a v], b as [b w]. unfold ord_le, pair_ordered, pair_le. cbn. unfold Version_le.
  rewrite (inj_iff (id_to_string (k := KComponent))). unfold id_to_string.
  by rewrite <- (uuid_text_order (as_uuid a) (as_uuid b)).
Qed.

(** ** The operations as ports *)
#[global] Instance SqliteRepositories : Repositories SqliteStore := {|
  components_put d m t := SqliteStore_put_component m t d;
  components_latest d := SqliteStore_latest_component (db_tables d);
  components_get d := SqliteStore_get_component (db_tables d);
  components_list d := SqliteStore_list_components (db_tables d);
  runs_put d r := SqliteStore_put_run r d;
  runs_get d := SqliteStore_get_run (db_tables d);
  artifacts_put d a := SqliteStore_put_artifact a d;
  artifacts_get d := SqliteStore_get_artifact (db_tables d);
  workflows_put d w t := SqliteStore_put_workflow w t d;
  workflows_get d := SqliteStore_get_workflow (db_tables d);
  workflows_list d := SqliteStore_list_workflows (db_tables d);
  workflows_request_cancel d id t := SqliteStore_request_cancel id t d;
  repo_ok d := sql_ok (db_tables d) |}.

(** ** The registry *)
Lemma so_component_table t : sql_ok t -> table_ok cor_manifest_json registry_key (tb_components t).
Proof using Type.
  intros Hok k row Hl. destruct (so_components _ Hok _ _ Hl) as (m & Hj & Hk & _). by exists m.
Qed.

Lemma get_component_key t id v m :
  sql_ok t -> SqliteStore_get_component t id v = Ok (Some m) -> m_id m = id /\ m_version m = v.
Proof using UTL.
  intros Hok%so_component_table Hg%(table_get_key _ registry_key); [|done].
  unfold registry_key in Hg. by simplify_eq.
Qed.

Lemma registered_row t m :
  SqliteStore_get_component t (m_id m) (m_version m) = Ok (Some m) <->
  exists row, tb_components t !! registry_key m = Some row /\ json_from_str (cor_manifest_json row) = Ok m.
Proof using Type. apply table_get_Some. Qed.

(** The row of the greatest version text. *)
Lemma latest_row t (id : ComponentId) :
  let rows := List.filter (fun e => bool_decide (e.1.1 = id_to_string id)) (map_iter (tb_components t)) in
  let top := head (sort_by (fun a b => bool_decide (ord_le b.1.2 a.1.2)) rows) in
  match top with
  | None => forall v, tb_components t !! (id_to_string id, v) = None
  | Some (k, row) => k.1 = id_to_string id /\ tb_components t !! k = Some row /\
      forall v row', tb_components t !! (id_to_string id, v) = Some row' -> ord_le v k.2
  end.
Proof using Type.
  intros rows top. assert (Hin : forall k row, (k, row) ∈ rows <-> k.1 = id_to_string id /\ tb_components t !! k = Some row).
  { intros k row. subst rows. rewrite list_filter_bool, list_elem_of_filter, bool_decide_eq_true.
    by rewrite elem_of_map_iter. }
  subst top. set (le := fun a b : (string * string) * ComponentRow => _).
  pose proof (sort_by_perm le rows) as Hp.
  assert (Hs : StronglySorted (fun a b => le a b = true) (sort_by le rows)).
  { apply sort_by_sorted; unfold le.
    - intros a b. rewrite !bool_decide_eq_true. apply (total ord_le).
    - intros a b c. rewrite !bool_decide_eq_true. intros ? ?. by etrans. }
  destruct (sort_by le rows) as [|[k row] l]; cbn.
  - intros v. destruct (tb_components t !! _) as [row|] eqn:E; [|done].
    assert (Hr : ((id_to_string id, v), row) ∈ rows) by (by apply Hin).
    rewrite <- Hp in Hr. by apply elem_of_nil in Hr.
  - assert (Hr : (k, row) ∈ rows) by (rewrite <- Hp; left). apply Hin in Hr as [Hk Hl].
    split_and!; [done|done|]. intros v row' Hv.
    assert (Hr : ((id_to_string id, v), row') ∈ rows) by (by apply Hin).
    rewrite <- Hp in Hr. apply elem_of_cons in Hr as [[= <- _]|Hr]; [done|].
    apply StronglySorted_inv in Hs as [_ Hall]. rewrite Forall_forall in Hall.
    specialize (Hall _ Hr). unfold le in Hall. by apply bool_decide_eq_true in Hall.
Qed.

Lemma latest_law t id m :
  sql_ok t ->
  SqliteStore_latest_component t id = Ok (Some m) <->
  m_id m = id /\ SqliteStore_get_component t (m_id m) (m_version m) = Ok (Some m) /\
  forall m', SqliteStore_get_component t (m_id m') (m_version m') = Ok (Some m') -> m_id m' = id ->
    ord_le (m_version m') (m_version m).
Proof using UTL.
  intros Hok. pose proof (latest_row t id) as Hl. cbn zeta in Hl. unfold SqliteStore_latest_component.
  destruct (head _) as [[k row]|]; cbn; unfold decode_json.
  - destruct Hl as (Hk & Hrow & Hmax). destruct (so_component_table _ Hok _ _ Hrow) as (m0 & Hj & Hkey).
    rewrite Hj. cbn. assert (Hid : m_id m0 = id) by (subst k; cbn in Hk; by simplify_eq).
    assert (Hget0 : SqliteStore_get_component t (m_id m0) (m_version m0) = Ok (Some m0))
      by (apply registered_row; exists row; by rewrite Hkey).
    assert (Hmax0 : forall m', SqliteStore_get_component t (m_id m') (m_version m') = Ok (Some m') ->
              m_id m' = id -> ord_le (m_version m') (m_version m0)).
    { intros m' (row' & Hr' & _)%registered_row <-. subst k. by apply Hmax in Hr'. }
    split.
    + intros [= <-]. by split_and!.
    + intros (<- & Hm & Hmx). assert (m_version m = m_version m0) as Hv by (apply (anti_symm ord_le); [by apply Hmax0|by apply Hmx]).
      rewrite Hv, <- Hid, Hget0 in Hm. congruence.
  - split; [done|]. intros (<- & (row & Hr & _)%registered_row & _). unfold registry_key in Hr.
    by rewrite Hl in Hr.
Qed.

Lemma list_law t :
  sql_ok t -> exists l, SqliteStore_list_components t = Ok l /\
    (forall m, m ∈ l <-> SqliteStore_get_component t (m_id m) (m_version m) = Ok (Some m)) /\
    registry_key <$> l = map_keys (tb_components t).
Proof using Type.
  intros Hok%so_component_table. unfold SqliteStore_list_components, map_values, map_keys.
  assert (exists l, Forall2 (fun e m => holds cor_manifest_json registry_key e.2 e.1 m) (map_iter (tb_components t)) l)
    as [l Hl].
  { assert (Hall : forall e, e ∈ map_iter (tb_components t) -> exists m, holds cor_manifest_json registry_key e.2 e.1 m)
      by (intros [k row] Hin%elem_of_map_iter; by apply Hok).
    induction (map_iter (tb_components t)) as [|e es IH]; [by exists []|].
    destruct (Hall e) as [m Hm]; [left|]. destruct IH as [l Hl]; [intros; apply Hall; by right|].
    exists (m :: l). by constructor. }
  exists l. split_and!.
  - apply mapR_Ok, Forall2_fmap_l. eapply Forall2_impl; [exact Hl|]. intros e m [Hm _]. cbn.
    unfold decode_json. by rewrite Hm.
  - intros m. rewrite registered_row. split.
    + intros [i Hi]%list_elem_of_lookup.
      destruct (Forall2_lookup_r _ _ _ _ _ Hl Hi) as ([k row] & Hrow%list_elem_of_lookup_2%elem_of_map_iter & Hj & Hk).
      exists row. cbn in *. by rewrite Hk.
    + intros (row & Hr%elem_of_map_iter & Hj). apply list_elem_of_lookup in Hr as [i Hi].
      destruct (Forall2_lookup_l _ _ _ _ _ Hl Hi) as (b & Hb & Hd & _). cbn in Hd.
      assert (b = m) as -> by congruence. by eapply list_elem_of_lookup_2.
  - clear Hok. induction Hl as [|e m es l [_ Hk] _ IH]; [done|]. by rewrite !fmap_cons, Hk, IH.
Qed.

(** ** What an operation leaves alone *)
Lemma logs_tables t es t' :
  logs t es t' -> tb_components t' = tb_components t /\ tb_runs t' = tb_runs t /\ tb_tasks t' = tb_tasks t /\
    tb_artifact_meta t' = tb_artifact_meta t /\ tb_workflows t' = tb_workflows t /\
    tb_workflow_publication_fences t' = tb_workflow_publication_fences t /\
    tb_sandbox_attempts t' = tb_sandbox_attempts t.
Proof using Type. by intros [(evs & n & ->) _]. Qed.

(** The table a port reads, [None] when the operation changed nothing. *)
Lemma put_component_tables m now d :
  let t := db_tables d in let t' := db_tables (SqliteStore_put_component m now d).1 in
  t' = t /\ (SqliteStore_put_component m now d).2 <> Ok true \/ exists row es, component_holds row (registry_key m) m /\ tb_components t !! registry_key m = None /\
    (SqliteStore_put_component m now d).2 = Ok true /\
    logs (set_components (<[registry_key m := row]> (tb_components t)) t) es t'.
Proof using Type*.
  intros t t'. subst t t'. destruct (SqliteStore_put_component m now d) as [d' [b|e]] eqn:E; cbn.
  - apply put_component_Ok in E as (dg & _ & E). cbn zeta in E.
    destruct (tb_components (db_tables d) !! registry_key m) as [old|].
    { left. destruct E as (-> & _ & ->). done. }
    right. destruct E as (-> & row & Hrow & Hl). by exists row, [component_registered_event m now].
  - left. by apply put_component_Err in E.
Qed.

Lemma put_run_tables r d :
  let t := db_tables d in let t' := db_tables (SqliteStore_put_run r d).1 in
  t' = t /\ (SqliteStore_put_run r d).2 <> Ok tt \/
  exists row es, json_from_str (rcr_record_json row) = Ok r /\
    logs (set_runs (upsert_record (run_text r) row (tb_runs t)) t) es t'.
Proof using Type*.
  intros t t'. subst t t'. destruct (SqliteStore_put_run r d) as [d' [b|e]] eqn:E; cbn.
  - right. apply put_run_Ok in E as (p & row & _ & Hj & _ & Hl). by eexists row, _.
  - left. by apply put_run_Err in E.
Qed.

Lemma put_artifact_tables a d :
  let t := db_tables d in let t' := db_tables (SqliteStore_put_artifact a d).1 in
  t' = t \/
  exists row es, artifact_holds row (artifact_text a) a /\
    logs (set_artifact_meta (<[artifact_text a := row]> (tb_artifact_meta t)) t) es t'.
Proof using Type*.
  intros t t'. subst t t'. destruct (SqliteStore_put_artifact a d) as [d' [b|e]] eqn:E; cbn.
  - apply put_artifact_Ok in E. cbn zeta in E. destruct (tb_artifact_meta (db_tables d) !! artifact_text a).
    + left. apply E.
    + right. destruct E as (row & Hh & _ & Hl). by eexists row, _.
  - left. by apply put_artifact_Err in E.
Qed.

Lemma put_workflow_tables w now d :
  let t := db_tables d in let t' := db_tables (SqliteStore_put_workflow w now d).1 in
  t' = t /\ (SqliteStore_put_workflow w now d).2 <> Ok tt \/
  exists previous row es, SqliteStore_get_workflow t (wr_id w) = Ok previous /\
    json_from_str (rcr_record_json row) = Ok (WorkflowRecord_set_cancel w (merged_cancel previous w)) /\
    logs (set_workflows (upsert_record (workflow_text w) row (tb_workflows t)) t) es t'.
Proof using Type*.
  intros t t'. subst t t'. destruct (SqliteStore_put_workflow w now d) as [d' [b|e]] eqn:E; cbn.
  - right. apply put_workflow_sql_Ok in E as (p & row & Hp & Hj & _ & Hl). by eexists p, row, _.
  - left. by apply put_workflow_Err in E.
Qed.

Lemma request_cancel_tables id at_ d :
  let t := db_tables d in let t' := db_tables (SqliteStore_request_cancel id at_ d).1 in
  t' = t \/
  exists old row es, SqliteStore_get_workflow t id = Ok (Some old) /\
    json_from_str (rcr_record_json row) = Ok (WorkflowRecord_set_cancel old (Some at_)) /\
    logs (set_workflows (<[id_to_string id := row]> (tb_workflows t)) t) es t'.
Proof using Type*.
  intros t t'. subst t t'. destruct (SqliteStore_request_cancel id at_ d) as [d' [o|e]] eqn:E; cbn.
  - apply request_cancel_Ok in E. cbn zeta in E. destruct (tb_workflows (db_tables d) !! id_to_string id) as [row|] eqn:Er.
    + destruct E as (old & Hold & E). destruct (negb _ && negb _); [|left; apply E]. right.
      destruct E as (_ & row' & Hj & _ & Hl). exists old, row'. eexists. split_and!; [|done|done].
      apply table_get_Some. by exists row.
    + left. apply E.
  - left. by apply request_cancel_Err in E.
Qed.

(** ** The laws *)
Ltac ports_cbn :=
  cbn [components_put components_get components_latest components_list runs_put runs_get
       artifacts_put artifacts_get workflows_put workflows_get workflows_list workflows_request_cancel
       repo_ok SqliteRepositories] in *.

Lemma sql_ok_put_component m now d : sql_ok (db_tables d) -> sql_ok (db_tables (SqliteStore_put_component m now d).1).
Proof using Type*.
  intros Hok. destruct (put_component_tables m now d) as [[-> _]|(row & es & Hrow & _ & _ & [Ho _])]; [done|].
  eapply sql_ok_only_log; [exact Ho|]. destruct Hok. constructor; cbn; [|done..].
  intros k row'. rewrite lookup_insert_Some. intros [[<- <-]|[_ Hl]]; [by exists m|by eauto].
Qed.

Lemma sql_ok_put_run r d : sql_ok (db_tables d) -> sql_ok (db_tables (SqliteStore_put_run r d).1).
Proof using Type*.
  intros Hok. destruct (put_run_tables r d) as [[-> _]|(row & es & Hj & [Ho _])]; [done|].
  eapply sql_ok_only_log; [exact Ho|]. destruct Hok. constructor; cbn; [done| |done..].
  by eapply upsert_holds.
Qed.

Lemma sql_ok_put_task r d : sql_ok (db_tables d) -> sql_ok (db_tables (SqliteStore_put_task r d).1).
Proof using Type*.
  intros Hok. destruct (SqliteStore_put_task r d) as [d' [b|e]] eqn:E; cbn; [|by rewrite (put_task_Err _ _ _ _ E)].
  apply put_task_Ok in E as (_ & p & row & _ & _ & Hj & _ & [Ho _]).
  eapply sql_ok_only_log; [exact Ho|]. destruct Hok. constructor; cbn; [done..| |done|done].
  by eapply upsert_holds.
Qed.

Lemma sql_ok_put_artifact a d : sql_ok (db_tables d) -> sql_ok (db_tables (SqliteStore_put_artifact a d).1).
Proof using Type*.
  intros Hok. destruct (put_artifact_tables a d) as [->|(row & es & Hh & [Ho _])]; [done|].
  eapply sql_ok_only_log; [exact Ho|]. destruct Hok. constructor; cbn; [done..| |done].
  intros k row'. rewrite lookup_insert_Some. intros [[<- <-]|[_ Hl]]; [by exists a|by eauto].
Qed.

Lemma sql_ok_put_workflow w now d : sql_ok (db_tables d) -> sql_ok (db_tables (SqliteStore_put_workflow w now d).1).
Proof using Type*.
  intros Hok. destruct (put_workflow_tables w now d) as [[-> _]|(p & row & es & _ & Hj & [Ho _])]; [done|].
  eapply sql_ok_only_log; [exact Ho|]. destruct Hok. constructor; cbn; [done..|].
  by eapply upsert_holds.
Qed.

Lemma sql_ok_request_cancel id at_ d :
  sql_ok (db_tables d) -> sql_ok (db_tables (SqliteStore_request_cancel id at_ d).1).
Proof using Type*.
  intros Hok. destruct (request_cancel_tables id at_ d) as [->|(old & row & es & Hg & Hj & [Ho _])]; [done|].
  eapply sql_ok_only_log; [exact Ho|]. pose proof Hok as [? ? ? ? Hw]. constructor; cbn; [done..|].
  eapply table_ok_insert; [done|]. split; [exact Hj|]. by apply (table_get_key _ workflow_text) in Hg.
Qed.

(** A query of one table after an operation on another. *)
Lemma same_queries (d d' : SqliteStore) t1 es :
  logs t1 es (db_tables d') ->
  (tb_components t1 = tb_components (db_tables d) -> same_components d d') /\
  (tb_runs t1 = tb_runs (db_tables d) -> same_runs d d') /\
  (tb_artifact_meta t1 = tb_artifact_meta (db_tables d) -> same_artifacts d d') /\
  (tb_workflows t1 = tb_workflows (db_tables d) -> same_workflows d d').
Proof using Type.
  intros (Ec & Er & _ & Ea & Ew & _)%logs_tables.
  unfold same_components, same_runs, same_artifacts, same_workflows. ports_cbn.
  unfold SqliteStore_get_component, SqliteStore_latest_component, SqliteStore_list_components,
    SqliteStore_get_run, SqliteStore_get_artifact, SqliteStore_get_workflow.
  rewrite Ec, Er, Ea, Ew. split_and!; by intros ->.
Qed.

Lemma same_all (d d' : SqliteStore) :
  db_tables d' = db_tables d ->
  same_components d d' /\ same_runs d d' /\ same_artifacts d d' /\ same_workflows d d'.
Proof using Type.
  intros Ht. unfold same_components, same_runs, same_artifacts, same_workflows. ports_cbn. by rewrite Ht.
Qed.

Lemma sqlite_components_list_law : forall (s : SqliteStore),
    repo_ok s -> exists l, components_list s = Ok l /\
      (forall m, m ∈ l <-> registered s m) /\
      StronglySorted ord_le ((fun m => (m_id m, m_version m)) <$> l) /\
      NoDup ((fun m => (m_id m, m_version m)) <$> l).
Proof using Type*.
  unfold registered; ports_cbn.
  intros d Hok. destruct (list_law _ Hok) as (l & Hl & Hin & Hkeys). exists l. split; [done|]. split; [done|].
  assert (Hk : registry_key <$> l =
    (fun e : ComponentId * Version => (id_to_string e.1, version_str e.2)) <$> ((fun m => (m_id m, m_version m)) <$> l))
    by (by rewrite <- list_fmap_compose).
  rewrite Hk in Hkeys. split.
  + pose proof (sorted_map_keys (tb_components (db_tables d))) as Hs. rewrite <- Hkeys in Hs.
    clear -Hs UTL. induction ((fun m => (m_id m, m_version m)) <$> l) as [|e es IH]; [constructor|].
    rewrite fmap_cons in Hs. apply StronglySorted_inv in Hs as [Hs Hall]. constructor; [auto|].
    rewrite Forall_fmap in Hall. eapply Forall_impl; [exact Hall|]. intros e'. apply component_text_le.
  + eapply NoDup_fmap_1. rewrite Hkeys. apply NoDup_map_keys.
Qed.

Lemma sqlite_components_put_law : forall (s : SqliteStore) m t s' b,
    repo_ok s -> components_put s m t = (s', Ok b) ->
    (forall id v, (id, v) <> (m_id m, m_version m) ->
       components_get s' id v = components_get s id v) /\
    (if b : bool then components_get s (m_id m) (m_version m) = Ok None /\ registered s' m
     else components_get s' (m_id m) (m_version m) = components_get s (m_id m) (m_version m)).
Proof using Type*.
  unfold registered; ports_cbn.
  intros d m t d' b Hok Hput. destruct (put_component_tables m t d) as [[Ht Hb]|(row & es & Hh & Hn & Hres & Hlog)];
    rewrite Hput in *; cbn in *.
  + rewrite Ht. by destruct b.
  + injection Hres as ->. apply logs_tables in Hlog as (Ec & _). cbn in Ec.
    unfold SqliteStore_get_component. rewrite Ec. split_and!.
    * intros id v Hne. apply table_get_insert_ne. intros [= Hi%id_text_inj Hv%version_str_inj]. apply Hne. congruence.
    * by apply (table_get_None _ registry_key); [apply so_component_table|].
    * by apply table_get_insert, Hh.
Qed.

Lemma sqlite_runs_put_law : forall (s : SqliteStore) r s',
    repo_ok s -> runs_put s r = (s', Ok tt) -> runs_get s' (run_id r) = Ok (Some r).
Proof using Type*.
  unfold registered; ports_cbn.
  intros d r d' Hok Hput. destruct (put_run_tables r d) as [[_ Hne]|(row & es & Hj & Hlog)];
    rewrite Hput in *; cbn in *; [done|].
  apply logs_tables in Hlog as (_ & Er & _). cbn in Er. unfold SqliteStore_get_run. rewrite Er.
  by apply upsert_get.
Qed.

Lemma sqlite_artifacts_put_law : forall (s : SqliteStore) a s',
    repo_ok s -> artifacts_put s a = (s', Ok tt) ->
    exists a', artifacts_get s' (art_id a) = Ok (Some a') /\
      ContentDigest_to_hex (art_digest a') = ContentDigest_to_hex (art_digest a) /\
      (artifacts_get s (art_id a) = Ok None -> a' = a).
Proof using Type*.
  unfold registered; ports_cbn.
  intros d a d' Hok Hput. pose proof (put_artifact_Ok a d d' tt Hput) as Ha. cbn zeta in Ha.
  destruct (tb_artifact_meta (db_tables d) !! artifact_text a) as [old|] eqn:Eo.
  + destruct Ha as [Hd ->]. destruct (so_artifacts _ Hok _ _ Eo) as (a' & [Hj Hk] & Hdig). exists a'.
    unfold SqliteStore_get_artifact. split_and!.
    * apply table_get_Some. by exists old.
    * by rewrite <- Hdig.
    * intros Hn%(table_get_None _ artifact_text); [by unfold artifact_text in *; congruence|by apply so_artifact_table].
  + destruct Ha as (row & [[Hj Hk] _] & _ & Hlog). exists a.
    apply logs_tables in Hlog as (_ & _ & _ & Ea & _). cbn in Ea. unfold SqliteStore_get_artifact. rewrite Ea.
    split_and!; [by apply table_get_insert|done|done].
Qed.

Lemma sqlite_workflows_put_law : forall (s : SqliteStore) w t s',
    repo_ok s -> workflows_put s w t = (s', Ok tt) ->
    exists c, workflows_get s' (wr_id w) = Ok (Some (WorkflowRecord_set_cancel w c)) /\
      (is_Some (wr_cancel_requested_at w) \/ workflows_get s (wr_id w) = Ok None ->
       c = wr_cancel_requested_at w) /\
      (forall old, workflows_get s (wr_id w) = Ok (Some old) ->
       wr_cancel_requested_at w = None -> c = wr_cancel_requested_at old).
Proof using Type*.
  unfold registered; ports_cbn.
  intros d w t d' Hok Hput. destruct (put_workflow_tables w t d) as [[_ Hne]|(p & row & es & Hp & Hj & Hlog)];
    rewrite Hput in *; cbn in *; [done|].
  apply logs_tables in Hlog as (_ & _ & _ & _ & Ew & _). cbn in Ew. exists (merged_cancel p w).
  unfold SqliteStore_get_workflow. rewrite Ew. fold (SqliteStore_get_workflow (db_tables d) (wr_id w)).
  split; [by apply upsert_get|]. rewrite Hp. unfold merged_cancel. split.
  + intros [[c ->]|[= ->]]; [done|]. by destruct (wr_cancel_requested_at w).
  + by intros old [= ->] ->.
Qed.

Lemma sqlite_workflows_list_law : forall (s : SqliteStore) l,
    repo_ok s -> workflows_list s = Ok l ->
    NoDup (wr_id <$> l) /\ forall w, w ∈ l <-> workflows_get s (wr_id w) = Ok (Some w).
Proof using Type*.
  unfold registered; ports_cbn.
  intros d l Hok Hl. unfold SqliteStore_list_workflows in Hl. split.
  + destruct (table_list_spec rcr_record_json workflow_text workflow_failed rcr_created_at _ (so_workflows _ Hok))
      as (l' & Hl' & Hp & _). rewrite Hl in Hl'. injection Hl' as <-.
    apply (NoDup_fmap_1 (id_to_string (k := KWorkflow))). rewrite <- list_fmap_compose.
    change (NoDup (workflow_text <$> l)). rewrite Hp. apply NoDup_map_keys.
  + intros w. exact (table_list_elem rcr_record_json workflow_text _ _ _ _ w (so_workflows _ Hok) Hl).
Qed.

Lemma sqlite_workflows_cancel_law : forall (s : SqliteStore) id t s' o,
    repo_ok s -> workflows_request_cancel s id t = (s', Ok o) ->
    workflows_get s id = Ok None /\ o = None /\ workflows_get s' id = Ok None \/
    exists old, workflows_get s id = Ok (Some old) /\
      let new := if WorkflowState_is_terminal (wr_state old) then old
                 else WorkflowRecord_set_cancel old (get_or_insert (wr_cancel_requested_at old) t) in
      o = Some new /\ workflows_get s' id = Ok (Some new).
Proof using Type*.
  unfold registered; ports_cbn.
  intros d id t d' o Hok Hput. apply request_cancel_Ok in Hput. cbn zeta in Hput.
  unfold SqliteStore_get_workflow. destruct (tb_workflows (db_tables d) !! id_to_string id) as [row|] eqn:Er.
  + right. destruct Hput as (old & Hold & Hput). exists old.
    assert (Hg : table_get rcr_record_json workflow_failed (tb_workflows (db_tables d)) (id_to_string id) = Ok (Some old))
      by (apply table_get_Some; by exists row). split; [done|].
    destruct (WorkflowState_is_terminal (wr_state old)) eqn:Et; cbn in *.
    { destruct Hput as [-> ->]. done. }
    destruct (wr_cancel_requested_at old) as [c|] eqn:Ec; cbn in *.
    * destruct Hput as [-> ->]. rewrite <- Ec, set_cancel_same. done.
    * destruct Hput as (-> & row' & Hj & _ & Hlog). split; [done|].
      apply logs_tables in Hlog as (_ & _ & _ & _ & Ew & _). cbn in Ew. rewrite Ew.
      by apply table_get_insert.
  + left. destruct Hput as [-> Ht]. rewrite Ht. unfold table_get. by rewrite Er.
Qed.

Lemma sqlite_components_put_frame : forall (s : SqliteStore) m t,
    repo_ok s -> let s' := (components_put s m t).1 in
    repo_ok s' /\ same_runs s s' /\ same_artifacts s s' /\ same_workflows s s'.
Proof using Type*.
  unfold registered; ports_cbn.
  intros d m t Hok. split; [by apply sql_ok_put_component|].
  destruct (put_component_tables m t d) as [[Ht _]|(row & es & _ & _ & _ & Hlog)].
  + by apply same_all in Ht as (_ & ? & ? & ?).
  + destruct (same_queries d _ _ _ Hlog) as (_ & Hr & Ha & Hw). by split_and!; [apply Hr|apply Ha|apply Hw].
Qed.

Lemma sqlite_runs_put_frame : forall (s : SqliteStore) r,
    repo_ok s -> let s' := (runs_put s r).1 in
    repo_ok s' /\ (forall id, id <> run_id r -> runs_get s' id = runs_get s id) /\
    same_components s s' /\ same_artifacts s s' /\ same_workflows s s'.
Proof using Type*.
  unfold registered; ports_cbn.
  intros d r Hok. split; [by apply sql_ok_put_run|].
  destruct (put_run_tables r d) as [[Ht _]|(row & es & _ & Hlog)].
  + apply same_all in Ht as (? & Hr & ? & ?). split_and!; [|done..]. intros id _. apply Hr.
  + destruct (same_queries d _ _ _ Hlog) as (Hc & _ & Ha & Hw). split_and!; [|by apply Hc|by apply Ha|by apply Hw].
    intros id Hne. apply logs_tables in Hlog as (_ & Er & _). cbn in Er. unfold SqliteStore_get_run. rewrite Er.
    apply upsert_get_ne. intros Heq%id_text_inj. by apply Hne.
Qed.

Lemma sqlite_artifacts_put_frame : forall (s : SqliteStore) a,
    repo_ok s -> let s' := (artifacts_put s a).1 in
    repo_ok s' /\ (forall id, id <> art_id a -> artifacts_get s' id = artifacts_get s id) /\
    same_components s s' /\ same_runs s s' /\ same_workflows s s'.
Proof using Type*.
  unfold registered; ports_cbn.
  intros d a Hok. split; [by apply sql_ok_put_artifact|].
  destruct (put_artifact_tables a d) as [Ht|(row & es & _ & Hlog)].
  + apply same_all in Ht as (? & ? & Ha & ?). split_and!; [|done..]. intros id _. apply Ha.
  + destruct (same_queries d _ _ _ Hlog) as (Hc & Hr & _ & Hw). split_and!; [|by apply Hc|by apply Hr|by apply Hw].
    intros id Hne. apply logs_tables in Hlog as (_ & _ & _ & Ea & _). cbn in Ea.
    unfold SqliteStore_get_artifact. rewrite Ea. apply table_get_insert_ne. intros Heq%id_text_inj. by apply Hne.
Qed.

Lemma sqlite_workflows_put_frame : forall (s : SqliteStore) w t,
    repo_ok s -> let s' := (workflows_put s w t).1 in
    repo_ok s' /\ (forall id, id <> wr_id w -> workflows_get s' id = workflows_get s id) /\
    same_components s s' /\ same_runs s s' /\ same_artifacts s s'.
Proof using Type*.
  unfold registered; ports_cbn.
  intros d w t Hok. split; [by apply sql_ok_put_workflow|].
  destruct (put_workflow_tables w t d) as [[Ht _]|(p & row & es & _ & _ & Hlog)].
  + apply same_all in Ht as (? & ? & ? & Hw). split_and!; [|done..]. intros id _. apply Hw.
  + destruct (same_queries d _ _ _ Hlog) as (Hc & Hr & Ha & _). split_and!; [|by apply Hc|by apply Hr|by apply Ha].
    intros id Hne. apply logs_tables in Hlog as (_ & _ & _ & _ & Ew & _). cbn in Ew.
    unfold SqliteStore_get_workflow. rewrite Ew. apply upsert_get_ne. intros Heq%id_text_inj. by apply Hne.
Qed.

Lemma sqlite_workflows_cancel_frame : forall (s : SqliteStore) id t,
    repo_ok s -> let s' := (workflows_request_cancel s id t).1 in
    repo_ok s' /\ (forall id', id' <> id -> workflows_get s' id' = workflows_get s id') /\
    same_components s s' /\ same_runs s s' /\ same_artifacts s s'.
Proof using Type*.
  unfold registered; ports_cbn.
  intros d id t Hok. split; [by apply sql_ok_request_cancel|].
  destruct (request_cancel_tables id t d) as [Ht|(old & row & es & _ & _ & Hlog)].
  + apply same_all in Ht as (? & ? & ? & Hw). split_and!; [|done..]. intros id' _. apply Hw.
  + destruct (same_queries d _ _ _ Hlog) as (Hc & Hr & Ha & _). split_and!; [|by apply Hc|by apply Hr|by apply Ha].
    intros id' Hne. apply logs_tables in Hlog as (_ & _ & _ & _ & Ew & _). cbn in Ew.
    unfold SqliteStore_get_workflow. rewrite Ew. apply table_get_insert_ne. intros Heq%id_text_inj. by apply Hne.
Qed.

#[global] Instance SqliteRepositories_laws : RepositoriesLaws SqliteStore.
Proof using Type*.
  split.
  - unfold registered; ports_cbn. intros d id v m. apply get_component_key.
  - unfold registered; ports_cbn. intros d id m. apply latest_law.
  - apply sqlite_components_list_law.
  - apply sqlite_components_put_law.
  - unfold registered; ports_cbn. intros d id r Hok Hg%(table_get_key _ run_text); [|apply Hok]. by apply id_text_inj in Hg.
  - unfold registered; ports_cbn. intros d id a Hok Hg%(table_get_key _ artifact_text); [|by apply so_artifact_table]. by apply id_text_inj in Hg.
  - unfold registered; ports_cbn. intros d id w Hok Hg%(table_get_key _ workflow_text); [|apply Hok]. by apply id_text_inj in Hg.
  - apply sqlite_runs_put_law.
  - unfold registered; ports_cbn. intros d r d' e Hok Hput%put_run_Err. left. by rewrite Hput.
  - apply sqlite_artifacts_put_law.
  - apply sqlite_workflows_put_law.
  - unfold registered; ports_cbn. intros d w t d' e Hok Hput%put_workflow_Err. left. by rewrite Hput.
  - apply sqlite_workflows_list_law.
  - apply sqlite_workflows_cancel_law.
  - apply sqlite_components_put_frame.
  - apply sqlite_runs_put_frame.
  - apply sqlite_artifacts_put_frame.
  - apply sqlite_workflows_put_frame.
  - apply sqlite_workflows_cancel_frame.
Qed.
End ports.
