(* ===== verification/SqliteMemory.v ===== *)
(** * The SQLite store refines the in-memory store

    The tables represent the maps of [InMemoryHubStore].  A committed
    operation answers and does what the in-memory one does, lifecycle events
    included; a failed operation does nothing at all; every query answers
    alike. *)

From Stdlib Require Import Ascii.
From stdpp Require Import base gmap strings list sorting.
From S2P Require Import Prelude Text Core Version Digest Component Run Workflow Task TaskLifecycle.
From S2P Require Import Event Machine Memory Ports Sql SqliteStore SqliteRefine SqlitePorts.

(** A record's creation column is its creation time. *)
Definition created_ok {A Row K} `{SerdeJson A, Countable K} (text_of : Row -> string) (column : Row -> N)
    (created : A -> N) (t : gmap K Row) : Prop :=
  forall k row a, t !! k = Some row -> json_from_str (text_of row) = Ok a -> column row = created a.

Section memory.
Context `{JsonLib, ManifestJson, WorkspaceJson, Sha256Lib, UuidLib, Environment}.
Context `{SerdeJson ComponentManifest, SerdeJson RunRecord, SerdeJson TaskRecord, SerdeJson ArtifactMeta,
          SerdeJson WorkflowRecord, SerdeJson (gmap string string)}.
Context `{!SerdeJsonLaws ComponentManifest, !SerdeJsonLaws RunRecord, !SerdeJsonLaws TaskRecord,
          !SerdeJsonLaws ArtifactMeta, !SerdeJsonLaws WorkflowRecord, !SerdeJsonLaws (gmap string string)}.
Context {UT : UuidText} {UTL : UuidTextLaws} {SL : Sha256Laws}.

Inductive store_answer :=
| Registered (new : bool)
| Done
| CancelAnswer (w : option WorkflowRecord).

Definition sqlite_do (op : hub_op) : action SqliteStore CoreError store_answer :=
  match op with
  | PutComponent m t => b ← SqliteStore_put_component m t; mret (Registered b)
  | PutRun r => _ ← SqliteStore_put_run r; mret Done
  | PutTask t => _ ← SqliteStore_put_task t; mret Done
  | PutArtifact a => _ ← SqliteStore_put_artifact a; mret Done
  | PutWorkflow w t => _ ← SqliteStore_put_workflow w t; mret Done
  | RequestCancel id t => o ← SqliteStore_request_cancel id t; mret (CancelAnswer o)
  end.

(** The same on the in-memory store, except that artifact metadata already
    stored is kept. *)
Definition memory_do (op : hub_op) : action InMemoryHubStore CoreError store_answer := fun s =>
  match op with
  | PutComponent m t => let '(s', r) := InMemoryHubStore_put_component s m t in (s', Registered <$> r)
  | PutRun r => let '(s', r) := InMemoryHubStore_put_run s r in (s', _ ← r; Ok Done)
  | PutTask t => let '(s', r) := InMemoryHubStore_put_task s t in (s', _ ← r; Ok Done)
  | PutArtifact a =>
      if is_some (hs_artifacts s !! art_id a) then (s, Ok Done)
      else let '(s', r) := InMemoryHubStore_put_artifact s a in (s', _ ← r; Ok Done)
  | PutWorkflow w t => let '(s', r) := InMemoryHubStore_put_workflow s w t in (s', _ ← r; Ok Done)
  | RequestCancel id t => let '(s', r) := InMemoryHubStore_request_cancel s id t in (s', CancelAnswer <$> r)
  end.

(** An operation that does not change when a record was created. *)
Definition keeps_creation (h : InMemoryHubStore) (op : hub_op) : Prop :=
  match op with
  | PutRun r => forall p, hs_runs h !! run_id r = Some p -> run_created_at p = run_created_at r
  | PutWorkflow w _ => forall p, hs_workflows h !! wr_id w = Some p -> wr_created_at p = wr_created_at w
  | _ => True
  end.

Record represents (t : Tables) (h : InMemoryHubStore) : Prop := {
  rp_ok : sql_ok t;
  rp_components : forall id v, SqliteStore_get_component t id v = Ok (hs_components h !! (id, v));
  rp_runs : forall id, SqliteStore_get_run t id = Ok (hs_runs h !! id);
  rp_tasks : forall id, SqliteStore_get_task t id = Ok (hs_tasks h !! id);
  rp_artifacts : forall id, SqliteStore_get_artifact t id = Ok (hs_artifacts h !! id);
  rp_workflows : forall id, SqliteStore_get_workflow t id = Ok (hs_workflows h !! id);
  rp_log : log_rep t (hs_events h);
  rp_run_times : created_ok rcr_record_json rcr_created_at run_created_at (tb_runs t);
  rp_task_times : created_ok rcr_record_json rcr_created_at tk_created_at (tb_tasks t);
  rp_artifact_times : created_ok arr_meta_json arr_created_at art_created_at (tb_artifact_meta t);
  rp_workflow_times : created_ok rcr_record_json rcr_created_at wr_created_at (tb_workflows t);
}.

Lemma represents_empty : represents Tables_empty InMemoryHubStore_default.
Proof using Type.
  constructor; try apply sql_ok_empty; try (intros k row a; cbn; by rewrite lookup_empty); try done.
  constructor; cbn; try done. intros k. rewrite lookup_empty. split; [by intros []|lia].
Qed.

(** ** One table at a time *)
Lemma table_insert_rep {A Row I K} `{SerdeJson A, Countable I, Countable K} (text_of : Row -> string) (text : I -> K)
    context (t : gmap K Row) (g : gmap I A) i row a :
  (forall i j, text i = text j -> i = j) ->
  (forall j, table_get text_of context t (text j) = Ok (g !! j)) -> json_from_str (text_of row) = Ok a ->
  forall j, table_get text_of context (<[text i := row]> t) (text j) = Ok (<[i := a]> g !! j).
Proof using Type.
  intros Hinj Hg Ha j. destruct (decide (i = j)) as [<-|Hne].
  - rewrite lookup_insert_eq. by apply table_get_insert.
  - rewrite lookup_insert_ne by done. rewrite table_get_insert_ne; [by apply Hg|]. by intros ?%Hinj.
Qed.

Lemma created_insert {A Row K} `{SerdeJson A, Countable K} (text_of : Row -> string) column (created : A -> N)
    (t : gmap K Row) k row a :
  created_ok text_of column created t -> json_from_str (text_of row) = Ok a -> column row = created a ->
  created_ok text_of column created (<[k := row]> t).
Proof using Type.
  intros Hc Ha Hr k' row' a'. rewrite lookup_insert_Some. intros [[<- <-]|[_ Hl]] Ha'; [congruence|by eapply Hc].
Qed.

(** An upsert keeps the creation column of the row it replaces. *)
Lemma created_upsert {A} `{SerdeJson A} (created : A -> N) context k row a (t : gmap string RecordRow) previous :
  created_ok rcr_record_json rcr_created_at created t -> table_get rcr_record_json context t k = Ok previous ->
  json_from_str (rcr_record_json row) = Ok a -> rcr_created_at row = created a ->
  (forall p, previous = Some p -> created p = created a) ->
  created_ok rcr_record_json rcr_created_at created (upsert_record k row t).
Proof using Type.
  intros Hc Hg Ha Hr Hp. eapply created_insert; [done|exact Ha|]. cbn.
  destruct (t !! k) as [old|] eqn:E; [|done]. unfold table_get in Hg. rewrite E in Hg. cbn in Hg.
  unfold decode_json in Hg. destruct (json_from_str (rcr_record_json old)) as [p|e] eqn:Ep; [|done].
  cbn in Hg. injection Hg as <-. rewrite <- (Hp p eq_refl). by eapply Hc.
Qed.

(** ** The listings *)
Lemma StronglySorted_fmap_2 {A B} `{Ordered A, Ordered B} (f : A -> B) (l : list A) :
  (forall a b, ord_le (f a) (f b) <-> ord_le a b) -> StronglySorted ord_le (f <$> l) -> StronglySorted ord_le l.
Proof using Type.
  intros Hf. induction l as [|x l IH]; [constructor|]. rewrite fmap_cons. intros [Hl Hall]%StronglySorted_inv.
  constructor; [by apply IH|]. rewrite Forall_fmap in Hall. eapply Forall_impl; [exact Hall|]. intros y. apply Hf.
Qed.

Lemma table_list_rep {A Row I} `{SerdeJson A, Countable I, !Ordered I} (text_of : Row -> string) column
    (created : A -> N) (text : I -> string) (id_of : A -> I) context (t : gmap string Row) (g : gmap I A) :
  (forall i j, ord_le i j <-> String.le (text i) (text j)) ->
  table_ok text_of (fun a => text (id_of a)) t ->
  (forall i, table_get text_of context t (text i) = Ok (g !! i)) -> created_ok text_of column created t ->
  table_list text_of context column t = Ok (sort_by_key (fun a => (created a, id_of a)) (map_values g)).
Proof using Type.
  intros Hord Hok Hg Hc.
  assert (Hinj : forall i j, text i = text j -> i = j).
  { intros i j Heq. apply (anti_symm ord_le); apply Hord; by rewrite Heq. }
  assert (Hkey : forall i a, g !! i = Some a -> id_of a = i).
  { intros i a Ha. specialize (Hg i). rewrite Ha in Hg. apply (table_get_key text_of (fun a => text (id_of a))) in Hg; auto. }
  destruct (table_list_spec text_of (fun a => text (id_of a)) context column t Hok) as (l & Hl & Hp & Hall).
  rewrite Hl. f_equal. apply (sorted_keys_unique (fun a => (created a, id_of a))).
  - apply (StronglySorted_fmap_2 (fun e : N * I => (e.1, text e.2))).
    + intros [m i] [n j]. unfold ord_le, pair_ordered, pair_le. cbn. by rewrite Hord.
    + pose proof (sort_by_key_sorted (fun e : string * Row => (column e.2, e.1)) (map_iter t)) as Hs.
      rewrite <- list_fmap_compose. revert Hs. set (rows := sort_by_key _ _) in *.
      assert (Hr : forall e, e ∈ rows -> t !! e.1 = Some e.2).
      { intros [k row] Hin. unfold rows, sort_by_key in Hin. rewrite sort_by_perm in Hin. by apply elem_of_map_iter. }
      clearbody rows. intros Hs.
      assert ((fun e : string * Row => (column e.2, e.1)) <$> rows = (fun a => (created a, text (id_of a))) <$> l) as Heq.
      { clear Hs Hl Hp. induction Hall as [|e a rows l [Hj Hk] _ IH]; [done|]. rewrite !fmap_cons. f_equal.
        - rewrite <- Hk. f_equal. eapply Hc; [|exact Hj]. apply Hr. left.
        - apply IH. intros e' He'. apply Hr. by right. }
      by rewrite Heq in Hs.
  - apply sort_by_key_sorted.
  - apply (NoDup_fmap_1 (fun e : N * I => text e.2)). rewrite <- list_fmap_compose. 
    change (NoDup ((fun a => text (id_of a)) <$> l)). rewrite Hp. apply NoDup_map_keys.
  - unfold sort_by_key. rewrite sort_by_perm. apply NoDup_Permutation.
    + apply (NoDup_fmap_1 (fun a => text (id_of a))). rewrite Hp. apply NoDup_map_keys.
    + apply (NoDup_fmap_1 id_of). rewrite (map_values_keys id_of) by (intros ? ?; apply Hkey). apply NoDup_map_keys.
    + intros a. rewrite (table_list_elem text_of (fun a => text (id_of a)) context column t l a Hok Hl), Hg.
      rewrite elem_of_map_values. split.
      * intros [= Ha]. by exists (id_of a).
      * intros [i Hi]. by rewrite (Hkey _ _ Hi), Hi.
Qed.

(** ** The operations *)
Lemma hex_inj_digest m m' d d' :
  ComponentManifest_content_digest m = Ok d -> ComponentManifest_content_digest m' = Ok d' ->
  ContentDigest_to_hex d = ContentDigest_to_hex d' -> d = d'.
Proof using SL.
  assert (Hwf : forall m d, ComponentManifest_content_digest m = Ok d -> digest_wf d).
  { intros n e He. unfold ComponentManifest_content_digest in He. ok_inv. apply hash_bytes_wf. }
  intros Hd%Hwf Hd'%Hwf Heq. destruct (digest_hex_roundtrip _ Hd) as [_ E1].
  destruct (digest_hex_roundtrip _ Hd') as [_ E2]. rewrite Heq in E1. congruence.
Qed.

(** The log along a step that changed another table first. *)
Lemma logs_rep t t1 es t' il :
  logs t1 es t' -> log_rep t il ->
  tb_lifecycle_events t1 = tb_lifecycle_events t -> tb_event_sequence t1 = tb_event_sequence t ->
  exists il', record_events il es = (il', Ok tt) /\ log_rep t' il'.
Proof using Type.
  intros [_ Hl] [Hs Hb Hk He] E1 E2. apply Hl. constructor; [by rewrite E2|by rewrite E2| |by rewrite E1].
  intros k. by rewrite E1, E2.
Qed.

(** What a step on the table of one kind of record leaves represented. *)
Ltac represents_by Hlog Hrep :=
  let Ec := fresh "Ec" in let Er := fresh "Er" in let Et := fresh "Et" in let Ea := fresh "Ea" in
  let Ew := fresh "Ew" in
  destruct (logs_tables _ _ _ Hlog) as (Ec & Er & Et & Ea & Ew & _ & _); cbn in Ec, Er, Et, Ea, Ew;
  destruct Hrep;
  constructor; cbn;
  unfold SqliteStore_get_component, SqliteStore_get_run, SqliteStore_get_task, SqliteStore_get_artifact,
    SqliteStore_get_workflow in *; rewrite ?Ec, ?Er, ?Et, ?Ea, ?Ew; try done.

Lemma run_refines r d d' h :
  represents (db_tables d) h -> keeps_creation h (PutRun r) -> SqliteStore_put_run r d = (d', Ok tt) ->
  exists h', InMemoryHubStore_put_run h r = (h', Ok tt) /\ represents (db_tables d') h'.
Proof using Type*.
  intros Hrep Hkeep Hput. pose proof (sql_ok_put_run r d (rp_ok _ _ Hrep)) as Hok. rewrite Hput in Hok. cbn in Hok.
  apply put_run_Ok in Hput as (previous & row & Hp & Hj & Hc & Hlog). rewrite (rp_runs _ _ Hrep) in Hp.
  injection Hp as <-. destruct (logs_rep _ _ _ _ _ Hlog (rp_log _ _ Hrep) eq_refl eq_refl) as (il' & Hev & Hlog').
  unfold InMemoryHubStore_put_run, InMemoryRuns_put. rewrite Hev. eexists. split; [done|].
  represents_by Hlog Hrep.
  - apply (table_insert_rep _ (fun i : RunId => id_to_string i)); [apply id_text_inj|done|exact Hj].
  - eapply created_upsert; [done|apply rp_runs0|done|done|exact Hkeep].
Qed.

Lemma task_refines r d d' h :
  represents (db_tables d) h -> SqliteStore_put_task r d = (d', Ok tt) ->
  exists h', InMemoryHubStore_put_task h r = (h', Ok tt) /\ represents (db_tables d') h'.
Proof using Type*.
  intros Hrep Hput. pose proof (sql_ok_put_task r d (rp_ok _ _ Hrep)) as Hok. rewrite Hput in Hok. cbn in Hok.
  apply put_task_Ok in Hput as (Hv & previous & row & Hp & Hup & Hj & Hc & Hlog). rewrite (rp_tasks _ _ Hrep) in Hp.
  injection Hp as <-. destruct (logs_rep _ _ _ _ _ Hlog (rp_log _ _ Hrep) eq_refl eq_refl) as (il' & Hev & Hlog').
  unfold InMemoryHubStore_put_task, InMemoryTasks_put. rewrite Hv. cbn.
  assert (match hs_tasks h !! ts_id (tk_spec r) with
          | Some previous => validate_task_snapshot_update previous r | None => Ok tt end = Ok tt) as ->
    by (destruct (_ !! _); [by apply Hup|done]).
  rewrite Hev. eexists. split; [done|]. represents_by Hlog Hrep.
  - apply (table_insert_rep _ (fun i : TaskId => id_to_string i)); [apply id_text_inj|done|exact Hj].
  - eapply created_upsert; [done|apply rp_tasks0|done|done|]. intros p Hp. apply Hup, snapshot_update_continues in Hp.
    by destruct Hp as (_ & _ & _ & _ & -> & _).
Qed.

(** Nothing happened on either side. *)
Lemma represents_same t t' h : represents t h -> t' = t -> represents t' h.
Proof using Type. by intros ? ->. Qed.

Lemma artifact_refines a d d' h :
  represents (db_tables d) h -> SqliteStore_put_artifact a d = (d', Ok tt) ->
  exists h', memory_do (PutArtifact a) h = (h', Ok Done) /\ represents (db_tables d') h'.
Proof using Type*.
  intros Hrep Hput. pose proof (sql_ok_put_artifact a d (rp_ok _ _ Hrep)) as Hok. rewrite Hput in Hok. cbn in Hok.
  apply put_artifact_Ok in Hput. cbn zeta in Hput. unfold memory_do.
  pose proof (rp_artifacts _ _ Hrep (art_id a)) as Hget. unfold artifact_text in Hput.
  destruct (tb_artifact_meta (db_tables d) !! id_to_string (art_id a)) as [old|] eqn:Eo.
  - destruct Hput as [_ Ht]. apply represents_same with (t' := db_tables d') in Hrep; [|done].
    unfold SqliteStore_get_artifact, table_get in Hget. rewrite Eo in Hget. cbn in Hget.
    unfold decode_json in Hget. destruct (json_from_str _) as [b|]; [|done]. injection Hget as <-.
    by exists h.
  - destruct Hput as (row & [[Hj Hk] Hd] & Hc & Hlog).
    unfold SqliteStore_get_artifact, table_get in Hget. rewrite Eo in Hget. injection Hget as Hn. symmetry in Hn.
    rewrite Hn. cbn [is_some].
    destruct (logs_rep _ _ _ _ _ Hlog (rp_log _ _ Hrep) eq_refl eq_refl) as (il' & Hev & Hlog').
    unfold InMemoryHubStore_put_artifact. rewrite Hn. cbn [is_some InMemoryArtifactMeta_put]. rewrite Hev.
    eexists. split; [done|]. represents_by Hlog Hrep.
    + apply (table_insert_rep _ (fun i : ArtifactId => id_to_string i)); [apply id_text_inj|done|exact Hj].
    + by eapply created_insert.
Qed.

Lemma component_refines m now d d' h b :
  represents (db_tables d) h -> SqliteStore_put_component m now d = (d', Ok b) ->
  exists h', InMemoryHubStore_put_component h m now = (h', Ok b) /\ represents (db_tables d') h'.
Proof using Type*.
  intros Hrep Hput. pose proof (sql_ok_put_component m now d (rp_ok _ _ Hrep)) as Hok. rewrite Hput in Hok. cbn in Hok.
  apply put_component_Ok in Hput as (dg & Hdg & Hput).
  pose proof (rp_components _ _ Hrep (m_id m) (m_version m)) as Hget.
  unfold InMemoryHubStore_put_component, InMemoryComponents_put. unfold registry_key in Hput.
  destruct (tb_components (db_tables d) !! (id_to_string (m_id m), version_str (m_version m))) as [old|] eqn:Eo.
  - destruct Hput as (-> & Hd & Ht).
    destruct (so_components _ (rp_ok _ _ Hrep) _ _ Eo) as (m' & Hj & _ & dg' & Hdg' & Hcol).
    assert (Hm : hs_components h !! (m_id m, m_version m) = Some m').
    { unfold SqliteStore_get_component, table_get in Hget. rewrite Eo in Hget. cbn in Hget.
      unfold decode_json in Hget. rewrite Hj in Hget. by injection Hget. }
    rewrite Hm, Hdg', Hdg. cbn. rewrite bool_decide_true.
    2:{ eapply hex_inj_digest; [done..|]. congruence. }
    exists h. split; [by destruct h|]. by eapply represents_same.
  - destruct Hput as (-> & row & (Hj & _) & Hlog).
    unfold SqliteStore_get_component, table_get in Hget. rewrite Eo in Hget. injection Hget as Hn. symmetry in Hn.
    rewrite Hn. destruct (logs_rep _ _ _ _ _ Hlog (rp_log _ _ Hrep) eq_refl eq_refl) as (il' & Hev & Hlog').
    rewrite Hev. eexists. split; [done|]. represents_by Hlog Hrep. intros id v.
    pose proof (table_insert_rep cor_manifest_json
      (fun k : ComponentId * Version => (id_to_string k.1, version_str k.2)) manifest_failed
      (tb_components (db_tables d)) (hs_components h) (m_id m, m_version m) row m) as Hins.
    apply (fun H => Hins H (fun k => rp_components0 k.1 k.2) Hj (id, v)).
    intros [i1 v1] [i2 v2] [= Hi%id_text_inj Hv%version_str_inj]. by rewrite Hi, Hv.
Qed.

Lemma workflows_put_merged (ws : gmap WorkflowId WorkflowRecord) w :
  InMemoryWorkflows_put ws w =
  (<[wr_id w := WorkflowRecord_set_cancel w (merged_cancel (ws !! wr_id w) w)]> ws, Ok tt).
Proof using Type.
  unfold InMemoryWorkflows_put, merged_cancel. do 2 f_equal.
  destruct w as [? ? ? ? ? ? ? ? c ? ?]. cbn. by destruct (ws !! _) as [old|]; destruct c.
Qed.

Lemma workflow_refines w now d d' h :
  represents (db_tables d) h -> keeps_creation h (PutWorkflow w now) ->
  SqliteStore_put_workflow w now d = (d', Ok tt) ->
  exists h', InMemoryHubStore_put_workflow h w now = (h', Ok tt) /\ represents (db_tables d') h'.
Proof using Type*.
  intros Hrep Hkeep Hput. pose proof (sql_ok_put_workflow w now d (rp_ok _ _ Hrep)) as Hok.
  rewrite Hput in Hok. cbn in Hok.
  apply put_workflow_sql_Ok in Hput as (previous & row & Hp & Hj & Hc & Hlog). rewrite (rp_workflows _ _ Hrep) in Hp.
  injection Hp as <-. destruct (logs_rep _ _ _ _ _ Hlog (rp_log _ _ Hrep) eq_refl eq_refl) as (il' & Hev & Hlog').
  unfold InMemoryHubStore_put_workflow. rewrite workflows_put_merged, ?lookup_insert_eq, Hev.
  eexists. split; [done|]. represents_by Hlog Hrep.
  - apply (table_insert_rep _ (fun i : WorkflowId => id_to_string i)); [apply id_text_inj|done|exact Hj].
  - eapply created_upsert; [done|apply rp_workflows0|exact Hj|done|exact Hkeep].
Qed.

Lemma cancel_refines id at_ d d' h o :
  represents (db_tables d) h -> SqliteStore_request_cancel id at_ d = (d', Ok o) ->
  exists h', InMemoryHubStore_request_cancel h id at_ = (h', Ok o) /\ represents (db_tables d') h'.
Proof using Type*.
  intros Hrep Hput. pose proof (sql_ok_request_cancel id at_ d (rp_ok _ _ Hrep)) as Hok.
  rewrite Hput in Hok. cbn in Hok. apply request_cancel_Ok in Hput. cbn zeta in Hput.
  pose proof (rp_workflows _ _ Hrep id) as Hget. unfold SqliteStore_get_workflow, table_get in Hget.
  unfold InMemoryHubStore_request_cancel, InMemoryWorkflows_request_cancel.
  destruct (tb_workflows (db_tables d) !! id_to_string id) as [row|] eqn:Er; cbn in Hget.
  - destruct Hput as (old & Hj & Hput). unfold decode_json in Hget. rewrite Hj in Hget. injection Hget as Hh.
    rewrite <- Hh. destruct (negb (WorkflowState_is_terminal (wr_state old))) eqn:Et; cbn -[record_events] in *.
    + destruct (wr_cancel_requested_at old) as [c|] eqn:Ec; cbn -[record_events] in *.
      * destruct Hput as [-> Ht]. rewrite <- Ec, set_cancel_same, insert_id by done.
        exists h. split; [by destruct h|]. by eapply represents_same.
      * destruct Hput as (-> & row' & Hj' & Hc' & Hlog).
        destruct (logs_rep _ _ _ _ _ Hlog (rp_log _ _ Hrep) eq_refl eq_refl) as (il' & Hev & Hlog').
        rewrite Hev. eexists. split; [done|]. represents_by Hlog Hrep.
        -- apply (table_insert_rep _ (fun i : WorkflowId => id_to_string i)); [apply id_text_inj|done|exact Hj'].
        -- eapply created_insert; [done|exact Hj'|]. rewrite Hc'. exact (rp_workflow_times0 _ _ _ Er Hj).
    + destruct Hput as [-> Ht]. rewrite insert_id by done.
      destruct (wr_cancel_requested_at old) as [c|] eqn:Ec; cbn;
        (exists h; split; [by destruct h|by eapply represents_same]).
  - destruct Hput as [-> Ht]. injection Hget as <-. cbn. exists h. split; [by destruct h|]. by eapply represents_same.
Qed.
End memory.
