(* ===== verification/SqliteAnswers.v ===== *)
(** * The SQLite store answers as the in-memory store

    Histories of operations on the database, with any of their statements
    failing, against the in-memory store after the committed ones; and every
    query. *)

From Stdlib Require Import Ascii.
From stdpp Require Import base gmap strings list sorting.
From S2P Require Import Prelude Text Core Version Digest Component Run Workflow Task TaskLifecycle.
From S2P Require Import Event Machine Blobs Memory Ports Sql SqliteStore SqliteRefine SqlitePorts SqliteMemory.

Section answers.
Context `{JsonLib, ManifestJson, WorkspaceJson, Sha256Lib, UuidLib, Environment}.
Context `{SerdeJson ComponentManifest, SerdeJson RunRecord, SerdeJson TaskRecord, SerdeJson ArtifactMeta,
          SerdeJson WorkflowRecord, SerdeJson (gmap string string)}.
Context `{!SerdeJsonLaws ComponentManifest, !SerdeJsonLaws RunRecord, !SerdeJsonLaws TaskRecord,
          !SerdeJsonLaws ArtifactMeta, !SerdeJsonLaws WorkflowRecord, !SerdeJsonLaws (gmap string string)}.
Context {UT : UuidText} {UTL : UuidTextLaws} {SL : Sha256Laws}.

(** ** Histories *)

#[global] Instance hub_op_eq_dec : EqDecision hub_op.
Proof using Type. solve_decision. Defined.
#[global] Instance store_answer_eq_dec : EqDecision store_answer.
Proof using Type. solve_decision. Defined.

(** The committed operations of a history, with their answers. *)
Fixpoint sqlite_history (ops : list hub_op) (d : SqliteStore) : SqliteStore * list (hub_op * store_answer) :=
  match ops with
  | [] => (d, [])
  | op :: ops =>
      let '(d, r) := sqlite_do op d in
      let '(d', done) := sqlite_history ops d in
      (d', match r with Ok a => (op, a) :: done | Err _ => done end)
  end.

Fixpoint memory_history (ops : list hub_op) (h : InMemoryHubStore) : InMemoryHubStore * list (Result store_answer) :=
  match ops with
  | [] => (h, [])
  | op :: ops =>
      let '(h, r) := memory_do op h in
      let '(h', rs) := memory_history ops h in (h', r :: rs)
  end.

(** No operation changes when a record was created. *)
Fixpoint creation_stable (ops : list hub_op) (h : InMemoryHubStore) : Prop :=
  match ops with
  | [] => True
  | op :: ops => keeps_creation h op /\ creation_stable ops (memory_do op h).1
  end.

Lemma sqlite_do_Ok op d d' a h :
  represents (db_tables d) h -> keeps_creation h op -> sqlite_do op d = (d', Ok a) ->
  exists h', memory_do op h = (h', Ok a) /\ represents (db_tables d') h'.
Proof using Type*.
  intros Hrep Hkeep Hdo. destruct op as [m t|r|t|art|w t|id t];
    apply action_bind_Ok in Hdo as (d1 & x & Hdo & [-> <-]%mret_Ok); try match type of x with unit => destruct x end.
  - destruct (component_refines _ _ _ _ _ _ Hrep Hdo) as (h' & Hm & Hr). exists h'. unfold memory_do. by rewrite Hm.
  - destruct (run_refines _ _ _ _ Hrep Hkeep Hdo) as (h' & Hm & Hr). exists h'. unfold memory_do. by rewrite Hm.
  - destruct (task_refines _ _ _ _ Hrep Hdo) as (h' & Hm & Hr). exists h'. unfold memory_do. by rewrite Hm.
  - by apply artifact_refines with (d := d).
  - destruct (workflow_refines _ _ _ _ _ Hrep Hkeep Hdo) as (h' & Hm & Hr). exists h'. unfold memory_do. by rewrite Hm.
  - destruct (cancel_refines _ _ _ _ _ _ Hrep Hdo) as (h' & Hm & Hr). exists h'. unfold memory_do. by rewrite Hm.
Qed.

Lemma sqlite_do_Err op d d' e : sqlite_do op d = (d', Err e) -> db_tables d' = db_tables d.
Proof using Type.
  assert (Hb : forall A (m : sqlite A) (f : A -> store_answer) d d' e,
    (b ← m; mret (f b)) d = (d', Err e) -> m d = (d', Err e)).
  { intros A m f d1 d2 e1. unfold mbind, action_bind. destruct (m d1) as [d3 [x|e2]]; [done|]. by intros [= -> ->]. }
  intros Hdo. destruct op; unfold sqlite_do in Hdo; apply Hb in Hdo.
  - by eapply put_component_Err.
  - by eapply put_run_Err.
  - by eapply put_task_Err.
  - by eapply put_artifact_Err.
  - by eapply put_workflow_Err.
  - by eapply request_cancel_Err.
Qed.

Lemma history_refines ops d h :
  represents (db_tables d) h ->
  let '(d', committed) := sqlite_history ops d in
  creation_stable committed.*1 h ->
  let '(h', answers) := memory_history committed.*1 h in
  represents (db_tables d') h' /\ answers = Ok <$> committed.*2.
Proof using Type*.
  revert d h. induction ops as [|op ops IH]; intros d h Hrep; [done|]. cbn.
  destruct (sqlite_do op d) as [d1 [a|e]] eqn:Edo; cbn.
  - specialize (IH d1). destruct (sqlite_history ops d1) as [d' committed]. cbn. intros [Hkeep Hst].
    destruct (sqlite_do_Ok _ _ _ _ _ Hrep Hkeep Edo) as (h1 & Hm & Hrep1). rewrite Hm in *.
    specialize (IH h1 Hrep1 Hst). destruct (memory_history _ h1) as [h' rs].
    destruct IH as [? ->]. done.
  - apply sqlite_do_Err in Edo. rewrite <- Edo in Hrep. specialize (IH d1 h Hrep).
    by destruct (sqlite_history ops d1).
Qed.

(** (C7) SQLite loses nothing, duplicates nothing and half-does nothing, as long
    as no run or workflow changes its creation time.  Take any history of
    repository operations, any statement, transaction begin or commit of which
    may fail, such that no operation answered with success stores a run or a
    workflow again under another creation time than the recorded one
    ([creation_stable]: there SQLite keeps the [created_at] column of the
    first insertion and lists in another order than the in-memory store).
    Then the database represents the in-memory store that did exactly the
    operations answered with success, in the same order, lifecycle events
    included, and each of those gave the in-memory answer, except that
    artifact metadata already recorded is kept as it is where the in-memory
    store would replace it. *)
Theorem sqlite_refines_memory ops d h :
  represents (db_tables d) h ->
  let '(d', committed) := sqlite_history ops d in
  creation_stable committed.*1 h ->
  let '(h', answers) := memory_history committed.*1 h in
  represents (db_tables d') h' /\ answers = Ok <$> committed.*2.
Proof using Type*. apply history_refines. Qed.

(** ** Queries *)
Lemma decode_event_sequence e ev : decode_event e = Ok ev -> ev_sequence ev = e.1.
Proof using Type. destruct e as [k row]. unfold decode_event. intros He. by ok_inv. Qed.

Lemma mapR_filter_take {A B} (f : A -> Result B) (p : A -> bool) (q : B -> bool) n l l' :
  (forall a b, f a = Ok b -> q b = p a) -> mapR f l = Ok l' ->
  mapR f (take n (List.filter p l)) = Ok (take n (List.filter q l')).
Proof using Type.
  intros Hpq Hl%mapR_Ok. apply mapR_Ok, Forall2_take.
  induction Hl as [|a b l l' Hab _ IH]; [constructor|]. cbn. rewrite (Hpq _ _ Hab).
  destruct (p a); [by constructor|done].
Qed.

Lemma page_agrees t h after limit :
  represents t h -> (after <= i64_max)%N ->
  SqliteStore_list_after t after limit = InMemoryLifecycleEvents_list_after (hs_events h) after limit.
Proof using Type.
  intros Hrep Hle. unfold SqliteStore_list_after, InMemoryLifecycleEvents_list_after.
  destruct (validate_event_page_limit limit) as [u|e]; [|done]. cbn. unfold sql_u64.
  rewrite (proj2 (N.leb_le _ _) Hle). cbn.
  apply mapR_filter_take; [|apply (rp_log _ _ Hrep)]. by intros e ev <-%decode_event_sequence.
Qed.

Lemma page_beyond t h after limit :
  represents t h -> (i64_max < after)%N -> (1 <= limit <= 1000)%N ->
  SqliteStore_list_after t after limit = Err (Storage "querying lifecycle events") /\
  InMemoryLifecycleEvents_list_after (hs_events h) after limit = Ok [].
Proof using Type.
  intros Hrep Hlt Hlim. destruct (rp_log _ _ Hrep) as [Hs Hb Hk Hl].
  unfold SqliteStore_list_after, InMemoryLifecycleEvents_list_after, validate_event_page_limit, MAX_EVENT_PAGE.
  assert (((1 <=? limit) && (limit <=? 1000))%N = true) as -> by (rewrite andb_true_iff, !N.leb_le; lia). cbn.
  unfold sql_u64. rewrite (proj2 (N.leb_gt _ _) Hlt). split; [done|].
  assert (Hnone : List.filter (fun e => (after <? e.1)%N) (map_iter (tb_lifecycle_events t)) = []).
  { destruct (List.filter _ _) as [|[k row] l] eqn:E; [done|].
    assert (Hin : In (k, row) ((k, row) :: l)) by by left.
    rewrite <- E in Hin. apply filter_In in Hin as [Hin%list_elem_of_In%elem_of_map_iter Hgt%N.ltb_lt].
    destruct (proj1 (Hk k)) as [_ Hle]; [by exists row|]. cbn in Hgt. lia. }
  pose proof (mapR_filter_take decode_event (fun e => (after <? e.1)%N) (fun e => (after <? ev_sequence e)%N)
    (N.to_nat limit) _ _ (fun e ev He => f_equal (N.ltb after) (decode_event_sequence e ev He)) Hl) as Hpage.
  rewrite Hnone, take_nil in Hpage. by injection Hpage as <-.
Qed.

Lemma high_water_agrees t h :
  represents t h -> SqliteStore_high_water_sequence t = InMemoryLifecycleEvents_high_water_sequence (hs_events h).
Proof using Type.
  intros Hrep. destruct (rp_log _ _ Hrep) as [Hs _ Hk _].
  unfold SqliteStore_high_water_sequence, InMemoryLifecycleEvents_high_water_sequence. f_equal. rewrite Hs.
  assert (Hin : forall k, k ∈ map_keys (tb_lifecycle_events t) <-> (1 <= k <= tb_event_sequence t)%N).
  { intros k. rewrite <- Hk. unfold map_keys. rewrite list_elem_of_fmap. split.
    - intros ([k' row] & -> & Hin%elem_of_map_iter). by exists row.
    - intros [row Hrow]. exists (k, row). split; [done|]. by apply elem_of_map_iter. }
  assert (Hmax : forall (l : list N) n, (forall k, k ∈ l -> (k <= n)%N) -> (n = 0 \/ n ∈ l)%N -> foldr N.max 0%N l = n).
  { induction l as [|x l IH]; intros n Hle [->|Hn]; try done; [by apply elem_of_nil in Hn| |].
    - cbn. rewrite (IH 0%N); [|intros k ?; apply Hle; by right|by left]. specialize (Hle x). 
      assert (x <= 0)%N by (apply Hle; left). lia.
    - cbn. apply elem_of_cons in Hn as [->|Hn].
      + assert (Hf : forall l : list N, (forall k, k ∈ l -> k <= x)%N -> (foldr N.max 0 l <= x)%N).
        { clear. induction l as [|y l IH]; cbn; intros Hle; [lia|].
          assert (y <= x)%N by (apply Hle; left). assert (foldr N.max 0 l <= x)%N by (apply IH; intros; apply Hle; by right). lia. }
        assert (foldr N.max 0 l <= x)%N by (apply Hf; intros; apply Hle; by right). lia.
      + rewrite (IH n); [|intros; apply Hle; by right|by right]. assert (x <= n)%N by (apply Hle; left). lia. }
  apply Hmax; [by intros k Hin'%Hin; lia|]. destruct (decide (tb_event_sequence t = 0)%N) as [E|E]; [by left|].
  right. apply Hin. lia.
Qed.

(** Every row of the map is the manifest of its key. *)
Lemma represents_keyed t h : represents t h -> registry_keyed (hs_components h).
Proof using UTL.
  intros Hrep id v m Hm. pose proof (rp_components _ _ Hrep id v) as Hg. rewrite Hm in Hg.
  apply (get_component_key _ _ _ _ (rp_ok _ _ Hrep)) in Hg. done.
Qed.

Lemma components_registered t h m :
  represents t h ->
  SqliteStore_get_component t (m_id m) (m_version m) = Ok (Some m) <-> registered h m.
Proof using Type. intros Hrep. rewrite (rp_components _ _ Hrep), registered_lookup. split; [by intros [= ->]|by intros ->]. Qed.

Lemma components_list_agrees t h :
  represents t h -> SqliteStore_list_components t = InMemoryComponents_list (hs_components h).
Proof using UTL.
  intros Hrep. destruct (list_law t (rp_ok _ _ Hrep)) as (l & -> & Hin & Hkeys).
  destruct (in_memory_list h (represents_keyed _ _ Hrep)) as [Hmk Hmin]. unfold InMemoryComponents_list. f_equal.
  set (key := fun m => (m_id m, m_version m)) in *.
  assert (Hk : registry_key <$> l =
    (fun e : ComponentId * Version => (id_to_string e.1, version_str e.2)) <$> (key <$> l))
    by (by rewrite <- list_fmap_compose).
  assert (Hnd : NoDup (key <$> l)).
  { eapply (NoDup_fmap_1 (fun e : ComponentId * Version => (id_to_string e.1, version_str e.2))).
    rewrite <- Hk, Hkeys. apply NoDup_map_keys. }
  apply (sorted_keys_unique key).
  - apply (StronglySorted_fmap_2 (fun e : ComponentId * Version => (id_to_string e.1, version_str e.2))).
    + apply component_text_le.
    + rewrite <- Hk, Hkeys. apply sorted_map_keys.
  - rewrite Hmk. apply sorted_map_keys.
  - done.
  - apply NoDup_Permutation; [by eapply NoDup_fmap_1|eapply (NoDup_fmap_1 key); rewrite Hmk; apply NoDup_map_keys|].
    intros m. by rewrite Hin, Hmin, components_registered.
Qed.

Lemma latest_agrees t h id :
  represents t h -> SqliteStore_latest_component t id = InMemoryComponents_latest (hs_components h) id.
Proof using UTL.
  intros Hrep. pose proof (latest_law t id) as Hlaw. pose proof (in_memory_latest h id) as Hmem.
  assert (Hiff : forall m, SqliteStore_latest_component t id = Ok (Some m) <->
                           InMemoryComponents_latest (hs_components h) id = Ok (Some m)).
  { intros m. rewrite Hlaw, Hmem by eauto using rp_ok, represents_keyed.
    rewrite components_registered by done. split; intros (? & ? & Hm); split_and!; try done;
      intros m' ?%(components_registered _ _ _ Hrep); by apply Hm. }
  assert (exists o, SqliteStore_latest_component t id = Ok o) as [o Ho].
  { pose proof (latest_row t id) as Hl. cbn zeta in Hl. unfold SqliteStore_latest_component.
    destruct (head _) as [[k row]|]; [|by eexists]. destruct Hl as (_ & Hr & _).
    destruct (so_components _ (rp_ok _ _ Hrep) _ _ Hr) as (m & Hj & _). cbn. unfold decode_json. rewrite Hj.
    by eexists. }
  destruct (components_latest_spec (hs_components h) id) as (o' & Ho' & _).
  rewrite Ho, Ho' in *. destruct o as [m|]; [symmetry; by apply Hiff|].
  destruct o' as [m'|]; [by apply Hiff|done].
Qed.

(** (C17) A database that represents an in-memory store answers every query of
    the repositories and of the event log as that store does: single records,
    the newest version of a component, every listing in the same order, the
    high-water mark, and every page of events whose cursor is at most
    [i64::MAX].  A larger cursor, with a legal page size, is a storage error
    of SQLite, which cannot bind it, where the in-memory log answers an empty
    page. *)
Theorem sqlite_reads_agree t h :
  represents t h ->
  (forall id, SqliteStore_latest_component t id = InMemoryComponents_latest (hs_components h) id) /\
  (forall id v, SqliteStore_get_component t id v = InMemoryComponents_get (hs_components h) id v) /\
  SqliteStore_list_components t = InMemoryComponents_list (hs_components h) /\
  (forall id, SqliteStore_get_run t id = Ok (hs_runs h !! id)) /\
  SqliteStore_list_runs t = InMemoryRuns_list (hs_runs h) /\
  (forall id, SqliteStore_get_task t id = Ok (hs_tasks h !! id)) /\
  SqliteStore_list_tasks t = InMemoryTasks_list (hs_tasks h) /\
  (forall id, SqliteStore_get_artifact t id = Ok (hs_artifacts h !! id)) /\
  SqliteStore_list_artifacts t = InMemoryArtifactMeta_list (hs_artifacts h) /\
  (forall id, SqliteStore_get_workflow t id = Ok (hs_workflows h !! id)) /\
  SqliteStore_list_workflows t = InMemoryWorkflows_list (hs_workflows h) /\
  (forall after limit, (after <= i64_max)%N ->
     SqliteStore_list_after t after limit = InMemoryLifecycleEvents_list_after (hs_events h) after limit) /\
  (forall after limit, (i64_max < after)%N -> (1 <= limit <= 1000)%N ->
     SqliteStore_list_after t after limit = Err (Storage "querying lifecycle events") /\
     InMemoryLifecycleEvents_list_after (hs_events h) after limit = Ok []) /\
  SqliteStore_high_water_sequence t = InMemoryLifecycleEvents_high_water_sequence (hs_events h).
Proof using UTL.
  intros Hrep. pose proof (rp_ok _ _ Hrep) as Hok.
  assert (Hord : forall k (i j : uuid_id k), ord_le i j <-> String.le (id_to_string i) (id_to_string j))
    by (intros k i j; apply uuid_text_order).
  split_and!.
  - intros id. by apply latest_agrees.
  - intros id v. apply (rp_components _ _ Hrep).
  - by apply components_list_agrees.
  - apply (rp_runs _ _ Hrep).
  - apply (table_list_rep _ _ _ (fun i : RunId => id_to_string i));
      [apply Hord|apply Hok|apply (rp_runs _ _ Hrep)|apply (rp_run_times _ _ Hrep)].
  - apply (rp_tasks _ _ Hrep).
  - apply (table_list_rep _ _ _ (fun i : TaskId => id_to_string i));
      [apply Hord|apply Hok|apply (rp_tasks _ _ Hrep)|apply (rp_task_times _ _ Hrep)].
  - apply (rp_artifacts _ _ Hrep).
  - apply (table_list_rep _ _ _ (fun i : ArtifactId => id_to_string i));
      [apply Hord|by apply so_artifact_table|apply (rp_artifacts _ _ Hrep)|apply (rp_artifact_times _ _ Hrep)].
  - apply (rp_workflows _ _ Hrep).
  - apply (table_list_rep _ _ _ (fun i : WorkflowId => id_to_string i));
      [apply Hord|apply Hok|apply (rp_workflows _ _ Hrep)|apply (rp_workflow_times _ _ Hrep)].
  - intros after limit. by apply page_agrees.
  - intros after limit. by apply page_beyond.
  - by apply high_water_agrees.
Qed.
End answers.

(** ** Witnesses

    A run is stored, the disk fails on an artifact, which is then stored
    twice. *)
Section witnesses.
#[local] Existing Instance toy_json.
#[local] Existing Instance toy_manifest_json.
#[local] Existing Instance toy_workspace_json.
#[local] Existing Instance toy_sha.
#[local] Existing Instance toy_sha_laws.
#[local] Existing Instance plain_uuid.
#[local] Existing Instance plain_uuid_text.
#[local] Existing Instance plain_uuid_text_laws.

Definition failing_environment : Environment := {|
  env_fault t := if (t =? 7)%N then Some 0 else None;
  env_reads _ content := [ReadChunk content];
  env_uuid t := t;
  env_now t := t |}.
#[local] Existing Instance failing_environment.

Definition blob_meta : ArtifactMeta := {|
  art_id := from_uuid 1; art_name := "matrix"; art_media_type := "text/csv";
  art_digest := hash_bytes DOMAIN_ARTIFACT_BLOB [1%N]; art_size := 1; art_created_at := 0;
  art_produced_by_run := None |}.

Definition witness_attributes : list (gmap string string) :=
  ne_attributes <$> artifact_recorded_event blob_meta :: derive_run_events None sample_run.

#[local] Instance manifest_known : SerdeJson ComponentManifest := known_json [sample_manifest].
#[local] Instance run_known : SerdeJson RunRecord := known_json [sample_run].
#[local] Instance task_known : SerdeJson TaskRecord := known_json [sample_task_record].
#[local] Instance artifact_known : SerdeJson ArtifactMeta := known_json [blob_meta].
#[local] Instance workflow_known : SerdeJson WorkflowRecord := known_json [sample_workflow_record].
#[local] Instance attributes_known : SerdeJson (gmap string string) := known_json witness_attributes.
#[local] Hint Resolve known_json_laws : typeclass_instances.

Definition witness_ops : list hub_op :=
  [PutRun sample_run; PutArtifact blob_meta; PutArtifact blob_meta; PutArtifact blob_meta].

Definition empty_database : SqliteStore := mkDatabase Tables_empty 0.

Lemma witness_committed :
  (sqlite_history witness_ops empty_database).2 =
  [(PutRun sample_run, Done); (PutArtifact blob_meta, Done); (PutArtifact blob_meta, Done)].
Proof. apply (bool_decide_unpack _). vm_compute. exact I. Qed.

Definition witness_memory : InMemoryHubStore :=
  (memory_history [PutRun sample_run; PutArtifact blob_meta; PutArtifact blob_meta] InMemoryHubStore_default).1.

Lemma witness_stable :
  creation_stable [PutRun sample_run; PutArtifact blob_meta; PutArtifact blob_meta] InMemoryHubStore_default.
Proof. split; [|done]. intros p. unfold InMemoryHubStore_default, hs_runs. by rewrite lookup_empty. Qed.

Lemma witness_represents :
  represents (db_tables (sqlite_history witness_ops empty_database).1) witness_memory.
Proof.
  pose proof (history_refines witness_ops empty_database InMemoryHubStore_default represents_empty) as Hr.
  pose proof witness_committed as Hc. unfold witness_memory.
  destruct (sqlite_history witness_ops empty_database) as [d' committed].
  cbn [snd] in Hc. subst committed. cbn [fmap list_fmap fst snd] in *. specialize (Hr witness_stable).
  destruct (memory_history _ _) as [h' answers]. apply Hr.
Qed.

Lemma sqlite_refines_memory_witness :
  let '(d', committed) := sqlite_history witness_ops empty_database in
  committed.*1 = [PutRun sample_run; PutArtifact blob_meta; PutArtifact blob_meta] /\
  let '(h', answers) := memory_history committed.*1 InMemoryHubStore_default in
  represents (db_tables d') h' /\ answers = [Ok Done; Ok Done; Ok Done].
Proof.
  pose proof (sqlite_refines_memory witness_ops empty_database InMemoryHubStore_default represents_empty) as Hr.
  pose proof witness_committed as Hc. destruct (sqlite_history witness_ops empty_database) as [d' committed].
  cbn [snd] in Hc. subst committed. split; [reflexivity|]. apply Hr, witness_stable.
Defined.

Lemma sqlite_reads_agree_witness :
  let t := db_tables (sqlite_history witness_ops empty_database).1 in
  (exists r, SqliteStore_list_runs t = Ok [r]) /\
  SqliteStore_list_runs t = InMemoryRuns_list (hs_runs witness_memory) /\
  SqliteStore_list_after t 0 1000 = InMemoryLifecycleEvents_list_after (hs_events witness_memory) 0 1000.
Proof.
  intros t. destruct (sqlite_reads_agree t witness_memory witness_represents)
    as (_ & _ & _ & _ & Hl & _ & _ & _ & _ & _ & _ & Hp & _).
  split; [|split; [exact Hl|apply Hp; by vm_compute]].
  assert (Hn : match SqliteStore_list_runs t with Ok [_] => true | _ => false end = true) by (vm_compute; reflexivity).
  destruct (SqliteStore_list_runs t) as [[|r [|? ?]]|e]; try discriminate Hn. by exists r.
Defined.
End witnesses.
