(* ===== verification/SandboxAttempt.v ===== *)
(** * Ownership of sandbox attempts ([hub-store-sqlite/src/sandbox_attempt.rs])

    The journal of backend attempts in the SQLite store: a task is reserved
    once, owned under one handle, and cleaned after the backend was seen to be
    gone.  Uncleaned workspaces never overlap. *)

From Stdlib Require Import Ascii.
From stdpp Require Import base gmap strings list.
From S2P Require Import Prelude Text Core Version Digest Component Run Workflow Task TaskLifecycle.
From S2P Require Import Event Machine Blobs Memory Sql SqliteStore SqliteRefine SqlitePorts SqliteMemory.

Inductive SandboxAttemptState :=
| SbReserved
| SbOwned
| SbCleaned.

#[global] Instance SandboxAttemptState_eq_dec : EqDecision SandboxAttemptState.
Proof. solve_decision. Defined.

Definition SandboxAttemptState_as_str (s : SandboxAttemptState) : string :=
  match s with SbReserved => "reserved" | SbOwned => "owned" | SbCleaned => "cleaned" end.

Record SandboxAttempt := {
  sba_task_id : string;
  sba_attempt_id : AttemptId;
  sba_backend : string;
  sba_request_sha256 : string;
  sba_workspace : string;
  sba_state : SandboxAttemptState;
  sba_owned_handle : option string;
}.

#[global] Instance SandboxAttempt_eq_dec : EqDecision SandboxAttempt.
Proof. solve_decision. Defined.

Definition sandbox_token (s : string) (cap : nat) : bool :=
  negb (bool_decide (s = "")) && (String.length s <=? cap)%nat &&
  forallb (fun b => is_ascii_alphanumeric b || (b =? 45)%N) (bytes s).

Definition SandboxAttempt_validate (a : SandboxAttempt) : Result unit :=
  ensure (negb (negb (sandbox_token (sba_task_id a) 256) ||
                negb (sandbox_token (sba_backend a) 64) ||
                negb (String.length (sba_request_sha256 a) =? 64)%nat ||
                negb (forallb (fun b => is_ascii_digit b || in_range 97 102 b) (bytes (sba_request_sha256 a))) ||
                (4096 <? String.length (sba_workspace a))%nat ||
                negb (starts_with "/" (sba_workspace a)) ||
                existsb is_control (chars (sba_workspace a)) ||
                negb (eqb (bool_decide (sba_state a = SbReserved)) (negb (is_some (sba_owned_handle a)))) ||
                match sba_owned_handle a with Some s => negb (sandbox_token s 256) | None => false end))
    (Validation "invalid sandbox attempt ownership record").

(** [a = b OR substr(b, 1, length(a) + 1) = a || '/' OR substr(a, 1,
    length(b) + 1) = b || '/']. *)
Definition workspaces_overlap (a b : string) : bool :=
  bool_decide (a = b) || starts_with (String.append a "/") b || starts_with (String.append b "/") a.

Definition uncleaned (row : SandboxRow) : Prop := sbr_state row <> "cleaned".

(** The conditional insert of a reservation, answering the number of rows. *)
Definition insert_sandbox (task_id workspace json : string) (t : Tables) : Tables * Result N :=
  let active := filter (fun e : string * SandboxRow => uncleaned e.2) (tb_sandbox_attempts t) in
  if (size active <? 256)%nat &&
     negb (existsb (fun e => workspaces_overlap (sbr_workspace e.2) workspace) (map_iter active))
  then match tb_sandbox_attempts t !! task_id with
       | Some _ => (t, Err (Storage "task ID already journaled or reservation unavailable; never replay it"))
       | None => (set_sandbox_attempts (<[task_id := {| sbr_workspace := workspace; sbr_state := "reserved";
                                                        sbr_record_json := json |}]> (tb_sandbox_attempts t)) t, Ok 1%N)
       end
  else (t, Ok 0%N).

(** [UPDATE sandbox_attempts SET record_json = ?2, state = ?3 WHERE task_id =
    ?1]. *)
Definition update_sandbox (task_id json state : string) (t : Tables) : Tables :=
  set_sandbox_attempts
    (alter (fun row => {| sbr_workspace := sbr_workspace row; sbr_state := state; sbr_record_json := json |})
       task_id (tb_sandbox_attempts t)) t.

Section sandbox.
Context `{JsonLib, ManifestJson, WorkspaceJson, Sha256Lib, UuidLib, Environment}.
Context `{SerdeJson (gmap string string), SerdeJson SandboxAttempt}.

(** [AttemptId::generate()]. *)
Definition generate_attempt_id : sqlite AttemptId := fun d =>
  (mkDatabase (db_tables d) (db_tick d + 1), Ok (from_uuid (env_uuid (db_tick d)))).

Definition sandbox_json_error : string := "sandbox ownership JSON: {error}".

Definition sandbox_event (record : SandboxAttempt) : sqlite unit :=
  now ← sql_now;
  _ ← append_event_tx {| ne_recorded_at := now; ne_kind := SandboxAttemptStateChanged;
        ne_entity_type := LeSandboxAttempt; ne_entity_id := id_to_string (sba_attempt_id record);
        ne_attributes := list_to_map [("task_id", sba_task_id record);
                                      ("state", SandboxAttemptState_as_str (sba_state record));
                                      ("request_sha256", sba_request_sha256 record)] |};
  mret tt.

Definition SqliteStore_reserve_sandbox_attempt (task_id backend request_sha256 workspace : string)
    : sqlite SandboxAttempt :=
  attempt_id ← generate_attempt_id;
  let record := {| sba_task_id := task_id; sba_attempt_id := attempt_id; sba_backend := backend;
                   sba_request_sha256 := request_sha256; sba_workspace := workspace;
                   sba_state := SbReserved; sba_owned_handle := None |} in
  _ ← lift (SandboxAttempt_validate record);
  transaction "beginning sandbox reservation" "committing sandbox reservation" (
    json ← lift (encode_json sandbox_json_error record);
    inserted ← statement "task ID already journaled or reservation unavailable; never replay it"
                 (insert_sandbox task_id workspace json);
    _ ← lift (ensure (inserted =? 1)%N
                (Validation "workspace overlap quarantined or uncleaned attempt capacity exhausted"));
    _ ← sandbox_event record;
    mret (Committing record)).

Definition decode_sandbox (json : string) : Result SandboxAttempt :=
  record ← decode_json sandbox_json_error json;
  _ ← SandboxAttempt_validate record;
  Ok record.

Definition SqliteStore_sandbox_attempt (t : Tables) (task_id : string) : Result (option SandboxAttempt) :=
  match sbr_record_json <$> tb_sandbox_attempts t !! task_id with
  | None => Ok None
  | Some json => Some <$> decode_sandbox json
  end.

Definition SqliteStore_sandbox_transition (task_id : string) (attempt_id : AttemptId) (handle : string)
    (expected next : SandboxAttemptState) : sqlite SandboxAttempt :=
  transaction "beginning sandbox transition" "committing sandbox transition" (
    raw ← query "loading sandbox ownership" (fun t => sbr_record_json <$> tb_sandbox_attempts t !! task_id);
    raw ← lift (ok_or raw (Storage "loading sandbox ownership"));
    record ← lift (decode_sandbox raw);
    _ ← lift (ensure (negb (negb (bool_decide (sba_state record = expected)) ||
                            negb (bool_decide (sba_attempt_id record = attempt_id)) ||
                            match sba_owned_handle record with
                            | Some h => negb (bool_decide (h = handle))
                            | None => false
                            end))
                (Validation "stale sandbox ownership transition"));
    let record := {| sba_task_id := sba_task_id record; sba_attempt_id := sba_attempt_id record;
                     sba_backend := sba_backend record; sba_request_sha256 := sba_request_sha256 record;
                     sba_workspace := sba_workspace record; sba_state := next;
                     sba_owned_handle := Some handle |} in
    _ ← lift (SandboxAttempt_validate record);
    json ← lift (encode_json sandbox_json_error record);
    _ ← execute_sql "updating sandbox ownership"
          (update_sandbox task_id json (SandboxAttemptState_as_str next));
    _ ← sandbox_event record;
    mret (Committing record)).

Definition SqliteStore_sandbox_own (task_id : string) (attempt_id : AttemptId) (handle : string)
    : sqlite SandboxAttempt :=
  SqliteStore_sandbox_transition task_id attempt_id handle SbReserved SbOwned.

Definition SqliteStore_sandbox_confirm_absent (task_id : string) (attempt_id : AttemptId) (handle : string)
    : sqlite SandboxAttempt :=
  SqliteStore_sandbox_transition task_id attempt_id handle SbOwned SbCleaned.

(** ** What a committed operation did *)
Context `{!SerdeJsonLaws (gmap string string), !SerdeJsonLaws SandboxAttempt}.

Lemma sandbox_event_logs a d d' u : sandbox_event a d = (d', Ok u) -> exists es, logs (db_tables d) es (db_tables d').
Proof using Type*.
  intros He. apply action_bind_Ok in He as (d1 & now & Hn%sql_now_Ok & He).
  apply action_bind_Ok in He as (d2 & ev & Ha%append_event_logs & [-> _]%mret_Ok). rewrite <- Hn. by eexists.
Qed.

Definition reserved_row (workspace json : string) : SandboxRow :=
  {| sbr_workspace := workspace; sbr_state := "reserved"; sbr_record_json := json |}.

Definition active_rows (t : Tables) : gmap string SandboxRow :=
  filter (fun e : string * SandboxRow => uncleaned e.2) (tb_sandbox_attempts t).

Lemma insert_sandbox_one task ws json t t' :
  insert_sandbox task ws json t = (t', Ok 1%N) ->
  size (active_rows t) < 256 /\ tb_sandbox_attempts t !! task = None /\
  (forall k row, tb_sandbox_attempts t !! k = Some row -> uncleaned row ->
     workspaces_overlap (sbr_workspace row) ws = false) /\
  t' = set_sandbox_attempts (<[task := reserved_row ws json]> (tb_sandbox_attempts t)) t.
Proof using Type.
  unfold insert_sandbox. fold (active_rows t). destruct (size _ <? 256) eqn:Es; [|done]. cbn.
  destruct (existsb _ _) eqn:Eo; [done|]. cbn. destruct (_ !! task) eqn:Et; [done|]. intros [= <-].
  apply Nat.ltb_lt in Es. split_and!; [done|done| |done]. intros k row Hr Hu.
  destruct (workspaces_overlap _ _) eqn:E; [|done]. exfalso. apply not_true_iff_false in Eo. apply Eo.
  apply existsb_exists. exists (k, row). split; [|done]. apply list_elem_of_In, elem_of_map_iter.
  by apply map_lookup_filter_Some.
Qed.

Lemma reserve_Ok task backend request ws d d' a :
  SqliteStore_reserve_sandbox_attempt task backend request ws d = (d', Ok a) ->
  let t := db_tables d in
  SandboxAttempt_validate a = Ok tt /\ sba_task_id a = task /\ sba_workspace a = ws /\
  sba_state a = SbReserved /\ size (active_rows t) < 256 /\ tb_sandbox_attempts t !! task = None /\
  (forall k row, tb_sandbox_attempts t !! k = Some row -> uncleaned row ->
     workspaces_overlap (sbr_workspace row) ws = false) /\
  exists json es, json_from_str json = Ok a /\
    logs (set_sandbox_attempts (<[task := reserved_row ws json]> (tb_sandbox_attempts t)) t) es (db_tables d').
Proof using Type*.
  unfold SqliteStore_reserve_sandbox_attempt. intros Hp.
  apply action_bind_Ok in Hp as (d0 & attempt & [= <- <-] & Hp). act_inv.
  apply transaction_Ok in Hp as (d1 & d2 & Ht & [[Hb Ht']|[Hb Ht']]); act_inv; [done|]. cbn in Ht.
  injection Hb as <-. bool_inv. subst. apply statement_Ok in Hr1. rewrite Ht in Hr1.
  apply insert_sandbox_one in Hr1 as (Hs & Hn & Ho & Hd). apply sandbox_event_logs in Hr3 as [es Hl].
  rewrite Hd in Hl. rewrite Ht'. split_and!; try done. eexists _, es. split; [|exact Hl].
  by apply map_err_Ok, json_round_trip in Hr0.
Qed.

Definition with_owner (a : SandboxAttempt) (next : SandboxAttemptState) (handle : string) : SandboxAttempt :=
  {| sba_task_id := sba_task_id a; sba_attempt_id := sba_attempt_id a; sba_backend := sba_backend a;
     sba_request_sha256 := sba_request_sha256 a; sba_workspace := sba_workspace a; sba_state := next;
     sba_owned_handle := Some handle |}.

Lemma update_sandbox_eq task json state t row :
  tb_sandbox_attempts t !! task = Some row ->
  update_sandbox task json state t =
    set_sandbox_attempts (<[task := {| sbr_workspace := sbr_workspace row; sbr_state := state;
                                       sbr_record_json := json |}]> (tb_sandbox_attempts t)) t.
Proof using Type.
  intros Hl. unfold update_sandbox. f_equal. apply map_eq. intros k. destruct (decide (task = k)) as [<-|Hne].
  - by rewrite lookup_alter_eq, lookup_insert_eq, Hl.
  - by rewrite lookup_alter_ne, lookup_insert_ne.
Qed.

Lemma decode_sandbox_Ok json a :
  decode_sandbox json = Ok a <-> json_from_str json = Ok a /\ SandboxAttempt_validate a = Ok tt.
Proof using Type.
  unfold decode_sandbox, decode_json. destruct (json_from_str json) as [b|e]; cbn; [|split; [done|by intros []]].
  destruct (SandboxAttempt_validate b) as [[]|e] eqn:E; cbn; split; try done.
  - by intros [= ->].
  - by intros [[= ->] _].
  - intros [[= ->] Hv]. congruence.
Qed.

Lemma sandbox_transition_Ok task attempt handle expected next d d' a :
  SqliteStore_sandbox_transition task attempt handle expected next d = (d', Ok a) ->
  let t := db_tables d in
  exists row old, tb_sandbox_attempts t !! task = Some row /\ decode_sandbox (sbr_record_json row) = Ok old /\
    sba_state old = expected /\ sba_attempt_id old = attempt /\
    (forall h, sba_owned_handle old = Some h -> h = handle) /\
    a = with_owner old next handle /\ SandboxAttempt_validate a = Ok tt /\
  exists json es, json_from_str json = Ok a /\
    logs (set_sandbox_attempts (<[task := {| sbr_workspace := sbr_workspace row;
            sbr_state := SandboxAttemptState_as_str next; sbr_record_json := json |}]> (tb_sandbox_attempts t)) t)
      es (db_tables d').
Proof using Type*.
  unfold SqliteStore_sandbox_transition. intros Hp.
  apply transaction_Ok in Hp as (d1 & d2 & Ht & [[Hb Ht']|[Hb Ht']]); act_inv; [done|].
  injection Hb as <-. apply query_Ok in Hr as [Es Hrow]. symmetry in Hrow. apply fmap_Some in Hrow as (row & Hrow & ->).
  rewrite Ht in Es, Hrow. apply execute_sql_Ok in Hr5. rewrite Es, (update_sandbox_eq _ _ _ _ _ Hrow) in Hr5.
  apply sandbox_event_logs in Hr6 as [es Hl]. rewrite Hr5 in Hl. rewrite Ht'. exists row, r1.
  apply negb_true_iff, orb_false_iff in Hr2 as [[Hst Hat]%orb_false_iff Hh].
  apply negb_false_iff, bool_decide_eq_true in Hst, Hat.
  split_and!; [done..| |done|done|].
  - intros h Hh'. rewrite Hh' in Hh. by apply negb_false_iff, bool_decide_eq_true in Hh.
  - exists r4, es. split; [by apply map_err_Ok, json_round_trip in Hr4|exact Hl].
Qed.

Lemma reserve_Err task backend request ws d d' e :
  SqliteStore_reserve_sandbox_attempt task backend request ws d = (d', Err e) -> db_tables d' = db_tables d.
Proof using Type.
  unfold SqliteStore_reserve_sandbox_attempt. intros Hp.
  unfold mbind, action_bind at 1, generate_attempt_id in Hp. apply lift_bind_Err in Hp as [->|[? Hp]]; [done|].
  by apply transaction_Err in Hp.
Qed.

Lemma transition_Err task attempt handle expected next d d' e :
  SqliteStore_sandbox_transition task attempt handle expected next d = (d', Err e) -> db_tables d' = db_tables d.
Proof using Type. apply transaction_Err. Qed.

(** ** The journal *)
Definition sandbox_holds (row : SandboxRow) (k : string) (a : SandboxAttempt) : Prop :=
  decode_sandbox (sbr_record_json row) = Ok a /\ sba_task_id a = k /\ sbr_workspace row = sba_workspace a /\
  sbr_state row = SandboxAttemptState_as_str (sba_state a).

Record sandbox_inv (t : Tables) : Prop := {
  si_rows : forall k row, tb_sandbox_attempts t !! k = Some row -> exists a, sandbox_holds row k a;
  si_apart : forall k1 k2 row1 row2, k1 <> k2 ->
    tb_sandbox_attempts t !! k1 = Some row1 -> tb_sandbox_attempts t !! k2 = Some row2 ->
    uncleaned row1 -> uncleaned row2 -> workspaces_overlap (sbr_workspace row1) (sbr_workspace row2) = false;
  si_bound : size (active_rows t) <= 256;
}.

(** An attempt only moves from reserved to owned to cleaned, and what was
    journaled of it never changes. *)
Definition state_rank (s : SandboxAttemptState) : nat :=
  match s with SbReserved => 0 | SbOwned => 1 | SbCleaned => 2 end.

Definition sandbox_progress (a a' : SandboxAttempt) : Prop :=
  sba_task_id a' = sba_task_id a /\ sba_attempt_id a' = sba_attempt_id a /\ sba_backend a' = sba_backend a /\
  sba_request_sha256 a' = sba_request_sha256 a /\ sba_workspace a' = sba_workspace a /\
  state_rank (sba_state a) <= state_rank (sba_state a') /\
  (forall h, sba_owned_handle a = Some h -> sba_owned_handle a' = Some h) /\
  (sba_state a' = sba_state a -> a' = a).

Lemma sandbox_progress_refl a : sandbox_progress a a.
Proof using Type. by unfold sandbox_progress; split_and!. Qed.

Lemma state_rank_inj s s' : state_rank s = state_rank s' -> s = s'.
Proof using Type. by destruct s, s'. Qed.

Lemma sandbox_progress_trans a b c : sandbox_progress a b -> sandbox_progress b c -> sandbox_progress a c.
Proof using Type.
  intros (A1 & A2 & A3 & A4 & A5 & A6 & A7 & A8) (B1 & B2 & B3 & B4 & B5 & B6 & B7 & B8).
  unfold sandbox_progress. split_and!; try congruence; [lia|auto|]. intros Hs.
  assert (sba_state b = sba_state a) as Hb by (apply state_rank_inj; rewrite Hs in B6; lia).
  rewrite B8 by congruence. by apply A8.
Qed.

Lemma overlap_sym a b : workspaces_overlap a b = workspaces_overlap b a.
Proof using Type.
  unfold workspaces_overlap. rewrite (bool_decide_ext (a = b) (b = a)) by (split; by intros ->).
  rewrite <- !orb_assoc. f_equal. apply orb_comm.
Qed.

Lemma sandbox_inv_empty : sandbox_inv Tables_empty.
Proof using Type.
  constructor; [by intros k row; cbn; rewrite lookup_empty|by intros k1 k2 row1 row2 _; cbn; rewrite lookup_empty|].
  unfold active_rows. cbn. rewrite map_filter_empty, map_size_empty. lia.
Qed.

Lemma sandbox_inv_same t t' : tb_sandbox_attempts t' = tb_sandbox_attempts t -> sandbox_inv t -> sandbox_inv t'.
Proof using Type. intros Ht [Hr Ha Hb]. unfold active_rows in Hb. constructor; unfold active_rows; rewrite Ht; done. Qed.

Lemma reserve_keeps task backend request ws d d' a :
  sandbox_inv (db_tables d) -> SqliteStore_reserve_sandbox_attempt task backend request ws d = (d', Ok a) ->
  sandbox_inv (db_tables d').
Proof using Type*.
  intros [Hrows Hapart Hbound] (Hv & Hk & Hw & Hs & Hlt & Hn & Ho & json & es & Hj & Hl)%reserve_Ok.
  apply logs_tables in Hl as (_ & _ & _ & _ & _ & _ & Ht). cbn in Ht. constructor.
  - intros k row. rewrite Ht, lookup_insert_Some. intros [[<- <-]|[_ Hl]]; [|by apply Hrows].
    exists a. split; [by apply decode_sandbox_Ok|]. rewrite Hs. by split_and!.
  - intros k1 k2 row1 row2 Hne. rewrite Ht, !lookup_insert_Some.
    intros [[<- <-]|[_ H1']] [[<- <-]|[_ H2']] Hu1 Hu2; cbn [reserved_row sbr_workspace] in *.
    + done.
    + rewrite overlap_sym. by eapply Ho.
    + by eapply Ho.
    + exact (Hapart _ _ _ _ Hne H1' H2' Hu1 Hu2).
  - unfold active_rows in *. rewrite Ht, map_filter_insert_True by done.
    rewrite map_size_insert. destruct (filter _ _ !! task); unfold id; lia.
Qed.

Lemma transition_keeps task attempt handle expected next d d' a :
  sandbox_inv (db_tables d) -> expected <> SbCleaned ->
  SqliteStore_sandbox_transition task attempt handle expected next d = (d', Ok a) ->
  sandbox_inv (db_tables d').
Proof using Type*.
  intros [Hrows Hapart Hbound] Hexp (row & old & Hrow & Hold & Hst & Hat & Hh & -> & Hv & json & es & Hj & Hl)%sandbox_transition_Ok.
  apply logs_tables in Hl as (_ & _ & _ & _ & _ & _ & Ht). cbn in Ht.
  destruct (Hrows _ _ Hrow) as (old' & Hold' & Hk & Hw & Hs). assert (old' = old) as -> by congruence.
  assert (Hu : uncleaned row) by (unfold uncleaned; rewrite Hs, Hst; by destruct expected). constructor.
  - intros k row'. rewrite Ht, lookup_insert_Some. intros [[<- <-]|[_ Hl]]; [|by apply Hrows].
    exists (with_owner old next handle). split; [by apply decode_sandbox_Ok|]. by split_and!.
  - intros k1 k2 row1 row2 Hne. rewrite Ht, !lookup_insert_Some.
    intros [[<- <-]|[_ H1']] [[<- <-]|[_ H2']] Hu1 Hu2; cbn [sbr_workspace] in *.
    + done.
    + exact (Hapart _ _ _ _ Hne Hrow H2' Hu Hu2).
    + exact (Hapart _ _ _ _ Hne H1' Hrow Hu1 Hu).
    + exact (Hapart _ _ _ _ Hne H1' H2' Hu1 Hu2).
  - unfold active_rows in *. rewrite Ht. etrans; [|exact Hbound].
    assert (Hf : filter (fun e : string * SandboxRow => uncleaned e.2) (tb_sandbox_attempts (db_tables d)) !! task = Some row)
      by (by apply map_lookup_filter_Some).
    rewrite map_filter_insert. case_decide.
    + by rewrite map_size_insert, Hf.
    + rewrite map_filter_delete. apply map_subseteq_size, delete_subseteq.
Qed.

(** A committed transition moves the attempt forward. *)
Lemma with_owner_progress a next handle :
  S (state_rank (sba_state a)) = state_rank next -> (forall h, sba_owned_handle a = Some h -> h = handle) ->
  sandbox_progress a (with_owner a next handle).
Proof using Type.
  intros Hn Hh. unfold sandbox_progress, with_owner. cbn. split_and!; try done.
  - lia.
  - intros h Hh'. by rewrite (Hh h Hh').
  - intros ->. lia.
Qed.
End sandbox.
