(* ===== verification/SqlitePublication.v ===== *)
(** * Publication fencing in SQLite ([hub-store-sqlite/src/publication.rs])

    Fences and authoritative publications, in transactions that also read the
    workflow and the artifacts.  What fencing promises is proved of histories
    in which every other operation of the store may intervene and any
    statement may fail. *)

From Stdlib Require Import Ascii.
From stdpp Require Import base gmap strings list.
From S2P Require Import Prelude Text Core Version Digest Component Run Workflow Task TaskLifecycle Publication.
From S2P Require Import Event Machine Blobs Memory Ports Sql SqliteStore SqliteRefine SqlitePorts SqliteMemory.

Section publication.
Context `{JsonLib, ManifestJson, WorkspaceJson, Sha256Lib, UuidLib, Environment}.
Context `{SerdeJson ComponentManifest, SerdeJson RunRecord, SerdeJson TaskRecord, SerdeJson ArtifactMeta,
          SerdeJson WorkflowRecord, SerdeJson (gmap string string)}.
Context `{SerdeJson AuthoritativeStepPublication}.
Context {UT : UuidText}.

(** ** The operations *)
Definition fence_key (workflow : WorkflowId) (step_key : string) : string * string :=
  (id_to_string workflow, step_key).

Definition fence_row (t : Tables) (workflow : WorkflowId) (step_key : string) : option FenceRow :=
  tb_workflow_publication_fences t !! fence_key workflow step_key.

Definition candidate_fence (workflow : WorkflowId) (step_key : string) (attempt : AttemptId) (generation : N)
    : PublicationFence :=
  {| pf_schema_version := PUBLICATION_FENCE_SCHEMA_VERSION; pf_workflow := workflow; pf_step_key := step_key;
     pf_attempt := attempt; pf_generation := generation |}.

(** [AttemptId::from_str]. *)
Definition attempt_from_str (text : string) : Result AttemptId :=
  from_uuid <$> ok_or (uuid_from_str text) (Storage "stored publication attempt id is invalid: {error}").

Definition load_publishable_workflow (workflow : WorkflowId) : sqlite WorkflowRecord :=
  json ← query "loading workflow for authoritative publication"
    (fun t => rcr_record_json <$> tb_workflows t !! id_to_string workflow);
  match json with
  | None => throw (WorkflowNotFound workflow)
  | Some json =>
      record ← lift (decode_json "stored workflow failed to deserialize: {error}" json);
      if is_some (wr_cancel_requested_at record) || negb (bool_decide (wr_state record = WsRunning)) then
        throw (Validation "workflow {workflow} is not eligible for authoritative publication")
      else mret record
  end.

Definition validate_current_attempt (record : WorkflowRecord) (step_key : string) (attempt : AttemptId)
    : Result unit :=
  step ← ok_or (List.find (fun result => bool_decide (sr_key result = step_key)) (wr_steps record))
           (Validation "workflow {} has no recorded attempt for step {step_key:?}");
  current ← ok_or (last (sr_attempts step)) (Validation "workflow {} step {step_key:?} has no attempt history");
  ensure (bool_decide (sa_id current = attempt))
    (Validation "attempt {attempt} is not current for workflow {} step {step_key:?}").

Definition SqliteStore_advance_publication_fence (workflow : WorkflowId) (step_key : string) (attempt : AttemptId)
    : sqlite PublicationFence :=
  _ ← lift (PublicationFence_validate (candidate_fence workflow step_key attempt 1));
  transaction "beginning publication fence advance" "committing publication fence advance" (
    record ← load_publishable_workflow workflow;
    _ ← lift (validate_current_attempt record step_key attempt);
    current ← query "loading publication fence generation"
      (fun t => fer_generation <$> fence_row t workflow step_key);
    generation ← lift (match current with
                       | None => Ok 1%N
                       | Some value => ok_or (checked_add_u64 value 1) (Storage "publication fence generation overflow")
                       end);
    generation ← lift (sql_u64 "publication fence generation exceeds SQLite INTEGER" generation);
    _ ← execute_sql "advancing publication fence" (fun t => set_fences
          (<[fence_key workflow step_key := {| fer_generation := generation;
               fer_attempt_id := id_to_string attempt; fer_publication_json := None |}]>
             (tb_workflow_publication_fences t)) t);
    mret (Committing (candidate_fence workflow step_key attempt generation))).

(** [UPDATE .. SET publication_json = ?5 WHERE .. AND publication_json IS
    NULL], answering the number of rows changed. *)
Definition update_publication (workflow : WorkflowId) (step_key : string) (generation : N) (attempt_id json : string)
    (t : Tables) : Tables * Result N :=
  match fence_row t workflow step_key with
  | Some row =>
      if bool_decide (fer_generation row = generation) && bool_decide (fer_attempt_id row = attempt_id) &&
         negb (is_some (fer_publication_json row))
      then (set_fences (<[fence_key workflow step_key := {| fer_generation := fer_generation row;
              fer_attempt_id := fer_attempt_id row; fer_publication_json := Some json |}]>
              (tb_workflow_publication_fences t)) t, Ok 1%N)
      else (t, Ok 0%N)
  | None => (t, Ok 0%N)
  end.

Definition require_artifact (artifact : ArtifactId) : sqlite unit :=
  exists_ ← query "checking authoritative publication artifact"
    (fun t => is_some (tb_artifact_meta t !! id_to_string artifact));
  if (exists_ : bool) then mret tt else throw (ArtifactNotFound artifact).

Definition SqliteStore_publish_authoritative_outputs (publication : AuthoritativeStepPublication)
    : sqlite PublicationCommit :=
  let fence := asp_fence publication in
  _ ← lift (AuthoritativeStepPublication_validate publication);
  transaction "beginning authoritative publication" "committing authoritative publication" (
    record ← load_publishable_workflow (pf_workflow fence);
    _ ← lift (validate_current_attempt record (pf_step_key fence) (pf_attempt fence));
    current ← query "loading current publication fence" (fun t => fence_row t (pf_workflow fence) (pf_step_key fence));
    row ← lift (ok_or current (Validation "publication has no issued durable fence"));
    attempt ← lift (attempt_from_str (fer_attempt_id row));
    _ ← lift (ensure (negb (negb (fer_generation row =? pf_generation fence)%N ||
                            negb (bool_decide (attempt = pf_attempt fence))))
                (Validation "publication fence is stale or does not match the current attempt"));
    _ ← forA_ require_artifact (map_values (asp_outputs publication));
    json ← lift (encode_json "serializing authoritative publication: {error}" publication);
    match fer_publication_json row with
    | Some existing_json =>
        existing ← lift (decode_json "stored authoritative publication is invalid: {error}" existing_json);
        if bool_decide (existing = publication) then mret (Committing Idempotent)
        else throw (Validation "current publication fence already committed different outputs")
    | None =>
        generation ← lift (sql_u64 "publication fence generation exceeds SQLite INTEGER" (pf_generation fence));
        changed ← statement "publishing authoritative workflow outputs"
          (update_publication (pf_workflow fence) (pf_step_key fence) generation (id_to_string (pf_attempt fence)) json);
        if ((changed : N) =? 1)%N then mret (Committing Published)
        else throw (Validation "publication fence changed before authoritative commit")
    end).

(** The attempt of the probe that validates the step key is a fresh UUID,
    which validation does not look at. *)
Definition probe_fence (workflow : WorkflowId) (step_key : string) : PublicationFence :=
  candidate_fence workflow step_key (from_uuid 0) 1.

Definition SqliteStore_current_publication_fence (t : Tables) (workflow : WorkflowId) (step_key : string)
    : Result (option PublicationFence) :=
  _ ← PublicationFence_validate (probe_fence workflow step_key);
  match fence_row t workflow step_key with
  | None => Ok None
  | Some row =>
      attempt ← attempt_from_str (fer_attempt_id row);
      Ok (Some (candidate_fence workflow step_key attempt (fer_generation row)))
  end.

Definition SqliteStore_authoritative_publication (t : Tables) (workflow : WorkflowId) (step_key : string)
    : Result (option AuthoritativeStepPublication) :=
  _ ← PublicationFence_validate (probe_fence workflow step_key);
  match fence_row t workflow step_key ≫= fer_publication_json with
  | None => Ok None
  | Some json =>
      publication ← decode_json "stored authoritative publication is invalid: {error}" json;
      _ ← AuthoritativeStepPublication_validate publication;
      Ok (Some publication)
  end.

(** ** What a committed operation did *)
Context `{!SerdeJsonLaws ComponentManifest, !SerdeJsonLaws RunRecord, !SerdeJsonLaws TaskRecord,
          !SerdeJsonLaws ArtifactMeta, !SerdeJsonLaws WorkflowRecord, !SerdeJsonLaws (gmap string string),
          !SerdeJsonLaws AuthoritativeStepPublication}.
Context {UTL : UuidTextLaws} {SL : Sha256Laws}.

(** The workflow is running, no cancellation is requested, and the attempt is
    the last one of the step. *)
Definition may_publish (t : Tables) (workflow : WorkflowId) (step_key : string) (attempt : AttemptId) : Prop :=
  exists w step a, SqliteStore_get_workflow t workflow = Ok (Some w) /\
    wr_state w = WsRunning /\ wr_cancel_requested_at w = None /\
    step ∈ wr_steps w /\ sr_key step = step_key /\ last (sr_attempts step) = Some a /\ sa_id a = attempt.

Lemma load_publishable_Ok w d d' r :
  load_publishable_workflow w d = (d', Ok r) ->
  db_tables d' = db_tables d /\ SqliteStore_get_workflow (db_tables d) w = Ok (Some r) /\
  wr_state r = WsRunning /\ wr_cancel_requested_at r = None.
Proof using Type.
  unfold load_publishable_workflow. intros Hl. apply action_bind_Ok in Hl as (d1 & json & [Ht ->]%query_Ok & Hl).
  destruct (rcr_record_json <$> _) as [json|] eqn:Ej; [|done]. apply action_bind_Ok in Hl as (d2 & x & [-> Hx]%lift_Ok & Hl).
  destruct (wr_cancel_requested_at x) eqn:Ec; [done|]. cbn in Hl. case_bool_decide as Es; [|done].
  apply mret_Ok in Hl as [-> ->]. split_and!; [done| |done|done].
  apply fmap_Some in Ej as (row & Hrow & ->). apply table_get_Some. exists row. split; [done|].
  by apply map_err_Ok in Hx.
Qed.

Lemma validate_current_attempt_Ok w k a u :
  validate_current_attempt w k a = Ok u ->
  exists step b, step ∈ wr_steps w /\ sr_key step = k /\ last (sr_attempts step) = Some b /\ sa_id b = a.
Proof using Type.
  unfold validate_current_attempt. intros Hv. ok_inv. apply find_Some_elem in Hr as [Hin Hk].
  bool_inv. by eexists _, _.
Qed.

Lemma publishable_may w k a d d' r u :
  load_publishable_workflow w d = (d', Ok r) -> validate_current_attempt r k a = Ok u ->
  db_tables d' = db_tables d /\ may_publish (db_tables d) w k a.
Proof using Type.
  intros (Ht & Hg & Hs & Hc)%load_publishable_Ok (step & b & ? & ? & ? & ?)%validate_current_attempt_Ok.
  split; [done|]. by exists r, step, b.
Qed.

Definition next_generation (row : option FenceRow) : N :=
  match row with None => 1 | Some row => fer_generation row + 1 end.

Lemma advance_sql_Ok w k a d d' f :
  SqliteStore_advance_publication_fence w k a d = (d', Ok f) ->
  let t := db_tables d in let g := next_generation (fence_row t w k) in
  validate_step_key k = Ok tt /\ may_publish t w k a /\ f = candidate_fence w k a g /\ (g <= i64_max)%N /\
  db_tables d' = set_fences (<[fence_key w k := {| fer_generation := g; fer_attempt_id := id_to_string a;
                                                   fer_publication_json := None |}]>
                               (tb_workflow_publication_fences t)) t.
Proof using Type.
  unfold SqliteStore_advance_publication_fence. intros Hp. act_inv.
  assert (Hk : validate_step_key k = Ok tt).
  { unfold PublicationFence_validate in Hr. cbn in Hr. ok_inv. eauto using valid_key_unit. }
  apply transaction_Ok in Hp as (d1 & d2 & Ht & [[Hb Ht']|[Hb Ht']]); act_inv; [done|].
  destruct (publishable_may _ _ _ _ _ _ _ Hr0 Hr1) as [Es Hm]. apply query_Ok in Hr2 as [Es1 ->].
  apply execute_sql_Ok in Hr5. apply sql_u64_Ok in Hr4 as [-> Hle]. injection Hb as <-. rewrite Es, Ht in Hr3.
  assert (r2 = next_generation (fence_row (db_tables d) w k)) as ->.
  { unfold next_generation. destruct (fence_row _ w k) as [row|]; cbn in Hr3; [|by injection Hr3].
    apply ok_or_Ok, checked_add_u64_Some in Hr3 as [-> _]. done. }
  rewrite Ht in Hm. by rewrite Ht', Hr5, Es1, Es, Ht.
Qed.

Lemma require_artifacts_Ok arts d d' u :
  forA_ require_artifact arts d = (d', Ok u) ->
  db_tables d' = db_tables d /\ Forall (fun a => is_Some (tb_artifact_meta (db_tables d) !! id_to_string a)) arts.
Proof using Type.
  revert d. induction arts as [|a arts IH]; intros d Hf.
  - apply mret_Ok in Hf as [-> _]. by split.
  - apply action_bind_Ok in Hf as (d1 & v & Ha & Hrest). apply IH in Hrest as [Ht Hall].
    apply action_bind_Ok in Ha as (d2 & b & [Ht2 ->]%query_Ok & Ha).
    destruct (tb_artifact_meta (db_tables d) !! id_to_string a) eqn:E; [|done]. apply mret_Ok in Ha as [-> _].
    rewrite Ht2 in *. split; [done|]. constructor; [by rewrite E|done].
Qed.

Lemma publish_sql_Ok p d d' c :
  SqliteStore_publish_authoritative_outputs p d = (d', Ok c) ->
  let t := db_tables d in let f := asp_fence p in let k := fence_key (pf_workflow f) (pf_step_key f) in
  AuthoritativeStepPublication_validate p = Ok tt /\ may_publish t (pf_workflow f) (pf_step_key f) (pf_attempt f) /\
  Forall (fun a => is_Some (tb_artifact_meta t !! id_to_string a)) (map_values (asp_outputs p)) /\
  exists row, fence_row t (pf_workflow f) (pf_step_key f) = Some row /\ fer_generation row = pf_generation f /\
    attempt_from_str (fer_attempt_id row) = Ok (pf_attempt f) /\
  match c with
  | Published => fer_publication_json row = None /\ exists json, json_from_str json = Ok p /\
      db_tables d' = set_fences (<[k := {| fer_generation := fer_generation row; fer_attempt_id := fer_attempt_id row;
                                           fer_publication_json := Some json |}]>
                                   (tb_workflow_publication_fences t)) t
  | Idempotent => (exists json, fer_publication_json row = Some json /\ json_from_str json = Ok p) /\ db_tables d' = t
  end.
Proof using Type*.
  unfold SqliteStore_publish_authoritative_outputs. intros Hp. act_inv.
  apply transaction_Ok in Hp as (d1 & d2 & Ht & Hb).
  destruct Hb as [[Hb Ht']|[Hb Ht']]; act_inv;
    destruct (publishable_may _ _ _ _ _ _ _ Hr0 Hr1) as [Es Hm]; apply query_Ok in Hr2 as [Es1 Hrow];
    apply require_artifacts_Ok in Hr6 as [Es2 Hall]; destruct (fer_publication_json r2) as [json|] eqn:Ej; act_inv;
    rewrite ?Es2, ?Es1, ?Es, ?Ht in *; bool_inv; subst.
  - by case_bool_decide.
  - by destruct (_ =? _)%N.
  - case_bool_decide as Heq; [|done]. apply mret_Ok in Hb as [-> [= <-]].
    split; [done|]. split; [done|]. split; [done|]. exists r2. split; [done|]. split; [done|]. split; [done|].
    apply map_err_Ok in Hr2. subst r0. split; [by exists json|congruence].
  - destruct (r1 =? 1)%N eqn:Er1; [|done]. apply N.eqb_eq in Er1 as ->. apply mret_Ok in Hb as [-> [= <-]].
    apply sql_u64_Ok in Hr2 as [-> _]. apply statement_Ok in Hr3. rewrite Es2 in Hr3.
    unfold update_publication in Hr3. rewrite <- Hrow, Ej, andb_true_r in Hr3.
    case_match eqn:Hc; [|done]. injection Hr3 as Hd2. split_and!; [done..|]. exists r2. split_and!; [done..|].
    exists r6. split; [by apply map_err_Ok, json_round_trip in Hr7|]. by rewrite Ht', <- Hd2.
Qed.

Lemma advance_sql_Err w k a d d' e :
  SqliteStore_advance_publication_fence w k a d = (d', Err e) -> db_tables d' = db_tables d.
Proof using Type.
  unfold SqliteStore_advance_publication_fence. intros Hp. apply lift_bind_Err in Hp as [->|[? Hp]]; [done|].
  by apply transaction_Err in Hp.
Qed.

Lemma publish_sql_Err p d d' e :
  SqliteStore_publish_authoritative_outputs p d = (d', Err e) -> db_tables d' = db_tables d.
Proof using Type.
  unfold SqliteStore_publish_authoritative_outputs. intros Hp. apply lift_bind_Err in Hp as [->|[? Hp]]; [done|].
  by apply transaction_Err in Hp.
Qed.

(** What a publication leaves for the queries. *)
Lemma publish_reads p d d' c :
  SqliteStore_publish_authoritative_outputs p d = (d', Ok c) ->
  let f := asp_fence p in
  SqliteStore_current_publication_fence (db_tables d) (pf_workflow f) (pf_step_key f) = Ok (Some f) /\
  SqliteStore_authoritative_publication (db_tables d') (pf_workflow f) (pf_step_key f) = Ok (Some p) /\
  exists row' json, fence_row (db_tables d') (pf_workflow f) (pf_step_key f) = Some row' /\
    fer_generation row' = pf_generation f /\ fer_publication_json row' = Some json /\ json_from_str json = Ok p.
Proof using Type*.
  intros (Hv & _ & _ & row & Hrow & Hg & Ha & Hc)%publish_sql_Ok. cbn zeta.
  assert (Hf : PublicationFence_validate (asp_fence p) = Ok tt).
  { unfold AuthoritativeStepPublication_validate in Hv. ok_inv. by destruct r. }
  assert (Hprobe : PublicationFence_validate (probe_fence (pf_workflow (asp_fence p)) (pf_step_key (asp_fence p))) = Ok tt
                   /\ pf_schema_version (asp_fence p) = PUBLICATION_FENCE_SCHEMA_VERSION).
  { unfold PublicationFence_validate in *. cbn in *. ok_inv. bool_inv. split; [|done]. by rewrite Hr0. }
  destruct Hprobe as [Hprobe Hver].
  assert (Hafter : exists row' json, fence_row (db_tables d') (pf_workflow (asp_fence p)) (pf_step_key (asp_fence p)) = Some row' /\
    fer_generation row' = pf_generation (asp_fence p) /\ fer_publication_json row' = Some json /\ json_from_str json = Ok p).
  { destruct c.
    - destruct Hc as (_ & json & Hj & ->). unfold fence_row. cbn [set_fences tb_workflow_publication_fences].
      rewrite lookup_insert_eq. by eexists _, json.
    - destruct Hc as [(json & Hj & Hp) ->]. by exists row, json. }
  destruct Hafter as (row' & json & Hrow' & Hg' & Hj' & Hjson). split_and!.
  - unfold SqliteStore_current_publication_fence. rewrite Hprobe, Hrow. cbn. rewrite Ha. cbn. rewrite Hg.
    unfold candidate_fence. rewrite <- Hver. by destruct (asp_fence p).
  - unfold SqliteStore_authoritative_publication. rewrite Hprobe, Hrow'. cbn. rewrite Hj'. unfold decode_json.
    rewrite Hjson. cbn. by rewrite Hv.
  - by exists row', json.
Qed.

(** ** The store as a repository of fences

    A database whose fences name their attempts by well-formed texts, as every
    database the store writes does, meets the contract of the port. *)
Definition fences_ok (t : Tables) : Prop :=
  forall k row, tb_workflow_publication_fences t !! k = Some row ->
    exists a, attempt_from_str (fer_attempt_id row) = Ok a.

Record FencedStore := mkFencedStore {
  fs_db : SqliteStore;
  fs_ok : fences_ok (db_tables fs_db);
}.

Lemma attempt_text a : attempt_from_str (id_to_string a) = Ok a.
Proof using UTL. unfold attempt_from_str, id_to_string. rewrite uuid_text_parse. by destruct a. Qed.

Lemma fences_ok_insert t k row a :
  fences_ok t -> attempt_from_str (fer_attempt_id row) = Ok a ->
  fences_ok (set_fences (<[k := row]> (tb_workflow_publication_fences t)) t).
Proof using Type.
  intros Hok Ha k' row'. cbn. rewrite lookup_insert_Some. intros [[_ <-]|[_ Hl]]; [by exists a|by eapply Hok].
Qed.

Lemma advance_fences_ok w k a d :
  fences_ok (db_tables d) -> fences_ok (db_tables (SqliteStore_advance_publication_fence w k a d).1).
Proof using Type*.
  intros Hok. destruct (SqliteStore_advance_publication_fence w k a d) as [d' [f|e]] eqn:E; cbn.
  - apply advance_sql_Ok in E as (_ & _ & _ & _ & ->). eapply fences_ok_insert; [done|apply attempt_text].
  - by rewrite (advance_sql_Err _ _ _ _ _ _ E).
Qed.

Lemma publish_fences_ok p d :
  fences_ok (db_tables d) -> fences_ok (db_tables (SqliteStore_publish_authoritative_outputs p d).1).
Proof using Type*.
  intros Hok. destruct (SqliteStore_publish_authoritative_outputs p d) as [d' [[]|e]] eqn:E; cbn.
  - apply publish_sql_Ok in E as (_ & _ & _ & row & _ & _ & Ha & _ & json & _ & ->). by eapply fences_ok_insert.
  - by apply publish_sql_Ok in E as (_ & _ & _ & row & _ & _ & _ & _ & ->).
  - by rewrite (publish_sql_Err _ _ _ _ E).
Qed.

Definition fenced {A} (op : sqlite A) (Hop : forall d, fences_ok (db_tables d) -> fences_ok (db_tables (op d).1))
    (s : FencedStore) : FencedStore * Result A :=
  (mkFencedStore (op (fs_db s)).1 (Hop _ (fs_ok s)), (op (fs_db s)).2).

#[global] Instance FencedStore_fences : PublicationFenceRepository FencedStore := {|
  advance_publication_fence s w k a :=
    fenced (SqliteStore_advance_publication_fence w k a) (advance_fences_ok w k a) s;
  publish_authoritative_outputs s p :=
    fenced (SqliteStore_publish_authoritative_outputs p) (publish_fences_ok p) s;
  current_publication_fence s := SqliteStore_current_publication_fence (db_tables (fs_db s));
  authoritative_publication s := SqliteStore_authoritative_publication (db_tables (fs_db s)) |}.

Lemma fenced_inv {A} (op : sqlite A) Hop s s' r :
  fenced op Hop s = (s', r) -> op (fs_db s) = (fs_db s', r).
Proof using Type. unfold fenced. intros [= <- <-]. cbn. by destruct (op (fs_db s)). Qed.

Lemma same_fence_row t t' w k :
  fence_row t' w k = fence_row t w k ->
  SqliteStore_current_publication_fence t' w k = SqliteStore_current_publication_fence t w k /\
  SqliteStore_authoritative_publication t' w k = SqliteStore_authoritative_publication t w k.
Proof using Type.
  intros Hr. unfold SqliteStore_current_publication_fence, SqliteStore_authoritative_publication. by rewrite Hr.
Qed.

Lemma insert_other_row t row w k w' k' :
  (w', k') <> (w, k) ->
  fence_row (set_fences (<[fence_key w k := row]> (tb_workflow_publication_fences t)) t) w' k' = fence_row t w' k'.
Proof using UTL.
  intros Hne. unfold fence_row. cbn [set_fences tb_workflow_publication_fences]. apply lookup_insert_ne.
  intros [= Hw%id_text_inj ->]. by subst.
Qed.

Lemma insert_this_row t row w k :
  fence_row (set_fences (<[fence_key w k := row]> (tb_workflow_publication_fences t)) t) w k = Some row.
Proof using Type. unfold fence_row. cbn [set_fences tb_workflow_publication_fences]. apply lookup_insert_eq. Qed.

Lemma probe_valid w k : validate_step_key k = Ok tt -> PublicationFence_validate (probe_fence w k) = Ok tt.
Proof using Type. intros Hk. unfold PublicationFence_validate. cbn. by rewrite Hk. Qed.

Lemma fenced_generation (s : FencedStore) w k :
  validate_step_key k = Ok tt ->
  (generation_of s w k + 1)%N = next_generation (fence_row (db_tables (fs_db s)) w k).
Proof using Type.
  intros Hk. unfold generation_of. cbn [current_publication_fence FencedStore_fences].
  unfold SqliteStore_current_publication_fence. rewrite probe_valid by done. cbn [mbind result_bind].
  destruct (fence_row (db_tables (fs_db s)) w k) as [row|] eqn:E; cbn; [|done].
  destruct (fs_ok s _ _ E) as [a ->]. done.
Qed.

#[global] Instance FencedStore_laws : PublicationFenceLaws FencedStore.
Proof using Type*.
  split; unfold same_steps, same_step;
    cbn [advance_publication_fence publish_authoritative_outputs current_publication_fence
         authoritative_publication FencedStore_fences].
  - intros s s' w k a f (Hk & _ & -> & Hg & Ht)%fenced_inv%advance_sql_Ok.
    rewrite <- fenced_generation in * by done. split_and!; try done.
    + cbn. unfold i64_max, u64_max in *. lia.
    + unfold SqliteStore_current_publication_fence. rewrite probe_valid by done. rewrite Ht, insert_this_row. cbn.
      by rewrite attempt_text.
    + unfold SqliteStore_authoritative_publication. rewrite probe_valid by done. by rewrite Ht, insert_this_row.
    + intros w' k' Hne. apply same_fence_row. by rewrite Ht, insert_other_row.
  - intros s s' w k a e Ht%fenced_inv%advance_sql_Err w' k'. by rewrite Ht.
  - intros s s' p c Hp%fenced_inv. destruct (publish_reads _ _ _ _ Hp) as (Hcur & Hauth & row' & json & Hr' & Hg' & Hj' & Hjson).
    apply publish_sql_Ok in Hp as (Hv & _ & _ & row & Hrow & Hg & Ha & Hc). cbn zeta.
    assert (Hprobe : PublicationFence_validate (probe_fence (pf_workflow (asp_fence p)) (pf_step_key (asp_fence p))) = Ok tt).
    { unfold SqliteStore_current_publication_fence in Hcur. by destruct (PublicationFence_validate _) as [[]|]. }
    split_and!; [done| |done| |].
    + destruct c.
      * destruct Hc as (_ & json' & _ & Ht). revert Hcur. unfold SqliteStore_current_publication_fence.
        rewrite Hprobe, Ht, insert_this_row, Hrow. done.
      * destruct Hc as [_ ->]. done.
    + intros w' k' Hne. apply same_fence_row. destruct c.
      * destruct Hc as (_ & json' & _ & ->). by rewrite insert_other_row.
      * by destruct Hc as [_ ->].
    + unfold SqliteStore_authoritative_publication. rewrite Hprobe, Hrow. cbn. destruct c.
      * by destruct Hc as [-> _].
      * destruct Hc as [(json' & -> & Hj2) _]. cbn. unfold decode_json. rewrite Hj2. cbn. by rewrite Hv.
  - intros s s' p e Ht%fenced_inv%publish_sql_Err w k. by rewrite Ht.
Qed.
End publication.
