(* ===== verification/SqliteHistory.v ===== *)
(** * Histories of the SQLite store

    Every operation of the store in any order, any statement of which may
    fail.  Fencing, the authority of a publication and the journal of sandbox
    attempts hold along all of them. *)

From Stdlib Require Import Ascii.
From stdpp Require Import base gmap strings list.
From S2P Require Import Prelude Text Core Version Digest Component Run Workflow Task TaskLifecycle Publication.
From S2P Require Import Event Machine Blobs Memory Ports Sql SqliteStore SqliteRefine SqlitePorts SqliteMemory.
From S2P Require Import SqliteAnswers SandboxAttempt SqlitePublication.

Section history.
Context `{JsonLib, ManifestJson, WorkspaceJson, Sha256Lib, UuidLib, Environment}.
Context `{SerdeJson ComponentManifest, SerdeJson RunRecord, SerdeJson TaskRecord, SerdeJson ArtifactMeta,
          SerdeJson WorkflowRecord, SerdeJson (gmap string string)}.
Context `{SerdeJson AuthoritativeStepPublication, SerdeJson SandboxAttempt}.
Context {UT : UuidText}.

Inductive store_op :=
| Repository (op : hub_op)
| AdvanceFence (workflow : WorkflowId) (step_key : string) (attempt : AttemptId)
| PublishOutputs (publication : AuthoritativeStepPublication)
| ReserveSandbox (task_id backend request_sha256 workspace : string)
| OwnSandbox (task_id : string) (attempt_id : AttemptId) (handle : string)
| ConfirmAbsent (task_id : string) (attempt_id : AttemptId) (handle : string).

Definition store_do (d : SqliteStore) (op : store_op) : SqliteStore :=
  match op with
  | Repository op => (sqlite_do op d).1
  | AdvanceFence w k a => (SqliteStore_advance_publication_fence w k a d).1
  | PublishOutputs p => (SqliteStore_publish_authoritative_outputs p d).1
  | ReserveSandbox task backend request ws => (SqliteStore_reserve_sandbox_attempt task backend request ws d).1
  | OwnSandbox task attempt handle => (SqliteStore_sandbox_own task attempt handle d).1
  | ConfirmAbsent task attempt handle => (SqliteStore_sandbox_confirm_absent task attempt handle d).1
  end.

Definition store_run (ops : list store_op) (d : SqliteStore) : SqliteStore := foldl store_do d ops.

Context `{!SerdeJsonLaws ComponentManifest, !SerdeJsonLaws RunRecord, !SerdeJsonLaws TaskRecord,
          !SerdeJsonLaws ArtifactMeta, !SerdeJsonLaws WorkflowRecord, !SerdeJsonLaws (gmap string string),
          !SerdeJsonLaws AuthoritativeStepPublication, !SerdeJsonLaws SandboxAttempt}.
Context {UTL : UuidTextLaws} {SL : Sha256Laws}.

(** A relation that every operation takes forward, every history does. *)
Lemma store_run_along (R : relation Tables) `{!PreOrder R} ops d :
  (forall d op, R (db_tables d) (db_tables (store_do d op))) -> R (db_tables d) (db_tables (store_run ops d)).
Proof using Type.
  intros Hdo. revert d. induction ops as [|op ops IH]; intros d; [reflexivity|]. etrans; [apply Hdo|apply IH].
Qed.

(** ** What each kind of operation leaves alone *)
Definition keeps_authority (t t' : Tables) : Prop :=
  tb_workflow_publication_fences t' = tb_workflow_publication_fences t /\
  tb_sandbox_attempts t' = tb_sandbox_attempts t.

Lemma logs_keep t t1 es t' : logs t1 es t' -> keeps_authority t t1 -> keeps_authority t t'.
Proof using Type. intros (_ & _ & _ & _ & _ & Hf & Hs)%logs_tables [Hf1 Hs1]. by split; rewrite ?Hf, ?Hs. Qed.

Lemma repository_keeps op d d' r : sqlite_do op d = (d', r) -> keeps_authority (db_tables d) (db_tables d').
Proof using Type*.
  destruct r as [a|e]; [|by intros Ht%sqlite_do_Err; split; rewrite Ht].
  intros Hdo. destruct op as [m t|r|t|art|w t|id t]; apply action_bind_Ok in Hdo as (d1 & x & Hdo & [-> _]%mret_Ok).
  - apply put_component_Ok in Hdo as (dg & _ & Hdo). destruct (tb_components _ !! _).
    + destruct Hdo as (_ & _ & Ht). split; by rewrite Ht.
    + destruct Hdo as (_ & row & _ & Hl). by eapply logs_keep.
  - apply put_run_Ok in Hdo as (p & row & _ & _ & _ & Hl). by eapply logs_keep.
  - apply put_task_Ok in Hdo as (_ & p & row & _ & _ & _ & _ & Hl). by eapply logs_keep.
  - apply put_artifact_Ok in Hdo. cbn zeta in Hdo. destruct (tb_artifact_meta _ !! _).
    + destruct Hdo as [_ Ht]. split; by rewrite Ht.
    + destruct Hdo as (row & _ & _ & Hl). by eapply logs_keep.
  - apply put_workflow_sql_Ok in Hdo as (p & row & _ & _ & _ & Hl). by eapply logs_keep.
  - apply request_cancel_Ok in Hdo. cbn zeta in Hdo. destruct (tb_workflows _ !! _) as [row|].
    + destruct Hdo as (old & _ & Hdo). destruct (_ && _).
      * destruct Hdo as (_ & row' & _ & _ & Hl). by eapply logs_keep.
      * destruct Hdo as [_ Ht]. split; by rewrite Ht.
    + destruct Hdo as [_ Ht]. split; by rewrite Ht.
Qed.

(** ** Fences *)

(** The generation grew, or the fence is the same with its publication. *)
Definition row_le (row row' : option FenceRow) : Prop :=
  forall r, row = Some r -> exists r', row' = Some r' /\
    ((fer_generation r < fer_generation r')%N \/
     fer_generation r' = fer_generation r /\ fer_attempt_id r' = fer_attempt_id r /\
     forall json, fer_publication_json r = Some json -> fer_publication_json r' = Some json).

Definition fences_le (t t' : Tables) : Prop :=
  forall k, row_le (tb_workflow_publication_fences t !! k) (tb_workflow_publication_fences t' !! k).

Lemma row_le_refl row : row_le row row.
Proof using Type. intros r ->. exists r. split; [done|]. by right. Qed.

#[local] Instance fences_le_preorder : PreOrder fences_le.
Proof using Type.
  split; [intros t k; apply row_le_refl|]. intros t1 t2 t3 Ha Hb k r1 Hr1.
  destruct (Ha k r1 Hr1) as (r2 & Hr2 & C2). destruct (Hb k r2 Hr2) as (r3 & Hr3 & C3).
  exists r3. split; [done|]. destruct C2 as [?|(Hg2 & Ha2 & Hp2)], C3 as [?|(Hg3 & Ha3 & Hp3)]; [left; lia..|].
  right. split_and!; [congruence|congruence|auto].
Qed.

Lemma keeps_fences_le t t' : keeps_authority t t' -> fences_le t t'.
Proof using Type. intros [Hf _] k. rewrite Hf. apply row_le_refl. Qed.

Lemma fence_insert_le t key row :
  row_le (tb_workflow_publication_fences t !! key) (Some row) ->
  fences_le t (set_fences (<[key := row]> (tb_workflow_publication_fences t)) t).
Proof using Type.
  intros Hle k. cbn. destruct (decide (key = k)) as [<-|Hne].
  - by rewrite lookup_insert_eq.
  - rewrite lookup_insert_ne by done. apply row_le_refl.
Qed.

Lemma sandbox_transition_keeps task attempt handle expected next d d' r :
  SqliteStore_sandbox_transition task attempt handle expected next d = (d', r) ->
  tb_workflow_publication_fences (db_tables d') = tb_workflow_publication_fences (db_tables d).
Proof using Type*.
  destruct r as [a|e]; [|by intros ->%transition_Err].
  intros (row & old & _ & _ & _ & _ & _ & _ & _ & json & es & _ & Hl)%sandbox_transition_Ok.
  by apply logs_tables in Hl as (_ & _ & _ & _ & _ & -> & _).
Qed.

Lemma store_do_fences d op : fences_le (db_tables d) (db_tables (store_do d op)).
Proof using Type*.
  assert (Hsame : forall t t', tb_workflow_publication_fences t' = tb_workflow_publication_fences t -> fences_le t t')
    by (intros t t' Ht k; rewrite Ht; apply row_le_refl).
  destruct op as [op|w k a|p|task backend request ws|task attempt handle|task attempt handle]; cbn [store_do].
  - destruct (sqlite_do op d) as [d' r] eqn:E. apply keeps_fences_le. by eapply repository_keeps.
  - destruct (SqliteStore_advance_publication_fence w k a d) as [d' [f|e]] eqn:E; cbn [fst].
    + apply advance_sql_Ok in E as (_ & _ & _ & _ & ->). apply fence_insert_le. intros r Hr. eexists. split; [done|].
      left. cbn [fer_generation]. unfold next_generation, fence_row. rewrite Hr. lia.
    + apply advance_sql_Err in E. rewrite E. reflexivity.
  - destruct (SqliteStore_publish_authoritative_outputs p d) as [d' [[]|e]] eqn:E; cbn [fst].
    + apply publish_sql_Ok in E as (_ & _ & _ & row & Hrow & _ & _ & Hj & json & _ & ->). apply fence_insert_le.
      unfold fence_row in Hrow. rewrite Hrow. intros r [= <-]. eexists. split; [done|]. right. cbn.
      split_and!; [done..|]. by rewrite Hj.
    + apply publish_sql_Ok in E as (_ & _ & _ & row & _ & _ & _ & _ & ->). reflexivity.
    + apply publish_sql_Err in E. rewrite E. reflexivity.
  - destruct (SqliteStore_reserve_sandbox_attempt task backend request ws d) as [d' [a|e]] eqn:E; cbn [fst].
    + apply reserve_Ok in E as (_ & _ & _ & _ & _ & _ & _ & json & es & _ & Hl). apply Hsame.
      by apply logs_tables in Hl as (_ & _ & _ & _ & _ & -> & _).
    + apply reserve_Err in E. rewrite E. reflexivity.
  - destruct (SqliteStore_sandbox_own task attempt handle d) as [d' r] eqn:E. apply Hsame.
    by eapply sandbox_transition_keeps.
  - destruct (SqliteStore_sandbox_confirm_absent task attempt handle d) as [d' r] eqn:E. apply Hsame.
    by eapply sandbox_transition_keeps.
Qed.

Lemma store_run_fences ops d : fences_le (db_tables d) (db_tables (store_run ops d)).
Proof using Type*. apply store_run_along; [apply _|]. intros. apply store_do_fences. Qed.

(** (C9) Once a newer attempt of a step holds the fence in the database, the
    superseded attempt is rejected for ever and without effect, whatever
    operations of the store come in between and whichever of them fail; and
    the newer generation is greater. *)
Theorem sqlite_stale_fence_rejected d0 d1 d3 w k a f ops a' f' ops' p :
  SqliteStore_advance_publication_fence w k a d0 = (d1, Ok f) ->
  SqliteStore_advance_publication_fence w k a' (store_run ops d1) = (d3, Ok f') ->
  asp_fence p = f ->
  (pf_generation f < pf_generation f')%N /\
  exists d4 e, SqliteStore_publish_authoritative_outputs p (store_run ops' d3) = (d4, Err e) /\
    db_tables d4 = db_tables (store_run ops' d3).
Proof using Type*.
  intros (_ & _ & -> & _ & Hd1)%advance_sql_Ok (_ & _ & -> & _ & Hd3)%advance_sql_Ok Hp. cbn [pf_generation candidate_fence].
  pose proof (store_run_fences ops d1 (fence_key w k)) as Hx. rewrite Hd1 in Hx. cbn [set_fences tb_workflow_publication_fences] in Hx.
  rewrite lookup_insert_eq in Hx. destruct (Hx _ eq_refl) as (r1 & Hr1 & C1). cbn [fer_generation] in C1.
  set (g := next_generation (fence_row (db_tables d0) w k)) in *.
  assert (Hlt : (g < next_generation (fence_row (db_tables (store_run ops d1)) w k))%N).
  { unfold next_generation at 1, fence_row. rewrite Hr1. destruct C1 as [?|(? & _)]; lia. }
  split; [done|].
  pose proof (store_run_fences ops' d3 (fence_key w k)) as Hy. rewrite Hd3 in Hy. cbn [set_fences tb_workflow_publication_fences] in Hy.
  rewrite lookup_insert_eq in Hy. destruct (Hy _ eq_refl) as (r3 & Hr3 & C3). cbn [fer_generation] in C3.
  destruct (SqliteStore_publish_authoritative_outputs p (store_run ops' d3)) as [d4 [c|e]] eqn:E.
  - apply publish_sql_Ok in E as (_ & _ & _ & row & Hrow & Hg & _). rewrite Hp in Hrow, Hg. cbn [candidate_fence pf_workflow pf_step_key pf_generation] in Hrow, Hg.
    unfold fence_row in Hrow. assert (row = r3) as -> by congruence. destruct C3 as [?|(? & _)]; lia.
  - exists d4, e. split; [done|]. by apply publish_sql_Err in E.
Qed.

(** (C8) What becomes authoritative was allowed to: a publication the database
    accepts belongs to a running workflow with no cancellation requested, to
    the last attempt of the step, holds the current fence, and names artifacts
    that are all recorded; it is then what the step's query answers, and
    whatever operations follow, an accepted publication under that fence is
    this one again and changes nothing. *)
Theorem sqlite_publication_authority d d' p c :
  sql_ok (db_tables d) -> SqliteStore_publish_authoritative_outputs p d = (d', Ok c) ->
  let t := db_tables d in let f := asp_fence p in
  may_publish t (pf_workflow f) (pf_step_key f) (pf_attempt f) /\
  SqliteStore_current_publication_fence t (pf_workflow f) (pf_step_key f) = Ok (Some f) /\
  (forall name artifact, asp_outputs p !! name = Some artifact ->
     exists meta, SqliteStore_get_artifact t artifact = Ok (Some meta)) /\
  SqliteStore_authoritative_publication (db_tables d') (pf_workflow f) (pf_step_key f) = Ok (Some p) /\
  forall ops p2 c2 d2,
    SqliteStore_publish_authoritative_outputs p2 (store_run ops d') = (d2, Ok c2) -> asp_fence p2 = f ->
    p2 = p /\ c2 = Idempotent /\ db_tables d2 = db_tables (store_run ops d').
Proof using Type*.
  intros Hok Hpub. pose proof (publish_reads _ _ _ _ Hpub) as (Hcur & Hauth & row' & json & Hrow' & Hg' & Hj' & Hjson).
  apply publish_sql_Ok in Hpub as (_ & Hmay & Harts & _). cbn zeta. split_and!; [done|done| |done|].
  - intros name art Hart. rewrite Forall_forall in Harts. destruct (Harts art) as [arow Har].
    { apply elem_of_map_values. by exists name. }
    destruct (so_artifact_table _ Hok _ _ Har) as (meta & Hm & _). exists meta. apply table_get_Some. by exists arow.
  - intros ops p2 c2 d2 (_ & _ & _ & row2 & Hrow2 & Hg2 & _ & Hc2)%publish_sql_Ok Hf. rewrite Hf in *.
    destruct (store_run_fences ops d' (fence_key (pf_workflow (asp_fence p)) (pf_step_key (asp_fence p))) _ Hrow')
      as (r & Hr & Hle). assert (r = row2) as -> by (unfold fence_row in Hrow2; congruence).
    destruct Hle as [?|(_ & _ & Hkeep)]; [lia|]. apply Hkeep in Hj'. destruct c2.
    + destruct Hc2 as [Hn _]. congruence.
    + destruct Hc2 as [(json2 & Hj2 & Hp2) Ht]. assert (json2 = json) as -> by congruence.
      split_and!; [congruence|done|done].
Qed.

(** ** The sandbox journal *)
Definition journaled (t : Tables) (task : string) (a : SandboxAttempt) : Prop :=
  exists row, tb_sandbox_attempts t !! task = Some row /\ decode_sandbox (sbr_record_json row) = Ok a.

Definition sandbox_le (t t' : Tables) : Prop :=
  forall task a, journaled t task a -> exists a', journaled t' task a' /\ sandbox_progress a a'.

#[local] Instance sandbox_le_preorder : PreOrder sandbox_le.
Proof using Type.
  split; [intros t task a Ha; exists a; split; [done|apply sandbox_progress_refl]|].
  intros t1 t2 t3 Ha Hb task a1 (a2 & H2' & P2)%Ha. destruct (Hb _ _ H2') as (a3 & H3' & P3).
  exists a3. split; [done|]. by eapply sandbox_progress_trans.
Qed.

Lemma same_sandbox_le t t' : tb_sandbox_attempts t' = tb_sandbox_attempts t -> sandbox_le t t'.
Proof using Type.
  intros Ht task a (row & Hrow & Ha). exists a. split; [|apply sandbox_progress_refl]. exists row. by rewrite Ht.
Qed.

Lemma journaled_insert t t' task row a b :
  tb_sandbox_attempts t' = <[task := row]> (tb_sandbox_attempts t) -> decode_sandbox (sbr_record_json row) = Ok b ->
  (journaled t task a -> sandbox_progress a b) ->
  forall task' a', (task' = task -> a' = a \/ ~ journaled t task a') -> journaled t task' a' ->
    exists a'', journaled t' task' a'' /\ sandbox_progress a' a''.
Proof using Type.
  intros Ht Hb Hp task' a' Hor Ha'. destruct (decide (task' = task)) as [->|Hne].
  - exists b. split; [exists row; by rewrite Ht, lookup_insert_eq|]. destruct (Hor eq_refl) as [->|Hn]; [by apply Hp|done].
  - exists a'. split; [|apply sandbox_progress_refl]. destruct Ha' as (row' & Hr & Hd). exists row'.
    by rewrite Ht, lookup_insert_ne.
Qed.

Lemma transition_sandbox_le task attempt handle expected next d d' r :
  S (state_rank expected) = state_rank next ->
  SqliteStore_sandbox_transition task attempt handle expected next d = (d', r) -> sandbox_le (db_tables d) (db_tables d').
Proof using Type*.
  intros Hrank Hdo. destruct r as [a|e]; [|apply transition_Err in Hdo; rewrite Hdo; reflexivity].
  apply sandbox_transition_Ok in Hdo as (row & old & Hrow & Hold & Hst & _ & Hh & -> & Hv & json & es & Hj & Hl).
  apply logs_tables in Hl as (_ & _ & _ & _ & _ & _ & Ht). cbn [set_sandbox_attempts tb_sandbox_attempts] in Ht.
  intros task' a' Ha'. eapply (journaled_insert _ _ task _ old (with_owner old next handle) Ht); [| |intros ->|exact Ha'].
  - by apply decode_sandbox_Ok.
  - intros _. apply with_owner_progress; [by rewrite Hst|done].
  - left. destruct Ha' as (row' & Hr' & Hd'). congruence.
Qed.

Lemma store_do_sandbox d op :
  sandbox_le (db_tables d) (db_tables (store_do d op)) /\
  (sandbox_inv (db_tables d) -> sandbox_inv (db_tables (store_do d op))).
Proof using Type*.
  assert (Hsame : forall t t', tb_sandbox_attempts t' = tb_sandbox_attempts t ->
    sandbox_le t t' /\ (sandbox_inv t -> sandbox_inv t'))
    by (intros t t' Ht; split; [by apply same_sandbox_le|by apply sandbox_inv_same]).
  destruct op as [op|w k a|p|task backend request ws|task attempt handle|task attempt handle]; cbn [store_do].
  - destruct (sqlite_do op d) as [d' r] eqn:E; cbn [fst]. apply Hsame. by apply repository_keeps in E as [_ ->].
  - destruct (SqliteStore_advance_publication_fence w k a d) as [d' [f|e]] eqn:E; cbn [fst]; apply Hsame.
    + by apply advance_sql_Ok in E as (_ & _ & _ & _ & ->).
    + apply advance_sql_Err in E. cbn [fst]. by rewrite E.
  - destruct (SqliteStore_publish_authoritative_outputs p d) as [d' [c|e]] eqn:E; cbn [fst]; apply Hsame.
    + apply publish_sql_Ok in E as (_ & _ & _ & row & _ & _ & _ & Hc). destruct c.
      * by destruct Hc as (_ & json & _ & ->).
      * by destruct Hc as [_ ->].
    + apply publish_sql_Err in E. cbn [fst]. by rewrite E.
  - destruct (SqliteStore_reserve_sandbox_attempt task backend request ws d) as [d' [a|e]] eqn:E; cbn [fst].
    2:{ apply Hsame. apply reserve_Err in E. by rewrite E. }
    split; [|intros Hinv; by eapply reserve_keeps].
    apply reserve_Ok in E as (Hv & _ & _ & _ & _ & Hn & _ & json & es & Hj & Hl).
    apply logs_tables in Hl as (_ & _ & _ & _ & _ & _ & Ht). cbn [set_sandbox_attempts tb_sandbox_attempts] in Ht.
    assert (Hnot : forall a', ~ journaled (db_tables d) task a') by (intros a' (row & Hr & _); congruence).
    intros task' a' Ha'. eapply (journaled_insert _ _ task _ a a Ht); [| |intros ->; by right|exact Ha'].
    + by apply decode_sandbox_Ok.
    + by intros ?%Hnot.
  - destruct (SqliteStore_sandbox_own task attempt handle d) as [d' r] eqn:E. cbn [fst]. split.
    + eapply transition_sandbox_le; [|exact E]. done.
    + intros Hinv. destruct r as [a|e]; [by eapply transition_keeps; [exact Hinv| |exact E]|apply transition_Err in E; by rewrite E].
  - destruct (SqliteStore_sandbox_confirm_absent task attempt handle d) as [d' r] eqn:E. cbn [fst]. split.
    + eapply transition_sandbox_le; [|exact E]. done.
    + intros Hinv. destruct r as [a|e]; [by eapply transition_keeps; [exact Hinv| |exact E]|apply transition_Err in E; by rewrite E].
Qed.

Lemma journaled_attempt t task a : SqliteStore_sandbox_attempt t task = Ok (Some a) <-> journaled t task a.
Proof using Type.
  unfold SqliteStore_sandbox_attempt, journaled. destruct (tb_sandbox_attempts t !! task) as [row|]; cbn.
  - split.
    + destruct (decode_sandbox _) as [b|e] eqn:E; [|done]. intros [= ->]. by exists row.
    + intros (row' & [= <-] & ->). done.
  - split; [done|]. by intros (row & ? & _).
Qed.

Lemma store_run_sandbox ops d :
  sandbox_le (db_tables d) (db_tables (store_run ops d)) /\
  (sandbox_inv (db_tables d) -> sandbox_inv (db_tables (store_run ops d))).
Proof using Type*.
  split; [apply store_run_along; [apply _|]; intros; apply store_do_sandbox|].
  revert d. induction ops as [|op ops IH]; intros d Hinv; [done|]. by apply IH, store_do_sandbox.
Qed.

(** (C21) The sandbox journal after any history of the store from an empty
    database, failures included: every row is a valid attempt under its own
    task, at most 256 attempts are not cleaned, and the workspaces of two of
    them never are nor contain one another; and whatever follows, an attempt
    only moves forward from reserved to owned to cleaned, keeps its identity,
    request, workspace and handle, and its task is never reserved again. *)
Theorem sandbox_journal ops d :
  db_tables d = Tables_empty ->
  let t := db_tables (store_run ops d) in
  sandbox_inv t /\
  forall task a, SqliteStore_sandbox_attempt t task = Ok (Some a) ->
  forall more, let d' := store_run more (store_run ops d) in
    (exists a', SqliteStore_sandbox_attempt (db_tables d') task = Ok (Some a') /\ sandbox_progress a a') /\
    forall backend request ws, exists d2 e,
      SqliteStore_reserve_sandbox_attempt task backend request ws d' = (d2, Err e) /\ db_tables d2 = db_tables d'.
Proof using Type*.
  intros Hd t. split; [apply store_run_sandbox; rewrite Hd; apply sandbox_inv_empty|].
  intros task a Ha%journaled_attempt more d'. destruct (proj1 (store_run_sandbox more (store_run ops d)) _ _ Ha) as (a' & Ha' & Hp).
  split; [exists a'; split; [by apply journaled_attempt|done]|]. intros backend request ws.
  destruct (SqliteStore_reserve_sandbox_attempt task backend request ws d') as [d2 [b|e]] eqn:E.
  - exfalso. apply reserve_Ok in E as (_ & _ & _ & _ & _ & Hn & _). destruct Ha' as (row & Hr & _).
    unfold d' in Hn. congruence.
  - exists d2, e. split; [done|]. by apply reserve_Err in E.
Qed.

(** ** Every database of a history is well formed *)
Lemma sql_ok_kept t1 es t' t :
  logs t1 es t' -> tb_components t1 = tb_components t -> tb_runs t1 = tb_runs t -> tb_tasks t1 = tb_tasks t ->
  tb_artifact_meta t1 = tb_artifact_meta t -> tb_workflows t1 = tb_workflows t -> sql_ok t -> sql_ok t'.
Proof using Type.
  intros (Ec & Er & Et & Ea & Ew & _)%logs_tables E1 E2 E3 E4 E5 [].
  constructor; [rewrite Ec, E1|rewrite Er, E2|rewrite Et, E3|rewrite Ea, E4|rewrite Ew, E5]; done.
Qed.

Lemma store_do_sql_ok d op : sql_ok (db_tables d) -> sql_ok (db_tables (store_do d op)).
Proof using Type*.
  intros Hok. assert (Hfences : forall f, sql_ok (set_fences f (db_tables d))) by (intros f; by destruct Hok).
  assert (Hsb : forall task attempt handle expected next,
    sql_ok (db_tables (SqliteStore_sandbox_transition task attempt handle expected next d).1)).
  { intros task attempt handle expected next.
    destruct (SqliteStore_sandbox_transition _ _ _ _ _ d) as [d' [a|e]] eqn:E; cbn [fst].
    - apply sandbox_transition_Ok in E as (row & old & _ & _ & _ & _ & _ & _ & _ & json & es & _ & Hl). by apply (sql_ok_kept _ _ _ (db_tables d) Hl).
    - apply transition_Err in E. by rewrite E. }
  destruct op as [op|w k a|p|task backend request ws|task attempt handle|task attempt handle]; cbn [store_do].
  - assert (Hbind : forall A (m : sqlite A) (f : A -> store_answer),
      sql_ok (db_tables (m d).1) -> sql_ok (db_tables ((b ← m; mret (f b)) d).1))
      by (intros A m f; unfold mbind, action_bind; by destruct (m d) as [? [?|?]]).
    destruct op; apply Hbind.
    + by apply sql_ok_put_component.
    + by apply sql_ok_put_run.
    + by apply sql_ok_put_task.
    + by apply sql_ok_put_artifact.
    + by apply sql_ok_put_workflow.
    + by apply sql_ok_request_cancel.
  - destruct (SqliteStore_advance_publication_fence w k a d) as [d' [f|e]] eqn:E; cbn [fst].
    + by apply advance_sql_Ok in E as (_ & _ & _ & _ & ->).
    + apply advance_sql_Err in E. by rewrite E.
  - destruct (SqliteStore_publish_authoritative_outputs p d) as [d' [c|e]] eqn:E; cbn [fst].
    + apply publish_sql_Ok in E as (_ & _ & _ & row & _ & _ & _ & Hc). destruct c.
      * by destruct Hc as (_ & json & _ & ->).
      * by destruct Hc as [_ ->].
    + apply publish_sql_Err in E. by rewrite E.
  - destruct (SqliteStore_reserve_sandbox_attempt task backend request ws d) as [d' [a|e]] eqn:E; cbn [fst].
    + apply reserve_Ok in E as (_ & _ & _ & _ & _ & _ & _ & json & es & _ & Hl). by apply (sql_ok_kept _ _ _ (db_tables d) Hl).
    + apply reserve_Err in E. by rewrite E.
  - apply Hsb.
  - apply Hsb.
Qed.

Lemma store_run_sql_ok ops d : sql_ok (db_tables d) -> sql_ok (db_tables (store_run ops d)).
Proof using Type*. revert d. induction ops as [|op ops IH]; intros d Hok; [done|]. by apply IH, store_do_sql_ok. Qed.
End history.

(** ** Witnesses

    A running workflow whose step is retried, and two sandbox attempts. *)
Section witnesses.
#[local] Existing Instance toy_json.
#[local] Existing Instance toy_manifest_json.
#[local] Existing Instance toy_workspace_json.
#[local] Existing Instance toy_sha.
#[local] Existing Instance toy_sha_laws.
#[local] Existing Instance plain_uuid.
#[local] Existing Instance plain_uuid_text.
#[local] Existing Instance plain_uuid_text_laws.
#[local] Existing Instance calm_environment.

Definition step_attempt (id number : N) : StepAttempt := {|
  sa_id := from_uuid id; sa_number := number; sa_run := from_uuid id; sa_state := RsQueued;
  sa_started_at := None; sa_finished_at := None; sa_failure_category := None; sa_failure := None |}.

Definition fitting_workflow (attempts : list StepAttempt) : WorkflowRecord := {|
  wr_id := from_uuid 1; wr_spec := sample_workflow; wr_admission := None;
  wr_state := WsRunning; wr_model_version := mkVersion "1.2.0"; wr_created_at := 10;
  wr_started_at := Some 11%N; wr_finished_at := None; wr_cancel_requested_at := None;
  wr_steps := [ {| sr_key := "fit"; sr_run := from_uuid 10; sr_state := RsQueued; sr_failure := None;
                   sr_attempts := attempts |} ];
  wr_failure := None |}.

Definition first_try : WorkflowRecord := fitting_workflow [step_attempt 10 1].
Definition second_try : WorkflowRecord := fitting_workflow [step_attempt 10 1; step_attempt 11 2].

Definition fit_publication (attempt generation : N) : AuthoritativeStepPublication := {|
  asp_fence := candidate_fence (from_uuid 1) "fit" (from_uuid attempt) generation;
  asp_outputs := {[ "stdout" := from_uuid 1 ]} |}.

Definition sandbox_of (task : string) (uuid : N) (ws : string) (s : SandboxAttemptState) (h : option string)
    : SandboxAttempt :=
  {| sba_task_id := task; sba_attempt_id := from_uuid uuid; sba_backend := "gvisor";
     sba_request_sha256 := "0123456789abcdef0123456789abcdef0123456789abcdef0123456789abcdef";
     sba_workspace := ws; sba_state := s; sba_owned_handle := h |}.

Definition sandbox_attributes (a : SandboxAttempt) : gmap string string :=
  list_to_map [("task_id", sba_task_id a); ("state", SandboxAttemptState_as_str (sba_state a));
               ("request_sha256", sba_request_sha256 a)].

Definition known_sandboxes : list SandboxAttempt :=
  [sandbox_of "t1" 0 "/w/a" SbReserved None; sandbox_of "t1" 0 "/w/a" SbOwned (Some "c1");
   sandbox_of "t1" 0 "/w/a" SbCleaned (Some "c1")].

#[local] Instance manifest_known' : SerdeJson ComponentManifest := known_json [sample_manifest].
#[local] Instance run_known' : SerdeJson RunRecord := known_json [sample_run].
#[local] Instance task_known' : SerdeJson TaskRecord := known_json [sample_task_record].
#[local] Instance artifact_known' : SerdeJson ArtifactMeta := known_json [blob_meta].
#[local] Instance workflow_known' : SerdeJson WorkflowRecord := known_json [first_try; second_try].
#[local] Instance publication_known' : SerdeJson AuthoritativeStepPublication :=
  known_json [fit_publication 10 1; fit_publication 11 2].
#[local] Instance sandbox_known' : SerdeJson SandboxAttempt := known_json known_sandboxes.
#[local] Instance attributes_known' : SerdeJson (gmap string string) :=
  known_json ((ne_attributes <$> artifact_recorded_event blob_meta :: derive_workflow_events None first_try 12 ++
                 derive_workflow_events (Some first_try) second_try 12) ++
              (sandbox_attributes <$> known_sandboxes)).
#[local] Hint Resolve known_json_laws : typeclass_instances.

Definition fresh_database : SqliteStore := mkDatabase Tables_empty 0.

Definition fitting : SqliteStore :=
  store_run [Repository (PutArtifact blob_meta); Repository (PutWorkflow first_try 12)] fresh_database.
Definition fenced_once : SqliteStore :=
  (SqliteStore_advance_publication_fence (from_uuid 1) "fit" (from_uuid 10) fitting).1.
Definition fenced_twice : SqliteStore :=
  (SqliteStore_advance_publication_fence (from_uuid 1) "fit" (from_uuid 11)
     (store_run [Repository (PutWorkflow second_try 12)] fenced_once)).1.

Lemma fenced_once_fence :
  SqliteStore_advance_publication_fence (from_uuid 1) "fit" (from_uuid 10) fitting =
  (fenced_once, Ok (asp_fence (fit_publication 10 1))).
Proof. apply (pair_snd_eq (SqliteStore_advance_publication_fence _ _ _ _)). vm_compute. reflexivity. Qed.

Lemma fenced_twice_fence :
  SqliteStore_advance_publication_fence (from_uuid 1) "fit" (from_uuid 11)
    (store_run [Repository (PutWorkflow second_try 12)] fenced_once) =
  (fenced_twice, Ok (asp_fence (fit_publication 11 2))).
Proof. apply (pair_snd_eq (SqliteStore_advance_publication_fence _ _ _ _)). vm_compute. reflexivity. Qed.

Lemma sqlite_stale_fence_rejected_witness :
  exists d4 e, SqliteStore_publish_authoritative_outputs (fit_publication 10 1)
    (store_run [PublishOutputs (fit_publication 11 2)] fenced_twice) = (d4, Err e) /\
    db_tables d4 = db_tables (store_run [PublishOutputs (fit_publication 11 2)] fenced_twice).
Proof.
  exact (proj2 (sqlite_stale_fence_rejected _ _ _ _ _ _ _ _ _ _ [PublishOutputs (fit_publication 11 2)]
    (fit_publication 10 1) fenced_once_fence fenced_twice_fence eq_refl)).
Defined.

Lemma fenced_twice_ok : sql_ok (db_tables fenced_twice).
Proof.
  unfold fenced_twice. apply (store_do_sql_ok _ (AdvanceFence (from_uuid 1) "fit" (from_uuid 11))), store_run_sql_ok.
  unfold fenced_once. apply (store_do_sql_ok _ (AdvanceFence (from_uuid 1) "fit" (from_uuid 10))), store_run_sql_ok.
  apply sql_ok_empty.
Qed.

Lemma sqlite_publication_authority_witness :
  let d' := (SqliteStore_publish_authoritative_outputs (fit_publication 11 2) fenced_twice).1 in
  may_publish (db_tables fenced_twice) (from_uuid 1) "fit" (from_uuid 11) /\
  SqliteStore_authoritative_publication (db_tables d') (from_uuid 1) "fit" = Ok (Some (fit_publication 11 2)).
Proof.
  assert (Hp : (SqliteStore_publish_authoritative_outputs (fit_publication 11 2) fenced_twice).2 = Ok Published)
    by (vm_compute; reflexivity).
  destruct (sqlite_publication_authority _ _ _ _ fenced_twice_ok (pair_snd_eq _ _ Hp)) as (Hm & _ & _ & Ha & _).
  split; [exact Hm|exact Ha].
Defined.

Lemma sandbox_journal_witness :
  let ops := [ReserveSandbox "t1" "gvisor" (sba_request_sha256 (sandbox_of "t1" 0 "/w/a" SbReserved None)) "/w/a";
              OwnSandbox "t1" (from_uuid 0) "c1"] in
  let d' := store_run [ConfirmAbsent "t1" (from_uuid 0) "c1"] (store_run ops fresh_database) in
  sandbox_inv (db_tables (store_run ops fresh_database)) /\
  exists d2 e, SqliteStore_reserve_sandbox_attempt "t1" "gvisor" "" "/other" d' = (d2, Err e) /\
    db_tables d2 = db_tables d'.
Proof.
  intros ops d'. destruct (sandbox_journal ops fresh_database eq_refl) as [Hi Hj]. split; [exact Hi|].
  apply (proj2 (Hj "t1" (sandbox_of "t1" 0 "/w/a" SbOwned (Some "c1")) ltac:(vm_compute; reflexivity)
    [ConfirmAbsent "t1" (from_uuid 0) "c1"])).
Defined.
End witnesses.
