(* ===== verification/SqliteMigrations.v ===== *)
(** * Opening a database ([SqliteStore::initialize], [MIGRATIONS])

    The schema is the set of tables and indexes that exist and the table of
    applied migrations.  Each pending migration runs in a transaction of its
    own, any statement of which may fail, and an opening may be repeated after
    a failure. *)

From stdpp Require Import base gmap strings list.
From S2P Require Import Prelude Text Core Digest Machine Blobs Memory Sql.

(** The objects that each migration creates; [CREATE] fails on one that
    exists. *)
Definition MIGRATIONS : list (list string) := [
  ["components"; "runs"; "idx_runs_created"; "artifact_meta"; "idx_artifacts_created"];
  ["workflows"; "idx_workflows_created"];
  ["lifecycle_events"; "idx_lifecycle_events_entity"];
  ["workflow_publication_fences"];
  ["tasks"; "idx_tasks_created"];
  ["sandbox_attempts"; "idx_sandbox_workspace"; "idx_sandbox_uncleaned"] ].

(** [sc_migrations] is the table [schema_migrations], once it exists. *)
Record Schema := mkSchema {
  sc_objects : gset string;
  sc_migrations : option (gmap N N);
}.

Definition Schema_empty : Schema := mkSchema ∅ None.

Fixpoint create_objects (names : list string) (objects : gset string) : result string (gset string) :=
  match names with
  | [] => Ok objects
  | name :: names => if decide (name ∈ objects) then Err name else create_objects names ({[ name ]} ∪ objects)
  end.

Section migrations.
Context `{Environment}.

Abbreviation schema_action A := (action (Database Schema) CoreError A).

Definition execute_batch (version : N) (names : list string) (s : Schema) : Schema * Result unit :=
  match create_objects names (sc_objects s) with
  | Ok objects => (mkSchema objects (sc_migrations s), Ok tt)
  | Err _ => (s, Err (Storage "migration v{version} failed: {e}"))
  end.

(** [version] is the primary key. *)
Definition record_migration (version applied_at : N) (s : Schema) : Schema * Result unit :=
  match sc_migrations s with
  | None => (s, Err (Storage "recording migration"))
  | Some applied =>
      match applied !! version with
      | Some _ => (s, Err (Storage "recording migration"))
      | None => (mkSchema (sc_objects s) (Some (<[version := applied_at]> applied)), Ok tt)
      end
  end.

Definition create_migrations_table (s : Schema) : Schema :=
  mkSchema (sc_objects s) (Some (default ∅ (sc_migrations s))).

Definition read_applied (s : Schema) : Schema * Result (list N) :=
  (s, map_keys <$> ok_or (sc_migrations s) (Storage "reading applied migrations")).

Definition apply_migration (version : N) (sql : list string) : schema_action unit :=
  transaction "beginning migration transaction" "committing migration v{version}: {e}" (
    _ ← statement "migration v{version} failed: {e}" (execute_batch version sql);
    applied_at ← sql_now;
    _ ← statement "recording migration" (record_migration version applied_at);
    mret (Committing tt)).

Fixpoint apply_pending (applied : list N) (version : N) (migrations : list (list string)) : schema_action unit :=
  match migrations with
  | [] => mret tt
  | sql :: migrations =>
      _ ← (if decide (version ∈ applied) then mret tt else apply_migration version sql);
      apply_pending applied (version + 1) migrations
  end.

Definition SqliteStore_initialize : schema_action unit :=
  _ ← query "setting journal_mode" (fun _ => tt);
  _ ← query "setting synchronous" (fun _ => tt);
  _ ← execute_sql "creating migrations table" create_migrations_table;
  applied ← statement "reading applied migrations" read_applied;
  apply_pending applied 1 MIGRATIONS.

(** ** Well-formed schemas

    Exactly the first [n] migrations are recorded, and exactly what they
    create exists. *)
Definition objects_of (migrations : list (list string)) : gset string := list_to_set (mjoin migrations).

Definition schema_at (n : nat) (s : Schema) : Prop :=
  n <= length MIGRATIONS /\ sc_objects s = objects_of (take n MIGRATIONS) /\
  exists applied, sc_migrations s = Some applied /\
    forall v, is_Some (applied !! v) <-> (1 <= v <= N.of_nat n)%N.

Definition schema_ok (s : Schema) : Prop := s = Schema_empty \/ exists n, schema_at n s.

(** What an opening may change: it adds migrations, and never touches one
    already applied. *)
Definition schema_le (s s' : Schema) : Prop :=
  sc_objects s ⊆ sc_objects s' /\
  forall applied, sc_migrations s = Some applied -> exists applied', sc_migrations s' = Some applied' /\ applied ⊆ applied'.

#[local] Instance schema_le_preorder : PreOrder schema_le.
Proof using Type.
  split.
  - intros s. split; [done|]. intros applied Ha. by exists applied.
  - intros s1 s2 s3 [Ho1 Hm1] [Ho2 Hm2]. split; [by etrans|]. intros a1 (a2 & Ha2 & Hs2)%Hm1.
    destruct (Hm2 _ Ha2) as (a3 & Ha3 & Hs3). exists a3. split; [done|by etrans].
Qed.

Lemma create_objects_fresh names objects :
  NoDup names -> (forall x, x ∈ names -> x ∉ objects) ->
  create_objects names objects = Ok (list_to_set names ∪ objects).
Proof using Type.
  revert objects. induction names as [|x names IH]; intros objects Hnd Hf; cbn; [by rewrite union_empty_l_L|].
  apply NoDup_cons in Hnd as [Hx Hnd]. rewrite decide_False by (apply Hf; left). rewrite IH; [|done|].
  - f_equal. set_solver.
  - intros y Hy. assert (y ∉ objects) by (apply Hf; by right). set_solver.
Qed.

(** No two migrations create the same object. *)
Lemma migrations_apart : NoDup (mjoin MIGRATIONS).
Proof using Type. apply (bool_decide_unpack _). vm_compute. exact I. Qed.

#[local] Opaque MIGRATIONS.

Lemma create_next n sql :
  MIGRATIONS !! n = Some sql ->
  create_objects sql (objects_of (take n MIGRATIONS)) = Ok (objects_of (take (S n) MIGRATIONS)).
Proof using Type.
  intros Hn. pose proof migrations_apart as Hnd. rewrite <- (take_drop n MIGRATIONS) in Hnd.
  rewrite (drop_S _ _ _ Hn), join_app in Hnd. cbn [mjoin list_join] in Hnd.
  apply NoDup_app in Hnd as (_ & Hdis & Hnd). apply NoDup_app in Hnd as (Hsql & _).
  rewrite create_objects_fresh; [|done|].
  - unfold objects_of. rewrite (take_S_r _ _ _ Hn), join_app. cbn. rewrite app_nil_r, list_to_set_app_L. f_equal.
    apply union_comm_L.
  - intros x Hx. unfold objects_of. rewrite elem_of_list_to_set. intros Hin.
    apply (Hdis x Hin). apply elem_of_app. by left.
Qed.

Lemma apply_migration_Ok n sql d d' u :
  schema_at n (db_tables d) -> MIGRATIONS !! n = Some sql ->
  apply_migration (N.of_nat n + 1) sql d = (d', Ok u) ->
  schema_at (S n) (db_tables d') /\ schema_le (db_tables d) (db_tables d').
Proof using Type.
  intros (Hle & Hobj & applied & Happ & Hdom) Hn Hm. unfold apply_migration in Hm.
  apply transaction_Ok in Hm as (d1 & d2 & Ht & [[Hb Ht']|[Hb Ht']]); act_inv; [done|].
  apply statement_Ok in Hr, Hr1. apply sql_now_Ok in Hr0. rewrite Ht in Hr. rewrite Hr0 in Hr1.
  unfold execute_batch in Hr. rewrite Hobj, (create_next _ _ Hn) in Hr. injection Hr as Hr.
  unfold record_migration in Hr1. rewrite <- Hr in Hr1. cbn [sc_migrations] in Hr1. rewrite Happ in Hr1.
  destruct (applied !! _) eqn:Ev; [done|]. injection Hr1 as Hr1. rewrite Ht', <- Hr1. split.
  - split; [by apply lookup_lt_Some in Hn|]. split; [done|]. eexists. split; [done|]. intros v.
    rewrite lookup_insert_is_Some, Hdom. lia.
  - split; cbn [sc_objects sc_migrations].
    + rewrite Hobj. unfold objects_of. rewrite (take_S_r _ _ _ Hn), join_app, list_to_set_app_L. set_solver.
    + rewrite Happ. intros a [= <-]. eexists. split; [done|]. by apply insert_subseteq.
Qed.

Lemma apply_migration_Err n sql d d' e :
  apply_migration n sql d = (d', Err e) -> db_tables d' = db_tables d.
Proof using Type. apply transaction_Err. Qed.

Lemma apply_pending_spec applied n0 i d d' r :
  (forall v, v ∈ applied <-> (1 <= v <= N.of_nat n0)%N) -> i <= length MIGRATIONS ->
  schema_at (n0 `max` i) (db_tables d) ->
  apply_pending applied (N.of_nat i + 1) (drop i MIGRATIONS) d = (d', r) ->
  schema_le (db_tables d) (db_tables d') /\ (exists n, schema_at n (db_tables d')) /\
  (r = Ok tt -> schema_at (length MIGRATIONS) (db_tables d')).
Proof using Type.
  intros Happ. remember (length MIGRATIONS - i) as k eqn:Hk. revert i Hk d.
  induction k as [|k IH]; intros i Hk d Hi Hat Hp.
  - assert (i = length MIGRATIONS) as -> by lia. rewrite drop_all in Hp. injection Hp as <- <-.
    assert (Hmax : n0 `max` length MIGRATIONS = length MIGRATIONS) by (destruct Hat as [? _]; lia).
    rewrite Hmax in Hat. split; [reflexivity|]. split; [by eexists|done].
  - destruct (lookup_lt_is_Some_2 MIGRATIONS i) as [sql Hsql]; [lia|].
    rewrite (drop_S _ _ _ Hsql) in Hp. cbn [apply_pending] in Hp.
    assert (Hsucc : (N.of_nat i + 1 + 1 = N.of_nat (S i) + 1)%N) by lia. rewrite Hsucc in Hp.
    destruct (decide (N.of_nat i + 1 ∈ applied)%N) as [Hin|Hout].
    + apply Happ in Hin. apply (IH (S i)); [lia|lia| |exact Hp].
      replace (n0 `max` S i) with (n0 `max` i) by lia. done.
    + assert (n0 <= i) as Hn0 by (destruct (decide (n0 <= i)); [done|]; exfalso; apply Hout, Happ; lia).
      replace (n0 `max` i) with i in Hat by lia. unfold mbind, action_bind in Hp.
      destruct (apply_migration _ sql d) as [d1 [u|e]] eqn:Em.
      * destruct (apply_migration_Ok _ _ _ _ _ Hat Hsql Em) as [Hat1 Hle1].
        destruct (IH (S i) ltac:(lia) d1) as (Hle & Hex & Hr); [lia| |exact Hp|].
        { by replace (n0 `max` S i) with (S i) by lia. }
        split; [by etrans|done].
      * injection Hp as <- <-. apply apply_migration_Err in Em. rewrite Em.
        split; [reflexivity|]. split; [by eexists|done].
Qed.

Lemma create_table_at n s : schema_at n s -> create_migrations_table s = s.
Proof using Type.
  intros (_ & _ & applied & Ha & _). unfold create_migrations_table. rewrite Ha. cbn. rewrite <- Ha. by destruct s.
Qed.

Lemma create_table_ok s :
  schema_ok s -> schema_le s (create_migrations_table s) /\ exists n, schema_at n (create_migrations_table s).
Proof using Type.
  intros [->|[n Hn]].
  - split; [by split|]. exists 0. split; [lia|]. split; [done|]. exists ∅. split; [done|]. intros v.
    rewrite lookup_empty. split; [by intros []|lia].
  - rewrite (create_table_at _ _ Hn). split; [reflexivity|by exists n].
Qed.

Lemma statement_tables {A} context (f : Schema -> Schema * Result A) d d' r :
  statement context f d = (d', r) -> db_tables d' = db_tables d \/ db_tables d' = (f (db_tables d)).1.
Proof using Type.
  unfold statement, on_tables. destruct (env_fault _); [intros [= <- _]; by left|]. cbn.
  destruct (f (db_tables d)). intros [= <- _]. by right.
Qed.

Lemma applied_versions n s m :
  schema_at n s -> sc_migrations s = Some m -> forall v, v ∈ map_keys m <-> (1 <= v <= N.of_nat n)%N.
Proof using Type.
  intros (_ & _ & m' & Hm & Hdom) Hm' v. assert (m' = m) as -> by congruence. rewrite <- Hdom.
  unfold map_keys. rewrite list_elem_of_fmap. split.
  - intros ([k x] & -> & Hin%elem_of_map_iter). by exists x.
  - intros [x Hx]. exists (v, x). split; [done|by apply elem_of_map_iter].
Qed.

(** One opening, whether it succeeds or fails. *)
Lemma initialize_spec d d' r :
  schema_ok (db_tables d) -> SqliteStore_initialize d = (d', r) ->
  schema_le (db_tables d) (db_tables d') /\ schema_ok (db_tables d') /\
  (r = Ok tt -> schema_at (length MIGRATIONS) (db_tables d')).
Proof using Type.
  intros Hok Hi. unfold SqliteStore_initialize in Hi.
  assert (Hq : forall c (dx dy : Database Schema) (ry : Result unit), query c (fun _ : Schema => tt) dx = (dy, ry) -> db_tables dy = db_tables dx).
  { intros c dx dy ry [?|?]%statement_tables; done. }
  destruct (create_table_ok _ Hok) as [Hle0 [n Hn]].
  unfold mbind, action_bind in Hi.
  destruct (query "setting journal_mode" _ d) as [d1 [u1|e]] eqn:E1; apply Hq in E1.
  2:{ injection Hi as <- <-. rewrite E1. by split; [|split]. }
  destruct (query "setting synchronous" _ d1) as [d2 [u2|e]] eqn:E2; apply Hq in E2; rewrite E1 in E2.
  2:{ injection Hi as <- <-. rewrite E2. by split; [|split]. }
  destruct (execute_sql _ _ d2) as [d3 [u3|e]] eqn:E3.
  2:{ injection Hi as <- <-. apply statement_tables in E3. rewrite E2 in E3. destruct E3 as [->| ->].
      - by split; [|split].
      - split; [done|]. split; [by right; exists n|done]. }
  apply execute_sql_Ok in E3. rewrite E2 in E3.
  destruct (statement _ read_applied d3) as [d4 [applied|e]] eqn:E4.
  2:{ injection Hi as <- <-. apply statement_tables in E4. unfold read_applied in E4. cbn in E4. rewrite E3 in E4.
      destruct E4 as [->| ->]; (split; [done|]; split; [by right; exists n|done]). }
  apply statement_Ok in E4. unfold read_applied in E4. rewrite E3 in E4. injection E4 as E4 Eapp.
  assert (Happ : forall v, v ∈ applied <-> (1 <= v <= N.of_nat n)%N).
  { rewrite <- Eapp. by apply (applied_versions _ _ _ Hn). }
  rewrite E4 in Hn, Hle0.
  destruct (apply_pending_spec applied n 0 d4 d' r Happ) as (Hle & Hex & Hr); [lia| |exact Hi|].
  { by replace (n `max` 0) with n by lia. }
  split; [by etrans|]. split; [by right|done].
Qed.

Lemma complete_unchanged s s' :
  schema_at (length MIGRATIONS) s -> schema_le s s' -> schema_ok s' -> s' = s.
Proof using Type.
  intros (_ & Ho & m & Hm & Hd) [Hso Hsm] Hok'. destruct (Hsm _ Hm) as (m' & Hm' & Hsub).
  destruct Hok' as [->|[n (Hn & Ho' & m2 & Hm2 & Hd2)]]; [done|]. assert (m2 = m') as -> by congruence.
  assert (n = length MIGRATIONS) as ->.
  { destruct (decide (n = length MIGRATIONS)) as [|Hne]; [done|]. exfalso.
    destruct (proj2 (Hd (N.of_nat (length MIGRATIONS)))) as [x Hx]; [lia|].
    assert (is_Some (m' !! N.of_nat (length MIGRATIONS))) as Hs by (exists x; by eapply lookup_weaken).
    apply Hd2 in Hs. lia. }
  assert (m' = m) as ->.
  { apply map_eq. intros v. destruct (m !! v) as [x|] eqn:E; [by eapply lookup_weaken|].
    destruct (m' !! v) as [y|] eqn:E'; [|done]. assert (is_Some (m' !! v)) as Hs by (by exists y).
    apply Hd2, Hd in Hs as [z Hz]. congruence. }
  destruct s, s'. cbn in *. congruence.
Qed.

(** ** Openings without failures *)
Lemma statement_calm {A} context (f : Schema -> Schema * Result A) d t' a :
  (forall t, env_fault t = None) -> f (db_tables d) = (t', Ok a) ->
  exists d', statement context f d = (d', Ok a) /\ db_tables d' = t'.
Proof using Type.
  intros Hc Hf. unfold statement, on_tables. rewrite Hc. cbn. rewrite Hf. by eexists.
Qed.

Lemma apply_migration_calm n sql d :
  (forall t, env_fault t = None) -> schema_at n (db_tables d) -> MIGRATIONS !! n = Some sql ->
  exists d', apply_migration (N.of_nat n + 1) sql d = (d', Ok tt).
Proof using Type.
  intros Hc (_ & Hobj & applied & Happ & Hdom) Hn. unfold apply_migration, transaction.
  destruct (statement_calm "beginning migration transaction" (fun t => (t, Ok tt)) d _ tt Hc eq_refl) as (d1 & E1 & Ht1).
  unfold query. rewrite E1. unfold mbind, action_bind.
  destruct (statement_calm "migration v{version} failed: {e}" (execute_batch (N.of_nat n + 1) sql) d1
    (mkSchema (objects_of (take (S n) MIGRATIONS)) (sc_migrations (db_tables d))) tt Hc) as (d2 & E2 & Ht2).
  { unfold execute_batch. rewrite Ht1, Hobj. by rewrite (create_next _ _ Hn). }
  rewrite E2. destruct (sql_now d2) as [d3 [now|e]] eqn:E3; [|done]. pose proof (sql_now_Ok _ _ _ E3) as Ht3.
  destruct (statement_calm "recording migration" (record_migration (N.of_nat n + 1) now) d3
    (mkSchema (objects_of (take (S n) MIGRATIONS)) (Some (<[(N.of_nat n + 1)%N := now]> applied))) tt Hc) as (d4 & E4 & Ht4).
  { unfold record_migration. rewrite Ht3, Ht2. cbn [sc_migrations sc_objects]. rewrite Happ.
    destruct (applied !! (N.of_nat n + 1)%N) eqn:Ev; [|done]. exfalso.
    assert (is_Some (applied !! (N.of_nat n + 1)%N)) as Hs by (by eexists). apply Hdom in Hs. lia. }
  rewrite E4. cbn.
  destruct (statement_calm "committing migration v{version}: {e}" (fun t => (t, Ok tt)) d4 _ tt Hc eq_refl) as (d5 & E5 & _).
  rewrite E5. by exists d5.
Qed.

Lemma apply_pending_calm applied n0 i d :
  (forall t, env_fault t = None) ->
  (forall v, v ∈ applied <-> (1 <= v <= N.of_nat n0)%N) -> i <= length MIGRATIONS ->
  schema_at (n0 `max` i) (db_tables d) ->
  (apply_pending applied (N.of_nat i + 1) (drop i MIGRATIONS) d).2 = Ok tt.
Proof using Type.
  intros Hc Happ. remember (length MIGRATIONS - i) as k eqn:Hk. revert i Hk d.
  induction k as [|k IH]; intros i Hk d Hi Hat.
  - assert (i = length MIGRATIONS) as -> by lia. by rewrite drop_all.
  - destruct (lookup_lt_is_Some_2 MIGRATIONS i) as [sql Hsql]; [lia|].
    rewrite (drop_S _ _ _ Hsql). cbn [apply_pending].
    assert (Hsucc : (N.of_nat i + 1 + 1 = N.of_nat (S i) + 1)%N) by lia. rewrite Hsucc.
    destruct (decide (N.of_nat i + 1 ∈ applied)%N) as [Hin|Hout].
    + apply Happ in Hin. apply (IH (S i)); [lia|lia|]. by replace (n0 `max` S i) with (n0 `max` i) by lia.
    + assert (n0 <= i) as Hn0 by (destruct (decide (n0 <= i)); [done|]; exfalso; apply Hout, Happ; lia).
      replace (n0 `max` i) with i in Hat by lia. unfold mbind, action_bind.
      destruct (apply_migration_calm _ _ _ Hc Hat Hsql) as [d1 E1]. rewrite E1.
      apply (IH (S i)); [lia|lia|]. replace (n0 `max` S i) with (S i) by lia.
      by apply (apply_migration_Ok _ _ _ _ _ Hat Hsql E1).
Qed.

(** When nothing fails, an opening succeeds. *)
Lemma initialize_total d :
  (forall t, env_fault t = None) -> schema_ok (db_tables d) -> (SqliteStore_initialize d).2 = Ok tt.
Proof using Type.
  intros Hc Hok. destruct (create_table_ok _ Hok) as [_ [n Hn]]. pose proof Hn as (_ & _ & m & Hm & _).
  unfold SqliteStore_initialize, mbind, action_bind, query, execute_sql.
  destruct (statement_calm "setting journal_mode" (fun t => (t, Ok tt)) d _ tt Hc eq_refl) as (d1 & -> & Ht1).
  destruct (statement_calm "setting synchronous" (fun t => (t, Ok tt)) d1 _ tt Hc eq_refl) as (d2 & -> & Ht2).
  destruct (statement_calm "creating migrations table" (fun t => (create_migrations_table t, Ok tt)) d2 _ tt Hc eq_refl)
    as (d3 & -> & Ht3). rewrite Ht2, Ht1 in Ht3.
  destruct (statement_calm "reading applied migrations" read_applied d3 (db_tables d3) (map_keys m) Hc) as (d4 & -> & Ht4).
  { unfold read_applied. by rewrite Ht3, Hm. }
  apply (apply_pending_calm (map_keys m) n 0); [done|by eapply applied_versions|lia|].
  rewrite Ht4, Ht3. by replace (n `max` 0) with n by lia.
Qed.
(** Opening a database is safe to repeat and to interrupt: after any
    number of openings of a new database, each of which may fail at any
    statement, exactly the first few migrations are recorded, what they create
    exists and nothing else; an opening that succeeds leaves all of them
    applied; no later opening drops an object or a recorded migration; opening
    a complete database again changes nothing, whether it succeeds or not; and
    when no statement fails the opening succeeds. *)
Theorem migrations_once k d :
  db_tables d = Schema_empty ->
  let opened := Nat.iter k (fun d => (SqliteStore_initialize d).1) d in
  schema_ok (db_tables opened) /\
  let '(d', r) := SqliteStore_initialize opened in
  schema_le (db_tables opened) (db_tables d') /\
  (r = Ok tt -> schema_at (length MIGRATIONS) (db_tables d')) /\
  (schema_at (length MIGRATIONS) (db_tables opened) -> db_tables d' = db_tables opened) /\
  ((forall t, env_fault t = None) -> r = Ok tt).
Proof using Type.
  intros Hd opened. assert (Hok : schema_ok (db_tables opened)).
  { unfold opened. clear opened. induction k as [|k IH]; [by left|]. rewrite Nat.iter_succ.
    set (dk := Nat.iter k _ d) in *. destruct (SqliteStore_initialize dk) as [d' r] eqn:E. cbn [fst].
    apply (initialize_spec _ _ _ IH E). }
  split; [done|]. pose proof (initialize_total opened) as Htot.
  destruct (SqliteStore_initialize opened) as [d' r] eqn:E.
  destruct (initialize_spec _ _ _ Hok E) as (Hle & Hok' & Hr). split; [done|]. split; [done|].
  split; [|intros Hc; by apply Htot]. intros Hat. by apply (complete_unchanged _ _ Hat Hle Hok').
Qed.

End migrations.

(** ** Witness

    The disk fails while the third migration is recorded. *)
Section witnesses.
#[local] Instance interrupted_environment : Environment := {|
  env_fault t := if (t =? 14)%N then Some 0 else None;
  env_reads _ content := [ReadChunk content];
  env_uuid t := t;
  env_now t := t |}.

Definition new_database : Database Schema := mkDatabase Schema_empty 0.

Definition interrupted : Database Schema := Nat.iter 1 (fun d => (SqliteStore_initialize d).1) new_database.

Lemma migrations_once_witness :
  (SqliteStore_initialize new_database).2 <> Ok tt /\
  map_keys <$> sc_migrations (db_tables interrupted) = Some [1; 2]%N /\ schema_ok (db_tables interrupted) /\
  schema_at (length MIGRATIONS) (db_tables (SqliteStore_initialize interrupted).1).
Proof.
  destruct (migrations_once 1 new_database eq_refl) as [Hok Hnext]. fold interrupted in Hok, Hnext.
  split; [vm_compute; discriminate|]. split; [vm_compute; reflexivity|]. split; [exact Hok|].
  assert (Hr : (SqliteStore_initialize interrupted).2 = Ok tt) by (vm_compute; reflexivity).
  destruct (SqliteStore_initialize interrupted) as [d' r]. cbn [snd fst] in *. by apply Hnext.
Defined.
End witnesses.
