(* ===== verification/Reads.v ===== *)
(** * What the orchestrator only reads ([hub-core/src/orchestrator.rs],
      [store.rs], [event.rs])

    The listings of the repositories, the event log as a port, and the
    accessors of the orchestrator: none of them writes. *)

From stdpp Require Import base gmap strings list sorting.
From S2P Require Import Prelude Text Core Version Digest Machine Blobs Component Run Workflow Task.
From S2P Require Import TaskLifecycle Publication Event Memory Ports Exec Hub Submit.

(** ** The remaining reads of the repositories *)
Class Listings `{JsonLib} (S : Type) := {
  runs_list : S -> Result (list RunRecord);
  artifacts_list : S -> Result (list ArtifactMeta);
}.

(** A listing is what is stored, each record once. *)
Definition lists {S A} {k : IdKind} (get : S -> uuid_id k -> Result (option A))
    (id_of : A -> uuid_id k) (s : S) (l : list A) : Prop :=
  NoDup (id_of <$> l) /\ (forall a, a ∈ l <-> get s (id_of a) = Ok (Some a)).

Class ListingsLaws `{JsonLib} (S : Type) `{!Repositories S, !Listings S} : Prop := {
  runs_list_law : forall s l,
    repo_ok s -> runs_list s = Ok l -> lists runs_get run_id s l;
  artifacts_list_law : forall s l,
    repo_ok s -> artifacts_list s = Ok l -> lists artifacts_get art_id s l;
}.

(** [LifecycleEventRepository]. *)
Class LifecycleEventRepository (S : Type) := {
  list_after : S -> N -> N -> Result (list LifecycleEvent);
  high_water_sequence : S -> Result N;
  (** The chronology a state holds. *)
  holds_log : S -> InMemoryLifecycleEvents -> Prop;
}.

(** Every implementation answers as the in-memory log it holds, as far as a
    cursor fits a signed 64-bit column. *)
Class LifecycleEventLaws (S : Type) `{LifecycleEventRepository S} : Prop := {
  list_after_law : forall s l after limit,
    holds_log s l -> (after < 2 ^ 63)%N -> list_after s after limit = InMemoryLifecycleEvents_list_after l after limit;
  high_water_law : forall s l,
    holds_log s l -> high_water_sequence s = InMemoryLifecycleEvents_high_water_sequence l;
}.

(** ** The in-memory store *)
Section in_memory.
Context `{JsonLib, ManifestJson, WorkspaceJson, Sha256Lib, UuidLib}.

#[global] Instance InMemoryListings : Listings InMemoryHubStore := {|
  runs_list s := InMemoryRuns_list (hs_runs s);
  artifacts_list s := InMemoryArtifactMeta_list (hs_artifacts s) |}.

Lemma sorted_map_lists {A} {k : IdKind} (m : gmap (uuid_id k) A) (created : A -> N) (id_of : A -> uuid_id k) :
  (forall i a, m !! i = Some a -> id_of a = i) ->
  lists (fun m i => Ok (m !! i)) id_of m
    (sort_by_key (fun a => (created a, id_of a)) (map_values m)).
Proof.
  intros Hk. assert (Hp : sort_by_key (fun a => (created a, id_of a)) (map_values m) ≡ₚ map_values m)
    by apply sort_by_perm.
  split; [|intros a].
  - rewrite Hp, (map_values_keys id_of m); [apply NoDup_map_keys|done].
  - rewrite Hp, elem_of_map_values. split; [|intros [= Ha]; eauto].
    intros [i Hi]. by rewrite (Hk _ _ Hi), Hi.
Qed.

#[global] Instance InMemoryListingsLaws : ListingsLaws InMemoryHubStore.
Proof.
  split; intros s l (_ & Hr & Ha & _) [= <-]; by apply sorted_map_lists.
Qed.
End in_memory.

#[global] Instance InMemoryLog : LifecycleEventRepository InMemoryLifecycleEvents := {|
  list_after := InMemoryLifecycleEvents_list_after;
  high_water_sequence := InMemoryLifecycleEvents_high_water_sequence;
  holds_log s l := s = l |}.

#[global] Instance InMemoryLogLaws : LifecycleEventLaws InMemoryLifecycleEvents.
Proof. split; intros s l; [intros ? ? ->|intros ->]; done. Qed.

#[global] Instance InMemoryStoreLog `{JsonLib} : LifecycleEventRepository InMemoryHubStore := {|
  list_after s := InMemoryLifecycleEvents_list_after (hs_events s);
  high_water_sequence s := InMemoryLifecycleEvents_high_water_sequence (hs_events s);
  holds_log s l := hs_events s = l |}.

#[global] Instance InMemoryStoreLogLaws `{JsonLib} : LifecycleEventLaws InMemoryHubStore.
Proof. split; intros s l; [intros ? ? <-|intros <-]; done. Qed.

(** ** The accessors *)
Section accessors.
Context `{JsonLib, ManifestJson, Sha256Lib, Environment} {backend : Executor}.
Context {Store Fences : Type} `{!Repositories Store, !Listings Store, !PublicationFenceRepository Fences}.
Context (blob_root : string).

Abbreviation hub A := (action (Orchestrator Store Fences) CoreError A).

(** [.ok().flatten()]: a failing store reads as an absent record. *)
Definition ok_flatten {A} (r : Result (option A)) : option A :=
  match r with Ok found => found | Err _ => None end.

(** [.unwrap_or_default()] on a listing. *)
Definition unwrap_list {A} (r : Result (list A)) : list A :=
  match r with Ok l => l | Err _ => [] end.

Definition Orchestrator_component (id : ComponentId) (o : Orchestrator Store Fences)
    : Result (option ComponentManifest) := components_latest (o_store o) id.

Definition Orchestrator_components (o : Orchestrator Store Fences)
    : Result (list ComponentManifest) := components_list (o_store o).

Definition Orchestrator_run (run_id : RunId) (o : Orchestrator Store Fences) : option RunRecord :=
  ok_flatten (runs_get (o_store o) run_id).

Definition Orchestrator_list_runs (o : Orchestrator Store Fences) : Result (list RunRecord) :=
  runs_list (o_store o).

Definition Orchestrator_runs (o : Orchestrator Store Fences) : list RunRecord :=
  unwrap_list (Orchestrator_list_runs o).

Definition Orchestrator_list_artifacts (o : Orchestrator Store Fences) : Result (list ArtifactMeta) :=
  artifacts_list (o_store o).

Definition Orchestrator_artifacts (o : Orchestrator Store Fences) : list ArtifactMeta :=
  unwrap_list (Orchestrator_list_artifacts o).

Definition Orchestrator_artifact_meta (id : ArtifactId) (o : Orchestrator Store Fences)
    : option ArtifactMeta := ok_flatten (artifacts_get (o_store o) id).

(** The metadata the byte accessors start from. *)
Definition artifact_or_missing (id : ArtifactId) : hub ArtifactMeta :=
  found ← query (fun s => artifacts_get s id);
  lift (ok_or found (ArtifactNotFound id)).

Definition Orchestrator_artifact_bytes (id : ArtifactId) : hub (ArtifactMeta * list N) :=
  meta ← artifact_or_missing id;
  bs ← on_machine (FileSystemArtifactStore_read blob_root (art_digest meta));
  mret (meta, bs).

Definition Orchestrator_artifact_bytes_bounded (id : ArtifactId) (limit : N)
    : hub (ArtifactMeta * list N) :=
  meta ← artifact_or_missing id;
  _ ← lift (ensure (art_size meta <=? limit)%N (ArtifactTooLarge id (art_size meta) limit));
  bs ← on_machine (FileSystemArtifactStore_read_verified_bounded blob_root (art_digest meta)
                     (art_size meta) limit);
  mret (meta, bs).

Definition Orchestrator_artifact_raw_sha256 (id : ArtifactId) : hub (ArtifactMeta * RawSha256) :=
  meta ← artifact_or_missing id;
  raw ← on_machine (FileSystemArtifactStore_verified_raw_sha256 blob_root (art_digest meta)
                      (art_size meta));
  mret (meta, raw).

Definition Orchestrator_executor_backend_id : string := backend_id.

Definition Orchestrator_workflow (id : WorkflowId) (o : Orchestrator Store Fences)
    : option WorkflowRecord := ok_flatten (workflows_get (o_store o) id).

Definition Orchestrator_authoritative_step_publication (workflow : WorkflowId) (step_key : string)
    (o : Orchestrator Store Fences) : Result (option AuthoritativeStepPublication) :=
  authoritative_publication (o_fences o) workflow step_key.

Definition Orchestrator_list_workflows (o : Orchestrator Store Fences) : Result (list WorkflowRecord) :=
  workflows_list (o_store o).

Definition Orchestrator_workflows (o : Orchestrator Store Fences) : list WorkflowRecord :=
  unwrap_list (Orchestrator_list_workflows o).

(** ** None of them writes *)

(** Time passes, everything else stays: repositories, fences, tokens and
    files. *)
Definition looks (o o' : Orchestrator Store Fences) : Prop :=
  exists t, o' = set_machine o (mkMachine (mc_nodes (o_machine o)) t).

#[global] Instance looks_preorder : PreOrder looks.
Proof.
  split.
  - intros [? ? [] ? ? ?]. by eexists.
  - intros a b c [t ->] [u ->]. by exists u.
Qed.

Definition nodes_kept (m m' : Machine) : Prop := mc_nodes m' = mc_nodes m.

#[global] Instance nodes_kept_preorder : PreOrder nodes_kept.
Proof. split; [done|]. unfold nodes_kept. intros a b c. by intros -> ->. Qed.

Lemma nodes_kept_symlink_metadata p : steps nodes_kept (symlink_metadata p).
Proof. intros m. unfold symlink_metadata, syscall. by destruct (env_fault _). Qed.

Lemma nodes_kept_path_exists {E} p : steps nodes_kept (path_exists p : action _ E _).
Proof. intros m. unfold path_exists. by destruct (env_fault _). Qed.

Lemma nodes_kept_file_open p : steps nodes_kept (file_open p).
Proof. intros m. unfold file_open, syscall. by destruct (env_fault _). Qed.

Lemma nodes_kept_file_metadata n : steps nodes_kept (file_metadata n).
Proof. intros m. unfold file_metadata, syscall. by destruct (env_fault _). Qed.

Lemma nodes_kept_file_reads n : steps nodes_kept (file_reads n).
Proof. done. Qed.

Lemma nodes_kept_fs_read p : steps nodes_kept (fs_read p).
Proof. intros m. unfold fs_read, syscall. by destruct (env_fault _). Qed.
End accessors.
#[export] Hint Resolve looks_preorder nodes_kept_preorder nodes_kept_symlink_metadata
  nodes_kept_path_exists nodes_kept_file_open nodes_kept_file_metadata nodes_kept_file_reads
  nodes_kept_fs_read : steps.

Section looking.
Context `{JsonLib, ManifestJson, Sha256Lib, Environment}.
Context {Store Fences : Type} `{!Repositories Store, !Listings Store, !PublicationFenceRepository Fences}.
Context (blob_root : string).

Lemma looks_machine {A} (act : action Machine CoreError A) :
  steps nodes_kept act -> steps (looks (Store := Store) (Fences := Fences)) (on_machine act).
Proof.
  intros Hk o. unfold on_machine. specialize (Hk (o_machine o)).
  destruct (act (o_machine o)) as [[nodes t] r]. cbn in *. exists t. by rewrite <- Hk.
Qed.

Lemma looks_query {A} (f : Store -> Result A) :
  steps (looks (Store := Store) (Fences := Fences)) (query f).
Proof. intros o. cbn. reflexivity. Qed.

Lemma nodes_kept_read d : steps nodes_kept (FileSystemArtifactStore_read blob_root d).
Proof.
  unfold FileSystemArtifactStore_read, storage. solve_steps.
Qed.

Lemma nodes_kept_read_verified d n limit :
  steps nodes_kept (FileSystemArtifactStore_read_verified_bounded blob_root d n limit).
Proof. unfold FileSystemArtifactStore_read_verified_bounded, storage. solve_steps. Qed.

Lemma nodes_kept_raw d n : steps nodes_kept (FileSystemArtifactStore_verified_raw_sha256 blob_root d n).
Proof. unfold FileSystemArtifactStore_verified_raw_sha256, storage. solve_steps. Qed.

Lemma looks_artifact_or_missing id :
  steps (looks (Store := Store) (Fences := Fences)) (artifact_or_missing id).
Proof. unfold artifact_or_missing. apply steps_bind; [apply _|apply looks_query|]. intros. apply steps_lift, _. Qed.
End looking.
#[export] Hint Resolve looks_machine looks_query nodes_kept_read nodes_kept_read_verified nodes_kept_raw
  looks_artifact_or_missing : steps.

Section reading.
Context `{JsonLib, ManifestJson, Sha256Lib, Environment}.
Context {Store Fences : Type} `{!Repositories Store, !Listings Store, !PublicationFenceRepository Fences}.
Context (blob_root : string).

Abbreviation looking m := (steps (looks (Store := Store) (Fences := Fences)) m).

Lemma looks_artifact_bytes id : looking (Orchestrator_artifact_bytes blob_root id).
Proof. unfold Orchestrator_artifact_bytes. solve_steps. Qed.

Lemma looks_artifact_bytes_bounded id limit : looking (Orchestrator_artifact_bytes_bounded blob_root id limit).
Proof. unfold Orchestrator_artifact_bytes_bounded. solve_steps. Qed.

Lemma looks_artifact_raw_sha256 id : looking (Orchestrator_artifact_raw_sha256 blob_root id).
Proof. unfold Orchestrator_artifact_raw_sha256. solve_steps. Qed.

Lemma looks_discover capability : looking (discover_by_capability capability).
Proof. unfold discover_by_capability. solve_steps. Qed.

(** ** What a successful read of an artifact returned *)
Context `{!EnvironmentLaws, !Sha256Laws}.

(** [bs] is what the artifact of this metadata holds. *)
Definition artifact_content (o : Orchestrator Store Fences) (meta : ArtifactMeta) (bs : list N) : Prop :=
  len bs = art_size meta /\
  mc_nodes (o_machine o) !! FileSystemArtifactStore_blob_path blob_root (art_digest meta) = Some (FRegular bs) /\
  (art_digest meta = hash_bytes DOMAIN_ARTIFACT_BLOB bs \/ art_digest meta = hash_bytes DOMAIN_CAPTURE bs).

Lemma artifact_or_missing_inv id (o o' : Orchestrator Store Fences) r :
  artifact_or_missing id o = (o', r) ->
  o' = o /\ match r with
            | Ok meta => artifacts_get (o_store o) id = Ok (Some meta)
            | Err e => artifacts_get (o_store o) id = Err e \/
                       (artifacts_get (o_store o) id = Ok None /\ e = ArtifactNotFound id)
            end.
Proof.
  unfold artifact_or_missing, query, mbind, action_bind, reads, lift. cbn.
  destruct (artifacts_get _ _) as [[m|]|e]; cbn; intros [= <- <-]; auto.
Qed.

Lemma artifact_bytes_bounded_Ok id limit (o o' : Orchestrator Store Fences) meta bs :
  Orchestrator_artifact_bytes_bounded blob_root id limit o = (o', Ok (meta, bs)) ->
  artifacts_get (o_store o) id = Ok (Some meta) /\ (art_size meta <= limit)%N /\
  artifact_content o meta bs.
Proof.
  intros Hr. apply action_bind_Ok in Hr as (o1 & m & [-> Hm]%artifact_or_missing_inv & Hr).
  apply action_bind_Ok in Hr as (o1 & [] & [-> Hle%ensure_Ok]%lift_Ok & Hr).
  apply action_bind_Ok in Hr as (o1 & bs' & (mc & Hread & _)%on_machine_inv & Hr).
  apply mret_Ok in Hr as [_ [= <- <-]]. bool_inv.
  apply read_verified_Ok in Hread as (_ & Hlen & Hnode & Hd); [by split_and!|done].
Qed.

Lemma artifact_raw_sha256_Ok id (o o' : Orchestrator Store Fences) meta raw :
  Orchestrator_artifact_raw_sha256 blob_root id o = (o', Ok (meta, raw)) ->
  artifacts_get (o_store o) id = Ok (Some meta) /\
  exists bs, artifact_content o meta bs /\ raw = raw_sha256_bytes bs.
Proof.
  intros Hr. apply action_bind_Ok in Hr as (o1 & m & [-> Hm]%artifact_or_missing_inv & Hr).
  apply action_bind_Ok in Hr as (o1 & raw' & (mc & Hread & _)%on_machine_inv & Hr).
  apply mret_Ok in Hr as [_ [= <- <-]].
  apply verified_raw_Ok in Hread as (bs & Hlen & -> & Hnode & Hd); [|done..].
  split; [done|]. exists bs. by split_and!.
Qed.

(** An artifact larger than the caller's budget is refused from its metadata:
    no file is looked at. *)
Lemma artifact_bytes_bounded_large id limit (o : Orchestrator Store Fences) meta :
  artifacts_get (o_store o) id = Ok (Some meta) -> (limit < art_size meta)%N ->
  Orchestrator_artifact_bytes_bounded blob_root id limit o = (o, Err (ArtifactTooLarge id (art_size meta) limit)).
Proof.
  intros Hg Hlt. unfold Orchestrator_artifact_bytes_bounded, artifact_or_missing, query, mbind, action_bind, reads, lift.
  rewrite Hg. cbn. by rewrite (proj2 (N.leb_gt _ _) Hlt).
Qed.
End reading.
#[export] Hint Resolve looks_artifact_bytes looks_artifact_bytes_bounded looks_artifact_raw_sha256
  looks_discover : steps.
