(* ===== verification/Metrics.v ===== *)
(** * Operational metrics ([hub-api/src/metrics.rs])

    The snapshot behind [/metrics] and its text exposition. *)

From Stdlib Require Import Ascii.
From stdpp Require Import base gmap strings list pretty.
From S2P Require Import Prelude Text Core Version Digest Machine Component Run Workflow Task TaskLifecycle.
From S2P Require Import Publication Event Memory Ports Exec Hub Submit Reads.

Definition u128_max : N := 2 ^ 128 - 1.

(** [a.saturating_add(b)] on an integer type with this greatest value. *)
Definition saturating_add (max a b : N) : N := N.min max (a + b).

(** [u64::try_from(n).unwrap_or(u64::MAX)]. *)
Definition to_u64 (n : N) : N := N.min u64_max n.

Record MetricsSnapshot := {
  ms_component_manifests : N;
  ms_runs : list N;
  ms_workflows : list N;
  ms_artifacts : N;
  ms_artifact_bytes : N;
  ms_workflow_attempts : N;
  ms_lifecycle_event_high_water : N;
  ms_executor_backend : string;
}.

Definition run_state_index (s : RunState) : nat :=
  match s with
  | RsCreated => 0
  | RsValidated => 1
  | RsQueued => 2
  | RsRunning => 3
  | RsSucceeded => 4
  | RsFailed => 5
  | RsCancelled => 6
  end.

Definition workflow_state_index (s : WorkflowState) : nat :=
  match s with
  | WsCreated => 0
  | WsRunning => 1
  | WsSucceeded => 2
  | WsFailed => 3
  | WsCancelled => 4
  end.

(** [counts[index] = counts[index].saturating_add(1)] for every record. *)
Definition count_by {A} (index : A -> nat) (n : nat) (records : list A) : list N :=
  foldl (fun counts a => alter (fun c => saturating_add u64_max c 1) (index a) counts)
    (replicate n 0%N) records.

Section collect.
Context `{JsonLib} {backend : Executor}.
Context {Store Fences Events : Type} `{!Repositories Store, !Listings Store}.
Context `{!LifecycleEventRepository Events}.

Definition collect (o : Orchestrator Store Fences) (events : Events) : Result MetricsSnapshot :=
  components ← Orchestrator_components o;
  runs ← Orchestrator_list_runs o;
  workflows ← Orchestrator_list_workflows o;
  artifacts ← Orchestrator_list_artifacts o;
  high_water ← high_water_sequence events;
  Ok {| ms_component_manifests := to_u64 (len components);
        ms_runs := count_by (fun r => run_state_index (run_state r)) 7 runs;
        ms_workflows := count_by (fun w => workflow_state_index (wr_state w)) 5 workflows;
        ms_artifacts := to_u64 (len artifacts);
        ms_artifact_bytes :=
          foldl (fun total a => saturating_add u128_max total (art_size a)) 0%N artifacts;
        ms_workflow_attempts :=
          foldl (fun total s => saturating_add u128_max total (len (sr_attempts s))) 0%N
            (workflows ≫= wr_steps);
        ms_lifecycle_event_high_water := high_water;
        ms_executor_backend := Orchestrator_executor_backend_id |}.
End collect.

(** ** The text exposition *)
Definition newline : ascii := "010"%char.
Definition quote : ascii := "034"%char.

(** [value.replace(c, text)]. *)
Fixpoint replace_byte (c : ascii) (text value : string) : string :=
  match value with
  | EmptyString => EmptyString
  | String x rest =>
      if bool_decide (x = c) then String.append text (replace_byte c text rest)
      else String x (replace_byte c text rest)
  end.

Definition escape_label (value : string) : string :=
  replace_byte quote (String backslash (String quote EmptyString))
    (replace_byte newline (String backslash "n")
      (replace_byte backslash (String backslash (String backslash EmptyString)) value)).

Definition text_line (parts : list string) : string :=
  String.append (String.concat "" parts) (String newline EmptyString).

Definition metric_header (name help : string) : string :=
  String.append (text_line ["# HELP "; name; " "; help]) (text_line ["# TYPE "; name; " gauge"]).

Definition sample (name : string) (value : N) : string := text_line [name; " "; pretty value].

(** One sample with a label, its text quoted. *)
Definition labelled (name label text : string) (value : N) : string :=
  let q := String quote EmptyString in
  text_line [name; "{"; label; "="; q; text; q; "} "; pretty value].

Definition RUN_LABELS : list string :=
  ["created"; "validated"; "queued"; "running"; "succeeded"; "failed"; "cancelled"].
Definition WORKFLOW_LABELS : list string :=
  ["created"; "running"; "succeeded"; "failed"; "cancelled"].

(** [env!(CARGO_PKG_VERSION)] is fixed when the crate is built. *)
Definition render (pkg_version : string) (s : MetricsSnapshot) : string :=
  String.concat "" (
    [metric_header "scirust_hub_build_info" "Build information for the running SciRust Hub.";
     labelled "scirust_hub_build_info" "version" (escape_label pkg_version) 1;
     metric_header "scirust_hub_executor_info" "Configured execution backend for this Hub daemon.";
     labelled "scirust_hub_executor_info" "backend" (escape_label (ms_executor_backend s)) 1;
     metric_header "scirust_hub_component_manifests" "Number of registered component manifest versions.";
     sample "scirust_hub_component_manifests" (ms_component_manifests s);
     metric_header "scirust_hub_run_records" "Number of persisted run records by current state."] ++
    zip_with (labelled "scirust_hub_run_records" "state") RUN_LABELS (ms_runs s) ++
    [metric_header "scirust_hub_workflow_records" "Number of persisted workflow records by current state."] ++
    zip_with (labelled "scirust_hub_workflow_records" "state") WORKFLOW_LABELS (ms_workflows s) ++
    [metric_header "scirust_hub_workflow_attempts"
       "Number of workflow step attempts currently retained in provenance.";
     sample "scirust_hub_workflow_attempts" (ms_workflow_attempts s);
     metric_header "scirust_hub_artifacts" "Number of persisted artifact metadata records.";
     sample "scirust_hub_artifacts" (ms_artifacts s);
     metric_header "scirust_hub_artifact_bytes"
       "Sum of logical artifact sizes referenced by persisted artifact metadata.";
     sample "scirust_hub_artifact_bytes" (ms_artifact_bytes s);
     metric_header "scirust_hub_lifecycle_event_high_water_sequence"
       "Highest committed store-local lifecycle event sequence, or zero when empty.";
     sample "scirust_hub_lifecycle_event_high_water_sequence" (ms_lifecycle_event_high_water s)]).

Definition collect_and_render `{JsonLib} {backend : Executor} {Store Fences Events : Type}
    `{!Repositories Store, !Listings Store, !LifecycleEventRepository Events}
    (pkg_version : string) (o : Orchestrator Store Fences) (events : Events) : Result string :=
  snapshot ← collect o events; Ok (render pkg_version snapshot).

(** ** The counts *)
Lemma count_by_lookup {A} (index : A -> nat) n (records : list A) i :
  (i < n) -> (len records <= u64_max)%N ->
  count_by index n records !! i = Some (len (List.filter (fun a => (index a =? i)%nat) records)).
Proof.
  intros Hi Hle. unfold count_by.
  assert (Hgen : forall l counts c, counts !! i = Some c -> (c + len l <= u64_max)%N ->
    foldl (fun (counts : list N) a => alter (fun c => saturating_add u64_max c 1) (index a) counts) counts l !! i =
    Some (c + len (List.filter (fun a => (index a =? i)%nat) l))%N).
  { induction l as [|a l IH]; intros counts c Hc Hb; cbn [foldl List.filter].
    - unfold len. cbn. by rewrite N.add_0_r.
    - assert (Hlen : len (a :: l) = (len l + 1)%N) by (unfold len; cbn [length]; lia). rewrite Hlen in Hb.
      destruct (Nat.eqb_spec (index a) i) as [Ei|Ei].
      + rewrite (IH _ (c + 1)%N); [|rewrite Ei, list_lookup_alter, decide_True, Hc by done; cbn [fmap option_fmap option_map]; unfold saturating_add; f_equal; lia|lia].
        f_equal. unfold len. cbn [length]. lia.
      + rewrite (IH _ c); [done|by rewrite list_lookup_alter_ne|lia]. }
  rewrite (Hgen records _ 0%N); [by rewrite N.add_0_l|by apply lookup_replicate_2|by rewrite N.add_0_l].
Qed.

Lemma saturating_sum {A} (max : N) (size : A -> N) l acc :
  (acc <= max)%N ->
  foldl (fun total a => saturating_add max total (size a)) acc l =
  N.min max (acc + foldr (fun a n => size a + n)%N 0%N l).
Proof.
  revert acc. induction l as [|a l IH]; intros acc Hle; cbn; [lia|].
  rewrite IH; unfold saturating_add; lia.
Qed.

(** No label can end its quoted text or its line: every quote, newline and
    backslash of the escaped text follows a backslash that escapes it. *)
Fixpoint well_escaped (s : string) : bool :=
  match s with
  | EmptyString => true
  | String c rest =>
      if bool_decide (c = backslash) then
        match rest with
        | String d rest' => (bool_decide (d = backslash) || bool_decide (d = quote) ||
                             bool_decide (d = "n"%char)) && well_escaped rest'
        | EmptyString => false
        end
      else negb (bool_decide (c = quote)) && negb (bool_decide (c = newline)) && well_escaped rest
  end.

Lemma escape_label_cons c s :
  escape_label (String c s) =
  if bool_decide (c = backslash) then String backslash (String backslash (escape_label s))
  else if bool_decide (c = newline) then String backslash (String "n" (escape_label s))
  else if bool_decide (c = quote) then String backslash (String quote (escape_label s))
  else String c (escape_label s).
Proof.
  unfold escape_label. cbn [replace_byte]. case_bool_decide as Hb; [by subst|].
  cbn [replace_byte]. case_bool_decide as Hn; [by subst|].
  cbn [replace_byte]. by case_bool_decide as Hq.
Qed.

Lemma escape_label_safe s : well_escaped (escape_label s) = true.
Proof.
  induction s as [|c s IH]; [done|]. rewrite escape_label_cons.
  repeat case_bool_decide; subst; cbn; try done.
  rewrite !bool_decide_eq_false_2 by done. done.
Qed.
