(* ===== verification/SqliteReads.v ===== *)
(** * The SQLite store's listings and event log as ports

    [SqliteStore] as an instance of the listing ports and of the event port
    of [Reads]. *)

From stdpp Require Import base gmap strings list.
From S2P Require Import Prelude Text Core Version Digest Machine Component Run Workflow Task TaskLifecycle.
From S2P Require Import Event Memory Ports Reads Sql SqliteStore SqliteRefine SqlitePorts SqliteMemory SqliteAnswers.

Section reads.
Context `{JsonLib, ManifestJson, WorkspaceJson, Sha256Lib, UuidLib, Environment}.
Context `{SerdeJson ComponentManifest, SerdeJson RunRecord, SerdeJson TaskRecord, SerdeJson ArtifactMeta,
          SerdeJson WorkflowRecord, SerdeJson (gmap string string)}.
Context `{!SerdeJsonLaws ComponentManifest, !SerdeJsonLaws RunRecord, !SerdeJsonLaws TaskRecord,
          !SerdeJsonLaws ArtifactMeta, !SerdeJsonLaws WorkflowRecord, !SerdeJsonLaws (gmap string string)}.
Context {UT : UuidText} {UTL : UuidTextLaws}.

#[global] Instance SqliteListings : Listings SqliteStore := {|
  runs_list d := SqliteStore_list_runs (db_tables d);
  artifacts_list d := SqliteStore_list_artifacts (db_tables d) |}.

#[global] Instance SqliteLog : LifecycleEventRepository SqliteStore := {|
  list_after d := SqliteStore_list_after (db_tables d);
  high_water_sequence d := SqliteStore_high_water_sequence (db_tables d);
  holds_log d l := exists h, represents (db_tables d) h /\ hs_events h = l |}.

(** A listing of a table whose rows decode to records of their own key. *)
Lemma table_lists {A} {k : IdKind} {Row} `{SerdeJson A} (text_of : Row -> string) (context : string)
    (column : Row -> N) (t : gmap string Row) (id_of : A -> uuid_id k) l :
  table_ok text_of (fun a => id_to_string (id_of a)) t ->
  table_list text_of context column t = Ok l ->
  lists (fun t i => table_get text_of context t (id_to_string i)) id_of t l.
Proof using UTL.
  intros Hok Hl. split.
  - destruct (table_list_spec text_of (fun a => id_to_string (id_of a)) context column _ Hok) as (l' & Hl' & Hp & _).
    rewrite Hl in Hl'. injection Hl' as <-. apply (NoDup_fmap_1 (id_to_string (k := k))).
    rewrite <- list_fmap_compose. change (NoDup ((fun a => id_to_string (id_of a)) <$> l)). rewrite Hp.
    apply NoDup_map_keys.
  - intros a. exact (table_list_elem text_of (fun a => id_to_string (id_of a)) _ _ _ _ a Hok Hl).
Qed.

#[global] Instance SqliteListingsLaws : ListingsLaws SqliteStore.
Proof using UTL.
  split; intros d l Hok Hl.
  - apply (table_lists rcr_record_json run_failed rcr_created_at (tb_runs (db_tables d)) run_id l);
      [apply Hok|exact Hl].
  - apply (table_lists arr_meta_json artifact_failed arr_created_at (tb_artifact_meta (db_tables d)) art_id l);
      [apply (so_artifact_table _ Hok)|exact Hl].
Qed.

#[global] Instance SqliteLogLaws : LifecycleEventLaws SqliteStore.
Proof.
  split.
  - intros d l after limit (h & Hrep & <-) Hlt. apply page_agrees; [done|]. unfold i64_max. lia.
  - intros d l (h & Hrep & <-). by apply high_water_agrees.
Qed.
End reads.
