(* ===== verification/Wire.v ===== *)
(** * The wire protocol ([hub-protocol/src/lib.rs])

    The payloads the HTTP API exchanges with its clients and their conversions
    from and to the domain types.  The JSON encoding of a payload is derived
    by the crate [serde]; a payload is modelled as the record it encodes. *)

From stdpp Require Import base gmap strings list pretty.
From S2P Require Import Prelude Text Core Version Digest Component Run Workflow Publication Event.

(** ** Versions and errors *)
Definition PROTOCOL_VERSION : N := 1.

Inductive ProtocolError := UnsupportedSchemaVersion (found expected : N).

Definition check_schema_version (found : N) : result ProtocolError unit :=
  if (found =? PROTOCOL_VERSION)%N then Ok tt
  else Err (UnsupportedSchemaVersion found PROTOCOL_VERSION).

Inductive ErrorCode :=
| EcBadRequest
| EcUnauthorized
| EcForbidden
| EcUnsupportedSchemaVersion
| EcValidation
| EcNotFound
| EcConflict
| EcInternal.

#[global] Instance ErrorCode_eq_dec : EqDecision ErrorCode.
Proof. solve_decision. Defined.

Definition ErrorCode_as_str (c : ErrorCode) : string :=
  match c with
  | EcBadRequest => "bad_request"
  | EcUnauthorized => "unauthorized"
  | EcForbidden => "forbidden"
  | EcUnsupportedSchemaVersion => "unsupported_schema_version"
  | EcValidation => "validation_failed"
  | EcNotFound => "not_found"
  | EcConflict => "conflict"
  | EcInternal => "internal"
  end.

(** The hand-written [Deserialize]: [None] is [unknown_variant]. *)
Definition ErrorCode_deserialize (raw : string) : option ErrorCode :=
  if bool_decide (raw = "bad_request") then Some EcBadRequest
  else if bool_decide (raw = "unauthorized") then Some EcUnauthorized
  else if bool_decide (raw = "forbidden") then Some EcForbidden
  else if bool_decide (raw = "unsupported_schema_version") then Some EcUnsupportedSchemaVersion
  else if bool_decide (raw = "validation_failed") then Some EcValidation
  else if bool_decide (raw = "not_found") then Some EcNotFound
  else if bool_decide (raw = "conflict") then Some EcConflict
  else if bool_decide (raw = "internal") then Some EcInternal
  else None.

Record ErrorBody := {
  eb_code : ErrorCode;
  eb_message : string;
  eb_details : gmap string string;
}.

Record ErrorEnvelope := { ee_error : ErrorBody }.

Definition ErrorEnvelope_new (code : ErrorCode) (message : string) : ErrorEnvelope :=
  {| ee_error := {| eb_code := code; eb_message := message; eb_details := ∅ |} |}.

Definition ErrorEnvelope_with_details (code : ErrorCode) (message : string)
    (details : gmap string string) : ErrorEnvelope :=
  {| ee_error := {| eb_code := code; eb_message := message; eb_details := details |} |}.

(** ** Health *)
Record HealthResponse := { hr_status : string; hr_protocol_version : N }.

Record ReadyResponse := {
  rr_ready : bool;
  rr_components_registered : N;
  rr_runs_recorded : N;
  rr_executor_backend : string;
}.

(** ** Components *)
Record PortDto := { pd_name : string; pd_description : string }.

Record CapabilityDto := {
  cd_name : CapabilityName;
  cd_contract_version : Version;
  cd_inputs : list PortDto;
  cd_outputs : list PortDto;
  cd_properties : gmap string string;
}.

Record ComponentManifestDto := {
  md_id : ComponentId;
  md_name : ComponentName;
  md_version : Version;
  md_kind : ComponentKind;
  md_capabilities : list CapabilityDto;
  md_execution : option ExecutionBinding;
  md_source : option SourceInfo;
  md_metadata : gmap string string;
}.

Record RegisterComponentRequest := {
  rcq_schema_version : N;
  rcq_manifest : ComponentManifestDto;
}.

Record ComponentDto := {
  cp_id : ComponentId;
  cp_name : ComponentName;
  cp_version : Version;
  cp_kind : ComponentKind;
  cp_capabilities : list CapabilityDto;
  cp_execution : option ExecutionBinding;
  cp_source : option SourceInfo;
  cp_metadata : gmap string string;
  cp_manifest_digest : string;
}.

Record RegisterComponentResponse := {
  rcs_status : string;
  rcs_component : ComponentDto;
  rcs_manifest_digest : string;
}.

Record CapabilitySummaryDto := {
  cs_name : CapabilityName;
  cs_declared_by : N;
  cs_contract_version : Version;
}.

(** ** Artifacts and events *)
Record ArtifactDto := {
  ad_id : ArtifactId;
  ad_name : string;
  ad_media_type : string;
  ad_digest : ContentDigest;
  ad_size : N;
  ad_created_at : N;
  ad_produced_by_run : option RunId;
  ad_content_text : option string;
}.

Record ArtifactPortableDigestDto := {
  apd_id : ArtifactId;
  apd_hub_digest : ContentDigest;
  apd_raw_sha256 : RawSha256;
  apd_size : N;
}.

Record LifecycleEventDto := {
  led_sequence : N;
  led_recorded_at : N;
  led_kind : LifecycleEventKind;
  led_entity_type : LifecycleEntityType;
  led_entity_id : string;
  led_attributes : gmap string string;
}.

Record LifecycleEventListResponse := {
  lel_events : list LifecycleEventDto;
  lel_next_after : N;
}.

Definition LifecycleEventDto_from (event : LifecycleEvent) : LifecycleEventDto :=
  {| led_sequence := ev_sequence event; led_recorded_at := ev_recorded_at event;
     led_kind := ev_kind event; led_entity_type := ev_entity_type event;
     led_entity_id := ev_entity_id event; led_attributes := ev_attributes event |}.

Definition ArtifactDto_from (m : ArtifactMeta) : ArtifactDto :=
  {| ad_id := art_id m; ad_name := art_name m; ad_media_type := art_media_type m;
     ad_digest := art_digest m; ad_size := art_size m; ad_created_at := art_created_at m;
     ad_produced_by_run := art_produced_by_run m; ad_content_text := None |}.

(** ** Publications *)
Record AuthoritativeStepPublicationDto := {
  apo_schema_version : N;
  apo_workflow : WorkflowId;
  apo_step_key : string;
  apo_attempt : AttemptId;
  apo_generation : N;
  apo_outputs : gmap string ArtifactId;
}.

Definition AuthoritativeStepPublicationDto_from (p : AuthoritativeStepPublication)
    : AuthoritativeStepPublicationDto :=
  {| apo_schema_version := pf_schema_version (asp_fence p);
     apo_workflow := pf_workflow (asp_fence p); apo_step_key := pf_step_key (asp_fence p);
     apo_attempt := pf_attempt (asp_fence p); apo_generation := pf_generation (asp_fence p);
     apo_outputs := asp_outputs p |}.

(** ** Conversions of capabilities and manifests *)
Definition PortDto_from (p : Port) : PortDto :=
  {| pd_name := port_name p; pd_description := port_description p |}.
Definition Port_from_dto (p : PortDto) : Port :=
  {| port_name := pd_name p; port_description := pd_description p |}.

Definition CapabilityDto_from (c : Capability) : CapabilityDto :=
  {| cd_name := cap_name c; cd_contract_version := cap_contract_version c;
     cd_inputs := PortDto_from <$> cap_inputs c; cd_outputs := PortDto_from <$> cap_outputs c;
     cd_properties := cap_properties c |}.

Definition Capability_from_dto (d : CapabilityDto) : Capability :=
  {| cap_name := cd_name d; cap_contract_version := cd_contract_version d;
     cap_inputs := Port_from_dto <$> cd_inputs d; cap_outputs := Port_from_dto <$> cd_outputs d;
     cap_properties := cd_properties d |}.

Definition ComponentManifestDto_from (m : ComponentManifest) : ComponentManifestDto :=
  {| md_id := m_id m; md_name := m_name m; md_version := m_version m; md_kind := m_kind m;
     md_capabilities := CapabilityDto_from <$> m_capabilities m; md_execution := m_execution m;
     md_source := m_source m; md_metadata := m_metadata m |}.

Definition ComponentManifest_from_dto (d : ComponentManifestDto) : ComponentManifest :=
  {| m_schema_version := PROTOCOL_VERSION; m_id := md_id d; m_name := md_name d;
     m_version := md_version d; m_kind := md_kind d;
     m_capabilities := Capability_from_dto <$> md_capabilities d; m_execution := md_execution d;
     m_source := md_source d; m_metadata := md_metadata d |}.

(** [content_digest().map(|d| d.to_string()).unwrap_or_default()]. *)
Definition digest_text `{ManifestJson, Sha256Lib} (m : ComponentManifest) : string :=
  match ComponentManifest_content_digest m with Ok d => ContentDigest_to_hex d | Err _ => "" end.

Definition ComponentDto_from `{ManifestJson, Sha256Lib} (m : ComponentManifest) : ComponentDto :=
  {| cp_id := m_id m; cp_name := m_name m; cp_version := m_version m; cp_kind := m_kind m;
     cp_capabilities := CapabilityDto_from <$> m_capabilities m; cp_execution := m_execution m;
     cp_source := m_source m; cp_metadata := m_metadata m; cp_manifest_digest := digest_text m |}.

(** ** Runs *)
Record TransitionDto := { td_from : RunState; td_to : RunState; td_at : N }.

Record InputProvenanceDto := {
  ipd_name : string;
  ipd_artifact : ArtifactId;
  ipd_digest : ContentDigest;
  ipd_size : N;
}.

Record OutputRefDto := {
  ord_name : string;
  ord_artifact : ArtifactId;
  ord_digest : ContentDigest;
  ord_size : N;
}.

Record RunOutcomeDto := {
  od_exit_code : option Z;
  od_signal : option Z;
  od_timed_out : bool;
  od_cancelled : bool;
  od_executor_backend : string;
  od_duration_ms : N;
  od_inputs : list InputProvenanceDto;
  od_outputs : list OutputRefDto;
  od_env_keys : list string;
  od_params_digest : ContentDigest;
  od_failure : option string;
}.

Record CancelRunResponse := { crr_run_id : RunId; crr_signalled_active_execution : bool }.

Definition RunOutcomeDto_from (o : RunOutcome) : RunOutcomeDto :=
  {| od_exit_code := ro_exit_code o; od_signal := ro_signal o; od_timed_out := ro_timed_out o;
     od_cancelled := ro_cancelled o; od_executor_backend := ro_executor_backend o;
     od_duration_ms := ro_duration_ms o;
     od_inputs := (fun i => {| ipd_name := ip_name i; ipd_artifact := ip_artifact i;
                               ipd_digest := ip_digest i; ipd_size := ip_size i |}) <$> ro_inputs o;
     od_outputs := (fun r => {| ord_name := or_name r; ord_artifact := or_artifact r;
                                ord_digest := or_digest r; ord_size := or_size r |}) <$> ro_outputs o;
     od_env_keys := ro_env_keys o; od_params_digest := ro_params_digest o;
     od_failure := ro_failure o |}.

Section json.
Context `{JsonLib}.

Record RunSpecDto := {
  rsd_component : ComponentId;
  rsd_capability : CapabilityName;
  rsd_parameters : gmap string Value;
  rsd_inputs : list InputBinding;
  rsd_timeout_ms : N;
}.

Record SubmitRunRequest := { srq_schema_version : N; srq_run_spec : RunSpecDto }.

Record RunDto := {
  rd_id : RunId;
  rd_state : RunState;
  rd_spec : RunSpecDto;
  rd_component_name : string;
  rd_component_version : Version;
  rd_contract_version : Version;
  rd_created_at : N;
  rd_started_at : option N;
  rd_finished_at : option N;
  rd_transitions : list TransitionDto;
  rd_outcome : option RunOutcomeDto;
  rd_reproduced_from : option RunId;
}.

Definition RunSpecDto_from (s : RunSpec) : RunSpecDto :=
  {| rsd_component := spec_component s; rsd_capability := spec_capability s;
     rsd_parameters := spec_parameters s; rsd_inputs := spec_inputs s;
     rsd_timeout_ms := spec_timeout_ms s |}.

Definition RunSpec_from_dto (d : RunSpecDto) : RunSpec :=
  {| spec_component := rsd_component d; spec_capability := rsd_capability d;
     spec_parameters := rsd_parameters d; spec_inputs := rsd_inputs d;
     spec_timeout_ms := rsd_timeout_ms d |}.

Definition RunDto_from (r : RunRecord) : RunDto :=
  {| rd_id := run_id r; rd_state := run_state r; rd_spec := RunSpecDto_from (run_spec r);
     rd_component_name := run_component_name r; rd_component_version := run_component_version r;
     rd_contract_version := run_contract_version r; rd_created_at := run_created_at r;
     rd_started_at := run_started_at r; rd_finished_at := run_finished_at r;
     rd_transitions := (fun t => {| td_from := tr_from t; td_to := tr_to t; td_at := tr_at t |})
                         <$> run_transitions r;
     rd_outcome := RunOutcomeDto_from <$> run_outcome r;
     rd_reproduced_from := run_reproduced_from r |}.

(** ** Workflows *)
Record StepAttemptDto := {
  sad_id : AttemptId;
  sad_number : N;
  sad_run : RunId;
  sad_state : RunState;
  sad_started_at : option N;
  sad_finished_at : option N;
  sad_failure_category : option AttemptFailureCategory;
  sad_failure : option string;
}.

Record StepResultDto := {
  srd_key : string;
  srd_run : RunId;
  srd_state : RunState;
  srd_failure : option string;
  srd_attempts : list StepAttemptDto;
}.

Record SubmitWorkflowRequest := {
  swq_schema_version : N;
  swq_workflow : WorkflowSpec;
  swq_admission : option WorkflowAdmissionPins;
}.

Record WorkflowDto := {
  wd_id : WorkflowId;
  wd_name : string;
  wd_spec : option WorkflowSpec;
  wd_state : WorkflowState;
  wd_admission : option WorkflowAdmissionPins;
  wd_model_version : Version;
  wd_created_at : N;
  wd_started_at : option N;
  wd_finished_at : option N;
  wd_cancel_requested_at : option N;
  wd_steps : list StepResultDto;
  wd_failure : option string;
}.

Record CancelWorkflowResponse := {
  cwr_workflow_id : WorkflowId;
  cwr_signalled_active_execution : bool;
}.

Definition StepAttemptDto_from (a : StepAttempt) : StepAttemptDto :=
  {| sad_id := sa_id a; sad_number := sa_number a; sad_run := sa_run a; sad_state := sa_state a;
     sad_started_at := sa_started_at a; sad_finished_at := sa_finished_at a;
     sad_failure_category := sa_failure_category a; sad_failure := sa_failure a |}.

Definition StepResultDto_from (s : StepResult) : StepResultDto :=
  {| srd_key := sr_key s; srd_run := sr_run s; srd_state := sr_state s; srd_failure := sr_failure s;
     srd_attempts := StepAttemptDto_from <$> sr_attempts s |}.

Definition WorkflowDto_from (w : WorkflowRecord) : WorkflowDto :=
  {| wd_id := wr_id w; wd_name := ws_name (wr_spec w); wd_spec := Some (wr_spec w);
     wd_state := wr_state w; wd_admission := wr_admission w; wd_model_version := wr_model_version w;
     wd_created_at := wr_created_at w; wd_started_at := wr_started_at w;
     wd_finished_at := wr_finished_at w; wd_cancel_requested_at := wr_cancel_requested_at w;
     wd_steps := StepResultDto_from <$> wr_steps w; wd_failure := wr_failure w |}.
End json.

(** ** Round trips *)
Lemma port_dto_roundtrip p : Port_from_dto (PortDto_from p) = p.
Proof. by destruct p. Qed.

Lemma dto_port_roundtrip p : PortDto_from (Port_from_dto p) = p.
Proof. by destruct p. Qed.

(** A field-wise conversion of a list undone by the other one. *)
Lemma fmap_cancel {A B} (f : A -> B) (g : B -> A) (l : list A) :
  (forall x, g (f x) = x) -> g <$> (f <$> l) = l.
Proof. intros Hgf. induction l as [|x l IH]; cbn; [done|]. by rewrite Hgf, IH. Qed.

Lemma capability_dto_roundtrip c : Capability_from_dto (CapabilityDto_from c) = c.
Proof.
  destruct c. unfold Capability_from_dto, CapabilityDto_from. cbn.
  by rewrite !(fmap_cancel _ _ _ port_dto_roundtrip).
Qed.

Lemma dto_capability_roundtrip d : CapabilityDto_from (Capability_from_dto d) = d.
Proof.
  destruct d. unfold Capability_from_dto, CapabilityDto_from. cbn.
  by rewrite !(fmap_cancel _ _ _ dto_port_roundtrip).
Qed.

Lemma dto_manifest_roundtrip d : ComponentManifestDto_from (ComponentManifest_from_dto d) = d.
Proof.
  destruct d. unfold ComponentManifestDto_from, ComponentManifest_from_dto. cbn.
  by rewrite (fmap_cancel _ _ _ dto_capability_roundtrip).
Qed.

Lemma manifest_dto_roundtrip m :
  m_schema_version m = PROTOCOL_VERSION -> ComponentManifest_from_dto (ComponentManifestDto_from m) = m.
Proof.
  intros Hv. destruct m. unfold ComponentManifestDto_from, ComponentManifest_from_dto. cbn in *. subst.
  by rewrite (fmap_cancel _ _ _ capability_dto_roundtrip).
Qed.

Lemma run_spec_dto_roundtrip `{JsonLib} s : RunSpec_from_dto (RunSpecDto_from s) = s.
Proof. by destruct s. Qed.

Lemma dto_run_spec_roundtrip `{JsonLib} d : RunSpecDto_from (RunSpec_from_dto d) = d.
Proof. by destruct d. Qed.

Lemma error_code_parse raw c : ErrorCode_deserialize raw = Some c <-> raw = ErrorCode_as_str c.
Proof.
  split; [|intros ->; by destruct c]. unfold ErrorCode_deserialize.
  repeat case_bool_decide; intros Hc; try discriminate Hc; injection Hc as <-; done.
Qed.

(** The manifest a client describes is the manifest the registry sees, and
    the registry's own schema version is the protocol's: a manifest that the
    domain accepts survives the way to the wire and back unchanged, a request
    and the manifest it stands for determine each other, and the same holds
    for the specification of a run and for the codes of errors. *)
Lemma wire_roundtrip `{JsonLib} :
  (forall m, ComponentManifest_validate m = Ok tt ->
     ComponentManifest_from_dto (ComponentManifestDto_from m) = m) /\
  (forall d, ComponentManifestDto_from (ComponentManifest_from_dto d) = d) /\
  (forall s, RunSpec_from_dto (RunSpecDto_from s) = s) /\
  (forall d, RunSpecDto_from (RunSpec_from_dto d) = d) /\
  (forall raw c, ErrorCode_deserialize raw = Some c <-> raw = ErrorCode_as_str c).
Proof.
  split_and!.
  - intros m (Hv & _)%ComponentManifest_validate_Ok. by apply manifest_dto_roundtrip.
  - apply dto_manifest_roundtrip.
  - apply run_spec_dto_roundtrip.
  - apply dto_run_spec_roundtrip.
  - apply error_code_parse.
Qed.
