(* ===== verification/Auth.v ===== *)
(** * Bearer authentication and permissions ([hub-api/src/auth.rs])

    Static principals, each known by the SHA-256 of its bearer token, what
    they may do, and which permission a request needs. *)

From stdpp Require Import base gmap strings list.
From S2P Require Import Prelude Text Core Digest Machine Blobs.

(** ** Permissions *)
Inductive AuthPermission := Inspect | Control | Metrics.

#[global] Instance AuthPermission_eq_dec : EqDecision AuthPermission.
Proof. solve_decision. Defined.

Definition AuthPermission_as_str (p : AuthPermission) : string :=
  match p with Inspect => "inspect" | Control => "control" | Metrics => "metrics" end.

Definition AuthPermission_parse (raw : string) : option AuthPermission :=
  if bool_decide (raw = "inspect") then Some Inspect
  else if bool_decide (raw = "control") then Some Control
  else if bool_decide (raw = "metrics") then Some Metrics
  else None.

Definition AuthPermission_ALL : list AuthPermission := [Inspect; Control; Metrics].

Lemma AuthPermission_parse_Some raw p :
  AuthPermission_parse raw = Some p <-> raw = AuthPermission_as_str p.
Proof.
  split; [|intros ->; by destruct p]. unfold AuthPermission_parse.
  repeat case_bool_decide; intros Hp; try discriminate Hp; injection Hp as <-; done.
Qed.

#[global] Program Instance AuthPermission_countable : Countable AuthPermission :=
  inj_countable AuthPermission_as_str AuthPermission_parse _.
Next Obligation. intros p. by apply AuthPermission_parse_Some. Qed.

(** HTTP methods, as far as the sources look at them. *)
Inductive Method := GET | HEAD | POST | OtherMethod (name : string).

#[global] Instance Method_eq_dec : EqDecision Method.
Proof. solve_decision. Defined.

Definition required_permission (method : Method) (path : string) : AuthPermission :=
  if bool_decide (path = "/metrics") then Metrics
  else if bool_decide (method = GET) || bool_decide (method = HEAD) then Inspect
  else Control.

(** ** Principals *)
Inductive AuthConfigError :=
| EmptyPrincipalSet
| InvalidPrincipalId (principal_id : string)
| EmptyCredential (principal_id : string)
| EmptyPermissions (principal_id : string)
| DuplicatePermission (principal_id : string) (permission : AuthPermission)
| DuplicatePrincipalId (principal_id : string)
| DuplicateCredential.

#[global] Instance AuthConfigError_eq_dec : EqDecision AuthConfigError.
Proof. solve_decision. Defined.

Record StaticPrincipal := {
  sp_id : string;
  sp_token_sha256 : list N;
  sp_permissions : gset AuthPermission;
}.

Definition principal_id_byte (b : N) : bool :=
  is_ascii_lowercase b || is_ascii_digit b || (b =? 45)%N || (b =? 95)%N || (b =? 46)%N.

Definition validate_principal_id (id : string) : result AuthConfigError unit :=
  ensure ((1 <=? slen id)%N && (slen id <=? 64)%N && forallb principal_id_byte (bytes id))
    (InvalidPrincipalId id).

Section auth.
Context `{Sha256Lib}.

(** [Sha256::digest(token.as_bytes())]. *)
Definition token_digest (token : string) : list N :=
  sha_finalize (sha_update sha_new (bytes token)).

Definition StaticPrincipal_new (id token : string) (permissions : list AuthPermission)
    : result AuthConfigError StaticPrincipal :=
  _ ← validate_principal_id id;
  _ ← ensure (negb (bool_decide (token = ""))) (EmptyCredential id);
  permission_set ← foldM (fun seen permission =>
      insert_seen seen permission (DuplicatePermission id permission))
    (∅ : gset AuthPermission) permissions;
  _ ← ensure (negb (bool_decide (permission_set = ∅))) (EmptyPermissions id);
  Ok {| sp_id := id; sp_token_sha256 := token_digest token; sp_permissions := permission_set |}.

Definition StaticPrincipal_permits (p : StaticPrincipal) (permission : AuthPermission) : bool :=
  bool_decide (permission ∈ sp_permissions p).

Definition validate_static_principals (principals : list StaticPrincipal)
    : result AuthConfigError unit :=
  _ ← ensure (negb (bool_decide (length principals = 0))) EmptyPrincipalSet;
  _ ← foldM (fun '(ids, digests) principal =>
      ids ← insert_seen ids (sp_id principal) (DuplicatePrincipalId (sp_id principal));
      digests ← insert_seen digests (sp_token_sha256 principal) DuplicateCredential;
      Ok (ids, digests))
    (∅ : gset string, ∅ : gset (list N)) principals;
  Ok tt.

(** The comparison that looks at every byte. *)
Definition digest_eq (left right : list N) : bool :=
  (foldl (fun difference '(a, b) => N.lor difference (N.lxor a b)) 0 (zip left right) =? 0)%N.

(** The loop does not stop at a match: the last one wins. *)
Definition authenticate (principals : list StaticPrincipal) (token : string)
    : option StaticPrincipal :=
  let supplied := token_digest token in
  foldl (fun matched principal =>
    if digest_eq (sp_token_sha256 principal) supplied then Some principal else matched)
    None principals.

(** ** Comparing digests *)
Lemma lor_fold_zero (l : list (N * N)) acc :
  foldl (fun d '(a, b) => N.lor d (N.lxor a b)) acc l = 0%N <->
  acc = 0%N /\ Forall (fun '(a, b) => a = b) l.
Proof.
  revert acc. induction l as [|[a b] l IH]; intros acc; cbn.
  - split; [by intros ->|by intros []].
  - rewrite IH, N.lor_eq_0_iff, N.lxor_eq_0_iff, Forall_cons. tauto.
Qed.

Lemma digest_eq_spec left right :
  length left = length right -> digest_eq left right = true <-> left = right.
Proof.
  intros Hlen. unfold digest_eq. rewrite N.eqb_eq, lor_fold_zero. split; [|intros ->].
  - intros [_ Hall]. revert right Hlen Hall. induction left as [|a l IH]; intros [|b r] Hlen; try done.
    cbn. intros [-> Hall]%Forall_cons. f_equal. apply IH; [by injection Hlen|done].
  - split; [done|]. clear Hlen. induction right as [|b r IH]; cbn; by constructor.
Qed.

(** ** Configurations *)
Context `{!Sha256Laws}.

Definition principal_wf (p : StaticPrincipal) : Prop :=
  length (sp_token_sha256 p) = 32 /\ sp_permissions p <> ∅.

Lemma length_token_digest token : length (token_digest token) = 32.
Proof. apply sha_finalize_len. Qed.

Lemma StaticPrincipal_new_Ok id token permissions p :
  StaticPrincipal_new id token permissions = Ok p <->
  validate_principal_id id = Ok tt /\ token <> "" /\ permissions <> [] /\ NoDup permissions /\
  p = {| sp_id := id; sp_token_sha256 := token_digest token;
         sp_permissions := list_to_set permissions |}.
Proof.
  unfold StaticPrincipal_new.
  rewrite (foldM_ext _ (fun seen x => _ ← Ok tt; insert_seen seen x (DuplicatePermission id x))) by done.
  destruct (validate_principal_id id) as [[]|e]; cbn [mbind result_bind]; [|split; [done|by intros []]].
  rewrite !bind_Ok. setoid_rewrite ensure_Ok. setoid_rewrite bind_Ok. setoid_rewrite bind_Ok.
  setoid_rewrite ensure_Ok. setoid_rewrite (foldM_unique_Ok (fun _ => Ok tt) (fun x => x)).
  setoid_rewrite list_fmap_id. split.
  - intros ([] & Hne & seen & (_ & Hnd & _ & ->) & [] & Hs & [= <-]). bool_inv.
    rewrite (right_id_L ∅ _) in *. split_and!; try done. by intros ->.
  - intros (_ & Hne & Hps & Hnd & ->). exists tt. split; [by apply negb_true_iff, bool_decide_eq_false|].
    exists (list_to_set permissions). split.
    + rewrite (right_id_L ∅ _). split_and!; [by apply Forall_true|done|set_solver|done].
    + exists tt. split; [|done]. apply negb_true_iff, bool_decide_eq_false.
      destruct permissions as [|x l]; [done|set_solver].
Qed.

(** *** Authentication *)
Lemma authenticate_loop (token : string) l acc :
  (forall p, p ∈ l -> principal_wf p) ->
  let r := foldl (fun matched principal =>
    if digest_eq (sp_token_sha256 principal) (token_digest token) then Some principal else matched) acc l in
  (r = acc /\ (forall p, p ∈ l -> sp_token_sha256 p <> token_digest token)) \/
  exists p, r = Some p /\ p ∈ l /\ sp_token_sha256 p = token_digest token.
Proof using Type*.
  revert acc. induction l as [|p l IH]; intros acc Hwf; cbn.
  - left. split; [done|]. set_solver.
  - assert (Hlen : length (sp_token_sha256 p) = length (token_digest token)).
    { rewrite length_token_digest. apply (Hwf p). left. }
    pose proof (digest_eq_spec _ _ Hlen) as Heq.
    destruct (IH (if digest_eq (sp_token_sha256 p) (token_digest token) then Some p else acc))
      as [[-> Hn]|(q & -> & Hq & Hd)]; [intros q ?; apply Hwf; by right| |].
    + destruct (digest_eq _ _).
      * right. exists p. split_and!; [done|left|by apply Heq].
      * left. split; [done|]. intros q [->|Hq]%elem_of_cons; [|by apply Hn].
        intros E. by apply Heq in E.
    + right. exists q. split_and!; [done|by right|done].
Qed.

Lemma authenticate_Some principals token p :
  (forall q, q ∈ principals -> principal_wf q) ->
  authenticate principals token = Some p -> p ∈ principals /\ sp_token_sha256 p = token_digest token.
Proof using Type*.
  intros Hwf Ha. destruct (authenticate_loop token principals None Hwf) as [[E _]|(q & E & Hq & Hd)];
    unfold authenticate in Ha; rewrite E in Ha; [done|]. by injection Ha as <-.
Qed.

Lemma authenticate_None principals token :
  (forall q, q ∈ principals -> principal_wf q) ->
  authenticate principals token = None <-> forall q, q ∈ principals -> sp_token_sha256 q <> token_digest token.
Proof using Type*.
  intros Hwf. unfold authenticate.
  destruct (authenticate_loop token principals None Hwf) as [[-> Hn]|(q & -> & Hq & Hd)]; [done|].
  split; [done|]. intros Hn. by destruct (Hn q).
Qed.

(** The principals a configuration lists: identity, token, permissions. *)
Definition configured (entries : list (string * string * list AuthPermission))
    (principals : list StaticPrincipal) : Prop :=
  Forall2 (fun '(id, token, permissions) p => StaticPrincipal_new id token permissions = Ok p)
    entries principals /\ validate_static_principals principals = Ok tt.

Lemma configured_wf entries principals p :
  configured entries principals -> p ∈ principals -> principal_wf p.
Proof using Type*.
  intros [Hall _] (i & Hp)%list_elem_of_lookup_1.
  destruct (Forall2_lookup_r _ _ _ _ _ Hall Hp) as ([[id token] permissions] & _ & Hnew).
  apply StaticPrincipal_new_Ok in Hnew as (_ & _ & Hne & _ & ->). split; [apply length_token_digest|].
  cbn. destruct permissions; [done|set_solver].
Qed.
End auth.

(** A set of principals is accepted exactly when it is not empty and no two
    share an identity or a credential. *)
Lemma validate_static_principals_Ok principals :
  validate_static_principals principals = Ok tt <->
  principals <> [] /\ NoDup (sp_id <$> principals) /\ NoDup (sp_token_sha256 <$> principals).
Proof.
  unfold validate_static_principals. rewrite bind_Ok. setoid_rewrite ensure_Ok.
  set (step := fun '(ids, digests) principal => _).
  assert (Hfold : forall l ids digests x,
    foldM step (ids, digests) l = Ok x <->
    NoDup (sp_id <$> l) /\ NoDup (sp_token_sha256 <$> l) /\
    (forall p, p ∈ l -> sp_id p ∉ ids /\ sp_token_sha256 p ∉ digests) /\
    x = (list_to_set (sp_id <$> l) ∪ ids, list_to_set (sp_token_sha256 <$> l) ∪ digests)).
  { induction l as [|p l IH]; intros ids digests x; cbn [foldM fmap list_fmap].
    - cbn [list_to_set foldr]. rewrite (left_id_L ∅ (∪) ids), (left_id_L ∅ (∪) digests).
      split; [|by intros (_ & _ & _ & ->)]. intros [= <-].
      split_and!; [constructor|constructor|set_solver|done].
    - rewrite bind_Ok. unfold step at 1. setoid_rewrite bind_Ok. setoid_rewrite bind_Ok.
      setoid_rewrite insert_seen_Ok. rewrite !NoDup_cons. split.
      + intros (q & (ids' & [Hi ->] & dg' & [Hd ->] & [= <-]) & (Hnd1 & Hnd2 & Hn & ->)%IH).
        assert (forall p', p' ∈ l -> sp_id p' <> sp_id p /\ sp_token_sha256 p' <> sp_token_sha256 p) as Hnp
          by (intros p' [? ?]%Hn; set_solver).
        split_and!; try done.
        * intros (p' & He & Hp')%list_elem_of_fmap. by destruct (Hnp p' Hp').
        * intros (p' & He & Hp')%list_elem_of_fmap. by destruct (Hnp p' Hp').
        * intros p' [->|Hp']%elem_of_cons; [done|]. apply Hn in Hp'. set_solver.
        * f_equal; set_solver.
      + intros ([Hi1 Hi2] & [Hd1 Hd2] & Hn & ->).
        assert (sp_id p ∉ ids /\ sp_token_sha256 p ∉ digests) as [Hp1 Hp2] by (apply Hn; left).
        exists ({[sp_id p]} ∪ ids, {[sp_token_sha256 p]} ∪ digests). split.
        * exists ({[sp_id p]} ∪ ids). split; [done|]. by exists ({[sp_token_sha256 p]} ∪ digests).
        * apply IH. split_and!; try done; [|f_equal; set_solver].
          intros p' Hp'. pose proof (list_elem_of_fmap_2 sp_id _ _ Hp').
          pose proof (list_elem_of_fmap_2 sp_token_sha256 _ _ Hp').
          destruct (Hn p') as [? ?]; [by right|]. set_solver. }
  split.
  - intros ([] & Hne & (x & (Hi & Hd & _)%Hfold & _)%bind_Ok). bool_inv.
    split_and!; try done. by intros ->.
  - intros (Hne & Hi & Hd). exists tt. split.
    + apply negb_true_iff, bool_decide_eq_false. by intros ->%nil_length_inv.
    + apply bind_Ok. eexists. split; [|done]. apply Hfold. by split_and!.
Qed.

(** Authentication is exact.  With a configuration that was accepted,
    each configured token authenticates its own principal, with the
    permissions listed for it and no others; a token that authenticates as a
    principal is that principal's token, or SHA-256 collides on the two; and no token
    is empty, no principal without permissions. *)
Theorem authentication_exact `{Sha256Lib, !Sha256Laws} entries principals supplied :
  configured entries principals ->
  (forall id token permissions, (id, token, permissions) ∈ entries ->
     token <> "" /\ permissions <> [] /\
     exists p, authenticate principals token = Some p /\ sp_id p = id /\
       forall x, StaticPrincipal_permits p x = true <-> x ∈ permissions) /\
  (forall p, authenticate principals supplied = Some p ->
     exists token permissions, (sp_id p, token, permissions) ∈ entries /\
       (token = supplied \/ sha_collide (bytes token) (bytes supplied))).
Proof.
  intros Hc. pose proof (fun p => configured_wf entries principals p Hc) as Hwf.
  destruct Hc as [Hall (_ & Hids & Hdg)%validate_static_principals_Ok].
  split.
  - intros id token permissions (i & Hi)%list_elem_of_lookup_1.
    destruct (Forall2_lookup_l _ _ _ _ _ Hall Hi) as (p & Hp & Hnew). cbn in Hnew.
    apply StaticPrincipal_new_Ok in Hnew as (_ & Ht & Hne & _ & Ep). split; [done|]. split; [done|].
    exists p. split; [|subst p; split; [done|]].
    + destruct (authenticate principals token) as [q|] eqn:Ea.
      * apply (authenticate_Some _ _ _ Hwf) in Ea as [(j & Hq)%list_elem_of_lookup_1 Hd]. do 2 f_equal.
        assert (i = j) as <-; [|congruence].
        apply (NoDup_lookup _ _ _ (token_digest token) Hdg); rewrite list_lookup_fmap.
        -- by rewrite Hp, Ep.
        -- by rewrite Hq, <- Hd.
      * destruct (proj1 (authenticate_None _ _ Hwf) Ea p); [by eapply list_elem_of_lookup_2|by rewrite Ep].
    + intros x. unfold StaticPrincipal_permits. cbn. rewrite bool_decide_eq_true. apply elem_of_list_to_set.
  - intros p (Hp & Hd)%(authenticate_Some _ _ _ Hwf). apply list_elem_of_lookup_1 in Hp as (i & Hp).
    destruct (Forall2_lookup_r _ _ _ _ _ Hall Hp) as ([[id token] permissions] & Hi & Hnew).
    apply StaticPrincipal_new_Ok in Hnew as (_ & _ & _ & _ & ->). cbn in Hd |- *.
    exists token, permissions. split; [by eapply list_elem_of_lookup_2|].
    destruct (decide (token = supplied)) as [->|Hne]; [by left|]. right.
    split; [|done]. by intros ?%bytes_inj.
Qed.

(** ** Witness *)
Definition reader_entry : string * string * list AuthPermission := ("reader", "r-token", [Inspect]).
Definition operator_entry : string * string * list AuthPermission :=
  ("operator", "o-token", [Inspect; Control; Metrics]).

Definition new_principal (e : string * string * list AuthPermission) : StaticPrincipal :=
  match @StaticPrincipal_new toy_sha e.1.1 e.1.2 e.2 with
  | Ok p => p
  | Err _ => {| sp_id := ""; sp_token_sha256 := []; sp_permissions := ∅ |}
  end.

Definition two_principals : list StaticPrincipal := new_principal <$> [reader_entry; operator_entry].

Lemma two_configured : @configured toy_sha [reader_entry; operator_entry] two_principals.
Proof.
  split; [repeat constructor|].
  apply (bool_decide_unpack _). vm_compute. exact I.
Qed.

Lemma authentication_exact_witness :
  @configured toy_sha [reader_entry; operator_entry] two_principals /\
  exists p, @authenticate toy_sha two_principals "o-token" = Some p /\ sp_id p = "operator".
Proof.
  split; [apply two_configured|].
  pose proof (@authentication_exact toy_sha toy_sha_laws _ _ "o-token" two_configured) as [Ha _].
  destruct (Ha "operator" "o-token" [Inspect; Control; Metrics]) as (_ & _ & p & Hp & Hid & _); [|by exists p].
  right. left.
Defined.
