(* ===== verification/Api.v ===== *)
(** * The HTTP adapter ([hub-api/src/lib.rs])

    Routing, bearer authentication, one handler per endpoint over the
    orchestrator's operations, and the mapping of errors to responses.  The
    web framework (routing of paths, extraction of bodies and queries) is a
    parameter; a response is its status, its headers and the payload that is
    serialised into its body. *)

From Stdlib Require Import Ascii.
From stdpp Require Import base gmap strings list pretty.
From S2P Require Import Prelude Text Core Version Digest Machine Blobs Component Run Workflow Task.
From S2P Require Import TaskLifecycle Publication Event Memory Ports Exec Scicapsule Hub Submit Execute.
From S2P Require Import Attempts Reads Metrics Wire Auth.

(** ** Requests *)
Record Request := {
  rq_method : Method;
  rq_path : string;
  (** The headers whose value is visible ASCII, by lowercase name. *)
  rq_headers : gmap string string;
  rq_body : list N;
}.

(** The routes of [router], with the parameters of their path. *)
Inductive ApiRoute :=
| RtHealth
| RtReady
| RtComponents
| RtComponent (id : string)
| RtCapabilities
| RtRuns
| RtRun (id : string)
| RtRunCancel (id : string)
| RtRunReproduce (id : string)
| RtExecutions
| RtWorkflows
| RtWorkflow (id : string)
| RtPublication (id step_key : string)
| RtWorkflowCancel (id : string)
| RtWorkflowExecutions (id : string)
| RtArtifacts
| RtArtifact (id : string)
| RtArtifactContent (id : string)
| RtArtifactDigest (id : string)
| RtEvents
| RtMetrics.

#[global] Instance ApiRoute_eq_dec : EqDecision ApiRoute.
Proof. solve_decision. Defined.

(** The routes behind [require_api_bearer]: all but the two probes. *)
Definition route_protected (r : ApiRoute) : bool :=
  match r with RtHealth | RtReady => false | _ => true end.

(** ** Responses *)
Definition OK : N := 200.
Definition CREATED : N := 201.
Definition BAD_REQUEST : N := 400.
Definition UNAUTHORIZED : N := 401.
Definition FORBIDDEN : N := 403.
Definition NOT_FOUND : N := 404.
Definition NOT_ACCEPTABLE : N := 406.
Definition CONFLICT : N := 409.
Definition PAYLOAD_TOO_LARGE : N := 413.
Definition UNPROCESSABLE_ENTITY : N := 422.
Definition TOO_MANY_REQUESTS : N := 429.
Definition INTERNAL_SERVER_ERROR : N := 500.

Inductive Payload `{JsonLib} :=
| PHealth (r : HealthResponse)
| PReady (r : ReadyResponse)
| PRegistered (r : RegisterComponentResponse)
| PComponents (components : list ComponentDto)
| PComponent (component : ComponentDto)
| PCapabilities (capabilities : list CapabilitySummaryDto)
| PRunSubmitted (run : RunDto)
| PRuns (runs : list RunDto)
| PRun (run : RunDto)
| PRunCancelled (r : CancelRunResponse)
| PWorkflowSubmitted (workflow : WorkflowDto)
| PWorkflows (workflows : list WorkflowDto)
| PWorkflow (workflow : WorkflowDto)
| PPublication (publication : AuthoritativeStepPublicationDto)
| PWorkflowCancelled (r : CancelWorkflowResponse)
| PArtifact (artifact : ArtifactDto)
| PArtifacts (artifacts : list ArtifactDto)
| PPortableDigest (r : ArtifactPortableDigestDto)
| PEvents (r : LifecycleEventListResponse)
| PError (e : ErrorEnvelope)
| PText (text : string)
| PBytes (bs : list N)
(** The framework's own answer, or the empty body of an answer to HEAD. *)
| PFramework.

Record HttpResponse `{JsonLib} := {
  rs_status : N;
  rs_headers : list (string * string);
  rs_body : Payload;
}.

Definition response `{JsonLib} (status : N) (body : Payload) : HttpResponse :=
  {| rs_status := status; rs_headers := []; rs_body := body |}.

(** ** The web framework (crate [axum])

    Whether a path matches the template of a route, and with which
    parameters; the extractors; and the framework's own answers.  The
    extractor of a JSON body is given the limit of [DefaultBodyLimit] and
    answers the text of its rejection. *)
Class WebFramework `{JsonLib} := {
  axum_match : string -> string -> option (list string);
  axum_rejection : Request -> HttpResponse;
  axum_query : Request -> option (gmap string string);
  json_register_component : N -> Request -> result string RegisterComponentRequest;
  json_submit_run : N -> Request -> result string SubmitRunRequest;
  json_submit_workflow : N -> Request -> result string SubmitWorkflowRequest;
  json_run_id : N -> Request -> option RunId;
}.

(** The text of a template before its first parameter. *)
Fixpoint literal_part (template : string) : string :=
  match template with
  | EmptyString => EmptyString
  | String c rest => if bool_decide (c = "{"%char) then EmptyString else String c (literal_part rest)
  end.

(** A template without parameters is matched by its own text only; a path
    that matches a template begins with the text before its parameters. *)
Class WebFrameworkLaws `{WebFramework} : Prop := {
  axum_match_literal : forall path, literal_part path = path -> axum_match path path = Some [];
  axum_match_only : forall template path params,
    axum_match template path = Some params -> starts_with (literal_part template) path = true /\
    (literal_part template = template -> path = template);
}.

(** The parameters of a matched path, as the handlers' [Path] extracts them. *)
Definition path_none (route : ApiRoute) (params : list string) : option ApiRoute :=
  match params with [] => Some route | _ => None end.
Definition path_one (route : string -> ApiRoute) (params : list string) : option ApiRoute :=
  match params with [id] => Some (route id) | _ => None end.
Definition path_two (route : string -> string -> ApiRoute) (params : list string) : option ApiRoute :=
  match params with [id; key] => Some (route id key) | _ => None end.

(** The routes in the order [router] adds them. *)
Definition ROUTES : list (string * (list string -> option ApiRoute)) :=
  [ ("/api/v1/components", path_none RtComponents);
    ("/api/v1/components/{id}", path_one RtComponent);
    ("/api/v1/capabilities", path_none RtCapabilities);
    ("/api/v1/runs", path_none RtRuns);
    ("/api/v1/runs/{id}", path_one RtRun);
    ("/api/v1/runs/{id}/cancel", path_one RtRunCancel);
    ("/api/v1/runs/{id}/reproduce", path_one RtRunReproduce);
    ("/api/v1/executions", path_none RtExecutions);
    ("/api/v1/workflows", path_none RtWorkflows);
    ("/api/v1/workflows/{id}", path_one RtWorkflow);
    ("/api/v1/workflows/{id}/steps/{step_key}/publication", path_two RtPublication);
    ("/api/v1/workflows/{id}/cancel", path_one RtWorkflowCancel);
    ("/api/v1/workflows/{id}/executions", path_one RtWorkflowExecutions);
    ("/api/v1/artifacts", path_none RtArtifacts);
    ("/api/v1/artifacts/{id}", path_one RtArtifact);
    ("/api/v1/artifacts/{id}/content", path_one RtArtifactContent);
    ("/api/v1/artifacts/{id}/portable-digest", path_one RtArtifactDigest);
    ("/api/v1/events", path_none RtEvents);
    ("/metrics", path_none RtMetrics);
    ("/health", path_none RtHealth);
    ("/ready", path_none RtReady) ].

(** The route of a path; no path matches two of the templates, so the order
    in which they are tried does not matter. *)
Definition matched_route `{WebFramework} (path : string) : option ApiRoute :=
  foldr (fun '(template, extract) rest =>
           match axum_match template path ≫= extract with
           | Some route => Some route
           | None => rest
           end) None ROUTES.

Section responses.
Context `{JsonLib}.

Definition error_response (status : N) (code : ErrorCode) (message : string) : HttpResponse :=
  response status (PError (ErrorEnvelope_new code message)).

Definition bad_request (message : string) : HttpResponse := error_response BAD_REQUEST EcBadRequest message.
Definition internal (message : string) : HttpResponse :=
  error_response INTERNAL_SERVER_ERROR EcInternal message.

Definition protocol_error (e : ProtocolError) : HttpResponse :=
  response BAD_REQUEST (PError (ErrorEnvelope_with_details EcUnsupportedSchemaVersion
    "unsupported schema_version {found}: this build speaks version {expected}"
    {[ "expected" := pretty PROTOCOL_VERSION ]})).

Definition not_found (kind id : string) : HttpResponse :=
  response NOT_FOUND (PError (ErrorEnvelope_with_details EcNotFound "{kind} {id} not found"
    {[ "kind" := kind; "id" := id ]})).

(** The status and code of an error.  The last case is no variant of the
    source: a panic of the blocking task reaches [joined] as a [JoinError]. *)
Definition core_error_status (error : CoreError) : N * ErrorCode :=
  match error with
  | ComponentConflict _ _ _ | ComponentAlreadyRegistered _ => (CONFLICT, EcConflict)
  | ComponentNotFound _ | RunNotFound _ | TaskNotFound _ | ArtifactNotFound _ | BlobNotFound _ =>
      (NOT_FOUND, EcNotFound)
  | CapabilityNotDeclared _ _ | MissingInputBinding _ _ | InvalidTransition _ _
  | InvalidTaskTransition _ _ | InvalidWorkflowTransition _ _ | RunNotExecutable _ _
  | WorkflowNotExecutable _ _ | InvalidRunSpec _ | InvalidManifest _ | Validation _ =>
      (UNPROCESSABLE_ENTITY, EcValidation)
  | WorkflowNotFound _ => (NOT_FOUND, EcNotFound)
  | ArtifactTooLarge _ _ _ => (PAYLOAD_TOO_LARGE, EcValidation)
  | ExecutionFailed _ _ | Storage _ => (INTERNAL_SERVER_ERROR, EcInternal)
  | Panic _ => (INTERNAL_SERVER_ERROR, EcInternal)
  end.

Definition core_error (error : CoreError) : HttpResponse :=
  let '(status, code) := core_error_status error in
  error_response status code (CoreError_to_string error).

(** The blocking task's result: a value, an error, or a panic. *)
Definition joined {A} (r : Result A) : result HttpResponse A :=
  match r with
  | Ok value => Ok value
  | Err (Panic _) => Err (internal "internal task failed")
  | Err error => Err (core_error error)
  end.
End responses.

(** ** The shared state *)
Section api.
Context `{JsonLib, ManifestJson, Sha256Lib, Environment, UuidLib} {UT : UuidText}.
Context {backend : Executor} {WF : WebFramework}.
Context {Store Fences : Type} `{!Repositories Store, !Listings Store, !LifecycleEventRepository Store}.
Context `{!PublicationFenceRepository Fences}.

(** The configuration the daemon built the orchestrator with, and the
    package version. *)
Context (limits : Limits) (blob_root workdir_root path_var pkg_version : string).

(** One call of [Orchestrator::execute_workflow]: the scheduler and its
    workers run until the workflow ends, in one of the interleavings of
    [System]. *)
Context (execute_workflow : WorkflowId -> action (Orchestrator Store Fences) CoreError WorkflowRecord).

(** Where [/api/v1/events] reads: the fresh in-memory log of [HubState::new],
    or the repository given to [with_event_repository], which is the store. *)
Inductive EventSource :=
| FreshEvents (log : InMemoryLifecycleEvents)
| StoreEvents.

(** The semaphore is its free permits; a permit is held by a read in
    progress and then by the snapshot it returned. *)
Record HubState := {
  st_orchestrator : Orchestrator Store Fences;
  st_events : EventSource;
  st_api_principals : list StaticPrincipal;
  st_free_slots : N;
  st_reading : N;
  st_snapshots : list (list N);
}.

Definition HubState_new (orchestrator : Orchestrator Store Fences) : HubState :=
  {| st_orchestrator := orchestrator; st_events := FreshEvents InMemoryLifecycleEvents_default;
     st_api_principals := []; st_free_slots := 4; st_reading := 0; st_snapshots := [] |}.

Definition with_event_repository (st : HubState) : HubState :=
  {| st_orchestrator := st_orchestrator st; st_events := StoreEvents;
     st_api_principals := st_api_principals st; st_free_slots := st_free_slots st;
     st_reading := st_reading st; st_snapshots := st_snapshots st |}.

Definition set_principals (st : HubState) (principals : list StaticPrincipal) : HubState :=
  {| st_orchestrator := st_orchestrator st; st_events := st_events st;
     st_api_principals := principals; st_free_slots := st_free_slots st;
     st_reading := st_reading st; st_snapshots := st_snapshots st |}.

Inductive EmptyBearerToken := mkEmptyBearerToken.

Definition with_bearer_token (st : HubState) (token : string) : result EmptyBearerToken HubState :=
  _ ← ensure (negb (bool_decide (token = ""))) mkEmptyBearerToken;
  principal ← map_err (fun _ => mkEmptyBearerToken)
                (StaticPrincipal_new "legacy-control" token AuthPermission_ALL);
  Ok (set_principals st [principal]).

Definition with_static_principals (st : HubState) (principals : list StaticPrincipal)
    : result AuthConfigError HubState :=
  _ ← validate_static_principals principals;
  Ok (set_principals st principals).

Definition set_orchestrator (st : HubState) (o : Orchestrator Store Fences) : HubState :=
  {| st_orchestrator := o; st_events := st_events st;
     st_api_principals := st_api_principals st; st_free_slots := st_free_slots st;
     st_reading := st_reading st; st_snapshots := st_snapshots st |}.

Definition set_slots (st : HubState) (free reading : N) (snapshots : list (list N)) : HubState :=
  {| st_orchestrator := st_orchestrator st; st_events := st_events st;
     st_api_principals := st_api_principals st; st_free_slots := free;
     st_reading := reading; st_snapshots := snapshots |}.

Definition INLINE_CONTENT_LIMIT : N := 64 * 1024.
Definition DOWNLOAD_CONTENT_LIMIT : N := 16 * 1024 * 1024.

Abbreviation hub A := (action (Orchestrator Store Fences) CoreError A).

(** ** Authentication *)
Definition unauthenticated : HttpResponse :=
  {| rs_status := UNAUTHORIZED; rs_headers := [("www-authenticate", "Bearer")];
     rs_body := PError (ErrorEnvelope_new EcUnauthorized "bearer authentication required") |}.

Definition forbidden : HttpResponse :=
  error_response FORBIDDEN EcForbidden "authenticated principal lacks required permission".

Definition authorize_request (principals : list StaticPrincipal) (rq : Request) : result HttpResponse unit :=
  if bool_decide (length principals = 0) then Ok tt
  else
    let supplied :=
      value ← rq_headers rq !! "authorization";
      token ← strip_prefix "Bearer " value;
      if bool_decide (token = "") then None else Some token in
    match supplied ≫= authenticate principals with
    | None => Err unauthenticated
    | Some principal =>
        ensure (StaticPrincipal_permits principal (required_permission (rq_method rq) (rq_path rq)))
          forbidden
    end.

Definition handler : Type := HubState -> HubState * HttpResponse.

Definition require_api_bearer (rq : Request) (next : handler) : handler := fun st =>
  match authorize_request (st_api_principals st) rq with
  | Err rs => (st, rs)
  | Ok _ => next st
  end.

(** ** Handlers *)

(** [match joined(spawn_blocking(move || ..).await) { Ok(a) => .., Err(response) => response }]. *)
Definition offload {A} (call : hub A) (k : A -> HubState -> HubState * HttpResponse) : handler := fun st =>
  let '(o, r) := call (st_orchestrator st) in
  let st := set_orchestrator st o in
  match joined r with
  | Ok a => k a st
  | Err rs => (st, rs)
  end.

Definition answer (rs : HttpResponse) : handler := fun st => (st, rs).
Definition json (body : Payload) : handler := answer (response OK body).

(** [typed_id]: a path segment as an identifier, [None] when malformed. *)
Definition typed_id {k} (raw : string) : option (uuid_id k) := from_uuid <$> uuid_from_str raw.

(** [let Some(parsed) = typed_id(&id) else { return not_found(kind, &id) }]. *)
Definition with_id {k} (kind raw : string) (body : uuid_id k -> handler) : handler :=
  match typed_id raw with
  | Some id => body id
  | None => answer (not_found kind raw)
  end.

(** The body of a versioned request. *)
Definition with_body {A} (extracted : result string A) (version : A -> N) (body : A -> handler) : handler :=
  match extracted with
  | Err rejection => answer (bad_request (String.append "malformed request body: " rejection))
  | Ok request =>
      match check_schema_version (version request) with
      | Err e => answer (protocol_error e)
      | Ok _ => body request
      end
  end.

Definition http_health : handler :=
  json (PHealth {| hr_status := "ok"; hr_protocol_version := PROTOCOL_VERSION |}).

Definition list_count {A} (r : Result (list A)) : N :=
  match r with Ok l => to_u64 (len l) | Err _ => 0%N end.

Definition http_ready : handler := fun st =>
  let o := st_orchestrator st in
  json (PReady {| rr_ready := true;
                  rr_components_registered := list_count (Orchestrator_components o);
                  rr_runs_recorded := list_count (Orchestrator_list_runs o);
                  rr_executor_backend := Orchestrator_executor_backend_id |}) st.

(** *** Components *)
Definition http_register_component (rq : Request) : handler :=
  with_body (json_register_component (max_manifest_bytes limits) rq) rcq_schema_version (fun request =>
    let component_id := md_id (rcq_manifest request) in
    let manifest := ComponentManifest_from_dto (rcq_manifest request) in
    offload (register_component manifest) (fun status st =>
      match Orchestrator_component component_id (st_orchestrator st) with
      | Ok (Some stored) =>
          let created := match status with RgCreated => true | RgAlreadyRegistered => false end in
          (st, response (if created then CREATED else OK)
            (PRegistered {| rcs_status := if created then "created" else "already_registered";
                            rcs_component := ComponentDto_from stored;
                            rcs_manifest_digest := digest_text stored |}))
      | _ => (st, internal "registered manifest could not be read back")
      end)).

Definition http_list_components (rq : Request) : handler :=
  match axum_query rq with
  | None => answer (axum_rejection rq)
  | Some query =>
      offload (match query !! "capability" with
               | Some name =>
                   capability ← lift (map_err (fun e => Validation (CoreError_to_string e))
                                        (CapabilityName_parse name));
                   discover_by_capability capability
               | None => reads Orchestrator_components
               end)
        (fun components => json (PComponents (ComponentDto_from <$> components)))
  end.

Definition http_get_component (raw : string) : handler :=
  with_id "component" raw (fun id =>
    offload (reads (Orchestrator_component id)) (fun found =>
      match found with
      | Some manifest => json (PComponent (ComponentDto_from manifest))
      | None => answer (not_found "component" raw)
      end)).

#[global] Program Instance CapabilityName_ordered : Ordered CapabilityName :=
  {| ord_le a b := String.le (capability_name_str a) (capability_name_str b) |}.
Next Obligation. intros a b. cbn. apply _. Defined.
Next Obligation.
  split; [split|].
  - intros a. exact (reflexivity (R := String.le) _).
  - intros a b c Hab Hbc. exact (transitivity (R := String.le) Hab Hbc).
  - intros [a] [b] Hab Hba. cbn in *. f_equal. by apply (anti_symm String.le).
Qed.
Next Obligation. intros a b. apply (total String.le). Qed.

(** [counts.entry(name).and_modify(|(n, _)| *n += 1).or_insert((1, version))]. *)
Definition count_capability (counts : gmap CapabilityName (N * Version)) (c : Capability)
    : gmap CapabilityName (N * Version) :=
  <[cap_name c := match counts !! cap_name c with
                  | Some (n, version) => ((n + 1)%N, version)
                  | None => (1%N, cap_contract_version c)
                  end]> counts.

Definition summarize_capabilities (o : Orchestrator Store Fences) : Result (list CapabilitySummaryDto) :=
  manifests ← Orchestrator_components o;
  let counts := foldl count_capability ∅ (manifests ≫= m_capabilities) in
  Ok ((fun '(name, (declared_by, contract_version)) =>
         {| cs_name := name; cs_declared_by := declared_by; cs_contract_version := contract_version |})
      <$> map_iter counts).

Definition http_list_capabilities : handler :=
  offload (reads summarize_capabilities) (fun summary => json (PCapabilities summary)).

(** *** Runs *)
Definition http_submit_run (rq : Request) : handler :=
  with_body (json_submit_run (max_manifest_bytes limits) rq) srq_schema_version (fun request =>
    offload (submit_run limits (RunSpec_from_dto (srq_run_spec request)))
      (fun record => answer (response CREATED (PRunSubmitted (RunDto_from record))))).

Definition http_list_runs : handler :=
  offload (reads Orchestrator_list_runs) (fun runs => json (PRuns (RunDto_from <$> runs))).

Definition http_get_run (raw : string) : handler :=
  with_id "run" raw (fun id st =>
    match Orchestrator_run id (st_orchestrator st) with
    | Some record => json (PRun (RunDto_from record)) st
    | None => answer (not_found "run" raw) st
    end).

Definition http_cancel_run (raw : string) : handler :=
  with_id "run" raw (fun id =>
    offload (cancel_run id) (fun signalled =>
      json (PRunCancelled {| crr_run_id := id; crr_signalled_active_execution := signalled |}))).

Definition http_reproduce_run (raw : string) : handler :=
  with_id "run" raw (fun id =>
    offload (reproduce_run limits id) (fun record =>
      answer (response CREATED (PRunSubmitted (RunDto_from record))))).

Definition http_execute_run (rq : Request) : handler :=
  match json_run_id (max_manifest_bytes limits) rq with
  | None => answer (axum_rejection rq)
  | Some id =>
      offload (execute_run (backend := backend) limits blob_root workdir_root path_var id)
        (fun record => json (PRun (RunDto_from record)))
  end.

(** *** Artifacts *)
Definition required_header (rq : Request) (name : string) : option string :=
  value ← rq_headers rq !! name;
  if bool_decide (value = "") then None else Some value.

Definition http_upload_artifact (rq : Request) : handler :=
  match required_header rq "x-scirust-artifact-name" with
  | None => answer (bad_request "missing or invalid x-scirust-artifact-name header")
  | Some name =>
      match required_header rq "content-type" with
      | None => answer (bad_request "missing or invalid content-type header")
      | Some media_type =>
          if (len (rq_body rq) <=? max_artifact_bytes limits)%N then
            offload (ingest_artifact limits blob_root name media_type (rq_body rq))
              (fun meta => answer (response CREATED (PArtifact (ArtifactDto_from meta))))
          else answer (error_response PAYLOAD_TOO_LARGE EcValidation
                 "artifact body exceeds configured limit: {error}")
      end
  end.

Definition http_list_artifacts : handler := fun st =>
  json (PArtifacts (ArtifactDto_from <$> Orchestrator_artifacts (st_orchestrator st))) st.

(** The blocking part of [get_artifact]. *)
Definition fetch_artifact (id : ArtifactId) (include_content : bool)
    : hub (ArtifactMeta * option (list N)) :=
  found ← reads (fun o => Ok (Orchestrator_artifact_meta id o));
  match found with
  | None => throw (ArtifactNotFound id)
  | Some meta =>
      if include_content then
        '(_, bs) ← Orchestrator_artifact_bytes_bounded blob_root (art_id meta) INLINE_CONTENT_LIMIT;
        mret (meta, Some bs)
      else mret (meta, None)
  end.

Definition ArtifactDto_set_content (dto : ArtifactDto) (text : string) : ArtifactDto :=
  {| ad_id := ad_id dto; ad_name := ad_name dto; ad_media_type := ad_media_type dto;
     ad_digest := ad_digest dto; ad_size := ad_size dto; ad_created_at := ad_created_at dto;
     ad_produced_by_run := ad_produced_by_run dto; ad_content_text := Some text |}.

Definition http_get_artifact (rq : Request) (raw : string) : handler :=
  match axum_query rq with
  | None => answer (axum_rejection rq)
  | Some query =>
      with_id "artifact" raw (fun id =>
        let include_content := bool_decide (query !! "include" = Some "content") in
        offload (fetch_artifact id include_content) (fun '(meta, bs) =>
          let dto := ArtifactDto_from meta in
          match bs with
          | None => json (PArtifact dto)
          | Some bs =>
              if (INLINE_CONTENT_LIMIT <? art_size meta)%N then
                answer (error_response PAYLOAD_TOO_LARGE EcValidation
                  "artifact content is {} bytes; inline limit is {INLINE_CONTENT_LIMIT}")
              else match from_utf8 bs with
              | Some text => json (PArtifact (ArtifactDto_set_content dto text))
              | None => answer (error_response NOT_ACCEPTABLE EcBadRequest
                          "artifact content is binary; inline text view unavailable")
              end
          end))
  end.

(** [download_artifact] up to the blocking read: [try_acquire_owned].
    [st_reading] counts the reads that a handler awaits. *)
Definition acquire_slot (st : HubState) : option HubState :=
  if (0 <? st_free_slots st)%N
  then Some (set_slots st (st_free_slots st - 1) (st_reading st + 1) (st_snapshots st))
  else None.

Definition DOWNLOAD_HEADERS : list (string * string) :=
  [("content-type", "application/octet-stream"); ("content-disposition", "attachment");
   ("cache-control", "no-store"); ("x-content-type-options", "nosniff")].

(** The blocking read and the response: the permit moves into the snapshot,
    or is dropped with the error. *)
Definition finish_download (id : ArtifactId) : handler := fun st =>
  let '(o, r) := Orchestrator_artifact_bytes_bounded blob_root id DOWNLOAD_CONTENT_LIMIT (st_orchestrator st) in
  let st := set_orchestrator st o in
  match joined r with
  | Ok (_, bs) =>
      (set_slots st (st_free_slots st) (st_reading st - 1) (bs :: st_snapshots st),
       {| rs_status := OK; rs_headers := DOWNLOAD_HEADERS; rs_body := PBytes bs |})
  | Err rs => (set_slots st (st_free_slots st + 1) (st_reading st - 1) (st_snapshots st), rs)
  end.

(** The handler's future is dropped at its [await], as when the client goes
    away: the permit is a local of the future and is free again, although the
    blocking read goes on and its bytes are dropped when it ends. *)
Definition cancel_download (st : HubState) : HubState :=
  set_slots st (st_free_slots st + 1) (st_reading st - 1) (st_snapshots st).

(** The rest of a read that nobody awaits. *)
Definition detached_read (id : ArtifactId) (st : HubState) : HubState :=
  set_orchestrator st
    (Orchestrator_artifact_bytes_bounded blob_root id DOWNLOAD_CONTENT_LIMIT (st_orchestrator st)).1.

(** The transport is done with a snapshot: its permit is free again. *)
Definition drop_snapshot (i : nat) (st : HubState) : HubState :=
  match st_snapshots st !! i with
  | Some _ => set_slots st (st_free_slots st + 1) (st_reading st) (delete i (st_snapshots st))
  | None => st
  end.

Definition http_download_artifact (raw : string) : handler :=
  with_id "artifact" raw (fun id st =>
    match acquire_slot st with
    | None => answer (error_response TOO_MANY_REQUESTS EcValidation
                "artifact download capacity is occupied; retry this read later") st
    | Some st => finish_download id st
    end).

Definition http_portable_digest (raw : string) : handler :=
  with_id "artifact" raw (fun id =>
    offload (Orchestrator_artifact_raw_sha256 blob_root id) (fun '(meta, raw_sha256) =>
      json (PPortableDigest {| apd_id := art_id meta; apd_hub_digest := art_digest meta;
                               apd_raw_sha256 := raw_sha256; apd_size := art_size meta |}))).

(** *** Workflows *)
Definition http_submit_workflow (rq : Request) : handler :=
  with_body (json_submit_workflow (max_manifest_bytes limits) rq) swq_schema_version (fun request =>
    offload (submit_workflow_internal (swq_workflow request) (swq_admission request))
      (fun record => answer (response CREATED (PWorkflowSubmitted (WorkflowDto_from record))))).

Definition http_list_workflows : handler := fun st =>
  json (PWorkflows (WorkflowDto_from <$> Orchestrator_workflows (st_orchestrator st))) st.

Definition http_get_workflow (raw : string) : handler :=
  with_id "workflow" raw (fun id st =>
    match Orchestrator_workflow id (st_orchestrator st) with
    | Some record => json (PWorkflow (WorkflowDto_from record)) st
    | None => answer (not_found "workflow" raw) st
    end).

Definition http_get_publication (raw step_key : string) : handler :=
  with_id "workflow" raw (fun id =>
    offload (reads (Orchestrator_authoritative_step_publication id step_key)) (fun found =>
      match found with
      | Some publication => json (PPublication (AuthoritativeStepPublicationDto_from publication))
      | None => answer (not_found "authoritative workflow-step publication"
                  (String.append raw (String.append "/" step_key)))
      end)).

Definition http_cancel_workflow (raw : string) : handler :=
  with_id "workflow" raw (fun id =>
    offload (cancel_workflow id) (fun signalled =>
      json (PWorkflowCancelled {| cwr_workflow_id := id; cwr_signalled_active_execution := signalled |}))).

Definition http_execute_workflow (raw : string) : handler :=
  with_id "workflow" raw (fun id =>
    offload (execute_workflow id) (fun record => json (PWorkflow (WorkflowDto_from record)))).

(** *** Events and metrics *)
Definition events_list_after (st : HubState) (after limit : N) : Result (list LifecycleEvent) :=
  match st_events st with
  | FreshEvents log => list_after log after limit
  | StoreEvents => list_after (o_store (st_orchestrator st)) after limit
  end.

(** An integer of the query, or its default. *)
Definition query_number (query : gmap string string) (name : string) (max default : N) : option N :=
  match query !! name with
  | Some raw => parse_unsigned max raw
  | None => Some default
  end.

Definition http_list_lifecycle_events (rq : Request) : handler :=
  match axum_query rq with
  | None => answer (axum_rejection rq)
  | Some query =>
      match query_number query "after" u64_max 0 with
      | None => answer (bad_request "event query parameter 'after' must be an unsigned integer")
      | Some after =>
          match query_number query "limit" u32_max DEFAULT_EVENT_PAGE with
          | None => answer (bad_request "event query parameter 'limit' must be an unsigned integer")
          | Some limit =>
              match validate_event_page_limit limit with
              | Err error => answer (core_error error)
              | Ok _ => fun st =>
                  match joined (events_list_after st after limit) with
                  | Err rs => answer rs st
                  | Ok events =>
                      let next_after := match last events with
                                        | Some event => ev_sequence event
                                        | None => after
                                        end in
                      json (PEvents {| lel_events := LifecycleEventDto_from <$> events;
                                       lel_next_after := next_after |}) st
                  end
              end
          end
      end
  end.

Definition http_prometheus_metrics : handler := fun st =>
  let o := st_orchestrator st in
  match joined (match st_events st with
                | FreshEvents log => collect_and_render (backend := backend) pkg_version o log
                | StoreEvents => collect_and_render (backend := backend) pkg_version o (o_store o)
                end) with
  | Ok text =>
      answer {| rs_status := OK;
                rs_headers := [("content-type", "text/plain; version=0.0.4; charset=utf-8")];
                rs_body := PText text |} st
  | Err rs => answer rs st
  end.

(** ** The router *)

(** [get(..)]: the handler of GET also answers HEAD, without a body. *)
Definition on_get (route : ApiRoute) (rq : Request) : option handler :=
  match route with
  | RtHealth => Some http_health
  | RtReady => Some http_ready
  | RtComponents => Some (http_list_components rq)
  | RtComponent id => Some (http_get_component id)
  | RtCapabilities => Some http_list_capabilities
  | RtRuns => Some http_list_runs
  | RtRun id => Some (http_get_run id)
  | RtWorkflows => Some http_list_workflows
  | RtWorkflow id => Some (http_get_workflow id)
  | RtPublication id step_key => Some (http_get_publication id step_key)
  | RtArtifacts => Some http_list_artifacts
  | RtArtifact id => Some (http_get_artifact rq id)
  | RtArtifactContent id => Some (http_download_artifact id)
  | RtArtifactDigest id => Some (http_portable_digest id)
  | RtEvents => Some (http_list_lifecycle_events rq)
  | RtMetrics => Some http_prometheus_metrics
  | _ => None
  end.

Definition on_post (route : ApiRoute) (rq : Request) : option handler :=
  match route with
  | RtComponents => Some (http_register_component rq)
  | RtRuns => Some (http_submit_run rq)
  | RtRunCancel id => Some (http_cancel_run id)
  | RtRunReproduce id => Some (http_reproduce_run id)
  | RtExecutions => Some (http_execute_run rq)
  | RtWorkflows => Some (http_submit_workflow rq)
  | RtWorkflowCancel id => Some (http_cancel_workflow id)
  | RtWorkflowExecutions id => Some (http_execute_workflow id)
  | RtArtifacts => Some (http_upload_artifact rq)
  | _ => None
  end.

Definition without_body (rs : HttpResponse) : HttpResponse :=
  {| rs_status := rs_status rs; rs_headers := rs_headers rs; rs_body := PFramework |}.

(** The handler a request reaches; a route without the method is answered by
    the framework (405). *)
Definition route_handler (route : ApiRoute) (rq : Request) : handler :=
  let found :=
    match rq_method rq with
    | GET => on_get route rq
    | HEAD => (fun h st => let '(st, rs) := h st in (st, without_body rs)) <$> on_get route rq
    | POST => on_post route rq
    | OtherMethod _ => None
    end in
  default (answer (axum_rejection rq)) found.

Definition router (rq : Request) : handler :=
  match matched_route (rq_path rq) with
  | None => answer (axum_rejection rq)
  | Some route =>
      if route_protected route then require_api_bearer rq (route_handler route rq)
      else route_handler route rq
  end.
End api.
