(* ===== verification/ApiSafety.v ===== *)
(** * What requests may change, and what they are answered

    Theorems on [Api]: a request that reads changes nothing, a request that
    changes something carries the token of a principal with the permission
    [Control], every error is a structured envelope, and the downloads held
    in memory are bounded. *)

From stdpp Require Import base gmap strings list pretty.
From S2P Require Import Prelude Text Core Version Digest Machine Blobs Component Run Workflow Task.
From S2P Require Import TaskLifecycle Publication Event Memory Ports Exec Scicapsule Hub Submit Execute.
From S2P Require Import Attempts Reads Metrics Wire Auth Api.

(** ** Handlers along a relation *)
Section along.
Context `{JsonLib, UuidLib} {UT : UuidText} {Store Fences : Type}.

Abbreviation state := (HubState (Store := Store) (Fences := Fences)).
Abbreviation served := (Api.handler (Store := Store) (Fences := Fences)).

(** Whatever state it is called in, the handler takes it along [R]. *)
Definition along (R : relation state) (h : served) : Prop := forall st, R st (h st).1.

(** Whatever state it is called in, it answers with a response in [P]. *)
Definition answers (P : HttpResponse -> Prop) (h : served) : Prop := forall st, P (h st).2.

Lemma along_answer R `{!Reflexive R} rs : along R (answer rs).
Proof. intros st. cbn. reflexivity. Qed.

Lemma along_json R `{!Reflexive R} body : along R (json body).
Proof. intros st. cbn. reflexivity. Qed.

Lemma along_offload {A} R `{!Reflexive R, !Transitive R} (call : action (Orchestrator Store Fences) CoreError A) k :
  (forall st, R st (set_orchestrator st (call (st_orchestrator st)).1)) ->
  (forall a, along R (k a)) -> along R (offload call k).
Proof.
  intros Hc Hk st. unfold offload. specialize (Hc st). destruct (call _) as [o r]. cbn in Hc.
  destruct (joined r) as [a|rs]; cbn; [|done]. etrans; [exact Hc|apply Hk].
Qed.

Lemma along_with_id {k} R `{!Reflexive R} kind raw (body : uuid_id k -> served) :
  (forall id, along R (body id)) -> along R (with_id kind raw body).
Proof. intros Hb. unfold with_id. destruct (typed_id raw); [apply Hb|by apply along_answer]. Qed.

Lemma along_with_body {A} R `{!Reflexive R} (x : result string A) version (body : A -> served) :
  (forall a, along R (body a)) -> along R (with_body x version body).
Proof.
  intros Hb. unfold with_body. destruct x; [destruct (check_schema_version _)|]; first [apply Hb|by apply along_answer].
Qed.

Lemma answers_answer P rs : P rs -> answers P (answer rs).
Proof. intros Hp st. exact Hp. Qed.

Lemma answers_json P body : P (response OK body) -> answers P (json body).
Proof. intros Hp st. exact Hp. Qed.

Lemma joined_Err {A} e : exists rs,
  joined (Err e : Result A) = Err rs /\ (rs = core_error e \/ rs = internal "internal task failed").
Proof. destruct e; eexists; (split; [reflexivity|]); first [left; reflexivity|right; reflexivity]. Qed.

Lemma answers_offload {A} P (call : action (Orchestrator Store Fences) CoreError A) k :
  (forall e, P (core_error e)) -> P (internal "internal task failed") ->
  (forall a, answers P (k a)) -> answers P (offload call k).
Proof.
  intros He Hp Hk st. unfold offload. destruct (call _) as [o [a|e]]; cbn [joined]; [apply Hk|].
  destruct (joined_Err (A := A) e) as (rs & Hj & Hrs). cbn [joined] in Hj. rewrite Hj.
  destruct Hrs as [-> | ->]; [exact (He e)|exact Hp].
Qed.

Lemma answers_with_id {k} P kind raw (body : uuid_id k -> served) :
  P (not_found kind raw) -> (forall id, answers P (body id)) -> answers P (with_id kind raw body).
Proof. intros Hn Hb. unfold with_id. destruct (typed_id raw); [apply Hb|by apply answers_answer]. Qed.

Lemma answers_with_body {A} P (x : result string A) version (body : A -> served) :
  (forall text, P (bad_request text)) -> (forall e, P (protocol_error e)) ->
  (forall a, answers P (body a)) -> answers P (with_body x version body).
Proof.
  intros Hb Hp Ha. unfold with_body.
  destruct x; [destruct (check_schema_version _)|]; first [apply Ha|by apply answers_answer].
Qed.
End along.

(** Takes a handler apart: [atom] closes what is left. *)
Ltac solve_along atom :=
  repeat match goal with
  | |- along _ (answer _) => apply along_answer, _
  | |- along _ (json _) => apply along_json, _
  | |- along _ (offload _ _) => apply along_offload; [apply _|apply _|solve [atom]|intros ?]
  | |- along _ (with_id _ _ _) => apply along_with_id; [apply _|intros ?]
  | |- along _ (with_body _ _ _) => apply along_with_body; [apply _|intros ?]
  | |- along _ (match ?x with _ => _ end) => destruct x
  | |- along _ (let _ := _ in _) => cbn zeta
  | |- along _ (fun st => _) => intros ?; cbn zeta
  | |- _ _ (match ?x with _ => _ end _).1 => destruct x
  | |- _ ?st (match ?x with _ => _ end).1 => destruct x
  | |- ?R ?st (answer _ ?st).1 => cbn; reflexivity
  | |- ?R ?st (json _ ?st).1 => cbn; reflexivity
  | |- ?R ?st (?st, _).1 => cbn; reflexivity
  end.

Ltac solve_answers atom :=
  repeat match goal with
  | |- answers _ (answer _) => apply answers_answer; solve [atom]
  | |- answers _ (json _) => apply answers_json; solve [atom]
  | |- answers _ (offload _ _) => apply answers_offload; [solve [atom]|solve [atom]|intros ?]
  | |- answers _ (with_id _ _ _) => apply answers_with_id; [solve [atom]|intros ?]
  | |- answers _ (with_body _ _ _) => apply answers_with_body; [solve [atom]|solve [atom]|intros ?]
  | |- answers _ (match ?x with _ => _ end) => destruct x
  | |- answers _ (let _ := _ in _) => cbn zeta
  | |- answers _ (fun st => _) => intros ?; cbn zeta
  | |- ?P (match joined ?r with _ => _ end).2 =>
      let Hj := fresh "Hj" in destruct (joined r) eqn:Hj
  | |- ?P (match ?x with _ => _ end _).2 => destruct x
  | |- ?P (match ?x with _ => _ end).2 => destruct x
  | |- ?P (answer _ _).2 => solve [atom]
  | |- ?P (json _ _).2 => solve [atom]
  | |- ?P (_, _).2 => solve [atom]
  end.

Section safety.
Context `{JsonLib, ManifestJson, Sha256Lib, Environment, UuidLib} {UT : UuidText}.
Context {backend : Executor} {WF : WebFramework}.
Context {Store Fences : Type} `{!Repositories Store, !Listings Store, !LifecycleEventRepository Store}.
Context `{!PublicationFenceRepository Fences}.
Context (limits : Limits) (blob_root workdir_root path_var pkg_version : string).
Context (execute_workflow : WorkflowId -> action (Orchestrator Store Fences) CoreError WorkflowRecord).

Abbreviation state := (HubState (Store := Store) (Fences := Fences)).
Abbreviation serve := (router (backend := backend) limits blob_root workdir_root path_var pkg_version execute_workflow).

(** ** Reads *)

(** Only time passes: the orchestrator, the event log and the principals are
    as before.  The download permits are another matter. *)
Definition unchanged (st st' : state) : Prop :=
  looks (st_orchestrator st) (st_orchestrator st') /\ st_events st' = st_events st /\
  st_api_principals st' = st_api_principals st.

#[global] Instance unchanged_preorder : PreOrder unchanged.
Proof.
  split.
  - intros st. split_and!; [apply looks_preorder|done..].
  - intros a b c (Hab & Eab & Pab) (Hbc & Ebc & Pbc).
    split_and!; [by eapply looks_preorder|congruence..].
Qed.

Lemma unchanged_call {A} (call : action (Orchestrator Store Fences) CoreError A) :
  steps looks call -> forall st, unchanged st (set_orchestrator st (call (st_orchestrator st)).1).
Proof. intros Hc st. split_and!; [apply Hc|done..]. Qed.

Ltac looks_atom :=
  apply unchanged_call; solve [solve_steps; solve [apply looks_preorder | eauto with steps
    | intros ?; cbn; apply looks_preorder]].

Lemma finish_download_unchanged id st : unchanged st (finish_download blob_root id st).1.
Proof.
  unfold finish_download.
  pose proof (looks_artifact_bytes_bounded (Fences := Fences) blob_root id DOWNLOAD_CONTENT_LIMIT
    (st_orchestrator st)) as Hl.
  destruct (Orchestrator_artifact_bytes_bounded _ _ _ _) as [o r]. cbn in Hl.
  destruct (joined r) as [[meta bs]|rs]; by split_and!.
Qed.

Lemma looks_reads {A} (f : Orchestrator Store Fences -> Result A) : steps looks (reads f).
Proof. apply steps_reads, _. Qed.

Lemma looks_fetch_artifact id include_content :
  steps looks (fetch_artifact (Store := Store) (Fences := Fences) blob_root id include_content).
Proof.
  unfold fetch_artifact. apply steps_bind; [apply _|apply looks_reads|]. intros [meta|]; [|apply steps_throw, _].
  destruct include_content; [|apply steps_ret, _].
  apply steps_bind; [apply _|apply looks_artifact_bytes_bounded|]. intros [? ?]. apply steps_ret, _.
Qed.

#[local] Hint Resolve looks_reads looks_fetch_artifact : steps.

(** The handlers of GET. *)
Lemma on_get_unchanged route rq h :
  on_get (backend := backend) blob_root pkg_version route rq = Some h -> along unchanged h.
Proof.
  destruct route; cbn; intros [= <-]; try solve [
    unfold http_health, http_ready, http_list_components, http_get_component, http_list_capabilities,
      http_list_runs, http_get_run, http_list_workflows, http_get_workflow, http_get_publication,
      http_list_artifacts, http_get_artifact, http_portable_digest, http_list_lifecycle_events,
      http_prometheus_metrics; solve_along looks_atom].
  unfold http_download_artifact. apply along_with_id; [apply _|]. intros aid st.
  destruct (acquire_slot st) as [st1|] eqn:Hs; [|cbn; reflexivity].
  unfold acquire_slot in Hs. destruct (0 <? _)%N; [|done]. injection Hs as <-.
  etrans; [|apply finish_download_unchanged]. split_and!; [apply looks_preorder|done..].
Qed.

(** A request with GET or HEAD changes nothing. *)
Lemma route_unchanged route rq :
  rq_method rq = GET \/ rq_method rq = HEAD ->
  along unchanged (route_handler (backend := backend) limits blob_root workdir_root path_var pkg_version
    execute_workflow route rq).
Proof.
  intros Hm. unfold route_handler.
  destruct (on_get (backend := backend) blob_root pkg_version route rq) as [h|] eqn:Hg.
  - pose proof (on_get_unchanged _ _ _ Hg) as Hh. destruct Hm as [-> | ->]; cbn; [done|].
    intros st. specialize (Hh st). by destruct (h st).
  - destruct Hm as [-> | ->]; cbn; apply along_answer, _.
Qed.

Lemma get_serve_unchanged rq (st : state) :
  rq_method rq = GET \/ rq_method rq = HEAD -> unchanged st (serve rq st).1.
Proof.
  intros Hm. unfold router. destruct (matched_route (rq_path rq)) as [route|]; [|cbn; reflexivity].
  pose proof (route_unchanged route rq Hm st) as Hu. destruct (route_protected route); [|exact Hu].
  unfold require_api_bearer. destruct (authorize_request _ _); [exact Hu|cbn; reflexivity].
Qed.

(** ** Authorization *)

(** The request carries the token of [p]. *)
Definition bears (rq : Request) (p : StaticPrincipal) : Prop :=
  exists token, rq_headers rq !! "authorization" = Some (String.append "Bearer " token) /\
    token <> "" /\ sp_token_sha256 p = token_digest token.

Context `{!Sha256Laws}.

Lemma authorize_request_spec principals rq :
  principals <> [] -> (forall p, p ∈ principals -> principal_wf p) ->
  (exists p, p ∈ principals /\ bears rq p /\
     authorize_request principals rq =
       ensure (StaticPrincipal_permits p (required_permission (rq_method rq) (rq_path rq))) forbidden) \/
  ((forall p, p ∈ principals -> ~ bears rq p) /\ authorize_request principals rq = Err unauthenticated).
Proof.
  intros Hne Hwf. unfold authorize_request, bears.
  rewrite bool_decide_eq_false_2 by (by intros ->%nil_length_inv).
  destruct (rq_headers rq !! "authorization") as [value|] eqn:Hh; cbn [mbind option_bind].
  2: { right. split; [|done]. by intros p _ (token & ? & _). }
  destruct (strip_prefix "Bearer " value) as [token|] eqn:Ht; cbn [mbind option_bind].
  2: { right. split; [|done]. intros p _ (token & Hv & _).
       pose proof (proj2 (strip_prefix_Some "Bearer " value token)) as Hs. rewrite Ht in Hs.
       discriminate Hs. by injection Hv. }
  apply strip_prefix_Some in Ht as ->.
  assert (Hsame : forall token', Some (String.append "Bearer " token) = Some (String.append "Bearer " token') ->
    token' = token) by (intros token' Hv; injection Hv as Hv; exact (eq_sym Hv)).
  case_bool_decide as Hempty; cbn [mbind option_bind].
  { right. split; [|done]. intros p _ (token' & <-%Hsame & ? & _). done. }
  destruct (authenticate principals token) as [p|] eqn:Ha.
  - apply authenticate_Some in Ha as [Hp Hd]; [|done..]. left. exists p. split_and!; [done| |done]. by exists token.
  - right. split; [|done]. intros p Hp (token' & ->%Hsame & _ & Hd).
    exact (proj1 (authenticate_None _ _ Hwf) Ha p Hp Hd).
Qed.

Lemma bears_unique principals rq p q :
  NoDup (sp_token_sha256 <$> principals) -> p ∈ principals -> q ∈ principals ->
  bears rq p -> bears rq q -> p = q.
Proof.
  intros Hnd [i Hi]%list_elem_of_lookup_1 [j Hj]%list_elem_of_lookup_1 (t & Ht & _ & Hp) (u & Hu & _ & Hq).
  rewrite Ht in Hu. assert (t = u) as <- by (by injection Hu).
  assert (i = j) as <-; [|congruence].
  apply (NoDup_lookup _ _ _ (token_digest t) Hnd); rewrite list_lookup_fmap; [by rewrite Hi, <- Hp|by rewrite Hj, <- Hq].
Qed.

(** Only the template of [/metrics] matches its path. *)
Lemma metrics_route : WebFrameworkLaws -> matched_route "/metrics" = Some RtMetrics.
Proof.
  intros Hl.
  assert (forall template extract rest, starts_with (literal_part template) "/metrics" = false ->
    match axum_match template "/metrics" ≫= extract with Some route => Some route | None => rest end
    = (rest : option ApiRoute)) as Hskip.
  { intros template extract rest Hp. destruct (axum_match template "/metrics") as [ps|] eqn:Hm; [|done].
    apply axum_match_only in Hm as [Hm _]. congruence. }
  unfold matched_route, ROUTES. cbn [foldr]. do 18 (rewrite Hskip by done).
  by rewrite (axum_match_literal "/metrics").
Qed.

(** The methods a POST handler exists for need [Control]. *)
Lemma post_needs_control rq route :
  WebFrameworkLaws -> matched_route (rq_path rq) = Some route -> route <> RtMetrics ->
  rq_method rq <> GET -> rq_method rq <> HEAD -> required_permission (rq_method rq) (rq_path rq) = Control.
Proof.
  intros Hl Hr Hm Hg Hh. unfold required_permission.
  rewrite (bool_decide_eq_false_2 (rq_path rq = _)).
  - by rewrite !bool_decide_eq_false_2.
  - intros Hp. rewrite Hp, metrics_route in Hr by done. congruence.
Qed.

(** (C14) Nothing is changed without permission.  Once principals are configured,
    a request that changed anything beyond the clock -- a repository, a fence,
    a running execution's token, a file, the principals themselves -- was not
    a GET or HEAD, and carried, as a bearer token, the non-empty token of a
    configured principal that has the permission Control.  Any other request
    leaves everything as it was. *)
Theorem mutation_needs_control `{!WebFrameworkLaws} rq (st : state) :
  st_api_principals st <> [] -> (forall p, p ∈ st_api_principals st -> principal_wf p) ->
  let st' := (serve rq st).1 in
  unchanged st st' \/
  rq_method rq <> GET /\ rq_method rq <> HEAD /\
  exists p, p ∈ st_api_principals st /\ bears rq p /\ Control ∈ sp_permissions p.
Proof.
  intros Hne Hwf st'. subst st'. destruct (decide (rq_method rq = GET \/ rq_method rq = HEAD)) as [Hm|Hm];
    [by left; apply get_serve_unchanged|]. unfold router.
  destruct (matched_route (rq_path rq)) as [route|] eqn:Hr; [|left; cbn; reflexivity].
  assert (rq_method rq <> GET /\ rq_method rq <> HEAD) as [Hg Hh] by naive_solver.
  destruct (route_protected route) eqn:Hp.
  - unfold require_api_bearer.
    destruct (authorize_request_spec _ rq Hne Hwf) as [(p & Hin & Hb & ->)|[_ ->]]; [|left; cbn; reflexivity].
    destruct (StaticPrincipal_permits p _) eqn:Hperm; cbn [ensure]; [|left; cbn; reflexivity].
    destruct (decide (route = RtMetrics)) as [->|Hnm].
    + left. unfold route_handler. destruct (rq_method rq); try done; cbn; reflexivity.
    + right. split; [done|]. split; [done|]. exists p. split_and!; try done.
      rewrite (post_needs_control rq route) in Hperm by done.
      unfold StaticPrincipal_permits in Hperm. by apply bool_decide_eq_true in Hperm.
  - left. unfold route_handler. destruct route; try done; destruct (rq_method rq); try done; cbn; reflexivity.
Qed.

(** (C15) The access decision is exact.  With principals that share no
    credential, a request to any route but the two probes is handled if and
    only if it bears a configured principal's token and that principal has the
    permission the method and path require; without a configured token it is
    answered 401, with one that lacks the permission 403, and then nothing at
    all happens. *)
Theorem access_decision_exact rq (st : state) route :
  st_api_principals st <> [] -> (forall p, p ∈ st_api_principals st -> principal_wf p) ->
  NoDup (sp_token_sha256 <$> st_api_principals st) ->
  matched_route (rq_path rq) = Some route -> route_protected route = true ->
  (forall p, p ∈ st_api_principals st -> bears rq p ->
     serve rq st =
       if StaticPrincipal_permits p (required_permission (rq_method rq) (rq_path rq))
       then route_handler (backend := backend) limits blob_root workdir_root path_var pkg_version
              execute_workflow route rq st
       else (st, forbidden)) /\
  ((forall p, p ∈ st_api_principals st -> ~ bears rq p) -> serve rq st = (st, unauthenticated)).
Proof.
  intros Hne Hwf Hnd Hr Hp. unfold router, require_api_bearer. rewrite Hr, Hp.
  destruct (authorize_request_spec _ rq Hne Hwf) as [(q & Hq & Hb & ->)|[Hnone ->]].
  - split; [|intros Hn; by destruct (Hn q)].
    intros p Hin Hbp. rewrite (bears_unique _ _ p q Hnd Hin Hq Hbp Hb). by destruct (StaticPrincipal_permits _ _).
  - split; [|done]. intros p Hin Hbp. by destruct (Hnone p).
Qed.

(** ** Errors *)

(** The code an envelope carries for a status. *)
Definition status_has_code (status : N) (code : ErrorCode) : bool :=
  match code with
  | EcBadRequest => bool_decide (status = BAD_REQUEST) || bool_decide (status = NOT_ACCEPTABLE)
  | EcUnsupportedSchemaVersion => bool_decide (status = BAD_REQUEST)
  | EcUnauthorized => bool_decide (status = UNAUTHORIZED)
  | EcForbidden => bool_decide (status = FORBIDDEN)
  | EcNotFound => bool_decide (status = NOT_FOUND)
  | EcConflict => bool_decide (status = CONFLICT)
  | EcValidation => bool_decide (status = UNPROCESSABLE_ENTITY) ||
                    bool_decide (status = PAYLOAD_TOO_LARGE) || bool_decide (status = TOO_MANY_REQUESTS)
  | EcInternal => bool_decide (status = INTERNAL_SERVER_ERROR)
  end.

Definition payload_error (p : Payload) : option ErrorEnvelope :=
  match p with PError e => Some e | _ => None end.

(** A success without an error envelope, or an error with the envelope of its
    status. *)
Definition structured (rs : HttpResponse) : bool :=
  match payload_error (rs_body rs) with
  | None => bool_decide (rs_status rs = OK) || bool_decide (rs_status rs = CREATED)
  | Some e => status_has_code (rs_status rs) (eb_code (ee_error e))
  end.

Definition answered (rq : Request) (rs : HttpResponse) : Prop :=
  rs = axum_rejection rq \/ structured rs = true.

Lemma structured_core_error e : structured (core_error e) = true.
Proof. by destruct e. Qed.

#[local] Hint Resolve structured_core_error : core.

(** [joined] answers with a value or a structured error. *)
Lemma joined_answered {A} rq (r : Result A) rs : joined r = Err rs -> answered rq rs.
Proof.
  destruct r as [a|e]; [done|]. destruct (joined_Err (A := A) e) as (rs' & -> & Hrs). intros [= <-].
  right. destruct Hrs as [-> | ->]; [apply structured_core_error|done].
Qed.

Ltac answered_atom := first [by left|right; done|intros; right; done|intros; right; apply structured_core_error
  |cbn; by eapply joined_answered
  |match goal with a : RegistrationStatus |- _ => right; by destruct a end].

Lemma finish_download_answered id rq : answers (answered rq) (finish_download (Fences := Fences) blob_root id).
Proof.
  intros st. unfold finish_download.
  destruct (Orchestrator_artifact_bytes_bounded _ _ _ _) as [o [[meta bs]|e]]; cbn [joined].
  - by right.
  - destruct (joined_Err (A := ArtifactMeta * list N) e) as (rs & Hj & Hrs). cbn [joined] in Hj.
    rewrite Hj. right. destruct Hrs as [-> | ->]; [apply structured_core_error|done].
Qed.

Lemma on_get_answered route rq h :
  on_get (backend := backend) blob_root pkg_version route rq = Some h -> answers (answered rq) h.
Proof.
  destruct route; cbn; intros [= <-]; try solve [
    unfold http_health, http_ready, http_list_components, http_get_component, http_list_capabilities,
      http_list_runs, http_get_run, http_list_workflows, http_get_workflow, http_get_publication,
      http_list_artifacts, http_get_artifact, http_portable_digest, http_list_lifecycle_events,
      http_prometheus_metrics; solve_answers answered_atom].
  - unfold http_download_artifact. apply answers_with_id; [by right|]. intros aid st.
    destruct (acquire_slot st) as [st1|]; [apply finish_download_answered|by right].
Qed.

Lemma on_post_answered route rq h :
  on_post (backend := backend) limits blob_root workdir_root path_var execute_workflow route rq = Some h ->
  answers (answered rq) h.
Proof.
  destruct route; cbn; intros [= <-];
    unfold http_register_component, http_submit_run, http_cancel_run, http_reproduce_run, http_execute_run,
      http_submit_workflow, http_cancel_workflow, http_execute_workflow, http_upload_artifact;
    solve_answers answered_atom.
Qed.

(** (C25) Errors are always structured.  Whatever the request and whatever the
    operation it reaches answers or fails with, the response is the web
    framework's own rejection, or a success (200 or 201) that carries no error,
    or an error envelope whose code is the one of its status; an answer to
    HEAD is such a response without its body. *)
Theorem errors_enveloped rq (st : state) :
  exists rs, answered rq rs /\
    ((serve rq st).2 = rs \/ rq_method rq = HEAD /\ (serve rq st).2 = without_body rs).
Proof.
  assert (Hroute : forall route,
    let h := route_handler (backend := backend) limits blob_root workdir_root path_var pkg_version
               execute_workflow route rq in
    exists rs, answered rq rs /\ ((h st).2 = rs \/ rq_method rq = HEAD /\ (h st).2 = without_body rs)).
  { intros route h. subst h. unfold route_handler. destruct (rq_method rq) eqn:Hm.
    - destruct (on_get _ _ route rq) as [h|] eqn:Hh; cbn [default from_option id].
      + exists (h st).2. split; [by eapply on_get_answered|by left].
      + eexists. split; [by left|by left].
    - destruct (on_get _ _ route rq) as [h|] eqn:Hh; cbn.
      + exists (h st).2. split; [by eapply on_get_answered|right]. by destruct (h st).
      + eexists. split; [by left|by left].
    - destruct (on_post _ _ _ _ _ route rq) as [h|] eqn:Hh; cbn [default from_option id].
      + exists (h st).2. split; [by eapply on_post_answered|by left].
      + eexists. split; [by left|by left].
    - eexists. split; [by left|by left]. }
  unfold router. destruct (matched_route (rq_path rq)) as [route|].
  2: { eexists. split; [by left|by left]. }
  destruct (route_protected route); [|apply Hroute]. unfold require_api_bearer.
  destruct (authorize_request _ _) as [u|rs] eqn:Ha; [apply Hroute|].
  exists rs. split; [|by left]. right. unfold authorize_request in Ha. case_bool_decide; [done|].
  destruct (_ ≫= authenticate _) as [p|].
  - unfold ensure in Ha. destruct (StaticPrincipal_permits _ _); [done|]. by injection Ha as <-.
  - by injection Ha as <-.
Qed.

(** ** Downloads *)

(** Four permits, each free, held by a read that is awaited, or by a snapshot
    of at most 16 MiB. *)
Definition slots_ok (st : state) : Prop :=
  (st_free_slots st + st_reading st + len (st_snapshots st) = 4)%N /\
  Forall (fun bs => len bs <= DOWNLOAD_CONTENT_LIMIT)%N (st_snapshots st).

Definition slots_same (st st' : state) : Prop :=
  st_free_slots st' = st_free_slots st /\ st_reading st' = st_reading st /\
  st_snapshots st' = st_snapshots st.

#[local] Instance slots_same_preorder : PreOrder slots_same.
Proof. split; [done|]. intros a b c (? & ? & ?) (? & ? & ?). split_and!; congruence. Qed.

(** The server: the state of its handlers, and the number of blocking reads
    whose handler is gone. *)
Record Server := mkServer { sv_state : state; sv_detached : N }.

(** What happens to the server: a whole request, one of the two halves of a
    download interleaved with anything else, the handler of a download being
    dropped during the read, such a read ending, the transport dropping a
    snapshot, or a change of the orchestrator by another caller. *)
Inductive server_step : Server -> Server -> Prop :=
| step_request rq st n : server_step (mkServer st n) (mkServer (serve rq st).1 n)
| step_acquire st st' n : acquire_slot st = Some st' -> server_step (mkServer st n) (mkServer st' n)
| step_finish id st n :
    (0 < st_reading st)%N -> server_step (mkServer st n) (mkServer (finish_download blob_root id st).1 n)
| step_cancel st n :
    (0 < st_reading st)%N -> server_step (mkServer st n) (mkServer (cancel_download st) (n + 1))
| step_detached id st n :
    (0 < n)%N -> server_step (mkServer st n) (mkServer (detached_read blob_root id st) (n - 1))
| step_drop i st n : server_step (mkServer st n) (mkServer (drop_snapshot i st) n)
| step_orchestrator o st n : server_step (mkServer st n) (mkServer (set_orchestrator st o) n).

Definition fresh_server (o : Orchestrator Store Fences) (principals : list StaticPrincipal) : Server :=
  mkServer (set_principals (HubState_new o) principals) 0.

Context `{!EnvironmentLaws}.

Lemma acquire_slot_ok st st' : slots_ok st -> acquire_slot st = Some st' -> slots_ok st' /\ (0 < st_reading st')%N.
Proof.
  intros [Hn Hb]. unfold acquire_slot. destruct (N.ltb_spec 0 (st_free_slots st)); [|done].
  intros [= <-]. split; [split; cbn; [lia|done]|cbn; lia].
Qed.

Lemma finish_download_ok id st :
  slots_ok st -> (0 < st_reading st)%N -> slots_ok (finish_download blob_root id st).1.
Proof.
  intros [Hn Hb] Hr. unfold finish_download.
  destruct (Orchestrator_artifact_bytes_bounded _ _ _ _) as [o r] eqn:Hread.
  destruct r as [[meta bs]|e]; cbn [joined].
  - apply artifact_bytes_bounded_Ok in Hread as (_ & Hle & Hlen & _); [|done..].
    split; cbn -[DOWNLOAD_CONTENT_LIMIT len]; [unfold len in *; cbn [length]; lia|].
    constructor; [lia|done].
  - destruct (joined_Err (A := ArtifactMeta * list N) e) as (rs & Hj & _). cbn [joined] in Hj. rewrite Hj.
    split; cbn; [lia|done].
Qed.

Lemma slots_ok_same st st' : slots_same st st' -> slots_ok st -> slots_ok st'.
Proof. intros (Hf & Hr & Hs) [Hn Hb]. split; by rewrite ?Hf, ?Hr, ?Hs. Qed.

Lemma slots_call {A} (call : action (Orchestrator Store Fences) CoreError A) st :
  slots_same st (set_orchestrator st (call (st_orchestrator st)).1).
Proof. done. Qed.

(** Every handler but the download's leaves the permits alone. *)
Lemma handler_slots route rq h :
  (on_get (backend := backend) blob_root pkg_version route rq = Some h /\ (forall id, route <> RtArtifactContent id)) \/
  on_post (backend := backend) limits blob_root workdir_root path_var execute_workflow route rq = Some h ->
  along slots_same h.
Proof.
  intros [[Hg Hroute]|Hp].
  - destruct route; cbn in Hg; injection Hg as <- || done; try solve [
      unfold http_health, http_ready, http_list_components, http_get_component, http_list_capabilities,
        http_list_runs, http_get_run, http_list_workflows, http_get_workflow, http_get_publication,
        http_list_artifacts, http_get_artifact, http_portable_digest, http_list_lifecycle_events,
        http_prometheus_metrics; solve_along ltac:(intros ?; apply slots_call)].
    by destruct (Hroute id).
  - destruct route; cbn in Hp; injection Hp as <- || done;
      unfold http_register_component, http_submit_run, http_cancel_run, http_reproduce_run, http_execute_run,
        http_submit_workflow, http_cancel_workflow, http_execute_workflow, http_upload_artifact;
      solve_along ltac:(intros ?; apply slots_call).
Qed.

Lemma route_handler_slots route rq st :
  slots_ok st ->
  slots_ok (route_handler (backend := backend) limits blob_root workdir_root path_var pkg_version
    execute_workflow route rq st).1.
Proof.
  intros Hok. unfold route_handler.
  assert (Hget : forall h, on_get (backend := backend) blob_root pkg_version route rq = Some h -> slots_ok (h st).1).
  { intros h Hh.
    assert ((exists id, route = RtArtifactContent id) \/ (forall id, route <> RtArtifactContent id))
      as [[id ->]|Hroute] by (destruct route; first [right; discriminate|left; by eexists]).
    - cbn in Hh. injection Hh as <-. unfold http_download_artifact, with_id.
      destruct (typed_id id) as [aid|]; [|done]. destruct (acquire_slot st) as [st1|] eqn:Ha; [|done].
      apply (acquire_slot_ok _ _ Hok) in Ha as [Hok1 Hr]. by apply finish_download_ok.
    - apply (slots_ok_same st); [|done]. apply (handler_slots route rq h). by left. }
  destruct (rq_method rq).
  - destruct (on_get _ _ route rq) as [h|]; [by apply Hget|done].
  - destruct (on_get _ _ route rq) as [h|]; [|done]. cbn. specialize (Hget h eq_refl). by destruct (h st).
  - destruct (on_post _ _ _ _ _ route rq) as [h|] eqn:Hp; [|done]. cbn [default from_option id].
    apply (slots_ok_same st); [|done]. apply (handler_slots route rq h). by right.
  - done.
Qed.

Lemma cancel_download_ok st : slots_ok st -> (0 < st_reading st)%N -> slots_ok (cancel_download st).
Proof. intros [Hn Hb] Hr. split; [cbn [cancel_download set_slots st_free_slots st_reading st_snapshots]; lia|done]. Qed.

Lemma drop_snapshot_ok i st : slots_ok st -> slots_ok (drop_snapshot i st).
Proof.
  intros [Hn Hb]. unfold drop_snapshot. destruct (st_snapshots st !! i) as [bs|] eqn:Hi; [|done].
  pose proof (length_delete (st_snapshots st) i (mk_is_Some _ _ Hi)) as Hlen.
  pose proof (lookup_lt_Some _ _ _ Hi). unfold len in Hn. split; [|by apply Forall_delete].
  cbn [set_slots st_free_slots st_reading st_snapshots]. unfold len. lia.
Qed.

Lemma server_step_slots sv sv' : server_step sv sv' -> slots_ok (sv_state sv) -> slots_ok (sv_state sv').
Proof.
  intros [rq st n|st st' n Ha|id st n Hr|st n Hr|id st n Hn|i st n|o st n] Hok; cbn [sv_state] in *.
  - unfold router. destruct (matched_route _) as [route|]; [|done].
    destruct (route_protected route); [|by apply route_handler_slots].
    unfold require_api_bearer. destruct (authorize_request _ _); [by apply route_handler_slots|done].
  - by apply acquire_slot_ok in Ha as [? _].
  - by apply finish_download_ok.
  - by apply cancel_download_ok.
  - done.
  - by apply drop_snapshot_ok.
  - done.
Qed.

(** The snapshots are as large as their number allows. *)
Lemma snapshots_total st :
  slots_ok st -> (foldr (fun bs n => len bs + n) 0 (st_snapshots st) <= len (st_snapshots st) * DOWNLOAD_CONTENT_LIMIT)%N.
Proof.
  intros [_ Hb]. induction Hb as [|bs l Hle _ IH]; [done|]. cbn [foldr]. unfold len in *. cbn [length].
  rewrite Nat2N.inj_succ, N.mul_succ_l. lia.
Qed.

(** (C26) The binary answers held in memory are bounded.  From a fresh server,
    through any interleaving of requests, halves of downloads, handlers
    dropped during their read, snapshots dropped by the transport and other
    work, each of the four permits is free, held by a read that a handler
    awaits, or held by a snapshot; so at most four of these are live, the
    snapshots hold at most 64 MiB together, and no permit is ever lost, not
    even by a cancelled download.  Reads whose handler was dropped hold no
    permit and are not bounded ([cancelled_reads_unbounded]). *)
Theorem downloads_bounded o principals sv :
  rtc server_step (fresh_server o principals) sv ->
  let st := sv_state sv in
  (st_free_slots st + st_reading st + len (st_snapshots st) = 4)%N /\
  (foldr (fun bs n => len bs + n) 0 (st_snapshots st) <= 64 * 1024 * 1024)%N /\
  (st_reading st = 0%N -> st_snapshots st = [] -> st_free_slots st = 4%N).
Proof.
  intros Hrun st. assert (Hok : slots_ok st).
  { remember (fresh_server _ _) as sv0 eqn:E0. assert (Hok0 : slots_ok (sv_state sv0)) by (subst; by split).
    clear E0. subst st. induction Hrun as [|? ? ? Hs _ IH]; [done|]. by eapply IH, server_step_slots. }
  pose proof (snapshots_total st Hok) as Hsum. destruct Hok as [Hn _].
  split_and!; [done| |by intros Hr Hs; rewrite Hr, Hs in Hn; unfold len in Hn; cbn [length] in Hn; lia].
  unfold DOWNLOAD_CONTENT_LIMIT in Hsum. lia.
Qed.

(** A client that asks for a download and goes away, again and again: any
    number of blocking reads is in progress while all permits are free. *)
Theorem cancelled_reads_unbounded o principals n :
  rtc server_step (fresh_server o principals) (mkServer (set_principals (HubState_new o) principals) n).
Proof.
  induction n as [|n IH] using N.peano_ind; [apply rtc_refl|]. rewrite <- N.add_1_r.
  set (st := set_principals (HubState_new o) principals) in *.
  eapply rtc_r; [eapply rtc_r; [exact IH|by apply (step_acquire st (set_slots st 3 1 []))]|].
  by apply (step_cancel (set_slots st 3 1 [])).
Qed.
End safety.
