(* ===== verification/ApiFlows.v ===== *)
(** * What clients obtain through the API

    Theorems on [Api] that follow a client over one or several requests:
    registration, the capability summary, submission and lookup of a run,
    upload and download of an artifact, and polling of the event log. *)

From stdpp Require Import base gmap strings list pretty.
From S2P Require Import Prelude Text Core Version Digest Machine Blobs Component Run Workflow Task.
From S2P Require Import TaskLifecycle Publication Event Memory Ports Exec Scicapsule Hub Submit Execute.
From S2P Require Import Attempts Reads Metrics Wire Auth Api.

Section flows.
Context `{JsonLib, ManifestJson, Sha256Lib, Environment, UuidLib} {UT : UuidText}.
Context {backend : Executor} {WF : WebFramework}.
Context {Store Fences : Type} `{!Repositories Store, !Listings Store, !LifecycleEventRepository Store}.
Context `{!PublicationFenceRepository Fences}.
Context (limits : Limits) (blob_root workdir_root path_var pkg_version : string).
Context (execute_workflow : WorkflowId -> action (Orchestrator Store Fences) CoreError WorkflowRecord).

Abbreviation state := (HubState (Store := Store) (Fences := Fences)).
Abbreviation serve := (router (backend := backend) limits blob_root workdir_root path_var pkg_version execute_workflow).

(** A request that reaches the handler of its route. *)
Definition admitted (st : state) (rq : Request) (route : ApiRoute) : Prop :=
  matched_route (rq_path rq) = Some route /\
  (route_protected route = true -> authorize_request (st_api_principals st) rq = Ok tt).

Lemma api_get st rq route h :
  admitted st rq route -> rq_method rq = GET ->
  on_get (backend := backend) blob_root pkg_version route rq = Some h -> serve rq st = h st.
Proof.
  intros [Hr Ha] Hm Hh. unfold router, require_api_bearer, route_handler. rewrite Hr, Hm, Hh.
  destruct (route_protected route); [by rewrite Ha|done].
Qed.

Lemma api_post st rq route h :
  admitted st rq route -> rq_method rq = POST ->
  on_post (backend := backend) limits blob_root workdir_root path_var execute_workflow route rq = Some h ->
  serve rq st = h st.
Proof.
  intros [Hr Ha] Hm Hh. unfold router, require_api_bearer, route_handler. rewrite Hr, Hm, Hh.
  destruct (route_protected route); [by rewrite Ha|done].
Qed.

(** An operation that succeeded, or the response to its failure. *)
Lemma offload_inv {A} (call : action (Orchestrator Store Fences) CoreError A) k (st : state) st' rs :
  offload call k st = (st', rs) ->
  exists o r, call (st_orchestrator st) = (o, r) /\
    match r with
    | Ok a => k a (set_orchestrator st o) = (st', rs)
    | Err e => st' = set_orchestrator st o /\ exists env, rs_body rs = PError env
    end.
Proof.
  unfold offload. destruct (call _) as [o r]. intros Hk. exists o, r. split; [done|].
  destruct r as [a|e]; [exact Hk|]. cbn [joined] in Hk.
  destruct e; injection Hk as <- <-; split; try done; by eexists.
Qed.

(** ** The capability summary *)
Definition declarations (manifests : list ComponentManifest) (name : CapabilityName) : list Capability :=
  List.filter (fun c => bool_decide (cap_name c = name)) (manifests ≫= m_capabilities).

Lemma count_capability_lookup l name acc :
  foldl count_capability acc l !! name =
  match acc !! name, List.filter (fun c => bool_decide (cap_name c = name)) l with
  | Some (n, v), found => Some ((n + len found)%N, v)
  | None, [] => None
  | None, c :: found => Some (len (c :: found), cap_contract_version c)
  end.
Proof.
  revert acc. induction l as [|c l IH]; intros acc; cbn [foldl List.filter].
  - destruct (acc !! name) as [[n v]|]; [|done]. unfold len. cbn. by rewrite N.add_0_r.
  - rewrite IH. unfold count_capability. case_bool_decide as Hn.
    + rewrite <- Hn, lookup_insert_eq. destruct (acc !! cap_name c) as [[n v]|].
      * f_equal. unfold len. cbn [length]. f_equal. lia.
      * f_equal. unfold len. cbn [length]. f_equal. lia.
    + rewrite lookup_insert_ne by done. done.
Qed.

(** The summary lists each capability once, with the number of times the
    registered manifest versions declare it and the contract version of the
    first of these declarations. *)
Lemma summary_exact o manifests :
  components_list (o_store o) = Ok manifests ->
  exists l, summarize_capabilities (Fences := Fences) o = Ok l /\ NoDup (cs_name <$> l) /\
    forall s, s ∈ l <-> exists c found, declarations manifests (cs_name s) = c :: found /\
      s = {| cs_name := cs_name s; cs_declared_by := len (c :: found);
             cs_contract_version := cap_contract_version c |}.
Proof.
  intros Hl. unfold summarize_capabilities, Orchestrator_components. rewrite Hl. cbn [mbind result_bind].
  set (counts := foldl count_capability ∅ (manifests ≫= m_capabilities)).
  eexists. split; [done|]. split.
  - rewrite <- list_fmap_compose.
    replace (_ <$> map_iter counts) with (map_keys counts);
      [apply NoDup_map_keys|unfold map_keys; apply list_fmap_ext; by intros i [? []]].
  - intros s. rewrite list_elem_of_fmap.
    assert (Hc : forall name, counts !! name =
      match declarations manifests name with
      | [] => None
      | c :: found => Some (len (c :: found), cap_contract_version c)
      end) by (intros name; unfold counts; by rewrite count_capability_lookup, lookup_empty).
    split.
    + intros ([name [n v]] & -> & Hn%elem_of_map_iter). cbn. rewrite Hc in Hn.
      destruct (declarations manifests name) as [|c found]; [done|]. injection Hn as <- <-. by exists c, found.
    + intros (c & found & Hd & ->). cbn in Hd |- *. exists (cs_name s, (len (c :: found), cap_contract_version c)).
      split; [done|]. apply elem_of_map_iter. by rewrite Hc, Hd.
Qed.

(** ** Registration *)
Context `{!RepositoriesLaws Store}.

Lemma register_component_Ok m (o o' : Orchestrator Store Fences) status :
  repo_ok (o_store o) -> register_component m o = (o', Ok status) ->
  ComponentManifest_validate m = Ok tt /\ repo_ok (o_store o') /\
  exists t b, components_put (o_store o) m t = (o_store o', Ok b) /\
    status = if b then RgCreated else RgAlreadyRegistered.
Proof.
  intros Hok Hr. unfold register_component in Hr.
  apply action_bind_Ok in Hr as (o1 & [] & [-> Hv]%lift_Ok & Hr).
  apply action_bind_Ok in Hr as (o1 & t & (mc & _ & ->)%on_machine_inv & Hr).
  apply action_bind_Ok in Hr as (o1 & b & (s & Hput & ->)%on_store_inv & Hr).
  apply action_bind_Ok in Hr as (o1 & d & [-> _]%lift_Ok & Hr). apply mret_Ok in Hr as [-> <-].
  cbn in *. split; [done|]. split; [|by exists t, b].
  pose proof (components_put_frame (o_store o) m t Hok) as [Hok' _]. by rewrite Hput in Hok'.
Qed.

(** What a registration is answered.  An answer 201 means that the
    request spoke this protocol version, the manifest is valid, its version
    of the component was not registered before and is now registered with
    exactly the content sent; 200 means that the registry was left as it was
    for that version.  Either way the component and digest in the answer are
    those of the newest registered version -- the manifest sent, exactly when
    no newer version of the component is registered. *)
Theorem registration_answer rq (st st' : state) rs request :
  repo_ok (o_store (st_orchestrator st)) -> admitted st rq RtComponents -> rq_method rq = POST ->
  json_register_component (max_manifest_bytes limits) rq = Ok request ->
  serve rq st = (st', rs) ->
  let m := ComponentManifest_from_dto (rcq_manifest request) in
  let before := o_store (st_orchestrator st) in
  let after := o_store (st_orchestrator st') in
  forall r, rs_body rs = PRegistered r ->
    rcq_schema_version request = PROTOCOL_VERSION /\ ComponentManifest_validate m = Ok tt /\
    (rs_status rs = CREATED /\ rcs_status r = "created" /\
       components_get before (m_id m) (m_version m) = Ok None /\ registered after m \/
     rs_status rs = OK /\ rcs_status r = "already_registered" /\
       components_get after (m_id m) (m_version m) = components_get before (m_id m) (m_version m)) /\
    exists latest, components_latest after (m_id m) = Ok (Some latest) /\
      rcs_component r = ComponentDto_from latest /\ rcs_manifest_digest r = digest_text latest /\
      (registered after m ->
       latest = m <-> forall m', registered after m' -> m_id m' = m_id m -> ord_le (m_version m') (m_version m)).
Proof.
  intros Hok Hadm Hm Hbody Hs m before after r Hr. rewrite (api_post st rq _ _ Hadm Hm eq_refl) in Hs.
  unfold http_register_component, with_body in Hs. rewrite Hbody in Hs. unfold check_schema_version in Hs.
  destruct (N.eqb_spec (rcq_schema_version request) PROTOCOL_VERSION) as [Hv|]; [|by injection Hs as _ <-].
  split; [done|]. apply offload_inv in Hs as (o & res & Hcall & Hs).
  destruct res as [status|e]; [|destruct Hs as (_ & env & He); congruence].
  apply register_component_Ok in Hcall as (Hval & Hok' & t & b & Hput & ->); [|done].
  split; [done|]. apply components_put_law in Hput as [_ Hb]; [|done].
  fold m in Hs, Hval, Hok', Hb. cbn [st_orchestrator set_orchestrator] in Hs. unfold Orchestrator_component in Hs.
  change (md_id (rcq_manifest request)) with (m_id m) in Hs.
  destruct (components_latest (o_store o) (m_id m)) as [[latest|]|] eqn:Hl; [|by injection Hs as _ <-..].
  injection Hs as <- <-. cbn in Hr. injection Hr as <-. subst after. cbn [st_orchestrator set_orchestrator].
  split.
  { destruct b; [destruct Hb as [Hb1 Hb2]; left|right].
    - split; [done|]. split; [done|]. split; [exact Hb1|exact Hb2].
    - split; [done|]. split; [done|]. exact Hb. }
  exists latest. split_and!; try done. intros Hreg.
  apply (components_latest_law _ _ _ Hok') in Hl as (Hid & Hlr & Hmax). split.
  - intros ->. exact Hmax.
  - intros Hle. assert (Hver : m_version latest = m_version m).
    { apply (anti_symm ord_le); [by apply Hle|by apply Hmax]. }
    unfold registered in Hlr, Hreg. rewrite Hid, Hver in Hlr. congruence.
Qed.

(** ** Runs *)

(** A run submitted over HTTP is the run that is stored.  If a submission
    is answered with a run, the status is 201, the run is queued with exactly
    the specification sent, it was admitted against a registered component
    (its newest version), and asking for it by its identifier answers 200 with
    that very payload and changes nothing. *)
Theorem submitted_run_visible rq (st st1 : state) rs request d :
  repo_ok (o_store (st_orchestrator st)) -> admitted st rq RtRuns -> rq_method rq = POST ->
  json_submit_run (max_manifest_bytes limits) rq = Ok request ->
  serve rq st = (st1, rs) -> rs_body rs = PRunSubmitted d ->
  rs_status rs = CREATED /\ rd_state d = RsQueued /\ rd_spec d = srq_run_spec request /\
  rd_reproduced_from d = None /\
  (exists m dg c, run_checked limits (o_store (st_orchestrator st)) (RunSpec_from_dto (srq_run_spec request))
                    None m dg c /\ rd_component_version d = m_version m) /\
  forall rq' raw, admitted st1 rq' (RtRun raw) -> rq_method rq' = GET ->
    uuid_from_str raw = Some (as_uuid (rd_id d)) -> serve rq' st1 = (st1, response OK (PRun d)).
Proof.
  intros Hok Hadm Hm Hbody Hs Hd. rewrite (api_post st rq _ _ Hadm Hm eq_refl) in Hs.
  unfold http_submit_run, with_body in Hs. rewrite Hbody in Hs.
  destruct (check_schema_version _); [|injection Hs as _ <-; discriminate Hd].
  apply offload_inv in Hs as (o & [r|e] & Hcall & Hs); [|destruct Hs as (_ & env & He); congruence].
  injection Hs as <- <-. cbn in Hd. injection Hd as <-.
  apply (submit_run_sound limits) in Hcall as (m & dg & c & Hc & (Hspec & Hst & _ & Hver & _ & _ & Hrf & _) & Hget & _);
    [|done].
  split_and!; try done.
  - cbn. by rewrite Hspec, dto_run_spec_roundtrip.
  - by exists m, dg, c.
  - intros rq' raw Hadm' Hm' Hraw. rewrite (api_get _ rq' _ _ Hadm' Hm' eq_refl).
    unfold http_get_run, with_id, typed_id. rewrite Hraw. cbn [fmap option_fmap option_map].
    unfold Orchestrator_run. cbn [st_orchestrator set_orchestrator].
    destruct (run_id r) as [n] eqn:Hid. cbn [rd_id RunDto_from as_uuid] in *. rewrite Hid. cbn [as_uuid].
    by rewrite Hget.
Qed.

(** ** Artifacts *)
Context `{!Sha256Laws, !EnvironmentLaws}.

Lemma ingest_artifact_Ok name media_type bs (o o' : Orchestrator Store Fences) meta :
  repo_ok (o_store o) -> ingest_artifact limits blob_root name media_type bs o = (o', Ok meta) ->
  art_name meta = name /\ art_media_type meta = media_type /\ art_size meta = len bs /\
  (len bs <= max_artifact_bytes limits)%N /\ art_digest meta = hash_bytes DOMAIN_ARTIFACT_BLOB bs /\
  art_produced_by_run meta = None /\
  exists stored, artifacts_get (o_store o') (art_id meta) = Ok (Some stored) /\
    ContentDigest_to_hex (art_digest stored) = ContentDigest_to_hex (art_digest meta).
Proof.
  intros Hok Hr. unfold ingest_artifact in Hr.
  apply action_bind_Ok in Hr as (o1 & n & (mc1 & _ & ->)%on_machine_inv & Hr). cbn zeta in Hr.
  apply action_bind_Ok in Hr as (o1 & [] & [-> _]%lift_Ok & Hr).
  apply action_bind_Ok in Hr as (o1 & [] & [-> Hle%ensure_Ok]%lift_Ok & Hr). bool_inv.
  apply action_bind_Ok in Hr as (o1 & t & (mc2 & _ & ->)%on_machine_inv & Hr). cbn zeta in Hr.
  apply action_bind_Ok in Hr as (o1 & [] & [-> _]%lift_Ok & Hr).
  apply action_bind_Ok in Hr as (o1 & dg & (mc3 & _ & ->)%on_machine_inv & Hr).
  apply action_bind_Ok in Hr as (o1 & [] & (s & Hput & ->)%on_store_inv & Hr).
  apply mret_Ok in Hr as [-> <-]. cbn in *.
  apply artifacts_put_law in Hput as (a' & Hg & Hd & _); [|done]. split_and!; try done. by exists a'.
Qed.

Lemma digest_to_hex_inj d d' :
  digest_wf d -> digest_wf d' -> ContentDigest_to_hex d = ContentDigest_to_hex d' -> d = d'.
Proof.
  intros Hw Hw' Heq. pose proof (proj2 (digest_hex_roundtrip d Hw)) as Hd.
  pose proof (proj2 (digest_hex_roundtrip d' Hw')) as Hd'. rewrite Heq in Hd. congruence.
Qed.

(** Two contents under one digest are one content. *)
Lemma same_digest_content bs bs' d :
  d = hash_bytes DOMAIN_ARTIFACT_BLOB bs ->
  d = hash_bytes DOMAIN_ARTIFACT_BLOB bs' \/ d = hash_bytes DOMAIN_CAPTURE bs' ->
  bs' = bs \/ blob_collision bs' bs.
Proof.
  intros -> [Heq|Heq]; symmetry in Heq; apply hash_bytes_separated in Heq as [[Hd Hbs]|Hc];
    first [by vm_compute|by left|discriminate Hd|right; eexists _, _; split_and!; [..|exact Hc]; by (left + right)].
Qed.

(** A request for the content of an artifact answered with bytes. *)
Lemma download_inv rq raw (st st' : state) rs bs :
  admitted st rq (RtArtifactContent raw) -> rq_method rq = GET -> serve rq st = (st', rs) ->
  rs_body rs = PBytes bs ->
  exists id meta, uuid_from_str raw = Some (as_uuid id) /\ rs_status rs = OK /\
    artifacts_get (o_store (st_orchestrator st)) id = Ok (Some meta) /\
    (art_size meta <= DOWNLOAD_CONTENT_LIMIT)%N /\ artifact_content blob_root (st_orchestrator st) meta bs.
Proof.
  intros Hadm Hm Hs Hb. rewrite (api_get st rq _ _ Hadm Hm eq_refl) in Hs.
  unfold http_download_artifact, with_id, typed_id in Hs.
  destruct (uuid_from_str raw) as [n|]; cbn [fmap option_fmap option_map] in Hs;
    [|injection Hs as _ <-; discriminate Hb].
  unfold acquire_slot in Hs. destruct (0 <? st_free_slots st)%N; [|injection Hs as _ <-; discriminate Hb].
  unfold finish_download in Hs. cbn [st_orchestrator set_slots] in Hs.
  destruct (Orchestrator_artifact_bytes_bounded _ _ _ _) as [o [[meta bs']|e]] eqn:Hread; cbn [joined] in Hs.
  - injection Hs as _ <-. cbn in Hb. injection Hb as ->.
    apply artifact_bytes_bounded_Ok in Hread as (Hg & Hle & Hc); [|done..].
    exists (from_uuid n), meta. by split_and!.
  - destruct e; injection Hs as _ <-; discriminate Hb.
Qed.

(** (C24) What is downloaded is what was uploaded.  An upload that is answered
    with an artifact was answered 201, describes the body sent -- its length,
    its content digest, its declared name and type -- and its metadata is
    stored.  Whenever a later download of that artifact is answered with
    bytes, from any state in which the metadata stored under its identifier
    still has that digest and whatever happened to the files meanwhile, the
    bytes are the body of the upload, or SHA-256 collides on the two. *)
Theorem upload_download rq (st st1 : state) rs dto :
  repo_ok (o_store (st_orchestrator st)) -> admitted st rq RtArtifacts -> rq_method rq = POST ->
  serve rq st = (st1, rs) -> rs_body rs = PArtifact dto ->
  rs_status rs = CREATED /\ ad_size dto = len (rq_body rq) /\
  ad_digest dto = hash_bytes DOMAIN_ARTIFACT_BLOB (rq_body rq) /\
  rq_headers rq !! "x-scirust-artifact-name" = Some (ad_name dto) /\
  rq_headers rq !! "content-type" = Some (ad_media_type dto) /\
  (exists meta, artifacts_get (o_store (st_orchestrator st1)) (ad_id dto) = Ok (Some meta) /\
     ContentDigest_to_hex (art_digest meta) = ContentDigest_to_hex (ad_digest dto)) /\
  forall st2 rq' raw st3 rs' bs meta,
    artifacts_get (o_store (st_orchestrator st2)) (ad_id dto) = Ok (Some meta) ->
    ContentDigest_to_hex (art_digest meta) = ContentDigest_to_hex (ad_digest dto) ->
    admitted st2 rq' (RtArtifactContent raw) -> rq_method rq' = GET ->
    uuid_from_str raw = Some (as_uuid (ad_id dto)) ->
    serve rq' st2 = (st3, rs') -> rs_body rs' = PBytes bs -> bs = rq_body rq \/ blob_collision bs (rq_body rq).
Proof.
  intros Hok Hadm Hm Hs Hb. rewrite (api_post st rq _ _ Hadm Hm eq_refl) in Hs.
  unfold http_upload_artifact, required_header in Hs.
  destruct (rq_headers rq !! "x-scirust-artifact-name") as [name|]; cbn [mbind option_bind] in Hs;
    [|injection Hs as _ <-; discriminate Hb].
  case_bool_decide; [injection Hs as _ <-; discriminate Hb|].
  destruct (rq_headers rq !! "content-type") as [media|]; cbn [mbind option_bind] in Hs;
    [|injection Hs as _ <-; discriminate Hb].
  case_bool_decide; [injection Hs as _ <-; discriminate Hb|].
  destruct (_ <=? _)%N; [|injection Hs as _ <-; discriminate Hb].
  apply offload_inv in Hs as (o & [meta|e] & Hcall & Hs); [|destruct Hs as (_ & env & He); congruence].
  injection Hs as <- <-. cbn in Hb. injection Hb as <-.
  apply ingest_artifact_Ok in Hcall as (<- & <- & Hsz & _ & Hdg & _ & Hst); [|done].
  split_and!; try done. cbn [ad_id ad_digest ArtifactDto_from].
  intros st2 rq' raw st3 rs' bs meta' Hg Hhex Hadm' Hm' Hraw Hs' Hb'.
  destruct (download_inv _ _ _ _ _ _ Hadm' Hm' Hs' Hb') as (id & meta2 & Hid & _ & Hg2 & _ & (_ & _ & Hc)).
  rewrite Hraw in Hid. destruct id as [n], (art_id meta) as [n']. cbn in Hid. injection Hid as ->.
  rewrite Hg in Hg2. injection Hg2 as <-.
  assert (Hwf : digest_wf (art_digest meta')) by (destruct Hc as [-> | ->]; apply hash_bytes_wf).
  apply digest_to_hex_inj in Hhex; [|done|rewrite Hdg; apply hash_bytes_wf].
  rewrite Hhex, Hdg in Hc.
  exact (same_digest_content (rq_body rq) bs _ eq_refl Hc).
Qed.

(** ** Events *)

(** A client that polls: it asks for the page after its cursor and takes
    [next_after] as the next one, for at most [fuel] pages, until a page is
    empty; [None] is any other answer.  The daemon's last state is part of
    the result. *)
Fixpoint http_poll (page_request : N -> N -> Request) (fuel : nat) (st : state) (after limit : N)
    : state * option (list LifecycleEventDto) :=
  match fuel with
  | O => (st, Some [])
  | S fuel =>
      let '(st, rs) := serve (page_request after limit) st in
      match rs_body rs with
      | PEvents page =>
          match lel_events page with
          | [] => (st, Some [])
          | events =>
              let '(st, rest) := http_poll page_request fuel st (lel_next_after page) limit in
              (st, app events <$> rest)
          end
      | _ => (st, None)
      end
  end.

(** The request for a page: cursor and size as decimal query parameters. *)
Definition page_query (page_request : N -> N -> Request) (st : state) : Prop :=
  forall after limit,
    rq_method (page_request after limit) = GET /\ admitted st (page_request after limit) RtEvents /\
    axum_query (page_request after limit) =
      Some {[ "after" := pretty after; "limit" := pretty limit ]}.

Context `{!LifecycleEventLaws Store}.

Lemma events_page page_request (st : state) log after limit :
  page_query page_request st -> st_events st = StoreEvents ->
  holds_log (o_store (st_orchestrator st)) log -> log_ok log ->
  (after < 2 ^ 63)%N -> (1 <= limit <= 1000)%N ->
  let page := take (N.to_nat limit) (drop (N.to_nat after) (il_events log)) in
  serve (page_request after limit) st =
    (st, response OK (PEvents {| lel_events := LifecycleEventDto_from <$> page;
                                 lel_next_after := match last page with Some e => ev_sequence e | None => after end |})).
Proof.
  intros Hq Hsrc Hlog Hlok Ha Hl page. destruct (Hq after limit) as (Hm & Hadm & Hquery).
  rewrite (api_get st _ _ _ Hadm Hm eq_refl). unfold http_list_lifecycle_events, query_number.
  rewrite Hquery, lookup_insert_eq, lookup_insert_ne, lookup_singleton_eq by done.
  rewrite !parse_unsigned_pretty by (unfold u64_max, u32_max; lia).
  unfold validate_event_page_limit, MAX_EVENT_PAGE.
  assert (Hlim : ((1 <=? limit) && (limit <=? 1000))%N = true) by (rewrite andb_true_iff, !N.leb_le; lia).
  rewrite Hlim. cbn [ensure]. unfold events_list_after. rewrite Hsrc, (list_after_law _ _ _ _ Hlog Ha).
  by rewrite list_after_page.
Qed.

(** (C23) Polling over HTTP loses nothing and changes nothing.  Take a daemon
    whose event log is its store and has fewer than 2^63 events, and a client
    that repeatedly asks [/api/v1/events] for the page after the cursor of the
    previous answer, from a first cursor below 2^63 (SQLite answers an error to
    a larger one) and with a page size of 1 to 1000.  The client obtains every
    event after its first cursor, each once and in order, and then an empty
    page, and the daemon is left in the state it was in. *)
Theorem http_poll_complete page_request (st : state) log after limit fuel :
  page_query page_request st -> st_events st = StoreEvents ->
  holds_log (o_store (st_orchestrator st)) log -> log_ok log ->
  (len (il_events log) < 2 ^ 63)%N -> (after < 2 ^ 63)%N -> (1 <= limit <= 1000)%N ->
  length (il_events log) < fuel ->
  http_poll page_request fuel st after limit =
    (st, Some (LifecycleEventDto_from <$> drop (N.to_nat after) (il_events log))).
Proof.
  intros Hq Hsrc Hlog Hlok Hlen Ha Hl Hfuel.
  assert (Hpoll : poll fuel log after limit = Ok (drop (N.to_nat after) (il_events log)))
    by (apply poll_all; [done|done|lia]).
  clear Hfuel. remember (drop (N.to_nat after) (il_events log)) as l eqn:El. clear El.
  revert after l Ha Hpoll. induction fuel as [|fuel IH]; intros after l Ha Hpoll; cbn [poll http_poll] in *.
  { by injection Hpoll as <-. }
  rewrite list_after_page in Hpoll by done. cbn [mbind result_bind] in Hpoll.
  rewrite (events_page _ st log) by done. cbn [rs_body response lel_events lel_next_after].
  destruct (last (take (N.to_nat limit) (drop (N.to_nat after) (il_events log)))) as [e|] eqn:He.
  - apply bind_Ok in Hpoll as (rest & Hrest & [= <-]).
    assert (Hcur : (ev_sequence e < 2 ^ 63)%N).
    { pose proof (page_last log after (N.to_nat limit) e Hlok He) as Hseq.
      rewrite length_take, length_drop in Hseq. unfold len in Hlen.
      assert (take (N.to_nat limit) (drop (N.to_nat after) (il_events log)) <> []) as Hne
        by (intros Hnil; by rewrite Hnil in He).
      destruct (decide (length (il_events log) <= N.to_nat after)) as [Hge|]; [|lia].
      by rewrite drop_ge, take_nil in Hne by lia. }
    destruct (take _ _) as [|x page]; [done|]. cbn [fmap list_fmap]. rewrite (IH _ rest Hcur Hrest).
    cbn. by rewrite fmap_app.
  - apply last_None in He as ->. by injection Hpoll as <-.
Qed.
End flows.
