(* ===== verification/ApiExamples.v ===== *)
(** * A concrete server

    A web framework with a few routes over the in-memory store: the theorems
    on the API apply to it, and two requests show where answers differ from
    what the documentation leads one to expect. *)

From Stdlib Require Import Ascii.
From stdpp Require Import base gmap strings list pretty.
From S2P Require Import Prelude Text Core Version Digest Machine Blobs Component Run Workflow Task.
From S2P Require Import TaskLifecycle Publication Event Memory Ports Exec Scicapsule Hub Submit Execute.
From S2P Require Import Attempts Reads Metrics Wire Auth Api ApiSafety ApiFlows Sql.

#[local] Existing Instance plain_json.
#[local] Existing Instance plain_json_utf8.
#[local] Existing Instance toy_manifest_json.
#[local] Existing Instance toy_workspace_json.
#[local] Existing Instance toy_sha.
#[local] Existing Instance toy_sha_laws.
#[local] Existing Instance calm_environment.
#[local] Existing Instance calm_environment_laws.
#[local] Existing Instance plain_uuid.
#[local] Existing Instance plain_uuid_text.

(** ** The framework *)
(** A path segment and the rest of the path. *)
Fixpoint segment (path : string) : string * string :=
  match path with
  | EmptyString => ("", "")
  | String c rest => if bool_decide (c = slash) then ("", path)
                     else let '(seg, rest) := segment rest in (String c seg, rest)
  end.

(** Matching a template from left to right; [naming] while in the name of a
    parameter, whose value may be empty here. *)
Fixpoint toy_match (naming : bool) (template path : string) : option (list string) :=
  match template with
  | EmptyString => if bool_decide (path = "") then Some [] else None
  | String c rest =>
      if naming then toy_match (negb (bool_decide (c = "}"%char))) rest path
      else if bool_decide (c = "{"%char) then
        let '(seg, path) := segment path in cons seg <$> toy_match true rest path
      else
        match path with
        | EmptyString => None
        | String d path => if bool_decide (c = d) then toy_match false rest path else None
        end
  end.

Lemma toy_match_literal path : literal_part path = path -> toy_match false path path = Some [].
Proof.
  induction path as [|c path IH]; cbn [literal_part toy_match]; [done|]. case_bool_decide; [done|].
  intros [= Hp]. rewrite bool_decide_true by done. auto.
Qed.

Lemma toy_match_only template : forall path params, toy_match false template path = Some params ->
  starts_with (literal_part template) path = true /\ (literal_part template = template -> path = template).
Proof.
  induction template as [|c template IH]; intros path params; cbn [literal_part toy_match].
  { case_bool_decide; [subst; by split|done]. }
  case_bool_decide as Hc; [intros _; by split|]. destruct path as [|d path]; [done|].
  case_bool_decide as Hd; [subst d|done]. intros [Hs Hl]%IH. unfold starts_with in *. cbn [strip_prefix].
  rewrite decide_True by done. split; [done|]. intros [= Hp]. by rewrite Hl.
Qed.

(** An older version of the registered component. *)
Definition older_manifest : ComponentManifest := {|
  m_schema_version := 1; m_id := m_id sample_manifest; m_name := m_name sample_manifest;
  m_version := mkVersion "0.9.0"; m_kind := m_kind sample_manifest;
  m_capabilities := m_capabilities sample_manifest; m_execution := m_execution sample_manifest;
  m_source := m_source sample_manifest; m_metadata := m_metadata sample_manifest |}.

Definition older_request : RegisterComponentRequest :=
  {| rcq_schema_version := 1; rcq_manifest := ComponentManifestDto_from older_manifest |}.

Definition solve_request : SubmitRunRequest :=
  {| srq_schema_version := 1; srq_run_spec := RunSpecDto_from solve_spec |}.

(** Bodies decode to fixed requests; the headers double as the query. *)
Definition toy_framework : WebFramework := {|
  axum_match := toy_match false;
  axum_rejection _ := response NOT_FOUND PFramework;
  axum_query rq := Some (rq_headers rq);
  json_register_component _ _ := Ok older_request;
  json_submit_run _ _ := Ok solve_request;
  json_submit_workflow _ _ := Err "not JSON";
  json_run_id _ _ := None |}.
#[local] Existing Instance toy_framework.

Lemma toy_framework_laws : WebFrameworkLaws.
Proof. split; [exact toy_match_literal|exact toy_match_only]. Qed.
#[local] Existing Instance toy_framework_laws.
#[local] Existing Instance writing_executor.

(** ** The server *)
Definition toy_state : HubState :=
  with_event_repository (HubState_new solver_hub).

Definition guarded_state : HubState := set_principals toy_state two_principals.

Definition no_workflow (id : WorkflowId)
    : action (Orchestrator InMemoryHubStore InMemoryPublicationFences) CoreError WorkflowRecord :=
  throw (WorkflowNotFound id).

Abbreviation toy_serve := (router (backend := writing_executor) Limits_default "/blobs" "/work" "/bin" "0.1.0" no_workflow).

Definition request (method : Method) (path : string) (headers : gmap string string) (body : list N) : Request :=
  {| rq_method := method; rq_path := path; rq_headers := headers; rq_body := body |}.

Definition post_older : Request :=
  request POST "/api/v1/components" {[ "authorization" := "Bearer o-token" ]} [].

Lemma guarded_wf p : p ∈ st_api_principals guarded_state -> principal_wf p.
Proof. apply (configured_wf _ _ _ two_configured). Qed.

Lemma guarded_nonempty : st_api_principals guarded_state <> [].
Proof. done. Qed.

Lemma guarded_unique : NoDup (sp_token_sha256 <$> st_api_principals guarded_state).
Proof. exact (proj2 (proj2 (proj1 (validate_static_principals_Ok _) (proj2 two_configured)))). Qed.

Lemma mutation_needs_control_witness :
  let st' := (toy_serve post_older guarded_state).1 in
  unchanged guarded_state st' \/
  rq_method post_older <> GET /\ rq_method post_older <> HEAD /\
  exists p, p ∈ st_api_principals guarded_state /\ bears post_older p /\ Control ∈ sp_permissions p.
Proof.
  exact (mutation_needs_control Limits_default "/blobs" "/work" "/bin" "0.1.0" no_workflow post_older
    guarded_state guarded_nonempty guarded_wf).
Defined.

Definition reader : StaticPrincipal := new_principal reader_entry.

(** A principal with the permission Inspect registers nothing. *)
Lemma access_decision_exact_witness :
  let rq := request POST "/api/v1/components" {[ "authorization" := "Bearer r-token" ]} [] in
  toy_serve rq guarded_state = (guarded_state, forbidden).
Proof.
  intros rq.
  destruct (access_decision_exact Limits_default "/blobs" "/work" "/bin" "0.1.0" no_workflow rq guarded_state
    RtComponents guarded_nonempty guarded_wf guarded_unique ltac:(by vm_compute) eq_refl) as [Hd _].
  assert (Hb : bears rq reader).
  { exists "r-token". split; [reflexivity|]. split; [discriminate|]. apply (bool_decide_unpack _). vm_compute. exact I. }
  rewrite (Hd reader (list_elem_of_here _ _) Hb).
  assert (StaticPrincipal_permits reader (required_permission (rq_method rq) (rq_path rq)) = false) as -> by (by vm_compute).
  reflexivity.
Defined.

(** A download is cancelled, two others take permits, and one of them ends. *)
Definition one_download : option HubState :=
  st0 ← cancel_download <$> acquire_slot (set_principals (HubState_new solver_hub) []);
  st1 ← acquire_slot st0;
  st2 ← acquire_slot st1;
  Some (finish_download "/blobs" (from_uuid 1) st2).1.

Lemma downloads_bounded_witness :
  exists st, one_download = Some st /\ (st_free_slots st + st_reading st + len (st_snapshots st) = 4)%N.
Proof.
  eexists. split; [reflexivity|].
  refine (proj1 (downloads_bounded Limits_default "/blobs" "/work" "/bin" "0.1.0" no_workflow solver_hub []
    (mkServer _ 1) _)).
  eapply rtc_l; [apply step_acquire; reflexivity|].
  eapply rtc_l; [apply step_cancel; reflexivity|].
  eapply rtc_l; [apply step_acquire; reflexivity|].
  eapply rtc_l; [apply step_acquire; reflexivity|].
  eapply rtc_l; [apply step_finish; reflexivity|]. apply rtc_refl.
Defined.

(** ** Flows *)
Lemma toy_admitted rq route : matched_route (rq_path rq) = Some route -> admitted toy_state rq route.
Proof. by split. Qed.

Definition registered_payload (p : Payload) : option RegisterComponentResponse :=
  match p with PRegistered r => Some r | _ => None end.

Lemma payload_registered p r : registered_payload p = Some r -> p = PRegistered r.
Proof. destruct p; try discriminate. by intros [= ->]. Qed.

Definition post_components : Request := request POST "/api/v1/components" ∅ [].

(** The answer to a registration. *)
Definition older_answer : option RegisterComponentResponse :=
  registered_payload (rs_body (toy_serve post_components toy_state).2).

Definition answered_version : option (string * string) :=
  (fun r => (rcs_status r, version_str (cp_version (rcs_component r)))) <$> older_answer.

(** Version 0.9.0 of a component is registered after version 1.0.0: the
    answer is [created], and describes version 1.0.0. *)
Lemma registration_describes_newest : answered_version = Some ("created", "1.0.0").
Proof. apply (bool_decide_unpack _). vm_compute. exact I. Qed.

Lemma registration_answer_witness :
  exists r, older_answer = Some r /\ ComponentManifest_validate older_manifest = Ok tt /\
    exists latest, components_latest (o_store (st_orchestrator (toy_serve post_components toy_state).1)) (from_uuid 7)
                     = Ok (Some latest) /\ rcs_component r = ComponentDto_from latest.
Proof.
  assert (Hs : is_Some older_answer).
  { assert (is_Some answered_version) as Ha by (rewrite registration_describes_newest; by eexists).
    unfold answered_version in Ha. by apply fmap_is_Some in Ha. }
  destruct Hs as [r Hr]. exists r. split; [exact Hr|]. apply payload_registered in Hr.
  assert (Hadm : admitted toy_state post_components RtComponents) by (apply toy_admitted; by vm_compute).
  destruct (registration_answer Limits_default "/blobs" "/work" "/bin" "0.1.0" no_workflow post_components toy_state
    _ _ older_request solver_hub_ok Hadm eq_refl eq_refl (surjective_pairing _) r Hr)
    as (_ & Hv & _ & latest & Hl & Hc & _).
  split; [exact Hv|]. exists latest. split; [exact Hl|exact Hc].
Defined.

(** One component that declares the capability in two of its versions counts
    twice. *)
Definition two_versions : Orchestrator InMemoryHubStore InMemoryPublicationFences :=
  st_orchestrator (toy_serve post_components toy_state).1.

Definition summary_pairs (r : Result (list CapabilitySummaryDto)) : list (string * N) :=
  match r with
  | Ok l => (fun s => (capability_name_str (cs_name s), cs_declared_by s)) <$> l
  | Err _ => []
  end.

Lemma summary_counts_versions :
  summary_pairs (summarize_capabilities two_versions) = [("linalg.solve", 2%N)].
Proof. apply (bool_decide_unpack _). vm_compute. exact I. Qed.

(** *** Submission and lookup *)
Definition post_runs : Request := request POST "/api/v1/runs" ∅ [].

Definition submitted_payload (p : Payload) : option RunDto :=
  match p with PRunSubmitted d => Some d | _ => None end.

Lemma payload_submitted p d : submitted_payload p = Some d -> p = PRunSubmitted d.
Proof. destruct p; try discriminate. by intros [= ->]. Qed.

Definition run_after_submission := toy_serve post_runs toy_state.

Lemma run_was_submitted : is_some (submitted_payload (rs_body run_after_submission.2)) = true.
Proof. by vm_compute. Qed.

Lemma submitted_run_visible_witness :
  exists d, rs_body run_after_submission.2 = PRunSubmitted d /\ rd_state d = RsQueued /\
    let raw := uuid_hyphenated (as_uuid (rd_id d)) in
    forall rq, admitted run_after_submission.1 rq (RtRun raw) -> rq_method rq = GET ->
      toy_serve rq run_after_submission.1 = (run_after_submission.1, response OK (PRun d)).
Proof.
  pose proof run_was_submitted as Hs.
  destruct (submitted_payload (rs_body run_after_submission.2)) as [d|] eqn:Hd; [|discriminate Hs].
  apply payload_submitted in Hd. exists d. split; [exact Hd|].
  assert (Hadm : admitted toy_state post_runs RtRuns) by (apply toy_admitted; by vm_compute).
  destruct (submitted_run_visible Limits_default "/blobs" "/work" "/bin" "0.1.0" no_workflow post_runs toy_state
    _ _ solve_request d solver_hub_ok Hadm eq_refl eq_refl (surjective_pairing _) Hd)
    as (_ & Hst & _ & _ & _ & Hget).
  split; [exact Hst|]. intros raw rq Hrq Hm. apply (Hget rq raw Hrq Hm).
  cbn. unfold raw. by rewrite length_tally, N2Nat.id.
Defined.

(** *** Upload and download *)
Definition post_artifact : Request :=
  request POST "/api/v1/artifacts"
    (<["x-scirust-artifact-name" := "vector"]> {[ "content-type" := "text/csv" ]}) [1; 2; 3]%N.

Definition uploaded := toy_serve post_artifact toy_state.

Definition artifact_payload (p : Payload) : option ArtifactDto :=
  match p with PArtifact d => Some d | _ => None end.

Lemma payload_artifact p d : artifact_payload p = Some d -> p = PArtifact d.
Proof. destruct p; try discriminate. by intros [= ->]. Qed.

Lemma artifact_was_uploaded : is_some (artifact_payload (rs_body uploaded.2)) = true.
Proof. by vm_compute. Qed.

Definition get_content (id : ArtifactId) : Request :=
  request GET (String.append "/api/v1/artifacts/" (String.append (id_to_string id) "/content")) ∅ [].

Definition bytes_payload (p : Payload) : option (list N) :=
  match p with PBytes bs => Some bs | _ => None end.

(** The bytes come back. *)
Lemma upload_comes_back :
  (d ← artifact_payload (rs_body uploaded.2);
   bytes_payload (rs_body (toy_serve (get_content (ad_id d)) uploaded.1).2)) = Some [1; 2; 3]%N.
Proof. apply (bool_decide_unpack _). vm_compute. exact I. Qed.

Lemma upload_download_witness :
  exists dto, rs_body uploaded.2 = PArtifact dto /\ ad_size dto = 3%N /\
    forall rq raw st3 rs bs meta,
      artifacts_get (o_store (st_orchestrator uploaded.1)) (ad_id dto) = Ok (Some meta) ->
      ContentDigest_to_hex (art_digest meta) = ContentDigest_to_hex (ad_digest dto) ->
      admitted uploaded.1 rq (RtArtifactContent raw) -> rq_method rq = GET ->
      uuid_from_str raw = Some (as_uuid (ad_id dto)) ->
      toy_serve rq uploaded.1 = (st3, rs) -> rs_body rs = PBytes bs -> bs = [1; 2; 3]%N \/ blob_collision bs [1; 2; 3]%N.
Proof.
  pose proof artifact_was_uploaded as Hs.
  destruct (artifact_payload (rs_body uploaded.2)) as [d|] eqn:Hd; [|discriminate Hs].
  apply payload_artifact in Hd. exists d. split; [exact Hd|].
  assert (Hadm : admitted toy_state post_artifact RtArtifacts) by (apply toy_admitted; by vm_compute).
  destruct (upload_download Limits_default "/blobs" "/work" "/bin" "0.1.0" no_workflow post_artifact toy_state
    _ _ d solver_hub_ok Hadm eq_refl (surjective_pairing _) Hd) as (_ & Hsz & _ & _ & _ & _ & Hdown).
  split; [exact Hsz|]. intros rq raw st3 rs bs meta. exact (Hdown uploaded.1 rq raw st3 rs bs meta).
Defined.

(** *** Polling *)
Definition page_request (after limit : N) : Request :=
  request GET "/api/v1/events" {[ "after" := pretty after; "limit" := pretty limit ]} [].

Definition solver_log : InMemoryLifecycleEvents := hs_events solver_store.

Lemma solver_log_ok : log_ok solver_log.
Proof.
  exact (log_ok_record_all InMemoryLifecycleEvents_default
    [component_registered_event sample_manifest 1; artifact_recorded_event matrix_meta] log_ok_default).
Qed.

Lemma http_poll_complete_witness :
  length (il_events solver_log) = 2 /\
  http_poll (backend := writing_executor) Limits_default "/blobs" "/work" "/bin" "0.1.0" no_workflow
    page_request 3 toy_state 0 1 = (toy_state, Some (LifecycleEventDto_from <$> il_events solver_log)).
Proof.
  split; [reflexivity|].
  refine (http_poll_complete Limits_default "/blobs" "/work" "/bin" "0.1.0" no_workflow page_request toy_state
    solver_log 0 1 3 _ eq_refl eq_refl solver_log_ok _ _ _ _); [|done|done|lia|apply Nat.ltb_lt; by vm_compute].
  intros after limit. split; [reflexivity|]. split; [|reflexivity].
  apply toy_admitted. by vm_compute.
Defined.
