(* ===== verification/Supervise.v ===== *)
(** * Supervised processes ([hub-executor/src/execution_guard.rs])

    The operating system as the supervisor sees it -- the child, its process
    group, its two pipes and the clock -- and the shared guards: killing a
    process group and waiting until it is gone, draining the pipes into
    bounded captures, and running one guarded command. *)

From stdpp Require Import base gmap strings list.
From S2P Require Import Prelude Text Core Version Digest Machine Component Task Exec.

(** ** The host *)
Inductive ExitStatus := StExited (code : Z) | StSignaled (signal : Z).

#[global] Instance ExitStatus_eq_dec : EqDecision ExitStatus.
Proof. solve_decision. Defined.

(** A child that has exited is a zombie until its parent reaps it; the
    standard library remembers the status of a reaped child. *)
Inductive ChildState :=
| ChNone
| ChRunning
| ChZombie (status : ExitStatus)
| ChReaped (status : ExitStatus).

(** What was written to a pipe, and whether some process can still write. *)
Record Pipe := { pp_written : list N; pp_open : bool }.

Record Host := mkHost {
  h_tick : N;
  (** The monotonic clock, in milliseconds. *)
  h_now : N;
  h_child_id : N;
  h_child : ChildState;
  (** The child is in the group it leads; other members of the group. *)
  h_leads : bool;
  h_descendants : N;
  (** SIGKILL was sent to the whole group. *)
  h_signalled : bool;
  h_stdout : Pipe;
  h_stderr : Pipe;
}.

(** A zombie is still a member of its group. *)
Definition group_size (h : Host) : N :=
  h_descendants h +
  match h_child h with
  | ChRunning | ChZombie _ => if h_leads h then 1 else 0
  | _ => 0
  end.

(** What a reader is found to have done when it is waited for. *)
Inductive Received := RcReady | RcTimeout | RcDisconnected.

(** What the outside decides, at each tick: how the processes, the pipes and
    the clock move on; which system calls fail, with the text of the error;
    and whether the thread that drains a pipe is done in time. *)
Class ProcessHost := {
  ph_drift : Host -> Host;
  ph_spawn : N -> result string N;
  ph_wait_fault : N -> option string;
  ph_kill_fault : N -> option string;
  ph_received : N -> Received;
  ph_reads : N -> list N -> list ReadEvent;
}.

(** *** What happens by itself *)
Definition pipe_grows (p p' : Pipe) : Prop :=
  pp_written p `prefix_of` pp_written p' /\ (pp_open p = false -> p' = p).

Inductive child_moves : ChildState -> ChildState -> Prop :=
| child_stays c : child_moves c c
| child_exits status : child_moves ChRunning (ChZombie status).

(** Time does not run backwards, a running child may exit, and members of the
    group may come and go -- but an empty group has nobody to refill it, and
    a pipe that nobody can write to keeps its contents. *)
Record drifts (h h' : Host) : Prop := {
  dr_tick : h_tick h' = h_tick h;
  dr_now : (h_now h <= h_now h')%N;
  dr_id : h_child_id h' = h_child_id h;
  dr_child : child_moves (h_child h) (h_child h');
  dr_group : group_size h = 0%N -> group_size h' = 0%N;
  dr_signalled : h_signalled h' = h_signalled h;
  dr_stdout : pipe_grows (h_stdout h) (h_stdout h');
  dr_stderr : pipe_grows (h_stderr h) (h_stderr h');
}.

(** The reads of a drained pipe deliver what was written, or one fails. *)
Class ProcessHostLaws `{ProcessHost} : Prop := {
  ph_drift_law : forall h, drifts h (ph_drift h);
  ph_reads_law : forall t written,
    delivered (ph_reads t written) = Some written \/ delivered (ph_reads t written) = None;
}.

(** ** The operating system's calls *)

(** Why a call does not return a value: the failure it reports, or that its
    loops were not finished with the fuel given. *)
Inductive Halt := Unfinished | Failed (e : ExecutorFailure).

Inductive KillResult := KillSent | KillNoGroup | KillError (e : string).

Section guard.
Context `{ProcessHost}.

Abbreviation os := (action Host Halt).

Definition fail {A} (reason : string) : os A := throw (Failed (Backend reason)).

(** The host at the next call. *)
Definition pass (h : Host) : Host :=
  ph_drift (mkHost (h_tick h + 1) (h_now h) (h_child_id h) (h_child h) (h_leads h) (h_descendants h)
              (h_signalled h) (h_stdout h) (h_stderr h)).

Definition set_clock (h : Host) (now : N) : Host :=
  mkHost (h_tick h) now (h_child_id h) (h_child h) (h_leads h) (h_descendants h)
    (h_signalled h) (h_stdout h) (h_stderr h).

Definition set_child (h : Host) (child : ChildState) : Host :=
  mkHost (h_tick h) (h_now h) (h_child_id h) child (h_leads h) (h_descendants h)
    (h_signalled h) (h_stdout h) (h_stderr h).

Definition set_signalled (h : Host) : Host :=
  mkHost (h_tick h) (h_now h) (h_child_id h) (h_child h) (h_leads h) (h_descendants h)
    true (h_stdout h) (h_stderr h).

Definition new_pipe : Pipe := {| pp_written := []; pp_open := true |}.

(** [Instant::now()]. *)
Definition instant_now : os N := fun h => let h := pass h in (h, Ok (h_now h)).

(** [thread::sleep]: at least that long. *)
Definition sleep (ms : N) : os unit := fun h => let h := pass h in (set_clock h (h_now h + ms), Ok tt).

(** [command.spawn()], the child leading a fresh process group and writing to
    two fresh pipes. *)
Definition spawn : os (result string N) := fun h =>
  let h := pass h in
  match ph_spawn (h_tick h) with
  | Err e => (h, Ok (Err e))
  | Ok id => (mkHost (h_tick h) (h_now h) id ChRunning true 0 false new_pipe new_pipe, Ok (Ok id))
  end.

(** [child.try_wait()]: reaps the child when it has exited. *)
Definition try_wait : os (result string (option ExitStatus)) := fun h =>
  let h := pass h in
  match ph_wait_fault (h_tick h) with
  | Some e => (h, Ok (Err e))
  | None =>
      match h_child h with
      | ChZombie status => (set_child h (ChReaped status), Ok (Ok (Some status)))
      | ChReaped status => (h, Ok (Ok (Some status)))
      | ChRunning | ChNone => (h, Ok (Ok None))
      end
  end.

(** [killpg(pid, SIGKILL)] and, with no signal, [killpg(pid, None)]. *)
Definition killpg (signal : bool) : os KillResult := fun h =>
  let h := pass h in
  match ph_kill_fault (h_tick h) with
  | Some e => (h, Ok (KillError e))
  | None => if (group_size h =? 0)%N then (h, Ok KillNoGroup)
            else (if signal then set_signalled h else h, Ok KillSent)
  end.

(** ** Killing a group and waiting for its end *)
Definition GROUP_CONFIRM_TIMEOUT : N := 1000.
Definition PIPE_DRAIN_TIMEOUT : N := 1000.
Definition GROUP_POLL_INTERVAL : N := 10.

Definition i32_max : N := 2 ^ 31 - 1.

(** [i32::try_from(child.id()).map(Pid::from_raw)]. *)
Definition process_group_of (child_id : N) : os N :=
  if (child_id <=? i32_max)%N then mret child_id
  else fail "invalid process-group identifier: {error}".

Definition termination_confirmation_deadline : os N :=
  now ← instant_now;
  mret (now + GROUP_CONFIRM_TIMEOUT)%N.

(** Probing until nobody is left. *)
Fixpoint confirm_loop (fuel : nat) (deadline : N) : os unit :=
  match fuel with
  | O => throw Unfinished
  | S fuel =>
      probe ← killpg false;
      match probe with
      | KillNoGroup => mret tt
      | KillError _ => fail "process-group termination probe failed: {error}"
      | KillSent =>
          now ← instant_now;
          if (deadline <=? now)%N then fail "process-group termination unconfirmed before deadline"
          else _ ← sleep GROUP_POLL_INTERVAL; confirm_loop fuel deadline
      end
  end.

Definition confirm_group_termination_after_parent_exit (fuel : nat) (child_id deadline : N) : os unit :=
  _ ← process_group_of child_id;
  kill ← killpg true;
  match kill with
  | KillNoGroup => mret tt
  | KillError _ => fail "process-group cleanup unconfirmed: {error}"
  | KillSent => confirm_loop fuel deadline
  end.

Fixpoint reap_loop (fuel : nat) (deadline : N) : os ExitStatus :=
  match fuel with
  | O => throw Unfinished
  | S fuel =>
      waited ← try_wait;
      match waited with
      | Ok (Some status) => mret status
      | Ok None =>
          now ← instant_now;
          if (now <? deadline)%N then _ ← sleep GROUP_POLL_INTERVAL; reap_loop fuel deadline
          else fail "reaping unconfirmed before deadline"
      | Err _ => fail "reaping unconfirmed: {error}"
      end
  end.

Definition terminate_group_and_reap (fuel : nat) : os ExitStatus :=
  deadline ← termination_confirmation_deadline;
  child_id ← reads (fun h => Ok (h_child_id h));
  _ ← process_group_of child_id;
  kill ← killpg true;
  match kill with
  | KillError _ => fail "termination unconfirmed: {error}"
  | KillSent | KillNoGroup =>
      status ← reap_loop fuel deadline;
      _ ← confirm_group_termination_after_parent_exit fuel child_id deadline;
      mret status
  end.

(** ** Bounded capture *)
Record CapturedStream := { cs_bytes : list N; cs_truncated : bool }.

(** The loop of the reader thread over its successive reads: it keeps a
    prefix of [cap] bytes and drains the rest. *)
Fixpoint capped_reader (cap : N) (captured : CapturedStream) (reads : list ReadEvent)
    : result string CapturedStream :=
  match reads with
  | [] | ReadChunk [] :: _ => Ok captured
  | ReadChunk chunk :: reads =>
      if (len (cs_bytes captured) <? cap)%N then
        let remaining := (cap - len (cs_bytes captured))%N in
        let kept := N.min (len chunk) remaining in
        capped_reader cap
          {| cs_bytes := cs_bytes captured ++ take (N.to_nat kept) chunk;
             cs_truncated := if (kept <? len chunk)%N then true else cs_truncated captured |} reads
      else capped_reader cap {| cs_bytes := cs_bytes captured; cs_truncated := true |} reads
  | ReadInterrupted :: reads => capped_reader cap captured reads
  | ReadError :: _ => Err "{error}"
  end.

Definition spawn_capped_reader (cap : N) (reads : list ReadEvent) : result string CapturedStream :=
  capped_reader cap {| cs_bytes := []; cs_truncated := false |} reads.

(** [receiver.recv_timeout(remaining)]: the reader of a pipe that can still
    be written to has not ended; a timeout takes the remaining time. *)
Definition receive_before (deadline cap : N) (stream : Host -> Pipe) : os CapturedStream :=
  now ← instant_now;
  let remaining := saturating_sub_u64 deadline now in
  (fun h =>
    let h := pass h in
    let pipe := stream h in
    match (if pp_open pipe then
             match ph_received (h_tick h) with RcReady => RcTimeout | r => r end
           else ph_received (h_tick h)) with
    | RcTimeout => fail "{stream_name} capture incomplete before drain deadline"
                     (set_clock h (N.max (h_now h) (now + remaining)))
    | RcDisconnected => fail "{stream_name} capture incomplete: reader disconnected" h
    | RcReady =>
        match spawn_capped_reader cap (ph_reads (h_tick h) (pp_written pipe)) with
        | Ok captured => (h, Ok captured)
        | Err _ => fail "{stream_name} capture incomplete: {error}" h
        end
    end) : os CapturedStream.

Definition collect_captured_streams (cap : N) : os (CapturedStream * CapturedStream) :=
  now ← instant_now;
  let deadline := (now + PIPE_DRAIN_TIMEOUT)%N in
  stdout ← receive_before deadline cap h_stdout;
  stderr ← receive_before deadline cap h_stderr;
  mret (stdout, stderr).

(** The failure as a value: [match call { Ok(a) => .., Err(e) => .. }]. *)
Definition outcome_of {A} (m : os A) : os (result ExecutorFailure A) := fun h =>
  match m h with
  | (h, Ok a) => (h, Ok (Ok a))
  | (h, Err (Failed e)) => (h, Ok (Err e))
  | (h, Err Unfinished) => (h, Err Unfinished)
  end.

(** ** One guarded command *)
Record GuardedCommandOutput := {
  gc_status : ExitStatus;
  gc_timed_out : bool;
  gc_stdout : CapturedStream;
  gc_stderr : CapturedStream;
}.

(** The polling loop: the status or the failure, and whether the deadline
    forced the end.  [turns] polls, each with [fuel] for what it calls. *)
Fixpoint guard_loop (fuel turns : nat) (deadline : N) : os (bool * result ExecutorFailure ExitStatus) :=
  match turns with
  | O => throw Unfinished
  | S turns =>
      waited ← try_wait;
      match waited with
      | Ok (Some status) =>
          child_id ← reads (fun h => Ok (h_child_id h));
          confirmed ← outcome_of (confirm_deadline ← termination_confirmation_deadline;
                                  confirm_group_termination_after_parent_exit fuel child_id confirm_deadline);
          mret (false, _ ← confirmed; Ok status)
      | Ok None =>
          now ← instant_now;
          if (now <? deadline)%N then _ ← sleep GROUP_POLL_INTERVAL; guard_loop fuel turns deadline
          else
            terminal ← outcome_of (terminate_group_and_reap fuel);
            mret (true, terminal)
      | Err _ =>
          _ ← outcome_of (terminate_group_and_reap fuel);
          mret (false, Err (Backend "guarded command wait failed: {error}"))
      end
  end.

Definition execute_guarded_command (fuel : nat) (deadline capture_limit : N) : os GuardedCommandOutput :=
  _ ← lift (ensure ((1 <=? capture_limit) && (capture_limit <=? 1024 * 1024))%N
        (Failed (Backend "invalid shared guard capture budget")));
  now ← instant_now;
  _ ← lift (ensure (now <? deadline)%N (Failed (Backend "command deadline exhausted before spawn")));
  spawned ← spawn;
  _ ← lift (map_err (fun _ => Failed (Backend "guarded command spawn failed: {error}")) spawned);
  '(timed_out, terminal) ← guard_loop fuel fuel deadline;
  captured ← outcome_of (collect_captured_streams capture_limit);
  status ← lift (map_err Failed terminal);
  '(stdout, stderr) ← lift (map_err Failed captured);
  mret {| gc_status := status; gc_timed_out := timed_out; gc_stdout := stdout; gc_stderr := stderr |}.
End guard.

(** ** How a call moves the host *)
Definition child_later (c c' : ChildState) : Prop :=
  match c with
  | ChNone => c' = ChNone
  | ChRunning => c' <> ChNone
  | ChZombie status => c' = ChZombie status \/ c' = ChReaped status
  | ChReaped status => c' = ChReaped status
  end.

Record host_later (h h' : Host) : Prop := {
  lt_tick : (h_tick h <= h_tick h')%N;
  lt_now : (h_now h <= h_now h')%N;
  lt_id : h_child_id h' = h_child_id h;
  lt_child : child_later (h_child h) (h_child h');
  lt_group : group_size h = 0%N -> group_size h' = 0%N;
  lt_signalled : h_signalled h = true -> h_signalled h' = true;
  lt_stdout : pipe_grows (h_stdout h) (h_stdout h');
  lt_stderr : pipe_grows (h_stderr h) (h_stderr h');
}.

#[global] Instance pipe_grows_preorder : PreOrder pipe_grows.
Proof.
  split; [by split|]. intros a b c [Hp Hc] [Hp' Hc']. split; [by etrans|].
  intros Ha. pose proof (Hc Ha) as ->. by apply Hc'.
Qed.

#[global] Instance child_later_preorder : PreOrder child_later.
Proof.
  split.
  - intros []; cbn; by try left.
  - intros [] [] []; cbn; try naive_solver.
Qed.

#[global] Instance later_preorder : PreOrder host_later.
Proof.
  split.
  - intros h. split; try done; try reflexivity.
  - intros a b c [] []. split; try (etrans; eassumption); try lia; try congruence; auto.
Qed.

Section moves.
Context `{ProcessHostLaws}.

Lemma later_pass h : host_later h (pass h).
Proof.
  destruct (ph_drift_law (mkHost (h_tick h + 1) (h_now h) (h_child_id h) (h_child h) (h_leads h)
    (h_descendants h) (h_signalled h) (h_stdout h) (h_stderr h))) as [Ht Hn Hi Hc Hg Hs Ho He].
  fold (pass h) in *. cbn [h_tick h_now h_child_id h_child h_signalled h_stdout h_stderr] in *.
  assert (child_later (h_child h) (h_child (pass h))) by
    (revert Hc; generalize (h_child h), (h_child (pass h)); intros ? ? []; [reflexivity|done]).
  split; try done; [lia|congruence].
Qed.

Lemma pass_tick h : h_tick (pass h) = (h_tick h + 1)%N.
Proof. exact (dr_tick _ _ (ph_drift_law _)). Qed.

Lemma later_clock h now : (h_now h <= now)%N -> host_later h (set_clock h now).
Proof. intros Hn. split; try done; reflexivity. Qed.

Lemma later_reap h status : h_child h = ChZombie status -> host_later h (set_child h (ChReaped status)).
Proof.
  intros Hz. assert (Hc : child_later (h_child h) (ChReaped status)) by (rewrite Hz; by right).
  split; try done; try reflexivity. unfold group_size. rewrite Hz. cbn. lia.
Qed.

Lemma later_set_signalled h : host_later h (set_signalled h).
Proof. split; try done; reflexivity. Qed.

#[local] Hint Resolve later_pass later_set_signalled : steps.

Lemma steps_instant_now : steps host_later instant_now.
Proof. intros h. apply later_pass. Qed.

Lemma steps_sleep ms : steps host_later (sleep ms).
Proof. intros h. etrans; [apply later_pass|]. apply later_clock. lia. Qed.

Lemma steps_try_wait : steps host_later try_wait.
Proof.
  intros h. unfold try_wait. cbn zeta. destruct (ph_wait_fault _); [apply later_pass|].
  destruct (h_child (pass h)) eqn:Hc; try apply later_pass. etrans; [apply later_pass|by apply later_reap].
Qed.

Lemma steps_killpg signal : steps host_later (killpg signal).
Proof.
  intros h. unfold killpg. cbn zeta. destruct (ph_kill_fault _); [apply later_pass|].
  destruct (_ =? 0)%N; [apply later_pass|]. destruct signal; [|apply later_pass].
  etrans; [apply later_pass|apply later_set_signalled].
Qed.

Lemma steps_fail {A} reason : steps host_later (fail reason : action Host Halt A).
Proof. apply (steps_throw host_later). Qed.

#[local] Hint Resolve steps_instant_now steps_sleep steps_try_wait steps_killpg steps_fail : steps.
#[local] Hint Extern 0 (PreOrder host_later) => apply later_preorder : steps.

Lemma steps_process_group_of id : steps host_later (process_group_of id).
Proof. unfold process_group_of. solve_steps. Qed.

Lemma steps_confirm_deadline : steps host_later termination_confirmation_deadline.
Proof. unfold termination_confirmation_deadline. solve_steps. Qed.
#[local] Hint Resolve steps_process_group_of steps_confirm_deadline : steps.

Lemma steps_confirm_loop fuel deadline : steps host_later (confirm_loop fuel deadline).
Proof. induction fuel; cbn [confirm_loop]; solve_steps. Qed.
#[local] Hint Resolve steps_confirm_loop : steps.

Lemma steps_confirm fuel id deadline :
  steps host_later (confirm_group_termination_after_parent_exit fuel id deadline).
Proof. unfold confirm_group_termination_after_parent_exit. solve_steps. Qed.

Lemma steps_reap_loop fuel deadline : steps host_later (reap_loop fuel deadline).
Proof. induction fuel; cbn [reap_loop]; solve_steps. Qed.
#[local] Hint Resolve steps_confirm steps_reap_loop : steps.

Lemma steps_terminate fuel : steps host_later (terminate_group_and_reap fuel).
Proof. unfold terminate_group_and_reap. solve_steps. Qed.

Lemma steps_receive_before deadline cap stream : steps host_later (receive_before deadline cap stream).
Proof.
  apply steps_bind; [apply _|apply steps_instant_now|]. intros now h. cbv zeta beta.
  destruct (if pp_open _ then _ else _).
  - destruct (spawn_capped_reader _ _); apply later_pass.
  - cbn. etrans; [apply later_pass|]. apply later_clock. lia.
  - apply later_pass.
Qed.
#[local] Hint Resolve steps_terminate steps_receive_before : steps.

Lemma steps_collect cap : steps host_later (collect_captured_streams cap).
Proof. unfold collect_captured_streams. solve_steps. Qed.

Lemma steps_outcome_of {A} (m : action Host Halt A) : steps host_later m -> steps host_later (outcome_of m).
Proof. intros Hm h. specialize (Hm h). unfold outcome_of. by destruct (m h) as [? [|[]]]. Qed.
#[local] Hint Resolve steps_collect steps_outcome_of : steps.

Lemma steps_guard_loop fuel turns deadline : steps host_later (guard_loop fuel turns deadline).
Proof. induction turns; cbn [guard_loop]; solve_steps. Qed.

(** ** What the guards establish *)
Definition os_post {A} (m : action Host Halt A) (Q : A -> Host -> Prop) : Prop :=
  triple (fun _ => True) m (fun r h => match r with Ok a => Q a h | Err _ => True end).

Lemma os_post_bind {A B} (m : action Host Halt A) (f : A -> action Host Halt B) P Q :
  os_post m P -> (forall a, triple (P a) (f a) (fun r h => match r with Ok b => Q b h | Err _ => True end)) ->
  os_post (m ≫= f) Q.
Proof. intros Hm Hf. by eapply triple_bind. Qed.

Lemma os_post_then {A B} (m : action Host Halt A) (f : A -> action Host Halt B) Q :
  (forall a, os_post (f a) Q) -> os_post (m ≫= f) Q.
Proof.
  intros Hf. apply (os_post_bind _ _ (fun _ _ => True)).
  - intros h _. by destruct (m h).2.
  - intros a h _. by apply Hf.
Qed.

Lemma os_post_fail {A} reason (Q : A -> Host -> Prop) : os_post (fail reason) Q.
Proof. by intros h _. Qed.

(** A group is only reported gone when it is. *)
Lemma killpg_none signal : os_post (killpg signal) (fun r h => r = KillNoGroup -> group_size h = 0%N).
Proof.
  intros h _. unfold killpg. cbv zeta. destruct (ph_kill_fault _); cbn; [discriminate|].
  destruct (N.eqb_spec (group_size (pass h)) 0); cbn; [done|]. discriminate.
Qed.

Lemma confirm_loop_empty fuel deadline : os_post (confirm_loop fuel deadline) (fun _ h => group_size h = 0%N).
Proof.
  induction fuel as [|fuel IH]; [by intros h _|]. cbn [confirm_loop].
  eapply os_post_bind; [apply killpg_none|].
  intros [] h Hr; [|by apply Hr|done]. clear Hr. cbn iota.
  refine ((_ : os_post _ (fun _ h => group_size h = 0%N)) h I).
  apply os_post_then. intros now. destruct (_ <=? _)%N; [apply os_post_fail|]. by apply os_post_then.
Qed.

Lemma confirm_empty fuel id deadline :
  os_post (confirm_group_termination_after_parent_exit fuel id deadline) (fun _ h => group_size h = 0%N).
Proof.
  apply os_post_then. intros _.
  eapply os_post_bind; [apply killpg_none|].
  intros [] h Hr; [|by apply Hr|done]. by apply confirm_loop_empty.
Qed.

Lemma try_wait_reaped : os_post try_wait (fun r h => forall status, r = Ok (Some status) -> h_child h = ChReaped status).
Proof.
  intros h _. unfold try_wait. cbv zeta. destruct (ph_wait_fault _); [done|].
  destruct (h_child (pass h)) eqn:Hc; cbn; try done; by intros ? [= <-].
Qed.

Lemma reap_loop_reaped fuel deadline : os_post (reap_loop fuel deadline) (fun status h => h_child h = ChReaped status).
Proof.
  induction fuel as [|fuel IH]; [by intros h _|]. cbn [reap_loop].
  eapply os_post_bind; [apply try_wait_reaped|]. intros [[status|]|e] h Hr; cbn in Hr; [by apply Hr| |done].
  clear Hr. cbn iota. refine ((_ : os_post _ (fun status h => h_child h = ChReaped status)) h I).
  apply os_post_then. intros now. destruct (_ <? _)%N; [|apply os_post_fail]. by apply os_post_then.
Qed.

Lemma reaped_later h h' status : host_later h h' -> h_child h = ChReaped status -> h_child h' = ChReaped status.
Proof. intros Hl Hc. pose proof (lt_child _ _ Hl) as Hch. by rewrite Hc in Hch. Qed.

Lemma terminate_gone fuel :
  os_post (terminate_group_and_reap fuel) (fun status h => group_size h = 0%N /\ h_child h = ChReaped status).
Proof.
  do 3 (apply os_post_then; intros ?). apply os_post_then. intros [| |e]; [| |apply os_post_fail].
  all: eapply os_post_bind; [apply reap_loop_reaped|]; intros status h Hc;
    eapply (triple_bind (fun h => h_child h = ChReaped status)
      (fun r h => match r with Ok _ => group_size h = 0%N /\ h_child h = ChReaped status | Err _ => True end));
    [|by intros [] h' Hh'|done|exact Hc].
  all: intros h0 Hc0; pose proof (confirm_empty fuel a0 a h0 I) as He;
    pose proof (steps_confirm fuel a0 a h0) as Hs;
    destruct (confirm_group_termination_after_parent_exit fuel a0 a h0) as [h1 [u|e]]; cbn in *; [|done];
    split; [done|by eapply reaped_later].
Qed.

(** *** Captures *)

(** The first [cap] bytes, and whether there were more. *)
Definition capture_of (cap : N) (written : list N) : CapturedStream :=
  {| cs_bytes := take (N.to_nat cap) written; cs_truncated := (cap <? len written)%N |}.

Lemma len_app {A} (l k : list A) : len (l ++ k) = (len l + len k)%N.
Proof. unfold len. rewrite length_app. lia. Qed.

(** One read adds to the capture what [extend] of the loop does. *)
Lemma capture_extend cap before chunk :
  chunk <> [] ->
  capture_of cap (before ++ chunk) =
    if (len (cs_bytes (capture_of cap before)) <? cap)%N then
      let kept := N.min (len chunk) (cap - len (cs_bytes (capture_of cap before))) in
      {| cs_bytes := cs_bytes (capture_of cap before) ++ take (N.to_nat kept) chunk;
         cs_truncated := if (kept <? len chunk)%N then true else cs_truncated (capture_of cap before) |}
    else {| cs_bytes := cs_bytes (capture_of cap before); cs_truncated := true |}.
Proof.
  intros Hne. assert (Hpos : (0 < len chunk)%N) by (destruct chunk; [done|unfold len; cbn; lia]).
  unfold capture_of. cbn [cs_bytes cs_truncated]. rewrite len_app.
  assert (Hl : len (take (N.to_nat cap) before) = N.min cap (len before))
    by (unfold len; rewrite length_take; lia).
  rewrite Hl. destruct (N.ltb_spec (N.min cap (len before)) cap) as [Hlt|Hge]; cbv zeta; f_equal.
  - rewrite take_app. f_equal. unfold len in *. destruct (N.leb_spec (N.of_nat (length chunk)) (cap - N.of_nat (length before))).
    + rewrite N.min_l by lia. rewrite !take_ge by lia. done.
    + f_equal. lia.
  - destruct (N.ltb_spec (N.min (len chunk) (cap - N.min cap (len before))) (len chunk)).
    + apply N.ltb_lt. lia.
    + rewrite (proj2 (N.ltb_ge cap (len before))) by lia. apply N.ltb_ge. lia.
  - rewrite take_app_le by (unfold len in *; lia). done.
  - apply N.ltb_lt. lia.
Qed.

Lemma capped_reader_delivered cap before reads :
  capped_reader cap (capture_of cap before) reads =
    match delivered reads with
    | Some data => Ok (capture_of cap (before ++ data))
    | None => Err "{error}"
    end.
Proof.
  revert before. induction reads as [|[[|b chunk]| |] reads IH]; intros before.
  - cbn. by rewrite app_nil_r.
  - cbn. by rewrite app_nil_r.
  - change (delivered (ReadChunk (b :: chunk) :: reads)) with (app (b :: chunk) <$> delivered reads).
    pose proof (IH (before ++ b :: chunk)) as Hnext. rewrite capture_extend in Hnext by done. cbv zeta in Hnext.
    transitivity (match delivered reads with
                  | Some data => Ok (capture_of cap ((before ++ b :: chunk) ++ data))
                  | None => Err "{error}"%string
                  end).
    + rewrite <- Hnext. cbn [capped_reader]. cbv zeta. by destruct (_ <? cap)%N.
    + destruct (delivered reads); cbn [fmap option_fmap option_map]; [|done]. by rewrite <- app_assoc.
  - cbn. apply IH.
  - done.
Qed.

(** A capture is reported only of a pipe that nobody can write to any more,
    and is the prefix of all that was written to it. *)
Lemma receive_before_capture deadline cap stream :
  os_post (receive_before deadline cap stream) (fun c h =>
    pp_open (stream h) = false /\ c = capture_of cap (pp_written (stream h))).
Proof.
  apply os_post_then. intros now h _. cbv zeta beta.
  destruct (pp_open (stream (pass h))) eqn:Hopen; [by destruct (ph_received _)|].
  destruct (ph_received _); [|done..]. unfold spawn_capped_reader.
  change {| cs_bytes := []; cs_truncated := false |} with (capture_of 0 []).
  assert (capture_of 0 [] = capture_of cap []) as -> by
    (unfold capture_of; rewrite !take_nil; f_equal; symmetry; apply N.ltb_ge; unfold len; cbn; lia).
  rewrite capped_reader_delivered.
  destruct (ph_reads_law (h_tick (pass h)) (pp_written (stream (pass h)))) as [-> | ->]; cbn; [|done].
  by rewrite Hopen.
Qed.

Lemma closed_later p p' : pipe_grows p p' -> pp_open p = false -> p' = p.
Proof. intros [_ Hc]. exact Hc. Qed.

Lemma collect_captures cap :
  os_post (collect_captured_streams cap) (fun '(out, err) h =>
    pp_open (h_stdout h) = false /\ out = capture_of cap (pp_written (h_stdout h)) /\
    pp_open (h_stderr h) = false /\ err = capture_of cap (pp_written (h_stderr h))).
Proof.
  apply os_post_then. intros now. eapply os_post_bind; [apply receive_before_capture|].
  intros out h [Ho Hout]. cbv zeta in *.
  pose proof (receive_before_capture (now + PIPE_DRAIN_TIMEOUT) cap h_stderr h I) as He.
  pose proof (steps_receive_before (now + PIPE_DRAIN_TIMEOUT) cap h_stderr h) as Hs.
  unfold mbind, action_bind. destruct (receive_before _ cap h_stderr h) as [h' [err|e]]; cbn in *; [|done].
  destruct He as [? ?]. rewrite (closed_later _ _ (lt_stdout _ _ Hs) Ho). by split_and!.
Qed.

(** ** Ending

    A call returns from [h] when its loops do not need more than the fuel. *)
Definition returns {A} (m : action Host Halt A) (h : Host) : Prop := (m h).2 <> Err Unfinished.

Lemma returns_bind {A B} (m : action Host Halt A) (f : A -> action Host Halt B) h :
  returns m h -> (forall a h', m h = (h', Ok a) -> returns (f a) h') -> returns (m ≫= f) h.
Proof.
  intros Hm Hf. unfold returns, mbind, action_bind in *. destruct (m h) as [h' [a|e]]; [by apply Hf|].
  cbn in *. intros [= ->]. by apply Hm.
Qed.

Lemma returns_outcome_of {A} (m : action Host Halt A) h : returns m h -> returns (outcome_of m) h.
Proof. unfold returns, outcome_of. by destruct (m h) as [? [|[]]]. Qed.

Lemma instant_now_Ok h h' now : instant_now h = (h', Ok now) -> host_later h h' /\ now = h_now h'.
Proof. intros [= <- <-]. split; [apply later_pass|done]. Qed.

Lemma sleep_Ok ms h h' u : sleep ms h = (h', Ok u) -> (h_now h + ms <= h_now h')%N.
Proof. intros [= <- _]. pose proof (lt_now _ _ (later_pass h)). cbn. lia. Qed.

Lemma killpg_returns signal h : returns (killpg signal) h.
Proof. unfold returns, killpg. cbv zeta. destruct (ph_kill_fault _); [done|]. by destruct (_ =? _)%N. Qed.

Lemma try_wait_returns h : returns try_wait h.
Proof. unfold returns, try_wait. cbv zeta. destruct (ph_wait_fault _); [done|]. by destruct (h_child _). Qed.

Lemma process_group_of_returns id h : returns (process_group_of id) h.
Proof. unfold process_group_of. by destruct (_ <=? _)%N. Qed.

(** A poll that sleeps [GROUP_POLL_INTERVAL] between two looks at the clock. *)
Lemma confirm_loop_returns fuel deadline h :
  (deadline <= h_now h + GROUP_POLL_INTERVAL * N.of_nat fuel)%N -> returns (confirm_loop (S fuel) deadline) h.
Proof.
  revert h. induction fuel as [|fuel IH]; intros h Hd; cbn [confirm_loop].
  all: apply returns_bind; [apply killpg_returns|]; intros r h1 Hk; apply (steps_run host_later) in Hk; [|apply steps_killpg].
  all: destruct r; [|done..]; apply returns_bind; [done|]; intros now h2 [Hl ->]%instant_now_Ok.
  all: pose proof (lt_now _ _ Hk); pose proof (lt_now _ _ Hl); unfold GROUP_POLL_INTERVAL in *.
  - by rewrite (proj2 (N.leb_le _ _)) by lia.
  - destruct (_ <=? _)%N; [done|]. apply returns_bind; [done|]. intros u h3 Hs%sleep_Ok. apply IH. lia.
Qed.

Lemma reap_loop_returns fuel deadline h :
  (deadline <= h_now h + GROUP_POLL_INTERVAL * N.of_nat fuel)%N -> returns (reap_loop (S fuel) deadline) h.
Proof.
  revert h. induction fuel as [|fuel IH]; intros h Hd; cbn [reap_loop].
  all: apply returns_bind; [apply try_wait_returns|]; intros r h1 Hk; apply (steps_run host_later) in Hk; [|apply steps_try_wait].
  all: destruct r as [[status|]|e]; [done| |done]; apply returns_bind; [done|]; intros now h2 [Hl ->]%instant_now_Ok.
  all: pose proof (lt_now _ _ Hk); pose proof (lt_now _ _ Hl); unfold GROUP_POLL_INTERVAL in *.
  - by rewrite (proj2 (N.ltb_ge _ _)) by lia.
  - destruct (_ <? _)%N; [|done]. apply returns_bind; [done|]. intros u h3 Hs%sleep_Ok. apply IH. lia.
Qed.

(** A confirmation lasts at most [GROUP_CONFIRM_TIMEOUT], so 101 polls do. *)
Definition CONFIRM_TURNS : nat := 101.

Lemma confirm_returns fuel id deadline h :
  CONFIRM_TURNS <= fuel -> (deadline <= h_now h + GROUP_CONFIRM_TIMEOUT)%N ->
  returns (confirm_group_termination_after_parent_exit fuel id deadline) h.
Proof.
  unfold CONFIRM_TURNS, GROUP_CONFIRM_TIMEOUT. intros Hf Hd.
  apply returns_bind; [apply process_group_of_returns|]. intros g h1 Hg.
  apply (steps_run host_later), lt_now in Hg; [|apply steps_process_group_of].
  apply returns_bind; [apply killpg_returns|]. intros k h2 Hk.
  apply (steps_run host_later), lt_now in Hk; [|apply steps_killpg]. destruct k; [|done..].
  destruct fuel as [|fuel]; [lia|]. apply confirm_loop_returns. unfold GROUP_POLL_INTERVAL. lia.
Qed.

Lemma confirm_deadline_Ok h h' d :
  termination_confirmation_deadline h = (h', Ok d) -> d = (h_now h' + GROUP_CONFIRM_TIMEOUT)%N.
Proof. by intros [= <- <-]. Qed.

Lemma terminate_returns fuel h : CONFIRM_TURNS <= fuel -> returns (terminate_group_and_reap fuel) h.
Proof.
  intros Hf. apply returns_bind; [done|]. intros d h1 ->%confirm_deadline_Ok.
  apply returns_bind; [done|]. intros id h2 [= <- _].
  apply returns_bind; [apply process_group_of_returns|]. intros g h2 Hg.
  apply (steps_run host_later), lt_now in Hg; [|apply steps_process_group_of].
  apply returns_bind; [apply killpg_returns|]. intros k h3 Hk.
  apply (steps_run host_later), lt_now in Hk; [|apply steps_killpg].
  assert (Hr : returns (reap_loop fuel (h_now h1 + GROUP_CONFIRM_TIMEOUT)) h3).
  { unfold CONFIRM_TURNS, GROUP_CONFIRM_TIMEOUT in *. destruct fuel as [|fuel]; [lia|].
    apply reap_loop_returns. unfold GROUP_POLL_INTERVAL. lia. }
  destruct k; [| |done]; (apply returns_bind; [exact Hr|]); intros st h4 Hs;
    (apply (steps_run host_later), lt_now in Hs; [|apply steps_reap_loop]);
    (apply returns_bind; [apply confirm_returns; [done|lia]|done]).
Qed.

Lemma receive_before_returns deadline cap stream h : returns (receive_before deadline cap stream) h.
Proof.
  apply returns_bind; [done|]. intros now h1 _. unfold returns. cbv zeta beta.
  destruct (if pp_open (stream (pass h1)) then _ else _); [|done..].
  by destruct (spawn_capped_reader cap _).
Qed.

Lemma collect_returns cap h : returns (collect_captured_streams cap) h.
Proof.
  apply returns_bind; [done|]. intros now h1 _. apply returns_bind; [apply receive_before_returns|].
  intros out h2 _. apply returns_bind; [apply receive_before_returns|done].
Qed.

(** *** Signalling *)

(** The whole group was killed, or there is none. *)
Definition swept (h : Host) : Prop := h_signalled h = true \/ group_size h = 0%N.

(** [killpg] could not be called for this group, or failed after tick [t0]. *)
Definition kill_failed (t0 : N) (h : Host) : Prop :=
  (i32_max < h_child_id h)%N \/ exists t, (t0 < t <= h_tick h)%N /\ is_Some (ph_kill_fault t).

Definition handled (t0 : N) (h : Host) : Prop := swept h \/ kill_failed t0 h.

Lemma handled_later t0 h h' : host_later h h' -> handled t0 h -> handled t0 h'.
Proof.
  intros Hl [[Hs|Hg]|[Hi|(t & Ht & Hf)]].
  - left; left. by apply Hl.
  - left; right. by apply Hl.
  - right; left. by rewrite (lt_id _ _ Hl).
  - right; right. exists t. split; [|done]. pose proof (lt_tick _ _ Hl). lia.
Qed.

Lemma handled_earlier t0 t1 h : (t0 <= t1)%N -> handled t1 h -> handled t0 h.
Proof.
  intros Hle [Hs|[Hi|(t & Ht & Hf)]]; [by left|by right; left|right; right].
  exists t. split; [lia|done].
Qed.

(** The step after which the group is handled, whatever follows. *)
Lemma handled_kill {B} (f : KillResult -> action Host Halt B) h h' r :
  (forall k, steps host_later (f k)) -> (killpg true ≫= f) h = (h', r) -> handled (h_tick h) h'.
Proof.
  intros Hf. unfold mbind, action_bind.
  destruct (killpg true h) as [h1 [k|e]] eqn:Hk.
  2: { unfold killpg in Hk. cbv zeta in Hk. destruct (ph_kill_fault _); [done|]. by destruct (_ =? _)%N. }
  intros Hr. apply (steps_run host_later _ h1 h' r (Hf k)) in Hr. apply (handled_later _ _ _ Hr).
  unfold killpg in Hk. cbv zeta in Hk. destruct (ph_kill_fault (h_tick (pass h))) as [e|] eqn:He.
  - injection Hk as <- <-. right; right. exists (h_tick (pass h)). rewrite He, pass_tick. split; [lia|done].
  - destruct (N.eqb_spec (group_size (pass h)) 0) as [Hg|_]; injection Hk as <- <-; left; [by right|by left].
Qed.

Lemma process_group_of_bind {B} id (f : N -> action Host Halt B) h :
  (process_group_of id ≫= f) h = if (id <=? i32_max)%N then f id h else fail "invalid process-group identifier: {error}" h.
Proof. unfold process_group_of. by destruct (_ <=? _)%N. Qed.

Lemma bind_run {A B} (m : action Host Halt A) (f : A -> action Host Halt B) h h1 a :
  m h = (h1, Ok a) -> (m ≫= f) h = f a h1.
Proof. unfold mbind, action_bind. by intros ->. Qed.

Lemma confirm_handled fuel deadline h h' r :
  confirm_group_termination_after_parent_exit fuel (h_child_id h) deadline h = (h', r) -> handled (h_tick h) h'.
Proof.
  unfold confirm_group_termination_after_parent_exit. rewrite process_group_of_bind.
  destruct (N.leb_spec (h_child_id h) i32_max).
  - apply handled_kill. intros []; eauto with steps.
  - intros [= <- _]. right; by left.
Qed.

Lemma terminate_handled fuel h h' r : terminate_group_and_reap fuel h = (h', r) -> handled (h_tick h) h'.
Proof.
  unfold terminate_group_and_reap. rewrite (bind_run _ _ _ (pass h) _ eq_refl), (bind_run _ _ _ _ _ eq_refl).
  rewrite process_group_of_bind. intros Hr. apply (handled_earlier _ (h_tick (pass h))).
  { rewrite pass_tick. lia. }
  destruct (N.leb_spec (h_child_id (pass h)) i32_max).
  - revert Hr. apply handled_kill. intros []; solve_steps.
  - injection Hr as <- _. right; by left.
Qed.

Lemma outcome_of_Ok {A} (m : action Host Halt A) h h' r :
  outcome_of m h = (h', Ok r) ->
  match r with Ok a => m h = (h', Ok a) | Err e => m h = (h', Err (Failed e)) end.
Proof. unfold outcome_of. destruct (m h) as [h1 [a|[|e]]]; intros [=]; by subst. Qed.

(** ** A guarded command *)

(** Nothing of the supervised group is left, the child is reaped, and the two
    captures are of all that was ever written. *)
Definition group_contained (cap : N) (status : ExitStatus) (out err : CapturedStream) (h : Host) : Prop :=
  group_size h = 0%N /\ h_child h = ChReaped status /\
  out = capture_of cap (pp_written (h_stdout h)) /\ pp_open (h_stdout h) = false /\
  err = capture_of cap (pp_written (h_stderr h)) /\ pp_open (h_stderr h) = false.

Lemma contained_collect cap status h h' out err :
  group_size h = 0%N -> h_child h = ChReaped status ->
  collect_captured_streams cap h = (h', Ok (out, err)) -> group_contained cap status out err h'.
Proof.
  intros Hg Hc Hr. pose proof (steps_run host_later _ _ _ _ (steps_collect cap) Hr) as Hl.
  pose proof (collect_captures cap h I) as Hp. rewrite Hr in Hp. cbn in Hp.
  split_and!; try naive_solver; [by apply Hl|by eapply reaped_later].
Qed.

Lemma contained_later cap status out err h h' :
  host_later h h' -> group_contained cap status out err h -> group_contained cap status out err h'.
Proof.
  intros Hl (Hg & Hc & Ho & Hoc & He & Hec). unfold group_contained.
  rewrite (closed_later _ _ (lt_stdout _ _ Hl) Hoc), (closed_later _ _ (lt_stderr _ _ Hl) Hec).
  split_and!; try done; [by apply Hl|by eapply reaped_later].
Qed.

Lemma guard_loop_gone fuel turns deadline h h' timed_out status :
  guard_loop fuel turns deadline h = (h', Ok (timed_out, Ok status)) ->
  group_size h' = 0%N /\ h_child h' = ChReaped status /\
  (timed_out = true -> (deadline <= h_now h')%N).
Proof.
  revert h. induction turns as [|turns IH]; intros h; cbn [guard_loop]; [done|].
  intros (h1 & w & Hw & Hr)%action_bind_Ok. pose proof (try_wait_reaped h I) as Hreap. rewrite Hw in Hreap. cbn in Hreap.
  destruct w as [[st|]|e].
  - apply action_bind_Ok in Hr as (h2 & id & [= <- <-] & Hr). apply action_bind_Ok in Hr as (h3 & c & Hc & Hr).
    apply mret_Ok in Hr as [-> Hr]. destruct c as [[]|]; cbn in Hr; [|discriminate Hr]. injection Hr as <- <-.
    apply outcome_of_Ok in Hc. apply action_bind_Ok in Hc as (h4 & d & Hd & Hc).
    pose proof (confirm_empty fuel (h_child_id h1) d h4 I) as Hg. rewrite Hc in Hg. cbn in Hg. split; [done|].
    split; [|done]. apply (reaped_later h1); [|by apply Hreap].
    etrans; eapply steps_run; [apply steps_confirm_deadline|exact Hd|apply steps_confirm|exact Hc].
  - apply action_bind_Ok in Hr as (h2 & now & [Hl2 ->]%instant_now_Ok & Hr).
    destruct (N.ltb_spec (h_now h2) deadline).
    + apply action_bind_Ok in Hr as (h3 & u & _ & Hr). by apply IH in Hr.
    + apply action_bind_Ok in Hr as (h3 & t & Ht & Hr). apply mret_Ok in Hr as [-> [= <- ->]].
      apply outcome_of_Ok in Ht. pose proof (terminate_gone fuel h2 I) as Hg. rewrite Ht in Hg. destruct Hg as [Hg Hc].
      split_and!; [done|done|]. intros _.
      pose proof (lt_now _ _ (steps_run host_later _ _ _ _ (steps_terminate fuel) Ht)). lia.
  - apply action_bind_Ok in Hr as (h2 & t & Ht & Hr). by apply mret_Ok in Hr as [-> [= _ ?]].
Qed.

(** A guarded command that returns was within its budget, left nothing of its
    group behind and was captured faithfully; and it took its whole time when
    it says so. *)
Theorem guarded_command_contained fuel deadline cap h h' o :
  execute_guarded_command fuel deadline cap h = (h', Ok o) ->
  (1 <= cap <= 1024 * 1024)%N /\ group_contained cap (gc_status o) (gc_stdout o) (gc_stderr o) h' /\
  (gc_timed_out o = true -> (deadline <= h_now h')%N).
Proof.
  intros Hr. unfold execute_guarded_command in Hr.
  apply action_bind_Ok in Hr as (h1 & [] & [-> Hcap%ensure_Ok]%lift_Ok & Hr). bool_inv.
  apply action_bind_Ok in Hr as (h1 & now & _ & Hr). apply action_bind_Ok in Hr as (h2 & [] & [-> _]%lift_Ok & Hr).
  apply action_bind_Ok in Hr as (h2 & sp & _ & Hr). apply action_bind_Ok in Hr as (h3 & id & [-> _]%lift_Ok & Hr).
  apply action_bind_Ok in Hr as (h3 & [t terminal] & Hloop & Hr).
  apply action_bind_Ok in Hr as (h4 & captured & Hcol & Hr).
  apply action_bind_Ok in Hr as (h5 & status & [-> Hst%map_err_Ok]%lift_Ok & Hr).
  apply action_bind_Ok in Hr as (h5 & [out err] & [-> Hce%map_err_Ok]%lift_Ok & Hr).
  apply mret_Ok in Hr as [-> <-]. subst terminal captured. cbn [gc_status gc_stdout gc_stderr gc_timed_out].
  apply outcome_of_Ok in Hcol. apply guard_loop_gone in Hloop as (Hg & Hc & Ht).
  split; [done|]. split; [by eapply contained_collect|]. intros Hto%Ht.
  pose proof (lt_now _ _ (steps_run host_later _ _ _ _ (steps_collect cap) Hcol)). lia.
Qed.
End moves.
