(* ===== verification/Process.v ===== *)
(** * Local process execution ([hub-executor/src/lib.rs])

    [ProcessExecutor]: one supervised subprocess with a wall-clock limit,
    cooperative cancellation and bounded captures; and the scripted
    [MockExecutor]. *)

From stdpp Require Import base gmap strings list.
From S2P Require Import Prelude Text Core Version Digest Machine Component Task Exec Supervise.

Definition POLL_INTERVAL_MS : N := 10.

Definition status_code (s : ExitStatus) : option Z :=
  match s with StExited code => Some code | StSignaled _ => None end.

Definition signal_of (s : option ExitStatus) : option Z :=
  match s with Some (StSignaled signal) => Some signal | _ => None end.

(** How the polling loop ended. *)
Record Supervision := {
  su_status : option ExitStatus;
  su_timed_out : bool;
  su_cancelled : bool;
  su_failure : option ExecutorFailure;
  su_exited : bool;
}.

Definition cancelled_outcome : ExecutionOutcome := {|
  eo_exit_code := None; eo_signal := None; eo_timed_out := false; eo_cancelled := true;
  eo_start_error := None; eo_duration_ms := 0; eo_stdout := []; eo_stdout_truncated := false;
  eo_stderr := []; eo_stderr_truncated := false |}.

Section process.
Context `{ProcessHost}.

Abbreviation os := (action Host Halt).

Definition ProcessExecutor_backend_id : string := "process".

Definition ProcessExecutor_backend_descriptor : SandboxBackendDescriptor := {|
  sbd_backend_id := ProcessExecutor_backend_id;
  sbd_isolation := IsoProcess;
  sbd_isolation_qualified := false;
  sbd_isolation_evidence_id := None;
  sbd_enforces_network_policy := false;
  sbd_enforces_default_deny_network := false;
  sbd_enforces_workspace_write_policy := false;
  sbd_resources := {| re_wall_clock_ms := true; re_cpu_millis := false; re_memory_bytes := false;
                      re_gpu_devices := false; re_model_tokens := false |};
  sbd_capabilities := mkCapabilitySet [] |}.

(** [cancel.is_cancelled()]: the flag at the tick at which it is read. *)
Definition read_cancel (cancelled : N -> bool) : os bool := fun h =>
  let h := pass h in (h, Ok (cancelled (h_tick h))).

(** [u64::try_from(started.elapsed().as_millis()).unwrap_or(u64::MAX)]. *)
Definition ms_since (started : N) : os N :=
  now ← instant_now;
  mret (N.min u64_max (now - started)).

(** The forced ends of the loop: kill the group and reap the child. *)
Definition forced_end (fuel : nat) (timed_out cancelled : bool) : os Supervision :=
  ended ← outcome_of (terminate_group_and_reap fuel);
  mret {| su_status := match ended with Ok status => Some status | Err _ => None end;
          su_timed_out := timed_out; su_cancelled := cancelled;
          su_failure := match ended with Ok _ => None | Err e => Some e end;
          su_exited := false |}.

Fixpoint supervise_loop (fuel turns : nat) (cancelled : N -> bool) (deadline : N) : os Supervision :=
  match turns with
  | O => throw Unfinished
  | S turns =>
      waited ← try_wait;
      match waited with
      | Err _ =>
          _ ← outcome_of (terminate_group_and_reap fuel);
          mret {| su_status := None; su_timed_out := false; su_cancelled := false;
                  su_failure := Some (Backend "wait failed: {io_error}"); su_exited := false |}
      | Ok (Some status) =>
          mret {| su_status := Some status; su_timed_out := false; su_cancelled := false;
                  su_failure := None; su_exited := true |}
      | Ok None =>
          stop ← read_cancel cancelled;
          if (stop : bool) then forced_end fuel false true
          else
            now ← instant_now;
            if (deadline <=? now)%N then forced_end fuel true false
            else _ ← sleep POLL_INTERVAL_MS; supervise_loop fuel turns cancelled deadline
      end
  end.

(** After a parent that exited by itself: its group must be gone too. *)
Definition sweep_after_exit (fuel : nat) (s : Supervision) : os (option ExecutorFailure) :=
  if su_exited s then
    confirm_deadline ← termination_confirmation_deadline;
    child_id ← reads (fun h => Ok (h_child_id h));
    confirmed ← outcome_of (confirm_group_termination_after_parent_exit fuel child_id confirm_deadline);
    mret (match confirmed with Ok _ => su_failure s | Err e => Some e end : option ExecutorFailure)
  else mret (su_failure s).

(** The instants of the source cannot overflow with a 64-bit timeout. *)
Definition ProcessExecutor_execute (fuel : nat) (cancelled : N -> bool) (request : ExecutionRequest)
    : os ExecutionOutcome :=
  started ← instant_now;
  spawned ← spawn;
  match spawned with
  | Err _ =>
      duration ← ms_since started;
      mret {| eo_exit_code := None; eo_signal := None; eo_timed_out := false; eo_cancelled := false;
              eo_start_error := Some "spawn failed for executable {executable:?}; environment names: {environment_names:?}; OS error: {io_error}"%string;
              eo_duration_ms := duration; eo_stdout := []; eo_stdout_truncated := false;
              eo_stderr := []; eo_stderr_truncated := false |}
  | Ok _ =>
      let deadline := (started + rq_timeout_ms request)%N in
      s ← supervise_loop fuel fuel cancelled deadline;
      terminal_failure ← sweep_after_exit fuel s;
      captured ← outcome_of (collect_captured_streams (rq_max_capture_bytes_per_stream request));
      match terminal_failure with
      | Some error => throw (Failed error)
      | None =>
          '(stdout, stderr) ← lift (map_err Failed captured);
          duration ← ms_since started;
          mret {| eo_exit_code := su_status s ≫= status_code; eo_signal := signal_of (su_status s);
                  eo_timed_out := su_timed_out s; eo_cancelled := su_cancelled s;
                  eo_start_error := None; eo_duration_ms := duration;
                  eo_stdout := cs_bytes stdout; eo_stdout_truncated := cs_truncated stdout;
                  eo_stderr := cs_bytes stderr; eo_stderr_truncated := cs_truncated stderr |}
      end
  end.

(** ** The scripted backend *)
Definition MockExecutor_success (stdout : list N) : ExecutionOutcome := {|
  eo_exit_code := Some 0%Z; eo_signal := None; eo_timed_out := false; eo_cancelled := false;
  eo_start_error := None; eo_duration_ms := 1; eo_stdout := stdout; eo_stdout_truncated := false;
  eo_stderr := []; eo_stderr_truncated := false |}.

Definition MockExecutor_failure (exit_code : Z) (stderr : list N) : ExecutionOutcome := {|
  eo_exit_code := Some exit_code; eo_signal := None; eo_timed_out := false; eo_cancelled := false;
  eo_start_error := None; eo_duration_ms := 1; eo_stdout := []; eo_stdout_truncated := false;
  eo_stderr := stderr; eo_stderr_truncated := false |}.

(** The state is the queue of scripted outcomes. *)
Definition MockExecutor_execute (request : ExecutionRequest) (cancel : CancelToken)
    : action (list ExecutionOutcome) ExecutorFailure ExecutionOutcome := fun script =>
  if is_cancelled cancel then (script, Ok cancelled_outcome)
  else match script with
       | next :: script => (script, Ok next)
       | [] => ([], Ok (MockExecutor_success []))
       end.
End process.

(** ** Polls enough for a request *)
Definition execution_turns (request : ExecutionRequest) : nat :=
  N.to_nat (rq_timeout_ms request / POLL_INTERVAL_MS) + CONFIRM_TURNS + 1.

Section proofs.
Context `{ProcessHostLaws}.

#[local] Hint Resolve steps_instant_now steps_sleep steps_try_wait steps_killpg steps_fail
  steps_process_group_of steps_confirm_deadline steps_confirm steps_terminate steps_collect
  steps_outcome_of : steps.
#[local] Hint Extern 0 (PreOrder host_later) => apply later_preorder : steps.

Lemma steps_read_cancel cancelled : steps host_later (read_cancel cancelled).
Proof. intros h. apply later_pass. Qed.
#[local] Hint Resolve steps_read_cancel : steps.

Lemma steps_forced_end fuel t c : steps host_later (forced_end fuel t c).
Proof. unfold forced_end. solve_steps. Qed.
#[local] Hint Resolve steps_forced_end : steps.

Lemma steps_supervise_loop fuel turns cancelled deadline :
  steps host_later (supervise_loop fuel turns cancelled deadline).
Proof. induction turns; cbn [supervise_loop]; solve_steps. Qed.

Lemma steps_sweep fuel s : steps host_later (sweep_after_exit fuel s).
Proof. unfold sweep_after_exit. solve_steps. Qed.

Lemma steps_ms_since started : steps host_later (ms_since started).
Proof. unfold ms_since. solve_steps. Qed.

Lemma bind_fails {A B} (m : action Host Halt A) (f : A -> action Host Halt B) h h1 e :
  m h = (h1, Err e) -> (m ≫= f) h = (h1, Err e).
Proof. unfold mbind, action_bind. by intros ->. Qed.

(** Why a loop that was entered at [h0] ended at [h]: exactly one reason. *)
Definition end_reason (cancelled : N -> bool) (deadline : N) (h0 h : Host) (exited timed_out stop : bool) : Prop :=
  match exited, timed_out, stop with
  | true, false, false => True
  | false, true, false => (deadline <= h_now h)%N
  | false, false, true => exists t, (h_tick h0 < t <= h_tick h)%N /\ cancelled t = true
  | _, _, _ => False
  end.

Lemma end_reason_later cancelled deadline h0 h1 h h' e t c :
  (h_tick h0 <= h_tick h1)%N -> host_later h h' ->
  end_reason cancelled deadline h1 h e t c -> end_reason cancelled deadline h0 h' e t c.
Proof.
  intros Hle Hl. pose proof (lt_tick _ _ Hl). pose proof (lt_now _ _ Hl).
  unfold end_reason. destruct e, t, c; try done; [lia|].
  intros (k & Hk & Hc). exists k. split; [lia|done].
Qed.

(** What the loop establishes. *)
Definition supervised (cancelled : N -> bool) (deadline : N) (h0 h : Host) (s : Supervision) : Prop :=
  (su_exited s = false -> handled (h_tick h0) h) /\
  (su_failure s = None ->
   exists status, su_status s = Some status /\ h_child h = ChReaped status /\
     (su_exited s = false -> group_size h = 0%N) /\
     end_reason cancelled deadline h0 h (su_exited s) (su_timed_out s) (su_cancelled s)).

Lemma forced_end_supervised fuel cancelled deadline t c h0 h h' s :
  (h_tick h0 <= h_tick h)%N -> forced_end fuel t c h = (h', Ok s) ->
  end_reason cancelled deadline h0 h false t c -> supervised cancelled deadline h0 h' s.
Proof.
  intros Hle Hr Hreason. unfold forced_end in Hr.
  apply action_bind_Ok in Hr as (h1 & ended & He & Hr). apply mret_Ok in Hr as [-> <-].
  apply outcome_of_Ok in He. split; cbn.
  - intros _. apply (handled_earlier _ _ _ Hle). destruct ended; by eapply terminate_handled.
  - destruct ended as [status|e]; [|done]. intros _. exists status.
    pose proof (terminate_gone fuel h I) as Hg. rewrite He in Hg. destruct Hg as [Hg Hc]. split_and!; try done.
    cbn in Hg, Hc. refine (end_reason_later _ _ h0 h0 h h1 _ _ _ _ _ Hreason); [lia|].
    eapply steps_run; [apply steps_terminate|exact He].
Qed.

Lemma supervise_loop_supervised fuel turns cancelled deadline h0 h h' s :
  (h_tick h0 <= h_tick h)%N -> supervise_loop fuel turns cancelled deadline h = (h', Ok s) ->
  supervised cancelled deadline h0 h' s.
Proof.
  revert h. induction turns as [|turns IH]; intros h Hle; cbn [supervise_loop]; [done|].
  intros (h1 & w & Hw & Hr)%action_bind_Ok.
  pose proof (try_wait_reaped h I) as Hreap. rewrite Hw in Hreap. cbn in Hreap.
  apply (steps_run host_later), lt_tick in Hw; [|apply steps_try_wait].
  destruct w as [[st|]|e].
  - apply mret_Ok in Hr as [-> <-]. split; cbn; [done|]. intros _. exists st. split_and!; try done. by apply Hreap.
  - apply action_bind_Ok in Hr as (h2 & stop & Hs & Hr). injection Hs as <- <-.
    pose proof (pass_tick h1) as Ht1. destruct (cancelled _) eqn:Hc.
    { eapply forced_end_supervised; [|exact Hr|]; [lia|]. cbn. exists (h_tick (pass h1)). split; [lia|done]. }
    apply action_bind_Ok in Hr as (h3 & now & [Hl3 ->]%instant_now_Ok & Hr). apply lt_tick in Hl3.
    destruct (N.leb_spec deadline (h_now h3)).
    { eapply forced_end_supervised; [|exact Hr|]; [lia|]. done. }
    apply action_bind_Ok in Hr as (h4 & u & Hsl & Hr).
    apply (steps_run host_later), lt_tick in Hsl; [|apply steps_sleep]. eapply IH; [|exact Hr]. lia.
  - apply action_bind_Ok in Hr as (h2 & ended & He & Hr). apply mret_Ok in Hr as [-> <-]. split; cbn; [|done].
    intros _. apply outcome_of_Ok in He. apply (handled_earlier _ (h_tick h1)); [lia|].
    destruct ended; by eapply terminate_handled.
Qed.

Lemma sweep_supervised fuel cancelled deadline h0 h h' s failure :
  (h_tick h0 <= h_tick h)%N -> supervised cancelled deadline h0 h s -> sweep_after_exit fuel s h = (h', Ok failure) ->
  handled (h_tick h0) h' /\
  (failure = None -> group_size h' = 0%N /\ exists status, su_status s = Some status /\ h_child h' = ChReaped status /\
     end_reason cancelled deadline h0 h' (su_exited s) (su_timed_out s) (su_cancelled s)).
Proof.
  intros Hle [Hh Hs] Hr. unfold sweep_after_exit in Hr. destruct (su_exited s) eqn:He.
  - pose proof (steps_sweep fuel s h) as Hl. unfold sweep_after_exit in Hl. rewrite He, Hr in Hl. cbn in Hl.
    apply action_bind_Ok in Hr as (h1 & d & Hd & Hr). apply (steps_run host_later), lt_tick in Hd; [|apply steps_confirm_deadline].
    apply action_bind_Ok in Hr as (h2 & id & [= <- <-] & Hr). apply action_bind_Ok in Hr as (h3 & c & Hc & Hr).
    apply mret_Ok in Hr as [-> <-]. apply outcome_of_Ok in Hc. split.
    + apply (handled_earlier _ (h_tick h1)); [lia|]. destruct c; by eapply confirm_handled.
    + destruct c as [[]|e]; [|done]. intros Hf. pose proof (confirm_empty fuel (h_child_id h1) d h1 I) as Hg.
      rewrite Hc in Hg. split; [done|]. destruct (Hs Hf) as (st & ? & ? & _ & ?). exists st.
      split_and!; [done|by eapply reaped_later|]. by refine (end_reason_later _ _ h0 h0 h h3 _ _ _ _ Hl _).
  - apply mret_Ok in Hr as [-> <-]. split; [by apply Hh|]. intros Hf.
    destruct (Hs Hf) as (st & ? & ? & ? & ?). split; [auto|]. exists st. by split_and!.
Qed.

(** Calls whose failures are all values: what is left is to run out of fuel. *)
Definition reified {A} (m : action Host Halt A) : Prop :=
  triple (fun _ => True) m (fun r _ => match r with Err (Failed _) => False | _ => True end).

Lemma reified_bind {A B} (m : action Host Halt A) (f : A -> action Host Halt B) :
  reified m -> (forall a, reified (f a)) -> reified (m ≫= f).
Proof.
  intros Hm Hf. eapply triple_bind; [exact Hm| |by intros []].
  intros a h _. by apply Hf.
Qed.

Lemma reified_outcome_of {A} (m : action Host Halt A) : reified (outcome_of m).
Proof. intros h _. unfold outcome_of. by destruct (m h) as [? [|[]]]. Qed.

Lemma reified_ret {A} (a : A) : reified (mret a).
Proof. by intros h _. Qed.

Lemma reified_try_wait : reified try_wait.
Proof. intros h _. unfold try_wait. cbv zeta. destruct (ph_wait_fault _); [done|]. by destruct (h_child _). Qed.

Lemma reified_err {A} (m : action Host Halt A) h h' e : reified m -> m h = (h', Err e) -> e = Unfinished.
Proof. intros Hm Hr. specialize (Hm h I). rewrite Hr in Hm. by destruct e. Qed.

Lemma reified_forced_end fuel t c : reified (forced_end fuel t c).
Proof. apply reified_bind; [apply reified_outcome_of|]. intros r. apply reified_ret. Qed.

Lemma reified_supervise_loop fuel turns cancelled deadline : reified (supervise_loop fuel turns cancelled deadline).
Proof.
  induction turns as [|turns IH]; [by intros h _|]. cbn [supervise_loop].
  apply reified_bind; [apply reified_try_wait|]. intros [[st|]|e].
  - apply reified_ret.
  - apply reified_bind; [by intros h _|]. intros []; [apply reified_forced_end|].
    apply reified_bind; [by intros h _|]. intros now. destruct (_ <=? _)%N; [apply reified_forced_end|].
    apply reified_bind; [by intros h _|]. done.
  - apply reified_bind; [apply reified_outcome_of|]. intros r. apply reified_ret.
Qed.

Lemma reified_sweep fuel s : reified (sweep_after_exit fuel s).
Proof.
  unfold sweep_after_exit. destruct (su_exited s); [|apply reified_ret].
  apply reified_bind; [by intros h _|]. intros d. apply reified_bind; [by intros h _|]. intros id.
  apply reified_bind; [apply reified_outcome_of|]. intros r. apply reified_ret.
Qed.

(** The outcome of an execution that did not start. *)
Definition not_started (o : ExecutionOutcome) : Prop :=
  is_Some (eo_start_error o) /\ eo_exit_code o = None /\ eo_signal o = None /\
  eo_timed_out o = false /\ eo_cancelled o = false /\ eo_stdout o = [] /\ eo_stderr o = [].

(** The outcome of one that did: its status is the child's, its streams are
    the prefixes kept, and at most one of the two forced ends happened -- for
    its own reason. *)
Definition outcome_observed (cancelled : N -> bool) (request : ExecutionRequest) (h0 h : Host) (o : ExecutionOutcome) : Prop :=
  eo_start_error o = None /\
  (exists status, eo_exit_code o = status_code status /\ eo_signal o = signal_of (Some status) /\
     group_contained (rq_max_capture_bytes_per_stream request) status
       {| cs_bytes := eo_stdout o; cs_truncated := eo_stdout_truncated o |}
       {| cs_bytes := eo_stderr o; cs_truncated := eo_stderr_truncated o |} h) /\
  (eo_timed_out o = true -> eo_cancelled o = false /\ (h_now h0 + rq_timeout_ms request <= h_now h)%N) /\
  (eo_cancelled o = true -> exists t, (h_tick h0 < t <= h_tick h)%N /\ cancelled t = true).

(** (C6) No supervised process group outlives its call.  Whenever
    [ProcessExecutor] answers an outcome, either nothing was started, or the
    child is reaped, its process group is empty, both pipes are closed, the
    status is the child's and the two captures are exactly the prefixes of all
    that was written, marked truncated just when there was more; a time-out is
    reported only after the time was up and a cancellation only when it was
    asked for, never both.  When it answers a failure, the whole group was
    killed or was gone, unless the kill itself could not be done.  A process
    that left the group is not supervised. *)
Theorem process_execution_contained fuel cancelled request h h' r :
  ProcessExecutor_execute fuel cancelled request h = (h', r) ->
  match r with
  | Ok o => not_started o /\ (exists t e, (h_tick h < t <= h_tick h')%N /\ ph_spawn t = Err e) \/
            outcome_observed cancelled request h h' o
  | Err (Failed _) => handled (h_tick h) h'
  | Err Unfinished => True
  end.
Proof.
  unfold ProcessExecutor_execute. rewrite (bind_run _ _ _ (pass h) _ eq_refl). intros Hr.
  pose proof (lt_now _ _ (later_pass h)) as Hn. pose proof (pass_tick h) as Ht. remember (pass h) as h1 eqn:E1. clear E1.
  unfold mbind at 1, action_bind at 1 in Hr. unfold spawn in Hr. cbv zeta in Hr. pose proof (pass_tick h1) as Ht1.
  destruct (ph_spawn (h_tick (pass h1))) as [id|e] eqn:Hsp.
  2: { unfold ms_since in Hr. cbn in Hr. injection Hr as <- <-. left. split; [by split_and!|].
       rewrite pass_tick in Hsp. exists (h_tick h1 + 1)%N, e. rewrite !pass_tick. split; [lia|done]. }
  pose proof (lt_now _ _ (later_pass h1)) as Hn1.
  set (h2 := mkHost (h_tick (pass h1)) _ _ _ _ _ _ _ _) in Hr.
  assert (Ht2 : (h_tick h < h_tick h2)%N) by (unfold h2; cbn [h_tick]; lia).
  assert (Hn2 : (h_now h1 <= h_now h2)%N) by exact Hn1. clearbody h2.
  destruct (supervise_loop fuel fuel cancelled (h_now h1 + rq_timeout_ms request) h2) as [h3 [s|e]] eqn:Hloop.
  2: { rewrite (bind_fails _ _ _ _ _ Hloop) in Hr. injection Hr as <- <-.
       by rewrite (reified_err _ _ _ _ (reified_supervise_loop _ _ _ _) Hloop). }
  rewrite (bind_run _ _ _ _ _ Hloop) in Hr.
  pose proof (lt_tick _ _ (steps_run host_later _ _ _ _ (steps_supervise_loop _ _ _ _) Hloop)) as Ht3.
  apply (supervise_loop_supervised _ _ _ _ h2) in Hloop; [|lia].
  destruct (sweep_after_exit fuel s h3) as [h4 [failure|e]] eqn:Hsweep.
  2: { rewrite (bind_fails _ _ _ _ _ Hsweep) in Hr. injection Hr as <- <-.
       by rewrite (reified_err _ _ _ _ (reified_sweep _ _) Hsweep). }
  rewrite (bind_run _ _ _ _ _ Hsweep) in Hr.
  pose proof (lt_tick _ _ (steps_run host_later _ _ _ _ (steps_sweep _ _) Hsweep)) as Ht4.
  eapply sweep_supervised in Hsweep as [Hh Hok]; [|exact Ht3|exact Hloop].
  set (cap := rq_max_capture_bytes_per_stream request) in *.
  destruct (outcome_of (collect_captured_streams cap) h4) as [h5 [captured|e]] eqn:Hcol.
  2: { rewrite (bind_fails _ _ _ _ _ Hcol) in Hr. injection Hr as <- <-.
       by rewrite (reified_err _ _ _ _ (reified_outcome_of _) Hcol). }
  rewrite (bind_run _ _ _ _ _ Hcol) in Hr.
  pose proof (steps_run host_later _ _ _ _ (steps_outcome_of _ (steps_collect cap)) Hcol) as Hl5.
  assert (Hh5 : handled (h_tick h) h5).
  { apply (handled_later _ _ _ Hl5). apply (handled_earlier _ (h_tick h2)); [lia|exact Hh]. }
  destruct failure as [e|]; [by injection Hr as <- <-|].
  destruct captured as [[out err]|e]; [|by injection Hr as <- <-].
  destruct (Hok eq_refl) as (Hg & status & Hst & Hc & Hreason).
  rewrite (bind_run _ _ _ h5 (out, err) eq_refl) in Hr. injection Hr as <- <-. right.
  apply outcome_of_Ok in Hcol. pose proof (later_pass h5) as Hl6.
  pose proof (contained_later _ _ _ _ _ _ Hl6 (contained_collect _ _ _ _ _ _ Hg Hc Hcol)) as Hcont.
  pose proof (lt_tick _ _ Hl5). pose proof (lt_tick _ _ Hl6). pose proof (lt_now _ _ Hl5). pose proof (lt_now _ _ Hl6).
  unfold outcome_observed, end_reason in *. cbn [eo_exit_code eo_signal eo_stdout eo_stdout_truncated eo_stderr
    eo_stderr_truncated eo_timed_out eo_cancelled eo_start_error]. split; [done|]. split; [|split].
  - exists status. rewrite Hst. destruct out as [ob ot], err as [eb et]. by split_and!.
  - intros Hto. rewrite Hto in Hreason. destruct (su_exited s); [done|]. destruct (su_cancelled s); [done|].
    split; [done|]. lia.
  - intros Hca. rewrite Hca in Hreason. destruct (su_exited s), (su_timed_out s); try done.
    destruct Hreason as (t & Ht' & Hct). exists t. split; [lia|done].
Qed.

(** ** Ending *)
Lemma sweep_returns fuel s h : CONFIRM_TURNS <= fuel -> returns (sweep_after_exit fuel s) h.
Proof.
  intros Hf. unfold sweep_after_exit. destruct (su_exited s); [|done].
  apply returns_bind; [done|]. intros d h1 ->%confirm_deadline_Ok. apply returns_bind; [done|].
  intros id h2 [= <- _]. apply returns_bind; [|done]. apply returns_outcome_of, confirm_returns; [done|lia].
Qed.

Lemma forced_end_returns fuel t c h : CONFIRM_TURNS <= fuel -> returns (forced_end fuel t c) h.
Proof. intros Hf. apply returns_bind; [|done]. by apply returns_outcome_of, terminate_returns. Qed.

Lemma supervise_loop_returns fuel turns cancelled deadline h :
  CONFIRM_TURNS <= fuel -> (deadline <= h_now h + POLL_INTERVAL_MS * N.of_nat turns)%N ->
  returns (supervise_loop fuel (S turns) cancelled deadline) h.
Proof.
  intros Hf. revert h. induction turns as [|turns IH]; intros h Hd; cbn [supervise_loop].
  all: apply returns_bind; [apply try_wait_returns|]; intros r h1 Hk;
    apply (steps_run host_later), lt_now in Hk; [|apply steps_try_wait].
  all: destruct r as [[status|]|e]; [done| |apply returns_bind; [by apply returns_outcome_of, terminate_returns|done]].
  all: apply returns_bind; [done|]; intros stop h2 Hs; apply (steps_run host_later), lt_now in Hs; [|apply steps_read_cancel];
    destruct stop; [by apply forced_end_returns|].
  all: apply returns_bind; [done|]; intros now h3 [Hl%lt_now ->]%instant_now_Ok; unfold POLL_INTERVAL_MS in *.
  - rewrite (proj2 (N.leb_le _ _)) by lia. by apply forced_end_returns.
  - destruct (_ <=? _)%N; [by apply forced_end_returns|].
    apply returns_bind; [done|]. intros u h4 Hsl%sleep_Ok. apply IH. lia.
Qed.

Lemma process_execution_finishes fuel cancelled request h :
  execution_turns request <= fuel -> returns (ProcessExecutor_execute fuel cancelled request) h.
Proof.
  intros Hfuel.
  assert (Hf : CONFIRM_TURNS <= fuel) by
    (etrans; [|exact Hfuel]; unfold execution_turns; generalize (N.to_nat (rq_timeout_ms request / POLL_INTERVAL_MS)); lia).
  apply returns_bind; [done|]. intros started h1 [_ ->]%instant_now_Ok.
  destruct (spawn h1) as [h2 [sp|e]] eqn:Hsp.
  2: { unfold spawn in Hsp. cbv zeta in Hsp. by destruct (ph_spawn _). }
  assert (Hn : (h_now h1 <= h_now h2)%N).
  { unfold spawn in Hsp. cbv zeta in Hsp. pose proof (lt_now _ _ (later_pass h1)).
    by destruct (ph_spawn _); injection Hsp as <- _. }
  unfold returns. rewrite (bind_run _ _ _ _ _ Hsp). destruct sp as [id|e]; [|done].
  apply returns_bind.
  - destruct fuel as [|fuel]; [unfold CONFIRM_TURNS in Hf; lia|]. apply supervise_loop_returns; [done|].
    unfold execution_turns, POLL_INTERVAL_MS in *. pose proof (N.div_mod (rq_timeout_ms request) 10 ltac:(lia)).
    pose proof (N.mod_lt (rq_timeout_ms request) 10 ltac:(lia)). clear Hf.
    remember (rq_timeout_ms request / 10)%N as q. unfold CONFIRM_TURNS in Hfuel. lia.
  - intros s h3 _. apply returns_bind; [by apply sweep_returns|]. intros failure h4 _.
    apply returns_bind; [apply returns_outcome_of, collect_returns|]. intros captured h5 _.
    destruct failure; [done|]. apply returns_bind; [by destruct captured|]. intros [out err] h6 _. by apply returns_bind.
Qed.

(** (C34) Every execution returns.  Whatever the child, its descendants, the
    kernel and the clock do, [ProcessExecutor] has an answer after at most one
    poll per 10 ms of the request's timeout and 101 polls for each
    confirmation that a group is gone. *)
Theorem process_execution_terminates fuel cancelled request h :
  execution_turns request <= fuel -> exists h' r, ProcessExecutor_execute fuel cancelled request h = (h', r) /\
    r <> Err Unfinished.
Proof.
  intros Hfuel%(process_execution_finishes _ cancelled _ h). unfold returns in Hfuel.
  destruct (ProcessExecutor_execute fuel cancelled request h) as [h' r]. by exists h', r.
Qed.
End proofs.

(** ** Why an execution fails

    What is behind each text of a failure, between tick [t0] and the state
    [h'] in which it is answered: a call of the operating system that failed,
    an identifier out of range, or something that was still there one second
    after the wait for it began -- at [ha] -- though at [hb] it was looked at
    again.  A pipe stays open when a process outside the group, such as a
    descendant in a session of its own, still holds it. *)
Inductive failed_because `{ProcessHost} (t0 : N) (h' : Host) : string -> Prop :=
| because_wait t e :
    (t0 < t <= h_tick h')%N -> ph_wait_fault t = Some e -> failed_because t0 h' "wait failed: {io_error}"
| because_reap t e :
    (t0 < t <= h_tick h')%N -> ph_wait_fault t = Some e -> failed_because t0 h' "reaping unconfirmed: {error}"
| because_identifier :
    (i32_max < h_child_id h')%N -> failed_because t0 h' "invalid process-group identifier: {error}"
| because_terminate t e :
    (t0 < t <= h_tick h')%N -> ph_kill_fault t = Some e -> failed_because t0 h' "termination unconfirmed: {error}"
| because_cleanup t e :
    (t0 < t <= h_tick h')%N -> ph_kill_fault t = Some e ->
    failed_because t0 h' "process-group cleanup unconfirmed: {error}"
| because_probe t e :
    (t0 < t <= h_tick h')%N -> ph_kill_fault t = Some e ->
    failed_because t0 h' "process-group termination probe failed: {error}"
| because_members ha hb :
    (t0 <= h_tick ha)%N -> host_later ha hb -> host_later (pass hb) h' ->
    h_signalled hb = true -> group_size hb <> 0%N ->
    (h_now ha + GROUP_CONFIRM_TIMEOUT <= h_now (pass hb))%N ->
    failed_because t0 h' "process-group termination unconfirmed before deadline"
| because_running ha hb :
    (t0 <= h_tick ha)%N -> host_later ha hb -> host_later (pass hb) h' ->
    match h_child hb with ChZombie _ | ChReaped _ => False | _ => True end ->
    (h_now ha + GROUP_CONFIRM_TIMEOUT <= h_now (pass hb))%N ->
    failed_because t0 h' "reaping unconfirmed before deadline"
| because_drain ha hb stream :
    (t0 <= h_tick ha)%N -> host_later ha hb -> host_later hb h' ->
    stream = h_stdout \/ stream = h_stderr ->
    pp_open (stream hb) = true \/ ph_received (h_tick hb) = RcTimeout ->
    (h_now ha + PIPE_DRAIN_TIMEOUT <= h_now h')%N ->
    failed_because t0 h' "{stream_name} capture incomplete before drain deadline"
| because_disconnected t :
    (t0 < t <= h_tick h')%N -> ph_received t = RcDisconnected ->
    failed_because t0 h' "{stream_name} capture incomplete: reader disconnected"
| because_read t written :
    (t0 < t <= h_tick h')%N -> delivered (ph_reads t written) = None ->
    failed_because t0 h' "{stream_name} capture incomplete: {error}".

(** A failure of the backend with its cause. *)
Definition caused `{ProcessHost} (t0 : N) (h' : Host) (e : ExecutorFailure) : Prop :=
  exists reason, e = Backend reason /\ failed_because t0 h' reason.

Section causes.
Context `{PH : ProcessHost, !ProcessHostLaws}.

Lemma caused_mono t0 t1 h h' e : (t0 <= t1)%N -> host_later h h' -> caused t1 h e -> caused t0 h' e.
Proof.
  intros Hle Hl (reason & -> & Hb). exists reason. split; [done|].
  pose proof (lt_tick _ _ Hl) as Ht. pose proof (lt_now _ _ Hl) as Hn.
  destruct Hb as [| | | | | |ha hb|ha hb|ha hb stream| |].
  - eapply because_wait; [|eassumption]; lia.
  - eapply because_reap; [|eassumption]; lia.
  - apply because_identifier. by rewrite (lt_id _ _ Hl).
  - eapply because_terminate; [|eassumption]; lia.
  - eapply because_cleanup; [|eassumption]; lia.
  - eapply because_probe; [|eassumption]; lia.
  - apply (because_members _ _ ha hb); try done; [lia|by etrans].
  - apply (because_running _ _ ha hb); try done; [lia|by etrans].
  - apply (because_drain _ _ ha hb stream); try done; [lia|by etrans|lia].
  - eapply because_disconnected; [|eassumption]; lia.
  - eapply because_read; [|eassumption]; lia.
Qed.

(** A call that starts at tick [t0] or later: its failures have a cause. *)
Definition blames {A} (t0 : N) (P : Host -> Prop) (m : action Host Halt A) : Prop :=
  forall h h' e, P h -> (t0 <= h_tick h)%N -> m h = (h', Err (Failed e)) -> caused t0 h' e.

Lemma blames_bind {A B} t0 (P Q : Host -> Prop) (m : action Host Halt A) (f : A -> action Host Halt B) :
  blames t0 P m -> steps host_later m -> (forall h h', P h -> host_later h h' -> Q h') ->
  (forall a, blames t0 Q (f a)) -> blames t0 P (m ≫= f).
Proof.
  intros Hm Hs HQ Hf h h' e Hp Ht Hr. unfold mbind, action_bind in Hr. destruct (m h) as [h1 [a|e1]] eqn:Em.
  - pose proof (steps_run _ _ _ _ _ Hs Em) as Hl. apply (Hf a h1); [by eapply HQ| |done].
    pose proof (lt_tick _ _ Hl). lia.
  - injection Hr as <- ->. by eapply Hm.
Qed.

Lemma confirm_loop_blames t0 ha fuel deadline :
  (t0 <= h_tick ha)%N -> deadline = (h_now ha + GROUP_CONFIRM_TIMEOUT)%N ->
  blames t0 (fun h => host_later ha h /\ h_signalled h = true) (confirm_loop fuel deadline).
Proof.
  intros Ha ->. induction fuel as [|fuel IH]; [done|]. intros h h' e [Hl Hs] Ht. cbn [confirm_loop].
  unfold mbind at 1, action_bind at 1, killpg. cbv zeta. pose proof (later_pass h) as Hp.
  destruct (ph_kill_fault (h_tick (pass h))) as [err|] eqn:Hf.
  { intros [= <- <-]. eexists; split; [done|]. eapply because_probe; [|exact Hf]. rewrite pass_tick. lia. }
  destruct (N.eqb_spec (group_size (pass h)) 0) as [|Hg]; [done|]. unfold mbind, action_bind, instant_now. cbv zeta.
  destruct (N.leb_spec (h_now ha + GROUP_CONFIRM_TIMEOUT) (h_now (pass (pass h)))) as [Hd|Hd].
  - intros [= <- <-]. eexists; split; [done|]. eapply (because_members _ _ ha (pass h)); try done.
    + by etrans.
    + by apply Hp.
  - intros Hr. eapply IH; [| |exact Hr]; [split|].
    + do 3 (etrans; [eassumption || apply later_pass|]). apply steps_sleep.
    + eapply lt_signalled; [apply steps_sleep|]. do 2 (eapply lt_signalled; [apply later_pass|]). exact Hs.
    + change (t0 <= h_tick (pass (pass (pass h))))%N. rewrite !pass_tick. lia.
Qed.

Lemma confirm_blames t0 ha fuel id deadline :
  (t0 <= h_tick ha)%N -> deadline = (h_now ha + GROUP_CONFIRM_TIMEOUT)%N ->
  blames t0 (fun h => host_later ha h /\ h_child_id h = id) (confirm_group_termination_after_parent_exit fuel id deadline).
Proof.
  intros Ha Hd h h' e [Hl Hid] Ht. unfold confirm_group_termination_after_parent_exit. rewrite process_group_of_bind.
  destruct (N.leb_spec id i32_max) as [_|Hbig].
  2: { intros [= <- <-]. eexists; split; [done|]. apply because_identifier. by rewrite Hid. }
  unfold mbind, action_bind, killpg. cbv zeta. pose proof (later_pass h) as Hp.
  destruct (ph_kill_fault (h_tick (pass h))) as [err|] eqn:Hf.
  { intros [= <- <-]. eexists; split; [done|]. eapply because_cleanup; [|exact Hf]. rewrite pass_tick. lia. }
  destruct (_ =? _)%N; [done|]. apply (confirm_loop_blames _ _ _ _ Ha Hd).
  - split; [|done]. etrans; [exact Hl|]. etrans; [exact Hp|]. apply later_set_signalled.
  - cbn. rewrite pass_tick. lia.
Qed.

Lemma reap_loop_blames t0 ha fuel deadline :
  (t0 <= h_tick ha)%N -> deadline = (h_now ha + GROUP_CONFIRM_TIMEOUT)%N ->
  blames t0 (fun h => host_later ha h) (reap_loop fuel deadline).
Proof.
  intros Ha ->. induction fuel as [|fuel IH]; [done|]. intros h h' e Hl Ht. cbn [reap_loop].
  unfold mbind at 1, action_bind at 1, try_wait. cbv zeta. pose proof (later_pass h) as Hp.
  destruct (ph_wait_fault (h_tick (pass h))) as [err|] eqn:Hf.
  { intros [= <- <-]. eexists; split; [done|]. eapply because_reap; [|exact Hf]. rewrite pass_tick. lia. }
  assert (Hagain : match h_child (pass h) with ChZombie _ | ChReaped _ => False | _ => True end ->
    (now ← instant_now;
     if (now <? h_now ha + GROUP_CONFIRM_TIMEOUT)%N
     then _ ← sleep GROUP_POLL_INTERVAL; reap_loop fuel (h_now ha + GROUP_CONFIRM_TIMEOUT)
     else fail "reaping unconfirmed before deadline") (pass h) = (h', Err (Failed e)) -> caused t0 h' e).
  { intros Hc. unfold mbind, action_bind, instant_now. cbv zeta.
    destruct (N.ltb_spec (h_now (pass (pass h))) (h_now ha + GROUP_CONFIRM_TIMEOUT)) as [Hd|Hd].
    - intros Hr. eapply IH; [| |exact Hr].
      + do 3 (etrans; [eassumption || apply later_pass|]). apply steps_sleep.
      + change (t0 <= h_tick (pass (pass (pass h))))%N. rewrite !pass_tick. lia.
    - intros [= <- <-]. eexists; split; [done|]. apply (because_running _ _ ha (pass h)); try done. by etrans. }
  destruct (h_child (pass h)); try done; by apply Hagain.
Qed.

Lemma terminate_blames t0 fuel : blames t0 (fun _ => True) (terminate_group_and_reap fuel).
Proof.
  intros h h' e _ Ht. unfold terminate_group_and_reap.
  rewrite (bind_run _ _ _ (pass h) (h_now (pass h) + GROUP_CONFIRM_TIMEOUT)%N eq_refl).
  rewrite (bind_run _ _ _ (pass h) (h_child_id (pass h)) eq_refl), process_group_of_bind.
  pose proof (pass_tick h) as Htp. remember (pass h) as ha eqn:Eha. clear Eha.
  destruct (N.leb_spec (h_child_id ha) i32_max) as [_|Hbig].
  2: { intros [= <- <-]. eexists; split; [done|]. by apply because_identifier. }
  unfold mbind at 1, action_bind at 1, killpg. cbv zeta. pose proof (later_pass ha) as Hp.
  destruct (ph_kill_fault (h_tick (pass ha))) as [err|] eqn:Hf.
  { intros [= <- <-]. eexists; split; [done|]. eapply because_terminate; [|exact Hf]. rewrite pass_tick. lia. }
  set (m := status ← reap_loop fuel _; _).
  assert (Hm : blames t0 (fun h => host_later ha h) m).
  { subst m. apply (blames_bind _ _ (fun h => host_later ha h)).
    - apply reap_loop_blames; [lia|done].
    - apply steps_reap_loop.
    - intros h1 h2 ? ?. by etrans.
    - intros status. apply (blames_bind _ _ (fun _ => True)); [|apply steps_confirm|done|by intros ? h1 h2 e1 _ _ ?].
      intros h1 h2 e1 Hl1. apply (confirm_blames _ ha); [lia|done|]. split; [done|]. by rewrite (lt_id _ _ Hl1). }
  destruct (group_size (pass ha) =? 0)%N; apply Hm.
  - exact Hp.
  - rewrite pass_tick. lia.
  - etrans; [exact Hp|apply later_set_signalled].
  - cbn. rewrite pass_tick. lia.
Qed.

Lemma receive_before_blames t0 ha deadline cap stream :
  (t0 <= h_tick ha)%N -> deadline = (h_now ha + PIPE_DRAIN_TIMEOUT)%N -> stream = h_stdout \/ stream = h_stderr ->
  blames t0 (fun h => host_later ha h) (receive_before deadline cap stream).
Proof.
  intros Ha -> Hst h h' e Hl Ht. unfold receive_before, mbind, action_bind, instant_now. cbv zeta.
  pose proof (later_pass h) as Hp. pose proof (later_pass (pass h)) as Hp2. pose proof (pass_tick (pass h)) as Ht2.
  pose proof (pass_tick h) as Ht1. set (hb := pass (pass h)) in *.
  assert (Hab : host_later ha hb) by (do 2 (etrans; [eassumption|]); exact Hp2).
  assert (Hlate : pp_open (stream hb) = true \/ ph_received (h_tick hb) = RcTimeout ->
    (set_clock hb (N.max (h_now hb) (h_now (pass h) +
       saturating_sub_u64 (h_now ha + PIPE_DRAIN_TIMEOUT) (h_now (pass h)))),
     Err (Failed (Backend "{stream_name} capture incomplete before drain deadline"))) = (h', Err (A := CapturedStream) (Failed e)) ->
    caused t0 h' e).
  { intros Ho [= <- <-]. eexists; split; [done|]. apply (because_drain _ _ ha hb stream); try done.
    - apply later_clock. lia.
    - cbn [set_clock h_now]. unfold saturating_sub_u64. lia. }
  assert (Hgone : ph_received (h_tick hb) = RcDisconnected ->
    (hb, Err (Failed (Backend "{stream_name} capture incomplete: reader disconnected"))) =
      (h', Err (A := CapturedStream) (Failed e)) -> caused t0 h' e).
  { intros Hr [= <- <-]. eexists; split; [done|]. eapply because_disconnected; [|exact Hr]. lia. }
  destruct (pp_open (stream hb)) eqn:Ho, (ph_received (h_tick hb)) eqn:Hrc; try by auto.
  unfold spawn_capped_reader.
  pose proof (capped_reader_delivered cap [] (ph_reads (h_tick hb) (pp_written (stream hb)))) as Hdel.
  assert (capture_of cap [] = {| cs_bytes := []; cs_truncated := false |}) as He.
  { unfold capture_of. rewrite take_nil. f_equal. apply N.ltb_ge. unfold len. cbn. lia. }
  rewrite He in Hdel. rewrite Hdel. destruct (delivered _) as [bs|] eqn:Hbs; cbn; [done|].
  intros [= <- <-]. eexists; split; [done|]. eapply because_read; [|exact Hbs]. lia.
Qed.

Lemma collect_blames t0 cap : blames t0 (fun _ => True) (collect_captured_streams cap).
Proof.
  intros h h' e _ Ht. unfold collect_captured_streams.
  rewrite (bind_run _ _ _ (pass h) (h_now (pass h)) eq_refl). pose proof (pass_tick h) as Htp.
  remember (pass h) as ha eqn:Eha. clear Eha. revert h' e. 
  enough (Hb : blames t0 (fun h => host_later ha h)
    (stdout ← receive_before (h_now ha + PIPE_DRAIN_TIMEOUT) cap h_stdout;
     stderr ← receive_before (h_now ha + PIPE_DRAIN_TIMEOUT) cap h_stderr; mret (stdout, stderr)))
    by (intros h' e; apply Hb; [reflexivity|lia]).
  apply (blames_bind _ _ (fun h => host_later ha h)); [apply receive_before_blames; [lia|done|by left]|
    apply steps_receive_before|intros ? ? ? ?; by etrans|]. intros out.
  apply (blames_bind _ _ (fun _ => True)); [apply receive_before_blames; [lia|done|by right]|
    apply steps_receive_before|done|by intros ? ? ? ? _ _ ?].
Qed.

(** The failures that the supervision keeps as values. *)
Lemma forced_end_blames t0 fuel t c h h' s :
  (t0 <= h_tick h)%N -> forced_end fuel t c h = (h', Ok s) -> forall e, su_failure s = Some e -> caused t0 h' e.
Proof.
  intros Ht (h1 & [st|e1] & Ho%outcome_of_Ok & [-> <-]%mret_Ok)%action_bind_Ok e; [done|].
  intros [= <-]. by apply (terminate_blames t0 fuel h).
Qed.

Lemma supervise_loop_blames t0 fuel turns cancelled deadline h h' s :
  (t0 <= h_tick h)%N -> supervise_loop fuel turns cancelled deadline h = (h', Ok s) ->
  forall e, su_failure s = Some e -> caused t0 h' e.
Proof.
  revert h. induction turns as [|turns IH]; intros h Ht; cbn [supervise_loop]; [done|].
  intros (h1 & w & Hw & Hr)%action_bind_Ok e He.
  pose proof (lt_tick _ _ (steps_run host_later _ _ _ _ steps_try_wait Hw)) as Ht1. destruct w as [[st|]|err].
  - apply mret_Ok in Hr as [-> <-]. done.
  - apply action_bind_Ok in Hr as (h2 & stop & [= <- <-] & Hr). pose proof (pass_tick h1).
    destruct (cancelled _); [eapply forced_end_blames; [|exact Hr|exact He]; lia|].
    apply action_bind_Ok in Hr as (h3 & now & [Hl3%lt_tick ->]%instant_now_Ok & Hr).
    destruct (_ <=? _)%N; [eapply forced_end_blames; [|exact Hr|exact He]; lia|].
    apply action_bind_Ok in Hr as (h4 & u & Hsl & Hr).
    apply (steps_run host_later), lt_tick in Hsl; [|apply steps_sleep]. eapply IH; [|exact Hr|exact He]. lia.
  - apply action_bind_Ok in Hr as (h2 & ended & Ho & Hr). apply mret_Ok in Hr as [-> <-].
    injection He as <-. unfold try_wait in Hw. cbv zeta in Hw.
    destruct (ph_wait_fault (h_tick (pass h))) as [e1|] eqn:Hf; [|by destruct (h_child (pass h))].
    injection Hw as <- <-. eexists; split; [done|]. eapply because_wait; [|exact Hf]. rewrite pass_tick in *.
    pose proof (lt_tick _ _ (steps_run host_later _ _ _ _ (steps_outcome_of _ (steps_terminate fuel)) Ho)).
    rewrite pass_tick in *. lia.
Qed.

Lemma sweep_blames t0 fuel h h' s failure :
  (t0 <= h_tick h)%N -> (forall e, su_failure s = Some e -> caused t0 h e) ->
  sweep_after_exit fuel s h = (h', Ok failure) -> forall e, failure = Some e -> caused t0 h' e.
Proof.
  intros Ht Hs Hr e ->. pose proof (steps_run host_later _ _ _ _ (steps_sweep fuel s) Hr) as Hl.
  unfold sweep_after_exit in Hr. destruct (su_exited s).
  - rewrite (bind_run _ _ _ (pass h) (h_now (pass h) + GROUP_CONFIRM_TIMEOUT)%N eq_refl) in Hr.
    rewrite (bind_run _ _ _ (pass h) (h_child_id (pass h)) eq_refl) in Hr.
    apply action_bind_Ok in Hr as (h1 & c & Ho%outcome_of_Ok & [-> Hc]%mret_Ok).
    destruct c as [[]|e1].
    + eapply caused_mono; [reflexivity|exact Hl|by apply Hs].
    + injection Hc as <-. eapply (confirm_blames t0 (pass h)); [| | | |exact Ho].
      * rewrite pass_tick. lia.
      * done.
      * by split; [reflexivity|].
      * rewrite pass_tick. lia.
  - apply mret_Ok in Hr as [-> Hf]. by apply Hs.
Qed.

(** What is answered after the supervision: its failure first, then that of
    the streams. *)
Lemma answered_failure t0 cap failure (f : CapturedStream * CapturedStream -> action Host Halt ExecutionOutcome) h h' e :
  (t0 <= h_tick h)%N -> (forall e, failure = Some e -> caused t0 h e) -> (forall a h1, exists h2 o, f a h1 = (h2, Ok o)) ->
  (captured ← outcome_of (collect_captured_streams cap);
   match failure with
   | Some error => throw (Failed error)
   | None => streams ← lift (map_err Failed captured); f streams
   end) h = (h', Err (Failed e)) -> caused t0 h' e.
Proof.
  intros Ht Hf Hok Hr. unfold mbind at 1, action_bind at 1, outcome_of in Hr.
  pose proof (steps_collect cap h) as Hl. pose proof (collect_blames t0 cap h) as Hc.
  destruct (collect_captured_streams cap h) as [h1 [streams|[|e1]]]; cbn [fst] in Hl; [|done|].
  - destruct failure as [e2|].
    + injection Hr as <- ->. eapply caused_mono; [reflexivity|exact Hl|by apply Hf].
    + cbn in Hr. destruct (Hok streams h1) as (h2 & o & Hx). unfold mbind, action_bind in Hr. cbn in Hr. congruence.
  - destruct failure as [e2|]; injection Hr as <- ->.
    + eapply caused_mono; [reflexivity|exact Hl|by apply Hf].
    + by apply Hc.
Qed.

(** (C35) No execution fails without a cause.  Whatever the child, its
    descendants, the kernel and the clock do, [ProcessExecutor] answers with
    an outcome, or with a failure whose text says what happened since the
    call began: a wait or a kill that the system refused, an identifier that
    is no process identifier, a member of the killed group or the child still
    there after a whole second, a pipe still open -- held by a process that
    left the group, for example -- or its reader late after a whole second of
    draining, or a reader that was gone or could not read. *)
Theorem process_failures_caused fuel cancelled request h :
  execution_turns request <= fuel ->
  exists h' r, ProcessExecutor_execute fuel cancelled request h = (h', r) /\
    match r with
    | Ok _ => True
    | Err (Failed e) => caused (h_tick h) h' e
    | Err Unfinished => False
    end.
Proof.
  intros Hfuel%(process_execution_finishes _ cancelled _ h). unfold returns in Hfuel.
  destruct (ProcessExecutor_execute fuel cancelled request h) as [h' r] eqn:Hr. exists h', r. split; [done|].
  destruct r as [o|[|e]]; [done|by apply Hfuel|]. clear Hfuel.
  revert Hr. unfold ProcessExecutor_execute. rewrite (bind_run _ _ _ (pass h) _ eq_refl). intros Hr.
  pose proof (pass_tick h) as Ht. remember (pass h) as h1 eqn:E1. clear E1.
  assert (Hspawn : exists h2 sp, spawn h1 = (h2, Ok sp) /\ h_tick h2 = (h_tick h1 + 1)%N).
  { unfold spawn. cbv zeta. destruct (ph_spawn _); eexists _, _; (split; [reflexivity|apply pass_tick]). }
  destruct Hspawn as (h2 & sp & Hsp & Ht2). rewrite (bind_run _ _ _ _ _ Hsp) in Hr. destruct sp as [id|err]; [|done].
  destruct (supervise_loop fuel fuel cancelled (h_now h1 + rq_timeout_ms request) h2) as [h3 [s|e3]] eqn:Hloop.
  2: { rewrite (bind_fails _ _ _ _ _ Hloop) in Hr. injection Hr as <- ->.
       by apply reified_err in Hloop; [|apply reified_supervise_loop]. }
  rewrite (bind_run _ _ _ _ _ Hloop) in Hr.
  pose proof (lt_tick _ _ (steps_run host_later _ _ _ _ (steps_supervise_loop _ _ _ _) Hloop)) as Ht3.
  assert (Hf3 : forall e, su_failure s = Some e -> caused (h_tick h) h3 e)
    by (eapply supervise_loop_blames; [|exact Hloop]; lia).
  destruct (sweep_after_exit fuel s h3) as [h4 [failure|e4]] eqn:Hsweep.
  2: { rewrite (bind_fails _ _ _ _ _ Hsweep) in Hr. injection Hr as <- ->.
       by apply reified_err in Hsweep; [|apply reified_sweep]. }
  rewrite (bind_run _ _ _ _ _ Hsweep) in Hr.
  pose proof (lt_tick _ _ (steps_run host_later _ _ _ _ (steps_sweep _ _) Hsweep)) as Ht4.
  assert (Hf4 : forall e, failure = Some e -> caused (h_tick h) h4 e)
    by (eapply sweep_blames; [|exact Hf3|exact Hsweep]; lia).
  eapply answered_failure; [|exact Hf4| |exact Hr]; [lia|]. intros [out err] h5. by eexists _, _.
Qed.
End causes.

(** ** A concrete kernel

    The child writes [out] of the tick to both pipes between any two calls,
    exits at a given tick unless it is killed before, and its pipes close with
    its group. *)
Section scripted.
Context (exits_at : N) (out : N -> list N).

Definition settle (h : Host) (p : Pipe) : Pipe :=
  if pp_open p then
    {| pp_written := match h_child h with
                     | ChRunning => pp_written p ++ out (h_tick h)
                     | _ => pp_written p
                     end;
       pp_open := negb (group_size h =? 0)%N |}
  else p.

Definition scripted_host : ProcessHost := {|
  ph_drift h :=
    mkHost (h_tick h) (h_now h + 1) (h_child_id h)
      (match h_child h with
       | ChRunning => if h_signalled h then ChZombie (StSignaled 9)
                      else if (exits_at <=? h_tick h)%N then ChZombie (StExited 0) else ChRunning
       | c => c
       end) (h_leads h) (if h_signalled h then 0%N else h_descendants h) (h_signalled h)
      (settle h (h_stdout h)) (settle h (h_stderr h));
  ph_spawn _ := Ok 7%N;
  ph_wait_fault _ := None;
  ph_kill_fault _ := None;
  ph_received _ := RcReady;
  ph_reads _ written := match written with [] => [] | _ => [ReadInterrupted; ReadChunk written] end |}.
#[local] Existing Instance scripted_host.

Lemma settle_grows h p : pipe_grows p (settle h p).
Proof.
  unfold settle. destruct (pp_open p) eqn:Ho; [|by split].
  split; [|by rewrite Ho]. cbn. destruct (h_child h); try done. by eexists.
Qed.

Lemma scripted_group h : (group_size (ph_drift h) <= group_size h)%N.
Proof.
  unfold group_size. cbn [ph_drift scripted_host h_descendants h_child h_leads].
  destruct (h_child h), (h_signalled h), (h_leads h), (exits_at <=? h_tick h)%N; lia.
Qed.

Lemma scripted_laws : ProcessHostLaws.
Proof.
  split.
  - intros h. pose proof (scripted_group h). split; try done; [cbn; lia| |lia|apply settle_grows..].
    cbn. destruct (h_child h), (h_signalled h), (exits_at <=? h_tick h)%N; constructor.
  - intros t [|b written]; left; cbn; [done|by rewrite app_nil_r].
Qed.

(** The same, but a process outside the group holds the pipe of the standard
    output. *)
Definition leaky_host : ProcessHost := {|
  ph_drift h :=
    let h' := @ph_drift scripted_host h in
    mkHost (h_tick h') (h_now h') (h_child_id h') (h_child h') (h_leads h') (h_descendants h') (h_signalled h')
      (h_stdout h) (h_stderr h');
  ph_spawn := @ph_spawn scripted_host;
  ph_wait_fault := @ph_wait_fault scripted_host;
  ph_kill_fault := @ph_kill_fault scripted_host;
  ph_received := @ph_received scripted_host;
  ph_reads := @ph_reads scripted_host |}.

Lemma leaky_laws : @ProcessHostLaws leaky_host.
Proof.
  destruct scripted_laws as [Hd Hr]. split; [|exact Hr]. intros h. destruct (Hd h) as [Ht Hn Hi Hc Hg Hs Ho He].
  by split.
Qed.
End scripted.

Definition a_byte (t : N) : list N := [(t mod 256)%N].

Definition idle_host : Host := mkHost 0 100 0 ChNone false 0 false new_pipe new_pipe.

Definition echo_request (timeout : N) : ExecutionRequest := {|
  rq_program := "/bin/echo"; rq_args := ["hello"%string]; rq_working_dir := "/tmp"; rq_env := ∅;
  rq_timeout_ms := timeout; rq_max_capture_bytes_per_stream := 4 |}.

(** Two executions: one exits by itself, one is killed at its timeout. *)
Abbreviation echo_run exits_at timeout :=
  (ProcessExecutor_execute (H := scripted_host exits_at a_byte) 200 (fun _ => false) (echo_request timeout) idle_host).

Lemma echo_exits : exists o, (echo_run 12 1000).2 = Ok o /\ eo_exit_code o = Some 0%Z /\
  eo_stdout_truncated o = true /\ length (eo_stdout o) = 4.
Proof. eexists. split; [by vm_compute|]. by vm_compute. Qed.

Definition killed_at_timeout (r : result Halt ExecutionOutcome) : bool :=
  match r with
  | Ok o => eo_timed_out o && bool_decide (eo_signal o = Some 9%Z) && negb (is_some (eo_start_error o))
  | Err _ => false
  end.

Lemma echo_killed : killed_at_timeout (echo_run 5000 50).2 = true.
Proof. by vm_compute. Qed.

Lemma process_execution_contained_witness :
  exists h' o, echo_run 5000 50 = (h', Ok o) /\ eo_timed_out o = true /\ eo_signal o = Some 9%Z /\
    group_size h' = 0%N.
Proof.
  pose proof echo_killed as Hk. destruct (echo_run 5000 50) as [h' [o|e]] eqn:Hrun; [|discriminate Hk].
  exists h', o. split; [reflexivity|]. cbn in Hk. apply andb_prop in Hk as [[Ht Hs]%andb_prop He].
  apply bool_decide_eq_true in Hs. destruct (eo_start_error o) eqn:Hstart; [discriminate He|]. split; [exact Ht|]. split; [exact Hs|].
  destruct (process_execution_contained (H := scripted_host 5000 a_byte) (H0 := scripted_laws 5000 a_byte) _ _ _ _ _ _ Hrun)
    as [[[[x Hx] _] _]|(_ & (status & _ & _ & Hg & _) & _)]; [congruence|exact Hg].
Defined.

Lemma process_execution_terminates_witness :
  execution_turns (echo_request 50) <= 200 /\
  exists h' r, ProcessExecutor_execute (H := scripted_host 5000 a_byte) 200 (fun _ => false) (echo_request 50) idle_host = (h', r) /\
    r <> Err Unfinished.
Proof.
  assert (Hf : execution_turns (echo_request 50) <= 200) by (apply Nat.leb_le; by vm_compute).
  split; [exact Hf|].
  exact (process_execution_terminates (H := scripted_host 5000 a_byte) (H0 := scripted_laws 5000 a_byte) 200 (fun _ => false) _ idle_host Hf).
Defined.

(** The child exits by itself, and something that left its group keeps the
    standard output open: the call ends, with the failure that says so. *)
Abbreviation leaky_run :=
  (ProcessExecutor_execute (H := leaky_host 12 a_byte) 200 (fun _ => false) (echo_request 50) idle_host).

Lemma process_failures_caused_witness :
  leaky_run.2 = Err (Failed (Backend "{stream_name} capture incomplete before drain deadline")) /\
  exists h', failed_because (H := leaky_host 12 a_byte) (h_tick idle_host) h'
    "{stream_name} capture incomplete before drain deadline".
Proof.
  assert (Hf : execution_turns (echo_request 50) <= 200) by (apply Nat.leb_le; by vm_compute).
  assert (Hrun : leaky_run.2 = Err (Failed (Backend "{stream_name} capture incomplete before drain deadline")))
    by (vm_compute; reflexivity).
  split; [exact Hrun|].
  destruct (process_failures_caused (PH := leaky_host 12 a_byte) (H := leaky_laws 12 a_byte) 200
    (fun _ => false) (echo_request 50) idle_host Hf) as (h' & r & Hr & Hc).
  rewrite Hr in Hrun. cbn in Hrun. subst r. destruct Hc as (reason & [= <-] & Hb). by exists h'.
Defined.
