(* ===== verification/Lines.v ===== *)
(** * Text of other programs

    What the executors use to read the output of the programs they run:
    splitting at white space and into lines, trimming, replacing, and decoding
    bytes that may not be UTF-8. *)

From Stdlib Require Import Ascii.
From stdpp Require Import base strings list.
From S2P Require Import Prelude Text Digest Blobs Submit.

(** [s.split_once(p)] for a non-empty text. *)
Fixpoint split_once_str (p s : string) : option (string * string) :=
  match strip_prefix p s with
  | Some rest => Some (EmptyString, rest)
  | None =>
      match s with
      | EmptyString => None
      | String c s => (fun x => (String c x.1, x.2)) <$> split_once_str p s
      end
  end.

(** The bytes of the white space character a text begins with, 0 without one:
    ASCII, U+0085 and U+00A0, and those of three bytes. *)
Definition ws_len (s : string) : nat :=
  match bytes s with
  | b1 :: rest =>
      if in_range 9 13 b1 || (b1 =? 32)%N then 1
      else match rest with
           | b2 :: rest =>
               if (b1 =? 194)%N && ((b2 =? 133)%N || (b2 =? 160)%N) then 2
               else match rest with
                    | b3 :: _ =>
                        if ((b1 =? 225) && (b2 =? 154) && (b3 =? 128))%N ||
                           ((b1 =? 226)%N && (b2 =? 128)%N &&
                            (in_range 128 138 b3 || in_range 168 169 b3 || (b3 =? 175)%N)) ||
                           ((b1 =? 226) && (b2 =? 129) && (b3 =? 159))%N ||
                           ((b1 =? 227) && (b2 =? 128) && (b3 =? 128))%N
                        then 3 else 0
                    | [] => 0
                    end
           | [] => 0
           end
  | [] => 0
  end.

(** [s.split_whitespace()]; [skip] bytes of a white space character are still
    to come. *)
Fixpoint split_ws (skip : nat) (s : string) : list string :=
  match s with
  | EmptyString => []
  | String c rest =>
      match skip, ws_len s with
      | S skip, _ => split_ws skip rest
      | O, S skip => split_ws skip rest
      | O, O =>
          match rest, ws_len rest with
          | String _ _, O => match split_ws 0 rest with
                             | w :: ws => String c w :: ws
                             | [] => [String c ""]
                             end
          | _, _ => String c "" :: split_ws 0 rest
          end
      end
  end.

Definition split_whitespace (s : string) : list string := split_ws 0 s.

(** [s.trim()]. *)
Fixpoint trim_start (skip : nat) (s : string) : string :=
  match s with
  | EmptyString => EmptyString
  | String _ rest =>
      match skip, ws_len s with
      | S skip, _ => trim_start skip rest
      | O, S skip => trim_start skip rest
      | O, O => s
      end
  end.

Fixpoint trim_end (s : string) : string :=
  match s with
  | EmptyString => EmptyString
  | String c rest => if bool_decide (split_whitespace s = []) then EmptyString else String c (trim_end rest)
  end.

Definition trim (s : string) : string := trim_end (trim_start 0 s).

Definition joined_text (parts : list string) : string := foldr String.append "" parts.

(** [String::from_utf8_lossy]: a malformed sequence becomes U+FFFD. *)
Definition replacement : list N := [239; 191; 189]%N.

Fixpoint utf8_lossy (bs : list N) : list N :=
  match bs with
  | [] => []
  | b1 :: r1 =>
      if (b1 <? 128)%N then b1 :: utf8_lossy r1
      else if in_range 194 223 b1 then
        match r1 with
        | b2 :: r2 => if utf8_tail b2 then b1 :: b2 :: utf8_lossy r2 else replacement ++ utf8_lossy r1
        | [] => replacement
        end
      else if in_range 224 239 b1 then
        match r1 with
        | b2 :: r2 =>
            if (if (b1 =? 224)%N then in_range 160 191 b2
                else if (b1 =? 237)%N then in_range 128 159 b2 else utf8_tail b2)
            then match r2 with
                 | b3 :: r3 => if utf8_tail b3 then b1 :: b2 :: b3 :: utf8_lossy r3 else replacement ++ utf8_lossy r2
                 | [] => replacement
                 end
            else replacement ++ utf8_lossy r1
        | [] => replacement
        end
      else if in_range 240 244 b1 then
        match r1 with
        | b2 :: r2 =>
            if (if (b1 =? 240)%N then in_range 144 191 b2
                else if (b1 =? 244)%N then in_range 128 143 b2 else utf8_tail b2)
            then match r2 with
                 | b3 :: r3 =>
                     if utf8_tail b3
                     then match r3 with
                          | b4 :: r4 => if utf8_tail b4 then b1 :: b2 :: b3 :: b4 :: utf8_lossy r4
                                        else replacement ++ utf8_lossy r3
                          | [] => replacement
                          end
                     else replacement ++ utf8_lossy r2
                 | [] => replacement
                 end
            else replacement ++ utf8_lossy r1
        | [] => replacement
        end
      else replacement ++ utf8_lossy r1
  end.

Definition from_utf8_lossy (bs : list N) : string := string_of_bytes (utf8_lossy bs).

(** [replace(from, to)] for a non-empty text. *)
Fixpoint replace_str (fuel : nat) (from to s : string) : string :=
  match fuel with
  | O => s
  | S fuel =>
      match strip_prefix from s with
      | Some rest => String.append to (replace_str fuel from to rest)
      | None => match s with
                | EmptyString => EmptyString
                | String c s => String c (replace_str fuel from to s)
                end
      end
  end.

Definition replace_all (from to s : string) : string := replace_str (S (String.length s)) from to s.

(** [s.lines()]: without the final empty line, and without the carriage
    return of a line. *)
Definition text_lines (s : string) : list string :=
  let pieces := split_byte "010"%char s in
  let pieces := match last pieces with Some EmptyString => removelast pieces | _ => pieces end in
  (fun line => default line (strip_suffix_byte "013"%char line)) <$> pieces.

Lemma joined_bytes parts : bytes (joined_text parts) = parts ≫= bytes.
Proof. induction parts as [|p parts IH]; [done|].
  change (joined_text (p :: parts)) with (String.append p (joined_text parts)). by rewrite bytes_append, IH.
Qed.

Lemma length_bytes s : length (bytes s) = String.length s.
Proof. induction s as [|c s IH]; [done|]. cbn [String.length]. by rewrite <- IH. Qed.
