(* ===== verification/GvisorPolicy.v ===== *)
(** * What the gVisor backend admits and asks for
      ([hub-executor/src/gvisor.rs], [gvisor_workspace_quota.rs])

    Requests and their validation, the immutable qualification evidence and
    the descriptor that follows from it, the argument vector that creates a
    container, and the quota of a workspace: everything that needs no
    operating system. *)

From Stdlib Require Import Ascii.
From stdpp Require Import base gmap strings list pretty.
From S2P Require Import Prelude Text Core Version Digest Machine Blobs Component Run Workflow Task.
From S2P Require Import TaskLifecycle Publication Event Memory Ports Exec Scicapsule Hub Submit Lines.

Definition GVISOR_REQUEST_SCHEMA_V1 : string := "scirust-hub.gvisor-execution-request/v1".
Definition GVISOR_RECEIPT_SCHEMA_V1 : string := "scirust-hub.gvisor-execution-receipt/v1".
Definition GVISOR_QUALIFICATION_SCHEMA_V1 : string := "scirust-hub.gvisor-qualification-evidence/v1".

Definition MAX_TOKEN_BYTES : N := 256.
Definition MAX_CAPTURE_BYTES : N := 1024 * 1024.
Definition MAX_TASK_TIMEOUT_MS : N := 60 * 60 * 1000.

Record GvisorWorkspaceQuotaV1 := { wq_max_bytes : N; wq_max_inodes : N }.

Record GvisorExecutionRequestV1 := {
  gr_schema : string;
  gr_task_id : string;
  gr_image : string;
  gr_workspace : string;
  gr_workspace_quota : option GvisorWorkspaceQuotaV1;
  gr_command : list string;
  gr_environment : list (string * string);
  gr_cpu_millis : N;
  gr_memory_bytes : N;
  gr_pids_limit : N;
  gr_guest_pids_limit : option N;
  gr_timeout_ms : N;
  gr_max_capture_bytes : N;
  gr_default_deny_network : bool;
  gr_read_only_root : bool;
}.

Record GvisorExecutionReceiptV1 := {
  gx_schema : string;
  gx_task_id : string;
  gx_backend_id : string;
  gx_isolation : string;
  gx_isolation_evidence_id : option string;
  gx_exit_code : option Z;
  gx_timed_out : bool;
  gx_stdout : string;
  gx_stderr : string;
  gx_stdout_truncated : bool;
  gx_stderr_truncated : bool;
}.

Record GvisorQualificationEvidenceV1 := {
  gq_schema : string;
  gq_source_commit : string;
  gq_workflow_run_id : N;
  gq_receipt_sha256 : string;
}.

(** ** Texts *)
Definition lower_hex (value : string) (length : nat) : bool :=
  (String.length value =? length) &&
  forallb (fun c => is_ascii_digit c || in_range 97 102 c) (chars value).

Definition bounded_token (value : string) : bool :=
  negb (bool_decide (value = "")) && (slen value <=? MAX_TOKEN_BYTES)%N &&
  forallb (fun c => negb (is_control c) && negb (is_whitespace c)) (chars value).

Definition bounded_text (value : string) : bool :=
  negb (bool_decide (value = "")) && (slen value <=? 4096)%N &&
  forallb (fun c => negb (c =? 0)%N) (chars value).

(** [format!("{}.{:03}", cpu_millis / 1000, cpu_millis % 1000)]. *)
Definition pad3 (n : N) : string :=
  String.append (if (n <? 10)%N then "00" else if (n <? 100)%N then "0" else "") (pretty n).

Definition format_cpu (cpu_millis : N) : string :=
  joined_text [pretty (cpu_millis / 1000)%N; "."; pad3 (cpu_millis mod 1000)].

(** ** Requests *)
Definition immutable_image (image : string) : bool :=
  (slen image <=? 512)%N &&
  match snd <$> split_once_str "@sha256:" image with
  | None => false
  | Some value => (slen value =? 64)%N && forallb is_ascii_hexdigit (chars value)
  end.

Definition resources_bounded (r : GvisorExecutionRequestV1) : bool :=
  negb ((gr_cpu_millis r =? 0) || (gr_memory_bytes r <? 16 * 1024 * 1024) || (gr_pids_limit r =? 0) ||
        (4096 <? gr_pids_limit r) ||
        match gr_guest_pids_limit r with
        | Some guest => (guest =? 0) || (gr_pids_limit r <? guest)
        | None => false
        end ||
        (gr_timeout_ms r =? 0) || (MAX_TASK_TIMEOUT_MS <? gr_timeout_ms r) ||
        (gr_max_capture_bytes r =? 0) || (MAX_CAPTURE_BYTES <? gr_max_capture_bytes r))%N.

Definition validate_request (r : GvisorExecutionRequestV1) : result string unit :=
  _ ← ensure (bool_decide (gr_schema r = GVISOR_REQUEST_SCHEMA_V1)) "unsupported gVisor request schema"%string;
  _ ← ensure (bounded_token (gr_task_id r) &&
              forallb (fun c => is_ascii_alphanumeric c || (c =? 45)%N) (chars (gr_task_id r)))
        "invalid task_id"%string;
  _ ← ensure (immutable_image (gr_image r)) "container image must use an immutable sha256 digest"%string;
  _ ← ensure (negb (bool_decide (gr_command r = [])) && (length (gr_command r) <=? 64) &&
              forallb bounded_text (gr_command r)) "invalid bounded command"%string;
  _ ← ensure ((length (gr_environment r) <=? 64) &&
              forallb (fun '(key, value) => bounded_token key && bounded_text value) (gr_environment r))
        "invalid bounded environment"%string;
  _ ← ensure (resources_bounded r) "invalid resource bounds"%string;
  ensure (gr_default_deny_network r && gr_read_only_root r)
    "gVisor requires default-deny network and read-only root"%string.

Definition nonroot_container_user (uid gid : N) : result string string :=
  if (uid =? 0)%N then Err "guest process-count enforcement requires a nonroot workspace owner"%string
  else Ok (joined_text [pretty uid; ":"; pretty gid]).

(** ** The container *)

(** The arguments of [docker create] that no request decides the shape of. *)
Definition create_controls (r : GvisorExecutionRequestV1) (user name nonce request_digest workspace : string)
    : list string :=
  [ "create"; "--rm"; "--runtime=runsc"; "--network=none"; "--cap-drop=ALL";
    "--security-opt=no-new-privileges"; "--read-only"; "--user"; user; "--name"; name;
    "--label"; joined_text ["org.memorithm.hub.attempt="; nonce];
    "--label"; joined_text ["org.memorithm.hub.request="; request_digest];
    "--cpus"; format_cpu (gr_cpu_millis r);
    "--memory"; pretty (gr_memory_bytes r); "--memory-swap"; pretty (gr_memory_bytes r);
    "--pids-limit"; pretty (gr_pids_limit r);
    "--ulimit"; (let guest := pretty (default (gr_pids_limit r) (gr_guest_pids_limit r)) in
                 joined_text ["nproc="; guest; ":"; guest]);
    "--ulimit"; "fsize=16777216:16777216";
    "--tmpfs"; "/tmp:rw,nosuid,nodev,size=67108864";
    "--mount"; joined_text ["type=bind,src="; workspace;
                            ",dst=/workspace,bind-recursive=disabled,bind-propagation=rprivate"];
    "--workdir"; "/workspace" ].

Definition create_argv (r : GvisorExecutionRequestV1) (user name nonce request_digest workspace : string)
    : list string :=
  create_controls r user name nonce request_digest workspace ++
  (gr_environment r ≫= fun '(key, value) => ["--env"%string; joined_text [key; "="; value]]) ++
  gr_image r :: gr_command r.

Definition start_argv (container_id : string) : list string := ["start"; "--attach"; container_id].
Definition remove_argv (container_id : string) : list string := ["rm"; "--force"; container_id].
Definition absence_argv (container_id : string) : list string :=
  ["container"; "ls"; "--all"; "--filter"; String.append "id=" container_id; "--format"; "{{.ID}}"].
Definition lookup_argv (attempt_id request_sha256 : string) : list string :=
  ["container"; "ls"; "--all"; "--no-trunc";
   "--filter"; String.append "label=org.memorithm.hub.attempt=" attempt_id;
   "--filter"; String.append "label=org.memorithm.hub.request=" request_sha256;
   "--format"; "{{.ID}}"].

(** ** Qualification *)
Definition evidence_validate (e : GvisorQualificationEvidenceV1) : result string unit :=
  ensure (bool_decide (gq_schema e = GVISOR_QUALIFICATION_SCHEMA_V1) && lower_hex (gq_source_commit e) 40 &&
          negb (gq_workflow_run_id e =? 0)%N && lower_hex (gq_receipt_sha256 e) 64)
    "invalid immutable gVisor qualification evidence"%string.

Definition evidence_id (e : GvisorQualificationEvidenceV1) : string :=
  joined_text ["github:Memorithm/scirust-hub@"; gq_source_commit e; "/actions/runs/";
               pretty (gq_workflow_run_id e); "#receipt-sha256:"; gq_receipt_sha256 e].

Record GvisorDockerExecutor := {
  gd_workspace_root : string;
  gd_qualification : option GvisorQualificationEvidenceV1;
}.

Definition GvisorDockerExecutor_new (workspace_root : string) : GvisorDockerExecutor :=
  {| gd_workspace_root := workspace_root; gd_qualification := None |}.

(** What the receipt of a qualification run must say. *)
Definition proves_probe (receipt : GvisorExecutionReceiptV1) : bool :=
  negb (negb (bool_decide (gx_schema receipt = GVISOR_RECEIPT_SCHEMA_V1)) ||
        negb (bool_decide (gx_backend_id receipt = "docker-runsc")) ||
        negb (bool_decide (gx_isolation receipt = "userspace_kernel")) ||
        is_some (gx_isolation_evidence_id receipt) ||
        negb (bool_decide (gx_exit_code receipt = Some 0%Z)) ||
        gx_timed_out receipt || gx_stdout_truncated receipt || gx_stderr_truncated receipt ||
        negb (contains_str "PAPERS_GVISOR_OK" (gx_stdout receipt))).

(** [serde_json] on the two documents. *)
Class QualificationJson := {
  manifest_from_slice : list N -> option GvisorQualificationEvidenceV1;
  receipt_from_slice : list N -> option GvisorExecutionReceiptV1;
}.

(** The two files are given by what reading them answers. *)
Definition from_qualification_artifacts_for_commit `{Sha256Lib, QualificationJson} (workspace_root : string)
    (manifest receipt : result string (list N)) (build_source_commit : string)
    : result string GvisorDockerExecutor :=
  _ ← ensure (lower_hex build_source_commit 40) "invalid compiled gVisor source commit"%string;
  manifest_bytes ← map_err (fun _ => "qualification manifest unavailable: {error}"%string) manifest;
  qualification ← ok_or (manifest_from_slice manifest_bytes) "invalid qualification manifest JSON: {error}"%string;
  _ ← evidence_validate qualification;
  _ ← ensure (bool_decide (gq_source_commit qualification = build_source_commit))
        "qualification evidence does not match the compiled source"%string;
  receipt_bytes ← map_err (fun _ => "qualification receipt unavailable: {error}"%string) receipt;
  let receipt_sha256 := hex_of_bytes (raw_as_bytes (raw_sha256_bytes receipt_bytes)) in
  _ ← ensure (bool_decide (receipt_sha256 = gq_receipt_sha256 qualification))
        "qualification receipt digest does not match the manifest"%string;
  receipt ← ok_or (receipt_from_slice receipt_bytes) "invalid qualification receipt JSON: {error}"%string;
  _ ← ensure (proves_probe receipt) "qualification receipt does not prove the gVisor probe"%string;
  Ok {| gd_workspace_root := workspace_root; gd_qualification := Some qualification |}.

(** [option_env!]: the commit the build was given, if any. *)
Definition from_qualification_artifacts `{Sha256Lib, QualificationJson} (source_commit : option string)
    (workspace_root : string) (manifest receipt : result string (list N)) : result string GvisorDockerExecutor :=
  commit ← ok_or source_commit
             "qualified gVisor builds require SCIRUST_HUB_SOURCE_COMMIT at compile time"%string;
  from_qualification_artifacts_for_commit workspace_root manifest receipt commit.

Definition gvisor_backend_descriptor (self : GvisorDockerExecutor) : SandboxBackendDescriptor := {|
  sbd_backend_id := "docker-runsc";
  sbd_isolation := IsoGvisor;
  sbd_isolation_qualified := is_some (gd_qualification self);
  sbd_isolation_evidence_id := evidence_id <$> gd_qualification self;
  sbd_enforces_network_policy := false;
  sbd_enforces_default_deny_network := true;
  sbd_enforces_workspace_write_policy := false;
  sbd_resources := {| re_wall_clock_ms := true; re_cpu_millis := true; re_memory_bytes := true;
                      re_gpu_devices := false; re_model_tokens := false |};
  sbd_capabilities := mkCapabilitySet [] |}.

(** ** Quotas *)
Definition capacity (quota : GvisorWorkspaceQuotaV1) (block_size blocks inodes : N) : result string unit :=
  _ ← ensure (negb ((wq_max_bytes quota =? 0) || (1024 * 1024 * 1024 <? wq_max_bytes quota) ||
                    (wq_max_inodes quota =? 0) || (65536 <? wq_max_inodes quota))%N)
        "invalid persistent workspace quota bounds"%string;
  let product := (block_size * blocks)%N in
  bytes ← ok_or (if (product <=? u64_max)%N && (0 <? product)%N then Some product else None)
            "persistent filesystem capacity is zero or overflowing"%string;
  ensure (negb ((wq_max_bytes quota <? bytes) || (inodes =? 0) || (wq_max_inodes quota <? inodes))%N)
    "persistent filesystem total capacity/inodes exceed workspace quota"%string.

(** [a.starts_with(b)] for paths: componentwise. *)
Fixpoint list_starts_with {A} `{EqDecision A} (p l : list A) : bool :=
  match p, l with
  | [], _ => true
  | x :: p, y :: l => bool_decide (x = y) && list_starts_with p l
  | _ :: _, [] => false
  end.

Definition path_starts_with (path base : string) : bool :=
  list_starts_with (path_components base) (path_components path).

Definition path_eqb (a b : string) : bool := bool_decide (path_components a = path_components b).

(** The escapes of [/proc/self/mountinfo], replaced one kind after the other. *)
Definition decode_mount (encoded : string) : string :=
  replace_all "\134" "\"
    (replace_all "\012" (String "010"%char "")
      (replace_all "\011" (String "009"%char "")
        (replace_all "\040" " " encoded))).

Definition check_mount (workspace : string) (count : N) (line : string) : result string N :=
  let count := (count + 1)%N in
  _ ← ensure (count <=? 8192)%N "mount inventory exceeds entry bound"%string;
  encoded ← ok_or (split_whitespace line !! 4) "invalid mount inventory"%string;
  let mount := decode_mount encoded in
  _ ← ensure (negb (negb (path_eqb mount workspace) && path_starts_with mount workspace))
        "nested host mounts are not admissible in a quota workspace"%string;
  Ok count.

Definition no_submounts (workspace inventory : string) : result string unit :=
  count ← foldM (check_mount workspace) 0%N (text_lines inventory);
  ensure (negb (count =? 0)%N) "empty mount inventory"%string.

(** ** What a quota admits *)
Lemma capacity_Ok quota block_size blocks inodes u :
  capacity quota block_size blocks inodes = Ok u <->
  (0 < wq_max_bytes quota <= 1024 * 1024 * 1024 /\ 0 < wq_max_inodes quota <= 65536 /\
   0 < block_size * blocks <= wq_max_bytes quota /\ 0 < inodes <= wq_max_inodes quota)%N.
Proof.
  destruct u. unfold capacity. cbv zeta. split.
  - intros Hr. ok_inv. case_match; [|done]. bool_inv. simplify_eq. lia.
  - intros (H1 & H2 & H3 & H4). assert (block_size * blocks <= u64_max)%N as Hle by (unfold u64_max; lia).
    rewrite bind_ensure; [|rewrite negb_true_iff, !orb_false_iff, !N.eqb_neq, !N.ltb_ge; lia].
    rewrite (proj2 (N.leb_le _ _) Hle), (proj2 (N.ltb_lt 0 (block_size * blocks))%N) by lia. cbn [andb ok_or mbind result_bind].
    apply ensure_Ok. rewrite negb_true_iff, !orb_false_iff, N.eqb_neq, !N.ltb_ge. lia.
Qed.

(** No mount of an admitted inventory is strictly below the workspace. *)
Lemma no_submounts_Ok workspace inventory u :
  no_submounts workspace inventory = Ok u ->
  text_lines inventory <> [] /\
  forall line, line ∈ text_lines inventory -> exists field, split_whitespace line !! 4 = Some field /\
    (path_eqb (decode_mount field) workspace = true \/ path_starts_with (decode_mount field) workspace = false).
Proof.
  unfold no_submounts. intros (count & Hc & Hn%ensure_Ok)%bind_Ok. split.
  { intros He. rewrite He in Hc. cbn in Hc. injection Hc as <-. done. }
  clear Hn u. generalize dependent 0%N. induction (text_lines inventory) as [|l lines IH]; intros n Hc.
  { intros line Hl. by apply not_elem_of_nil in Hl. }
  cbn [foldM] in Hc. apply bind_Ok in Hc as (n' & Hl & Hc). intros line [->|Hin]%elem_of_cons; [|by eapply IH].
  unfold check_mount in Hl. cbv zeta in Hl. apply bind_Ok in Hl as (_ & _ & Hl).
  apply bind_Ok in Hl as (field & Hf%ok_or_Ok & Hl). apply bind_Ok in Hl as (_ & Hm%ensure_Ok & _).
  exists field. split; [done|]. apply negb_true_iff, andb_false_iff in Hm as [Hm|Hm]; [left; by apply negb_false_iff|by right].
Qed.

(** ** What qualifies a backend *)

(** ASCII without white space and control characters. *)
Definition visible (c : N) : bool := in_range 33 126 c.

Lemma visible_chars s : forallb visible (bytes s) = true -> forallb visible (chars s) = true.
Proof.
  intros Hs. unfold chars. rewrite forallb_chars_ascii; [done|]. intros c. unfold visible. rewrite in_range_spec. lia.
Qed.

Lemma drop_while_none p l : forallb (fun c => negb (p c)) l = true -> drop_while p l = l.
Proof. destruct l as [|c l]; cbn; [done|]. by destruct (p c). Qed.

Lemma visible_plain c : visible c = true -> is_whitespace c = false /\ is_control c = false.
Proof.
  unfold visible, is_whitespace, is_control, in_range.
  rewrite andb_true_iff, !N.leb_le, !orb_false_iff, !andb_false_iff, !N.leb_gt, !N.eqb_neq, N.ltb_ge. lia.
Qed.

Lemma forallb_weaken {A} (p q : A -> bool) l :
  (forall x, p x = true -> q x = true) -> forallb p l = true -> forallb q l = true.
Proof. intros Hpq. induction l; cbn; [done|]. rewrite !andb_true_iff. intros [? ?]. auto. Qed.

Lemma visible_token s max :
  s <> ""%string -> (slen s <= max)%N -> forallb visible (bytes s) = true -> valid_bounded_token max s = true.
Proof.
  intros Hne Hlen Hv%visible_chars. unfold valid_bounded_token.
  rewrite bool_decide_eq_false_2 by done. rewrite (proj2 (N.leb_le _ _) Hlen).
  assert (Hw : forallb (fun c => negb (is_whitespace c)) (chars s) = true)
    by (eapply forallb_weaken; [|exact Hv]; intros c Hc%visible_plain; by destruct Hc as [-> _]).
  assert (Hrev : forallb (fun c => negb (is_whitespace c)) (reverse (chars s)) = true).
  { rewrite forallb_forall in *. intros c Hc. apply Hw. by apply list_elem_of_In, elem_of_reverse, list_elem_of_In. }
  assert (Hc : existsb is_control (chars s) = false).
  { apply not_true_iff_false. intros (c & Hc & Hx)%existsb_exists. rewrite forallb_forall in Hv.
    apply Hv, visible_plain in Hc as [_ Hc]. congruence. }
  rewrite Hc. unfold is_trimmed, trim_chars. rewrite (drop_while_none _ (chars s)) by exact Hw.
  rewrite drop_while_none by exact Hrev. rewrite reverse_involutive. by rewrite bool_decide_eq_true_2.
Qed.

Lemma pretty_go_digits x s k :
  (x < 10 ^ N.of_nat k)%N -> forallb is_ascii_digit (bytes s) = true ->
  forallb is_ascii_digit (bytes (pretty_N_go x s)) = true /\ (slen (pretty_N_go x s) <= N.of_nat k + slen s)%N.
Proof.
  revert x s. induction k as [|k IH]; intros x s Hx Hs.
  { assert (x = 0)%N as -> by (cbn in Hx; lia). rewrite pretty_N_go_0. split; [done|lia]. }
  destruct (decide (0 < x)%N) as [Hp|Hp].
  - rewrite pretty_N_go_step by done. pose proof (N.mod_lt x 10 ltac:(lia)) as Hm.
    destruct (pretty_digit _ Hm) as [Hd _].
    destruct (IH (x `div` 10)%N (String (pretty_N_char (x `mod` 10)) s)) as [Ha Hb].
    + apply N.Div0.div_lt_upper_bound. replace (N.of_nat (S k)) with (N.succ (N.of_nat k)) in Hx by lia.
      by rewrite N.pow_succ_r' in Hx.
    + change (bytes (String ?c s)) with (N_of_ascii c :: bytes s). cbn [forallb]. by rewrite Hd.
    + split; [done|]. unfold slen in *. cbn [String.length] in Hb. lia.
  - assert (x = 0)%N as -> by lia. rewrite pretty_N_go_0. split; [done|lia].
Qed.

Lemma pretty_u64 n : (n <= u64_max)%N ->
  forallb is_ascii_digit (bytes (pretty n)) = true /\ (slen (pretty n) <= 20)%N.
Proof.
  intros Hn. unfold pretty, pretty_N. case_decide; [by subst|].
  destruct (pretty_go_digits n "" 20) as [Ha Hb]; [unfold u64_max in Hn; cbn; lia|done|]. split; [done|].
  change (slen "") with 0%N in Hb. lia.
Qed.

(** [workflow_run_id] is a [u64]. *)
Class QualificationJsonLaws `{QualificationJson} : Prop := {
  manifest_run_id : forall bs e, manifest_from_slice bs = Some e -> (gq_workflow_run_id e <= u64_max)%N;
}.

Lemma lower_hex_bytes s n : lower_hex s n = true ->
  String.length s = n /\ forallb visible (bytes s) = true.
Proof.
  unfold lower_hex, chars. intros [Hl%Nat.eqb_eq Hc]%andb_true_iff. split; [done|].
  rewrite forallb_chars_ascii in Hc.
  - eapply forallb_weaken; [|exact Hc]. intros c. cbv beta. unfold visible, is_ascii_digit. rewrite orb_true_iff, !in_range_spec. lia.
  - intros c. cbv beta. unfold is_ascii_digit. rewrite orb_true_iff, !in_range_spec. lia.
Qed.

Record evidence_wf (e : GvisorQualificationEvidenceV1) : Prop := {
  ew_schema : gq_schema e = GVISOR_QUALIFICATION_SCHEMA_V1;
  ew_commit : lower_hex (gq_source_commit e) 40 = true;
  ew_run : gq_workflow_run_id e <> 0%N;
  ew_receipt : lower_hex (gq_receipt_sha256 e) 64 = true;
}.

Lemma gvisor_evidence_validate_Ok e u : evidence_validate e = Ok u <-> evidence_wf e.
Proof.
  unfold evidence_validate. rewrite ensure_Ok, !andb_true_iff, bool_decide_eq_true, negb_true_iff, N.eqb_neq.
  split; [by intros [[[? ?] ?] ?]|by intros []].
Qed.

Lemma digits_visible bs : forallb is_ascii_digit bs = true -> forallb visible bs = true.
Proof. apply forallb_weaken. intros c. unfold is_ascii_digit, visible. rewrite !in_range_spec. lia. Qed.

(** The evidence identifier is one of the bounded tokens that admission asks
    for, and names the evidence. *)
Lemma evidence_id_token e :
  evidence_wf e -> (gq_workflow_run_id e <= u64_max)%N -> valid_bounded_token 256 (evidence_id e) = true.
Proof.
  intros [_ [Hc Hcv]%lower_hex_bytes _ [Hr Hrv]%lower_hex_bytes] [Hd Hdl]%pretty_u64. apply visible_token.
  - done.
  - assert (slen (gq_source_commit e) = 40%N) as Ec by (unfold slen; by rewrite Hc).
    assert (slen (gq_receipt_sha256 e) = 64%N) as Er by (unfold slen; by rewrite Hr).
    unfold evidence_id, joined_text. cbn [foldr]. rewrite !slen_append, Ec, Er.
    change (slen "github:Memorithm/scirust-hub@") with 29%N. change (slen "/actions/runs/") with 14%N.
    change (slen "#receipt-sha256:") with 16%N. change (slen "") with 0%N. lia.
  - unfold evidence_id. rewrite joined_bytes. cbn [mbind list_bind]. rewrite !forallb_app, Hcv, Hrv.
    by rewrite (digits_visible _ Hd).
Qed.

Lemma evidence_id_inj e e' : evidence_wf e -> evidence_wf e' -> evidence_id e = evidence_id e' -> e = e'.
Proof.
  intros [Hs [Hc _]%lower_hex_bytes _ [Hr _]%lower_hex_bytes] [Hs' [Hc' _]%lower_hex_bytes _ [Hr' _]%lower_hex_bytes] Heq.
  apply (f_equal bytes) in Heq. unfold evidence_id in Heq. rewrite !joined_bytes in Heq.
  cbn [mbind list_bind] in Heq. rewrite !app_nil_r in Heq. apply (inj (app _)) in Heq.
  apply app_inj_1 in Heq as [Hcommit Heq]; [|rewrite !length_bytes; congruence]. apply (inj (app _)) in Heq.
  rewrite !app_assoc in Heq. apply app_inj_2 in Heq as [Heq Hreceipt]; [|rewrite !length_bytes; congruence].
  apply (inj (fun l => l ++ _)) in Heq. apply bytes_inj in Hcommit, Hreceipt, Heq. apply (inj pretty) in Heq.
  destruct e, e'; cbn in *; congruence.
Qed.

Lemma capability_default_ok : CapabilitySet_validate (mkCapabilitySet []) = Ok tt.
Proof. done. Qed.

(** The tasks that the backend's enforcement covers. *)
Record suits_gvisor (task : TaskSpec) : Prop := {
  sg_isolation : sb_minimum_isolation (ts_sandbox task) <> IsoMicroVm;
  sg_network : np_allowed_endpoints (sb_network (ts_sandbox task)) = [];
  sg_workspace : sb_writable_workspace (ts_sandbox task) = true;
  sg_gpu : rb_gpu_devices (ts_budget task) = None;
  sg_tokens : rb_model_tokens (ts_budget task) = None;
  sg_capabilities : capability_grants (ts_capabilities task) = [];
}.

Lemma satisfies_gvisor self task :
  backend_satisfies (gvisor_backend_descriptor self) task <-> suits_gvisor task.
Proof.
  split.
  - intros [Hi He Hd Hw _ _ _ Hg Ht Hc]. cbn in *. split.
    + intros Hm. rewrite Hm in Hi. cbn in Hi. lia.
    + destruct (np_allowed_endpoints _); [done|]. by discriminate He.
    + destruct (sb_writable_workspace _); [done|]. by discriminate Hw.
    + destruct (rb_gpu_devices _); [|done]. by discriminate Hg.
    + destruct (rb_model_tokens _); [|done]. by discriminate Ht.
    + destruct (capability_grants _) as [|g gs]; [done|]. specialize (Hc g ltac:(left)). set_solver.
  - intros [Hi He Hw Hg Ht Hc]. split; cbn; try done.
    + by destruct (sb_minimum_isolation _); cbn; [lia..|].
    + congruence.
    + rewrite Hg. by intros [].
    + rewrite Ht. by intros [].
    + rewrite Hc. set_solver.
Qed.

Section qualification.
Context `{Sha256Lib, QualificationJson, !QualificationJsonLaws}.

(** What stands behind a qualified executor. *)
Record qualified (source_commit : option string) (manifest receipt : result string (list N))
    (e : GvisorQualificationEvidenceV1) : Prop := {
  qf_evidence : evidence_wf e;
  qf_commit : source_commit = Some (gq_source_commit e);
  qf_manifest : exists bs, manifest = Ok bs /\ manifest_from_slice bs = Some e;
  qf_receipt : exists bs r, receipt = Ok bs /\ hex_of_bytes (raw_as_bytes (raw_sha256_bytes bs)) = gq_receipt_sha256 e /\
    receipt_from_slice bs = Some r /\ proves_probe r = true;
}.

Lemma from_qualification_Ok source_commit root manifest receipt self :
  from_qualification_artifacts source_commit root manifest receipt = Ok self ->
  exists e, gd_qualification self = Some e /\ qualified source_commit manifest receipt e.
Proof.
  unfold from_qualification_artifacts, from_qualification_artifacts_for_commit. intros Hr.
  apply bind_Ok in Hr as (commit & Hc%ok_or_Ok & Hr). apply bind_Ok in Hr as (_ & _ & Hr).
  apply bind_Ok in Hr as (mb & Hm%map_err_Ok & Hr). apply bind_Ok in Hr as (e & He%ok_or_Ok & Hr).
  apply bind_Ok in Hr as (u & Hv%gvisor_evidence_validate_Ok & Hr). apply bind_Ok in Hr as (_ & Hcommit%ensure_Ok & Hr).
  apply bind_Ok in Hr as (rb & Hrb%map_err_Ok & Hr). cbv zeta in Hr. apply bind_Ok in Hr as (_ & Hd%ensure_Ok & Hr).
  apply bind_Ok in Hr as (r & Hr'%ok_or_Ok & Hr). apply bind_Ok in Hr as (_ & Hp%ensure_Ok & [= <-]).
  apply bool_decide_eq_true in Hcommit, Hd. exists e. split; [done|].
  split; [done|congruence|by exists mb|by exists rb, r].
Qed.

(** (C36) gVisor is admitted only on evidence.  An executor built from
    qualification documents carries evidence that was checked: for the very
    commit it was compiled from, of a run whose receipt has the digest that
    the evidence names and proves the probe.  It then admits exactly the valid
    tasks that its enforcement covers -- no micro-VM, no network endpoint, a
    writable workspace, no GPU, model tokens or capability -- and the
    identifier it publishes belongs to no other evidence.  Without the
    documents nothing is admitted. *)
Theorem gvisor_qualified_admission source_commit root manifest receipt self task :
  from_qualification_artifacts source_commit root manifest receipt = Ok self ->
  (exists e, gd_qualification self = Some e /\ qualified source_commit manifest receipt e /\
    sbd_isolation_evidence_id (gvisor_backend_descriptor self) = Some (evidence_id e) /\
    (forall e', evidence_wf e' -> evidence_id e' = evidence_id e -> e' = e)) /\
  (SandboxBackendDescriptor_admission (gvisor_backend_descriptor self) task = Ok tt <->
    TaskSpec_validate task = Ok tt /\ suits_gvisor task) /\
  is_ok (SandboxBackendDescriptor_admission
    (gvisor_backend_descriptor (GvisorDockerExecutor_new root)) task) = false.
Proof.
  intros (e & He & Hq)%from_qualification_Ok. pose proof Hq as [Hwf _ (mb & _ & Hm) _]. apply manifest_run_id in Hm.
  split; [|split].
  - exists e. split_and!; [done|done|by cbn; rewrite He|]. intros e' Hwf' Hid. by apply evidence_id_inj.
  - rewrite SandboxBackendDescriptor_admission_Ok, satisfies_gvisor. split; [by intros (? & _ & ?)|].
    intros [Hv Hs]. split_and!; [done| |done]. split; [done| |done]. right. cbn. rewrite He. split_and!; [done|done|].
    exists (evidence_id e). split; [done|]. by apply evidence_id_token.
  - destruct (is_ok _) eqn:Hok; [|done]. apply is_ok_spec in Hok as [[] Hok].
    apply SandboxBackendDescriptor_admission_Ok in Hok as (_ & [_ [(? & _)|(_ & ? & _)] _] & _); done.
Qed.
End qualification.

(** ** Witnesses *)
Section witnesses.
#[local] Existing Instance toy_sha.
#[local] Existing Instance toy_workspace_json.

Definition toy_commit : string := "0123456789abcdef0123456789abcdef01234567".

Definition toy_evidence : GvisorQualificationEvidenceV1 := {|
  gq_schema := GVISOR_QUALIFICATION_SCHEMA_V1; gq_source_commit := toy_commit; gq_workflow_run_id := 42;
  gq_receipt_sha256 := hex_of_bytes (raw_as_bytes (raw_sha256_bytes [2%N])) |}.

Definition toy_probe : GvisorExecutionReceiptV1 := {|
  gx_schema := GVISOR_RECEIPT_SCHEMA_V1; gx_task_id := "probe"; gx_backend_id := "docker-runsc";
  gx_isolation := "userspace_kernel"; gx_isolation_evidence_id := None; gx_exit_code := Some 0%Z;
  gx_timed_out := false; gx_stdout := "PAPERS_GVISOR_OK"; gx_stderr := ""; gx_stdout_truncated := false;
  gx_stderr_truncated := false |}.

#[local] Instance toy_qualification_json : QualificationJson := {|
  manifest_from_slice bs := if decide (bs = [1%N]) then Some toy_evidence else None;
  receipt_from_slice bs := if decide (bs = [2%N]) then Some toy_probe else None |}.

#[local] Instance toy_qualification_laws : QualificationJsonLaws.
Proof. split. intros bs e. cbn. case_decide; [|done]. intros [= <-]. by vm_compute. Qed.

(** The sample task without capabilities and GPU. *)
Definition plain_task : TaskSpec := {|
  ts_schema_version := ts_schema_version sample_task; ts_id := ts_id sample_task;
  ts_identity := ts_identity sample_task; ts_workspace := ts_workspace sample_task;
  ts_capabilities := mkCapabilitySet [];
  ts_budget := {| rb_cpu_millis := Some 1000%N; rb_memory_bytes := None; rb_wall_clock_ms := Some 60000%N;
                  rb_gpu_devices := None; rb_model_tokens := None |};
  ts_sandbox := ts_sandbox sample_task |}.

Definition toy_qualified : GvisorDockerExecutor :=
  {| gd_workspace_root := "/w"; gd_qualification := Some toy_evidence |}.

Lemma toy_qualifies :
  from_qualification_artifacts (Some toy_commit) "/w" (Ok [1%N]) (Ok [2%N]) = Ok toy_qualified /\
  TaskSpec_validate plain_task = Ok tt.
Proof. by vm_compute. Qed.

Lemma gvisor_qualified_admission_witness :
  SandboxBackendDescriptor_admission (gvisor_backend_descriptor toy_qualified) plain_task = Ok tt /\
  is_ok (SandboxBackendDescriptor_admission
    (gvisor_backend_descriptor (GvisorDockerExecutor_new "/w")) plain_task) = false.
Proof.
  pose proof toy_qualifies as [Hq Hv].
  destruct (gvisor_qualified_admission _ _ _ _ _ plain_task Hq) as (_ & [_ Hadmit] & Hnone).
  split; [|exact Hnone]. apply Hadmit. split; [exact Hv|]. by split.
Defined.
End witnesses.

(** ** Sanity *)
Example trim_hex : trim (String "010"%char (String.append " ab12 " (String "010"%char ""))) = "ab12".
Proof. by vm_compute. Qed.

Example mount_line :
  split_whitespace "36 35 98:0 / /mnt\040x rw,noatime shared:1 - ext4 /dev/sda1 rw" !! 4 = Some "/mnt\040x" /\
  decode_mount "/mnt\040x\134y" = "/mnt x\y".
Proof. by vm_compute. Qed.

Example image_digest :
  immutable_image "rust@sha256:aaaaaaaaaaaaaaaaaaaaaaaaaaaaaaaaaaaaaaaaaaaaaaaaaaaaaaaaaaaaaaaa" = true /\
  immutable_image "rust:latest" = false /\ format_cpu 1050 = "1.050".
Proof. by vm_compute. Qed.

(** An image that Docker reads as an option passes the validation: everything
    before the digest is free. *)
Definition option_like_image : string :=
  String.append "--mount=type=bind,src=/,dst=/host@sha256:"
    "aaaaaaaaaaaaaaaaaaaaaaaaaaaaaaaaaaaaaaaaaaaaaaaaaaaaaaaaaaaaaaaa".

Example option_like_image_valid :
  let r := {| gr_schema := GVISOR_REQUEST_SCHEMA_V1; gr_task_id := "t1"; gr_image := option_like_image;
              gr_workspace := "/w/a"; gr_workspace_quota := None; gr_command := ["busybox"%string];
              gr_environment := []; gr_cpu_millis := 500; gr_memory_bytes := 16 * 1024 * 1024; gr_pids_limit := 16;
              gr_guest_pids_limit := None; gr_timeout_ms := 5000; gr_max_capture_bytes := 1024;
              gr_default_deny_network := true; gr_read_only_root := true |} in
  validate_request r = Ok tt /\
  last (removelast (create_argv r "1:1" "n" "a" "d" "/w/a")) = Some option_like_image.
Proof. by vm_compute. Qed.
