(* ===== verification/Gvisor.v ===== *)
(** * Execution in gVisor containers ([hub-executor/src/gvisor.rs],
      [gvisor_journal.rs])

    [GvisorDockerExecutor]: a container is created, its identity journaled
    durably, started, removed, and its absence confirmed -- each Docker client
    call a guarded command -- and the reconciliation of what a crash left
    behind. *)

From Stdlib Require Import Ascii.
From stdpp Require Import base gmap strings list pretty.
From S2P Require Import Prelude Text Core Version Digest Machine Blobs Component Run Workflow Task.
From S2P Require Import TaskLifecycle Publication Event Memory Ports Exec Scicapsule Hub Submit.
From S2P Require Import Sql SqliteStore SqliteRefine SqlitePorts SqliteMemory SqliteAnswers SandboxAttempt.
From S2P Require Import SqlitePublication SqliteHistory Supervise Process Lines GvisorPolicy.

Definition CLEANUP_TIMEOUT : N := 3000.
Definition CONTROL_CAPTURE_BYTES : N := 4096.

(** What [stat] tells of a file. *)
Record FileMeta := {
  fm_is_dir : bool;
  fm_is_file : bool;
  fm_is_symlink : bool;
  fm_uid : N;
  fm_gid : N;
  fm_mode : N;
  fm_nlink : N;
  fm_dev : N;
}.

(** What [fstatfs] tells of a file system. *)
Record FsGeometry := { fg_type : Z; fg_block_size : Z; fg_blocks : N; fg_files : N }.

Inductive MkDir := MdCreated | MdExists | MdError.

(** The host of the controller: the files, the locks, the clock of its
    answers; how the Docker client's process behaves for an argument vector
    while the daemon is in some state, and what it does to the daemon; what
    other controllers do to the journal meanwhile. *)
Class ControllerHost := {
  Daemon : Type;
  ct_docker : list string -> Daemon -> ProcessHost;
  ct_daemon : list string -> Daemon -> Host -> Daemon;
  ct_canonicalize : N -> string -> result string string;
  ct_metadata : N -> string -> result string FileMeta;
  ct_symlink_metadata : N -> string -> result string FileMeta;
  ct_mkdir : N -> string -> MkDir;
  ct_sync : N -> string -> result string unit;
  ct_open_file : N -> string -> result string FileMeta;
  ct_try_lock : N -> string -> result string unit;
  ct_open_store : N -> result string unit;
  (** Opening a directory for reading, a symbolic link refused or followed. *)
  ct_open_dir : N -> bool -> string -> result string unit;
  (** The metadata and the file system behind the directory opened at a path. *)
  ct_handle_metadata : N -> string -> result string FileMeta;
  ct_fstatfs : N -> string -> result string FsGeometry;
  (** The bytes of [/proc/self/mountinfo]. *)
  ct_mountinfo : N -> result string (list N);
  ct_others : N -> SqliteStore -> SqliteStore;
  (** [serde_json::to_vec] of a request. *)
  request_to_vec : GvisorExecutionRequestV1 -> result string (list N);
}.

(** The state: the tick of the host's next answer, the processes and the
    clock, the journal, the daemon, and the Docker calls made so far, each
    with the journal as it was then. *)
Record Controller `{ControllerHost} := mkController {
  gv_tick : N;
  gv_host : Host;
  gv_store : SqliteStore;
  gv_daemon : Daemon;
  gv_calls : list (list string * Tables);
}.

Section gvisor.
Context `{JsonLib, ManifestJson, WorkspaceJson, Sha256Lib, UuidLib, Environment}.
Context `{SerdeJson ComponentManifest, SerdeJson RunRecord, SerdeJson TaskRecord, SerdeJson ArtifactMeta,
          SerdeJson WorkflowRecord, SerdeJson (gmap string string)}.
Context `{SerdeJson AuthoritativeStepPublication, SerdeJson SandboxAttempt}.
Context {UT : UuidText} {CH : ControllerHost}.

Abbreviation gv := (action Controller Halt).

Definition refuse {A} (reason : string) : gv A := throw (Failed (Backend reason)).

Definition refused {A} (r : result string A) : gv A := lift (map_err (fun e => Failed (Backend e)) r).

(** An answer of the host. *)
Definition ask {A} (f : N -> A) : gv A := fun w =>
  (mkController _ (gv_tick w + 1) (gv_host w) (gv_store w) (gv_daemon w) (gv_calls w), Ok (f (gv_tick w))).

(** [Instant::now()]: reading the clock needs no process. *)
Definition controller_now : gv N := reads (fun w => Ok (h_now (gv_host w))).

(** One operation of the journal, after whatever others did to it. *)
Definition on_journal {A} (m : sqlite A) : gv A := fun w =>
  let store := ct_others (gv_tick w) (gv_store w) in
  let '(store, r) := m store in
  (mkController _ (gv_tick w + 1) (gv_host w) store (gv_daemon w) (gv_calls w),
   map_err (fun _ => Failed (Backend "{e}")) r).

(** [guarded_docker]. *)
Definition guarded_docker (fuel : nat) (argv : list string) (deadline cap : N) : gv GuardedCommandOutput := fun w =>
  let store := ct_others (gv_tick w) (gv_store w) in
  let '(h, r) := execute_guarded_command (H := ct_docker argv (gv_daemon w)) fuel deadline cap (gv_host w) in
  (mkController _ (gv_tick w + 1) h store (ct_daemon argv (gv_daemon w) h)
     (gv_calls w ++ [(argv, db_tables store)]), r).

Definition exit_success (s : ExitStatus) : bool := bool_decide (s = StExited 0).

(** ** The private controller directory *)
Definition owner_only (m : FileMeta) (mode : N) : bool := (N.land (fm_mode m) 511 =? mode)%N.

Definition private_file (path : string) (owner : N) : gv unit :=
  metadata ← ask (fun t => ct_open_file t path);
  metadata ← refused (map_err (fun _ => "private controller file unavailable: {e}"%string) metadata);
  refused (ensure (negb (negb (fm_is_file metadata) || negb (fm_uid metadata =? owner)%N ||
                         negb (fm_nlink metadata =? 1)%N || negb (owner_only metadata 384)))
    "controller file must be private, owned, regular and not hard-linked"%string).

Definition lock_file (path : string) (owner : N) : gv unit :=
  _ ← private_file path owner;
  locked ← ask (fun t => ct_try_lock t path);
  refused (map_err (fun _ => "controller attempt/workspace is busy: {e}"%string) locked).

(** [gvisor_journal::open]: the directory of the journal. *)
Definition journal_open (root : string) : gv string :=
  parent ← ask (fun t => ct_metadata t root);
  parent ← refused parent;
  _ ← refused (ensure (N.land (fm_mode parent) 18 =? 0)%N
        "controller root must not be group/world writable"%string);
  let directory := path_join root ".gvisor-control" in
  made ← ask (fun t => ct_mkdir t directory);
  _ ← match made with
      | MdCreated => synced ← ask (fun t => ct_sync t root); refused synced
      | MdExists => mret tt
      | MdError => refuse "private controller directory unavailable: {e}"
      end;
  metadata ← ask (fun t => ct_symlink_metadata t directory);
  metadata ← refused metadata;
  _ ← refused (ensure (negb (negb (fm_is_dir metadata) || fm_is_symlink metadata ||
                             negb (fm_uid metadata =? fm_uid parent)%N || negb (owner_only metadata 448)))
        "controller state directory must be private, owned and nonsymlink"%string);
  _ ← lock_file (path_join directory "initialization.lock") (fm_uid metadata);
  _ ← private_file (path_join directory "hub.sqlite") (fm_uid metadata);
  opened ← ask ct_open_store;
  _ ← refused opened;
  mret directory.

Definition sha_hex (bs : list N) : string := hex_of_bytes (raw_as_bytes (raw_sha256_bytes bs)).

(** [gvisor_journal::fence]: the two locks, held until the caller returns. *)
Definition fence (directory task_id workspace : string) : gv unit :=
  metadata ← ask (fun t => ct_metadata t directory);
  metadata ← refused metadata;
  let task := joined_text ["task-"; sha_hex (bytes task_id); ".lock"] in
  let workspace := joined_text ["workspace-"; sha_hex (bytes workspace); ".lock"] in
  _ ← lock_file (path_join directory task) (fm_uid metadata);
  lock_file (path_join directory workspace) (fm_uid metadata).

(** ** Confirming that a container is gone *)

(** [bytes.iter().all(u8::is_ascii_whitespace)]. *)
Definition ascii_blank (bs : list N) : bool :=
  forallb (fun b => in_range 9 10 b || in_range 12 13 b || (b =? 32)%N) bs.

Definition confirm_owned_absence_before (fuel : nat) (container_id : string) (deadline : N) : gv unit :=
  absent ← guarded_docker fuel (absence_argv container_id) deadline CONTROL_CAPTURE_BYTES;
  refused (ensure (negb (gc_timed_out absent || negb (exit_success (gc_status absent)) ||
                         cs_truncated (gc_stdout absent) || cs_truncated (gc_stderr absent) ||
                         negb (ascii_blank (cs_bytes (gc_stdout absent)))))
    "owned container absence unconfirmed"%string).

Definition confirm_owned_absence (fuel : nat) (container_id : string) : gv unit :=
  now ← controller_now;
  confirm_owned_absence_before fuel container_id (now + CLEANUP_TIMEOUT).

Definition cleanup_owned_container (fuel : nat) (container_id : string) : gv unit :=
  now ← controller_now;
  let deadline := (now + CLEANUP_TIMEOUT)%N in
  removed ← guarded_docker fuel (remove_argv container_id) deadline CONTROL_CAPTURE_BYTES;
  _ ← refused (ensure (negb (gc_timed_out removed || cs_truncated (gc_stdout removed) ||
                             cs_truncated (gc_stderr removed)))
        "owned container removal unconfirmed"%string);
  confirm_owned_absence_before fuel container_id deadline.

(** ** Execution *)

(** [run_container] with its failure kept for later. *)
Definition kept {A} (m : gv A) : gv (result ExecutorFailure A) := fun w =>
  match m w with
  | (w, Ok a) => (w, Ok (Ok a))
  | (w, Err (Failed e)) => (w, Ok (Err e))
  | (w, Err Unfinished) => (w, Err Unfinished)
  end.

(** [Component::as_os_str]. *)
Definition component_str (c : PathComponent) : string :=
  match c with RootDir => "/" | CurDir => "." | ParentDir => ".." | Normal name => name end.

(** [gvisor_workspace_quota::admit]. *)
Definition volume_child (root workspace : string) : result string string :=
  _ ← ensure (path_starts_with workspace root) "{e}"%string;
  match drop (length (path_components root)) (path_components workspace) with
  | child :: _ => Ok (component_str child)
  | [] => Err "missing persistent volume child"%string
  end.

Definition EXT_SUPER_MAGIC : Z := 0xef53.
Definition MAX_MOUNTINFO : N := 1024 * 1024.

Definition quota_admit (root workspace : string) (quota : GvisorWorkspaceQuotaV1) : gv unit :=
  child ← refused (volume_child root workspace);
  let volume := path_join root child in
  parent ← ask (fun t => ct_open_dir t false root); _ ← refused parent;
  mounted ← ask (fun t => ct_open_dir t true workspace); _ ← refused mounted;
  mounted_meta ← ask (fun t => ct_handle_metadata t workspace); mounted_meta ← refused mounted_meta;
  let device := fm_dev mounted_meta in
  volume_meta ← ask (fun t => ct_metadata t volume); volume_meta ← refused volume_meta;
  let volume_device := fm_dev volume_meta in
  parent_meta ← ask (fun t => ct_handle_metadata t root); parent_meta ← refused parent_meta;
  _ ← refused (ensure (negb ((fm_dev parent_meta =? device)%N || negb (volume_device =? device)%N))
        "quota workspace must not share the controller filesystem"%string);
  geometry ← ask (fun t => ct_fstatfs t workspace);
  geometry ← refused (map_err (fun _ => "filesystem quota observation failed: {e}"%string) geometry);
  _ ← refused (ensure (fg_type geometry =? EXT_SUPER_MAGIC)%Z
        "quota workspace requires a persistent ext-family filesystem"%string);
  size ← refused (if (0 <=? fg_block_size geometry)%Z then Ok (Z.to_N (fg_block_size geometry)) else Err "{e}"%string);
  _ ← refused (capacity quota size (fg_blocks geometry) (fg_files geometry));
  mounts ← ask ct_mountinfo; mounts ← refused mounts;
  let mounts := take (N.to_nat (MAX_MOUNTINFO + 1)) mounts in
  _ ← refused (ensure (len mounts <=? MAX_MOUNTINFO)%N "mount inventory exceeds quota admission bound"%string);
  inventory ← refused (ok_or (from_utf8 mounts) "{e}"%string);
  refused (no_submounts workspace inventory).

(** The workspace and the user it is mounted for. *)
Definition admit_workspace (self : GvisorDockerExecutor) (request : GvisorExecutionRequestV1)
    : gv (string * string * string) :=
  workspace_root ← ask (fun t => ct_canonicalize t (gd_workspace_root self));
  workspace_root ← refused (map_err (fun _ => "workspace root unavailable: {error}"%string) workspace_root);
  workspace ← ask (fun t => ct_canonicalize t (gr_workspace request));
  workspace ← refused (map_err (fun _ => "workspace unavailable: {error}"%string) workspace);
  found ← ask (fun t => ct_metadata t workspace);
  _ ← refused (ensure (negb (negb (match found with Ok m => fm_is_dir m | Err _ => false end) ||
                             path_eqb workspace workspace_root ||
                             negb (path_starts_with workspace workspace_root) ||
                             path_starts_with workspace (path_join workspace_root ".gvisor-control")))
        "workspace must be a task directory below the executor root"%string);
  metadata ← ask (fun t => ct_metadata t workspace);
  metadata ← refused (map_err (fun _ => "workspace metadata unavailable: {error}"%string) metadata);
  user ← refused (nonroot_container_user (fm_uid metadata) (fm_gid metadata));
  _ ← match gr_workspace_quota request with
      | Some quota => quota_admit workspace_root workspace quota
      | None => mret tt
      end;
  mret (workspace_root, workspace, user).

(** The identifier a successful [docker create] printed. *)
Definition created_id (created : GuardedCommandOutput) : result string string :=
  _ ← ensure (negb (gc_timed_out created || negb (exit_success (gc_status created)) ||
                    cs_truncated (gc_stdout created) || cs_truncated (gc_stderr created)))
        "container creation unconfirmed; no owned ID available for cleanup"%string;
  text ← ok_or (from_utf8 (cs_bytes (gc_stdout created))) "container identity is not UTF-8"%string;
  let container_id := trim text in
  _ ← ensure (lower_hex container_id 64) "container creation did not return an immutable owned ID"%string;
  Ok container_id.

Definition receipt_of (self : GvisorDockerExecutor) (request : GvisorExecutionRequestV1)
    (executed : GuardedCommandOutput) : GvisorExecutionReceiptV1 :=
  {| gx_schema := GVISOR_RECEIPT_SCHEMA_V1; gx_task_id := gr_task_id request;
     gx_backend_id := "docker-runsc"; gx_isolation := "userspace_kernel";
     gx_isolation_evidence_id := evidence_id <$> gd_qualification self;
     gx_exit_code := match gc_status executed with StExited code => Some code | _ => None end;
     gx_timed_out := gc_timed_out executed;
     gx_stdout := from_utf8_lossy (cs_bytes (gc_stdout executed));
     gx_stderr := from_utf8_lossy (cs_bytes (gc_stderr executed));
     gx_stdout_truncated := cs_truncated (gc_stdout executed);
     gx_stderr_truncated := cs_truncated (gc_stderr executed) |}.

(** [GvisorDockerExecutor::execute]. *)
Definition GvisorDockerExecutor_execute (fuel : nat) (self : GvisorDockerExecutor)
    (request : GvisorExecutionRequestV1) : gv GvisorExecutionReceiptV1 :=
  _ ← refused (validate_request request);
  '(workspace_root, workspace, user) ← admit_workspace self request;
  now ← controller_now;
  let deadline := (now + gr_timeout_ms request)%N in
  directory ← journal_open workspace_root;
  _ ← fence directory (gr_task_id request) workspace;
  request_bytes ← refused (request_to_vec request);
  let request_digest := sha_hex request_bytes in
  attempt ← on_journal (SqliteStore_reserve_sandbox_attempt (gr_task_id request) "docker-runsc"
                          request_digest workspace);
  let nonce := id_to_string (sba_attempt_id attempt) in
  let name := String.append "scirust-gvisor-" nonce in
  created ← guarded_docker fuel (create_argv request user name nonce request_digest workspace) deadline
              MAX_CAPTURE_BYTES;
  container_id ← refused (created_id created);
  _ ← on_journal (SqliteStore_sandbox_own (gr_task_id request) (sba_attempt_id attempt) container_id);
  executed ← kept (guarded_docker fuel (start_argv container_id) deadline (gr_max_capture_bytes request));
  _ ← cleanup_owned_container fuel container_id;
  _ ← on_journal (SqliteStore_sandbox_confirm_absent (gr_task_id request) (sba_attempt_id attempt) container_id);
  executed ← lift (map_err Failed executed);
  mret (receipt_of self request executed).

(** ** Inspection and reconciliation *)
Definition inspect_attempt (self : GvisorDockerExecutor) (task_id : string) : gv SandboxAttempt :=
  root ← ask (fun t => ct_canonicalize t (gd_workspace_root self));
  root ← refused root;
  _ ← journal_open root;
  found ← on_journal (reads (fun d => SqliteStore_sandbox_attempt (db_tables d) task_id));
  refused (ok_or found "no recorded sandbox attempt"%string).

(** The one container a label lookup found. *)
Definition unique_handle (observed : GuardedCommandOutput) : result string string :=
  _ ← ensure (negb (gc_timed_out observed || negb (exit_success (gc_status observed)) ||
                    cs_truncated (gc_stdout observed) || cs_truncated (gc_stderr observed)))
        "ownership lookup unavailable; reservation quarantined"%string;
  output ← ok_or (from_utf8 (cs_bytes (gc_stdout observed))) "{e}"%string;
  match filter (fun line => line <> ""%string) (text_lines output) with
  | [handle] =>
      _ ← ensure (lower_hex handle 64)
            "unconfirmed creation remains quarantined; no unique ownership handle"%string;
      Ok handle
  | _ => Err "unconfirmed creation remains quarantined; no unique ownership handle"%string
  end.

Definition confirm_cleaned (fuel : nat) (task_id : string) (attempt : SandboxAttempt) : gv SandboxAttempt :=
  handle ← refused (ok_or (sba_owned_handle attempt) "missing owned handle"%string);
  _ ← refused (ensure (lower_hex handle 64) "invalid immutable container handle"%string);
  _ ← confirm_owned_absence fuel handle;
  on_journal (SqliteStore_sandbox_confirm_absent task_id (sba_attempt_id attempt) handle).

Definition reconcile_attempt (fuel : nat) (self : GvisorDockerExecutor) (task_id : string) : gv SandboxAttempt :=
  root ← ask (fun t => ct_canonicalize t (gd_workspace_root self));
  root ← refused root;
  directory ← journal_open root;
  found ← on_journal (reads (fun d => SqliteStore_sandbox_attempt (db_tables d) task_id));
  attempt ← refused (ok_or found "no recorded sandbox attempt"%string);
  _ ← fence directory task_id (sba_workspace attempt);
  match sba_state attempt with
  | SbCleaned => mret attempt
  | state =>
      attempt ← match state with
                | SbReserved =>
                    now ← controller_now;
                    observed ← guarded_docker fuel
                                 (lookup_argv (id_to_string (sba_attempt_id attempt)) (sba_request_sha256 attempt))
                                 (now + CLEANUP_TIMEOUT) CONTROL_CAPTURE_BYTES;
                    handle ← refused (unique_handle observed);
                    on_journal (SqliteStore_sandbox_own task_id (sba_attempt_id attempt) handle)
                | _ => mret attempt
                end;
      confirm_cleaned fuel task_id attempt
  end.
End gvisor.

(** ** What the outside promises *)

(** The client's processes obey the operating system; others use the journal
    through its operations; and a [container ls --all] for an identifier that
    succeeds with a complete empty answer means that the daemon holds no
    container with it. *)
Section journaled.
Context `{JsonLib, ManifestJson, WorkspaceJson, Sha256Lib, UuidLib, Environment}.
Context `{SerdeJson ComponentManifest, SerdeJson RunRecord, SerdeJson TaskRecord, SerdeJson ArtifactMeta,
          SerdeJson WorkflowRecord, SerdeJson (gmap string string)}.
Context `{SerdeJson AuthoritativeStepPublication, SerdeJson SandboxAttempt}.
Context {UT : UuidText} {CH : ControllerHost}.

Class ControllerLaws := {
  docker_holds : Daemon -> string -> Prop;
  ct_docker_laws : forall argv d, ProcessHostLaws (H := ct_docker argv d);
  ct_others_laws : forall t d, exists ops, ct_others t d = store_run ops d;
  ct_absence_law : forall id fuel deadline cap d h h' o,
    execute_guarded_command (H := ct_docker (absence_argv id) d) fuel deadline cap h = (h', Ok o) ->
    gc_status o = StExited 0 -> pp_open (h_stdout h') = false -> ascii_blank (pp_written (h_stdout h')) = true ->
    ~ docker_holds (ct_daemon (absence_argv id) d h') id;
}.

Context {CL : ControllerLaws}.
Context `{!SerdeJsonLaws ComponentManifest, !SerdeJsonLaws RunRecord, !SerdeJsonLaws TaskRecord,
          !SerdeJsonLaws ArtifactMeta, !SerdeJsonLaws WorkflowRecord, !SerdeJsonLaws (gmap string string),
          !SerdeJsonLaws AuthoritativeStepPublication, !SerdeJsonLaws SandboxAttempt}.
Context {UTL : UuidTextLaws} {SL : Sha256Laws}.

Abbreviation gv := (action Controller Halt).
Abbreviation tables_of w := (db_tables (gv_store w)).

(** *** The journal *)
Lemma reserve_journaled task backend request ws d d' a :
  SqliteStore_reserve_sandbox_attempt task backend request ws d = (d', Ok a) -> journaled (db_tables d') task a.
Proof.
  intros (Hv & _ & _ & _ & _ & _ & _ & json & es & Hj & Hl)%reserve_Ok.
  apply logs_tables in Hl as (_ & _ & _ & _ & _ & _ & Ht). exists (reserved_row ws json).
  rewrite Ht. cbn. rewrite lookup_insert_eq. split; [done|]. by apply decode_sandbox_Ok.
Qed.

Lemma transition_journaled task attempt handle expected next d d' a :
  SqliteStore_sandbox_transition task attempt handle expected next d = (d', Ok a) ->
  journaled (db_tables d') task a /\
  exists old, journaled (db_tables d) task old /\ sba_state old = expected /\ a = with_owner old next handle.
Proof.
  intros (row & old & Hrow & Hold & Hst & _ & _ & Ha & Hv & json & es & Hj & Hl)%sandbox_transition_Ok.
  apply logs_tables in Hl as (_ & _ & _ & _ & _ & _ & Ht). split; [|exists old; split_and!; [by exists row|done..]].
  eexists. rewrite Ht. cbn. rewrite lookup_insert_eq. split; [done|]. by apply decode_sandbox_Ok.
Qed.

Lemma journaled_inj t task a b : journaled t task a -> journaled t task b -> a = b.
Proof. intros (r1 & H1' & D1) (r2 & H2' & D2). congruence. Qed.

Lemma others_sandbox t d : sandbox_le (db_tables d) (db_tables (ct_others t d)).
Proof. destruct (ct_others_laws t d) as [ops ->]. apply store_run_sandbox. Qed.

(** The journal holds [a] or what became of it. *)
Definition backed (task : string) (a : SandboxAttempt) (t : Tables) : Prop :=
  exists b, journaled t task b /\ sandbox_progress a b.

Lemma backed_le task a t t' : sandbox_le t t' -> backed task a t -> backed task a t'.
Proof.
  intros Hle (b & Hb & Hp). destruct (Hle _ _ Hb) as (c & Hc & Hq). exists c. split; [done|].
  by eapply sandbox_progress_trans.
Qed.

(** *** Calls *)

(** What a call establishes when it returns a value, and when it fails. *)
Definition gv_post {A} (P : Controller -> Prop) (m : gv A) (Q : A -> Controller -> Prop) (E : Controller -> Prop)
    : Prop :=
  triple P m (fun r w => match r with Ok a => Q a w | Err _ => E w end).

Lemma gv_bind {A B} P (m : gv A) (f : A -> gv B) Q R E :
  gv_post P m Q E -> (forall a, gv_post (Q a) (f a) R E) -> gv_post P (m ≫= f) R E.
Proof. intros Hm Hf. by eapply triple_bind. Qed.

Lemma gv_lift {A} (P : Controller -> Prop) (r : result Halt A) (E : Controller -> Prop) :
  (forall w, P w -> E w) -> gv_post P (lift r) (fun a w => P w /\ r = Ok a) E.
Proof. intros HE w Hw. unfold lift. destruct r; [by split|by apply HE]. Qed.

Lemma gv_refused {A} (P : Controller -> Prop) (r : result string A) (E : Controller -> Prop) :
  (forall w, P w -> E w) -> gv_post P (refused r) (fun a w => P w /\ r = Ok a) E.
Proof. intros HE w Hw. unfold refused, lift. destruct r; cbn; [by split|by apply HE]. Qed.

Lemma gv_pre {A} (P P' : Controller -> Prop) (m : gv A) Q E :
  (forall w, P w -> P' w) -> gv_post P' m Q E -> gv_post P m Q E.
Proof. intros HP Hm w Hw. by apply Hm, HP. Qed.

Lemma gv_fact {A} (F : Prop) P (m : gv A) Q E : (F -> gv_post P m Q E) -> gv_post (fun w => P w /\ F) m Q E.
Proof. intros Hm w [Hw HF]. by apply Hm. Qed.

Lemma gv_kept {A} P (m : gv A) (Q : Controller -> Prop) E :
  (forall w, Q w -> E w) -> gv_post P m (fun _ => Q) Q -> gv_post P (kept m) (fun _ => Q) E.
Proof.
  intros HE Hm w Hw. specialize (Hm w Hw). unfold kept. destruct (m w) as [w1 [a|[|e]]]; try done. by apply HE.
Qed.

(** A fact of every call that returns a value; a fact no call changes. *)
Lemma gv_also {A} P (m : gv A) Q (F : Controller -> Prop) E :
  (forall w w' a, m w = (w', Ok a) -> F w') -> gv_post P m Q E -> gv_post P m (fun a w => Q a w /\ F w) E.
Proof.
  intros HF Hm w Hw. specialize (Hm w Hw). destruct (m w) as [w1 [a|e]] eqn:Em; cbn in *; [|done].
  split; [done|by eapply HF].
Qed.

Lemma gv_frame {A} P (m : gv A) Q (F : Controller -> Prop) E :
  (forall w, F w -> F (m w).1) -> gv_post P m Q E -> gv_post (fun w => P w /\ F w) m (fun a w => Q a w /\ F w) E.
Proof.
  intros HF Hm w [Hw Hf]. specialize (Hm w Hw). specialize (HF w Hf). by destruct (m w) as [w1 [a|e]].
Qed.

(** *** Before the reservation *)

(** Neither the journal nor Docker is used. *)
Definition untouched (w w' : Controller) : Prop :=
  gv_store w' = gv_store w /\ gv_daemon w' = gv_daemon w /\ gv_calls w' = gv_calls w.

#[local] Instance untouched_preorder : PreOrder untouched.
Proof. split; [done|]. intros a b c (? & ? & ?) (? & ? & ?). unfold untouched. split_and!; congruence. Qed.

#[local] Hint Extern 0 (PreOrder untouched) => apply untouched_preorder : steps.

Lemma quiet_ask {A} (f : N -> A) : steps untouched (ask f).
Proof. by intros w. Qed.

Lemma quiet_refused {A} (r : result string A) : steps untouched (refused r).
Proof. by intros w. Qed.

Lemma quiet_refuse {A} reason : steps untouched (refuse reason : gv A).
Proof. by intros w. Qed.

Lemma quiet_now : steps untouched controller_now.
Proof. by intros w. Qed.

#[local] Hint Resolve quiet_ask quiet_refused quiet_refuse quiet_now : steps.

Lemma quiet_private_file path owner : steps untouched (private_file path owner).
Proof. unfold private_file. solve_steps. Qed.
#[local] Hint Resolve quiet_private_file : steps.

Lemma quiet_lock_file path owner : steps untouched (lock_file path owner).
Proof. unfold lock_file. solve_steps. Qed.
#[local] Hint Resolve quiet_lock_file : steps.

Lemma quiet_open root : steps untouched (journal_open root).
Proof. unfold journal_open. solve_steps. Qed.

Lemma quiet_fence directory task workspace : steps untouched (fence directory task workspace).
Proof. unfold fence. solve_steps. Qed.

Lemma quiet_quota root workspace quota : steps untouched (quota_admit root workspace quota).
Proof. unfold quota_admit. solve_steps. Qed.
#[local] Hint Resolve quiet_quota : steps.

Lemma ask_Ok {A} (f : N -> A) (w w' : Controller) (a : A) : ask f w = (w', Ok a) ->
  f (gv_tick w) = a /\ gv_tick w' = (gv_tick w + 1)%N.
Proof. by intros [= <- <-]. Qed.

Lemma refused_Ok {A} (r : result string A) (w w' : Controller) (a : A) :
  refused r w = (w', Ok a) -> r = Ok a /\ w' = w.
Proof. by intros [-> Hr%map_err_Ok]%lift_Ok. Qed.

(** A workspace a quota admits is on a persistent file system of its own, whose
    whole size the quota bounds, and nothing is mounted below it. *)
Lemma quota_admit_Ok root workspace quota w w' u :
  quota_admit root workspace quota w = (w', Ok u) ->
  exists child t own volume parent geometry mounts inventory,
    volume_child root workspace = Ok child /\
    ct_handle_metadata (t + 2) workspace = Ok own /\ ct_metadata (t + 3) (path_join root child) = Ok volume /\
    ct_handle_metadata (t + 4) root = Ok parent /\ fm_dev volume = fm_dev own /\ fm_dev parent <> fm_dev own /\
    ct_fstatfs (t + 5) workspace = Ok geometry /\ fg_type geometry = EXT_SUPER_MAGIC /\
    (0 < Z.to_N (fg_block_size geometry) * fg_blocks geometry <= wq_max_bytes quota)%N /\
    (0 < fg_files geometry <= wq_max_inodes quota)%N /\
    ct_mountinfo (t + 6) = Ok mounts /\ from_utf8 mounts = Some inventory /\
    forall line, line ∈ text_lines inventory -> exists field, split_whitespace line !! 4 = Some field /\
      (path_eqb (decode_mount field) workspace = true \/ path_starts_with (decode_mount field) workspace = false).
Proof.
  unfold quota_admit. intros Hr. act_inv.
  repeat match goal with
  | Hr : ask _ _ = (_, Ok _) |- _ => apply ask_Ok in Hr as [? ?]
  | Hr : refused _ _ = (_, Ok _) |- _ => apply refused_Ok in Hr as [Hr ->]
  end.
  repeat match goal with
  | Hr : ensure _ _ = Ok _ |- _ => apply ensure_Ok in Hr
  | Hr : map_err _ _ = Ok _ |- _ => apply map_err_Ok in Hr
  | Hr : ok_or _ _ = Ok _ |- _ => apply ok_or_Ok in Hr
  end.
  case_match; [|done]. bool_inv. simplify_eq.
  repeat match goal with Ht : gv_tick _ = _ |- _ => rewrite Ht in *; clear Ht end. rewrite <- !N.add_assoc in *.
  apply capacity_Ok in Hr16 as (_ & _ & Hbytes & Hinodes). apply no_submounts_Ok in Hr as [_ Hbelow].
  rewrite take_ge in Hr20 by (unfold len in *; rewrite length_take in *; lia).
  do 8 eexists. split_and!; (done || lia).
Qed.

Lemma quiet_workspace self request : steps untouched (admit_workspace self request).
Proof. unfold admit_workspace. solve_steps. Qed.

Lemma gv_quiet {A} c0 (m : gv A) (E : Controller -> Prop) :
  steps untouched m -> (forall w, gv_calls w = c0 -> E w) ->
  gv_post (fun w => gv_calls w = c0) m (fun _ w => gv_calls w = c0) E.
Proof.
  intros Hm HE w Hw. destruct (Hm w) as (_ & _ & Hc). destruct (m w) as [w1 [a|e]]; cbn in *.
  - congruence.
  - apply HE. congruence.
Qed.

(** *** After the reservation *)
Section run.
Context (request : GvisorExecutionRequestV1) (c0 : list (list string * Tables)).

(** The Docker calls of an execution, in order. *)
Definition container_calls (user workspace : string) (a : SandboxAttempt) (id : string) : list (list string) :=
  let nonce := id_to_string (sba_attempt_id a) in
  [create_argv request user (String.append "scirust-gvisor-" nonce) nonce (sba_request_sha256 a) workspace;
   start_argv id; remove_argv id; absence_argv id].

(** What the journal holds at the [i]-th of them: the reservation, and then
    the container's identity. *)
Definition journal_at (a : SandboxAttempt) (id : string) (i : nat) : SandboxAttempt :=
  match i with O => a | S _ => with_owner a SbOwned id end.

Record container_run (user workspace : string) (a : SandboxAttempt) (id : string) (n : nat)
    (calls : list (list string * Tables)) : Prop := {
  cr_calls : calls.*1 = take n (container_calls user workspace a id);
  cr_journal : forall i argv t, calls !! i = Some (argv, t) -> backed (gr_task_id request) (journal_at a id i) t;
}.

Definition reserved_for (workspace : string) (a : SandboxAttempt) : Prop :=
  sba_task_id a = gr_task_id request /\ sba_workspace a = workspace /\ sba_state a = SbReserved /\
  exists request_bytes, request_to_vec request = Ok request_bytes /\ sba_request_sha256 a = sha_hex request_bytes.

(** [n] calls were made, and the journal is at [base]. *)
Definition at_call (user workspace : string) (a : SandboxAttempt) (id : string) (n : nat) (base : SandboxAttempt)
    (w : Controller) : Prop :=
  (exists calls, gv_calls w = c0 ++ calls /\ container_run user workspace a id n calls) /\
  backed (gr_task_id request) base (tables_of w).

(** The calls of an execution however it ends. *)
Definition orderly (w : Controller) : Prop :=
  gv_calls w = c0 \/
  validate_request request = Ok tt /\
  exists user workspace a id n calls, reserved_for workspace a /\ 1 <= n <= 4 /\
    (2 <= n -> lower_hex id 64 = true) /\
    gv_calls w = c0 ++ calls /\ container_run user workspace a id n calls.

Lemma at_journal {A} user workspace a id n base (m : sqlite A) (next : A -> SandboxAttempt) (E : Controller -> Prop) :
  (forall d, sandbox_le (db_tables d) (db_tables (m d).1)) ->
  (forall d d' b, m d = (d', Ok b) -> backed (gr_task_id request) base (db_tables d) ->
     backed (gr_task_id request) (next b) (db_tables d')) ->
  (forall w, at_call user workspace a id n base w -> E w) ->
  gv_post (at_call user workspace a id n base) (on_journal m) (fun b => at_call user workspace a id n (next b)) E.
Proof.
  intros Hle Hm HE w [Hc Hb]. unfold on_journal.
  pose proof (backed_le _ _ _ _ (others_sandbox (gv_tick w) (gv_store w)) Hb) as Hb'.
  specialize (Hle (ct_others (gv_tick w) (gv_store w))).
  destruct (m (ct_others (gv_tick w) (gv_store w))) as [d' [b|e]] eqn:Em; cbn in *.
  - split; [done|]. by eapply Hm.
  - apply HE. split; [done|]. by eapply backed_le.
Qed.

Lemma at_docker user workspace a id n base argv fuel deadline cap :
  container_calls user workspace a id !! n = Some argv ->
  sandbox_progress (journal_at a id n) base ->
  gv_post (at_call user workspace a id n base) (guarded_docker fuel argv deadline cap)
    (fun _ => at_call user workspace a id (S n) base) (at_call user workspace a id (S n) base).
Proof.
  intros Hargv Hp w [(calls & Hcalls & [Hc Hj]) Hb]. unfold guarded_docker.
  pose proof (backed_le _ _ _ _ (others_sandbox (gv_tick w) (gv_store w)) Hb) as Hb'.
  assert (Hn : length calls = n).
  { rewrite <- (length_fmap fst), Hc, length_take. apply lookup_lt_Some in Hargv. lia. }
  enough (Hnew : forall h t d, at_call user workspace a id (S n) base
    (mkController _ t h (ct_others (gv_tick w) (gv_store w)) d
       (gv_calls w ++ [(argv, db_tables (ct_others (gv_tick w) (gv_store w)))])))
    by (destruct (execute_guarded_command _ _ _ _) as [h [o|e]]; apply Hnew).
  intros h t d. split; [|exact Hb']. exists (calls ++ [(argv, db_tables (ct_others (gv_tick w) (gv_store w)))]).
  split; [cbn; by rewrite Hcalls, app_assoc|]. split.
  - by rewrite fmap_app, Hc, (take_S_r _ _ _ Hargv).
  - intros i argv' t' [[_ Hi]|[Hi [= <- <-]]]%lookup_snoc_Some.
    + by eapply Hj.
    + subst i. rewrite Hn. destruct Hb' as (b & Hb1 & Hb2). exists b. split; [done|].
      by eapply sandbox_progress_trans.
Qed.

(** *** The execution *)
Context (fuel : nat).

Lemma reserve_run user workspace (request_bytes : list N) :
  request_to_vec request = Ok request_bytes ->
  gv_post (fun w => gv_calls w = c0)
    (on_journal (SqliteStore_reserve_sandbox_attempt (gr_task_id request) "docker-runsc" (sha_hex request_bytes) workspace))
    (fun a w => at_call user workspace a "" 0 a w /\ reserved_for workspace a) (fun w => gv_calls w = c0).
Proof.
  intros Hbytes w Hw. unfold on_journal.
  destruct (SqliteStore_reserve_sandbox_attempt _ _ _ _ _) as [d' [a|e]] eqn:Er; cbn; [|done]. split; [split|].
  - exists []. split; [cbn; by rewrite app_nil_r|]. split; [done|]. intros i argv t Hi. by rewrite lookup_nil in Hi.
  - exists a. split; [by eapply reserve_journaled|apply sandbox_progress_refl].
  - pose proof Er as (_ & Ht & Hws & Hs & _)%reserve_Ok. split_and!; [done..|]. exists request_bytes. split; [done|].
    unfold SqliteStore_reserve_sandbox_attempt in Er. apply action_bind_Ok in Er as (d0 & attempt & [= <- <-] & Er).
    apply action_bind_Ok in Er as (d1 & [] & _ & Er).
    apply transaction_Ok in Er as (d2 & d3 & _ & [[Hb _]|[Hb _]]); act_inv; [done|]. by injection Hb as <-.
Qed.

(** A run with another identifier, before one is known. *)
Lemma run_rename user workspace a id id' n calls : n <= 1 ->
  container_run user workspace a id n calls -> container_run user workspace a id' n calls.
Proof.
  intros Hn [Hc Hj]. split.
  - rewrite Hc. by destruct n as [|[|n]]; [..|lia].
  - intros i argv t Hi. pose proof (Hj i argv t Hi) as Hb. destruct i; [done|].
    apply lookup_lt_Some in Hi. rewrite <- (length_fmap fst), Hc, length_take in Hi. lia.
Qed.

Lemma own_backed a id d d' b : sba_state a = SbReserved ->
  SqliteStore_sandbox_own (gr_task_id request) (sba_attempt_id a) id d = (d', Ok b) ->
  backed (gr_task_id request) a (db_tables d) -> backed (gr_task_id request) (with_owner a SbOwned id) (db_tables d').
Proof.
  intros Ha (Hb & old & Hold & Hst & ->)%transition_journaled (c & Hc & Hp).
  assert (c = old) as -> by by eapply journaled_inj. assert (old = a) as -> by (apply Hp; congruence).
  eexists. split; [done|]. apply sandbox_progress_refl.
Qed.

Lemma cleaned_backed a id d d' b :
  SqliteStore_sandbox_confirm_absent (gr_task_id request) (sba_attempt_id a) id d = (d', Ok b) ->
  backed (gr_task_id request) (with_owner a SbOwned id) (db_tables d) ->
  backed (gr_task_id request) (with_owner a SbCleaned id) (db_tables d').
Proof.
  intros (Hb & old & Hold & Hst & ->)%transition_journaled (c & Hc & Hp).
  assert (c = old) as -> by by eapply journaled_inj.
  assert (old = with_owner a SbOwned id) as -> by (apply Hp; done).
  eexists. split; [done|]. apply sandbox_progress_refl.
Qed.

Lemma cleaned_journaled a id t :
  backed (gr_task_id request) (with_owner a SbCleaned id) t -> journaled t (gr_task_id request) (with_owner a SbCleaned id).
Proof.
  intros (b & Hb & Hp). destruct (Hp) as (_ & _ & _ & _ & _ & Hr & _ & Heq).
  rewrite <- Heq; [done|]. cbn in Hr. by destruct (sba_state b); cbn in Hr; try lia.
Qed.

Lemma absence_confirmed id deadline w w' u :
  confirm_owned_absence_before fuel id deadline w = (w', Ok u) -> ~ docker_holds (gv_daemon w') id.
Proof.
  unfold confirm_owned_absence_before. intros (w1 & o & Hrun & Hr)%action_bind_Ok.
  apply lift_Ok in Hr as [-> Hr%map_err_Ok%ensure_Ok].
  unfold guarded_docker in Hrun. cbv zeta in Hrun.
  destruct (execute_guarded_command _ _ _ _) as [h r] eqn:Hg. injection Hrun as <- ->.
  pose proof Hg as Hrun.
  apply (guarded_command_contained (H := ct_docker _ _) (H0 := ct_docker_laws _ _)) in Hg as (_ & (_ & Hc & Ho & Hopen & _) & _).
  apply negb_true_iff in Hr. rewrite !orb_false_iff, !negb_false_iff in Hr. destruct Hr as ((((_ & He) & Ht) & _) & Hb).
  apply bool_decide_eq_true in He. cbn.
  apply (ct_absence_law _ _ _ _ _ _ _ _ Hrun He Hopen). rewrite Ho in Ht, Hb. cbn in Ht, Hb.
  rewrite take_ge in Hb; [done|]. apply N.ltb_ge in Ht. unfold len in Ht. lia.
Qed.

Lemma at_orderly user workspace a id n base w :
  validate_request request = Ok tt -> reserved_for workspace a -> 1 <= n <= 4 ->
  (2 <= n -> lower_hex id 64 = true) -> at_call user workspace a id n base w -> orderly w.
Proof. intros Hv Ha Hn Hid [(calls & Hc & Hr) _]. right. split; [done|]. by exists user, workspace, a, id, n, calls. Qed.

Lemma cleanup_run user workspace a id :
  validate_request request = Ok tt -> reserved_for workspace a -> lower_hex id 64 = true ->
  gv_post (at_call user workspace a id 2 (with_owner a SbOwned id)) (cleanup_owned_container fuel id)
    (fun _ w => at_call user workspace a id 4 (with_owner a SbOwned id) w /\ ~ docker_holds (gv_daemon w) id) orderly.
Proof.
  intros Hv Ha Hid.
  assert (HE : forall n w, 1 <= n <= 4 -> at_call user workspace a id n (with_owner a SbOwned id) w -> orderly w)
    by (intros n w Hn Hw; by eapply at_orderly).
  assert (Hd : forall n argv dl cap, container_calls user workspace a id !! n = Some argv -> 1 <= n <= 3 ->
    gv_post (at_call user workspace a id n (with_owner a SbOwned id)) (guarded_docker fuel argv dl cap)
      (fun _ => at_call user workspace a id (S n) (with_owner a SbOwned id)) orderly).
  { intros n argv dl cap Hargv Hn. eapply triple_weaken; [apply (at_docker user workspace a id n); [exact Hargv|]|done|].
    - destruct n; [lia|]. apply sandbox_progress_refl.
    - intros [o|e] w Hw; [done|]. apply (HE (S n)); [lia|done]. }
  unfold cleanup_owned_container.
  apply (gv_bind _ _ _ (fun _ => at_call user workspace a id 2 (with_owner a SbOwned id))); [by intros w Hw|].
  intros now. cbv zeta. eapply gv_bind; [apply (Hd 2); [done|lia]|]. intros removed.
  eapply gv_bind; [apply gv_refused; intros w; by apply (HE 3); lia|]. intros u. apply gv_fact. intros _.
  apply gv_also; [intros w w' []; apply absence_confirmed|]. unfold confirm_owned_absence_before.
  eapply gv_bind; [apply (Hd 3); [done|lia]|]. intros absent.
  eapply triple_weaken; [apply (gv_refused (at_call user workspace a id 4 (with_owner a SbOwned id)) _ orderly)|done|].
  - intros w. apply (HE 4). lia.
  - by intros [[]|e] w; [intros [Hw _]|].
Qed.

(** What is true of an execution that returns its receipt. *)
Definition cleaned_run (w : Controller) : Prop :=
  validate_request request = Ok tt /\
  exists user workspace a id calls, reserved_for workspace a /\ lower_hex id 64 = true /\
    gv_calls w = c0 ++ calls /\ container_run user workspace a id 4 calls /\
    journaled (tables_of w) (gr_task_id request) (with_owner a SbCleaned id) /\
    ~ docker_holds (gv_daemon w) id.

Lemma started_run self user workspace a id deadline :
  validate_request request = Ok tt -> reserved_for workspace a -> lower_hex id 64 = true ->
  gv_post (at_call user workspace a id 1 (with_owner a SbOwned id))
    (executed ← kept (guarded_docker fuel (start_argv id) deadline (gr_max_capture_bytes request));
     _ ← cleanup_owned_container fuel id;
     _ ← on_journal (SqliteStore_sandbox_confirm_absent (gr_task_id request) (sba_attempt_id a) id);
     executed ← lift (map_err Failed executed);
     mret (receipt_of self request executed)) (fun _ => cleaned_run) orderly.
Proof.
  intros Hv Ha Hid.
  apply (gv_bind _ _ _ (fun _ => at_call user workspace a id 2 (with_owner a SbOwned id))).
  { apply gv_kept; [intros w Hw; eapply at_orderly; [done..| |done|exact Hw]; lia|].
    apply (at_docker user workspace a id 1); [done|apply sandbox_progress_refl]. }
  intros executed. eapply gv_bind; [by apply (cleanup_run user workspace a id)|]. intros u. cbv beta.
  apply (gv_bind _ _ _ (fun _ w => at_call user workspace a id 4 (with_owner a SbCleaned id) w /\
    ~ docker_holds (gv_daemon w) id)).
  { apply gv_frame; [intros w Hw; unfold on_journal; by destruct (SqliteStore_sandbox_confirm_absent _ _ _ _)|].
    apply (at_journal user workspace a id 4 (with_owner a SbOwned id) _ (fun _ => with_owner a SbCleaned id)).
    - intros d. apply (proj1 (store_do_sandbox d (ConfirmAbsent _ _ _))).
    - intros d d' b. apply cleaned_backed.
    - intros w Hw. eapply at_orderly; [done..| |done|exact Hw]. lia. }
  intros u'. eapply gv_bind; [apply gv_lift; intros w [Hw _]; eapply at_orderly; [done..| |done|exact Hw]; lia|].
  intros o w [[[(calls & Hc & Hr) Hb] Hd] _]. cbn. split; [done|]. exists user, workspace, a, id, calls. split_and!; try done.
  by apply cleaned_journaled.
Qed.

Lemma created_id_hex created id : created_id created = Ok id -> lower_hex id 64 = true.
Proof. unfold created_id. intros Hc. ok_inv. by subst. Qed.

Lemma gvisor_run self : gv_post (fun w => gv_calls w = c0) (GvisorDockerExecutor_execute fuel self request)
  (fun _ => cleaned_run) orderly.
Proof.
  assert (HE : forall w, gv_calls w = c0 -> orderly w) by (by left). unfold GvisorDockerExecutor_execute.
  eapply gv_bind; [by apply gv_refused|]. intros []. apply gv_fact. intros Hv.
  eapply gv_bind; [apply gv_quiet; [apply quiet_workspace|done]|]. intros [[root workspace] user].
  eapply gv_bind; [apply gv_quiet; [apply quiet_now|done]|]. intros now. cbv zeta.
  eapply gv_bind; [apply gv_quiet; [apply quiet_open|done]|]. intros directory.
  eapply gv_bind; [apply gv_quiet; [apply quiet_fence|done]|]. intros [].
  eapply gv_bind; [by apply gv_refused|]. intros request_bytes. apply gv_fact. intros Hbytes.
  apply (gv_bind _ _ _ (fun a w => at_call user workspace a "" 0 a w /\ reserved_for workspace a)).
  { eapply triple_weaken; [by apply (reserve_run user workspace)|done|]. by intros [a|e] w; [|apply HE]. }
  intros a. apply gv_fact. intros Ha. pose proof Ha as (_ & _ & Hst & bytes' & Hb' & Hdigest).
  assert (bytes' = request_bytes) as -> by congruence. rewrite <- Hdigest.
  assert (HE1 : forall id base w, at_call user workspace a id 1 base w -> orderly w)
    by (intros id base w Hw; eapply at_orderly; [done..| | |exact Hw]; lia).
  eapply gv_bind; [eapply triple_weaken; [apply (at_docker user workspace a "" 0); [done|apply sandbox_progress_refl]|done|]|].
  { intros [o|e] w Hw; [exact Hw|by eapply HE1]. }
  intros created. eapply gv_bind; [apply gv_refused; apply HE1|]. intros id. apply gv_fact. intros Hid%created_id_hex.
  apply (gv_bind _ _ _ (fun _ => at_call user workspace a id 1 (with_owner a SbOwned id))).
  { apply (gv_pre _ (at_call user workspace a id 1 a)).
    { intros w [(calls & Hc & Hr) Hb]. split; [|done]. exists calls. split; [done|]. by apply (run_rename _ _ _ ""). }
    apply (at_journal user workspace a id 1 a _ (fun _ => with_owner a SbOwned id)).
    - intros d. apply (proj1 (store_do_sandbox d (OwnSandbox _ _ _))).
    - intros d d' b. by apply own_backed.
    - apply HE1. }
  intros owned. by apply started_run.
Qed.
End run.

(** (C10) Containers are journaled before they run and gone when a receipt is
    returned.  Whatever Docker and the host answer, and whatever other
    controllers do to the journal meanwhile, an execution makes at most four
    Docker calls, in this order: it creates the container of a validated
    request with the fixed controls, its attempt being reserved in the
    journal; it starts, removes and looks up the one container whose
    immutable identifier the creation returned, the journal naming that
    container as the attempt's at each of these calls.  When a receipt is
    returned all four were made, the journal says that the attempt is cleaned,
    and the daemon no longer holds the container. *)
Theorem gvisor_execution_owned fuel self request w :
  let '(w', r) := GvisorDockerExecutor_execute fuel self request w in
  orderly request (gv_calls w) w' /\
  (is_ok r = true -> cleaned_run request (gv_calls w) w').
Proof.
  pose proof (gvisor_run request (gv_calls w) fuel self w eq_refl) as Hr.
  destruct (GvisorDockerExecutor_execute fuel self request w) as [w' [receipt|e]]; cbn in Hr; [|by split].
  split; [|done]. destruct Hr as (Hv & user & workspace & a & id & calls & Ha & Hid & Hc & Hrun & _).
  right. split; [done|]. exists user, workspace, a, id, 4, calls. split_and!; [done|lia..|done|done|done].
Qed.

(** *** Reconciliation *)

(** Docker is only asked what containers there are. *)
Definition only_looked (w w' : Controller) : Prop :=
  exists calls, gv_calls w' = gv_calls w ++ calls /\
    Forall (fun call => take 2 call.1 = ["container"; "ls"]%string) calls.

#[local] Instance only_looked_preorder : PreOrder only_looked.
Proof.
  split.
  - intros w. exists []. by rewrite app_nil_r.
  - intros a b c (k & Eb & Hk) (l & Ec & Hl). exists (k ++ l).
    split; [by rewrite Ec, Eb, app_assoc|by apply Forall_app].
Qed.

Lemma untouched_looked {A} (m : gv A) : steps untouched m -> steps only_looked m.
Proof. intros Hm w. destruct (Hm w) as (_ & _ & Hc). exists []. by rewrite Hc, app_nil_r. Qed.

Lemma journal_looked {A} (m : sqlite A) : steps only_looked (on_journal m).
Proof.
  intros w. unfold on_journal. destruct (m (ct_others (gv_tick w) (gv_store w))). exists []. by rewrite app_nil_r.
Qed.

Lemma docker_looked fuel argv deadline cap :
  take 2 argv = ["container"; "ls"]%string -> steps only_looked (guarded_docker fuel argv deadline cap).
Proof.
  intros Ha w. unfold guarded_docker. cbv zeta. destruct (execute_guarded_command _ _ _ _) as [h r].
  eexists. split; [done|]. by repeat constructor.
Qed.

#[local] Hint Extern 0 (PreOrder only_looked) => apply only_looked_preorder : steps.
#[local] Hint Resolve quiet_open quiet_fence : steps.

Lemma looked_ask {A} (f : N -> A) : steps only_looked (ask f).
Proof. apply untouched_looked, quiet_ask. Qed.

Lemma looked_refused {A} (r : result string A) : steps only_looked (refused r).
Proof. apply untouched_looked, quiet_refused. Qed.

Lemma looked_now : steps only_looked controller_now.
Proof. apply untouched_looked, quiet_now. Qed.

Lemma looked_open root : steps only_looked (journal_open root).
Proof. apply untouched_looked, quiet_open. Qed.

Lemma looked_fence directory task workspace : steps only_looked (fence directory task workspace).
Proof. apply untouched_looked, quiet_fence. Qed.

#[local] Hint Resolve looked_ask looked_refused looked_now looked_open looked_fence journal_looked : steps.

Lemma looked_absence_before fuel id deadline : steps only_looked (confirm_owned_absence_before fuel id deadline).
Proof.
  unfold confirm_owned_absence_before. apply steps_bind; [apply _|by apply docker_looked|]. intros o. solve_steps.
Qed.
#[local] Hint Resolve looked_absence_before : steps.

Lemma looked_absence fuel id : steps only_looked (confirm_owned_absence fuel id).
Proof. unfold confirm_owned_absence. solve_steps. Qed.

Lemma looked_lookup fuel attempt request deadline cap :
  steps only_looked (guarded_docker fuel (lookup_argv attempt request) deadline cap).
Proof. by apply docker_looked. Qed.
#[local] Hint Resolve looked_absence looked_lookup : steps.

Lemma looked_confirm fuel task attempt : steps only_looked (confirm_cleaned fuel task attempt).
Proof. unfold confirm_cleaned. solve_steps. Qed.
#[local] Hint Resolve looked_confirm : steps.

Lemma looked_reconcile fuel self task : steps only_looked (reconcile_attempt fuel self task).
Proof. unfold reconcile_attempt. solve_steps. Qed.

Lemma on_journal_Ok {A} (m : sqlite A) w w' a :
  on_journal m w = (w', Ok a) ->
  m (ct_others (gv_tick w) (gv_store w)) = (gv_store w', Ok a) /\ gv_daemon w' = gv_daemon w /\
  gv_calls w' = gv_calls w.
Proof. unfold on_journal. destruct (m _) as [d [b|e]]; cbn; by intros [= <- <-]. Qed.

Lemma confirm_cleaned_Ok fuel task attempt w w' a :
  confirm_cleaned fuel task attempt w = (w', Ok a) ->
  sba_state a = SbCleaned /\ journaled (tables_of w') task a /\
  exists id, sba_owned_handle a = Some id /\ ~ docker_holds (gv_daemon w') id.
Proof.
  unfold confirm_cleaned. intros Hr. act_inv. apply on_journal_Ok in Hr as (Hc & Hd & _).
  apply transition_journaled in Hc as (Hj & old & _ & _ & ->). split_and!; [done|done|].
  eexists. split; [done|]. rewrite Hd. unfold confirm_owned_absence in Hr2. act_inv. by eapply absence_confirmed.
Qed.

(** Reconciliation only looks.  What a crash left behind is reconciled
    without a container being created, started or removed: every Docker call
    is a [container ls]; and when it succeeds, the journal says that the
    attempt is cleaned, and unless it said so before, the daemon does not hold
    its container. *)
Theorem gvisor_reconcile_looks fuel self task w :
  let '(w', r) := reconcile_attempt fuel self task w in
  only_looked w w' /\
  forall a, r = Ok a -> sba_state a = SbCleaned /\ journaled (tables_of w') task a /\
    (gv_calls w' = gv_calls w \/ exists id, sba_owned_handle a = Some id /\ ~ docker_holds (gv_daemon w') id).
Proof.
  pose proof (looked_reconcile fuel self task w) as Hl. destruct (reconcile_attempt fuel self task w) as [w' r] eqn:Hr.
  split; [exact Hl|]. intros a ->. unfold reconcile_attempt in Hr.
  act_inv. apply on_journal_Ok in Hr3 as (Hf & _ & Ef). unfold refused in Hr4. act_inv.
  destruct (sba_state r3) eqn:Hst; act_inv.
  - apply confirm_cleaned_Ok in Hr as (Ha & Hj & Hd). split_and!; [done|done|by right].
  - apply confirm_cleaned_Ok in Hr as (Ha & Hj & Hd). split_and!; [done|done|by right].
  - apply (steps_run untouched) in Hr5 as (Es & _ & Ec); [|apply quiet_fence].
    injection Hf as Es2 Hf. apply journaled_attempt in Hf. split_and!; [done|by rewrite Es, <- Es2|left].
    apply (steps_run untouched) in Hr0 as (_ & _ & E0); [|apply quiet_ask].
    apply (steps_run untouched) in Hr1 as (_ & _ & E1); [|apply quiet_refused].
    apply (steps_run untouched) in Hr2 as (_ & _ & E2); [|apply quiet_open]. congruence.
Qed.
End journaled.

(** ** A concrete controller

    A daemon that gives every container the same identifier, forgets a
    container when it is removed, and answers a lookup for it. *)
Section witnesses.
#[local] Existing Instance toy_json.
#[local] Existing Instance toy_manifest_json.
#[local] Existing Instance toy_workspace_json.
#[local] Existing Instance toy_sha.
#[local] Existing Instance toy_sha_laws.
#[local] Existing Instance plain_uuid.
#[local] Existing Instance plain_uuid_text.
#[local] Existing Instance plain_uuid_text_laws.
#[local] Existing Instance calm_environment.

Definition toy_container : string := "0123456789abcdef0123456789abcdef0123456789abcdef0123456789abcdef".

Definition toy_reply (argv : list string) (held : bool) : list N :=
  match argv with
  | "create"%string :: _ => bytes toy_container ++ [10%N]
  | "container"%string :: _ => if held then bytes toy_container ++ [10%N] else []
  | _ => []
  end.

Definition toy_daemon (argv : list string) (held : bool) (h : Host) : bool :=
  match argv with
  | "create"%string :: _ => true
  | "rm"%string :: _ => false
  | "container"%string :: _ => held && negb (ascii_blank (pp_written (h_stdout h)))
  | _ => held
  end.

Definition toy_meta (dir : bool) (mode : N) : FileMeta := {|
  fm_is_dir := dir; fm_is_file := negb dir; fm_is_symlink := false; fm_uid := 1000; fm_gid := 1000;
  fm_mode := mode; fm_nlink := 1; fm_dev := 1 |}.

#[local] Instance toy_controller : ControllerHost := {|
  Daemon := bool;
  ct_docker argv held := scripted_host 0 (fun _ => toy_reply argv held);
  ct_daemon := toy_daemon;
  ct_canonicalize _ path := Ok path;
  ct_metadata _ _ := Ok (toy_meta true 448);
  ct_symlink_metadata _ _ := Ok (toy_meta true 448);
  ct_mkdir _ _ := MdExists;
  ct_sync _ _ := Ok tt;
  ct_open_file _ _ := Ok (toy_meta false 384);
  ct_try_lock _ _ := Ok tt;
  ct_open_store _ := Ok tt;
  ct_open_dir _ _ _ := Ok tt;
  ct_handle_metadata _ path := Ok (toy_meta true 448);
  ct_fstatfs _ _ := Ok {| fg_type := EXT_SUPER_MAGIC; fg_block_size := 4096; fg_blocks := 16; fg_files := 16 |};
  ct_mountinfo _ := Ok [];
  ct_others _ d := d;
  request_to_vec r := Ok (bytes (gr_task_id r)) |}.

Definition toy_request : GvisorExecutionRequestV1 := {|
  gr_schema := GVISOR_REQUEST_SCHEMA_V1; gr_task_id := "t1";
  gr_image := String.append "rust@sha256:" toy_container; gr_workspace := "/w/a"; gr_workspace_quota := None;
  gr_command := ["true"%string]; gr_environment := [("K", "v")]; gr_cpu_millis := 500;
  gr_memory_bytes := 64 * 1024 * 1024; gr_pids_limit := 16; gr_guest_pids_limit := None; gr_timeout_ms := 5000;
  gr_max_capture_bytes := 1024; gr_default_deny_network := true; gr_read_only_root := true |}.

Definition toy_attempt (s : SandboxAttemptState) (handle : option string) : SandboxAttempt := {|
  sba_task_id := "t1"; sba_attempt_id := from_uuid 0; sba_backend := "docker-runsc";
  sba_request_sha256 := sha_hex (bytes "t1"); sba_workspace := "/w/a"; sba_state := s; sba_owned_handle := handle |}.

Definition toy_attempts : list SandboxAttempt :=
  [toy_attempt SbReserved None; toy_attempt SbOwned (Some toy_container); toy_attempt SbCleaned (Some toy_container)].

#[local] Instance manifest_known_gv : SerdeJson ComponentManifest := known_json [].
#[local] Instance run_known_gv : SerdeJson RunRecord := known_json [].
#[local] Instance task_known_gv : SerdeJson TaskRecord := known_json [].
#[local] Instance artifact_known_gv : SerdeJson ArtifactMeta := known_json [].
#[local] Instance workflow_known_gv : SerdeJson WorkflowRecord := known_json [].
#[local] Instance publication_known_gv : SerdeJson AuthoritativeStepPublication := known_json [].
#[local] Instance sandbox_known_gv : SerdeJson SandboxAttempt := known_json toy_attempts.
#[local] Instance attributes_known_gv : SerdeJson (gmap string string) :=
  known_json (sandbox_attributes <$> toy_attempts).
#[local] Hint Resolve known_json_laws : typeclass_instances.

#[local] Instance toy_controller_laws : ControllerLaws.
Proof.
  refine {| docker_holds held id := held = true /\ id = toy_container |}.
  - intros argv held. apply scripted_laws.
  - intros t d. by exists [].
  - intros id fuel deadline cap held h h' o _ _ _ Hb [Hh _]. cbn in Hh. rewrite Hb in Hh. by destruct held.
Defined.

Definition toy_start : Controller := mkController _ 0 idle_host fresh_database false [].

Abbreviation toy_execution :=
  (GvisorDockerExecutor_execute 200 (GvisorDockerExecutor_new "/w") toy_request toy_start).

Lemma toy_receipt : is_ok toy_execution.2 = true.
Proof. by vm_compute. Qed.

Lemma gvisor_execution_owned_witness :
  exists w' receipt, toy_execution = (w', Ok receipt) /\ cleaned_run toy_request [] w'.
Proof.
  pose proof (gvisor_execution_owned 200 (GvisorDockerExecutor_new "/w") toy_request toy_start) as Hr.
  pose proof toy_receipt as Ht. destruct toy_execution as [w' [receipt|e]]; [|discriminate Ht].
  exists w', receipt. split; [reflexivity|]. exact (proj2 Hr eq_refl).
Defined.

(** A controller died after its container was journaled; the container is
    gone since. *)
Definition crashed : Controller :=
  mkController _ 0 idle_host
    (store_run [ReserveSandbox "t1" "docker-runsc" (sha_hex (bytes "t1")) "/w/a";
                OwnSandbox "t1" (from_uuid 0) toy_container] fresh_database) false [].

Abbreviation toy_reconciliation := (reconcile_attempt 200 (GvisorDockerExecutor_new "/w") "t1" crashed).

Lemma toy_reconciled :
  toy_reconciliation.2 = Ok (toy_attempt SbCleaned (Some toy_container)) /\ length (gv_calls toy_reconciliation.1) = 1.
Proof. by vm_compute. Qed.

Lemma gvisor_reconcile_looks_witness :
  exists w', toy_reconciliation = (w', Ok (toy_attempt SbCleaned (Some toy_container))) /\
    only_looked crashed w' /\ ~ docker_holds (gv_daemon w') toy_container.
Proof.
  pose proof (gvisor_reconcile_looks 200 (GvisorDockerExecutor_new "/w") "t1" crashed) as Hr.
  pose proof toy_reconciled as [Ha Hc]. destruct toy_reconciliation as [w' r]. cbn [fst snd] in *. subst r.
  destruct Hr as [Hl Hr]. exists w'. split; [reflexivity|]. split; [exact Hl|].
  destruct (Hr _ eq_refl) as (_ & _ & [He|(id & [= <-] & Hd)]); [|exact Hd].
  rewrite He in Hc. discriminate Hc.
Defined.
End witnesses.
