(* ===== verification/Checkout.v ===== *)
(** * The digest of a checked-out tree ([hub-executor/src/workspace.rs])

    [digest_materialized_checkout]: the walk over a directory tree in the
    order of the names, which feeds every file and every symbolic link to one
    hash, and what two equal digests say about two trees. *)

From stdpp Require Import base strings list.
From S2P Require Import Prelude Text Core Digest Blobs Submit Lines.

(** What the walk meets.  Names are bytes, a directory lists its entries in
    any order, and each system call may fail: [lstat], reading a link, reading
    a directory, opening and reading a file. *)
Inductive Node :=
| NUnstatable
| NLink (target : option (list N))
| NDir (entries : list (list N * Node))
| NUnreadable
| NFile (size : N) (content : option (list ReadEvent))
| NSpecial.

(** The name of an entry and what is done with it. *)
Definition lossy_name {A} (e : list N * A) : string := from_utf8_lossy e.1.
Definition name_le {A} (a b : list N * A) : bool := bool_decide (ord_le (lossy_name a) (lossy_name b)).

(** [portable_relative_path]; the parts of [prefix] were checked before. *)
Definition portable_relative_path (prefix : option string) (name : list N) : Result string :=
  value ← ok_or (from_utf8 name) (Validation "workspace path is not valid UTF-8");
  Ok (match prefix with None => value | Some p => String.append p (String.append "/" value) end).

Section digest.
Context `{Sha256Lib}.

Abbreviation hashing A := (action DigestState CoreError A).

Definition update (bs : list N) : hashing unit := fun st => (DigestState_update st bs, Ok tt).

Definition update_frame (bs : list N) : hashing unit :=
  _ ← update (le_bytes 8 (len bs)); update bs.

(** The loop over the reads of a file, counting the bytes. *)
Fixpoint hash_file_loop (observed_len : N) (reads : list ReadEvent) : hashing N :=
  match reads with
  | [] | ReadChunk [] :: _ => mret observed_len
  | ReadChunk chunk :: reads =>
      observed_len ← lift (ok_or (checked_add_u64 observed_len (len chunk))
                             (Storage "workspace file byte count overflow"));
      _ ← update chunk;
      hash_file_loop observed_len reads
  | ReadInterrupted :: reads => hash_file_loop observed_len reads
  | ReadError :: _ => throw (Storage "reading workspace file: {error}")
  end.

Definition digest_file (relative : string) (size : N) (content : option (list ReadEvent)) : hashing unit :=
  _ ← update (bytes "F");
  _ ← update_frame (bytes relative);
  _ ← update (le_bytes 8 size);
  reads ← lift (ok_or content (Storage "opening workspace file: {error}"));
  observed_len ← hash_file_loop 0 reads;
  lift (ensure (observed_len =? size)%N (Validation "workspace file {relative:?} changed size while hashing")).

Definition digest_link (relative : string) (target : option (list N)) : hashing unit :=
  _ ← update (bytes "L");
  _ ← update_frame (bytes relative);
  target ← lift (ok_or target (Storage "reading workspace symlink: {error}"));
  target ← lift (ok_or (from_utf8 target) (Validation "workspace symlink target is not valid UTF-8"));
  update_frame (bytes target).

(** The entries of a directory, sorted, each with what is done with it; the
    root's [.git] is left out. *)
Definition digest_entries (root : bool) (entries : list (list N * hashing unit)) : hashing unit :=
  forA_ (fun e : list N * hashing unit =>
           if root && bool_decide (e.1 = bytes ".git") then mret tt else e.2)
    (sort_by name_le entries).

(** One entry of a directory with path [prefix]. *)
Fixpoint digest_node (node : Node) (prefix : option string) (name : list N) : hashing unit :=
  match node with
  | NUnstatable => throw (Storage "stating workspace entry: {error}")
  | _ =>
      relative ← lift (portable_relative_path prefix name);
      match node with
      | NLink target => digest_link relative target
      | NDir entries =>
          digest_entries false ((fun e => (e.1, digest_node e.2 (Some relative) e.1)) <$> entries)
      | NUnreadable => throw (Storage "reading workspace directory: {error}")
      | NFile size content => digest_file relative size content
      | NUnstatable | NSpecial =>
          throw (Validation "workspace entry {relative:?} is not a regular file, directory, or symlink")
      end
  end.

(** The root is what [read_dir] answers for it. *)
Definition digest_materialized_checkout (root : option (list (list N * Node))) : Result ContentDigest :=
  let '(st, r) := (entries ← lift (ok_or root (Storage "reading workspace directory: {error}"));
                   digest_entries true ((fun e => (e.1, digest_node e.2 None e.1)) <$> entries))
                    (DigestState_new DOMAIN_TASK_WORKSPACE_REPOSITORY) in
  _ ← r;
  Ok (DigestState_finalize st).
End digest.

(** ** What is digested *)
Inductive Item :=
| IFile (path : string) (content : list N)
| ILink (path target : string).

#[global] Instance Item_eq_dec : EqDecision Item.
Proof. solve_decision. Defined.

Definition framed (bs : list N) : list N := le_bytes 8 (len bs) ++ bs.

Definition encode_item (i : Item) : list N :=
  match i with
  | IFile path content => bytes "F" ++ framed (bytes path) ++ framed content
  | ILink path target => bytes "L" ++ framed (bytes path) ++ framed (bytes target)
  end.

Definition encode_items (items : list Item) : list N := items ≫= encode_item.

(** The files and links of a tree, in the order of the walk. *)
Definition items_entries (root : bool) (entries : list (list N * list Item)) : list Item :=
  sort_by name_le entries ≫= fun e => if root && bool_decide (e.1 = bytes ".git") then [] else e.2.

Definition path_of (prefix : option string) (name : list N) : string :=
  match portable_relative_path prefix name with Ok path => path | Err _ => "" end.

Fixpoint items_node (node : Node) (prefix : option string) (name : list N) : list Item :=
  let path := path_of prefix name in
  match node with
  | NLink target => [ILink path (default "" (target ≫= from_utf8))]
  | NDir entries => items_entries false ((fun e => (e.1, items_node e.2 (Some path) e.1)) <$> entries)
  | NFile _ content => [IFile path (default [] (content ≫= delivered))]
  | NUnstatable | NUnreadable | NSpecial => []
  end.

Definition checkout_items (root : list (list N * Node)) : list Item :=
  items_entries true ((fun e => (e.1, items_node e.2 None e.1)) <$> root).

(** Every directory is part of the induction. *)
Definition Node_nested_ind (P : Node -> Prop)
    (Hunstatable : P NUnstatable) (Hlink : forall target, P (NLink target))
    (Hdir : forall entries, Forall (fun e => P e.2) entries -> P (NDir entries))
    (Hunreadable : P NUnreadable) (Hfile : forall size content, P (NFile size content))
    (Hspecial : P NSpecial) : forall n, P n :=
  fix go n :=
    match n with
    | NUnstatable => Hunstatable
    | NLink target => Hlink target
    | NDir entries =>
        Hdir entries ((fix all l : Forall (fun e => P e.2) l :=
                         match l with
                         | [] => List.Forall_nil _
                         | e :: l => List.Forall_cons _ e l (go e.2) (all l)
                         end) entries)
    | NUnreadable => Hunreadable
    | NFile size content => Hfile size content
    | NSpecial => Hspecial
    end.

Lemma insert_by_Forall2 {A B} (R : A -> B -> Prop) le le' a b l k :
  (forall a a' b b', R a a' -> R b b' -> le a b = le' a' b') -> R a b -> Forall2 R l k ->
  Forall2 R (insert_by le a l) (insert_by le' b k).
Proof.
  intros Hle Hab. induction 1 as [|x y l k Hxy Hall IH]; cbn; [by repeat constructor|].
  rewrite (Hle _ _ _ _ Hab Hxy). destruct (le' b y); repeat constructor; done.
Qed.

Lemma sort_by_Forall2 {A B} (R : A -> B -> Prop) le le' l k :
  (forall a a' b b', R a a' -> R b b' -> le a b = le' a' b') -> Forall2 R l k ->
  Forall2 R (sort_by le l) (sort_by le' k).
Proof. intros Hle. induction 1; [constructor|]. by apply insert_by_Forall2. Qed.

(** Sorting looks at names only. *)
Lemma sort_by_fmap {A B} (le : B -> B -> bool) (le' : A -> A -> bool) (f : A -> B) l :
  (forall a b, le (f a) (f b) = le' a b) -> sort_by le (f <$> l) = f <$> sort_by le' l.
Proof.
  intros Hle. induction l as [|a l IH]; [done|]. change (sort_by le (f <$> a :: l)) with (insert_by le (f a) (sort_by le (f <$> l))).
  rewrite IH. change (sort_by le' (a :: l)) with (insert_by le' a (sort_by le' l)). clear IH.
  induction (sort_by le' l) as [|b k IH]; [done|]. cbn. rewrite Hle. destruct (le' a b); [done|]. cbn. by rewrite <- IH.
Qed.

Lemma sort_names {A B} (f : list N * A -> B) (l : list (list N * A)) :
  sort_by name_le ((fun e => (e.1, f e)) <$> l) = (fun e => (e.1, f e)) <$> sort_by name_le l.
Proof. by apply sort_by_fmap. Qed.

(** What fits the memory of the machine. *)
Definition item_fits (i : Item) : Prop :=
  match i with
  | IFile path content => (slen path <= u64_max /\ len content <= u64_max)%N
  | ILink path target => (slen path <= u64_max /\ slen target <= u64_max)%N
  end.

Lemma len_bytes s : len (bytes s) = slen s.
Proof. unfold len, slen. by rewrite length_bytes. Qed.

Lemma framed_inj a b x y :
  (len a <= u64_max)%N -> (len b <= u64_max)%N -> framed a ++ x = framed b ++ y -> a = b /\ x = y.
Proof.
  unfold framed. rewrite <- !app_assoc. intros Ha Hb Heq.
  apply app_inj_1 in Heq as [Hlen Heq]; [|by rewrite !length_le_bytes].
  apply le_bytes_inj in Hlen; [|unfold u64_max in *; lia..].
  apply app_inj_1 in Heq; [done|]. unfold len in Hlen. lia.
Qed.

(** The items are read back from their encoding. *)
Lemma encode_items_inj l k :
  Forall item_fits l -> Forall item_fits k -> encode_items l = encode_items k -> l = k.
Proof.
  intros Hl. revert k. induction Hl as [|i l Hi Hl IH]; intros k Hk Heq.
  { destruct Hk as [|[] k]; [done|discriminate Heq..]. }
  destruct Hk as [|j k Hj Hk]; [by destruct i|].
  unfold encode_items in Heq. cbn [mbind list_bind] in Heq. fold (encode_items l) (encode_items k) in Heq.
  destruct i as [p c|p t], j as [p' c'|p' t']; cbn [encode_item item_fits] in *; destruct Hi as [Hp Hc], Hj as [Hp' Hc'].
  - rewrite <- !app_assoc in Heq. apply app_inv_head in Heq. apply framed_inj in Heq as [Ep Heq]; [|by rewrite len_bytes..].
    apply framed_inj in Heq as [-> Heq]; [|done..]. by rewrite (bytes_inj _ _ Ep), (IH k).
  - discriminate Heq.
  - discriminate Heq.
  - rewrite <- !app_assoc in Heq. apply app_inv_head in Heq. apply framed_inj in Heq as [Ep Heq]; [|by rewrite len_bytes..].
    apply framed_inj in Heq as [Et Heq]; [|by rewrite len_bytes..].
    by rewrite (bytes_inj _ _ Ep), (bytes_inj _ _ Et), (IH k).
Qed.

(** The same tree with the entries of each directory listed otherwise. *)
Inductive relisted : Node -> Node -> Prop :=
| relisted_same n : relisted n n
| relisted_dir entries entries' listed :
    Forall2 (fun e e' => e.1 = e'.1 /\ relisted e.2 e'.2) entries entries' -> entries' ≡ₚ listed ->
    relisted (NDir entries) (NDir listed).

(** The names in a directory are pairwise different. *)
Fixpoint distinct_names (n : Node) : Prop :=
  match n with
  | NDir entries => NoDup (lossy_name <$> entries) /\ foldr and True ((fun e => distinct_names e.2) <$> entries)
  | _ => True
  end.

Lemma relisted_nested_ind (P : Node -> Node -> Prop) :
  (forall n, P n n) ->
  (forall entries entries' listed, Forall2 (fun e e' => e.1 = e'.1 /\ relisted e.2 e'.2 /\ P e.2 e'.2) entries entries' ->
     entries' ≡ₚ listed -> P (NDir entries) (NDir listed)) ->
  forall n n', relisted n n' -> P n n'.
Proof.
  intros Hsame Hdir. fix IH 3. intros n n' [m|entries entries' listed Hall Hp]; [apply Hsame|].
  apply (Hdir entries entries' listed); [|exact Hp]. clear Hp listed.
  induction Hall as [|e e' l l' [He Hr] _ IHl]; constructor; [|exact IHl]. split; [exact He|]. split; [exact Hr|]. by apply IH.
Qed.

(** Sorting by name undoes any listing. *)
Lemma sorted_listing {A} (l k : list (list N * A)) :
  NoDup (lossy_name <$> l) -> l ≡ₚ k -> sort_by name_le l = sort_by name_le k.
Proof.
  intros Hnd Hp.
  assert (Htot : forall a b : list N * A, name_le a b = true \/ name_le b a = true)
    by (intros a b; unfold name_le; rewrite !bool_decide_eq_true; apply (total ord_le)).
  assert (Htr : forall a b c : list N * A, name_le a b = true -> name_le b c = true -> name_le a c = true)
    by (intros a b c; unfold name_le; rewrite !bool_decide_eq_true; apply (transitivity (R := ord_le))).
  apply (sorted_by_key_unique name_le lossy_name).
  - intros a b. unfold name_le. rewrite !bool_decide_eq_true. apply (anti_symm ord_le).
  - by apply sort_by_sorted.
  - by apply sort_by_sorted.
  - by rewrite sort_by_perm.
  - by rewrite !sort_by_perm.
Qed.

Lemma foldr_and (l : list Prop) : foldr and True l <-> Forall id l.
Proof. induction l as [|P l IH]; cbn; [by split|]. by rewrite Forall_cons, IH. Qed.

Section digest_laws.
Context `{Sha256Laws}.

(** [m] feeds [bs] to the hash when it succeeds. *)
Definition feeds {A} (m : action DigestState CoreError A) (bs : list N) : Prop :=
  forall st st' a, m st = (st', Ok a) -> st' = DigestState_update st bs.

Lemma feeds_update bs : feeds (update bs) bs.
Proof. by intros st st' a [= <- <-]. Qed.

Lemma feeds_nothing {A} (r : Result A) : feeds (lift r) [].
Proof. intros st st' a [-> _]%lift_Ok. symmetry. apply sha_update_nil. Qed.

Lemma feeds_bind {A B} (m : action DigestState CoreError A) (f : A -> action DigestState CoreError B) bs cs :
  feeds m bs -> (forall a, feeds (f a) cs) -> feeds (m ≫= f) (bs ++ cs).
Proof.
  intros Hm Hf st st' b (st1 & a & H1' & H2')%action_bind_Ok. rewrite (Hf _ _ _ _ H2'), (Hm _ _ _ H1').
  apply sha_update_app.
Qed.

Lemma feeds_frame bs : feeds (update_frame bs) (framed bs).
Proof. unfold update_frame, framed. apply feeds_bind; [apply feeds_update|]. intros _. apply feeds_update. Qed.

Lemma hash_file_loop_Ok n reads st st' n' :
  hash_file_loop n reads st = (st', Ok n') ->
  exists content, delivered reads = Some content /\ st' = DigestState_update st content /\
    n' = (n + len content)%N /\ (n' <= u64_max \/ content = [])%N.
Proof.
  revert n st. induction reads as [|[[|b chunk]| |] reads IH]; intros n st Hr; cbn [hash_file_loop delivered] in *.
  - apply mret_Ok in Hr as [-> <-]. exists []. split_and!; [done|symmetry; apply sha_update_nil|unfold len; cbn; lia|by right].
  - apply mret_Ok in Hr as [-> <-]. exists []. split_and!; [done|symmetry; apply sha_update_nil|unfold len; cbn; lia|by right].
  - apply action_bind_Ok in Hr as (st1 & n1 & [-> Hn%ok_or_Ok]%lift_Ok & Hr).
    apply checked_add_u64_Some in Hn as [-> Hn].
    apply action_bind_Ok in Hr as (st2 & [] & [= <-] & Hr).
    apply IH in Hr as (content & -> & -> & -> & Hor). exists ((b :: chunk) ++ content). cbn [fmap option_fmap option_map].
    split_and!; [done|by unfold DigestState_update; rewrite sha_update_app| |].
    + unfold len. rewrite length_app. lia.
    + left. destruct Hor as [|Hc]; [done|]. rewrite Hc. unfold len in *. cbn [length] in *. lia.
  - by apply IH in Hr.
  - done.
Qed.

Lemma digest_file_feeds relative size content :
  feeds (digest_file relative size content) (encode_item (IFile relative (default [] (content ≫= delivered)))).
Proof.
  unfold digest_file. cbn [encode_item]. apply feeds_bind; [apply feeds_update|]. intros _.
  apply feeds_bind; [apply feeds_frame|]. intros _ st st' a Hr.
  apply action_bind_Ok in Hr as (st1 & [] & [= <-] & Hr). apply action_bind_Ok in Hr as (st2 & reads & [-> Hc%ok_or_Ok]%lift_Ok & Hr).
  apply action_bind_Ok in Hr as (st3 & n & Hn & Hr). apply lift_Ok in Hr as [-> Hs%ensure_Ok]. apply N.eqb_eq in Hs as ->.
  apply hash_file_loop_Ok in Hn as (bs & Hd & -> & -> & _). rewrite Hc. cbn [mbind option_bind]. rewrite Hd. cbn.
  unfold framed, DigestState_update. by rewrite N.add_0_l, sha_update_app.
Qed.

Lemma digest_link_feeds relative target :
  feeds (digest_link relative target) (encode_item (ILink relative (default "" (target ≫= from_utf8)))).
Proof.
  unfold digest_link. cbn [encode_item]. apply feeds_bind; [apply feeds_update|]. intros _.
  apply feeds_bind; [apply feeds_frame|]. intros _ st st' a Hr.
  apply action_bind_Ok in Hr as (st1 & t & [-> Ht%ok_or_Ok]%lift_Ok & Hr).
  apply action_bind_Ok in Hr as (st2 & text & [-> Hx%ok_or_Ok]%lift_Ok & Hr). rewrite Ht. cbn [mbind option_bind]. rewrite Hx.
  by apply feeds_frame in Hr.
Qed.

Lemma encode_items_app a b : encode_items (a ++ b) = encode_items a ++ encode_items b.
Proof. unfold encode_items. by rewrite bind_app. Qed.

Lemma feeds_entries {A} root (f : list N * A -> action DigestState CoreError unit) (g : list N * A -> list Item) entries :
  Forall (fun e => feeds (f e) (encode_items (g e))) entries ->
  feeds (digest_entries root ((fun e => (e.1, f e)) <$> entries))
    (encode_items (items_entries root ((fun e => (e.1, g e)) <$> entries))).
Proof.
  intros Hall. unfold digest_entries, items_entries. rewrite !sort_names.
  rewrite <- (sort_by_perm name_le entries) in Hall. induction Hall as [|e l He Hall IH].
  { by intros st st' a [-> _]%mret_Ok; rewrite <- (sha_update_nil st) at 1. }
  cbn [fmap list_fmap forA_ mbind list_bind]. rewrite encode_items_app. apply feeds_bind; [|by intros _].
  cbn [fst snd]. destruct (root && _); [apply (feeds_nothing (Ok tt))|exact He].
Qed.

Lemma digest_node_feeds node prefix name :
  feeds (digest_node node prefix name) (encode_items (items_node node prefix name)).
Proof.
  revert prefix name. apply (Node_nested_ind (fun node => forall prefix name,
    feeds (digest_node node prefix name) (encode_items (items_node node prefix name)))); clear node.
  - by intros prefix name st st' a Hr.
  - intros target prefix name st st' a Hr. cbn [digest_node] in Hr.
    apply action_bind_Ok in Hr as (st1 & path & [-> Hp]%lift_Ok & Hr). cbn [items_node]. unfold path_of. rewrite Hp.
    unfold encode_items. cbn [mbind list_bind]. rewrite app_nil_r. by apply digest_link_feeds in Hr.
  - intros entries IH prefix name st st' a Hr. cbn [digest_node] in Hr.
    apply action_bind_Ok in Hr as (st1 & path & [-> Hp]%lift_Ok & Hr). cbn [items_node]. unfold path_of. rewrite Hp.
    revert Hr. apply (feeds_entries false (fun e => digest_node e.2 (Some path) e.1) (fun e => items_node e.2 (Some path) e.1)).
    eapply Forall_impl; [exact IH|]. intros e He. apply He.
  - intros prefix name st st' a Hr. cbn [digest_node] in Hr.
    by apply action_bind_Ok in Hr as (st1 & path & _ & Hr).
  - intros size content prefix name st st' a Hr. cbn [digest_node] in Hr.
    apply action_bind_Ok in Hr as (st1 & path & [-> Hp]%lift_Ok & Hr). cbn [items_node]. unfold path_of. rewrite Hp.
    unfold encode_items. cbn [mbind list_bind]. rewrite app_nil_r. by apply digest_file_feeds in Hr.
  - intros prefix name st st' a Hr. cbn [digest_node] in Hr.
    by apply action_bind_Ok in Hr as (st1 & path & _ & Hr).
Qed.

(** The digest of a tree is the hash of its items. *)
Lemma checkout_digest_Ok root d :
  digest_materialized_checkout root = Ok d -> exists entries, root = Some entries /\
    d = hash_bytes DOMAIN_TASK_WORKSPACE_REPOSITORY (encode_items (checkout_items entries)).
Proof.
  unfold digest_materialized_checkout. match goal with |- context [?m (DigestState_new ?x)] => destruct (m (DigestState_new x)) as [st r] eqn:Hr end.
  intros Hd.
  apply bind_Ok in Hd as ([] & -> & [= <-]). apply action_bind_Ok in Hr as (st1 & entries & [-> Hroot%ok_or_Ok]%lift_Ok & Hr).
  exists entries. split; [done|].
  apply (feeds_entries true (fun e => digest_node e.2 None e.1) (fun e => items_node e.2 None e.1)) in Hr as ->; [done|].
  apply Forall_forall. intros e _. apply digest_node_feeds.
Qed.

(** *** Listing order *)
Definition same_entry (a b : list N * action DigestState CoreError unit) : Prop :=
  a.1 = b.1 /\ forall st, a.2 st = b.2 st.

Lemma digest_entries_same root l k st :
  Forall2 same_entry l k -> digest_entries root l st = digest_entries root k st.
Proof.
  intros Hall. assert (Hs : Forall2 same_entry (sort_by name_le l) (sort_by name_le k)).
  { apply sort_by_Forall2; [|exact Hall]. intros a a' b b' [Ha _] [Hb _]. unfold name_le, lossy_name. by rewrite Ha, Hb. }
  unfold digest_entries. revert st. induction Hs as [|a b l' k' [Hn Hf] _ IH]; intros st; [done|]. cbn [forA_].
  unfold mbind, action_bind. rewrite <- Hn. destruct (root && _); [apply IH|].
  rewrite Hf. destruct (b.2 st) as [st' [u|e]]; [apply IH|done].
Qed.

(** Entries that do the same, listed otherwise. *)
Lemma digest_entries_relisted root (f : list N * Node -> action DigestState CoreError unit) entries entries' listed st :
  NoDup (lossy_name <$> entries) -> entries' ≡ₚ listed ->
  Forall2 (fun e e' => e.1 = e'.1 /\ forall st, f e st = f e' st) entries entries' ->
  digest_entries root ((fun e => (e.1, f e)) <$> entries) st =
  digest_entries root ((fun e => (e.1, f e)) <$> listed) st.
Proof.
  intros Hnd Hp Hall.
  rewrite (digest_entries_same root _ ((fun e => (e.1, f e)) <$> entries')).
  - unfold digest_entries. rewrite (sorted_listing _ ((fun e => (e.1, f e)) <$> listed)); [done| |by rewrite Hp].
    rewrite <- list_fmap_compose. replace (lossy_name ∘ _ <$> entries') with (lossy_name <$> entries); [done|].
    clear Hnd Hp. induction Hall as [|e e' l l' [Hn _] _ IH]; [done|]. cbn. unfold lossy_name at 1. rewrite Hn. f_equal. exact IH.
  - apply Forall2_fmap. eapply Forall2_impl; [exact Hall|]. done.
Qed.

Lemma digest_node_relisted n n' :
  relisted n n' -> distinct_names n -> forall prefix name st, digest_node n prefix name st = digest_node n' prefix name st.
Proof.
  revert n n'. apply (relisted_nested_ind (fun n n' => distinct_names n -> forall prefix name st,
    digest_node n prefix name st = digest_node n' prefix name st)); [done|].
  intros entries entries' listed Hall Hp [Hnd Hsub%foldr_and] prefix name st. cbn [digest_node].
  unfold mbind, action_bind. destruct (lift _ st) as [st1 [relative|e]]; [|done].
  apply (digest_entries_relisted false (fun e => digest_node e.2 (Some relative) e.1) _ entries'); [done|done|].
  apply Forall_fmap in Hsub. clear Hnd Hp. induction Hall as [|e e' l l' (Hn & _ & IHe) _ IH]; [done|].
  apply Forall_cons in Hsub as [Hd Hsub]. constructor; [|by apply IH]. split; [done|]. intros st2. rewrite <- Hn. by apply IHe.
Qed.
End digest_laws.

Section checkout_properties.
Context `{Sha256Laws}.

(** (C11) The digest of a checkout identifies its files.  Two trees that are
    digested have the same digest when they hold the same files and symbolic
    links, with the same paths, contents and targets; and when the digests are
    the same, either they do, or SHA-256 itself collides on the two inputs
    they give.  The root's [.git] and the way files are split into reads do
    not matter. *)
Theorem checkout_digest_exact r1 r2 d1 d2 :
  Forall item_fits (checkout_items r1) -> Forall item_fits (checkout_items r2) ->
  digest_materialized_checkout (Some r1) = Ok d1 -> digest_materialized_checkout (Some r2) = Ok d2 ->
  (checkout_items r1 = checkout_items r2 -> d1 = d2) /\
  (d1 = d2 -> checkout_items r1 = checkout_items r2 \/
     sha_collide (frame DOMAIN_TASK_WORKSPACE_REPOSITORY (encode_items (checkout_items r1)))
       (frame DOMAIN_TASK_WORKSPACE_REPOSITORY (encode_items (checkout_items r2)))).
Proof.
  intros F1 F2 (? & [= <-] & ->)%checkout_digest_Ok (? & [= <-] & ->)%checkout_digest_Ok.
  split; [by intros ->|]. intros [[_ Heq]|Hc]%hash_bytes_separated; [left|by right|by vm_compute..].
  by apply encode_items_inj.
Qed.

(** The digest of a checkout does not depend on the order in which the
    file system lists its directories: listed otherwise, at every depth, a
    tree whose directories hold different names is digested to the same
    result, or fails the same way. *)
Theorem checkout_digest_canonical entries listed :
  relisted (NDir entries) (NDir listed) -> distinct_names (NDir entries) ->
  digest_materialized_checkout (Some listed) = digest_materialized_checkout (Some entries).
Proof.
  intros Hr Hd. unfold digest_materialized_checkout. cbn [ok_or].
  enough (Heq : forall st,
    digest_entries true ((fun e => (e.1, digest_node e.2 None e.1)) <$> entries) st =
    digest_entries true ((fun e => (e.1, digest_node e.2 None e.1)) <$> listed) st)
    by (unfold mbind, action_bind; cbn [lift]; by rewrite Heq).
  intros st. inversion Hr as [|es entries' ls Hall Hp]; subst; [done|]. destruct Hd as [Hnd Hsub%foldr_and].
  apply (digest_entries_relisted true (fun e => digest_node e.2 None e.1) _ entries'); [done|done|].
  apply Forall_fmap in Hsub. clear Hnd Hp Hr. induction Hall as [|e e' l l' [Hn He] _ IH]; [done|].
  apply Forall_cons in Hsub as [Hd Hsub]. constructor; [|by apply IH]. split; [done|]. intros st2. rewrite <- Hn.
  by apply digest_node_relisted.
Qed.
End checkout_properties.

(** ** Witnesses *)
Section witnesses.
#[local] Existing Instance toy_sha.
#[local] Existing Instance toy_sha_laws.

Definition file_of (content : list N) : Node :=
  NFile (len content) (Some [ReadInterrupted; ReadChunk content]).

Definition small_tree : list (list N * Node) :=
  [(bytes "src", NDir [(bytes "b.rs", file_of [1; 2]%N); (bytes "a.rs", file_of [3]%N)]);
   (bytes ".git", NDir [(bytes "HEAD", NUnstatable)]); (bytes "link", NLink (Some (bytes "src/a.rs")))].

Definition small_tree_listed : list (list N * Node) :=
  [(bytes "link", NLink (Some (bytes "src/a.rs"))); (bytes ".git", NDir [(bytes "HEAD", NUnstatable)]);
   (bytes "src", NDir [(bytes "a.rs", file_of [3]%N); (bytes "b.rs", file_of [1; 2]%N)])].

Example small_items : checkout_items small_tree =
  [ILink "link" "src/a.rs"; IFile "src/a.rs" [3]%N; IFile "src/b.rs" [1; 2]%N].
Proof. by vm_compute. Qed.

Lemma small_digests : exists d, digest_materialized_checkout (Some small_tree) = Ok d /\
  digest_materialized_checkout (Some small_tree_listed) = Ok d.
Proof. eexists. split; by vm_compute. Qed.

Lemma small_fits : Forall item_fits (checkout_items small_tree) /\ Forall item_fits (checkout_items small_tree_listed).
Proof. split; repeat constructor; by vm_compute. Qed.

Lemma checkout_digest_exact_witness : exists d, digest_materialized_checkout (Some small_tree) = Ok d /\
  (checkout_items small_tree = checkout_items small_tree_listed \/
   sha_collide (frame DOMAIN_TASK_WORKSPACE_REPOSITORY (encode_items (checkout_items small_tree)))
     (frame DOMAIN_TASK_WORKSPACE_REPOSITORY (encode_items (checkout_items small_tree_listed)))).
Proof.
  destruct small_digests as (d & Hd & Hd'). exists d. split; [exact Hd|].
  exact (proj2 (checkout_digest_exact _ _ _ _ (proj1 small_fits) (proj2 small_fits) Hd Hd') eq_refl).
Defined.

Lemma small_relisted : relisted (NDir small_tree) (NDir small_tree_listed).
Proof.
  refine (relisted_dir _ [(bytes "src", NDir [(bytes "a.rs", file_of [3]%N); (bytes "b.rs", file_of [1; 2]%N)]);
    (bytes ".git", NDir [(bytes "HEAD", NUnstatable)]); (bytes "link", NLink (Some (bytes "src/a.rs")))] _ _ _).
  - repeat constructor; cbn. eapply relisted_dir; [|apply Permutation_swap]. repeat constructor.
  - solve_Permutation.
Qed.

Lemma small_distinct : distinct_names (NDir small_tree).
Proof. repeat split; apply (bool_decide_unpack _); by vm_compute. Qed.

Lemma checkout_digest_canonical_witness :
  digest_materialized_checkout (Some small_tree_listed) = digest_materialized_checkout (Some small_tree).
Proof. exact (checkout_digest_canonical _ _ small_relisted small_distinct). Defined.
End witnesses.
