(* ===== verification/Materialize.v ===== *)
(** * Exact-revision workspaces ([hub-executor/src/workspace.rs])

    [GitWorkspaceMaterializer]: every repository of a workspace is cloned into
    a fresh directory, checked out at the exact commit, checked and digested;
    on any failure the directory is removed again. *)

From Stdlib Require Import Ascii.
From stdpp Require Import base gmap strings list pretty.
From S2P Require Import Prelude Text Core Version Digest Blobs Task Submit Lines Checkout.

(** ** The host *)
Record GitOutput := { go_success : bool; go_stdout : list N; go_stderr : list N }.

(** What the materializer asks of the host, in order. *)
Inductive HostOp :=
| OpCreateDirs (path : string)
| OpGit (argv : list string)
| OpWalk (path : string)
| OpRemoveAll (path : string).

#[global] Instance HostOp_eq_dec : EqDecision HostOp.
Proof. solve_decision. Defined.

(** The answers, each after everything that was asked before. *)
Class WorkspaceHost := {
  wh_exists : list HostOp -> string -> bool;
  wh_create : list HostOp -> string -> result string unit;
  wh_git : list HostOp -> list string -> result string GitOutput;
  wh_tree : list HostOp -> string -> option (list (list N * Node));
}.

Record MaterializedWorkspace := {
  mw_root : string;
  mw_repository_paths : gmap string string;
  mw_evidence : WorkspaceMaterializationEvidence;
}.

(** [format!("{index:04}")]. *)
Definition pad4 (n : N) : string :=
  String.append (if (n <? 10)%N then "000" else if (n <? 100)%N then "00" else if (n <? 1000)%N then "0" else "")
    (pretty n).

Section materialize.
Context `{WorkspaceHost, WorkspaceJson, Sha256Lib}.

Abbreviation bench A := (action (list HostOp) CoreError A).

Definition asked {A} (op : HostOp) (answer : list HostOp -> A) : bench A := fun ops => (ops ++ [op], Ok (answer ops)).

(** ** Git *)
Definition git_failure {A} : bench A := throw (Storage "{operation} failed with status {}: {bounded}").

Definition git_output (repository : string) (args : list string) : bench GitOutput :=
  let argv := "-C"%string :: repository :: args in
  output ← asked (OpGit argv) (fun ops => wh_git ops argv);
  lift (map_err (fun _ => Storage "starting git command: {error}") output).

Definition require_git_success (output : GitOutput) : bench unit :=
  if go_success output then mret tt else git_failure.

Definition git_stdout (repository : string) (args : list string) : bench string :=
  output ← git_output repository args;
  if negb (go_success output) then git_failure
  else stdout ← lift (ok_or (from_utf8 (go_stdout output)) (Storage "git output was not valid UTF-8"));
       mret (trim stdout).

Definition clone_argv (source destination : string) : list string :=
  ["clone"; "--quiet"; "--no-checkout"; "--no-hardlinks"; "--"; source; destination].

Definition git_clone_without_checkout (source destination : string) : bench unit :=
  output ← asked (OpGit (clone_argv source destination)) (fun ops => wh_git ops (clone_argv source destination));
  output ← lift (map_err (fun _ => Storage "starting git clone: {error}") output);
  require_git_success output.

Definition verify_commit_exists (repository revision : string) : bench unit :=
  observed ← git_stdout repository ["rev-parse"; "--verify"; String.append revision "^{commit}"];
  lift (ensure (bool_decide (observed = revision))
    (Validation "requested Git object {revision} is not the exact commit selected by rev-parse ({observed})")).

Definition reject_submodules (repository revision : string) : bench unit :=
  output ← git_stdout repository ["ls-tree"; "-r"; revision];
  lift (ensure (negb (existsb (fun line => starts_with "160000 " line) (text_lines output)))
    (Validation "workspace materializer v1 rejects Git submodules; declare them as explicit workspace repositories")).

Definition checkout_detached (repository revision : string) : bench unit :=
  output ← git_output repository ["checkout"; "--detach"; "--quiet"; revision];
  require_git_success output.

Definition status_args : list string := ["status"; "--porcelain=v1"; "--untracked-files=all"].

Definition require_clean_worktree (repository : string) : bench unit :=
  status ← git_stdout repository status_args;
  lift (ensure (bool_decide (status = ""%string)) (Validation "materialized workspace is not clean: {status:?}")).

(** ** One repository *)
Definition relative_path (index : nat) : string := String.append "repos/" (pad4 (N.of_nat index)).

Definition trusted_source (source : string) : bool :=
  negb (bool_decide (source = ""%string) || negb (is_trimmed source) || existsb is_control (chars source)).

Definition materialize_repository (root : string) (sources : gmap string string)
    (ir : nat * WorkspaceRepository) : bench (string * MaterializedRepositoryEvidence) :=
  let '(index, repository) := ir in
  let revision := wrep_revision repository in
  source ← lift (ok_or (sources !! wrep_repository repository)
                   (Validation "no trusted workspace source configured for repository {:?}"));
  _ ← lift (ensure (trusted_source source) (Validation "workspace source for repository {:?} is malformed"));
  let relative := relative_path index in
  let destination := path_join root relative in
  made ← asked (OpCreateDirs (path_join root "repos")) (fun ops => wh_create ops (path_join root "repos"));
  _ ← lift (map_err (fun _ => Storage "creating repository parent directory: {error}") made);
  _ ← git_clone_without_checkout source destination;
  _ ← verify_commit_exists destination revision;
  _ ← reject_submodules destination revision;
  _ ← checkout_detached destination revision;
  observed_revision ← git_stdout destination ["rev-parse"; "--verify"; "HEAD"];
  _ ← lift (ensure (bool_decide (observed_revision = revision))
              (Validation "repository {} materialized HEAD {} instead of requested {}"));
  tree_id ← git_stdout destination ["rev-parse"; "--verify"; "HEAD^{tree}"];
  _ ← require_clean_worktree destination;
  walked ← asked (OpWalk destination) (fun ops => digest_materialized_checkout (wh_tree ops destination));
  content_digest ← lift walked;
  _ ← require_clean_worktree destination;
  mret (relative,
        {| mre_repository := wrep_repository repository; mre_requested_revision := revision;
           mre_observed_revision := observed_revision; mre_tree_id := tree_id;
           mre_content_digest := content_digest; mre_read_only_requested := wrep_read_only repository |}).

(** ** The workspace *)
Definition materialize_created_root (spec : WorkspaceSpec) (root : string) (sources : gmap string string)
    : bench MaterializedWorkspace :=
  done ← mapA (materialize_repository root sources) (imap pair (wspec_repositories spec));
  evidence ← lift (WorkspaceMaterializationEvidence_new spec (snd <$> done));
  _ ← lift (WorkspaceMaterializationEvidence_validate_against evidence spec);
  mret {| mw_root := root; mw_repository_paths := collect_map (fun d => mre_repository d.2) fst done;
          mw_evidence := evidence |}.

Definition materialize (spec : WorkspaceSpec) (root : string) (sources : gmap string string)
    : bench MaterializedWorkspace :=
  _ ← lift (WorkspaceSpec_validate spec);
  _ ← reads (fun ops => ensure (negb (wh_exists ops root))
        (Validation "workspace root {:?} already exists; refusing to reuse mutable state"));
  made ← asked (OpCreateDirs root) (fun ops => wh_create ops root);
  _ ← lift (map_err (fun _ => Storage "creating workspace root: {error}") made);
  result ← attempt (materialize_created_root spec root sources);
  match result with
  | Ok workspace => mret workspace
  | Err e => _ ← asked (OpRemoveAll root) (fun _ => tt); throw e
  end.
End materialize.

(** ** What a materialized workspace was checked to be *)
Section materialized.
Context `{WH : WorkspaceHost, WJ : WorkspaceJson, SH : Sha256Lib}.

Abbreviation bench A := (action (list HostOp) CoreError A).

Definition git_op (repository : string) (args : list string) : HostOp := OpGit ("-C"%string :: repository :: args).

(** After [ops], Git answers [args] with [text]. *)
Definition git_says (ops : list HostOp) (repository : string) (args : list string) (text : string) : Prop :=
  exists output stdout, wh_git ops ("-C"%string :: repository :: args) = Ok output /\ go_success output = true /\
    from_utf8 (go_stdout output) = Some stdout /\ trim stdout = text.

Lemma git_stdout_Ok repository args ops ops' text :
  git_stdout repository args ops = (ops', Ok text) ->
  ops' = ops ++ [git_op repository args] /\ git_says ops repository args text.
Proof.
  unfold git_stdout, git_output. intros Hr. apply action_bind_Ok in Hr as (o1 & output & Ho & Hr).
  apply action_bind_Ok in Ho as (o2 & answer & [= <- <-] & Ho). apply lift_Ok in Ho as [-> Ho%map_err_Ok].
  destruct (go_success output) eqn:Hs; cbn [negb] in Hr; [|done]. act_inv.
  split; [done|]. by exists output, r.
Qed.

(** The questions asked for one repository. *)
Definition repository_ops (root : string) (sources : gmap string string) (ir : nat * WorkspaceRepository)
    : list HostOp :=
  let destination := path_join root (relative_path ir.1) in
  let revision := wrep_revision ir.2 in
  [OpCreateDirs (path_join root "repos");
   OpGit (clone_argv (default ""%string (sources !! wrep_repository ir.2)) destination);
   git_op destination ["rev-parse"; "--verify"; String.append revision "^{commit}"];
   git_op destination ["ls-tree"; "-r"; revision];
   git_op destination ["checkout"; "--detach"; "--quiet"; revision];
   git_op destination ["rev-parse"; "--verify"; "HEAD"];
   git_op destination ["rev-parse"; "--verify"; "HEAD^{tree}"];
   git_op destination status_args;
   OpWalk destination;
   git_op destination status_args].

(** The history before the [k]-th of them. *)
Definition asked_before (root : string) (sources : gmap string string) (ir : nat * WorkspaceRepository)
    (ops : list HostOp) (k : nat) : list HostOp := ops ++ take k (repository_ops root sources ir).

(** What the answers were: the commit exists and is not an abbreviation, it
    has no submodule, HEAD is that commit, and the tree that was digested was
    clean before and after. *)
Record repository_exact (root : string) (sources : gmap string string) (ir : nat * WorkspaceRepository)
    (ops : list HostOp) (done : string * MaterializedRepositoryEvidence) : Prop := {
  re_source : exists source, sources !! wrep_repository ir.2 = Some source /\ trusted_source source = true;
  re_path : done.1 = relative_path ir.1;
  re_evidence : done.2 = {| mre_repository := wrep_repository ir.2; mre_requested_revision := wrep_revision ir.2;
    mre_observed_revision := wrep_revision ir.2; mre_tree_id := mre_tree_id done.2;
    mre_content_digest := mre_content_digest done.2; mre_read_only_requested := wrep_read_only ir.2 |};
  re_commit : git_says (asked_before root sources ir ops 2) (path_join root (relative_path ir.1))
    ["rev-parse"; "--verify"; String.append (wrep_revision ir.2) "^{commit}"]%string (wrep_revision ir.2);
  re_submodules : exists listing, git_says (asked_before root sources ir ops 3)
    (path_join root (relative_path ir.1)) ["ls-tree"; "-r"; wrep_revision ir.2]%string listing /\
    forall line, line ∈ text_lines listing -> starts_with "160000 " line = false;
  re_head : git_says (asked_before root sources ir ops 5) (path_join root (relative_path ir.1))
    ["rev-parse"; "--verify"; "HEAD"]%string (wrep_revision ir.2);
  re_tree : git_says (asked_before root sources ir ops 6) (path_join root (relative_path ir.1))
    ["rev-parse"; "--verify"; "HEAD^{tree}"]%string (mre_tree_id done.2);
  re_clean : git_says (asked_before root sources ir ops 7) (path_join root (relative_path ir.1)) status_args "";
  re_digest : digest_materialized_checkout
    (wh_tree (asked_before root sources ir ops 8) (path_join root (relative_path ir.1))) = Ok (mre_content_digest done.2);
  re_still_clean : git_says (asked_before root sources ir ops 9) (path_join root (relative_path ir.1)) status_args "";
}.

Lemma git_clone_Ok source destination ops ops' u :
  git_clone_without_checkout source destination ops = (ops', Ok u) ->
  ops' = ops ++ [OpGit (clone_argv source destination)].
Proof.
  intros (o & answer & [= <- _] & (o' & output & [-> _]%lift_Ok & Hr)%action_bind_Ok)%action_bind_Ok.
  unfold require_git_success in Hr. destruct (go_success output); [|done]. by apply mret_Ok in Hr as [-> _].
Qed.

Lemma verify_commit_Ok repository revision ops ops' u :
  verify_commit_exists repository revision ops = (ops', Ok u) ->
  ops' = ops ++ [git_op repository ["rev-parse"; "--verify"; String.append revision "^{commit}"]%string] /\
  git_says ops repository ["rev-parse"; "--verify"; String.append revision "^{commit}"]%string revision.
Proof.
  by intros (o & text & [-> Hs]%git_stdout_Ok & [-> ->%ensure_Ok%bool_decide_eq_true]%lift_Ok)%action_bind_Ok.
Qed.

Lemma reject_submodules_Ok repository revision ops ops' u :
  reject_submodules repository revision ops = (ops', Ok u) ->
  ops' = ops ++ [git_op repository ["ls-tree"; "-r"; revision]%string] /\
  exists listing, git_says ops repository ["ls-tree"; "-r"; revision]%string listing /\
    forall line, line ∈ text_lines listing -> starts_with "160000 " line = false.
Proof.
  intros (o & listing & [-> Hs]%git_stdout_Ok & [-> Hn%ensure_Ok]%lift_Ok)%action_bind_Ok. split; [done|].
  exists listing. split; [done|]. intros line Hl. destruct (starts_with _ line) eqn:E; [|done].
  apply negb_true_iff, not_true_iff_false in Hn. destruct Hn. apply existsb_exists. exists line.
  split; [by apply list_elem_of_In|done].
Qed.

Lemma checkout_detached_Ok repository revision ops ops' u :
  checkout_detached repository revision ops = (ops', Ok u) ->
  ops' = ops ++ [git_op repository ["checkout"; "--detach"; "--quiet"; revision]%string].
Proof.
  intros (o & output & (o' & answer & [= <- _] & [-> _]%lift_Ok)%action_bind_Ok & Hr)%action_bind_Ok.
  unfold require_git_success in Hr. destruct (go_success output); [|done]. by apply mret_Ok in Hr as [-> _].
Qed.

Lemma require_clean_Ok repository ops ops' u :
  require_clean_worktree repository ops = (ops', Ok u) ->
  ops' = ops ++ [git_op repository status_args] /\ git_says ops repository status_args "".
Proof.
  by intros (o & text & [-> Hs]%git_stdout_Ok & [-> ->%ensure_Ok%bool_decide_eq_true]%lift_Ok)%action_bind_Ok.
Qed.

Lemma materialize_repository_Ok root sources ir ops ops' done :
  materialize_repository root sources ir ops = (ops', Ok done) ->
  ops' = ops ++ repository_ops root sources ir /\ repository_exact root sources ir ops done.
Proof.
  destruct ir as [index repository]. unfold materialize_repository. intros Hr. cbv zeta in Hr.
  apply action_bind_Ok in Hr as (o & source & [-> Hsource%ok_or_Ok]%lift_Ok & Hr).
  apply action_bind_Ok in Hr as (o & [] & [-> Htrust%ensure_Ok]%lift_Ok & Hr).
  apply action_bind_Ok in Hr as (o & made & [= <- _] & Hr).
  apply action_bind_Ok in Hr as (o & [] & [-> _]%lift_Ok & Hr).
  apply action_bind_Ok in Hr as (o & [] & ->%git_clone_Ok & Hr).
  apply action_bind_Ok in Hr as (o & [] & [-> Hcommit]%verify_commit_Ok & Hr).
  apply action_bind_Ok in Hr as (o & [] & [-> Hsub]%reject_submodules_Ok & Hr).
  apply action_bind_Ok in Hr as (o & [] & ->%checkout_detached_Ok & Hr).
  apply action_bind_Ok in Hr as (o & observed & [-> Hhead]%git_stdout_Ok & Hr).
  apply action_bind_Ok in Hr as (o & [] & [-> ->%ensure_Ok%bool_decide_eq_true]%lift_Ok & Hr).
  apply action_bind_Ok in Hr as (o & tree & [-> Htree]%git_stdout_Ok & Hr).
  apply action_bind_Ok in Hr as (o & [] & [-> Hclean]%require_clean_Ok & Hr).
  apply action_bind_Ok in Hr as (o & walked & [= <- <-] & Hr).
  apply action_bind_Ok in Hr as (o & digest & [-> Hdigest]%lift_Ok & Hr).
  apply action_bind_Ok in Hr as (o & [] & [-> Hclean']%require_clean_Ok & Hr). apply mret_Ok in Hr as [-> <-].
  rewrite <- !app_assoc in *. cbn [app] in *. split.
  - unfold repository_ops. cbn [fst snd]. by rewrite Hsource.
  - split; unfold asked_before, repository_ops; cbn [fst snd take mre_tree_id mre_content_digest];
      rewrite ?Hsource; cbn [default from_option id]; try done. by exists source.
Qed.

(** A loop whose iterations each extend the history. *)
Lemma mapA_history {A B} (f : A -> bench B) (asks : A -> list HostOp) (P : A -> list HostOp -> B -> Prop) xs ops ops' ys :
  (forall x ops ops' y, f x ops = (ops', Ok y) -> ops' = ops ++ asks x /\ P x ops y) ->
  mapA f xs ops = (ops', Ok ys) ->
  ops' = ops ++ mjoin (asks <$> xs) /\ length ys = length xs /\
  forall i x y, xs !! i = Some x -> ys !! i = Some y -> P x (ops ++ mjoin (asks <$> take i xs)) y.
Proof.
  intros Hf. revert ops ys. induction xs as [|x xs IH]; intros ops ys Hr; cbn [mapA] in Hr.
  - apply mret_Ok in Hr as [-> <-]. split_and!; [by rewrite app_nil_r|done|]. intros i x y Hi. by rewrite lookup_nil in Hi.
  - apply action_bind_Ok in Hr as (o & y & [-> Hy]%Hf & Hr). apply action_bind_Ok in Hr as (o' & ys' & Hys & Hr).
    apply mret_Ok in Hr as [-> <-]. apply IH in Hys as (-> & Hl & Hall). split_and!.
    + cbn. by rewrite <- app_assoc.
    + cbn. by rewrite Hl.
    + intros [|i] x' y' Hx Hy'; cbn in Hx, Hy'; [injection Hx as <-; injection Hy' as <-; cbn; by rewrite app_nil_r|].
      specialize (Hall i x' y' Hx Hy'). cbn. by rewrite <- app_assoc in Hall.
Qed.

(** *** The history only grows *)
#[local] Instance history_preorder : PreOrder (prefix (A := HostOp)) := _.
#[local] Hint Extern 0 (PreOrder prefix) => apply history_preorder : steps.

Lemma grows_asked {A} op (f : list HostOp -> A) : steps prefix (asked op f).
Proof. intros ops. by exists [op]. Qed.
#[local] Hint Resolve grows_asked : steps.

Lemma grows_git_output repository args : steps prefix (git_output repository args).
Proof. unfold git_output. solve_steps. Qed.
#[local] Hint Resolve grows_git_output : steps.

Lemma grows_git_stdout repository args : steps prefix (git_stdout repository args).
Proof. unfold git_stdout, git_failure. solve_steps. Qed.
#[local] Hint Resolve grows_git_stdout : steps.

Lemma grows_repository root sources ir : steps prefix (materialize_repository root sources ir).
Proof.
  unfold materialize_repository, git_clone_without_checkout, verify_commit_exists, reject_submodules,
    checkout_detached, require_clean_worktree, require_git_success, git_failure. solve_steps.
Qed.
#[local] Hint Resolve grows_repository : steps.

Lemma grows_created_root spec root sources : steps prefix (materialize_created_root spec root sources).
Proof.
  unfold materialize_created_root. apply steps_bind; [apply _| |intros done; solve_steps].
  apply (steps_mapA prefix). intros ir _. apply grows_repository.
Qed.

(** The workspace and its evidence agree on every repository. *)
Definition workspace_exact (spec : WorkspaceSpec) (root : string) (sources : gmap string string)
    (ops : list HostOp) (m : MaterializedWorkspace) : Prop :=
  mw_root m = root /\
  WorkspaceMaterializationEvidence_validate_against (mw_evidence m) spec = Ok tt /\
  forall index repository, wspec_repositories spec !! index = Some repository ->
    mw_repository_paths m !! wrep_repository repository = Some (relative_path index) /\
    exists evidence, evidence ∈ wme_repositories (mw_evidence m) /\
      repository_exact root sources (index, repository)
        (ops ++ mjoin (repository_ops root sources <$> take index (imap pair (wspec_repositories spec))))
        (relative_path index, evidence).

Lemma created_root_Ok spec root sources ops ops' m :
  WorkspaceSpec_validate spec = Ok tt ->
  materialize_created_root spec root sources ops = (ops', Ok m) ->
  ops' = ops ++ mjoin (repository_ops root sources <$> imap pair (wspec_repositories spec)) /\
  workspace_exact spec root sources ops m.
Proof.
  intros (_ & Hnd & _)%WorkspaceSpec_validate_Ok (o & dones & Hd & Hr)%action_bind_Ok.
  apply action_bind_Ok in Hr as (o1 & evidence & [-> He]%lift_Ok & Hr).
  apply action_bind_Ok in Hr as (o2 & [] & [-> Hv]%lift_Ok & [-> <-]%mret_Ok).
  apply (mapA_history _ (repository_ops root sources) (repository_exact root sources)) in Hd as (-> & Hlen & Hall);
    [|intros; by apply materialize_repository_Ok].
  rewrite length_imap in Hlen. split; [done|]. split; [done|]. split; [exact Hv|]. cbn [mw_repository_paths mw_evidence].
  apply evidence_new_Ok in He as (_ & _ & _ & Hrep & _).
  assert (Hnames : (fun d : string * MaterializedRepositoryEvidence => mre_repository d.2) <$> dones =
                   wrep_repository <$> wspec_repositories spec).
  { apply list_eq_same_length with (length (wspec_repositories spec)); [by rewrite length_fmap|by rewrite length_fmap, Hlen|].
    intros i x y Hi Hx Hy. apply list_lookup_fmap_Some in Hx as (d & -> & Hdi), Hy as (r & -> & Hri).
    assert (Hir : imap pair (wspec_repositories spec) !! i = Some (i, r)) by (by rewrite list_lookup_imap, Hri).
    destruct (Hall i _ _ Hir Hdi) as [_ _ Hev _ _ _ _ _ _ _]. by rewrite Hev. }
  intros index repository Hi.
  assert (Hir : imap pair (wspec_repositories spec) !! index = Some (index, repository)) by (by rewrite list_lookup_imap, Hi).
  destruct (lookup_lt_is_Some_2 dones index) as [[path ev] Hdone]; [rewrite Hlen; by eapply lookup_lt_Some|].
  pose proof (Hall index _ _ Hir Hdone) as Hex. pose proof (re_path _ _ _ _ _ Hex) as Hp. cbn in Hp. subst path.
  pose proof (re_evidence _ _ _ _ _ Hex) as Hev. cbn [snd] in Hev. split.
  - apply collect_map_lookup; [by rewrite Hnames|]. exists (relative_path index, ev).
    split_and!; [by eapply list_elem_of_lookup_2|cbn; by rewrite Hev|done].
  - exists ev. split; [|exact Hex]. rewrite Hrep, sort_by_perm. apply list_elem_of_fmap.
    exists (relative_path index, ev). split; [done|]. by eapply list_elem_of_lookup_2.
Qed.

(** (C12) Workspaces are materialized exactly or not at all.  A workspace that
    is materialized went to a fresh root, and for every repository, in a
    directory of its own: it came from its configured source, its HEAD is the
    very commit that was asked for, that commit has no submodule, and the
    files that the evidence's digest is of were a clean work tree before and
    after they were read; the evidence revalidates.  Otherwise nothing was
    asked of the host, the root could not be created, or the last thing that
    was asked is the removal of the root. *)
Theorem materialize_exact spec root sources ops :
  let '(ops', r) := materialize spec root sources ops in
  (forall m, r = Ok m -> wh_exists ops root = false /\
     ops' = ops ++ OpCreateDirs root :: mjoin (repository_ops root sources <$> imap pair (wspec_repositories spec)) /\
     workspace_exact spec root sources (ops ++ [OpCreateDirs root]) m) /\
  (is_ok r = false -> ops' = ops \/
     (ops' = ops ++ [OpCreateDirs root] /\ is_ok (wh_create ops root) = false) \/
     exists asked, ops' = ops ++ OpCreateDirs root :: asked ++ [OpRemoveAll root]).
Proof.
  unfold materialize, mbind, action_bind. cbn [lift].
  destruct (WorkspaceSpec_validate spec) as [[]|e] eqn:Hv; [|by split; [|left]]. cbn [reads].
  destruct (wh_exists ops root) eqn:Hx; cbn [negb ensure]; [by split; [|left]|]. cbn [asked].
  destruct (wh_create ops root) as [[]|e]; cbn [map_err lift]; [|by split; [|right; left]].
  unfold attempt. destruct (materialize_created_root spec root sources (ops ++ [OpCreateDirs root])) as [o [m|e]] eqn:Hr; cbn.
  - split; [|done]. intros ? [= <-]. apply created_root_Ok in Hr as [-> Hw]; [|done].
    split_and!; [done|by rewrite <- app_assoc|done].
  - split; [done|]. intros _. right; right. apply (steps_run prefix) in Hr as [k ->]; [|apply grows_created_root].
    exists k. by rewrite <- !app_assoc.
Qed.
End materialized.

(** ** A concrete host

    Git says what is expected of it; every work tree holds the same files. *)
Section example.
#[local] Existing Instance toy_sha.
#[local] Existing Instance toy_workspace_json.

Definition toy_git (argv : list string) : GitOutput :=
  {| go_success := true; go_stderr := [];
     go_stdout := match argv with
                  | _ :: _ :: "rev-parse"%string :: _ => bytes sample_oid ++ [10%N]
                  | _ :: _ :: "ls-tree"%string :: _ => bytes "100644 blob 0123	a.rs"
                  | _ => []
                  end |}.

#[local] Instance toy_workspace_host : WorkspaceHost := {|
  wh_exists _ _ := false;
  wh_create _ _ := Ok tt;
  wh_git _ argv := Ok (toy_git argv);
  wh_tree _ _ := Some small_tree |}.

Definition toy_sources : gmap string string :=
  {[ "org/zeta" := "/srv/git/zeta"; "org/alpha" := "https://git.example/alpha" ]}.

Example toy_materialized :
  let '(ops, r) := materialize sample_workspace "/w" toy_sources [] in
  length ops = 21 /\
  match r with
  | Ok m => mw_repository_paths m = {[ "org/zeta" := "repos/0000"; "org/alpha" := "repos/0001" ]}
  | Err _ => False
  end.
Proof. by vm_compute. Qed.

(** Without a configured source, the root is removed again. *)
Example toy_unconfigured :
  (materialize sample_workspace "/w" ∅ []).1 = [OpCreateDirs "/w"; OpRemoveAll "/w"].
Proof. by vm_compute. Qed.
End example.
