(* ===== verification/Mcp.v ===== *)
(** * The MCP bridge ([hub-mcp/src/lib.rs], [hub-mcp/src/main.rs])

    JSON-RPC requests, one per line, answered from what the hub's HTTP API
    says: the adapter, its tools, and the loop over standard input.  The hub is
    behind the interface [HubFetcher]; [McpHub] puts the API there. *)

From Stdlib Require Import Ascii.
From stdpp Require Import base gmap strings list pretty.
From S2P Require Import Prelude Text Core Digest Blobs Task Submit Lines.

(** ** JSON values *)
Inductive Number :=
| PosInt (n : N)
| NegInt (z : Z)
| Float (text : string).

Inductive Value :=
| VNull
| VBool (b : bool)
| VNumber (n : Number)
| VString (s : string)
| VArray (items : list Value)
| VObject (fields : list (string * Value)).

(** [value.get(key)]: the fields of an object have different names. *)
Fixpoint assoc {A} (key : string) (fields : list (string * A)) : option A :=
  match fields with
  | [] => None
  | (k, a) :: fields => if decide (k = key) then Some a else assoc key fields
  end.

Definition value_get (key : string) (v : Value) : option Value :=
  match v with VObject fields => assoc key fields | _ => None end.

Definition as_str (v : Value) : option string := match v with VString s => Some s | _ => None end.
Definition as_bool (v : Value) : option bool := match v with VBool b => Some b | _ => None end.
Definition as_u64 (v : Value) : option N := match v with VNumber (PosInt n) => Some n | _ => None end.

Definition object (fields : list (string * Value)) : Value := VObject fields.

(** [serde_json] between values and text. *)
Class ValueJson := {
  value_from_str : string -> option Value;
  value_to_string : Value -> string;
  value_to_string_pretty : Value -> option string;
}.

(** How the adapter reaches a hub, whose state is [World]. *)
Class HubFetcher (World : Type) := {
  get_json : string -> action World string Value;
  post_json : string -> Value -> action World string Value;
}.

Definition JSONRPC_VERSION : string := "2.0".
Definition MCP_PROTOCOL_VERSION : string := "2025-06-18".
Definition PARSE_ERROR : Z := -32700.
Definition METHOD_NOT_FOUND : Z := -32601.
Definition INVALID_PARAMS : Z := -32602.

(** ** Paths *)
Definition require_id (raw : option string) : result string string :=
  match raw with
  | Some id => if decide (id = ""%string) then Err "missing required string argument: id"%string else Ok id
  | None => Err "missing required string argument: id"%string
  end.

Definition unreserved (b : N) : bool :=
  is_ascii_lowercase b || is_ascii_uppercase b || is_ascii_digit b ||
  (b =? 45)%N || (b =? 95)%N || (b =? 46)%N || (b =? 126)%N.

(** A digit of [{:X}]. *)
Definition upper_hex_digit (n : N) : N := if (n <? 10)%N then (48 + n)%N else (55 + n)%N.

(** The bytes of [urlencoded(value)]. *)
Definition urlencoded_bytes (bs : list N) : list N :=
  bs ≫= fun b => if unreserved b then [b] else [37%N; upper_hex_digit (b / 16); upper_hex_digit (b mod 16)].

Definition urlencoded (value : string) : string := string_of_bytes (urlencoded_bytes (bytes value)).

(** ** The tools *)
Section catalog.
Abbreviation text s := (VString s).

Definition schema (properties : Value) (required : list string) : Value :=
  object ([("type", text "object"); ("properties", properties)] ++
          match required with [] => [] | _ => [("required"%string, VArray (VString <$> required))] end).

Definition tool (name description : string) (input : Value) : Value :=
  object [("name", text name); ("description", text description); ("inputSchema", input)].

Definition id_property : Value := object [("id", object [("type", text "string")])].

Definition tool_descriptions : list Value := [
  tool "hub.status" "Hub readiness: registered components, recorded runs, executor backend" (schema (object []) []);
  tool "hub.list_components" "List registered components, optionally filtered by declared capability"
    (schema (object [("capability", object [("type", text "string");
                       ("description", text "capability name filter such as demo.echo")])]) []);
  tool "hub.get_component" "Fetch one component manifest by UUID" (schema id_property ["id"%string]);
  tool "hub.list_runs" "List recorded runs with lifecycle states" (schema (object []) []);
  tool "hub.get_run" "Fetch one run record including full provenance" (schema id_property ["id"%string]);
  tool "hub.list_workflows" "List recorded multi-step workflows" (schema (object []) []);
  tool "hub.get_workflow" "Fetch one workflow record with per-step results" (schema id_property ["id"%string]);
  tool "hub.list_events" "Read the Hub append-only lifecycle event stream using a sequence cursor"
    (schema (object [("after", object [("type", text "integer"); ("minimum", VNumber (PosInt 0))]);
                     ("limit", object [("type", text "integer"); ("minimum", VNumber (PosInt 1));
                                       ("maximum", VNumber (PosInt 1000))])]) []);
  tool "hub.list_artifacts" "List artifact metadata (digests, sizes)" (schema (object []) []);
  tool "hub.get_artifact" "Fetch artifact metadata; optionally inline text content"
    (schema (object [("id", object [("type", text "string")]);
                     ("include_content", object [("type", text "boolean")])]) ["id"%string])
].
End catalog.

Section adapter.
Context `{ValueJson} {World : Type} `{!HubFetcher World} (pkg_version : string).

Abbreviation fetch := (action World string Value).

Definition get_with_id (prefix : string) (id : option string) (suffix : string) : fetch :=
  id ← lift (require_id id); get_json (joined_text [prefix; id; suffix]).

(** What a tool asks the hub; [None] for an unknown tool. *)
Definition tool_fetch (name : string) (arguments : Value) : option fetch :=
  let arg key := value_get key arguments ≫= as_str in
  let called := fun s => bool_decide (name = s) in
  if called "hub.status"%string then Some (get_json "/ready")
  else if called "hub.list_components"%string then
    Some match arg "capability"%string with
         | Some capability => get_json (String.append "/api/v1/components?capability=" (urlencoded capability))
         | None => get_json "/api/v1/components"
         end
  else if called "hub.get_component"%string then Some (get_with_id "/api/v1/components/" (arg "id"%string) "")
  else if called "hub.list_runs"%string then Some (get_json "/api/v1/runs")
  else if called "hub.get_run"%string then Some (get_with_id "/api/v1/runs/" (arg "id"%string) "")
  else if called "hub.list_workflows"%string then Some (get_json "/api/v1/workflows")
  else if called "hub.get_workflow"%string then Some (get_with_id "/api/v1/workflows/" (arg "id"%string) "")
  else if called "hub.list_events"%string then
    let after := default 0%N (value_get "after" arguments ≫= as_u64) in
    let limit := default 100%N (value_get "limit" arguments ≫= as_u64) in
    Some (get_json (joined_text ["/api/v1/events?after="; pretty after; "&limit="; pretty limit]))
  else if called "hub.list_artifacts"%string then Some (get_json "/api/v1/artifacts")
  else if called "hub.get_artifact"%string then
    let suffix := if default false (value_get "include_content" arguments ≫= as_bool)
                  then "?include=content"%string else ""%string in
    Some (get_with_id "/api/v1/artifacts/" (arg "id"%string) suffix)
  else None.

Definition text_content (text : string) : string * Value :=
  ("content"%string, VArray [object [("type", VString "text"); ("text", VString text)]]).

Definition tool_failure (message : string) : Value := object [text_content message; ("isError", VBool true)].

Definition handle_tool_call (params : option Value) : action World (Z * string) Value :=
  params ← lift (ok_or params (INVALID_PARAMS, "tools/call requires params"%string));
  let name := default ""%string (value_get "name" params ≫= as_str) in
  let arguments := default (object []) (value_get "arguments" params) in
  match tool_fetch name arguments with
  | None => mret (tool_failure (String.append "unknown tool: " name))
  | Some fetch =>
      fetched ← attempt fetch;
      mret match fetched with
           | Ok value => object [text_content (default (value_to_string value) (value_to_string_pretty value))]
           | Err message => tool_failure message
           end
  end.

(** ** Requests *)
Definition McpAdapter_error_response (id : option Value) (code : Z) (message : string) : Value :=
  object [("jsonrpc", VString JSONRPC_VERSION); ("id", default VNull id);
          ("error", object [("code", VNumber (NegInt code)); ("message", VString message)])].

Definition dispatch (method : string) (request : Value) : action World (Z * string) Value :=
  let called := fun s => bool_decide (method = s) in
  if called "initialize"%string then
    mret (object [("protocolVersion", VString MCP_PROTOCOL_VERSION);
                  ("serverInfo", object [("name", VString "scirust-hub-mcp"); ("version", VString pkg_version)]);
                  ("capabilities", object [("tools", object [])])])
  else if called "ping"%string then mret (object [])
  else if called "tools/list"%string then mret (object [("tools"%string, VArray tool_descriptions)])
  else if called "resources/list"%string then mret (object [("resources"%string, VArray [])])
  else if called "prompts/list"%string then mret (object [("prompts"%string, VArray [])])
  else if called "tools/call"%string then handle_tool_call (value_get "params" request)
  else throw (METHOD_NOT_FOUND, String.append "unknown method: " method).

Definition handle_request (request : Value) : World -> World * option Value := fun w =>
  match value_get "method" request ≫= as_str with
  | None => (w, Some (McpAdapter_error_response (value_get "id" request) INVALID_PARAMS "missing method"))
  | Some method =>
      let id := value_get "id" request in
      if bool_decide (method = "notifications/initialized"%string) ||
         bool_decide (method = "notifications/cancelled"%string) then (w, None)
      else
        let '(w, result) := dispatch method request w in
        (w, match id with
            | None => None
            | Some _ =>
                Some match result with
                     | Ok value => object [("jsonrpc", VString JSONRPC_VERSION); ("id", default VNull id); ("result", value)]
                     | Err (code, message) => McpAdapter_error_response id code message
                     end
            end)
  end.

Definition handle_line (line : string) : World -> World * result unit (option string) := fun w =>
  match value_from_str line with
  | Some request => let '(w, reply) := handle_request request w in (w, Ok (value_to_string <$> reply))
  | None => (w, Err tt)
  end.

Definition parse_error : Value :=
  object [("jsonrpc", VString JSONRPC_VERSION); ("id", VNull);
          ("error", object [("code", VNumber (NegInt PARSE_ERROR));
                            ("message", VString "parse error: line is not valid JSON")])].

(** ** Standard input and output

    A line that cannot be read ends the loop, and so does a reply that cannot
    be written; [stdout n] says whether the [n]-th write succeeds. *)
Fixpoint serve_lines (stdout : nat -> bool) (n : nat) (lines : list (option string)) : World -> World * list string :=
  fun w =>
  match lines with
  | [] | None :: _ => (w, [])
  | Some line :: lines =>
      if bool_decide (trim line = ""%string) then serve_lines stdout n lines w
      else
        let '(w, answer) := handle_line line w in
        match answer with
        | Ok None => serve_lines stdout n lines w
        | Ok (Some reply) =>
            if stdout n then let '(w, written) := serve_lines stdout (S n) lines w in (w, reply :: written)
            else (w, [])
        | Err _ =>
            let '(w, written) := serve_lines stdout (S n) lines w in
            (w, if stdout n then value_to_string parse_error :: written else written)
        end
  end.
End adapter.

(** ** Round trip of query values *)

(** [%XY] and plain bytes, as a server decodes them. *)
Definition hex_digit_of (c : N) : option N :=
  if is_ascii_digit c then Some (c - 48)%N
  else if in_range 65 70 c then Some (c - 55)%N
  else if in_range 97 102 c then Some (c - 87)%N
  else None.

Fixpoint percent_decode (bs : list N) : option (list N) :=
  match bs with
  | [] => Some []
  | b :: rest =>
      if (b =? 37)%N then
        match rest with
        | h :: l :: rest =>
            h ← hex_digit_of h; l ← hex_digit_of l; cons (16 * h + l)%N <$> percent_decode rest
        | _ => None
        end
      else cons b <$> percent_decode rest
  end.

Lemma hex_digit_roundtrip n : (n < 16)%N -> hex_digit_of (upper_hex_digit n) = Some n.
Proof.
  intros Hn. unfold upper_hex_digit, hex_digit_of, is_ascii_digit, in_range. destruct (N.ltb_spec n 10).
  - rewrite (proj2 (N.leb_le 48 (48 + n))), (proj2 (N.leb_le (48 + n) 57)) by lia. cbn. f_equal. lia.
  - rewrite (proj2 (N.leb_gt (55 + n) 57)), andb_false_r by lia.
    rewrite (proj2 (N.leb_le 65 (55 + n))), (proj2 (N.leb_le (55 + n) 70)) by lia. cbn. f_equal. lia.
Qed.

Lemma unreserved_spec b : unreserved b = true ->
  (97 <= b <= 122 \/ 65 <= b <= 90 \/ 48 <= b <= 57 \/ b = 45 \/ b = 95 \/ b = 46 \/ b = 126)%N.
Proof.
  unfold unreserved, is_ascii_lowercase, is_ascii_uppercase, is_ascii_digit.
  rewrite !orb_true_iff, !in_range_spec, !N.eqb_eq. lia.
Qed.

Lemma urlencoded_bytes_decode bs :
  Forall (fun b => b < 256)%N bs -> percent_decode (urlencoded_bytes bs) = Some bs.
Proof.
  induction 1 as [|b bs Hb _ IH]; [done|]. unfold urlencoded_bytes. cbn [mbind list_bind]. fold (urlencoded_bytes bs).
  destruct (unreserved b) eqn:Hu.
  - apply unreserved_spec in Hu. cbn [app percent_decode]. destruct (N.eqb_spec b 37); [lia|]. by rewrite IH.
  - cbn [app percent_decode]. rewrite N.eqb_refl, !hex_digit_roundtrip.
    + cbn [mbind option_bind]. rewrite IH. cbn. f_equal. f_equal. pose proof (N.div_mod b 16). lia.
    + by apply N.Div0.div_lt_upper_bound.
    + apply N.mod_lt. lia.
Qed.

Definition query_safe (b : N) : bool := unreserved b || (b =? 37)%N.

Lemma urlencoded_bytes_safe bs : Forall (fun b => b < 256)%N bs ->
  Forall (fun b => query_safe b = true) (urlencoded_bytes bs).
Proof.
  induction 1 as [|b bs Hb _ IH]; [done|]. unfold urlencoded_bytes. cbn [mbind list_bind].
  apply Forall_app. split; [|exact IH]. destruct (unreserved b) eqn:Hu.
  - repeat constructor. unfold query_safe. by rewrite Hu.
  - assert (Hd : forall n, (n < 16)%N -> query_safe (upper_hex_digit n) = true).
    { intros n Hn. unfold query_safe, unreserved, upper_hex_digit, is_ascii_uppercase, is_ascii_digit.
      rewrite !orb_true_iff, !in_range_spec. destruct (N.ltb_spec n 10); lia. }
    repeat constructor; [apply Hd|apply Hd]; [by apply N.Div0.div_lt_upper_bound|apply N.mod_lt; lia].
Qed.

Lemma bytes_bound s : Forall (fun b => b < 256)%N (bytes s).
Proof. unfold bytes. apply Forall_fmap, Forall_forall. intros c _. apply N_ascii_bounded. Qed.

Lemma bytes_string_of bs : Forall (fun b => b < 256)%N bs -> bytes (string_of_bytes bs) = bs.
Proof.
  intros Hb. unfold bytes, string_of_bytes. rewrite String.list_ascii_of_string_of_list_ascii.
  induction Hb as [|b bs Hb _ IH]; [done|]. cbn. by rewrite N_ascii_embedding, IH.
Qed.

(** Query values survive.  What the bridge puts into a query string is
    made of unreserved characters and percent escapes only, so that it cannot
    add a parameter or leave the query, and decodes to exactly the value that
    was given. *)
Theorem urlencoded_roundtrip value :
  Forall (fun b => query_safe b = true) (bytes (urlencoded value)) /\
  percent_decode (bytes (urlencoded value)) = Some (bytes value).
Proof.
  pose proof (urlencoded_bytes_safe _ (bytes_bound value)) as Hs. unfold urlencoded. rewrite bytes_string_of.
  - split; [exact Hs|]. apply urlencoded_bytes_decode, bytes_bound.
  - eapply Forall_impl; [exact Hs|]. intros b. cbv beta. unfold query_safe. rewrite orb_true_iff, N.eqb_eq.
    intros [Hu| ->]; [|done]. apply unreserved_spec in Hu. lia.
Qed.

(** ** What a session asks of the hub *)

(** The paths of the tools. *)
Inductive asked : string -> Prop :=
| ask_list path :
    path ∈ ["/ready"; "/api/v1/components"; "/api/v1/runs"; "/api/v1/workflows"; "/api/v1/artifacts"]%string ->
    asked path
| ask_capability capability : asked (String.append "/api/v1/components?capability=" (urlencoded capability))
| ask_events (after limit : N) : asked (joined_text ["/api/v1/events?after="; pretty after; "&limit="; pretty limit])
| ask_one prefix id suffix :
    id <> ""%string ->
    (prefix, suffix) ∈ [("/api/v1/components/", ""); ("/api/v1/runs/", ""); ("/api/v1/workflows/", "");
                        ("/api/v1/artifacts/", ""); ("/api/v1/artifacts/", "?include=content")]%string ->
    asked (joined_text [prefix; id; suffix]).

Section asks.
Context `{ValueJson} {World : Type} `{!HubFetcher World} (pkg_version : string).

(** [w'] is [w] after at most one [get_json], of a path of the tools. *)
Definition at_most_a_get (w w' : World) : Prop := w' = w \/ exists path, asked path /\ w' = (get_json path w).1.

Lemma with_id_asks prefix id suffix w :
  (prefix, suffix) ∈ [("/api/v1/components/", ""); ("/api/v1/runs/", ""); ("/api/v1/workflows/", "");
                      ("/api/v1/artifacts/", ""); ("/api/v1/artifacts/", "?include=content")]%string ->
  at_most_a_get w (get_with_id prefix id suffix w).1.
Proof.
  intros Hin. unfold get_with_id, mbind, action_bind, lift. destruct id as [id|]; [|by left]. cbn [require_id].
  destruct (decide (id = ""%string)) as [|Hid]; [by left|]. right. eexists. split; [by apply (ask_one prefix id suffix)|done].
Qed.

#[local] Ltac listed := repeat (first [apply list_elem_of_here|apply list_elem_of_further]).

Lemma tool_asks name arguments fetch w : tool_fetch name arguments = Some fetch -> at_most_a_get w (fetch w).1.
Proof.
  unfold tool_fetch. cbv zeta beta.
  repeat (destruct (bool_decide _); [intros [= <-]|]); [..|done].
  1, 4, 6, 9: right; eexists; (split; [|done]); apply ask_list; listed.
  - destruct (_ ≫= as_str) as [capability|]; right; eexists; (split; [|done]); [apply ask_capability|apply ask_list; listed].
  - apply with_id_asks. listed.
  - apply with_id_asks. listed.
  - apply with_id_asks. listed.
  - right. eexists. split; [apply ask_events|done].
  - apply with_id_asks. destruct (default _ _); listed.
Qed.

Lemma dispatch_asks method request w : at_most_a_get w (dispatch pkg_version method request w).1.
Proof.
  unfold dispatch. cbv zeta beta. repeat (destruct (bool_decide _); [try by left|]); [|by left].
  unfold handle_tool_call, mbind at 1, action_bind at 1, lift.
  destruct (value_get "params" request) as [params|]; [|by left]. cbn [ok_or].
  destruct (tool_fetch _ _) as [fetch|] eqn:Hf; [|by left]. apply (tool_asks _ _ _ w) in Hf.
  unfold mbind, action_bind, attempt. by destruct (fetch w) as [w' r].
Qed.

Lemma line_asks line w : at_most_a_get w (handle_line pkg_version line w).1.
Proof.
  unfold handle_line. destruct (value_from_str line) as [request|]; [|by left].
  unfold handle_request. destruct (value_get _ _ ≫= as_str) as [method|]; [|by left]. cbv zeta.
  destruct (_ || _); [by left|]. pose proof (dispatch_asks method request w) as Hd.
  by destruct (dispatch pkg_version method request w).
Qed.

(** A session is a sequence of GETs, at most one for each line. *)
Lemma session_asks stdout n lines w :
  exists paths, Forall asked paths /\ length paths <= length lines /\
    (serve_lines pkg_version stdout n lines w).1 = foldl (fun w path => (get_json path w).1) w paths.
Proof.
  assert (Hmore : forall line w1 w2 (rest : list (option string)) paths, at_most_a_get w1 w2 ->
    Forall asked paths -> length paths <= length rest ->
    exists paths', Forall asked paths' /\ length paths' <= length (Some line :: rest) /\
      foldl (fun w path => (get_json path w).1) w2 paths = foldl (fun w path => (get_json path w).1) w1 paths').
  { intros line w1 w2 rest paths [->|(path & Hp & ->)] Hps Hlen.
    - exists paths. split_and!; [done|cbn; lia|done].
    - exists (path :: paths). split_and!; [by constructor|cbn; lia|done]. }
  revert n w. induction lines as [|[line|] lines IH]; intros n w; cbn [serve_lines];
    [by exists []|destruct (bool_decide _)|exists []; split_and!; [done|cbn; lia|done]].
  - destruct (IH n w) as (paths & ? & ? & ->). apply (Hmore line w w); [by left|done..].
  - pose proof (line_asks line w) as Hl. destruct (handle_line pkg_version line w) as [w1 answer]. cbn [fst] in Hl.
    assert (Hnext : forall n, exists paths, Forall asked paths /\ length paths <= length (Some line :: lines) /\
      (serve_lines pkg_version stdout n lines w1).1 = foldl (fun w path => (get_json path w).1) w paths).
    { intros n'. destruct (IH n' w1) as (paths & ? & ? & ->). by apply Hmore. }
    destruct answer as [[reply|]|[]]; [|apply Hnext|].
    + destruct (stdout n); [specialize (Hnext (S n)); by destruct (serve_lines _ _ _ _ _)|].
      destruct (Hmore line w w1 lines []) as (paths & ? & ? & Hp); [done|done|cbn; lia|]. by exists paths.
    + specialize (Hnext (S n)). by destruct (serve_lines _ _ _ _ _).
Qed.
End asks.

(** ** Replies *)
Section replies.
Context `{ValueJson} {World : Type} `{!HubFetcher World} (pkg_version : string).

Definition tool_names : list string := omap (fun v => value_get "name" v ≫= as_str) tool_descriptions.

Definition tool_names_list : list string :=
  Eval vm_compute in tool_names.

(** The tools whose schema requires an identifier. *)
Definition requires_id (name : string) : bool :=
  existsb (fun v => bool_decide (value_get "name" v ≫= as_str = Some name) &&
                    is_some (value_get "inputSchema" v ≫= value_get "required")) tool_descriptions.

(** The reply to a request. *)
Definition reply_to (request reply : Value) : Prop :=
  value_get "jsonrpc" reply = Some (VString "2.0") /\
  value_get "id" reply = Some (default VNull (value_get "id" request)) /\
  is_some (value_get "result" reply) = negb (is_some (value_get "error" reply)).

(** Is it this tool? *)
Ltac case_name name :=
  match goal with |- context [if bool_decide (name = ?s) then _ else _] =>
    destruct (bool_decide_reflect (name = s)) as [->|?] end.

Lemma error_reply request code message : reply_to request (McpAdapter_error_response (value_get "id" request) code message).
Proof. done. Qed.

(** The catalog and the replies are consistent.  The tools that can be
    called are exactly those the catalog lists; one whose schema requires an
    identifier and is called without asks the hub nothing and reports an
    error; a request is answered once, under its own identifier, with a
    result or an error and never both; and only a notification is not
    answered. *)
Theorem mcp_replies (w : World) :
  (forall name arguments, is_some (tool_fetch name arguments) = bool_decide (name ∈ tool_names)) /\
  (forall name arguments fetch, requires_id name = true ->
     is_ok (require_id (value_get "id" arguments ≫= as_str)) = false ->
     tool_fetch name arguments = Some fetch -> exists message, fetch w = (w, Err message)) /\
  (forall request, match (handle_request pkg_version request w).2 with
     | Some reply => reply_to request reply
     | None => exists method, value_get "method" request = Some (VString method) /\
         (value_get "id" request = None \/ method = "notifications/initialized"%string \/
          method = "notifications/cancelled"%string)
     end).
Proof.
  split; [|split].
  - intros name arguments. unfold tool_fetch. cbv zeta beta.
    repeat (case_name name; [by rewrite bool_decide_eq_true_2 by (apply (bool_decide_unpack _); by vm_compute)|]).
    rewrite bool_decide_eq_false_2; [done|]. change tool_names with tool_names_list. unfold tool_names_list. set_solver.
  - intros name arguments fetch Hreq Hid Hf.
    assert (Hno : forall prefix suffix, exists message, get_with_id prefix (value_get "id" arguments ≫= as_str) suffix w = (w, Err message)).
    { intros prefix suffix. unfold get_with_id, mbind at 1, action_bind, lift.
      destruct (require_id _) as [id|message]; [done|by exists message]. }
    revert Hf. unfold tool_fetch. cbv zeta beta.
    repeat (case_name name; [first [discriminate Hreq|intros [= <-]; apply Hno]|]). done.
  - intros request. unfold handle_request. destruct (value_get "method" request ≫= as_str) as [method|] eqn:Hm; [|apply error_reply].
    assert (Hm' : value_get "method" request = Some (VString method)).
    { destruct (value_get "method" request) as [[]|]; cbn in Hm; try done. congruence. }
    cbv zeta. destruct (_ || _) eqn:Hn.
    { exists method. split; [done|]. right.
      by apply orb_true_iff in Hn as [Hn|Hn]; apply bool_decide_eq_true in Hn; [left|right]. }
    destruct (dispatch pkg_version method request w) as [w1 r]. cbn [snd].
    destruct (value_get "id" request) as [id|] eqn:Hid; [|by exists method; split; [|left]].
    unfold reply_to. rewrite Hid. by destruct r as [v|[code message]].
Qed.
End replies.
