(* ===== verification/McpHub.v ===== *)
(** * The MCP bridge in front of the API

    [HttpHub] of [hub-mcp/src/lib.rs]: what the bridge fetches or posts is
    answered by the router of [hub-api].  No session of the bridge posts, and
    none changes the hub. *)

From stdpp Require Import base gmap strings list pretty.
From S2P Require Import Prelude Text Core Version Digest Machine Blobs Component Run Workflow Task.
From S2P Require Import TaskLifecycle Publication Event Memory Ports Exec Scicapsule Hub Submit Execute.
From S2P Require Import Attempts Reads Metrics Wire Auth Api ApiSafety Lines Mcp.

(** The HTTP client: the path and headers it makes of a URL, and the JSON it reads
    from the response; other statuses than success, and other bodies, are
    errors. *)
Class UrlClient `{JsonLib} := {
  url_path : string -> string;
  url_headers : string -> gmap string string;
  into_json : HttpResponse -> result string Value;
}.

Record HttpHub := { hh_base_url : string; hh_bearer_token : option string }.

(** An empty token is no token. *)
Definition HttpHub_new (base_url : string) (token : option string) : HttpHub :=
  {| hh_base_url := base_url;
     hh_bearer_token := match token with Some t => if decide (t = ""%string) then None else Some t | None => None end |}.

(** [self.authorized(request)]: the bearer token is added when there is one. *)
Definition HttpHub_authorized (hub : HttpHub) (rq : Request) : Request :=
  match hh_bearer_token hub with
  | Some token => {| rq_method := rq_method rq; rq_path := rq_path rq; rq_body := rq_body rq;
                     rq_headers := <["authorization" := String.append "Bearer " token]> (rq_headers rq) |}
  | None => rq
  end.

(** [ureq::get(url)], and [ureq::post(url)] as [send_json] sends it. *)
Definition authorized_get `{UrlClient} (hub : HttpHub) (path : string) : Request :=
  let url := String.append (hh_base_url hub) path in
  HttpHub_authorized hub {| rq_method := GET; rq_path := url_path url; rq_body := []; rq_headers := url_headers url |}.

Definition authorized_post `{UrlClient, ValueJson} (hub : HttpHub) (path : string) (body : Value) : Request :=
  let url := String.append (hh_base_url hub) path in
  HttpHub_authorized hub {| rq_method := POST; rq_path := url_path url; rq_body := bytes (value_to_string body);
                            rq_headers := <["content-type" := "application/json"]> (url_headers url) |}.

Section hub.
Context `{JsonLib, ManifestJson, Sha256Lib, Environment, UuidLib} {UT : UuidText}.
Context {backend : Executor} {WF : WebFramework} {UC : UrlClient} `{ValueJson}.
Context {Store Fences : Type} `{!Repositories Store, !Listings Store, !LifecycleEventRepository Store}.
Context `{!PublicationFenceRepository Fences}.
Context (limits : Limits) (blob_root workdir_root path_var pkg_version mcp_version : string).
Context (execute_workflow : WorkflowId -> action (Orchestrator Store Fences) CoreError WorkflowRecord).
Context (hub : HttpHub).

Abbreviation state := (HubState (Store := Store) (Fences := Fences)).
Abbreviation serve := (router (backend := backend) limits blob_root workdir_root path_var pkg_version execute_workflow).

(** The hub, and the requests sent to it so far. *)
Abbreviation wire := (state * list Request)%type.

Definition http_send (rq : Request) : action wire string Value := fun '(st, sent) =>
  let '(st, rs) := serve rq st in ((st, sent ++ [rq]), into_json rs).

#[local] Instance http_hub : HubFetcher wire := {|
  get_json path := http_send (authorized_get hub path);
  post_json path body := http_send (authorized_post hub path body) |}.

Lemma authorized_get_method path : rq_method (authorized_get hub path) = GET.
Proof. unfold authorized_get, HttpHub_authorized. by destruct (hh_bearer_token hub). Qed.

Lemma gets_read paths (st : state) sent :
  let '(st', sent') := foldl (fun w path => (get_json path w).1) (st, sent) paths in
  unchanged st st' /\ sent' = sent ++ (authorized_get hub <$> paths).
Proof.
  revert st sent. induction paths as [|path paths IH]; intros st sent.
  { split; [reflexivity|by rewrite app_nil_r]. }
  cbn [foldl get_json http_hub http_send]. set (rq := authorized_get hub path).
  assert (Hu : unchanged st (serve rq st).1) by (apply get_serve_unchanged; left; apply authorized_get_method).
  destruct (serve rq st) as [st1 rs]. cbn [fst] in *. specialize (IH st1 (sent ++ [rq])).
  destruct (foldl _ _ paths) as [st' sent']. destruct IH as [Hu' ->]. split; [by etrans|].
  by rewrite <- app_assoc.
Qed.

(** (C40) The MCP bridge only reads.  Whatever lines come in, in whatever
    order, whatever tools they call with whatever arguments, and whether or
    not replies can be written: a session sends the hub nothing but GET
    requests, though its connection can also post; each is the request for
    one of the paths of the tool catalogue, with the bearer token of the
    bridge, and there is at most one for each line; and the session leaves
    the repositories, the event log, the fences and the principals of the hub
    as they were. *)
Theorem mcp_session_reads stdout n lines (st : state) :
  let '(st', sent) := (serve_lines mcp_version stdout n lines (st, [])).1 in
  unchanged st st' /\ Forall (fun rq => rq_method rq = GET) sent /\
  exists paths, sent = authorized_get hub <$> paths /\ Forall asked paths /\ length paths <= length lines.
Proof.
  destruct (session_asks mcp_version stdout n lines (st, [])) as (paths & Hp & Hlen & ->).
  pose proof (gets_read paths st []) as Hr. destruct (foldl _ _ paths) as [st' sent]. destruct Hr as [Hu ->].
  split; [done|]. split; [|by exists paths].
  apply Forall_fmap, Forall_forall. intros path _. apply authorized_get_method.
Qed.
End hub.
