(* ===== verification/RemoteOps.v ===== *)
(** * Documents of RemoteOps
      ([hub-core/src/remoteops_qualification.rs], [remoteops_host_snapshot.rs])

    The strict consumers of two documents of another system: a backend
    qualification, from which a descriptor is made that claims no more than the
    document says, and a host snapshot, which is diagnostic only. *)

From Stdlib Require Import Ascii.
From stdpp Require Import base gmap strings list.
From S2P Require Import Prelude Text Core Version Digest Component Run Workflow Task TaskLifecycle Mcp.

(** ** Backend qualification *)
Definition REMOTEOPS_BACKEND_QUALIFICATION_V2_SCHEMA : string := "remoteops.backend-qualification/v2".
Definition MAX_REMOTEOPS_QUALIFICATION_JSON_BYTES : N := 16 * 1024.
Definition MAX_REMOTEOPS_BACKEND_NAME_BYTES : N := 128.
Definition MAX_REMOTEOPS_EVIDENCE_ID_BYTES : N := 256.

Inductive RemoteOpsIsolationV2 := SupervisedProcess | Container | UserspaceKernel | MicroVm.

#[global] Instance RemoteOpsIsolationV2_eq_dec : EqDecision RemoteOpsIsolationV2.
Proof. solve_decision. Defined.

Definition to_hub (i : RemoteOpsIsolationV2) : IsolationLevel :=
  match i with
  | SupervisedProcess => IsoProcess
  | Container => IsoContainer
  | UserspaceKernel => IsoGvisor
  | MicroVm => IsoMicroVm
  end.

Record RemoteOpsControlsV2 := {
  rc_network_egress : bool;
  rc_default_deny_network : bool;
  rc_resource_limits : bool;
}.

Record RemoteOpsBackendQualificationV2 := {
  roq_backend : string;
  roq_isolation : RemoteOpsIsolationV2;
  roq_isolation_qualified : bool;
  roq_controls : RemoteOpsControlsV2;
  roq_evidence_id : option string;
}.

Record RemoteOpsBackendQualificationWireV2 := {
  row_schema : string;
  row_backend : string;
  row_isolation : RemoteOpsIsolationV2;
  row_isolation_qualified : bool;
  row_controls : RemoteOpsControlsV2;
  row_evidence_id : Value;
}.

Inductive RemoteOpsQualificationError :=
| QDocumentTooLarge
| QInvalidJson
| QUnsupportedSchema
| QInvalidBackend
| QInvalidEvidence
| QMissingEvidence
| QSupervisedProcessCannotBeQualified.

(** [value.to_ascii_lowercase()]. *)
Fixpoint to_ascii_lowercase (s : string) : string :=
  match s with
  | EmptyString => EmptyString
  | String c s =>
      String (if is_ascii_uppercase (N_of_ascii c) then ascii_of_N (N_of_ascii c + 32) else c) (to_ascii_lowercase s)
  end.

Definition secret_markers : list string := ["token="; "api_key="; "apikey="; "secret="; "-----begin"].

Definition validate_label (value : string) (maximum : N) (error : RemoteOpsQualificationError)
    : result RemoteOpsQualificationError unit :=
  let lower := to_ascii_lowercase value in
  let contains_secret_marker := existsb (fun marker => contains_str marker lower) secret_markers in
  ensure (negb (bool_decide (value = "") || (maximum <? slen value)%N || negb (is_trimmed value) ||
                existsb is_control (chars value) || contains_secret_marker)) error.

(** [serde_json] on the two documents, unknown fields being refused. *)
Class RemoteOpsJson := {
  qualification_from_str : string -> option RemoteOpsBackendQualificationWireV2;
}.

Section qualification.
Context `{RemoteOpsJson}.

Definition RemoteOpsBackendQualificationV2_parse (json : string)
    : result RemoteOpsQualificationError RemoteOpsBackendQualificationV2 :=
  _ ← ensure (slen json <=? MAX_REMOTEOPS_QUALIFICATION_JSON_BYTES)%N QDocumentTooLarge;
  wire ← ok_or (qualification_from_str json) QInvalidJson;
  _ ← ensure (bool_decide (row_schema wire = REMOTEOPS_BACKEND_QUALIFICATION_V2_SCHEMA)) QUnsupportedSchema;
  evidence_id ← match row_evidence_id wire with
                | VNull => Ok None
                | VString value => Ok (Some value)
                | _ => Err QInvalidJson
                end;
  _ ← validate_label (row_backend wire) MAX_REMOTEOPS_BACKEND_NAME_BYTES QInvalidBackend;
  _ ← ensure (negb (bool_decide (row_isolation wire = SupervisedProcess) && row_isolation_qualified wire))
        QSupervisedProcessCannotBeQualified;
  let controls := row_controls wire in
  let claims_qualification := row_isolation_qualified wire || rc_network_egress controls ||
                              rc_default_deny_network controls || rc_resource_limits controls in
  _ ← match evidence_id with
      | Some evidence_id => validate_label evidence_id MAX_REMOTEOPS_EVIDENCE_ID_BYTES QInvalidEvidence
      | None => ensure (negb claims_qualification) QMissingEvidence
      end;
  Ok {| roq_backend := row_backend wire; roq_isolation := row_isolation wire;
        roq_isolation_qualified := row_isolation_qualified wire; roq_controls := row_controls wire;
        roq_evidence_id := evidence_id |}.
End qualification.

Definition ResourceEnforcement_default : ResourceEnforcement := {|
  re_wall_clock_ms := false; re_cpu_millis := false; re_memory_bytes := false; re_gpu_devices := false;
  re_model_tokens := false |}.

Definition to_sandbox_backend_descriptor (q : RemoteOpsBackendQualificationV2) : SandboxBackendDescriptor := {|
  sbd_backend_id := roq_backend q;
  sbd_isolation := to_hub (roq_isolation q);
  sbd_isolation_qualified := roq_isolation_qualified q;
  sbd_isolation_evidence_id := if roq_isolation_qualified q then roq_evidence_id q else None;
  sbd_enforces_network_policy := rc_network_egress (roq_controls q);
  sbd_enforces_default_deny_network := rc_default_deny_network (roq_controls q);
  sbd_enforces_workspace_write_policy := false;
  sbd_resources := ResourceEnforcement_default;
  sbd_capabilities := mkCapabilitySet [] |}.

(** ** Host snapshot *)
Definition REMOTEOPS_HOST_CAPABILITY_SNAPSHOT_V1_SCHEMA : string := "remoteops.host-capability-snapshot/v1".
Definition MAX_REMOTEOPS_HOST_CAPABILITY_SNAPSHOT_BYTES : N := 16 * 1024.

Record CommandObservation := {
  co_present : bool;
  co_executable : option string;
  co_version : option string;
}.

Inductive LimitObservation := LimitUnknown | LimitUnbounded | LimitLimited (value : N).

Record HostSandboxObservationsV1 := {
  hs_schema_version : N;
  hs_os : string;
  hs_arch : string;
  hs_cgroup_v2 : bool;
  hs_unprivileged_userns_clone : option bool;
  hs_seccomp_mode : option N;
  hs_apparmor_enabled : option bool;
  hs_kvm_accessible : bool;
  hs_bubblewrap : CommandObservation;
  hs_podman : CommandObservation;
  hs_docker : CommandObservation;
  hs_runsc : CommandObservation;
  hs_firecracker : CommandObservation;
  hs_unshare : CommandObservation;
  hs_systemd_run : CommandObservation;
}.

Record HostResourceObservationsV2 := {
  hr_schema_version : N;
  hr_cpu_logical_count : option N;
  hr_memory_total_bytes : option N;
  hr_cgroup_cpu_quota_millis : LimitObservation;
  hr_cgroup_memory_limit_bytes : LimitObservation;
}.

Record SnapshotWire := {
  sw_schema : string;
  sw_observed_at_unix_seconds : N;
  sw_trust_status : string;
  sw_host_sandbox_observations : HostSandboxObservationsV1;
  sw_host_resource_observations : HostResourceObservationsV2;
}.

Record RemoteOpsHostCapabilitySnapshotV1 := {
  rs_observed_at_unix_seconds : N;
  rs_host_sandbox_observations : HostSandboxObservationsV1;
  rs_host_resource_observations : HostResourceObservationsV2;
}.

Inductive HostSnapshotError :=
| SDocumentTooLarge
| SInvalidJson
| SUnsupportedSchema
| SInvalidTrustStatus
| SUnsupportedSandboxSchema
| SUnsupportedResourceSchema
| SInvalidObservation.

Definition valid_platform (value : string) : bool :=
  negb (bool_decide (value = "")) && (slen value <=? 64)%N &&
  forallb (fun b => is_ascii_alphanumeric b || (b =? 95)%N || (b =? 45)%N || (b =? 46)%N) (bytes value).

Definition probe_text (maximum : N) (text : option string) : bool :=
  match text with
  | Some s => negb (bool_decide (s = ""%string)) && (slen s <=? maximum)%N && negb (existsb is_control (chars s))
  | None => true
  end.

Definition valid_probe (probe : CommandObservation) : bool :=
  if negb (co_present probe) && (is_some (co_executable probe) || is_some (co_version probe)) then false
  else probe_text 4096 (co_executable probe) && probe_text 512 (co_version probe).

Class SnapshotJson := { snapshot_from_str : string -> option SnapshotWire }.

Definition RemoteOpsHostCapabilitySnapshotV1_parse `{SnapshotJson} (json : string)
    : result HostSnapshotError RemoteOpsHostCapabilitySnapshotV1 :=
  _ ← ensure (slen json <=? MAX_REMOTEOPS_HOST_CAPABILITY_SNAPSHOT_BYTES)%N SDocumentTooLarge;
  wire ← ok_or (snapshot_from_str json) SInvalidJson;
  _ ← ensure (bool_decide (sw_schema wire = REMOTEOPS_HOST_CAPABILITY_SNAPSHOT_V1_SCHEMA)) SUnsupportedSchema;
  _ ← ensure (bool_decide (sw_trust_status wire = "unsigned_observation"%string)) SInvalidTrustStatus;
  let sandbox := sw_host_sandbox_observations wire in
  _ ← ensure (hs_schema_version sandbox =? 1)%N SUnsupportedSandboxSchema;
  let resources := sw_host_resource_observations wire in
  _ ← ensure (hr_schema_version resources =? 2)%N SUnsupportedResourceSchema;
  _ ← ensure (negb (negb (valid_platform (hs_os sandbox)) || negb (valid_platform (hs_arch sandbox)) ||
                    bool_decide (hr_cpu_logical_count resources = Some 0%N) ||
                    bool_decide (hr_memory_total_bytes resources = Some 0%N) ||
                    existsb (fun probe => negb (valid_probe probe))
                      [hs_bubblewrap sandbox; hs_podman sandbox; hs_docker sandbox; hs_runsc sandbox;
                       hs_firecracker sandbox; hs_unshare sandbox; hs_systemd_run sandbox])) SInvalidObservation;
  Ok {| rs_observed_at_unix_seconds := sw_observed_at_unix_seconds wire;
        rs_host_sandbox_observations := sandbox; rs_host_resource_observations := resources |}.

(** ** What an imported qualification admits *)
Lemma validate_label_Ok value maximum error u :
  validate_label value maximum error = Ok u ->
  valid_bounded_token maximum value = true /\
  forall marker, marker ∈ secret_markers -> contains_str marker (to_ascii_lowercase value) = false.
Proof.
  unfold validate_label. intros Hl%ensure_Ok%negb_true_iff. cbv zeta in Hl.
  rewrite !orb_false_iff in Hl. destruct Hl as ((((Hne & Hlen) & Htrim) & Hctl) & Hsec). split.
  - unfold valid_bounded_token. rewrite Hne, Hctl. apply N.ltb_ge in Hlen. apply negb_false_iff in Htrim.
    by rewrite (proj2 (N.leb_le _ _) Hlen), Htrim.
  - intros marker Hm. destruct (contains_str marker _) eqn:E; [|done]. apply not_true_iff_false in Hsec. destruct Hsec.
    apply existsb_exists. exists marker. split; [by apply list_elem_of_In|done].
Qed.

Lemma bounded_token_weaken small large value :
  (small <= large)%N -> valid_bounded_token small value = true -> valid_bounded_token large value = true.
Proof.
  unfold valid_bounded_token. rewrite !andb_true_iff, !N.leb_le. intros Hle [[[? ?] ?] ?]. split_and!; try done. lia.
Qed.

(** What an imported document allows: only what it qualifies, no resource
    dimension at all. *)
Record within_qualification (q : RemoteOpsBackendQualificationV2) (task : TaskSpec) : Prop := {
  wq_isolation : (isolation_rank (sb_minimum_isolation (ts_sandbox task)) <= isolation_rank (to_hub (roq_isolation q)))%N;
  wq_qualified : roq_isolation q = SupervisedProcess \/ roq_isolation_qualified q = true;
  wq_endpoints : np_allowed_endpoints (sb_network (ts_sandbox task)) <> [] -> rc_network_egress (roq_controls q) = true;
  wq_deny : np_default_deny (sb_network (ts_sandbox task)) = true -> rc_default_deny_network (roq_controls q) = true;
  wq_workspace : sb_writable_workspace (ts_sandbox task) = true;
  wq_budget : ts_budget task = {| rb_cpu_millis := None; rb_memory_bytes := None; rb_wall_clock_ms := None;
                                  rb_gpu_devices := None; rb_model_tokens := None |};
  wq_capabilities : capability_grants (ts_capabilities task) = [];
}.

Lemma satisfies_imported q task :
  backend_satisfies (to_sandbox_backend_descriptor q) task <->
  (isolation_rank (sb_minimum_isolation (ts_sandbox task)) <= isolation_rank (to_hub (roq_isolation q)))%N /\
  (np_allowed_endpoints (sb_network (ts_sandbox task)) <> [] -> rc_network_egress (roq_controls q) = true) /\
  (np_default_deny (sb_network (ts_sandbox task)) = true -> rc_default_deny_network (roq_controls q) = true) /\
  sb_writable_workspace (ts_sandbox task) = true /\
  ts_budget task = {| rb_cpu_millis := None; rb_memory_bytes := None; rb_wall_clock_ms := None;
                      rb_gpu_devices := None; rb_model_tokens := None |} /\
  capability_grants (ts_capabilities task) = [].
Proof.
  split.
  - intros [Hi He Hd Hw H1 H2 H3 H4 H5 Hc]. cbn in *. split_and!; try done.
    + destruct (sb_writable_workspace _); [done|]. by discriminate Hw.
    + destruct (ts_budget task) as [c m w g t]; cbn in *.
      f_equal; match goal with |- ?o = None => destruct o; [exfalso|done] end;
        match goal with H : is_Some (Some _) -> false = true |- _ => by discriminate H end.
    + destruct (capability_grants _) as [|g gs]; [done|]. specialize (Hc g ltac:(left)). set_solver.
  - intros (Hi & He & Hd & Hw & Hb & Hc). split; cbn; try done; try (rewrite Hb; by intros []).
    + congruence.
    + rewrite Hc. set_solver.
Qed.

Section import.
Context `{RemoteOpsJson}.

(** What parsing checked. *)
Record parsed (q : RemoteOpsBackendQualificationV2) : Prop := {
  pq_backend : valid_bounded_token 128 (roq_backend q) = true;
  pq_process : roq_isolation q = SupervisedProcess -> roq_isolation_qualified q = false;
  pq_evidence : forall e, roq_evidence_id q = Some e -> valid_bounded_token 256 e = true;
  pq_claims : roq_evidence_id q = None -> roq_isolation_qualified q = false /\
    rc_network_egress (roq_controls q) = false /\ rc_default_deny_network (roq_controls q) = false /\
    rc_resource_limits (roq_controls q) = false;
  pq_secrets : forall text marker, text = roq_backend q \/ roq_evidence_id q = Some text ->
    marker ∈ secret_markers -> contains_str marker (to_ascii_lowercase text) = false;
}.

Lemma parse_Ok json q : RemoteOpsBackendQualificationV2_parse json = Ok q -> parsed q.
Proof.
  unfold RemoteOpsBackendQualificationV2_parse. intros Hr. apply bind_Ok in Hr as (_ & _ & Hr).
  apply bind_Ok in Hr as (wire & _ & Hr). apply bind_Ok in Hr as (_ & _ & Hr).
  apply bind_Ok in Hr as (evidence & _ & Hr). apply bind_Ok in Hr as (u & [Hb Hbs]%validate_label_Ok & Hr).
  apply bind_Ok in Hr as (u' & Hp%ensure_Ok & Hr). cbv zeta in Hr. apply bind_Ok in Hr as (u'' & He & [= <-]).
  split; cbn [roq_backend roq_isolation roq_isolation_qualified roq_controls roq_evidence_id].
  - exact Hb.
  - intros Hi. rewrite bool_decide_eq_true_2 in Hp by done. by destruct (row_isolation_qualified wire).
  - intros e ->. by apply validate_label_Ok in He as [? _].
  - intros ->. apply ensure_Ok, negb_true_iff in He. rewrite !orb_false_iff in He. tauto.
  - intros text marker [->|Ht] Hm; [by apply Hbs|]. subst evidence. apply validate_label_Ok in He as [_ Hs]. by apply Hs.
Qed.

(** (C38) An imported qualification is not stretched.  The descriptor made from
    a document that parses admits exactly the valid tasks that the document
    qualifies: at most its isolation and only when that is qualified (or is
    that of a supervised process), only network policies whose control it
    claims, a writable workspace, no capability and no resource dimension
    whatever its generic resource flag says; every claim carries a bounded
    evidence reference, and no text looks like a secret. *)
Theorem remoteops_import_exact json q task :
  RemoteOpsBackendQualificationV2_parse json = Ok q ->
  parsed q /\
  (SandboxBackendDescriptor_admission (to_sandbox_backend_descriptor q) task = Ok tt <->
   TaskSpec_validate task = Ok tt /\ within_qualification q task).
Proof.
  intros Hp%parse_Ok. split; [done|]. rewrite SandboxBackendDescriptor_admission_Ok, satisfies_imported.
  destruct Hp as [Hb Hproc Hev Hcl _]. split.
  - intros (Hv & [_ Hq _] & Hi & He & Hd & Hw & Hbud & Hc). split; [done|]. split; try done. cbn in Hq.
    destruct Hq as [(Hi' & _)|(_ & Hq & _)]; [left; by destruct (roq_isolation q)|by right].
  - intros (Hv & [Hi Hq He Hd Hw Hbud Hc]). split_and!; try done. split; cbn.
    + by apply (bounded_token_weaken 128).
    + destruct (roq_isolation_qualified q) eqn:Eq.
      * right. split_and!; [intros Hi'; specialize (Hproc ltac:(by destruct (roq_isolation q))); congruence|done|].
        destruct (roq_evidence_id q) as [e|]; [by exists e; split; [|apply Hev]|]. by destruct (Hcl eq_refl).
      * left. destruct Hq as [Hs|?]; [|done]. by rewrite Hs.
    + done.
Qed.
End import.

(** ** Witness *)
Section witness.
Definition gvisor_document : RemoteOpsBackendQualificationWireV2 := {|
  row_schema := REMOTEOPS_BACKEND_QUALIFICATION_V2_SCHEMA; row_backend := "runsc"; row_isolation := UserspaceKernel;
  row_isolation_qualified := true;
  row_controls := {| rc_network_egress := false; rc_default_deny_network := true; rc_resource_limits := true |};
  row_evidence_id := VString "run/42" |}.

#[local] Instance toy_remoteops : RemoteOpsJson := {| qualification_from_str _ := Some gvisor_document |}.

Definition gvisor_imported : RemoteOpsBackendQualificationV2 := {|
  roq_backend := "runsc"; roq_isolation := UserspaceKernel; roq_isolation_qualified := true;
  roq_controls := row_controls gvisor_document; roq_evidence_id := Some "run/42"%string |}.

Lemma gvisor_parsed : RemoteOpsBackendQualificationV2_parse "{}" = Ok gvisor_imported.
Proof. by vm_compute. Qed.

Lemma remoteops_import_exact_witness :
  parsed gvisor_imported /\
  SandboxBackendDescriptor_admission (to_sandbox_backend_descriptor gvisor_imported) sample_task <> Ok tt.
Proof.
  destruct (remoteops_import_exact "{}" gvisor_imported sample_task gvisor_parsed) as [Hp [Hadmit _]].
  split; [exact Hp|]. intros Ha. destruct (Hadmit Ha) as [_ Hw]. discriminate (wq_capabilities _ _ Hw).
Defined.

Example secret_like_backend : validate_label "Secret=1" 128 QInvalidBackend = Err QInvalidBackend.
Proof. by vm_compute. Qed.
End witness.
