(* ===== verification/Daemon.v ===== *)
(** * The daemon's configuration and start ([apps/scirust-hubd/src/main.rs])

    What [run] decides before it serves: the executor and the worker
    credentials, the principals, whether the address may be served at all,
    and the recoveries of the previous lifetime. *)

From Stdlib Require Import Ascii.
From stdpp Require Import base gmap strings list.
From S2P Require Import Prelude Text Core Version Digest Machine Blobs Component Run Workflow Task.
From S2P Require Import TaskLifecycle Publication Event Memory Ports Exec Scicapsule Hub Submit Execute.
From S2P Require Import Attempts Capacity Distributed Transport Lease WorkerHost Remote RemoteWorker Pool.
From S2P Require Import Reads Metrics Wire Auth Api Sql Lines Mcp.

(** ** Arguments *)
Inductive SocketAddr :=
| AddrV4 (a b c d : N) (port : N)
| AddrV6 (segments : list N) (port : N).

(** [listen.ip().is_loopback()]. *)
Definition is_loopback (addr : SocketAddr) : bool :=
  match addr with
  | AddrV4 a _ _ _ _ => (a =? 127)%N
  | AddrV6 segments _ => bool_decide (segments = [0; 0; 0; 0; 0; 0; 0; 1]%N)
  end.

Inductive ExecutorBackend := BackendProcess | BackendRemote.

Record Args := {
  arg_listen : string;
  arg_executor : ExecutorBackend;
  arg_local_max_inflight : option N;
  arg_remote_worker_url : list string;
  arg_remote_worker_token : option string;
  arg_tls_cert : option string;
  arg_tls_key : option string;
}.

(** The environment variables the daemon reads itself. *)
Record DaemonEnv := {
  env_token : option string;
  env_principals_json : option string;
  env_remote_worker_tokens_json : option string;
}.

Inductive DaemonError :=
| DListen
| DDataDir
| DServe
| DStore (reason : string)
| DExecutorConfig (reason : string)
| DSecurityConfig (reason : string)
| DTlsConfig (reason : string).

(** [serde_json] into a map of texts, and the standard library's parser of
    addresses. *)
Class DaemonParsers := {
  tokens_from_str : string -> option (gmap string string);
  parse_addr : string -> option SocketAddr;
}.

(** ** Executors *)
Inductive BuiltExecutor :=
| BuiltLocalCapacity (executor : LocalCapacityExecutor)
| BuiltProcess
| BuiltRemote (executor : RemoteExecutor)
| BuiltPool (executor : RemotePoolExecutor).

Definition normalize_worker_endpoint (endpoint : string) : string := trim_end_matches slash endpoint.

Section daemon.
Context `{DaemonParsers}.

Definition normalize_urls (urls : list string) : result DaemonError (gset string * list string) :=
  foldM (fun (state : gset string * list string) endpoint =>
    let normalized := normalize_worker_endpoint endpoint in
    seen ← insert_seen state.1 normalized (DExecutorConfig "duplicate remote worker endpoint {normalized:?}");
    Ok (seen, state.2 ++ [normalized])) (∅, []) urls.

Definition normalize_tokens (configured : gmap string string) : result DaemonError (gmap string string) :=
  foldM (fun (tokens : gmap string string) (entry : string * string) =>
    let normalized := normalize_worker_endpoint entry.1 in
    _ ← ensure (negb (bool_decide (entry.2 = ""%string)))
          (DExecutorConfig "remote worker bearer token must not be empty for endpoint {normalized:?}");
    _ ← ensure (negb (is_some (tokens !! normalized)))
          (DExecutorConfig "duplicate normalized credential endpoint {normalized:?}");
    Ok (<[normalized := entry.2]> tokens)) ∅ (map_iter configured).

(** Taking each endpoint's token out of the map. *)
Definition take_tokens (tokens : gmap string string) (urls : list string)
    : result DaemonError (gmap string string * list (string * string)) :=
  foldM (fun (state : gmap string string * list (string * string)) endpoint =>
    token ← ok_or (state.1 !! endpoint)
              (DExecutorConfig "missing worker credential for configured endpoint {endpoint:?}");
    Ok (delete endpoint state.1, state.2 ++ [(endpoint, token)])) (tokens, []) urls.

Definition remote_worker_credentials (remote_worker_urls : list string) (shared_token per_worker_json : option string)
    : result DaemonError (list (string * string)) :=
  _ ← ensure (negb (is_some shared_token && is_some per_worker_json))
        (DExecutorConfig "SCIRUST_HUB_REMOTE_WORKER_TOKEN and the tokens JSON are mutually exclusive");
  normalized ← normalize_urls remote_worker_urls;
  match shared_token, per_worker_json with
  | Some token, None =>
      _ ← ensure (negb (bool_decide (token = ""%string)))
            (DExecutorConfig "remote worker bearer token must not be empty");
      Ok ((fun endpoint => (endpoint, token)) <$> normalized.2)
  | None, Some raw =>
      configured ← ok_or (tokens_from_str raw) (DExecutorConfig "invalid JSON object: {error}");
      _ ← ensure (negb (bool_decide (configured = ∅))) (DExecutorConfig "must not be empty");
      tokens ← normalize_tokens configured;
      taken ← take_tokens tokens normalized.2;
      _ ← ensure (bool_decide (taken.1 = ∅)) (DExecutorConfig "unused worker credential endpoint(s): {extras}");
      Ok taken.2
  | _, _ => Err (DExecutorConfig "remote execution requires a token or the tokens JSON")
  end.

Definition build_executor (backend : ExecutorBackend) (remote_worker_urls : list string)
    (remote_worker_token remote_worker_tokens_json : option string) (local_max_inflight : option N)
    : result DaemonError BuiltExecutor :=
  match backend with
  | BackendProcess =>
      match local_max_inflight with
      | Some limit => BuiltLocalCapacity <$> map_err DExecutorConfig (LocalCapacityExecutor_new limit)
      | None => Ok BuiltProcess
      end
  | BackendRemote =>
      _ ← ensure (negb (is_some local_max_inflight))
            (DExecutorConfig "local max inflight requires the process executor");
      _ ← ensure (negb (bool_decide (remote_worker_urls = [])))
            (DExecutorConfig "at least one --remote-worker-url is required with --executor remote");
      credentials ← remote_worker_credentials remote_worker_urls remote_worker_token remote_worker_tokens_json;
      match credentials with
      | [(url, token)] => BuiltRemote <$> map_err DExecutorConfig (RemoteExecutor_new url token)
      | _ => BuiltPool <$> map_err DExecutorConfig (RemotePoolExecutor_from_credentials credentials)
      end
  end.

(** ** Security *)
Record TlsFiles := { tls_cert : string; tls_key : string }.

Definition tls_files (cert key : option string) : result DaemonError (option TlsFiles) :=
  match cert, key with
  | None, None => Ok None
  | Some cert, Some key => Ok (Some {| tls_cert := cert; tls_key := key |})
  | Some _, None => Err (DTlsConfig "--tls-cert requires --tls-key")
  | None, Some _ => Err (DTlsConfig "--tls-key requires --tls-cert")
  end.

Definition validate_control_plane_security (listen : SocketAddr) (authentication_configured : bool)
    : result DaemonError unit :=
  ensure (negb (negb (is_loopback listen) && negb authentication_configured))
    (DSecurityConfig "refusing unauthenticated non-loopback bind {listen}").

Definition as_object (v : Value) : option (list (string * Value)) :=
  match v with VObject fields => Some fields | _ => None end.
Definition as_array (v : Value) : option (list Value) := match v with VArray items => Some items | _ => None end.

Definition known_keys (known : list string) (fields : list (string * Value)) (e : DaemonError)
    : result DaemonError unit :=
  forM_ (fun field : string * Value => ensure (bool_decide (field.1 ∈ known)) e) fields.

Context `{ValueJson, Sha256Lib}.

Definition parse_permission (permission : Value) : result DaemonError AuthPermission :=
  raw_permission ← ok_or (as_str permission) (DSecurityConfig "static principal {id:?} permission must be a string");
  ok_or (AuthPermission_parse raw_permission) (DSecurityConfig "unknown static principal permission").

Definition parse_principal (record : Value) : result DaemonError StaticPrincipal :=
  fields ← ok_or (as_object record) (DSecurityConfig "each static principal must be a JSON object");
  _ ← known_keys ["id"; "token"; "permissions"]%string fields (DSecurityConfig "unknown static principal field {key:?}");
  id ← ok_or (assoc "id" fields ≫= as_str) (DSecurityConfig "static principal id must be a string");
  token ← ok_or (assoc "token" fields ≫= as_str) (DSecurityConfig "static principal {id:?} token must be a string");
  permission_values ← ok_or (assoc "permissions" fields ≫= as_array)
                        (DSecurityConfig "static principal {id:?} permissions must be an array");
  permissions ← mapR parse_permission permission_values;
  map_err (fun _ => DSecurityConfig "{error}") (StaticPrincipal_new id token permissions).

Definition parse_static_principals (raw : option string) : result DaemonError (option (list StaticPrincipal)) :=
  match raw with
  | None => Ok None
  | Some raw =>
      value ← ok_or (value_from_str raw) (DSecurityConfig "invalid JSON: {error}");
      root ← ok_or (as_object value) (DSecurityConfig "must be a JSON object");
      _ ← known_keys ["schema_version"; "principals"]%string root (DSecurityConfig "unknown field {key:?}");
      _ ← ensure (bool_decide (assoc "schema_version" root ≫= as_u64 = Some 1%N))
            (DSecurityConfig "requires schema_version 1");
      records ← ok_or (assoc "principals" root ≫= as_array) (DSecurityConfig "principals must be an array");
      principals ← mapR parse_principal records;
      _ ← map_err (fun _ => DSecurityConfig "{error}") (validate_static_principals principals);
      Ok (Some principals)
  end.

(** What [run] settles before the data directory is touched. *)
Record Settled := {
  se_listen : SocketAddr;
  se_api_token : option string;
  se_principals : option (list StaticPrincipal);
  se_tls : option TlsFiles;
}.

Definition not_blank (value : option string) : option string :=
  match value with Some v => if bool_decide (trim v = ""%string) then None else Some v | None => None end.

Definition settle_security (args : Args) (env : DaemonEnv) : result DaemonError Settled :=
  listen ← ok_or (parse_addr (arg_listen args)) DListen;
  let api_token := match env_token env with
                   | Some token => if bool_decide (token = ""%string) then None else Some token
                   | None => None
                   end in
  let principals_json := not_blank (env_principals_json env) in
  _ ← ensure (negb (is_some api_token && is_some principals_json))
        (DSecurityConfig "SCIRUST_HUB_TOKEN and SCIRUST_HUB_PRINCIPALS_JSON are mutually exclusive");
  static_principals ← parse_static_principals principals_json;
  tls ← tls_files (arg_tls_cert args) (arg_tls_key args);
  _ ← validate_control_plane_security listen (is_some api_token || is_some static_principals);
  Ok {| se_listen := listen; se_api_token := api_token; se_principals := static_principals; se_tls := tls |}.
End daemon.

(** ** Starting *)
Section start.
Context `{DaemonParsers, ValueJson}.
Context `{JsonLib, ManifestJson, Sha256Lib, Environment, UuidLib} {UT : UuidText}.
Context {backend : Executor} {WF : WebFramework}.
Context {Store Fences : Type} `{!Repositories Store, !Listings Store, !LifecycleEventRepository Store}.
Context `{!PublicationFenceRepository Fences}.

(** What the host and the stores answer while the daemon starts. *)
Record StartHost := {
  sh_data_dir : result string unit;
  sh_blobs : result string unit;
  sh_runs_dir : result string unit;
  sh_store : result string unit;
  sh_runtime : result string unit;
}.

(** The state behind the router. *)
Definition serve_state (settled : Settled) (o : Orchestrator Store Fences)
    : result DaemonError (HubState (Store := Store) (Fences := Fences)) :=
  let state := with_event_repository (HubState_new o) in
  match se_principals settled with
  | Some principals => map_err (fun _ => DSecurityConfig "{error}") (with_static_principals state principals)
  | None =>
      match se_api_token settled with
      | Some token => map_err (fun _ => DSecurityConfig "{error}") (with_bearer_token state token)
      | None => Ok state
      end
  end.

(** [run], up to the point where the listener serves [state]. *)
Definition hubd_run (host : StartHost) (args : Args) (env : DaemonEnv)
    : action (Orchestrator Store Fences) DaemonError (Settled * BuiltExecutor * HubState) :=
  settled ← lift (settle_security args env);
  _ ← lift (map_err (fun _ => DDataDir) (sh_data_dir host));
  _ ← lift (map_err (fun _ => DDataDir) (sh_blobs host));
  _ ← lift (map_err (fun _ => DDataDir) (sh_runs_dir host));
  executor ← lift (build_executor (arg_executor args) (arg_remote_worker_url args) (arg_remote_worker_token args)
                     (not_blank (env_remote_worker_tokens_json env)) (arg_local_max_inflight args));
  _ ← lift (map_err DStore (sh_store host));
  _ ← rethrow (fun _ => DStore "{error}") recover_workflow_cancellations;
  _ ← rethrow (fun _ => DStore "{error}") recover_interrupted_workflows;
  _ ← lift (map_err (fun _ => DServe) (sh_runtime host));
  state ← reads (serve_state settled);
  mret (settled, executor, state).
End start.

(** ** Worker credentials *)
Section credentials.
Context `{DaemonParsers}.

Lemma normalize_urls_from urls seen acc seen' out :
  foldM (fun (state : gset string * list string) endpoint =>
    let normalized := normalize_worker_endpoint endpoint in
    seen ← insert_seen state.1 normalized (DExecutorConfig "duplicate remote worker endpoint {normalized:?}");
    Ok (seen, state.2 ++ [normalized])) (seen, acc) urls = Ok (seen', out) ->
  out = acc ++ (normalize_worker_endpoint <$> urls) /\ NoDup (normalize_worker_endpoint <$> urls) /\
  forall k, k ∈ normalize_worker_endpoint <$> urls -> k ∉ seen.
Proof.
  revert seen acc. induction urls as [|url urls IH]; intros seen acc Hr; cbn [foldM] in Hr.
  - injection Hr as -> ->. rewrite app_nil_r. split_and!; [done|constructor|set_solver].
  - apply bind_Ok in Hr as ([s1 a1] & Hs & Hr). apply bind_Ok in Hs as (s2 & [Hn ->]%insert_seen_Ok & [= <- <-]).
    apply IH in Hr as (-> & Hnd & Hni). cbn [fmap list_fmap]. rewrite <- app_assoc. split_and!; [done| |].
    + apply NoDup_cons. split; [|done]. intros Hin%Hni. set_solver.
    + intros k [->|Hk]%elem_of_cons; [done|]. specialize (Hni k Hk). set_solver.
Qed.

Lemma normalize_urls_Ok urls seen out :
  normalize_urls urls = Ok (seen, out) ->
  out = normalize_worker_endpoint <$> urls /\ NoDup (normalize_worker_endpoint <$> urls).
Proof. intros (-> & Hnd & _)%normalize_urls_from. by split. Qed.

Lemma normalize_tokens_from entries tokens tokens' :
  foldM (fun (tokens : gmap string string) (entry : string * string) =>
    let normalized := normalize_worker_endpoint entry.1 in
    _ ← ensure (negb (bool_decide (entry.2 = ""%string)))
          (DExecutorConfig "remote worker bearer token must not be empty for endpoint {normalized:?}");
    _ ← ensure (negb (is_some (tokens !! normalized)))
          (DExecutorConfig "duplicate normalized credential endpoint {normalized:?}");
    Ok (<[normalized := entry.2]> tokens)) tokens entries = Ok tokens' ->
  (forall k t, tokens' !! k = Some t -> tokens !! k = Some t \/
     exists e, (e, t) ∈ entries /\ normalize_worker_endpoint e = k /\ t <> ""%string) /\
  (forall k t, tokens !! k = Some t -> tokens' !! k = Some t) /\
  forall e t, (e, t) ∈ entries -> tokens' !! normalize_worker_endpoint e = Some t.
Proof.
  revert tokens. induction entries as [|[e t] entries IH]; intros tokens Hr; cbn [foldM] in Hr.
  - injection Hr as ->. split_and!; [by left|done|set_solver].
  - apply bind_Ok in Hr as (tokens1 & H1' & Hr). cbv zeta in H1'.
    apply bind_Ok in H1' as (_ & Hne%ensure_Ok & H1'). apply bind_Ok in H1' as (_ & Hnew%ensure_Ok & [= <-]).
    cbn [fst snd] in *. apply negb_true_iff, bool_decide_eq_false in Hne.
    assert (Hnone : tokens !! normalize_worker_endpoint e = None) by (by destruct (tokens !! _)).
    apply IH in Hr as (Hsrc & Hkeep & Hall). split_and!.
    + intros k t' [Hk|(e' & He & Hn & Ht)]%Hsrc; [|right; exists e'; set_solver].
      apply lookup_insert_Some in Hk as [[<- <-]|[_ Hk]]; [right; exists e; set_solver|by left].
    + intros k t' Hk. apply Hkeep. rewrite lookup_insert_ne; [done|]. intros <-. congruence.
    + intros e' t' [[= -> ->]|Hin]%elem_of_cons; [apply Hkeep, lookup_insert_eq|by apply Hall].
Qed.

Lemma take_tokens_from urls tokens acc left out :
  NoDup urls ->
  foldM (fun (state : gmap string string * list (string * string)) endpoint =>
    token ← ok_or (state.1 !! endpoint)
              (DExecutorConfig "missing worker credential for configured endpoint {endpoint:?}");
    Ok (delete endpoint state.1, state.2 ++ [(endpoint, token)])) (tokens, acc) urls = Ok (left, out) ->
  exists taken, out = acc ++ taken /\ taken.*1 = urls /\
    (forall k t, (k, t) ∈ taken -> tokens !! k = Some t) /\
    (forall k t, tokens !! k = Some t -> left !! k = Some t \/ (k, t) ∈ taken).
Proof.
  intros Hnd. revert tokens acc. induction Hnd as [|url urls Hni Hnd IH]; intros tokens acc Hr; cbn [foldM] in Hr.
  - injection Hr as -> ->. exists []. rewrite app_nil_r. split_and!; [done|done|set_solver|by left].
  - apply bind_Ok in Hr as ([t1 a1] & Hs & Hr). apply bind_Ok in Hs as (token & Ht%ok_or_Ok & [= <- <-]). cbn [fst snd] in *.
    apply IH in Hr as (taken & -> & Hkeys & Hsrc & Hcover). exists ((url, token) :: taken). rewrite <- app_assoc.
    split_and!; [done|cbn; by rewrite Hkeys| |].
    + intros k t [[= -> ->]|Hin]%elem_of_cons; [done|]. apply Hsrc in Hin. by apply lookup_delete_Some in Hin as [_ ?].
    + intros k t Hk. destruct (decide (k = url)) as [->|Hne]; [right; assert (t = token) as -> by congruence; left|].
      destruct (Hcover k t) as [Hl|Hin]; [by rewrite lookup_delete_ne|by left|right; by right].
Qed.

(** Worker credentials are exact.  When a configuration is accepted, the
    workers are the configured endpoints in their order, without trailing
    slashes and pairwise different; each has a token that is not empty, which
    is the shared one or the one that the tokens object gives for that very
    endpoint; and no entry of the object is left unused. *)
Theorem worker_credentials_exact urls shared json creds :
  remote_worker_credentials urls shared json = Ok creds ->
  creds.*1 = normalize_worker_endpoint <$> urls /\ NoDup creds.*1 /\
  (forall e t, (e, t) ∈ creds -> t <> ""%string /\
     (shared = Some t \/ exists raw configured e', json = Some raw /\ tokens_from_str raw = Some configured /\
        configured !! e' = Some t /\ normalize_worker_endpoint e' = e)) /\
  (forall raw configured e t, json = Some raw -> tokens_from_str raw = Some configured ->
     configured !! e = Some t -> (normalize_worker_endpoint e, t) ∈ creds).
Proof.
  unfold remote_worker_credentials. intros (_ & Hex%ensure_Ok & Hr)%bind_Ok.
  apply bind_Ok in Hr as ([seen urls'] & [-> Hnd]%normalize_urls_Ok & Hr). cbn [snd] in Hr.
  destruct shared as [token|], json as [raw|]; cbn in Hex; try done.
  - apply bind_Ok in Hr as (_ & Hne%ensure_Ok & [= <-]). apply negb_true_iff, bool_decide_eq_false in Hne.
    assert (Hkeys : ((fun endpoint => (endpoint, token)) <$> (normalize_worker_endpoint <$> urls)).*1 =
                    normalize_worker_endpoint <$> urls) by (rewrite <- list_fmap_compose; apply list_fmap_id).
    rewrite Hkeys. split_and!; [done|done| |done].
    intros e t (u & [= -> ->] & _)%list_elem_of_fmap. split; [done|by left].
  - apply bind_Ok in Hr as (configured & Hraw%ok_or_Ok & Hr). apply bind_Ok in Hr as (_ & _ & Hr).
    apply bind_Ok in Hr as (tokens & Htok%normalize_tokens_from & Hr).
    apply bind_Ok in Hr as ([left taken] & Htake & Hr). apply bind_Ok in Hr as (_ & Hleft%ensure_Ok & [= <-]).
    apply bool_decide_eq_true in Hleft. cbn in Hleft. subst left.
    apply take_tokens_from in Htake as (creds & -> & Hkeys & Hsrc & Hcover); [|done]. cbn [app snd]. rewrite Hkeys.
    destruct Htok as (Htsrc & _ & Htall). split_and!; [done|done| |].
    + intros e t Hin%Hsrc%Htsrc. destruct Hin as [Hin|(e' & He & Hn & Ht)]; [by rewrite lookup_empty in Hin|].
      split; [done|]. right. exists raw, configured, e'. split_and!; try done. by apply elem_of_map_iter in He.
    + intros raw' configured' e t [= <-] Hraw' Hc. assert (configured' = configured) as -> by congruence.
      destruct (Hcover (normalize_worker_endpoint e) t) as [Hl|Hin]; [|by rewrite lookup_empty in Hl|done].
      apply Htall. by apply elem_of_map_iter.
Qed.
End credentials.

(** ** What is served *)
Section served.
Context `{DaemonParsers, ValueJson}.
Context `{JsonLib, ManifestJson, Sha256Lib, !Sha256Laws, Environment, UuidLib} {UT : UuidText}.
Context {backend : Executor} {WF : WebFramework}.
Context {Store Fences : Type} `{!Repositories Store, !Listings Store, !LifecycleEventRepository Store}.
Context `{!PublicationFenceRepository Fences}.

Lemma new_principal_wf id token permissions p :
  StaticPrincipal_new id token permissions = Ok p -> principal_wf p.
Proof.
  intros (_ & _ & Hne & _ & ->)%StaticPrincipal_new_Ok. split; [apply length_token_digest|]. cbn.
  destruct permissions; [done|set_solver].
Qed.

(** A guarded set of principals: distinct credentials, each with a permission. *)
Definition principals_ok (principals : list StaticPrincipal) : Prop :=
  (forall p, p ∈ principals -> principal_wf p) /\ NoDup (sp_token_sha256 <$> principals).

Lemma parse_static_principals_Ok raw principals :
  parse_static_principals raw = Ok (Some principals) -> principals <> [] /\ principals_ok principals.
Proof.
  unfold parse_static_principals. destruct raw as [raw|]; [|done]. intros Hr.
  apply bind_Ok in Hr as (value & _ & Hr). apply bind_Ok in Hr as (root & _ & Hr). apply bind_Ok in Hr as (_ & _ & Hr).
  apply bind_Ok in Hr as (_ & _ & Hr). apply bind_Ok in Hr as (records & _ & Hr).
  apply bind_Ok in Hr as (ps & Hps%mapR_Ok & Hr). apply bind_Ok in Hr as ([] & Hv%map_err_Ok & [= <-]).
  apply validate_static_principals_Ok in Hv as (Hne & _ & Hnd). split; [done|]. split; [|done].
  intros p (i & Hp)%list_elem_of_lookup_1. destruct (Forall2_lookup_r _ _ _ _ _ Hps Hp) as (record & _ & Hrec).
  unfold parse_principal in Hrec. ok_inv. by eapply new_principal_wf.
Qed.

Lemma serve_state_Ok args env settled o (st : HubState (Store := Store) (Fences := Fences)) :
  settle_security args env = Ok settled -> serve_state settled o = Ok st ->
  st_orchestrator st = o /\ principals_ok (st_api_principals st) /\
  (is_loopback (se_listen settled) = false -> st_api_principals st <> []).
Proof.
  unfold settle_security. intros Hr Hs. apply bind_Ok in Hr as (listen & _ & Hr). cbv zeta in Hr.
  apply bind_Ok in Hr as (_ & _ & Hr). apply bind_Ok in Hr as (principals & Hp & Hr).
  apply bind_Ok in Hr as (tls & _ & Hr). apply bind_Ok in Hr as (_ & Hsec%ensure_Ok & [= <-]).
  unfold serve_state in Hs. cbn [se_principals se_api_token se_listen] in *. destruct principals as [principals|].
  - apply parse_static_principals_Ok in Hp as [Hne Hok]. apply map_err_Ok in Hs. unfold with_static_principals in Hs.
    apply bind_Ok in Hs as (_ & _ & [= <-]). by split_and!.
  - destruct (match env_token env with Some _ => _ | None => _ end) as [token|] eqn:Ht.
    + apply map_err_Ok in Hs. unfold with_bearer_token in Hs. apply bind_Ok in Hs as (_ & _ & Hs).
      apply bind_Ok in Hs as (p & Hnew%map_err_Ok & [= <-]). split_and!; [done| |done]. split.
      * intros q ->%list_elem_of_singleton. by eapply new_principal_wf.
      * apply NoDup_singleton.
    + injection Hs as <-. split_and!; [done| |].
      * split; [|constructor]. intros p Hin. by apply not_elem_of_nil in Hin.
      * intros Hl. rewrite Hl in Hsec. discriminate Hsec.
Qed.

(** (C13) The daemon never serves an open control plane to the network.  When
    it comes to serve, either it listens on a loopback address or principals
    are configured; they have permissions and do not share credentials, as
    the access decision assumes; and the hub behind the router is the one
    that both recoveries of the previous lifetime left. *)
Theorem daemon_guarded host args env o o' settled executor (st : HubState (Store := Store) (Fences := Fences)) :
  hubd_run host args env o = (o', Ok (settled, executor, st)) ->
  (is_loopback (se_listen settled) = true \/ st_api_principals st <> []) /\
  principals_ok (st_api_principals st) /\ st_orchestrator st = o' /\
  exists o1 n m, recover_workflow_cancellations o = (o1, Ok n) /\ recover_interrupted_workflows o1 = (o', Ok m).
Proof.
  unfold hubd_run. intros Hr. apply action_bind_Ok in Hr as (o1 & s & [-> Hset]%lift_Ok & Hr).
  apply action_bind_Ok in Hr as (o1 & u1 & [-> _]%lift_Ok & Hr). apply action_bind_Ok in Hr as (o1 & u2 & [-> _]%lift_Ok & Hr).
  apply action_bind_Ok in Hr as (o1 & u3 & [-> _]%lift_Ok & Hr). apply action_bind_Ok in Hr as (o1 & ex & [-> _]%lift_Ok & Hr).
  apply action_bind_Ok in Hr as (o1 & u4 & [-> _]%lift_Ok & Hr).
  apply action_bind_Ok in Hr as (o1 & n & H1'%rethrow_Ok & Hr). apply action_bind_Ok in Hr as (o2 & m & H2'%rethrow_Ok & Hr).
  apply action_bind_Ok in Hr as (o3 & u5 & [-> _]%lift_Ok & Hr). apply action_bind_Ok in Hr as (o4 & st' & [-> Hst]%reads_Ok & Hr).
  apply mret_Ok in Hr as [-> [= <- <- <-]]. destruct (serve_state_Ok _ _ _ _ _ Hset Hst) as (-> & Hok & Hguard).
  split_and!; [|done|done|by exists o1, n, m]. destruct (is_loopback (se_listen s)); [by left|right; by apply Hguard].
Qed.
End served.

(** ** Witnesses *)
Section witnesses.
#[local] Existing Instance plain_json.
#[local] Existing Instance toy_manifest_json.
#[local] Existing Instance toy_sha.
#[local] Existing Instance toy_sha_laws.
#[local] Existing Instance calm_environment.
#[local] Existing Instance plain_uuid.
#[local] Existing Instance plain_uuid_text.
#[local] Existing Instance writing_executor.

Definition everywhere : SocketAddr := AddrV4 0 0 0 0 8477.

#[local] Instance toy_parsers : DaemonParsers := {|
  tokens_from_str _ := Some {[ "http://b/" := "tb"; "http://a" := "ta" ]};
  parse_addr _ := Some everywhere |}.

Definition principals_value : Value := VObject
  [("schema_version", VNumber (PosInt 1));
   ("principals", VArray [VObject [("id", VString "reader"); ("token", VString "r");
                                   ("permissions", VArray [VString "inspect"])]])].

#[local] Instance toy_values : ValueJson := {|
  value_from_str _ := Some principals_value;
  value_to_string _ := "";
  value_to_string_pretty _ := None |}.

Lemma toy_credentials :
  remote_worker_credentials ["http://a/"; "http://b"] None (Some "{}"%string) = Ok [("http://a", "ta"); ("http://b", "tb")]%string.
Proof. by vm_compute. Qed.

Lemma worker_credentials_exact_witness :
  remote_worker_credentials ["http://a/"; "http://b"] None (Some "{}"%string) = Ok [("http://a", "ta"); ("http://b", "tb")]%string /\
  NoDup ["http://a"; "http://b"]%string.
Proof.
  split; [exact toy_credentials|]. exact (proj1 (proj2 (worker_credentials_exact _ _ _ _ toy_credentials))).
Defined.

Definition open_args : Args := {|
  arg_listen := "0.0.0.0:8477"; arg_executor := BackendProcess; arg_local_max_inflight := Some 4%N;
  arg_remote_worker_url := []; arg_remote_worker_token := None; arg_tls_cert := None; arg_tls_key := None |}.

Definition calm_start : StartHost := {|
  sh_data_dir := Ok tt; sh_blobs := Ok tt; sh_runs_dir := Ok tt; sh_store := Ok tt; sh_runtime := Ok tt |}.

Definition principals_env : DaemonEnv := {|
  env_token := None; env_principals_json := Some "{}"%string; env_remote_worker_tokens_json := None |}.

Abbreviation toy_start := (hubd_run calm_start open_args principals_env solver_hub).

Lemma toy_starts : is_ok toy_start.2 = true.
Proof. by vm_compute. Qed.

Lemma daemon_guarded_witness : exists o' settled executor st,
  toy_start = (o', Ok (settled, executor, st)) /\ (is_loopback (se_listen settled) = true \/ st_api_principals st <> []).
Proof.
  pose proof toy_starts as Hs. destruct toy_start as [o' [[[settled executor] st]|e]] eqn:Hrun; [|discriminate Hs].
  exists o', settled, executor, st. split; [reflexivity|]. exact (proj1 (daemon_guarded _ _ _ _ _ _ _ _ Hrun)).
Defined.

(** Without a token or principals, nothing is served there. *)
Example open_refused :
  (hubd_run calm_start open_args {| env_token := Some ""%string; env_principals_json := Some " "%string;
                               env_remote_worker_tokens_json := None |} solver_hub).2 =
  Err (DSecurityConfig "refusing unauthenticated non-loopback bind {listen}").
Proof. by vm_compute. Qed.
End witnesses.
