(* ===== verification/WorkerApp.v ===== *)
(** * The worker application ([apps/scirust-hub-worker/src/main.rs])

    What the worker settles before it serves, and its shutdown: on a signal
    the service is told to drain, and the application waits -- while leases
    go on and requests still come in -- until no lease is active or the grace
    period is over. *)

From Stdlib Require Import Ascii.
From stdpp Require Import base gmap strings list.
From S2P Require Import Prelude Text Core Digest Machine Blobs Event Exec Distributed Transport Lease WorkerHost Daemon.

(** ** Starting *)
Record WorkerArgs := {
  wa_listen : string;
  wa_worker_id : string;
  wa_token : string;
  wa_data_dir : string;
  wa_max_payload_bytes : N;
  wa_tls_cert : option string;
  wa_tls_key : option string;
}.

Inductive WorkerError :=
| WListen (address : string)
| WConfiguration (reason : string)
| WRuntime (reason : string)
| WTlsConfig (reason : string).

Record WorkerTlsFiles := { wtls_cert : string; wtls_key : string }.

Definition worker_tls_files (cert key : option string) : result WorkerError (option WorkerTlsFiles) :=
  match cert, key with
  | None, None => Ok None
  | Some cert, Some key => Ok (Some {| wtls_cert := cert; wtls_key := key |})
  | Some _, None => Err (WTlsConfig "--tls-cert requires --tls-key")
  | None, Some _ => Err (WTlsConfig "--tls-key requires --tls-cert")
  end.

Section start.
Context `{DaemonParsers, Environment, UuidLib}.

(** [run], up to the point where the listener serves the worker. *)
Definition worker_run (runtime : result string unit) (args : WorkerArgs)
    : action Machine WorkerError (SocketAddr * option WorkerTlsFiles * WorkerInner) :=
  listen ← lift (ok_or (parse_addr (wa_listen args)) (WListen (wa_listen args)));
  tls ← lift (worker_tls_files (wa_tls_cert args) (wa_tls_key args));
  service ← rethrow WConfiguration
              (WorkerService_new (wa_worker_id args) (wa_token args) (wa_data_dir args) (wa_max_payload_bytes args));
  _ ← lift (map_err WRuntime runtime);
  mret (listen, tls, service).
End start.

(** ** Draining *)

(** Nanoseconds. *)
Definition SHUTDOWN_GRACE : N := 30 * 1000 * 1000 * 1000.
Definition DRAIN_POLL : N := 25 * 1000 * 1000.

Inductive DrainEnd :=
| DrainQuiet
| DrainDeadline (active : N)
| DrainUninspected.

(** What the others do to the host before each look of the drain, and the
    clock at each look. *)
Class ShutdownHost := {
  sd_others : nat -> WorkerHost -> WorkerHost;
  sd_instant : nat -> N;
}.

Section drain.
Context `{Environment, UuidLib} {SH : ShutdownHost}.

Definition with_service (h : WorkerHost) (s : WorkerService) : WorkerHost := mkWorkerHost s (wh_tasks h).

Fixpoint drain_loop (fuel look : nat) (deadline : N) (h : WorkerHost) : WorkerHost * option DrainEnd :=
  match fuel with
  | O => (h, None)
  | S fuel =>
      let h := sd_others look h in
      match active_lease_count (wh_service h) with
      | (s, Ok active) =>
          if (active =? 0)%N then (with_service h s, Some DrainQuiet)
          else if (deadline <=? sd_instant look)%N then (with_service h s, Some (DrainDeadline active))
          else drain_loop fuel (S look) deadline (with_service h s)
      | (s, Err _) => (with_service h s, Some DrainUninspected)
      end
  end.

(** [drain_on_shutdown], from the signal on. *)
Definition drain_on_shutdown (fuel : nat) (h : WorkerHost) : WorkerHost * option DrainEnd :=
  match begin_draining (wh_service h) with
  | (s, Ok _) => drain_loop fuel 1 (sd_instant 0 + SHUTDOWN_GRACE) (with_service h s)
  | (s, Err _) => (with_service h s, Some DrainUninspected)
  end.

(** One look per 25 ms of the grace period, and one more. *)
Definition DRAIN_LOOKS : nat := N.to_nat (SHUTDOWN_GRACE / DRAIN_POLL + 1).
End drain.

(** ** What a shutdown achieves *)
Section shutdown.
Context `{Environment, UuidLib, DirectoryOrder} {backend : Executor} {SH : ShutdownHost} (inner : WorkerInner).

(** The others are steps of the host; a sleep lasts at least as long as it
    was asked to. *)
Class ShutdownLaws : Prop := {
  sd_others_law : forall k h, rtc (host_step inner) h (sd_others k h);
  sd_start_law : (sd_instant 0 <= sd_instant 1)%N;
  sd_sleep_law : forall k, (sd_instant (S k) + DRAIN_POLL <= sd_instant (S (S k)))%N;
}.

Context `{!ShutdownLaws}.

Definition active_entry (e : LeaseEntry) : bool := negb (LeaseState_is_terminal (le_state e)).

(** What is active on a draining host is running and was told to stop. *)
Definition winding_down (h : WorkerHost) : Prop :=
  lb_draining (ws_book (wh_service h)) = true /\
  forall id e, lb_leases (ws_book (wh_service h)) !! id = Some e -> active_entry e = true ->
    le_state e = LeaseRunning /\ is_cancelled (le_cancel e) = true.

Definition quiet (h : WorkerHost) : Prop :=
  forall id e, lb_leases (ws_book (wh_service h)) !! id = Some e -> active_entry e = false.

Lemma active_leases_none b :
  active_leases b = 0%N <-> forall id e, lb_leases b !! id = Some e -> active_entry e = false.
Proof.
  unfold active_leases, active_entry. rewrite <- N2Nat.inj_iff, Nat2N.id. change (N.to_nat 0) with 0.
  rewrite map_size_empty_iff. split.
  - intros Hn id e He. apply negb_false_iff. destruct (LeaseState_is_terminal (le_state e)) eqn:Ht; [done|].
    by destruct (map_filter_empty_not_lookup _ _ id e Hn Ht).
  - intros Hn. apply map_empty. intros id. apply map_lookup_filter_None. right. intros e He Ht. cbn in Ht.
    specialize (Hn id e He). by rewrite Ht in Hn.
Qed.

Lemma host_with_service (h : WorkerHost) : with_service h (wh_service h) = h.
Proof. by destruct h. Qed.

Lemma inv_winding_down h : host_inv inner h -> lb_draining (ws_book (wh_service h)) = true -> winding_down h.
Proof.
  intros Hinv Hd. split; [done|]. intros id e He Ha. apply (wf_drained _ (hi_book _ _ Hinv) Hd id e He).
  unfold active_entry in Ha. by destruct (LeaseState_is_terminal (le_state e)).
Qed.

Lemma quiet_stays h h' :
  host_inv inner h -> lb_draining (ws_book (wh_service h)) = true -> quiet h -> rtc (host_step inner) h h' -> quiet h'.
Proof.
  intros Hinv Hd Hq Hs. destruct (host_steps_le _ _ _ Hinv Hs) as [_ Hle]. intros id e He.
  destruct (bl_closed _ _ Hle Hd id e He) as [e0 He0]. destruct (bl_entries _ _ Hle id e0 He0) as (e' & He' & Hel).
  rewrite He in He'. injection He' as <-. pose proof (el_terminal _ _ Hel) as Ht. specialize (Hq id e0 He0).
  unfold active_entry in *. apply negb_false_iff in Hq. by rewrite Ht.
Qed.

Lemma drain_leases h id :
  is_Some (lb_leases (ws_book (wh_service (drain h))) !! id) -> is_Some (lb_leases (ws_book (wh_service h)) !! id).
Proof.
  unfold drain, begin_draining, mbind, action_bind, book, reads, worker_now, on_worker_machine, now_ms, set_book.
  cbn. by rewrite lookup_fmap, fmap_is_Some.
Qed.

(** The end of the drain. *)
Definition drain_ended (h h' : WorkerHost) (r : DrainEnd) (deadline : N) : Prop :=
  rtc (host_step inner) h h' /\
  match r with
  | DrainQuiet => quiet h'
  | DrainDeadline active => active = active_leases (ws_book (wh_service h')) /\ (0 < active)%N /\
      exists k, (deadline <= sd_instant k)%N
  | DrainUninspected => False
  end.

Lemma drain_loop_ends fuel k deadline h :
  (deadline <= sd_instant (S k) + DRAIN_POLL * N.of_nat fuel)%N ->
  exists h' r, drain_loop (S fuel) (S k) deadline h = (h', Some r) /\ drain_ended h h' r deadline.
Proof.
  revert k h. induction fuel as [|fuel IH]; intros k h Hd; cbn [drain_loop].
  all: set (h1 := sd_others (S k) h); pose proof (sd_others_law (S k) h) as Hs; fold h1 in Hs; clearbody h1.
  all: unfold active_lease_count, mbind, action_bind, book, reads; cbn; rewrite host_with_service.
  all: destruct (N.eqb_spec (active_leases (ws_book (wh_service h1))) 0) as [Hz|Hz];
    [by exists h1, DrainQuiet; split; [|split; [|exact (proj1 (active_leases_none _) Hz)]]|].
  all: destruct (N.leb_spec deadline (sd_instant (S k))) as [Hle|Hlt];
    [exists h1, (DrainDeadline (active_leases (ws_book (wh_service h1)))); split; [done|];
       split; [done|]; split; [done|]; split; [lia|by exists (S k)]|].
  - lia.
  - pose proof (sd_sleep_law k) as Hk. destruct (IH (S k) h1) as (h' & r & Hr & Hrun & He); [lia|].
    exists h', r. split; [exact Hr|]. split; [by etrans|exact He].
Qed.

(** (C39) A worker shuts down in good order.  Whatever requests and leases do
    meanwhile, the drain ends within one look per 25 ms of the grace period.
    From the signal on no lease is added, and what is active is running under
    a set token.  Either the drain ends because no lease is active -- and
    then none is ever again -- or the grace period is over, and it tells how
    many still are. *)
Theorem worker_shutdown_orderly m h :
  rtc (host_step inner) (host_start m) h ->
  exists h' r, drain_on_shutdown DRAIN_LOOKS h = (h', Some r) /\
    rtc (host_step inner) h h' /\ winding_down h' /\
    (forall id, is_Some (lb_leases (ws_book (wh_service h')) !! id) ->
       is_Some (lb_leases (ws_book (wh_service h)) !! id)) /\
    match r with
    | DrainQuiet => forall h'', rtc (host_step inner) h' h'' -> quiet h'' /\
        (forall id, is_Some (lb_leases (ws_book (wh_service h'')) !! id) ->
           is_Some (lb_leases (ws_book (wh_service h)) !! id))
    | DrainDeadline active => active = active_leases (ws_book (wh_service h')) /\ (0 < active)%N /\
        exists k, (sd_instant 0 + SHUTDOWN_GRACE <= sd_instant k)%N
    | DrainUninspected => False
    end.
Proof.
  intros Hinv%host_inv_reachable. unfold drain_on_shutdown.
  assert (Hloop : exists h' r, drain_loop DRAIN_LOOKS 1 (sd_instant 0 + SHUTDOWN_GRACE) (drain h) = (h', Some r) /\
            drain_ended (drain h) h' r (sd_instant 0 + SHUTDOWN_GRACE)).
  { change DRAIN_LOOKS with (S 1200). apply drain_loop_ends. pose proof sd_start_law. unfold SHUTDOWN_GRACE, DRAIN_POLL. lia. }
  destruct Hloop as (h' & r & Hr & Hrun & He). exists h', r. split; [exact Hr|].
  pose proof (drain_reaches inner h) as Hd. destruct (host_steps_le _ _ _ Hinv Hd) as [Hinv1 Hle1].
  destruct (host_steps_le _ _ _ Hinv1 Hrun) as [Hinv2 Hle2].
  assert (Hdr : lb_draining (ws_book (wh_service (drain h))) = true) by done.
  pose proof (bl_draining _ _ Hle2 Hdr) as Hdr2.
  assert (Hold : forall id, is_Some (lb_leases (ws_book (wh_service h')) !! id) ->
            is_Some (lb_leases (ws_book (wh_service h)) !! id)).
  { intros id [e He']. apply drain_leases. by apply (bl_closed _ _ Hle2 Hdr id e). }
  split; [by etrans|]. split; [by apply inv_winding_down|]. split; [exact Hold|].
  destruct r as [|active|]; [|exact He|exact He].
  intros h'' Hs. split; [by apply (quiet_stays h')|]. intros id [e Hl].
  destruct (host_steps_le _ _ _ Hinv2 Hs) as [_ Hle3]. apply Hold. by apply (bl_closed _ _ Hle3 Hdr2 id e).
Qed.
End shutdown.

(** What a worker that starts has. *)
Lemma worker_run_Ok `{DaemonParsers, Environment, UuidLib} runtime args m m' listen tls inner :
  worker_run runtime args m = (m', Ok (listen, tls, inner)) ->
  parse_addr (wa_listen args) = Some listen /\ (is_Some (wa_tls_cert args) <-> is_Some (wa_tls_key args)) /\
  trim_chars (chars (wi_worker_id inner)) <> [] /\ wi_token inner <> ""%string /\ (0 < wi_max_payload_bytes inner)%N.
Proof.
  unfold worker_run, WorkerService_new. intros Hr. act_inv. simplify_eq.
  bool_inv. cbn. split_and!; [done| |done|done|lia].
  unfold worker_tls_files in Hr1. destruct (wa_tls_cert args), (wa_tls_key args); try discriminate; [by split|].
  by split; intros [? [=]].
Qed.

Section witnesses.
#[local] Existing Instance calm_environment.
#[local] Existing Instance toy_uuid.
#[local] Existing Instance listed_order.
#[local] Existing Instance obedient_executor.

Definition shutdown_instant (k : nat) : N := N.of_nat k * DRAIN_POLL.

Lemma shutdown_instant_sleeps k : (shutdown_instant (S k) + DRAIN_POLL <= shutdown_instant (S (S k)))%N.
Proof. unfold shutdown_instant. lia. Qed.

(** Between two looks the task of the first lease takes a step. *)
#[local] Instance working_host : ShutdownHost := {|
  sd_others _ h := run_task small_worker 0 h; sd_instant := shutdown_instant |}.

#[local] Instance working_laws : ShutdownLaws small_worker.
Proof. split; [intros; apply run_task_reaches|by vm_compute|exact shutdown_instant_sleeps]. Qed.

Definition lease_started : WorkerHost := run_task small_worker 0 posted.

Lemma started_reachable : rtc (host_step small_worker) worker_up lease_started.
Proof. etrans; [exact posted_reachable|apply run_task_reaches]. Qed.

Lemma worker_shutdown_orderly_witness :
  lease_states lease_started = [LeaseRunning] /\
  exists h', drain_on_shutdown DRAIN_LOOKS lease_started = (h', Some DrainQuiet) /\ lease_states h' = [LeaseCompleted] /\ quiet h'.
Proof.
  split; [by vm_compute|].
  destruct (worker_shutdown_orderly small_worker (mkMachine ∅ 0) lease_started started_reachable)
    as (h' & r & Hr & _ & _ & _ & Hq).
  assert (Hquiet : (drain_on_shutdown DRAIN_LOOKS lease_started).2 = Some DrainQuiet) by by vm_compute.
  assert (Hend : lease_states (drain_on_shutdown DRAIN_LOOKS lease_started).1 = [LeaseCompleted]) by by vm_compute.
  rewrite Hr in Hquiet, Hend. injection Hquiet as ->. exists h'. split; [exact Hr|]. split; [exact Hend|].
  exact (proj1 (Hq h' (rtc_refl _ _))).
Defined.
End witnesses.

(** A quiet worker may still run something: after the replay that makes
    [run_lease] fail a lease whose process is about to start
    ([replay_fails_running_lease]), the drain sees no active lease, and the
    process is started after it has ended. *)
Section unquiet.
#[local] Existing Instance calm_environment.
#[local] Existing Instance toy_uuid.
#[local] Existing Instance listed_order.
#[local] Existing Instance obedient_executor.
#[local] Instance idle_others : ShutdownHost := {| sd_others _ h := h; sd_instant := shutdown_instant |}.

Definition drained_after_replay : WorkerHost := (drain_on_shutdown DRAIN_LOOKS failed_running).1.

Theorem quiet_worker_starts_process :
  (drain_on_shutdown DRAIN_LOOKS failed_running).2 = Some DrainQuiet /\
  rtc (host_step small_worker) drained_after_replay (run_task small_worker 0 drained_after_replay) /\
  lt_phase <$> head (wh_tasks (run_task small_worker 0 drained_after_replay)) =
    Some (TaskExecute (lease_request small_worker lease_0 (lcr_execution small_request))).
Proof. split; [by vm_compute|]. split; [apply run_task_reaches|by vm_compute]. Qed.
End unquiet.
