(* ===== verification/Cli.v ===== *)
(** * The command-line client ([apps/scirust-hub/src/main.rs])

    Commands become one or two requests to the daemon, whose router answers
    them over a connection that may fail; what is shown is the body of the
    last response.  The texts for human readers are not modelled: in that
    mode the value they are made from is shown. *)

From Stdlib Require Import Ascii.
From stdpp Require Import base gmap strings list pretty.
From S2P Require Import Prelude Text Core Version Digest Machine Blobs Component Run Workflow Task.
From S2P Require Import TaskLifecycle Publication Event Memory Ports Exec Scicapsule Hub Submit Execute.
From S2P Require Import Attempts Reads Metrics Wire Auth Api ApiSafety ApiFlows ApiExamples Sql Lines Mcp McpHub RemoteOps.

(** ** Commands *)
Inductive Output := OutputHuman | OutputJson.

Inductive Command :=
| CmdStatus
| CmdComponentRegister (path : string)
| CmdComponentList
| CmdComponentInspect (id : string)
| CmdCapabilities
| CmdRunSubmit (component capability params : string) (inputs : list string) (timeout_ms : N) (wait : bool)
| CmdRunList
| CmdRunInspect (id : string)
| CmdRunCancel (id : string)
| CmdRunReproduce (id : string) (wait : bool)
| CmdArtifactPut (path : string) (name : option string) (media_type : string)
| CmdArtifactInspect (id : string) (content : bool)
| CmdWorkflowSubmit (path : string)
| CmdWorkflowRun (id : string)
| CmdWorkflowCancel (id : string)
| CmdWorkflowList
| CmdWorkflowInspect (id : string)
| CmdEventList (after limit : N)
| CmdSnapshotValidate (path : string).

Record CliArgs := { ca_url : string; ca_output : Output; ca_command : Command }.

(** What is printed. *)
Inductive Shown := ShownJson (text : string) | ShownHuman (value : Value).

(** The files and standard input, and the token in the environment. *)
Class CliHost := {
  ci_stdin : result string (list N);
  ci_file : string -> result string (list N);
  ci_token : option string;
}.

(** How the connection of a request fails, if it does: before or after the
    daemon has handled it. *)
Inductive LinkFault := LostRequest | LostResponse.
Class CliLink := { link_fault : nat -> option LinkFault }.

Section client.
Context `{JsonLib, ManifestJson, Sha256Lib, Environment, UuidLib} {UT : UuidText}.
Context {backend : Executor} {WF : WebFramework} {UC : UrlClient} `{ValueJson, SnapshotJson, CliHost, CliLink}.
Context {Store Fences : Type} `{!Repositories Store, !Listings Store, !LifecycleEventRepository Store}.
Context `{!PublicationFenceRepository Fences}.
Context (limits : Limits) (blob_root workdir_root path_var pkg_version : string).
Context (execute_workflow : WorkflowId -> action (Orchestrator Store Fences) CoreError WorkflowRecord).

Abbreviation state := (HubState (Store := Store) (Fences := Fences)).
Abbreviation serve := (router (backend := backend) limits blob_root workdir_root path_var pkg_version execute_workflow).

(** What other clients and tasks do to the daemon before the [n]-th request of
    this one reaches it. *)
Context (others : nat -> state -> state).

Inductive CliError :=
| CliConnect
| CliApiStatus (rs : HttpResponse)
| CliBadResponse (reason : string)
| CliUsage (reason : string).

(** The daemon, the requests sent so far and what was printed. *)
Record CliWorld := mkCliWorld { cw_hub : state; cw_sent : list Request; cw_shown : list Shown }.

Abbreviation cli := (action CliWorld CliError).

(** ** Requests *)
Definition url_of (args : CliArgs) (path : string) : string := String.append (ca_url args) path.

(** [authorized]: an empty token is no token. *)
Definition cli_authorized (headers : gmap string string) : gmap string string :=
  match ci_token with
  | Some token => if bool_decide (token = ""%string) then headers
                  else <["authorization" := String.append "Bearer " token]> headers
  | None => headers
  end.

Definition cli_request (m : Method) (url : string) (headers : gmap string string) (body : list N) : Request :=
  {| rq_method := m; rq_path := url_path url; rq_headers := headers ∪ cli_authorized (url_headers url); rq_body := body |}.

(** One call of [ureq], whose error has the response for a status of 400 or
    more ([request_error]), and the JSON of its body.  The daemon answers in
    the state in which the others left it. *)
Definition call (rq : Request) : cli Value := fun w =>
  let sent := cw_sent w ++ [rq] in
  let st := others (length (cw_sent w)) (cw_hub w) in
  match link_fault (length (cw_sent w)) with
  | Some LostRequest => (mkCliWorld st sent (cw_shown w), Err CliConnect)
  | fault =>
      let '(st, rs) := serve rq st in
      (mkCliWorld st sent (cw_shown w),
       match fault with
       | Some _ => Err CliConnect
       | None => if (400 <=? rs_status rs)%N then Err (CliApiStatus rs)
                 else map_err (fun _ => CliBadResponse "decoding body: {e}") (into_json rs)
       end)
  end.

Definition get (url : string) : cli Value := call (cli_request GET url ∅ []).
Definition cli_post_empty (url : string) : cli Value := call (cli_request POST url ∅ []).

Definition send_json (url : string) (payload : Value) : cli Value :=
  call (cli_request POST url {["content-type" := "application/json"]} (bytes (value_to_string payload))).

Definition send_artifact (url name media_type : string) (bs : list N) : cli Value :=
  call (cli_request POST url {["x-scirust-artifact-name" := name; "content-type" := media_type]} bs).

Definition emit (args : CliArgs) (value : Value) : cli unit := fun w =>
  match ca_output args with
  | OutputHuman => (mkCliWorld (cw_hub w) (cw_sent w) (cw_shown w ++ [ShownHuman value]), Ok tt)
  | OutputJson =>
      match value_to_string_pretty value with
      | Some text => (mkCliWorld (cw_hub w) (cw_sent w) (cw_shown w ++ [ShownJson text]), Ok tt)
      | None => (w, Err (CliBadResponse "re-encoding: {e}"))
      end
  end.

(** ** Local input *)
Definition read_bytes (path : string) : cli (list N) :=
  lift (map_err (fun _ => CliUsage "reading {path:?}: {e}")
    (if bool_decide (path = "-"%string) then ci_stdin else ci_file path)).

Definition read_manifest (path : string) : cli Value :=
  bs ← read_bytes path;
  text ← lift (ok_or (from_utf8 bs) (CliUsage "reading {path:?}: {e}"));
  lift (ok_or (value_from_str text) (CliUsage "manifest is not valid JSON: {e}")).

(** [read_bounded_snapshot] reads one byte more than the limit allows. *)
Definition read_host_snapshot (path : string) : cli string :=
  bs ← read_bytes path;
  let bs := take (N.to_nat (MAX_REMOTEOPS_HOST_CAPABILITY_SNAPSHOT_BYTES + 1)) bs in
  _ ← lift (ensure (len bs <=? MAX_REMOTEOPS_HOST_CAPABILITY_SNAPSHOT_BYTES)%N
              (CliUsage "RemoteOps host snapshot exceeds the 16 KiB limit"));
  lift (ok_or (from_utf8 bs) (CliUsage "snapshot is not UTF-8: {error}")).

Definition parse_inputs (inputs : list string) : result CliError (list Value) :=
  mapM (fun raw =>
    '(name, artifact) ← ok_or (split_once_str "=" raw) (CliUsage "--input expects name=artifact-id, got {raw:?}");
    Ok (object [("name", VString name); ("artifact", VString artifact)])) inputs.

Definition artifact_name (path : string) (name : option string) : result CliError string :=
  match name with
  | Some name => Ok name
  | None =>
      if bool_decide (path = "-"%string) then Err (CliUsage "artifact put from stdin requires --name")
      else match last (path_components path) with
           | Some (Normal name) => Ok name
           | _ => Err (CliUsage "cannot derive artifact name; use --name")
           end
  end.

(** ** Commands that send more than one request *)
Definition response_run_id (response : Value) : result CliError string :=
  ok_or ((value_get "run" response ≫= value_get "id") ≫= as_str) (CliBadResponse "missing run id").

Definition run_payload (component capability : string) (parameters : Value) (inputs : list Value) (timeout_ms : N)
    : Value :=
  object [("schema_version", VNumber (PosInt 1));
          ("run_spec", object [("component", VString component); ("capability", VString capability);
                               ("parameters", parameters); ("inputs", VArray inputs);
                               ("timeout_ms", VNumber (PosInt timeout_ms))])].

(** A submitted run is shown, or executed and then shown. *)
Definition show_or_execute (args : CliArgs) (wait : bool) (submitted : Value) : cli unit :=
  if negb wait then emit args submitted
  else
    run_id ← lift (response_run_id submitted);
    executed ← send_json (url_of args "/api/v1/executions") (VString run_id);
    emit args executed.

(** ** [dispatch] *)
Definition cli_dispatch (args : CliArgs) : cli unit :=
  let url path := url_of args (joined_text path) in
  match ca_command args with
  | CmdStatus =>
      health ← get (url_of args "/health");
      ready ← get (url_of args "/ready");
      _ ← emit args health;
      emit args ready
  | CmdComponentRegister path =>
      manifest_or_request ← read_manifest path;
      let body := match value_get "manifest" manifest_or_request with
                  | Some _ => manifest_or_request
                  | None => object [("schema_version", VNumber (PosInt 1)); ("manifest", manifest_or_request)]
                  end in
      response ← send_json (url_of args "/api/v1/components") body;
      emit args response
  | CmdComponentList => response ← get (url_of args "/api/v1/components"); emit args response
  | CmdComponentInspect id => response ← get (url ["/api/v1/components/"; id]); emit args response
  | CmdCapabilities => response ← get (url_of args "/api/v1/capabilities"); emit args response
  | CmdRunSubmit component capability params inputs timeout_ms wait =>
      parameters ← lift (ok_or (value_from_str params) (CliUsage "--params is not valid JSON: {e}"));
      input_bindings ← lift (parse_inputs inputs);
      submitted ← send_json (url_of args "/api/v1/runs")
                    (run_payload component capability parameters input_bindings timeout_ms);
      show_or_execute args wait submitted
  | CmdRunList => response ← get (url_of args "/api/v1/runs"); emit args response
  | CmdRunInspect id => response ← get (url ["/api/v1/runs/"; id]); emit args response
  | CmdRunCancel id => response ← cli_post_empty (url ["/api/v1/runs/"; id; "/cancel"]); emit args response
  | CmdRunReproduce id wait =>
      response ← cli_post_empty (url ["/api/v1/runs/"; id; "/reproduce"]);
      show_or_execute args wait response
  | CmdArtifactPut path name media_type =>
      bs ← read_bytes path;
      artifact_name ← lift (artifact_name path name);
      response ← send_artifact (url_of args "/api/v1/artifacts") artifact_name media_type bs;
      emit args response
  | CmdArtifactInspect id content =>
      let suffix := if content then "?include=content"%string else ""%string in
      response ← get (url ["/api/v1/artifacts/"; id; suffix]); emit args response
  | CmdWorkflowSubmit path =>
      body ← read_manifest path;
      response ← send_json (url_of args "/api/v1/workflows") body;
      emit args response
  | CmdWorkflowRun id => response ← cli_post_empty (url ["/api/v1/workflows/"; id; "/executions"]); emit args response
  | CmdWorkflowCancel id => response ← cli_post_empty (url ["/api/v1/workflows/"; id; "/cancel"]); emit args response
  | CmdWorkflowList => response ← get (url_of args "/api/v1/workflows"); emit args response
  | CmdWorkflowInspect id => response ← get (url ["/api/v1/workflows/"; id]); emit args response
  | CmdEventList after limit =>
      response ← get (url ["/api/v1/events?after="; pretty after; "&limit="; pretty limit]); emit args response
  | CmdSnapshotValidate path =>
      text ← read_host_snapshot path;
      _ ← lift (map_err (fun _ => CliUsage "invalid RemoteOps host snapshot: {error}")
                  (RemoteOpsHostCapabilitySnapshotV1_parse text));
      raw ← lift (ok_or (value_from_str text) (CliBadResponse "validated snapshot JSON changed: {error}"));
      emit args (object [("validation", VString "accepted"); ("diagnostic_only", VBool true); ("snapshot", raw)])
  end.

(** ** Commands that only read *)
Definition reads_only (c : Command) : bool :=
  match c with
  | CmdStatus | CmdComponentList | CmdComponentInspect _ | CmdCapabilities | CmdRunList | CmdRunInspect _
  | CmdArtifactInspect _ _ | CmdWorkflowList | CmdWorkflowInspect _ | CmdEventList _ _ | CmdSnapshotValidate _ => true
  | _ => false
  end.

Definition hub_unchanged (w w' : CliWorld) : Prop := unchanged (cw_hub w) (cw_hub w').

#[local] Instance hub_unchanged_preorder : PreOrder hub_unchanged.
Proof.
  split; [intros w; apply unchanged_preorder|]. intros a b c Hab Hbc. unfold hub_unchanged in *. by etrans.
Qed.

#[local] Hint Extern 0 (PreOrder hub_unchanged) => apply hub_unchanged_preorder : steps.

Section alone.
(** The others do not write. *)
Context (others_read : forall n st, unchanged st (others n st)).

Lemma get_unchanged url : steps hub_unchanged (get url).
Proof using Type*.
  intros w. unfold get, call, hub_unchanged. set (rq := cli_request GET url ∅ []). cbv zeta.
  pose proof (others_read (length (cw_sent w)) (cw_hub w)) as Ho. set (st := others _ _) in *.
  pose proof (get_serve_unchanged limits blob_root workdir_root path_var pkg_version execute_workflow rq st
                (or_introl eq_refl)) as Hu.
  destruct (link_fault _) as [[|]|]; [done|..]; destruct (serve rq st); by etrans.
Qed.

Lemma emit_unchanged args v : steps hub_unchanged (emit args v).
Proof. intros w. unfold emit, hub_unchanged. repeat case_match; cbn; apply unchanged_preorder. Qed.

#[local] Hint Resolve get_unchanged emit_unchanged : steps.

(** Reading commands change nothing in the hub, whatever it answers and
    however the connection fails: it is changed by the others alone. *)
Theorem cli_reads args w :
  reads_only (ca_command args) = true -> hub_unchanged w (cli_dispatch args w).1.
Proof using Type*.
  intros Hr. revert w. change (steps hub_unchanged (cli_dispatch args)). unfold cli_dispatch. cbv zeta.
  destruct (ca_command args); try discriminate Hr; clear Hr; unfold read_host_snapshot, read_bytes; cbv zeta; solve_steps.
Qed.
End alone.

(** ** Submitting a run and waiting for it *)

(** [axum] rejects with an error status; [serde] writes the identifier of a
    run as text under [run.id] and reads it back from a JSON string. *)
Class ClientLaws : Prop := {
  framework_rejects : forall rq, (400 <= rs_status (axum_rejection rq))%N;
  submitted_json : forall rs d v, rs_body rs = PRunSubmitted d -> into_json rs = Ok v ->
    response_run_id v = Ok (id_to_string (rd_id d));
  run_id_json : forall limit rq t id, rq_body rq = bytes (value_to_string (VString t)) ->
    json_run_id limit rq = Some id -> uuid_from_str t = Some (as_uuid id);
}.

Context `{!WebFrameworkLaws, !UuidTextLaws, !ClientLaws}.

Lemma call_Ok rq w w' v : call rq w = (w', Ok v) ->
  exists st rs, serve rq (others (length (cw_sent w)) (cw_hub w)) = (st, rs) /\ w' = mkCliWorld st (cw_sent w ++ [rq]) (cw_shown w) /\
    (rs_status rs < 400)%N /\ into_json rs = Ok v.
Proof.
  unfold call. cbv zeta. destruct (link_fault _) as [[|]|]; [done|by destruct (serve rq _)|].
  destruct (serve rq _) as [st rs]. destruct (N.leb_spec 400 (rs_status rs)); [done|].
  intros [= <- Hv%map_err_Ok]. by exists st, rs.
Qed.

Lemma authorize_refused principals rq rs : authorize_request principals rq = Err rs -> (400 <= rs_status rs)%N.
Proof.
  unfold authorize_request. case_bool_decide; [done|]. cbv zeta. destruct (_ ≫= authenticate principals) as [p|].
  - destruct (StaticPrincipal_permits _ _); cbn; [done|]. by intros [= <-].
  - by intros [= <-].
Qed.

(** An answer that is no error is the handler's. *)
Lemma post_served rq route h st st' rs :
  matched_route (rq_path rq) = Some route -> rq_method rq = POST ->
  on_post (backend := backend) limits blob_root workdir_root path_var execute_workflow route rq = Some h ->
  serve rq st = (st', rs) -> (rs_status rs < 400)%N -> h st = (st', rs).
Proof.
  intros Hr Hm Hh Hs Hok. unfold router, require_api_bearer, route_handler in Hs. rewrite Hr, Hm, Hh in Hs.
  destruct (route_protected route); [|done]. destruct (authorize_request _ _) eqn:Ha; [done|].
  apply authorize_refused in Ha. injection Hs as _ <-. lia.
Qed.

Lemma joined_refused {A} (r : Result A) rs : joined r = Err rs -> (400 <= rs_status rs)%N.
Proof. destruct r as [a|e]; [done|]. by destruct e; intros [= <-]. Qed.

Lemma offload_served {A} (call : action (Orchestrator Store Fences) CoreError A) k (st st' : state) rs :
  offload call k st = (st', rs) -> (rs_status rs < 400)%N ->
  exists o a, call (st_orchestrator st) = (o, Ok a) /\ k a (set_orchestrator st o) = (st', rs).
Proof.
  unfold offload. destruct (call _) as [o r]. destruct (joined r) as [a|rs'] eqn:Hj.
  - intros Hk _. exists o, a. split; [|done]. destruct r as [a'|[]]; try discriminate Hj. by injection Hj as ->.
  - intros [= _ <-] Hs. apply joined_refused in Hj. lia.
Qed.

(** A path that is a template of its own is matched by that template alone,
    unless the text before another one's parameters is a prefix. *)
Lemma skip_route template extract path (rest : option ApiRoute) : starts_with (literal_part template) path = false ->
  match axum_match template path ≫= extract with Some route => Some route | None => rest end = rest.
Proof.
  intros Hp. destruct (axum_match template path) as [ps|] eqn:Hm; [|done].
  apply axum_match_only in Hm as [Hm _]. congruence.
Qed.

Lemma runs_route : matched_route "/api/v1/runs" = Some RtRuns.
Proof.
  unfold matched_route, ROUTES. cbn [foldr]. do 3 (rewrite skip_route by done).
  by rewrite (axum_match_literal "/api/v1/runs").
Qed.

Lemma executions_route : matched_route "/api/v1/executions" = Some RtExecutions.
Proof.
  unfold matched_route, ROUTES. cbn [foldr]. do 7 (rewrite skip_route by done).
  by rewrite (axum_match_literal "/api/v1/executions").
Qed.

Definition shows (args : CliArgs) (v : Value) (shown : Shown) : Prop :=
  match ca_output args with
  | OutputHuman => shown = ShownHuman v
  | OutputJson => exists text, value_to_string_pretty v = Some text /\ shown = ShownJson text
  end.

Lemma emit_Ok args v w w' u : emit args v w = (w', Ok u) ->
  exists shown, shows args v shown /\ w' = mkCliWorld (cw_hub w) (cw_sent w) (cw_shown w ++ [shown]).
Proof.
  unfold emit, shows. destruct (ca_output args).
  - intros [= <- _]. by exists (ShownHuman v).
  - destruct (value_to_string_pretty v) as [text|]; [|done]. intros [= <- _]. exists (ShownJson text). eauto.
Qed.

(** (C37) The run that is waited for is the run that was submitted.  When
    [run submit --wait] succeeds, exactly two requests were sent: the first
    carries the arguments as the daemon's specification, which the orchestrator
    admits as a queued run in the state in which it finds itself then; the
    second names that run by the identifier in the first answer, the
    orchestrator executes that very run, whatever other clients have done
    between the two requests, and its final record is what is shown. *)
Theorem cli_waits_for_its_run args component capability params inputs timeout_ms w w' u :
  ca_command args = CmdRunSubmit component capability params inputs timeout_ms true ->
  url_path (url_of args "/api/v1/runs") = "/api/v1/runs"%string ->
  url_path (url_of args "/api/v1/executions") = "/api/v1/executions"%string ->
  cli_dispatch args w = (w', Ok u) ->
  let turn := length (cw_sent w) in
  exists parameters bindings rq1 rq2 request record st1 final v shown,
    value_from_str params = Some parameters /\ parse_inputs inputs = Ok bindings /\
    cw_sent w' = cw_sent w ++ [rq1; rq2] /\
    rq_body rq1 = bytes (value_to_string (run_payload component capability parameters bindings timeout_ms)) /\
    rq_body rq2 = bytes (value_to_string (VString (id_to_string (run_id record)))) /\
    json_submit_run (max_manifest_bytes limits) rq1 = Ok request /\
    submit_run limits (RunSpec_from_dto (srq_run_spec request)) (st_orchestrator (others turn (cw_hub w)))
      = (st_orchestrator st1, Ok record) /\
    execute_run (backend := backend) limits blob_root workdir_root path_var (run_id record)
      (st_orchestrator (others (S turn) st1)) = (st_orchestrator (cw_hub w'), Ok final) /\
    into_json (response OK (PRun (RunDto_from final))) = Ok v /\
    shows args v shown /\ cw_shown w' = cw_shown w ++ [shown].
Proof.
  intros Hcmd Hp1 Hp2 Hr turn. unfold cli_dispatch in Hr. rewrite Hcmd in Hr. cbv zeta in Hr.
  apply action_bind_Ok in Hr as (w0 & parameters & [-> Hpar%ok_or_Ok]%lift_Ok & Hr).
  apply action_bind_Ok in Hr as (w0 & bindings & [-> Hin]%lift_Ok & Hr).
  apply action_bind_Ok in Hr as (w1 & submitted & Hs & Hr). unfold send_json in Hs.
  set (rq1 := cli_request POST (url_of args "/api/v1/runs") _ _) in Hs.
  apply call_Ok in Hs as (st1 & rs1 & Hs1 & -> & Hst1 & Hj1).
  apply (post_served rq1 RtRuns _ _ _ _ ltac:(cbn; rewrite Hp1; exact runs_route) eq_refl eq_refl) in Hs1; [|done].
  unfold http_submit_run, with_body in Hs1.
  destruct (json_submit_run _ rq1) as [request|rejection] eqn:Hreq; [|injection Hs1 as _ <-; discriminate Hst1].
  destruct (check_schema_version _); [|injection Hs1 as _ <-; discriminate Hst1].
  apply offload_served in Hs1 as (o1 & record & Hsub & Hs1); [|done]. injection Hs1 as <- <-.
  unfold show_or_execute in Hr. cbn [negb] in Hr.
  apply action_bind_Ok in Hr as (w1 & run & [-> Hrun]%lift_Ok & Hr).
  rewrite (submitted_json (response CREATED (PRunSubmitted (RunDto_from record))) _ _ eq_refl Hj1) in Hrun. injection Hrun as <-.
  apply action_bind_Ok in Hr as (w2 & executed & Hs & Hr). unfold send_json in Hs.
  set (rq2 := cli_request POST (url_of args "/api/v1/executions") _ _) in Hs.
  apply call_Ok in Hs as (st2 & rs2 & Hs2 & -> & Hst2 & Hj2). cbn [cw_hub cw_sent cw_shown] in *.
  rewrite length_app, Nat.add_1_r in Hs2. fold turn in Hs2, Hsub.
  apply (post_served rq2 RtExecutions _ _ _ _ ltac:(cbn; rewrite Hp2; exact executions_route) eq_refl eq_refl) in Hs2;
    [|done].
  unfold http_execute_run in Hs2. destruct (json_run_id _ rq2) as [id|] eqn:Hid.
  2: { injection Hs2 as _ <-. pose proof (framework_rejects rq2). lia. }
  apply (run_id_json _ rq2 _ _ eq_refl) in Hid. unfold id_to_string in Hid. rewrite uuid_text_parse in Hid.
  assert (id = run_id record) as ->.
  { cbn [rd_id RunDto_from] in Hid. destruct id as [n], (run_id record) as [k]. cbn in Hid. congruence. }
  apply offload_served in Hs2 as (o2 & final & Hexec & Hs2); [|done]. injection Hs2 as <- <-.
  apply emit_Ok in Hr as (shown & Hshows & ->). cbn [cw_hub cw_sent cw_shown].
  exists parameters, bindings, rq1, rq2, request, record, (set_orchestrator (others turn (cw_hub w)) o1), final, executed, shown.
  split_and!; try done. by rewrite <- app_assoc.
Qed.
End client.

(** ** A concrete client and server *)
Section witnesses.
#[local] Existing Instance plain_json.
#[local] Existing Instance toy_manifest_json.
#[local] Existing Instance toy_workspace_json.
#[local] Existing Instance toy_sha.
#[local] Existing Instance calm_environment.
#[local] Existing Instance plain_uuid.
#[local] Existing Instance plain_uuid_text.
#[local] Existing Instance plain_uuid_text_laws.
#[local] Existing Instance writing_executor.

(** A JSON string is its text behind a mark; other values are not told apart. *)
#[local] Instance marked_values : ValueJson := {|
  value_from_str _ := Some VNull;
  value_to_string v := match v with VString s => String.append "s:" s | _ => "value"%string end;
  value_to_string_pretty v := Some (match v with VString s => s | _ => "value"%string end) |}.

Definition marked_string (body : list N) : option string := strip_prefix "s:" (string_of_bytes body).

#[local] Instance client_framework : WebFramework := {|
  axum_match := toy_match false;
  axum_rejection _ := Api.response NOT_FOUND PFramework;
  axum_query rq := Some (rq_headers rq);
  json_register_component _ _ := Err "not JSON";
  json_submit_run _ _ := Ok {| srq_schema_version := 1; srq_run_spec := RunSpecDto_from matrix_spec |};
  json_submit_workflow _ _ := Err "not JSON";
  json_run_id _ rq := text ← marked_string (rq_body rq); n ← uuid_from_str text; Some (from_uuid n) |}.

#[local] Instance client_framework_laws : WebFrameworkLaws.
Proof. split; [exact toy_match_literal|exact toy_match_only]. Qed.

#[local] Instance hub_urls : UrlClient := {|
  url_path url := default url (strip_prefix "http://hub" url);
  url_headers _ := ∅;
  into_json rs := Ok match rs_body rs with
                     | PRunSubmitted d => object [("run", object [("id", VString (id_to_string (rd_id d)))])]
                     | _ => VNull
                     end |}.

#[local] Instance no_snapshots : SnapshotJson := {| snapshot_from_str _ := None |}.
#[local] Instance no_input : CliHost := {| ci_stdin := Err "closed"; ci_file _ := Err "no file"; ci_token := None |}.
#[local] Instance good_link : CliLink := {| link_fault _ := None |}.

Lemma string_of_bytes_bytes s : string_of_bytes (bytes s) = s.
Proof.
  unfold string_of_bytes, bytes. induction s as [|c s IH]; [done|]. cbn. by rewrite ascii_N_embedding, IH.
Qed.

#[local] Instance client_laws : ClientLaws.
Proof.
  split.
  - intros rq. cbn. unfold NOT_FOUND. lia.
  - intros rs d v Hd. cbn. rewrite Hd. by intros [= <-].
  - intros limit rq t id Hb. cbn. unfold marked_string. rewrite Hb, string_of_bytes_bytes. cbn.
    destruct t; cbn; by intros [= <-].
Qed.

Definition submit_args : CliArgs :=
  {| ca_url := "http://hub"; ca_output := OutputHuman;
     ca_command := CmdRunSubmit "solver" "solve" "{}" ["matrix=m"] 1000 true |}.

Definition before_submit : CliWorld := mkCliWorld (with_event_repository (HubState_new matrix_hub)) [] [].

(** Between the two requests another client uploads an artifact. *)
Definition another_upload (n : nat) (st : HubState (Store := InMemoryHubStore) (Fences := InMemoryPublicationFences))
    : HubState :=
  if bool_decide (n = 1) then
    set_orchestrator st (ingest_artifact Limits_default "/hub" "other" "text/plain" [7%N] (st_orchestrator st)).1
  else st.

Abbreviation toy_dispatch := (cli_dispatch Limits_default "/hub" "/work" "/bin" "0.1.0" no_workflow another_upload).
Definition after_submit := toy_dispatch submit_args before_submit.

Definition hub_run_states (w : CliWorld (Store := InMemoryHubStore) (Fences := InMemoryPublicationFences)) : list RunState :=
  run_state <$> map_values (hs_runs (o_store (st_orchestrator (cw_hub w)))).

Lemma cli_waits_for_its_run_witness :
  after_submit.2 = Ok tt /\ hub_run_states after_submit.1 = [RsSucceeded] /\
  exists rq1 rq2 record, cw_sent after_submit.1 = [rq1; rq2] /\
    marked_string (rq_body rq2) = Some (id_to_string (run_id record)) /\
    length (cw_shown after_submit.1) = 1.
Proof.
  assert (Hr : after_submit.2 = Ok tt) by by vm_compute. split; [exact Hr|]. split; [by vm_compute|].
  assert (Hruns : url_path (url_of submit_args "/api/v1/runs") = "/api/v1/runs"%string) by by vm_compute.
  assert (Hexecs : url_path (url_of submit_args "/api/v1/executions") = "/api/v1/executions"%string) by by vm_compute.
  destruct (cli_waits_for_its_run Limits_default "/hub" "/work" "/bin" "0.1.0" no_workflow another_upload submit_args
              "solver" "solve" "{}" ["matrix=m"%string] 1000 before_submit after_submit.1 tt eq_refl Hruns Hexecs)
    as (parameters & bindings & rq1 & rq2 & request & record & o1 & final & v & shown & _ & _ & Hsent & _ & Hb2 & _ & _ & _ & _ & _ & Hshown).
  { rewrite <- Hr. apply surjective_pairing. }
  exists rq1, rq2, record. split; [exact Hsent|]. split; [|by rewrite Hshown].
  unfold marked_string. by rewrite Hb2, string_of_bytes_bytes.
Defined.
End witnesses.
